(* ===== verification/_CoqProject ===== *)
-Q . S2P
Prelude.v
Runtime.v
Hashing.v
Json.v
Approval.v
Policy.v
Controller.v
Tool.v
Session.v
Review.v
ReviewLoop.v
MultiHop.v
GroundedAnswer.v
Text.v
Package.v
Spec.v
Order.v
Search.v
Wire.v
Trust.v
Ir.v
Graph.v
RuntimePlan.v
Event.v
Serde.v
JsonRead.v
JsonMap.v
Frame.v
CompactState.v
Checkpoint.v
Firewall.v
EffectLedger.v
Artifact.v
NodeCache.v
EffectJournal.v
TypedProtocol.v
PureTransform.v
Exchange.v
Bridge.v
ReviewTools.v
Admission.v
Compile.v
GraphBuilder.v
Lock.v
SecurityAudit.v
Diagnostics.v
LoopState.v
LoopLedger.v
LoopRecovery.v
LoopController.v
LoopLimits.v
Llm.v
ModelProfiles.v
ModelTelemetry.v
ModelCalls.v
ModelPrompt.v
ModelInvocation.v
ModelRoutes.v
GithubIntake.v
IssueArtifact.v
IssueCard.v
IssueScc.v
IssueOrder.v
IssuePlan.v
