(* ===== verification/Prelude.v ===== *)
(** * adk-workflow-kit: a verification development

    adk-workflow-kit compiles a workflow written in TOML into an executable
    graph and runs it under a host's control: every model call, tool call and
    side effect is admitted by a limit, a capability, an approval or a policy,
    and what is produced is kept under content digests so that a run can be
    audited and resumed.  This library models the crates [workflow-runtime],
    [workflow-review], [workflow-spec], [workflow-ir], [workflow-compiler] and
    the model and run-loop layers of [workflow-adk], function by function, and
    proves what those functions promise.  A comment [path lines symbol] above a
    definition names the code it translates; paths are relative to
    [src/crates/<crate>/src], the crate abbreviated to its last word
    ([workflowctl] to [ctl]).

    ** Conventions

    [result E T] is Rust's [Result<T, E>], with [?] as bind.  A [&mut self]
    method is a function [method S E T := S → S * result E T] of the state, whose
    early returns keep the state they were made in; shared cells behind
    [Arc<Mutex<_>>] are fields of a state record that the operations thread.
    Machine integers are [Z] in range, with wrapping, saturating and checked
    operations written out ([u64_add], [u64_sub], ...); strings are UTF-8
    bytes; [HashMap] and [BTreeMap] are [gmap] where the code does not depend on
    an order and sorted lists where it does; an instant or a duration is a count
    of nanoseconds.

    What the program does not decide is an argument: the outcome of every file,
    database and network call and every look at the clock is in the environment
    record of an operation ([Io], [Turn], [FsIo], [OpenEnv], [PersistEnv],
    [PutIo], [CommitIo], [InvokeEnv], [Clock], [RouteEnv], ...), so a theorem
    about an operation holds whatever fails in it.  Third-party code is a class
    with the operations used and, as laws of a second class, the documented
    properties relied on: SHA-256 ([Sha256]; theorems about identities assume
    that the two texts at hand do not collide), [serde_json]'s writer and reader
    ([JsonText], [JsonRead]) and derived codecs ([Serde], [DeltaJson],
    [StampJson], [FirewallJson], [ScriptJson], [ArtifactJson], [TelemetryJson],
    [ProfileJson]), [jsonschema] ([JsonSchema], [JsonContract]), the WebAssembly
    interpreter ([Wasm]), the TOML decoders, URL parser and OpenAI client, and
    the [adk] library ([AdkContent], [AdkLlm], [AdkNew], [SessionService]).  Every
    theorem with a hypothesis, and every class with laws, has a witness with
    concrete instances.

    ** The parts

    Shared: [Prelude] (results, methods, integers, list and option lemmas,
    tactics), [Order] (comparators and stable sorting), [Text] (functions of
    [str]), [Hashing], [Json], [JsonRead], [JsonMap], [Serde], [Wire] (byte
    framing and its inverse), [Frame] (labelled text framing), [Search] (graph
    traversals).

    The host's controls ([workflow-runtime]): [Runtime] is the vocabulary of
    [lib.rs]; [Controller] the run controller of [controller.rs]; [Policy]
    capability classes and contextual policy of [policy.rs]; [Approval]
    [approval.rs]; [Session] [session.rs]; [Trust] [security.rs]; [Event]
    [event.rs]; [Firewall] [firewall*.rs] and the reduction of
    [semantic_firewall.rs]; [Admission] the approvals of [behavioral.rs].

    Tools and effects: [Tool] and [Bridge] are [tool.rs] and [bridge.rs];
    [EffectLedger] is [effect_ledger.rs] with its executor; [EffectJournal]
    [effect_journal.rs].

    Stores: [Artifact] is [artifact.rs], whose trait is the class
    [StagingStore] with laws that both stores meet; [Checkpoint]
    [checkpoint.rs]; [NodeCache] [node_cache.rs].  Exchange through a store:
    [TypedProtocol] [typed_protocol.rs], [CompactState]
    [workflow-ir/src/compact_state.rs], [Exchange]
    [workflow-runtime/src/compact_state.rs]; [PureTransform]
    [pure_transform.rs] and the transform half of [execution.rs].

    Review ([workflow-review]): [Review] is [lib.rs], [ReviewLoop]
    [review_loop.rs], [MultiHop], [GroundedAnswer] and [Package] the files of
    those names.  The loop is verified against the interface [Tool.Bridge] of a
    tool boundary; [ReviewTools] makes the bridge an instance and composes both.

    The compiler: [Spec] is [workflow-spec], [Ir] [workflow-ir/src/lib.rs],
    [Graph] and [Compile] [workflow-compiler/src/lib.rs] and [behavioral.rs];
    [GraphBuilder], [RuntimePlan], [Lock], [SecurityAudit] and [Diagnostics] the
    files of those names.

    Running a node ([workflow-adk]): [LoopState], [LoopLedger] and
    [LoopRecovery] are the durable model-loop ledger of [execution.rs] and
    [execution/], [LoopController] and [LoopLimits] its callbacks; [Llm],
    [ModelProfiles], [ModelTelemetry], [ModelCalls], [ModelPrompt],
    [ModelInvocation] and [ModelRoutes] are the model layer, from profiles to
    routed calls in a session.
    ** What is shown

    Limits: the controller and the model loops never exceed a ceiling, whatever
    fails ([controller_limits_enforced], [loop_limits_enforced]); the controller
    refines an abstract phase machine ([controller_refines_phases]); the review
    loop ends and stays within its budgets ([review_loop_terminates],
    [review_loop_bounded]); model calls, invocations and routes are bounded
    ([collected_call_bounded], [invocation_bounded_sound],
    [route_fallback_exact]).

    Authority: a tool runs only when registration, capability intersection and
    approval allow it ([bridge_dispatch_authorized],
    [ledger_authorizes_exact_call], [context_policy_effective]), a reviewer
    causes no effect ([review_causes_no_effect]), nothing unreviewed or invalid
    is published ([review_loop_publication], [pure_transform_publication]).

    Effects happen once: [effect_exactly_once], [effect_completes],
    [bridge_effect_once].

    Stores and recovery: [ledger_crash_recovery], [checkpoint_save_atomic],
    [artifact_publication_atomic], [node_cache_hit_binds],
    [delta_publish_consume], [exchange_publish_consume] and
    [source_page_verified] hold for every failure of the file system.

    Identity: encodings and hashes determine what they identify
    ([canonical_encoding_injective], [runtime_plan_hash_identifies],
    [invocation_identity_binds], [typed_output_exact]); joins and orders are
    irrelevant where the code says so ([compact_state_union_lattice],
    [compact_state_order_irrelevant], [prompt_protocol_canonical]).

    Exact acceptance: validators accept exactly what their rules say and
    report errors that are true of the input ([compile_exact],
    [validate_graph_exact], [validate_graph_error], [package_validation_exact],
    [runtime_plan_exact], [review_result_sound], [compile_diagnostic_printable],
    [profile_registry_sound]).
    Theorems that show a gap between the code and what it means to do:
    [foreign_type_key_gap], [idempotency_key_collision],
    [canonical_hash_collision], [honeytoken_scope_collision],
    [node_cache_hash_lines], [effect_key_collision],
    [resume_identity_collision].

    ** Bounds and fuel

    Recursion on data or on an explicit list of remaining work needs no fuel.
    Where the code loops on something else, fuel is a number the code's own
    state bounds, and a lemma excludes that it runs out: the graph traversals
    take the number of nodes and edges ([Search]); shrinking a rendering and
    cutting text take its length; the strict JSON reader and the UTF-8 check
    take the length of the text; reading and verifying an artifact take its size
    ([read_artifact_ends], [verify_artifact_ends]); the collected model call
    takes two rounds, one more than its retries ([collected_call_bounded] is
    total); the effect handler makes the code's own four turns
    ([effect_completes]); the attempts of an invocation are counted by
    [more_attempts], the code's loop bound.

    ** What is not modelled

    Threads: a callback, handler or reviewer that runs concurrently is a step or
    a sequence of steps under the mutex the code holds; a mutex is never
    poisoned unless a file says otherwise, and a handler that re-enters its own
    lock (a deadlock) is outside.  A lost race against a deadline takes effect
    wholly or not at all.  Callbacks return or panic, they do not diverge.

    Counters past [2^64] ([NEXT_CAPABILITY]), allocation failures, [fsync]
    ordering below the level of a call's outcome, permissions, leases and the
    opening of the effect ledger's files, the crash barriers and other test
    seams, [Debug] and [Display], and accessors that are record projections.

    Of [workflow-adk] the driver of a run ([RunContext] and the graph runner of
    [execution.rs], the agent and workflow glue of [lib.rs], event streams,
    behavioral probes and the sentinel workflow), which is glue around the
    [adk] library; of [workflow-runtime] the sandboxes (bubblewrap, podman),
    work directories and sealed files (system calls), datasets, GitHub and
    issue intake (network formats) and the sentinel text analysis; of
    [workflow-compiler] the skill files; the command line [workflowctl] and the
    test kit [workflow-testkit]. *)

From Stdlib Require Export Ascii String.
From stdpp Require Export base tactics numbers option list gmap strings sets sorting.
From Stdlib Require Export ZArith Lia.

#[export] Set Default Goal Selector "!".
#[export] Set Warnings "-clear-no-such-hyp".

(** ** Results

    [result E T] is Rust's [Result<T, E>], the error type first so that
    [result E] is a monad; [x ← e; k] is the [?] operator. *)

Inductive result (E T : Type) : Type :=
| Ok (value : T)
| Err (error : E).
Arguments Ok {E T} value.
Arguments Err {E T} error.

#[export] Instance result_ret {E : Type} : MRet (result E) := λ T x, Ok x.
#[export] Instance result_bind {E : Type} : MBind (result E) :=
  λ T U f r, match r with Ok x => f x | Err e => Err e end.
#[export] Instance result_fmap {E : Type} : FMap (result E) :=
  λ T U f r, match r with Ok x => Ok (f x) | Err e => Err e end.

#[export] Instance result_eq_dec {E T : Type} `{EqDecision E, EqDecision T} :
  EqDecision (result E T).
Proof. solve_decision. Defined.

(** [map_err f r] is [Result::map_err]. *)
Definition map_err {T E F : Type} (f : E → F) (r : result E T) : result F T :=
  match r with Ok x => Ok x | Err e => Err (f e) end.

(** [ensure b e] fails with [e] unless [b]: the early return
    [if !b { return Err(e) }]. *)
Definition ensure {E : Type} (b : bool) (e : E) : result E unit :=
  if b then Ok tt else Err e.

(** [traverse f l] is [l.map(f).collect::<Result<Vec<_>, _>>()]: the first
    failure in list order wins. *)
Fixpoint traverse {A B E : Type} (f : A → result E B) (l : list A) :
    result E (list B) :=
  match l with
  | [] => Ok []
  | x :: l => y ← f x; ys ← traverse f l; Ok (y :: ys)
  end.

(** [for_each f l] is [for x in l { f(x)? }]. *)
Fixpoint for_each {A E : Type} (f : A → result E unit) (l : list A) :
    result E unit :=
  match l with
  | [] => Ok tt
  | x :: l => f x;; for_each f l
  end.

(** [for x in l { state = f(x, state)? }]. *)
Fixpoint try_fold {A S E : Type} (f : A → S → result E S) (l : list A) (s : S) : result E S :=
  match l with
  | [] => Ok s
  | x :: l => s ← f x s; try_fold f l s
  end.

Section result_lemmas.
Context {T U E : Type}.
Implicit Types (r : result E T).

Lemma bind_Ok r (f : T → result E U) y :
  (r ≫= f) = Ok y ↔ ∃ x, r = Ok x ∧ f x = Ok y.
Proof. destruct r; cbn; naive_solver. Qed.

Lemma bind_Err r (f : T → result E U) e :
  (r ≫= f) = Err e ↔ r = Err e ∨ ∃ x, r = Ok x ∧ f x = Err e.
Proof. destruct r; cbn; naive_solver. Qed.

Lemma ensure_Ok (b : bool) (e : E) u : ensure b e = Ok u ↔ b = true.
Proof. destruct u, b; naive_solver. Qed.

Lemma ensure_Err (b : bool) (e e' : E) :
  ensure b e = Err e' ↔ b = false ∧ e = e'.
Proof. destruct b; naive_solver. Qed.

Lemma ensure_bind_Ok (b : bool) (e : E) (k : result E U) y :
  (ensure b e ≫= λ _, k) = Ok y ↔ b = true ∧ k = Ok y.
Proof. destruct b; cbn; naive_solver. Qed.

Lemma ensure_bind_Err (b : bool) (e e' : E) (k : result E U) :
  (ensure b e ≫= λ _, k) = Err e' ↔ b = false ∧ e = e' ∨ b = true ∧ k = Err e'.
Proof. destruct b; cbn; naive_solver. Qed.

Lemma map_err_Err {F} (f : E → F) r e :
  map_err f r = Err e ↔ ∃ e', r = Err e' ∧ e = f e'.
Proof. destruct r; cbn; naive_solver. Qed.

Lemma map_err_Ok {F} (f : E → F) r x : map_err f r = Ok x ↔ r = Ok x.
Proof. destruct r; naive_solver. Qed.
End result_lemmas.

Lemma traverse_Ok {A B E : Type} (f : A → result E B) l ys :
  traverse f l = Ok ys ↔ Forall2 (λ x y, f x = Ok y) l ys.
Proof.
  revert ys. induction l as [|x l IH]; intros ys; cbn.
  - split; [intros [= <-]; constructor|by inversion 1].
  - rewrite bind_Ok. setoid_rewrite bind_Ok. split.
    + intros (y & Hy & ys' & Hys & [= <-]). constructor; [done|by apply IH].
    + inversion 1; subst. eexists; split; [done|].
      eexists; split; [by apply IH|done].
Qed.

Lemma for_each_Ok {A E : Type} (f : A → result E unit) l u :
  for_each f l = Ok u ↔ ∀ x, x ∈ l → f x = Ok tt.
Proof.
  destruct u. induction l as [|x l IH]; cbn.
  - split; [intros _ x Hx; by apply elem_of_nil in Hx|done].
  - rewrite bind_Ok. split.
    + intros ([] & Hx & Hl) y [->|Hy]%elem_of_cons; [done|by apply IH].
    + intros H. exists tt. split; [apply H; set_solver|].
      apply IH. intros y Hy. apply H. set_solver.
Qed.

Lemma for_each_bind_Ok {A B E} (f : A → result E unit) l (k : result E B) y :
  (for_each f l ≫= λ _, k) = Ok y ↔ (∀ x, x ∈ l → f x = Ok tt) ∧ k = Ok y.
Proof.
  rewrite bind_Ok. setoid_rewrite for_each_Ok. split; [by intros (? & ? & ?)|].
  intros [??]. by exists tt.
Qed.

Lemma try_fold_Err {A S E} (f : A → S → result E S) l s e :
  try_fold f l s = Err e → ∃ x s', x ∈ l ∧ f x s' = Err e.
Proof.
  revert s. induction l as [|x l IH]; intros s; cbn; [done|]. rewrite bind_Err.
  intros [Hx|(s' & Hs & Hl)].
  - exists x, s. split; [set_solver|done].
  - apply IH in Hl as (y & s'' & Hy & Hf). exists y, s''. split; [set_solver|done].
Qed.

Lemma try_fold_app {A S E} (f : A → S → result E S) l k s :
  try_fold f (l ++ k) s = try_fold f l s ≫= try_fold f k.
Proof. revert s. induction l as [|x l IH]; intros s; cbn; [done|]. destruct (f x s); cbn; [apply IH|done]. Qed.

(** An early return: [if b { return Err(e) }]. *)
Lemma guard_Ok {E A} (b : bool) (e : E) (k : result E A) y :
  (if b then Err e else k) = Ok y ↔ b = false ∧ k = Ok y.
Proof. destruct b; naive_solver. Qed.

Lemma guard_Err_impl {E A} (P : E → Prop) (b : bool) (e e' : E) (k : result E A) :
  P e → (k = Err e' → P e') → (if b then Err e else k) = Err e' → P e'.
Proof. destruct b; naive_solver. Qed.

(** ** Methods

    A [&mut self] method returning [Result<A, E>]: the receiver is threaded
    explicitly and keeps its updates when the method fails. *)

Definition method (S E A : Type) : Type := S → S * result E A.

#[export] Instance method_ret {S E : Type} : MRet (method S E) := λ A x s, (s, Ok x).
#[export] Instance method_bind {S E : Type} : MBind (method S E) :=
  λ A B f m s,
    match m s with
    | (s, Ok x) => f x s
    | (s, Err e) => (s, Err e)
    end.

Definition gets {S E A : Type} (f : S → A) : method S E A := λ s, (s, Ok (f s)).
Definition modify {S E : Type} (f : S → S) : method S E unit := λ s, (f s, Ok tt).
Definition throw {S E A : Type} (e : E) : method S E A := λ s, (s, Err e).

(** [wp m Q R s]: run from [s], [m] either returns with [Q] or fails with [R].
    The rules below execute a method symbolically, from left to right. *)
Definition wp {S E A : Type} (m : method S E A) (Q : A → S → Prop) (R : E → S → Prop)
    (s : S) : Prop :=
  match m s with
  | (s, Ok x) => Q x s
  | (s, Err e) => R e s
  end.

Section wp_rules.
Context {S E A U : Type}.
Implicit Types (Q : A → S → Prop) (R : E → S → Prop) (s : S).

Lemma wp_bind (m : method S E U) (f : U → method S E A) Q R s :
  wp m (λ x, wp (f x) Q R) R s → wp (m ≫= f) Q R s.
Proof. unfold wp, mbind, method_bind. by destruct (m s) as [s' [x|e]]. Qed.

Lemma wp_ret x Q R s : Q x s → wp (mret x) Q R s.
Proof. done. Qed.
Lemma wp_gets (f : S → A) Q R s : Q (f s) s → wp (gets f) Q R s.
Proof. done. Qed.
Lemma wp_modify (f : S → S) (Q : unit → S → Prop) R s : Q tt (f s) → wp (modify f) Q R s.
Proof. done. Qed.
Lemma wp_throw e Q R s : R e s → wp (throw e) Q R s.
Proof. done. Qed.

Lemma wp_mono (m : method S E A) (P Q : A → S → Prop) (P' R : E → S → Prop) s :
  (∀ x s, P x s → Q x s) → (∀ e s, P' e s → R e s) → wp m P P' s → wp m Q R s.
Proof. unfold wp. destruct (m s) as [s' [x|e]]; auto. Qed.

Lemma wp_if (b : bool) (m1 m2 : method S E A) Q R s :
  (b = true → wp m1 Q R s) → (b = false → wp m2 Q R s) → wp (if b then m1 else m2) Q R s.
Proof. destruct b; auto. Qed.

Lemma wp_eval (m : method S E A) Q R s s' r :
  wp m Q R s → m s = (s', r) → match r with Ok x => Q x s' | Err e => R e s' end.
Proof. unfold wp. intros H E'. by rewrite E' in H. Qed.
End wp_rules.

(** ** Machine integers

    A [u64] or [usize] (64-bit targets) is a [Z] in [0, 2^64).  [u64_add] and
    [u64_sub] wrap, as the release profile does; [checked_add] is
    [u64::checked_add], [saturating_add] is [u64::saturating_add]. *)

Definition u64_modulus : Z := 2 ^ 64.
Definition u64_max : Z := u64_modulus - 1.
Definition u64 (x : Z) : Prop := (0 ≤ x < u64_modulus)%Z.
#[export] Instance u64_dec x : Decision (u64 x) := _.

Definition u64_add (a b : Z) : Z := (a + b) `mod` u64_modulus.
Definition u64_sub (a b : Z) : Z := (a - b) `mod` u64_modulus.
Definition checked_add (a b : Z) : option Z :=
  if decide (a + b ≤ u64_max)%Z then Some (a + b)%Z else None.
Definition saturating_add (a b : Z) : Z := Z.min (a + b) u64_max.

(** [Vec::len] and [str::len] as a [usize]. *)
Definition zlength {A : Type} (l : list A) : Z := Z.of_nat (length l).
Definition str_len (s : string) : Z := Z.of_nat (String.length s).

Ltac unfold_u64 := unfold u64, u64_max, u64_modulus in *.

Lemma u64_add_small a b :
  u64 a → u64 b → (a + b ≤ u64_max)%Z → u64_add a b = (a + b)%Z.
Proof.
  unfold u64_add. intros. apply Z.mod_small. unfold_u64. lia.
Qed.

Lemma u64_sub_small a b : u64 a → u64 b → (b ≤ a)%Z → u64_sub a b = (a - b)%Z.
Proof. unfold u64_sub. intros. apply Z.mod_small. unfold_u64. lia. Qed.

Lemma checked_add_Some a b c :
  checked_add a b = Some c ↔ c = (a + b)%Z ∧ (a + b ≤ u64_max)%Z.
Proof. unfold checked_add. case_decide; naive_solver. Qed.

Lemma checked_add_None a b : checked_add a b = None ↔ (u64_max < a + b)%Z.
Proof. unfold checked_add. case_decide; split; (done || lia). Qed.

(** ** Strings

    A Rust [str] or [String] is its sequence of UTF-8 bytes, as a Stdlib
    [string] (one [ascii] per byte). *)

Fixpoint str_bytes (s : string) : list ascii :=
  match s with
  | EmptyString => []
  | String c s => c :: str_bytes s
  end.

Definition byte_N (c : ascii) : N := Ascii.N_of_ascii c.

Definition str_is_empty (s : string) : bool :=
  match s with EmptyString => true | _ => false end.

(** [str::bytes().any(p)] and [str::bytes().all(p)]. *)
Definition str_any (p : ascii → bool) (s : string) : bool := existsb p (str_bytes s).
Definition str_all (p : ascii → bool) (s : string) : bool := forallb p (str_bytes s).

(** [u8::is_ascii_control]: U+0000..U+001F and U+007F. *)
Definition is_ascii_control (c : ascii) : bool :=
  ((byte_N c <=? 31) || (byte_N c =? 127))%N.
Definition is_ascii_digit (c : ascii) : bool :=
  ((48 <=? byte_N c) && (byte_N c <=? 57))%N.
Definition is_ascii_upper (c : ascii) : bool :=
  ((65 <=? byte_N c) && (byte_N c <=? 90))%N.
Definition is_ascii_lower (c : ascii) : bool :=
  ((97 <=? byte_N c) && (byte_N c <=? 122))%N.
Definition is_ascii_alphanumeric (c : ascii) : bool :=
  is_ascii_digit c || is_ascii_upper c || is_ascii_lower c.

(** The lowercase hexadecimal digits accepted by every digest check. *)
Definition is_lower_hex (c : ascii) : bool :=
  (is_ascii_digit c || ((97 <=? byte_N c) && (byte_N c <=? 102)))%N.

Definition str_eqb (a b : string) : bool := bool_decide (a = b).

Lemma str_eqb_eq a b : str_eqb a b = true ↔ a = b.
Proof. apply bool_decide_eq_true. Qed.

Lemma str_is_empty_true s : str_is_empty s = true ↔ s = "".
Proof. destruct s; naive_solver. Qed.
Lemma str_is_empty_false s : str_is_empty s = false ↔ s ≠ "".
Proof. destruct s; naive_solver. Qed.

#[local] Arguments String.append !_ _ /.
Lemma str_app_assoc (a b c : string) : (a +:+ b) +:+ c = a +:+ (b +:+ c).
Proof. induction a as [|x a IH]; [done|]. cbn. by rewrite IH. Qed.
Lemma str_app_nil_r (a : string) : a +:+ "" = a.
Proof. induction a as [|x a IH]; cbn; [done|]. by rewrite IH. Qed.
Lemma str_length_app (a b : string) : String.length (a +:+ b) = String.length a + String.length b.
Proof. induction a; cbn; congruence. Qed.
Lemma str_len_app a b : str_len (a +:+ b) = (str_len a + str_len b)%Z.
Proof. unfold str_len. rewrite str_length_app. lia. Qed.

(** [str::contains(needle)] for a [str] needle: substring search. *)
Fixpoint str_contains (hay needle : string) : bool :=
  String.prefix needle hay ||
  match hay with EmptyString => false | String _ hay => str_contains hay needle end.

(** ** Options and lists *)

Definition is_some {A : Type} (o : option A) : bool :=
  match o with Some _ => true | None => false end.
Definition is_nil {A : Type} (l : list A) : bool := match l with [] => true | _ => false end.

Lemma is_some_false {A} (o : option A) : is_some o = false → o = None.
Proof. by destruct o. Qed.
Lemma is_nil_true {A} (l : list A) : is_nil l = true → l = [].
Proof. by destruct l. Qed.

(** [l.iter().enumerate().any(|(i, x)| l[..i].iter().any(|y| key y == key x))]:
    some element repeats the key of an earlier one. *)
Fixpoint dup_key_from (seen : list string) (l : list string) : bool :=
  match l with
  | [] => false
  | x :: l => bool_decide (x ∈ seen) || dup_key_from (seen ++ [x]) l
  end.
Definition has_dup_key (l : list string) : bool := dup_key_from [] l.

Lemma dup_key_from_false seen l :
  dup_key_from seen l = false ↔ NoDup l ∧ (∀ x, x ∈ l → x ∉ seen).
Proof.
  revert seen. induction l as [|x l IH]; intros seen; cbn.
  - split; [intros _; split; [constructor|set_solver]|done].
  - rewrite orb_false_iff, bool_decide_eq_false, IH, NoDup_cons.
    set_solver.
Qed.

Lemma has_dup_key_false l : has_dup_key l = false ↔ NoDup l.
Proof. unfold has_dup_key. rewrite dup_key_from_false. set_solver. Qed.

Lemma existsb_false_iff {A} (p : A → bool) l :
  existsb p l = false ↔ ∀ x, x ∈ l → p x = false.
Proof.
  induction l as [|y l IH]; cbn; [set_solver|].
  rewrite orb_false_iff, IH. set_solver.
Qed.

Lemma existsb_true_iff {A} (p : A → bool) l :
  existsb p l = true ↔ ∃ x, x ∈ l ∧ p x = true.
Proof.
  rewrite existsb_exists. setoid_rewrite list_elem_of_In. done.
Qed.

Lemma forallb_true_iff {A} (p : A → bool) l :
  forallb p l = true ↔ ∀ x, x ∈ l → p x = true.
Proof.
  rewrite forallb_forall. setoid_rewrite list_elem_of_In. done.
Qed.

(** [find p l] of the Standard Library is [iter().find(p)]. *)
Lemma find_Some_iff {A} (p : A → bool) l x :
  List.find p l = Some x → x ∈ l ∧ p x = true.
Proof. intros [H1 H2]%find_some. by rewrite list_elem_of_In. Qed.

Lemma find_None_iff {A} (p : A → bool) l :
  List.find p l = None ↔ ∀ x, x ∈ l → p x = false.
Proof.
  induction l as [|y l IH]; cbn; [set_solver|].
  destruct (p y) eqn:E; [|rewrite IH; set_solver].
  split; [done|]. intros H. rewrite H in E by set_solver. done.
Qed.

Lemma NoDup_map_inj_on {A B} (f : A → B) l x y :
  NoDup (map f l) → x ∈ l → y ∈ l → f x = f y → x = y.
Proof.
  intros Hnd [i Hi]%list_elem_of_lookup [j Hj]%list_elem_of_lookup E.
  rewrite NoDup_alt in Hnd. assert (i = j) as ->; [|congruence].
  apply (Hnd i j (f x)); apply list_lookup_fmap_Some; eauto.
Qed.

(** ** Sorting by a text key

    [sort_by_key key l] is [l.sort_by_key(key)] for a [&str] key: byte order of
    the keys.  The unstable sorts and the hash-set iterations of the code are
    only applied where the key is injective, so that the result depends on the
    elements alone ([sort_by_key_unique]). *)

Definition key_le {A : Type} (key : A → string) (x y : A) : Prop :=
  String.le (key x) (key y).
#[export] Instance key_le_dec {A} (key : A → string) : RelDecision (key_le key).
Proof. intros x y. apply String.le_dec. Defined.
#[export] Instance key_le_trans {A} (key : A → string) : Transitive (key_le key).
Proof. intros x y z. unfold key_le. by etrans. Qed.
#[export] Instance key_le_total {A} (key : A → string) : Total (key_le key).
Proof. intros x y. unfold key_le. apply (total String.le). Qed.

Definition sort_by_key {A : Type} (key : A → string) (l : list A) : list A :=
  merge_sort (key_le key) l.

Lemma sort_by_key_Permutation {A} (key : A → string) l : sort_by_key key l ≡ₚ l.
Proof. apply merge_sort_Permutation. Qed.

Lemma sort_by_key_sorted {A} (key : A → string) l :
  StronglySorted (key_le key) (sort_by_key key l).
Proof. apply (StronglySorted_merge_sort _). Qed.

Lemma elem_of_sort_by_key {A} (key : A → string) l x :
  x ∈ sort_by_key key l ↔ x ∈ l.
Proof. by rewrite sort_by_key_Permutation. Qed.

Lemma sort_by_key_unique {A} (key : A → string) `{!Inj (=) (=) key} l1 l2 :
  l1 ≡ₚ l2 → sort_by_key key l1 = sort_by_key key l2.
Proof.
  intros Hp. assert (AntiSymm (=) (key_le key)).
  { intros x y Hxy Hyx. apply (inj key). by apply (anti_symm String.le). }
  eapply (StronglySorted_unique (key_le key)); [apply sort_by_key_sorted..|].
  by rewrite !sort_by_key_Permutation.
Qed.

(** [Vec::dedup]: consecutive repetitions are removed. *)
Fixpoint dedup {A : Type} `{EqDecision A} (l : list A) : list A :=
  match l with
  | c :: ((d :: _) as l) => if bool_decide (c = d) then dedup l else c :: dedup l
  | l => l
  end.

Lemma elem_of_dedup {A} `{EqDecision A} (l : list A) c : c ∈ dedup l ↔ c ∈ l.
Proof.
  induction l as [|x l IH]; [done|]. destruct l as [|y l]; [done|]. cbn [dedup].
  case_bool_decide as Hxy; [subst y; rewrite IH, !elem_of_cons; tauto|].
  rewrite !elem_of_cons. cbn [dedup] in IH. rewrite IH, elem_of_cons. tauto.
Qed.

(** Sorting and removing repetitions makes the list strictly sorted. *)
Lemma dedup_sorted {A} `{EqDecision A} (R : relation A) l :
  StronglySorted R l → StronglySorted R (dedup l).
Proof.
  induction l as [|x l IH]; [done|]. intros Hs. apply StronglySorted_inv in Hs as [Hs Hx].
  specialize (IH Hs). destruct l as [|y l]; [by repeat constructor|]. cbn [dedup].
  case_bool_decide; [done|]. constructor; [done|].
  rewrite Forall_forall in Hx |- *. intros z Hz. by apply Hx, (elem_of_dedup (y :: l)).
Qed.

(** [BTreeSet] and [BTreeMap] iterate in the order of their elements and keys. *)
Definition btree_elements (s : gset string) : list string := sort_by_key id (elements s).
Definition btree_entries {A : Type} (m : gmap string A) : list (string * A) :=
  sort_by_key fst (map_to_list m).
Definition btree_values {A : Type} (m : gmap string A) : list A := map snd (btree_entries m).

Lemma elem_of_btree_elements s x : x ∈ btree_elements s ↔ x ∈ s.
Proof. unfold btree_elements. by rewrite elem_of_sort_by_key, elem_of_elements. Qed.

Lemma elem_of_btree_entries {A} (m : gmap string A) k x :
  (k, x) ∈ btree_entries m ↔ m !! k = Some x.
Proof. unfold btree_entries. by rewrite elem_of_sort_by_key, elem_of_map_to_list. Qed.

Lemma btree_entries_keys {A} (m : gmap string A) : NoDup (map fst (btree_entries m)).
Proof.
  unfold btree_entries. rewrite (Permutation_map fst (sort_by_key_Permutation fst _)).
  apply NoDup_fst_map_to_list.
Qed.

#[export] Instance btree_entries_inj {A} : Inj (=) (=) (btree_entries (A := A)).
Proof.
  intros m m' E. apply map_eq. intros k. apply option_eq. intros x.
  by rewrite <- !elem_of_btree_entries, E.
Qed.

Lemma elem_of_btree_values {A} (m : gmap string A) x :
  x ∈ btree_values m ↔ ∃ k, m !! k = Some x.
Proof.
  unfold btree_values. rewrite list_elem_of_fmap. split.
  - intros ([k y] & -> & Hy). exists k. by apply elem_of_btree_entries.
  - intros [k Hk]. exists (k, x). split; [done|]. by apply elem_of_btree_entries.
Qed.

(** ** Automation

    [kit] is the hint and rewrite database of the development: the boolean
    tests of the code turned into the propositions they decide. *)

Create HintDb kit.
Create Rewrite HintDb kit.
#[export] Hint Rewrite @ensure_Ok @ensure_Err @bind_Ok @bind_Err @for_each_Ok
  @traverse_Ok @map_err_Ok : kit.
#[export] Hint Rewrite str_eqb_eq str_is_empty_true str_is_empty_false
  has_dup_key_false @existsb_false_iff @existsb_true_iff @forallb_true_iff
  @elem_of_sort_by_key orb_true_iff orb_false_iff andb_true_iff andb_false_iff negb_true_iff
  negb_false_iff : kit.
#[export] Hint Rewrite @bool_decide_eq_true @bool_decide_eq_false : kit.
#[export] Hint Resolve u64_add_small u64_sub_small : kit.

Ltac kit_simpl := autorewrite with kit in *.

(** Split every [match]/[if] of the goal or a hypothesis, closing the
    contradictory branches. *)
Ltac break_match :=
  match goal with
  | |- context [match ?x with _ => _ end] => destruct x eqn:?
  | H : context [match ?x with _ => _ end] |- _ => destruct x eqn:?
  end.
Ltac crush_match := repeat (break_match; simplify_eq/=; try done).
