(* ===== verification/Runtime.v ===== *)
(** * Run identity, limits and outcomes

    The public vocabulary of [workflow-runtime/src/lib.rs] that the host
    controller, the executor and the review loop share. *)

From S2P Require Import Prelude.

(** An unsigned 64-bit integer that is not zero ([NonZeroU64]). *)
Definition nonzero_u64 (x : Z) : Prop := (0 < x ≤ u64_max)%Z.

(*| runtime/lib.rs 226-228 RunId *)
Record RunId := mk_RunId { run_id_str : string }.

(*| runtime/lib.rs 255-257 InvalidRunId *)
Inductive InvalidRunIdError := InvalidRunId.

(*| runtime/lib.rs 232-238 RunId::new *)
Definition RunId_new (value : string) : result InvalidRunIdError RunId :=
  if str_is_empty value then Err InvalidRunId else Ok (mk_RunId value).

(*| runtime/lib.rs 267-336 RunLimits *)
Record RunLimits := mk_RunLimits {
  max_model_turns : Z;
  max_tool_calls : Z;
  max_calls_per_tool : Z;
  max_wall_time_ms : Z;
  max_idle_time_ms : Z;
  max_tool_time_ms : Z;
  max_tool_output_bytes : Z
}.

(** Every ceiling is a [NonZeroU64]. *)
Definition RunLimits_wf (l : RunLimits) : Prop :=
  nonzero_u64 (max_model_turns l) ∧ nonzero_u64 (max_tool_calls l) ∧
  nonzero_u64 (max_calls_per_tool l) ∧ nonzero_u64 (max_wall_time_ms l) ∧
  nonzero_u64 (max_idle_time_ms l) ∧ nonzero_u64 (max_tool_time_ms l) ∧
  nonzero_u64 (max_tool_output_bytes l).

(*| runtime/lib.rs 338-361 RunContext *)
Record RunContext := mk_RunContext {
  ctx_run_id : RunId;
  ctx_limits : RunLimits
}.

(*| runtime/lib.rs 363-383 RunStatus *)
Inductive RunStatus :=
| StatusCompleted | StatusAbstained | StatusIncomplete | StatusFailed
| StatusCancelled | StatusTimedOut | StatusLimitExceeded | StatusPolicyDenied.

(*| runtime/lib.rs 385-395 RunTimeoutKind *)
Inductive RunTimeoutKind := WallTime | IdleTime | ToolTime.

(*| runtime/lib.rs 397-409 RunLimitKind *)
Inductive RunLimitKind :=
| ModelTurns | TotalToolCalls | ToolCallsPerTool | ToolOutputBytes.

(*| runtime/lib.rs 411-441 RunOutcome *)
Inductive RunOutcome (T D : Type) :=
| OutcomeCompleted (output : T)
| OutcomeAbstained (diagnostic : D)
| OutcomeIncomplete (diagnostic : D)
| OutcomeFailed (diagnostic : D)
| OutcomeCancelled (diagnostic : D)
| OutcomeTimedOut (timeout : RunTimeoutKind) (diagnostic : D)
| OutcomeLimitExceeded (limit : RunLimitKind) (diagnostic : D)
| OutcomePolicyDenied (diagnostic : D).
Arguments OutcomeCompleted {T D} output.
Arguments OutcomeAbstained {T D} diagnostic.
Arguments OutcomeIncomplete {T D} diagnostic.
Arguments OutcomeFailed {T D} diagnostic.
Arguments OutcomeCancelled {T D} diagnostic.
Arguments OutcomeTimedOut {T D} timeout diagnostic.
Arguments OutcomeLimitExceeded {T D} limit diagnostic.
Arguments OutcomePolicyDenied {T D} diagnostic.

(*| runtime/lib.rs 443-457 RunOutcome::status *)
Definition outcome_status {T D : Type} (o : RunOutcome T D) : RunStatus :=
  match o with
  | OutcomeCompleted _ => StatusCompleted
  | OutcomeAbstained _ => StatusAbstained
  | OutcomeIncomplete _ => StatusIncomplete
  | OutcomeFailed _ => StatusFailed
  | OutcomeCancelled _ => StatusCancelled
  | OutcomeTimedOut _ _ => StatusTimedOut
  | OutcomeLimitExceeded _ _ => StatusLimitExceeded
  | OutcomePolicyDenied _ => StatusPolicyDenied
  end.

(*| runtime/lib.rs 459-487 RunResult *)
Record RunResult (T D : Type) := mk_RunResult {
  result_run_id : RunId;
  result_outcome : RunOutcome T D
}.
Arguments mk_RunResult {T D} result_run_id result_outcome.
Arguments result_run_id {T D} r : rename.
Arguments result_outcome {T D} r : rename.

#[export] Instance RunId_eq_dec : EqDecision RunId.
Proof. solve_decision. Defined.
#[export] Instance RunLimits_eq_dec : EqDecision RunLimits.
Proof. solve_decision. Defined.
#[export] Instance RunContext_eq_dec : EqDecision RunContext.
Proof. solve_decision. Defined.
#[export] Instance RunTimeoutKind_eq_dec : EqDecision RunTimeoutKind.
Proof. solve_decision. Defined.
#[export] Instance RunLimitKind_eq_dec : EqDecision RunLimitKind.
Proof. solve_decision. Defined.

(** ** Durations

    [std::time::Duration] is a [u64] of seconds and fewer than 10^9
    nanoseconds; here the total number of nanoseconds.  [duration_checked_add]
    is [Duration::checked_add], [duration_millis] is [Duration::from_millis]
    (always representable) and [as_millis] is [Duration::as_millis]. *)

Definition duration_max : Z := u64_modulus * 10 ^ 9 - 1.
Definition duration (d : Z) : Prop := (0 ≤ d ≤ duration_max)%Z.
Definition duration_millis (ms : Z) : Z := ms * 10 ^ 6.
Definition as_millis (d : Z) : Z := d / 10 ^ 6.
Definition duration_checked_add (a b : Z) : option Z :=
  if decide (a + b ≤ duration_max)%Z then Some (a + b)%Z else None.
