(* ===== verification/Hashing.v ===== *)
(** * Digests and hexadecimal text

    The hash function is third-party code ([sha2]): a class with one operation
    and no law.  What the code itself does with digests is the hexadecimal
    text of [encode_hex] ([workflow-runtime/src/lib.rs]) and of the
    [format!("{byte:02x}")] loops, which is modelled and proved injective. *)

From S2P Require Import Prelude.

(** SHA-256: from the hashed bytes to the digest bytes. *)
Class Sha256 := sha256 : string → string.

(** [DIGITS[i]]; an index of 16 or more cannot occur (a nibble). *)
Definition hex_digit (i : N) : ascii :=
  default "0"%char (String.get (N.to_nat i) "0123456789abcdef").

(*| runtime/lib.rs 214-223 encode_hex *)
Fixpoint encode_hex (bytes : string) : string :=
  match bytes with
  | EmptyString => EmptyString
  | String byte bytes =>
      String (hex_digit (N.shiftr (byte_N byte) 4))
        (String (hex_digit (N.land (byte_N byte) 15)) (encode_hex bytes))
  end.

(** [format!("{:02x}", byte)]: the lowercase base-16 digits, most significant
    first, padded with zeros to two places. *)
Definition format_02x (byte : ascii) : string :=
  let n := byte_N byte in
  String (hex_digit (n / 16)) (String (hex_digit (n mod 16)) EmptyString).

(*| review/lib.rs 369-371 hex *)
Fixpoint hex (bytes : string) : string :=
  match bytes with
  | EmptyString => EmptyString
  | String byte bytes => format_02x byte +:+ hex bytes
  end.

(** The value of a lowercase hexadecimal digit. *)
Definition hex_value (c : ascii) : N :=
  if is_ascii_digit c then (byte_N c - 48)%N else (byte_N c - 87)%N.

Lemma nibble_cases (P : N → Prop) :
  Forall P [0; 1; 2; 3; 4; 5; 6; 7; 8; 9; 10; 11; 12; 13; 14; 15]%N →
  ∀ i, (i < 16)%N → P i.
Proof.
  rewrite Forall_forall. intros H i Hi. apply H.
  assert (i ∈ (N.of_nat <$> seq 0 16)) as Hin; [|exact Hin].
  apply list_elem_of_fmap. exists (N.to_nat i). rewrite elem_of_seq. lia.
Qed.

Lemma hex_value_digit i : (i < 16)%N → hex_value (hex_digit i) = i.
Proof. revert i. apply nibble_cases. by repeat constructor. Qed.

Lemma hex_digit_lower i : (i < 16)%N → is_lower_hex (hex_digit i) = true.
Proof. revert i. apply nibble_cases. by repeat constructor. Qed.

Lemma byte_N_bound c : (byte_N c < 256)%N.
Proof. apply N_ascii_bounded. Qed.

Lemma byte_N_inj a b : byte_N a = byte_N b → a = b.
Proof.
  unfold byte_N. intros H. rewrite <- (ascii_N_embedding a), <- (ascii_N_embedding b).
  by rewrite H.
Qed.

Lemma high_nibble c : N.shiftr (byte_N c) 4 = (byte_N c / 16)%N.
Proof. by rewrite N.shiftr_div_pow2. Qed.
Lemma low_nibble c : N.land (byte_N c) 15 = (byte_N c mod 16)%N.
Proof. exact (N.land_ones (byte_N c) 4). Qed.
Lemma high_nibble_lt c : (byte_N c / 16 < 16)%N.
Proof. pose proof (byte_N_bound c). apply N.Div0.div_lt_upper_bound. lia. Qed.
Lemma low_nibble_lt c : (byte_N c mod 16 < 16)%N.
Proof. by apply N.mod_lt. Qed.

(** The two hexadecimal printers of the repository agree. *)
Lemma hex_encode_hex bytes : hex bytes = encode_hex bytes.
Proof.
  induction bytes as [|c bytes IH]; [done|]. cbn. by rewrite IH, high_nibble, low_nibble.
Qed.

Lemma encode_hex_length bytes :
  String.length (encode_hex bytes) = 2 * String.length bytes.
Proof. induction bytes; cbn; [done|]. lia. Qed.

Lemma encode_hex_lower bytes : str_all is_lower_hex (encode_hex bytes) = true.
Proof.
  unfold str_all. induction bytes as [|c bytes IH]; [done|].
  cbn [encode_hex str_bytes forallb].
  rewrite high_nibble, low_nibble, !hex_digit_lower by
    (apply high_nibble_lt || apply low_nibble_lt).
  by rewrite IH.
Qed.

#[export] Instance encode_hex_inj : Inj (=) (=) encode_hex.
Proof.
  intros a. induction a as [|x a IH]; intros [|y b]; try done.
  cbn [encode_hex]. rewrite !high_nibble, !low_nibble. intros [= H1 H2 H3].
  apply (f_equal hex_value) in H1, H2.
  rewrite !hex_value_digit in H1, H2 by (apply high_nibble_lt || apply low_nibble_lt).
  rewrite (IH b H3). f_equal. apply byte_N_inj.
  rewrite (N.div_mod' (byte_N x) 16), (N.div_mod' (byte_N y) 16). congruence.
Qed.

#[export] Instance hex_inj : Inj (=) (=) hex.
Proof. intros a b. rewrite !hex_encode_hex. apply (inj encode_hex). Qed.
