(* ===== verification/Json.v ===== *)
(** * JSON values and their canonical text

    [serde_json::Value] and the canonical writer of
    [workflow-runtime/src/approval.rs].  How [serde_json] prints a number and a
    string is third-party code: the class [JsonText], whose documented
    properties are the laws [JsonTextLaws].  An object is its list of entries
    ([serde_json] is built without [preserve_order], so it is a sorted map; the
    canonical writer sorts the keys again, so nothing here relies on that). *)

From S2P Require Import Prelude.
From S2P Require Import Hashing.

Class JsonText := {
  json_number : Type;
  number_text : json_number → string;
  string_text : string → string
}.

#[warnings="-register-all"]
Inductive Value `{JsonText} :=
| Null
| Bool (b : bool)
| Number (n : json_number)
| VString (s : string)
| Array (values : list Value)
| Object (object : list (string * Value)).

(** [serde_json] prints scalars as their JSON literals. *)
Definition bool_text (b : bool) : string := if b then "true" else "false".

(** The elements of a list with commas between them: [output.push(',')] for
    every index but the first. *)
Definition comma_separated (texts : list string) : string :=
  match texts with
  | [] => ""
  | text :: texts => text +:+ foldr (λ t rest, "," +:+ t +:+ rest) "" texts
  end.

Definition entry_text `{JsonText} (entry : string * string) : string :=
  string_text (fst entry) +:+ ":" +:+ snd entry.

(*| runtime/approval.rs 138-170 write_canonical_json *)
Fixpoint write_canonical_json `{JsonText} (value : Value) : string :=
  match value with
  | Object object =>
      let entries := map (λ entry, (fst entry, write_canonical_json (snd entry))) object in
      "{" +:+ comma_separated (map entry_text (sort_by_key fst entries)) +:+ "}"
  | Array values => "[" +:+ comma_separated (map write_canonical_json values) +:+ "]"
  | Null => "null"
  | Bool b => bool_text b
  | Number n => number_text n
  | VString s => string_text s
  end.

(** [object.get(key)]. *)
Definition object_get `{JsonText} (key : string) (object : list (string * Value)) : option Value :=
  snd <$> List.find (λ e, str_eqb (fst e) key) object.

(** [serde_json]'s number for a machine integer. *)
Class IntJson `{JsonText} := int_number : Z → json_number.

Definition jnum `{IntJson} (n : Z) : Value := Number (int_number n).
Definition jopt `{JsonText} {A : Type} (f : A → Value) (o : option A) : Value :=
  match o with Some x => f x | None => Null end.
Definition jstrings `{JsonText} (l : list string) : Value := Array (map VString l).
Lemma jstrings_inj `{JsonText} (l k : list string) : jstrings l = jstrings k → l = k.
Proof. intros [= E]. apply list_fmap_eq_inj in E; [done|]. by intros ? ? [= ->]. Qed.

(** ** Induction and normal forms *)

Section value_ind.
Context `{JsonText} (P : Value → Prop).
Hypothesis HNull : P Null.
Hypothesis HBool : ∀ b, P (Bool b).
Hypothesis HNumber : ∀ n, P (Number n).
Hypothesis HString : ∀ s, P (VString s).
Hypothesis HArray : ∀ l, Forall P l → P (Array l).
Hypothesis HObject : ∀ o, Forall (λ e, P (snd e)) o → P (Object o).

Fixpoint Value_nested_ind (v : Value) : P v :=
  match v with
  | Null => HNull
  | Bool b => HBool b
  | Number n => HNumber n
  | VString s => HString s
  | Array l => HArray l
      ((fix go l := match l return Forall P l with
        | [] => Forall_nil_2 _
        | v :: l => Forall_cons_2 _ _ _ (Value_nested_ind v) (go l)
        end) l)
  | Object o => HObject o
      ((fix go o := match o return Forall (λ e, P (snd e)) o with
        | [] => Forall_nil_2 _
        | e :: o => Forall_cons_2 _ _ _ (Value_nested_ind (snd e)) (go o)
        end) o)
  end.
End value_ind.

(** *** Equality *)

Section equality.
Context `{JsonText} `{!EqDecision json_number}.

#[export] Instance Value_eq_dec : EqDecision Value.
Proof.
  refine (fix go (v w : Value) : Decision (v = w) :=
    match v, w return Decision (v = w) with
    | Null, Null => left eq_refl
    | Bool b, Bool c => cast_if (decide (b = c))
    | Number m, Number n => cast_if (decide (m = n))
    | VString s, VString t => cast_if (decide (s = t))
    | Array l, Array k =>
        cast_if ((fix gol (l k : list Value) : Decision (l = k) :=
          match l, k return Decision (l = k) with
          | [], [] => left eq_refl
          | v :: l, w :: k => cast_if_and (go v w) (gol l k)
          | _, _ => right _
          end) l k)
    | Object o, Object p =>
        cast_if ((fix goo (o p : list (string * Value)) : Decision (o = p) :=
          match o, p return Decision (o = p) with
          | [], [] => left eq_refl
          | e :: o, f :: p =>
              cast_if_and3 (decide (fst e = fst f)) (go (snd e) (snd f)) (goo o p)
          | _, _ => right _
          end) o p)
    | _, _ => right _
    end); try abstract congruence.
  all: try (abstract (destruct e, f; cbn in *; congruence)).
Defined.
End equality.

(** *** Codes *)

Section codes.
Context `{JsonText} `{Countable json_number}.

Abbreviation leaf := (bool + json_number + string)%type.

Fixpoint value_tree (v : Value) : gen_tree leaf :=
  match v with
  | Null => GenNode 0 []
  | Bool b => GenLeaf (inl (inl b))
  | Number n => GenLeaf (inl (inr n))
  | VString s => GenLeaf (inr s)
  | Array l => GenNode 1 (map value_tree l)
  | Object o => GenNode 2 (map (λ e, GenNode 3 [GenLeaf (inr (fst e)); value_tree (snd e)]) o)
  end.

Fixpoint tree_value (t : gen_tree leaf) : Value :=
  match t with
  | GenLeaf (inl (inl b)) => Bool b
  | GenLeaf (inl (inr n)) => Number n
  | GenLeaf (inr s) => VString s
  | GenNode 0 _ => Null
  | GenNode 1 l => Array (map tree_value l)
  | GenNode _ o =>
      Object (map (λ e, match e with
                        | GenNode 3 [GenLeaf (inr k); t] => (k, tree_value t)
                        | _ => ("", Null)
                        end) o)
  end.

Lemma tree_value_tree v : tree_value (value_tree v) = v.
Proof.
  induction v as [| | | |l IH|o IH] using Value_nested_ind; cbn; try done; f_equal.
  - induction IH as [|v l Hv _ IHl]; cbn; [done|]. by rewrite Hv, IHl.
  - induction IH as [|[k v] o Hv _ IHo]; cbn; [done|]. cbn in Hv. by rewrite Hv, IHo.
Qed.

#[export] Instance Value_countable `{!EqDecision Value} : Countable Value :=
  inj_countable' value_tree tree_value tree_value_tree.
End codes.

(** Every object's entries in the byte order of their keys. *)
Fixpoint normalize `{JsonText} (v : Value) : Value :=
  match v with
  | Array l => Array (map normalize l)
  | Object o => Object (sort_by_key fst (map (λ e, (fst e, normalize (snd e))) o))
  | v => v
  end.

(** The keys of every object are pairwise different (a map). *)
Fixpoint unique_keys `{JsonText} (v : Value) : Prop :=
  match v with
  | Array l => foldr (λ v P, unique_keys v ∧ P) True l
  | Object o => NoDup (map fst o) ∧ foldr (λ e P, unique_keys (snd e) ∧ P) True o
  | _ => True
  end.

Lemma foldr_and_Forall {A} (P : A → Prop) l :
  foldr (λ x Q, P x ∧ Q) True l ↔ Forall P l.
Proof.
  induction l as [|x l IH]; cbn; [by split; [constructor|]|].
  by rewrite IH, Forall_cons.
Qed.

(** The compact printer without sorting: [serde_json::to_string]. *)
Fixpoint compact `{JsonText} (v : Value) : string :=
  match v with
  | Object o =>
      "{" +:+ comma_separated
        (map entry_text (map (λ e, (fst e, compact (snd e))) o)) +:+ "}"
  | Array l => "[" +:+ comma_separated (map compact l) +:+ "]"
  | Null => "null"
  | Bool b => bool_text b
  | Number n => number_text n
  | VString s => string_text s
  end.

Lemma map_fst_unique {K A} (o : list (K * A)) k a b :
  NoDup (map fst o) → (k, a) ∈ o → (k, b) ∈ o → a = b.
Proof.
  induction o as [|[k' a'] o IH]; cbn; [set_solver|].
  intros [Hk Hnd]%NoDup_cons Ha Hb.
  assert (∀ x, (k', x) ∉ o) as Hno.
  { intros x Hx. apply Hk, list_elem_of_In, in_map_iff. exists (k', x).
    by rewrite <- list_elem_of_In. }
  rewrite elem_of_cons in Ha, Hb. destruct Ha as [|Ha], Hb as [|Hb]; simplify_eq; auto.
  - by destruct (Hno b).
  - by destruct (Hno a).
Qed.

(** Sorting entries commutes with mapping their values, keys being unique. *)
Lemma sort_entries_map {A B} (f : A → B) (o : list (string * A)) :
  NoDup (map fst o) →
  sort_by_key fst (map (λ e, (fst e, f (snd e))) o) =
  map (λ e, (fst e, f (snd e))) (sort_by_key fst o).
Proof.
  intros Hnd.
  apply (StronglySorted_unique_strong (key_le (A := string * B) fst)).
  - intros [k1 b1] [k2 b2] H1 H2 Hle1 Hle2.
    assert (k1 = k2) as -> by by apply (anti_symm String.le).
    rewrite elem_of_sort_by_key, list_elem_of_In, in_map_iff in H1.
    apply list_elem_of_In, in_map_iff in H2 as ([k' a2] & E2 & H2).
    destruct H1 as ([k'' a1] & E1 & H1). simplify_eq/=.
    rewrite <- list_elem_of_In in H1, H2. apply elem_of_sort_by_key in H2.
    by rewrite (map_fst_unique _ _ _ _ Hnd H1 H2).
  - apply sort_by_key_sorted.
  - pose proof (sort_by_key_sorted fst o) as Hs. induction Hs as [|e l Hs IH He]; cbn.
    + constructor.
    + constructor; [done|]. apply Forall_map. by eapply Forall_impl.
  - rewrite sort_by_key_Permutation. apply Permutation_map.
    by rewrite sort_by_key_Permutation.
Qed.

(** The canonical writer is the compact printer of the normal form. *)
Lemma canonical_compact `{JsonText} v :
  unique_keys v → write_canonical_json v = compact (normalize v).
Proof.
  induction v as [| | | |l IH|o IH] using Value_nested_ind; cbn; try done;
    rewrite foldr_and_Forall.
  - intros Hu. rewrite map_map. do 3 f_equal. apply map_ext_in.
    intros v Hv%list_elem_of_In. rewrite Forall_forall in IH, Hu. auto.
  - intros [Hnd Hu].
    rewrite (sort_entries_map write_canonical_json), sort_entries_map, !map_map by done.
    do 3 f_equal. apply map_ext_in.
    intros e He%list_elem_of_In%elem_of_sort_by_key. rewrite Forall_forall in IH, Hu.
    cbn. by rewrite (IH e He (Hu e He)).
Qed.

(** ** The compact text determines the value *)

#[local] Arguments String.append !_ _ /.

(** What [serde_json] documents of its scalars: a string is printed between
    quotes with the inner quotes escaped, hence self-delimiting; a number is
    printed with the characters of a JSON number and determines the number. *)
Definition quote : ascii := "034"%char.
Definition is_number_char (c : ascii) : bool :=
  is_ascii_digit c || existsb (Ascii.eqb c) ["-"; "+"; "."; "e"; "E"]%char.

Class JsonTextLaws `{JsonText} : Prop := {
  number_text_inj :: Inj (=) (=) number_text;
  number_text_chars n : str_all is_number_char (number_text n) = true;
  number_text_nonempty n : number_text n ≠ "";
  string_text_quoted s : ∃ t, string_text s = String quote t;
  string_text_delimited a b r s :
    string_text a +:+ r = string_text b +:+ s → a = b ∧ r = s
}.

(** The text after a value inside a document starts with one of these. *)
Definition is_stop (c : ascii) : bool := existsb (Ascii.eqb c) [","; "]"; "}"]%char.
Definition stops (r : string) : Prop :=
  match r with EmptyString => True | String c _ => is_stop c = true end.
Definition no_stop (t : string) : Prop :=
  match t with EmptyString => False | String c _ => is_stop c = false end.

#[local] Arguments is_stop : simpl never.
#[local] Arguments is_number_char : simpl never.

Section injectivity.
Context `{JsonTextLaws}.

(** [t] determines [x] whatever follows it. *)
Definition delimits {A} (p : A → string) (x : A) : Prop :=
  ∀ y r s, stops r → stops s → p x +:+ r = p y +:+ s → x = y ∧ r = s.

Lemma number_char_not_stop c : is_number_char c = true → is_stop c = false.
Proof. destruct c as [[] [] [] [] [] [] [] []]; by vm_compute. Qed.

Lemma span_unique (p : ascii → bool) a b r s :
  str_all p a = true → str_all p b = true →
  (∀ c t, r = String c t → p c = false) → (∀ c t, s = String c t → p c = false) →
  a +:+ r = b +:+ s → a = b ∧ r = s.
Proof.
  unfold str_all. revert b. induction a as [|c a IH]; intros [|d b] Ha Hb Hr Hs; cbn in *.
  - done.
  - intros ->. apply andb_true_iff in Hb as [Hd _]. by rewrite (Hr d _ eq_refl) in Hd.
  - intros <-. apply andb_true_iff in Ha as [Hc _]. by rewrite (Hs c _ eq_refl) in Hc.
  - apply andb_true_iff in Ha as [_ Ha], Hb as [_ Hb]. intros [= -> E].
    by destruct (IH b Ha Hb Hr Hs E) as [-> ->].
Qed.

Lemma stops_not_number r c t : stops r → r = String c t → is_number_char c = false.
Proof.
  intros Hs ->. cbn in Hs. destruct (is_number_char c) eqn:E; [|done].
  by rewrite (number_char_not_stop _ E) in Hs.
Qed.

Lemma number_delimits n : delimits number_text n.
Proof.
  intros m r s Hr Hs E. apply (span_unique is_number_char) in E as [E ->].
  - split; [by apply (inj number_text)|done].
  - apply number_text_chars.
  - apply number_text_chars.
  - intros c t. by apply stops_not_number.
  - intros c t. by apply stops_not_number.
Qed.

Lemma compact_no_stop v : no_stop (compact v).
Proof.
  destruct v as [|[]|n|s|l|o]; try done; cbn.
  - pose proof (number_text_chars n) as Hc. pose proof (number_text_nonempty n).
    destruct (number_text n) as [|c t]; [done|]. cbn in *.
    apply andb_true_iff in Hc as [Hc _]. by apply number_char_not_stop.
  - destruct (string_text_quoted s) as [t ->]. done.
Qed.

Lemma no_stop_app a b : no_stop a → no_stop (a +:+ b).
Proof. by destruct a. Qed.

(** A comma separated list followed by a closing character. *)
Lemma tail_inj {A} (p : A → string) (l l' : list A) (close : ascii) r s :
  Forall (delimits p) l → (close = "]" ∨ close = "}")%char →
  foldr (λ t rest, "," +:+ t +:+ rest) "" (map p l) +:+ String close r =
  foldr (λ t rest, "," +:+ t +:+ rest) "" (map p l') +:+ String close s →
  l = l' ∧ r = s.
Proof.
  intros Hl Hc. revert l'. induction Hl as [|x l Hx Hl IH]; intros [|y l']; cbn.
  - by intros [= ->].
  - intros [= -> _]. naive_solver.
  - intros [= E _]. destruct Hc; congruence.
  - rewrite !str_app_assoc. intros [= E]. apply Hx in E as [-> E].
    + by apply IH in E as [-> ->].
    + destruct l; cbn; [by destruct Hc as [->| ->]|done].
    + destruct l'; cbn; [by destruct Hc as [->| ->]|done].
Qed.

Lemma comma_separated_inj {A} (p : A → string) (l l' : list A) (close : ascii) r s :
  Forall (delimits p) l → (∀ x, no_stop (p x)) → (close = "]" ∨ close = "}")%char →
  comma_separated (map p l) +:+ String close r =
  comma_separated (map p l') +:+ String close s → l = l' ∧ r = s.
Proof.
  intros Hl Hp Hc. destruct Hl as [|x l Hx Hl], l' as [|y l']; cbn.
  - by intros [= ->].
  - pose proof (Hp y) as Hn. destruct (p y); [done|]. intros [= <- _].
    by destruct Hc as [->| ->].
  - pose proof (Hp x) as Hn. destruct (p x); [done|]. intros [= -> _].
    by destruct Hc as [->| ->].
  - rewrite !str_app_assoc. intros E. apply Hx in E as [-> E].
    + by apply (tail_inj p _ _ close) in E as [-> ->].
    + destruct l; cbn; [by destruct Hc as [->| ->]|done].
    + destruct l'; cbn; [by destruct Hc as [->| ->]|done].
Qed.

Lemma entry_delimits (e : string * Value) :
  delimits compact (snd e) →
  delimits (λ e, entry_text (fst e, compact (snd e))) e.
Proof.
  intros He [k v] r s Hr Hs. destruct e as [k' v']. unfold entry_text. cbn in *.
  rewrite !str_app_assoc. intros [-> E]%string_text_delimited. cbn in E.
  injection E as E. by apply He in E as [-> ->].
Qed.

Lemma entry_no_stop (e : string * Value) : no_stop (entry_text (fst e, compact (snd e))).
Proof.
  unfold entry_text. cbn. by destruct (string_text_quoted (fst e)) as [t ->].
Qed.

Lemma first_char_eq c d a b : String c a = String d b → c = d.
Proof. by intros [= -> _]. Qed.

(** The kind of a value shows in the first character of its text. *)
Definition kind (v : Value) : nat :=
  match v with
  | Null => 0 | Bool true => 1 | Bool false => 2 | Number _ => 3
  | VString _ => 4 | Array _ => 5 | Object _ => 6
  end.
Definition char_kind (c : ascii) : nat :=
  if is_number_char c then 3
  else match Ascii.compare c "n", Ascii.compare c "t", Ascii.compare c "f",
         Ascii.compare c quote, Ascii.compare c "[" with
       | Eq, _, _, _, _ => 0 | _, Eq, _, _, _ => 1 | _, _, Eq, _, _ => 2
       | _, _, _, Eq, _ => 4 | _, _, _, _, Eq => 5 | _, _, _, _, _ => 6
       end.
#[local] Arguments char_kind : simpl never.

Lemma compact_kind v : ∃ c t, compact v = String c t ∧ char_kind c = kind v.
Proof.
  destruct v as [|[]|n|s|l|o]; cbn; try by do 2 eexists.
  - pose proof (number_text_chars n) as Hc. pose proof (number_text_nonempty n).
    destruct (number_text n) as [|c t]; [done|]. do 2 eexists. split; [done|].
    apply andb_true_iff in Hc as [Hc _]. unfold char_kind. by rewrite Hc.
  - destruct (string_text_quoted s) as [t ->]. by do 2 eexists.
Qed.

Lemma compact_delimits v : delimits compact v.
Proof.
  induction v as [|b|n|s|l IH|o IH] using Value_nested_ind; intros w r s' Hr Hs E.
  all: assert (kind w = kind _) as Hk by
    (destruct (compact_kind w) as (c & t & E1 & <-);
     match goal with E : compact ?v +:+ _ = _ |- _ =>
       destruct (compact_kind v) as (c' & t' & E2 & <-) end;
     rewrite E1, E2 in E; cbn in E; by apply first_char_eq in E as ->).
  - destruct w as [|[]| | | |]; try done. by injection E as ->.
  - destruct b, w as [|[]| | | |]; try done; by injection E as ->.
  - destruct w as [|[]|m| | |]; try done. by apply number_delimits in E as [-> ->].
  - destruct w as [|[]| |t| |]; try done. by apply string_text_delimited in E as [-> ->].
  - destruct w as [|[]| | |l'|]; try done. cbn in E. injection E as E.
    rewrite !str_app_assoc in E.
    apply (comma_separated_inj compact) in E as [-> ->]; auto using compact_no_stop.
  - destruct w as [|[]| | | |o']; try done. cbn in E. injection E as E.
    rewrite !str_app_assoc, !map_map in E.
    apply (comma_separated_inj (λ e, entry_text (fst e, compact (snd e)))) in E
      as [-> ->]; auto using entry_no_stop.
    eapply Forall_impl; [exact IH|]. apply entry_delimits.
Qed.

Lemma compact_inj v w : compact v = compact w → v = w.
Proof.
  intros E. apply (compact_delimits v w "" ""); [done..|]. by rewrite E.
Qed.

(** The canonical text identifies the arguments: two JSON values whose
    objects have unique keys have the same canonical text if and only if they
    are equal once the entries of every object are put in key order. *)
Theorem canonical_json_exact (v w : Value) :
  unique_keys v → unique_keys w →
  write_canonical_json v = write_canonical_json w ↔ normalize v = normalize w.
Proof.
  intros Hv Hw. rewrite !canonical_compact by done. split; [|by intros ->].
  apply compact_inj.
Qed.

(** Equal objects have equal fields. *)
Lemma object_field_eq o o' k v w :
  unique_keys (Object o') → normalize (Object o) = normalize (Object o') →
  (k, v) ∈ o → (k, w) ∈ o' → normalize v = normalize w.
Proof.
  intros [Hnd _] E Hv Hw. cbn in E. injection E as E.
  set (g := λ e : string * Value, (fst e, normalize (snd e))).
  assert (H1 : (k, normalize v) ∈ sort_by_key fst (map g o)).
  { apply elem_of_sort_by_key, list_elem_of_fmap. by exists (k, v). }
  unfold g in H1. rewrite E in H1. apply elem_of_sort_by_key, list_elem_of_fmap in H1
    as ([k' u] & [= -> ->] & Hu).
  f_equal. by apply (map_fst_unique o' k').
Qed.
End injectivity.

(** The field [k] of two equal objects, from their equations [Hf]. *)
Ltac at_key := solve [repeat first [left|right]].
Ltac object_field Hf k :=
  let E := fresh "E" in pose proof (Hf k _ _ ltac:(at_key) ltac:(at_key)) as E; revert E.

(** ** A concrete printer

    Numbers [0] and [1], and strings in hexadecimal between quotes: it
    satisfies the laws, so that they are consistent. *)

Definition ex_json : JsonText := {|
  json_number := bool;
  number_text := λ b, if b then "1" else "0";
  string_text := λ s, String quote (encode_hex s +:+ String quote "")
|}.

Lemma ex_json_laws : @JsonTextLaws ex_json.
Proof.
  split; cbn.
  - by intros [] [].
  - by intros [].
  - by intros [].
  - intros s. eauto.
  - intros a b r s. intros [= E]. rewrite !str_app_assoc in E. cbn in E.
    apply (span_unique is_lower_hex) in E as [E1 E2].
    + apply (inj encode_hex) in E1 as ->. by injection E2.
    + apply encode_hex_lower.
    + apply encode_hex_lower.
    + intros c t [= <- _]. by vm_compute.
    + intros c t [= <- _]. by vm_compute.
Qed.

Definition ex_value : @Value ex_json :=
  @Object ex_json [("b", @Number ex_json true); ("a", @Array ex_json [@Null ex_json])].
Definition ex_value_reordered : @Value ex_json :=
  @Object ex_json [("a", @Array ex_json [@Null ex_json]); ("b", @Number ex_json true)].

Lemma canonical_json_exact_witness :
  ex_value ≠ ex_value_reordered ∧
  @write_canonical_json ex_json ex_value = @write_canonical_json ex_json ex_value_reordered.
Proof.
  split; [done|].
  apply (@canonical_json_exact ex_json ex_json_laws).
  - cbn. split; [|done]. by apply (bool_decide_unpack (NoDup ["b"; "a"])); vm_compute.
  - cbn. split; [|done]. by apply (bool_decide_unpack (NoDup ["a"; "b"])); vm_compute.
  - by vm_compute.
Defined.

(** ** A printer of every integer

    In binary, with a sign. *)

Fixpoint binary_text (p : positive) : string :=
  match p with
  | xH => "1" | xO p => String "0" (binary_text p) | xI p => String "1" (binary_text p)
  end.
Definition integer_text (z : Z) : string :=
  match z with
  | Z0 => "0" | Zpos p => String "1" (binary_text p) | Zneg p => String "-" (binary_text p)
  end.

Definition ex_json_Z : JsonText := {|
  json_number := Z;
  number_text := integer_text;
  string_text := λ s, String quote (encode_hex s +:+ String quote "")
|}.

Lemma binary_text_inj p q : binary_text p = binary_text q → p = q.
Proof.
  assert (Hne : ∀ p, binary_text p ≠ "") by by intros [].
  revert q. induction p as [p IH|p IH|]; intros [q|q|]; cbn; intros E; try done.
  - injection E as E. by rewrite (IH q).
  - by injection E as E%Hne.
  - injection E as E. by rewrite (IH q).
  - symmetry in E. by injection E as E%Hne.
Qed.

Lemma binary_text_chars p : str_all is_number_char (binary_text p) = true.
Proof. unfold str_all. by induction p as [p IH|p IH|]; cbn; [..|done]. Qed.

Lemma ex_json_Z_laws : @JsonTextLaws ex_json_Z.
Proof.
  destruct ex_json_laws as [_ _ _ Hq Hd]. split; [..|exact Hq|exact Hd]; cbn.
  - intros [|p|p] [|q|q]; cbn; try done; intros [= E]; f_equal; by apply binary_text_inj.
  - intros [|p|p]; [done|..]; apply (binary_text_chars p).
  - by intros [].
Qed.
