(* ===== verification/Approval.v ===== *)
(** * Approvals

    [workflow-runtime/src/approval.rs]: grants bound to one exact call, kept
    in an in-memory ledger, and the pure evaluation of a human decision
    against a monotonic deadline.  Instants and expiries are durations in
    nanoseconds ([Runtime]). *)

From S2P Require Import Prelude.
From S2P Require Import Runtime.
From S2P Require Import Hashing.
From S2P Require Import Json.

(*| runtime/approval.rs 12-18 CallScopedApproval *)
Record CallScopedApproval := mk_CallScopedApproval {
  approved_tool : string;
  approved_call : string;
  approved_fingerprint : string;
  approved_actor : string;
  expires_at_ms : Z
}.

(*| runtime/approval.rs 109-116 CallApprovalError *)
Inductive CallApprovalError := Missing | ArgumentMismatch | Expired.

(*| runtime/approval.rs 206-206 ApprovalGranted *)
Inductive ApprovalGranted_t := ApprovalGranted.

(** The key of a record: tool, call, actor. *)
Definition call_key : Type := string * string * string.

(*| runtime/approval.rs 51-53 ApprovalLedger *)
Record ApprovalLedger := mk_ApprovalLedger {
  records : gmap call_key CallScopedApproval
}.

Section ledger.
Context `{Sha256, JsonText}.

(*| runtime/approval.rs 131-136 argument_fingerprint *)
Definition argument_fingerprint (arguments : Value) : string :=
  hex (sha256 (write_canonical_json arguments)).

(*| runtime/approval.rs 22-36 CallScopedApproval::new *)
Definition CallScopedApproval_new (tool_name call_id : string) (arguments : Value)
    (actor : string) (expires_at : Z) : CallScopedApproval :=
  mk_CallScopedApproval tool_name call_id (argument_fingerprint arguments) actor
    (let ms := as_millis expires_at in
     if decide (u64 ms) then ms else u64_max).

(*| runtime/approval.rs 57-59 ApprovalLedger::new *)
Definition ApprovalLedger_new : ApprovalLedger := mk_ApprovalLedger ∅.

(*| runtime/approval.rs 62-80 ApprovalLedger::grant *)
Definition grant (ledger : ApprovalLedger) (tool_name call_id : string)
    (arguments : Value) (actor : string) (expires_at : Z) : ApprovalLedger :=
  let approval := CallScopedApproval_new tool_name call_id arguments actor expires_at in
  mk_ApprovalLedger
    (<[(approved_tool approval, approved_call approval, approved_actor approval) :=
        approval]> (records ledger)).

(*| runtime/approval.rs 83-104 ApprovalLedger::authorize *)
Definition authorize (ledger : ApprovalLedger) (tool_name call_id : string)
    (arguments : Value) (actor : string) (now : Z) :
    result CallApprovalError ApprovalGranted_t :=
  match records ledger !! (tool_name, call_id, actor) with
  | None => Err Missing
  | Some record =>
      if negb (str_eqb (approved_fingerprint record) (argument_fingerprint arguments))
      then Err ArgumentMismatch
      else if (expires_at_ms record <=? as_millis now)%Z then Err Expired
      else Ok ApprovalGranted
  end.

(** With a collision-free hash a fingerprint determines the value, up to the order
    of the entries. *)
Lemma argument_fingerprint_inj `{!JsonTextLaws, !Inj (=) (=) sha256} v w :
  unique_keys v → unique_keys w → argument_fingerprint v = argument_fingerprint w →
  normalize v = normalize w.
Proof.
  intros Hv Hw E%(inj hex)%(inj sha256). rewrite !canonical_compact in E by done.
  by apply compact_inj in E.
Qed.

(** ** A ledger built from a sequence of grants *)

Record grant_call := mk_grant_call {
  g_tool : string; g_call : string; g_arguments : Value; g_actor : string; g_expiry : Z
}.

Definition grant_all (gs : list grant_call) : ApprovalLedger :=
  foldl (λ ledger g, grant ledger (g_tool g) (g_call g) (g_arguments g) (g_actor g)
                       (g_expiry g)) ApprovalLedger_new gs.

(** [g] is the grant in force for a key: the last one made for it. *)
Definition in_force (gs : list grant_call) (tool call actor : string) (g : grant_call) :
    Prop :=
  ∃ before after, gs = before ++ g :: after ∧
    (g_tool g, g_call g, g_actor g) = (tool, call, actor) ∧
    ∀ h, h ∈ after → (g_tool h, g_call h, g_actor h) ≠ (tool, call, actor).

Definition never_granted (gs : list grant_call) (tool call actor : string) : Prop :=
  ∀ g, g ∈ gs → (g_tool g, g_call g, g_actor g) ≠ (tool, call, actor).

Lemma grant_all_snoc gs g :
  grant_all (gs ++ [g]) =
  grant (grant_all gs) (g_tool g) (g_call g) (g_arguments g) (g_actor g) (g_expiry g).
Proof. unfold grant_all. by rewrite foldl_app. Qed.

Definition record_of (g : grant_call) : CallScopedApproval :=
  CallScopedApproval_new (g_tool g) (g_call g) (g_arguments g) (g_actor g) (g_expiry g).

Lemma grant_all_lookup gs tool call actor :
  match records (grant_all gs) !! (tool, call, actor) with
  | Some r => ∃ g, in_force gs tool call actor g ∧ r = record_of g
  | None => never_granted gs tool call actor
  end.
Proof.
  induction gs as [|g gs IH] using rev_ind.
  { unfold never_granted. set_solver. }
  rewrite grant_all_snoc. unfold grant. cbn.
  destruct (decide ((g_tool g, g_call g, g_actor g) = (tool, call, actor))) as [E|E].
  - rewrite E, lookup_insert_eq. exists g. split; [|done].
    exists gs, []. split; [done|]. split; [done|]. set_solver.
  - rewrite lookup_insert_ne by done. destruct (records (grant_all gs) !! _) as [r|].
    + destruct IH as (h & (before & after & -> & Hk & Ha) & ->). exists h. split; [|done].
      exists before, (after ++ [g]). split; [by rewrite <- app_assoc|]. split; [done|].
      intros h' [Hh| ->%list_elem_of_singleton]%elem_of_app; auto.
    + intros h [Hh| ->%list_elem_of_singleton]%elem_of_app; auto.
Qed.

Lemma in_force_unique gs tool call actor g h :
  in_force gs tool call actor g → in_force gs tool call actor h → g = h.
Proof.
  intros (b1 & a1 & -> & Hk1 & Ha1) (b2 & a2 & E & Hk2 & Ha2).
  revert b2 E. induction b1 as [|x b1 IH]; intros [|y b2] [= Ex E].
  - done.
  - exfalso. apply (Ha1 h); [rewrite E; set_solver|done].
  - exfalso. apply (Ha2 g); [rewrite <- E; set_solver|done].
  - by apply (IH b2).
Qed.

(** The expiry a grant is recorded with. *)
Definition recorded_expiry (g : grant_call) : Z := expires_at_ms (record_of g).

Lemma recorded_expiry_min g :
  duration (g_expiry g) →
  recorded_expiry g = Z.min (as_millis (g_expiry g)) u64_max.
Proof.
  unfold recorded_expiry, duration, as_millis. cbn. intros Hd.
  assert (0 ≤ g_expiry g / 10 ^ 6)%Z by (apply Z.div_pos; lia).
  unfold as_millis. case_decide as Hu; unfold_u64; lia.
Qed.


(** Where SHA-256 does not collide on the two canonical texts, an
    authorized call carries exactly the approved arguments: the values are
    equal up to the order of their object entries. *)
Theorem ledger_binds_arguments `{!JsonTextLaws} (gs : list grant_call)
    (tool call actor : string) (arguments : Value) (now : Z) (g : grant_call) :
  in_force gs tool call actor g →
  unique_keys arguments → unique_keys (g_arguments g) →
  (let a := write_canonical_json (g_arguments g) in
   let b := write_canonical_json arguments in sha256 a = sha256 b → a = b) →
  authorize (grant_all gs) tool call arguments actor now = Ok ApprovalGranted →
  normalize arguments = normalize (g_arguments g).
Proof.
  intros Hg Hu Hug Hsha Ha. unfold authorize in Ha.
  pose proof (grant_all_lookup gs tool call actor) as Hl.
  destruct (records (grant_all gs) !! _); [|done]. destruct Hl as (h & Hh & ->).
  rewrite (in_force_unique _ _ _ _ _ _ Hh Hg) in *.
  destruct (str_eqb _ _) eqn:E; [|done]. apply str_eqb_eq in E. cbn in E.
  apply (inj hex) in E. apply Hsha in E.
  by rewrite !canonical_compact in E by done; apply compact_inj in E.
Qed.
End ledger.

(** ** A human decision against a deadline *)

(*| runtime/approval.rs 175-180 ApprovalDecision *)
Inductive ApprovalDecision := Grant | Deny.

(*| runtime/approval.rs 183-192 ApprovalDecision::deserialize *)
Definition ApprovalDecision_of_str (s : string) : option ApprovalDecision :=
  if str_eqb s "grant" then Some Grant
  else if str_eqb s "deny" then Some Deny
  else None.

(*| runtime/approval.rs 196-201 ApprovalDecision::fmt *)
Definition decision_str (d : ApprovalDecision) : string :=
  match d with Grant => "grant" | Deny => "deny" end.

(*| runtime/approval.rs 216-223 ApprovalTerminalKind *)
Inductive ApprovalTerminalKind := TerminalDenied | TerminalExpired | InvalidDecision.

(*| runtime/approval.rs 255-282 evaluate_approval *)
Definition evaluate_approval (timeout started_at now : Z)
    (decision : option ApprovalDecision) :
    result ApprovalTerminalKind ApprovalGranted_t :=
  if (now <? started_at)%Z then Err InvalidDecision
  else match duration_checked_add started_at timeout with
       | None => Err InvalidDecision
       | Some deadline =>
           match decision with
           | Some Deny => Err TerminalDenied
           | Some Grant =>
               if (now <? deadline)%Z then Ok ApprovalGranted else Err TerminalExpired
           | None => Err TerminalExpired
           end
       end.

(** An approval node proceeds exactly on a grant that arrives at or after
    its start and strictly before its deadline; a denial is terminal even
    after the deadline, silence and a late grant are expiry, and a clock before
    the start or a deadline past the representable durations is an invalid
    decision.  The decision text round-trips and nothing else parses. *)
Theorem approval_decision_exact (timeout started_at now : Z)
    (decision : option ApprovalDecision) :
  let outcome := evaluate_approval timeout started_at now decision in
  let clock := (started_at ≤ now ∧ started_at + timeout ≤ duration_max)%Z in
  (outcome = Ok ApprovalGranted ↔
     decision = Some Grant ∧ clock ∧ (now < started_at + timeout)%Z) ∧
  (outcome = Err TerminalDenied ↔ decision = Some Deny ∧ clock) ∧
  (outcome = Err TerminalExpired ↔ clock ∧
     (decision = None ∨ decision = Some Grant ∧ (started_at + timeout ≤ now)%Z)) ∧
  (outcome = Err InvalidDecision ↔ ¬ clock) ∧
  (∀ s d, ApprovalDecision_of_str s = Some d ↔ s = decision_str d).
Proof.
  cbn zeta. unfold evaluate_approval, duration_checked_add.
  repeat match goal with
  | |- _ ∧ _ => split
  | |- ∀ s d, _ => intros s d
  end.
  5: { unfold ApprovalDecision_of_str, str_eqb. destruct d; cbn;
       repeat case_bool_decide; naive_solver. }
  all: destruct (Z.ltb_spec now started_at); [naive_solver lia|];
    case_decide; [|naive_solver lia];
    destruct decision as [[]|]; try (naive_solver lia);
    destruct (Z.ltb_spec now (started_at + timeout)); naive_solver lia.
Qed.

(** ** A concrete ledger *)

#[local] Instance ex_sha : Sha256 := λ s, s.
#[local] Existing Instance ex_json.

Definition ex_grants : list grant_call :=
  [mk_grant_call "write" "c1" (VString "old") "author" (10 ^ 12);
   mk_grant_call "write" "c1" ex_value "author" (5 * 10 ^ 9)].

Lemma ledger_binds_arguments_witness :
  authorize (grant_all ex_grants) "write" "c1" ex_value_reordered "author" (4 * 10 ^ 9) =
    Ok ApprovalGranted ∧
  authorize (grant_all ex_grants) "write" "c1" (VString "old") "author" (4 * 10 ^ 9) =
    Err ArgumentMismatch ∧
  normalize ex_value_reordered = normalize ex_value.
Proof.
  assert (authorize (grant_all ex_grants) "write" "c1" ex_value_reordered "author"
            (4 * 10 ^ 9) = Ok ApprovalGranted) as Ha by by vm_compute.
  split; [exact Ha|]. split; [by vm_compute|].
  apply (@ledger_binds_arguments _ _ ex_json_laws ex_grants "write" "c1" "author"
           ex_value_reordered (4 * 10 ^ 9)
           (mk_grant_call "write" "c1" ex_value "author" (5 * 10 ^ 9))).
  - exists [mk_grant_call "write" "c1" (VString "old") "author" (10 ^ 12)], [].
    split; [done|]. split; [done|]. intros h Hh. exact (match not_elem_of_nil _ Hh with end).
  - cbn. split; [|by repeat split]. by apply (bool_decide_unpack (NoDup ["a"; "b"])); vm_compute.
  - cbn. split; [|by repeat split]. by apply (bool_decide_unpack (NoDup ["b"; "a"])); vm_compute.
  - intros a b E. exact E.
  - exact Ha.
Defined.
