(* ===== verification/Policy.v ===== *)
(** * Capability classes and contextual policy

    [workflow-runtime/src/policy.rs] and the capability half of
    [workflow-runtime/src/lib.rs]: what a run may touch once every policy
    layer has been intersected.  A [HashSet] is a [gset]; the order a
    [HashSet] is iterated in is unspecified, and every use sorts the result by
    an injective key. *)

From S2P Require Import Prelude.

(*| runtime/lib.rs 504-535 SandboxCapability *)
Inductive SandboxCapability :=
| FilesystemRead | FilesystemWrite | Network | ProcessSpawn | MaximumPids
| CpuTime | CapWallTime | CapIdleTime | Memory | OutputBytes | OpenFiles
| EnvironmentVariables | SyscallProfile | UserGroupIdentity | DeviceAccess.

(*| runtime/lib.rs 539-557 SandboxCapability::as_str *)
Definition as_str (c : SandboxCapability) : string :=
  match c with
  | FilesystemRead => "filesystem.read"
  | FilesystemWrite => "filesystem.write"
  | Network => "network"
  | ProcessSpawn => "process.spawn"
  | MaximumPids => "limit.pids"
  | CpuTime => "limit.cpu_time"
  | CapWallTime => "limit.wall_time"
  | CapIdleTime => "limit.idle_time"
  | Memory => "limit.memory"
  | OutputBytes => "limit.output_bytes"
  | OpenFiles => "limit.open_files"
  | EnvironmentVariables => "environment.variables"
  | SyscallProfile => "syscall.profile"
  | UserGroupIdentity => "identity.user_group"
  | DeviceAccess => "device.access"
  end.

#[export] Instance SandboxCapability_eq_dec : EqDecision SandboxCapability.
Proof. solve_decision. Defined.

#[export] Instance as_str_inj : Inj (=) (=) as_str.
Proof. by intros [] []. Qed.

Definition all_capabilities : list SandboxCapability :=
  [FilesystemRead; FilesystemWrite; Network; ProcessSpawn; MaximumPids; CpuTime;
   CapWallTime; CapIdleTime; Memory; OutputBytes; OpenFiles; EnvironmentVariables;
   SyscallProfile; UserGroupIdentity; DeviceAccess].

#[export] Program Instance SandboxCapability_finite : finite.Finite SandboxCapability :=
  {| finite.enum := all_capabilities |}.
Next Obligation. by apply (bool_decide_unpack (NoDup all_capabilities)); vm_compute. Qed.
Next Obligation. intros c. by apply (bool_decide_unpack (c ∈ all_capabilities)); destruct c. Qed.

(*| runtime/policy.rs 168-171 NetworkDestination *)
Record NetworkDestination := mk_NetworkDestination { host : string; port : Z }.
#[export] Instance NetworkDestination_eq_dec : EqDecision NetworkDestination.
Proof. solve_decision. Defined.

(*| runtime/policy.rs 223-223 InvalidNetworkDestination *)
Inductive InvalidNetworkDestinationError := InvalidNetworkDestination.

(*| runtime/policy.rs 201-208 NetworkDestination::new *)
Definition NetworkDestination_new (host : string) (port : Z) :
    result InvalidNetworkDestinationError NetworkDestination :=
  if str_is_empty host || str_any (λ c, bool_decide (c = "*"%char)) host || (port =? 0)%Z
  then Err InvalidNetworkDestination
  else Ok (mk_NetworkDestination host port).

(*| runtime/lib.rs 563-566 RequestedCapabilities *)
Record RequestedCapabilities := mk_RequestedCapabilities {
  capabilities : gset SandboxCapability;
  network_destination : option NetworkDestination
}.

(*| runtime/lib.rs 583-588 RequestedCapabilities::new *)
Definition RequestedCapabilities_new (cs : list SandboxCapability) :
    RequestedCapabilities := mk_RequestedCapabilities (list_to_set cs) None.

(*| runtime/lib.rs 591-594 RequestedCapabilities::with_network_destination *)
Definition with_network_destination (r : RequestedCapabilities)
    (d : NetworkDestination) : RequestedCapabilities :=
  mk_RequestedCapabilities (capabilities r) (Some d).

(*| runtime/lib.rs 597-599 RequestedCapabilities::contains *)
Definition requests (r : RequestedCapabilities) (c : SandboxCapability) : bool :=
  bool_decide (c ∈ capabilities r).

(*| runtime/lib.rs 610-610 PolicyCapabilities *)
Definition PolicyCapabilities : Type := gset SandboxCapability.

(** [set.difference(..)] or [set.iter()] collected and sorted by name. *)
Definition sorted_names (s : gset SandboxCapability) : list SandboxCapability :=
  sort_by_key as_str (elements s).

(** [first.clone()] then [retain] of every remaining layer; nothing is allowed
    when there is no layer. *)
(*| runtime/lib.rs 661-667 intersect_policy_capabilities *)
Definition allowed_by_all (layers : list PolicyCapabilities) : gset SandboxCapability :=
  match layers with
  | [] => ∅
  | first_layer :: remaining =>
      foldl (λ allowed layer, filter (λ c, c ∈ layer) allowed) first_layer remaining
  end.

(*| runtime/lib.rs 657-683 intersect_policy_capabilities *)
Definition intersect_policy_capabilities (requested : RequestedCapabilities)
    (policy_layers : list PolicyCapabilities) :
    result (list SandboxCapability) (list SandboxCapability) :=
  let allowed := allowed_by_all policy_layers in
  let missing := sorted_names (capabilities requested ∖ allowed) in
  if bool_decide (capabilities requested = ∅) || negb (bool_decide (missing = []))
  then Err missing
  else Ok (sorted_names (capabilities requested)).

(*| runtime/lib.rs 724-740 verify_sandbox_capabilities *)
Definition verify_sandbox_capabilities (requested : RequestedCapabilities)
    (backend : gset SandboxCapability) : result (list SandboxCapability) unit :=
  let missing := sorted_names (capabilities requested ∖ backend) in
  if bool_decide (missing = []) then Ok tt else Err missing.

(*| runtime/lib.rs 742-752 verify_process_spawn_capability *)
Definition verify_process_spawn_capability (requested : RequestedCapabilities) :
    result (list SandboxCapability) unit :=
  ensure (requests requested ProcessSpawn) [ProcessSpawn].

(** ** Subjects and layers *)

(*| runtime/policy.rs 96-96 InvalidPolicyToken *)
Inductive InvalidPolicyTokenError := InvalidPolicyToken.

(*| runtime/policy.rs 18-18 TenantId *)
Record TenantId := mk_TenantId { tenant_str : string }.
(*| runtime/policy.rs 22-29 TenantId::new *)
Definition TenantId_new (value : string) : result InvalidPolicyTokenError TenantId :=
  if str_is_empty value then Err InvalidPolicyToken else Ok (mk_TenantId value).

(*| runtime/policy.rs 60-60 RoleToken *)
Record RoleToken := mk_RoleToken { role_str : string }.
(*| runtime/policy.rs 64-71 RoleToken::new *)
Definition RoleToken_new (value : string) : result InvalidPolicyTokenError RoleToken :=
  if str_is_empty value then Err InvalidPolicyToken else Ok (mk_RoleToken value).

#[export] Instance TenantId_eq_dec : EqDecision TenantId.
Proof. solve_decision. Defined.
#[export] Instance RoleToken_eq_dec : EqDecision RoleToken.
Proof. solve_decision. Defined.
#[export] Instance TenantId_countable : Countable TenantId.
Proof. by apply (inj_countable' tenant_str mk_TenantId); intros []. Defined.
#[export] Instance RoleToken_countable : Countable RoleToken.
Proof. by apply (inj_countable' role_str mk_RoleToken); intros []. Defined.

(*| runtime/policy.rs 109-118 Classification *)
Inductive Classification := Public | Internal | Confidential | Restricted.

(** The derived [Ord]: declaration order. *)
Definition classification_rank (c : Classification) : nat :=
  match c with Public => 0 | Internal => 1 | Confidential => 2 | Restricted => 3 end.
Definition classification_le (a b : Classification) : bool :=
  (classification_rank a <=? classification_rank b)%nat.

(*| runtime/policy.rs 123-127 PolicySubject *)
Record PolicySubject := mk_PolicySubject {
  tenant_id : TenantId;
  role : RoleToken;
  classification : Classification
}.

(*| runtime/policy.rs 131-141 PolicySubject::new *)
Definition PolicySubject_new (tenant role : string) (c : Classification) :
    result InvalidPolicyTokenError PolicySubject :=
  t ← TenantId_new tenant;
  r ← RoleToken_new role;
  Ok (mk_PolicySubject t r c).

(*| runtime/policy.rs 236-248 NetworkProfile *)
Inductive NetworkProfile :=
| ProfileNone | LoopbackOnly | ServiceAlias | BrokeredAllowlist | Full.
#[export] Instance NetworkProfile_eq_dec : EqDecision NetworkProfile.
Proof. solve_decision. Defined.

(*| runtime/policy.rs 253-260 PolicyLayer *)
Record PolicyLayer := mk_PolicyLayer {
  allowed_tenants : gset TenantId;
  allowed_roles : gset RoleToken;
  max_classification : Classification;
  layer_profile : NetworkProfile;
  layer_destinations : list NetworkDestination;
  layer_capabilities : PolicyCapabilities
}.

(*| runtime/policy.rs 306-310 EffectivePolicy *)
Record EffectivePolicy := mk_EffectivePolicy {
  effective_capabilities : list SandboxCapability;
  network_profile : NetworkProfile;
  brokered_destinations : list NetworkDestination
}.

(*| runtime/policy.rs 342-359 ContextPolicyDeniedKind *)
Inductive ContextPolicyDeniedKind :=
| MissingSubject | RoleDenied | TenantMismatch | ClassificationDenied
| NetworkProfileRequired | DestinationDenied | CapabilityDenied | InvalidPolicy.
#[export] Instance ContextPolicyDeniedKind_eq_dec : EqDecision ContextPolicyDeniedKind.
Proof. solve_decision. Defined.

(*| runtime/policy.rs 378-381 ContextPolicyDenied *)
Record ContextPolicyDenied := mk_ContextPolicyDenied {
  denied_kind : ContextPolicyDeniedKind;
  missing_capabilities : list SandboxCapability
}.
Definition denied (kind : ContextPolicyDeniedKind) : ContextPolicyDenied :=
  mk_ContextPolicyDenied kind [].

(** The loop over the layers' profiles; [None] is its early return with
    [NetworkProfile::None] on two different restricted profiles. *)
(*| runtime/policy.rs 510-522 intersect_network_policy *)
Fixpoint combine_profiles (profile : option NetworkProfile) (layers : list PolicyLayer) :
    option (option NetworkProfile) :=
  match layers with
  | [] => Some profile
  | layer :: layers =>
      let layer_profile := layer_profile layer in
      match profile with
      | None => combine_profiles (Some layer_profile) layers
      | Some Full => combine_profiles (Some layer_profile) layers
      | Some current =>
          if bool_decide (layer_profile = Full) then combine_profiles (Some current) layers
          else if bool_decide (current = layer_profile)
          then combine_profiles (Some current) layers
          else None
      end
  end.

Definition brokered (layer : PolicyLayer) : bool :=
  bool_decide (layer_profile layer = BrokeredAllowlist).

(** The loop over the brokered layers' allowlists. *)
(*| runtime/policy.rs 529-539 intersect_network_policy *)
Fixpoint combine_destinations (destinations : option (list NetworkDestination))
    (layers : list PolicyLayer) : option (list NetworkDestination) :=
  match layers with
  | [] => destinations
  | layer :: layers =>
      combine_destinations
        (Some match destinations with
              | Some current => filter (λ d, d ∈ layer_destinations layer) current
              | None => layer_destinations layer
              end) layers
  end.

(*| runtime/policy.rs 507-542 intersect_network_policy *)
Definition intersect_network_policy (policy_layers : list PolicyLayer) :
    NetworkProfile * list NetworkDestination :=
  match combine_profiles None policy_layers with
  | None => (ProfileNone, [])
  | Some profile =>
      let profile := default ProfileNone profile in
      if negb (bool_decide (profile = BrokeredAllowlist)) then (profile, [])
      else (profile, default []
              (combine_destinations None (List.filter brokered policy_layers)))
  end.

(*| runtime/policy.rs 503-505 context_capability_denial *)
Definition context_capability_denial (missing : list SandboxCapability) :
    ContextPolicyDenied := mk_ContextPolicyDenied CapabilityDenied missing.

(** The network step of [evaluate_context_policy]. *)
(*| runtime/policy.rs 471-485 evaluate_context_policy *)
Definition check_network (requested : RequestedCapabilities)
    (profile : NetworkProfile) (destinations : list NetworkDestination) :
    result ContextPolicyDenied unit :=
  if requests requested Network then
    if bool_decide (profile = ProfileNone) then Err (denied NetworkProfileRequired)
    else match network_destination requested with
         | Some destination =>
             if bool_decide (profile = BrokeredAllowlist) &&
                negb (bool_decide (destination ∈ destinations))
             then Err (denied DestinationDenied) else Ok tt
         | None => Ok tt
         end
  else Ok tt.

(*| runtime/policy.rs 432-501 evaluate_context_policy *)
Definition evaluate_context_policy (subject : PolicySubject)
    (requested : RequestedCapabilities) (policy_layers : list PolicyLayer) :
    result ContextPolicyDenied EffectivePolicy :=
  ensure (negb (bool_decide (policy_layers = []))) (denied InvalidPolicy);;
  ensure (forallb (λ layer, bool_decide (tenant_id subject ∈ allowed_tenants layer))
            policy_layers) (denied TenantMismatch);;
  ensure (forallb (λ layer, bool_decide (role subject ∈ allowed_roles layer))
            policy_layers) (denied RoleDenied);;
  ensure (forallb (λ layer, classification_le (classification subject)
                              (max_classification layer)) policy_layers)
    (denied ClassificationDenied);;
  let '(profile, destinations) := intersect_network_policy policy_layers in
  check_network requested profile destinations;;
  caps ← map_err context_capability_denial
    (intersect_policy_capabilities requested (layer_capabilities <$> policy_layers));
  Ok (mk_EffectivePolicy caps profile destinations).

(** ** What the layers agree on *)

(** [subject] satisfies one layer's context. *)
Definition admits (subject : PolicySubject) (layer : PolicyLayer) : Prop :=
  tenant_id subject ∈ allowed_tenants layer ∧ role subject ∈ allowed_roles layer ∧
  classification_le (classification subject) (max_classification layer) = true.

(** [p] is the intersection of the profiles: some profile is [p] and every
    other one is [p] or [Full]. *)
Definition agreed (p : NetworkProfile) (ps : list NetworkProfile) : Prop :=
  p ∈ ps ∧ ∀ q, q ∈ ps → q = p ∨ q = Full.

(** A policy (a layer or the effective one) permits an exact destination. *)
Definition permits (p : NetworkProfile) (ds : list NetworkDestination)
    (d : NetworkDestination) : Prop :=
  match p with Full => True | BrokeredAllowlist => d ∈ ds | _ => False end.
Definition layer_permits (layer : PolicyLayer) : NetworkDestination → Prop :=
  permits (layer_profile layer) (layer_destinations layer).
Definition policy_permits (eff : EffectivePolicy) : NetworkDestination → Prop :=
  permits (network_profile eff) (brokered_destinations eff).

Lemma agreed_unique p q ps : agreed p ps → agreed q ps → p = q.
Proof. intros [Hp Hps] [Hq Hqs]. destruct (Hps q Hq), (Hqs p Hp); congruence. Qed.

Lemma agreed_Full ps : agreed Full ps ↔ ps ≠ [] ∧ ∀ q, q ∈ ps → q = Full.
Proof.
  unfold agreed. split.
  - intros [H1 H2]. split; [by intros ->; apply elem_of_nil in H1|naive_solver].
  - destruct ps as [|p ps]; [naive_solver|]. intros [_ H].
    rewrite (H p) in * by set_solver. set_solver.
Qed.

Lemma agreed_Permutation p ps qs : ps ≡ₚ qs → agreed p ps → agreed p qs.
Proof. unfold agreed. intros Hp. setoid_rewrite Hp. done. Qed.

Lemma combine_profiles_from p0 layers r :
  combine_profiles (Some p0) layers = r →
  match r with
  | Some r => ∃ p, r = Some p ∧ agreed p (p0 :: (layer_profile <$> layers))
  | None => ∀ p, ¬ agreed p (p0 :: (layer_profile <$> layers))
  end.
Proof.
  revert p0 r. induction layers as [|l ls IH]; intros p0 r; cbn.
  { intros <-. exists p0. split; [done|]. unfold agreed. set_solver. }
  destruct (decide (p0 = Full)) as [->|Hp0].
  - intros H0. specialize (IH (layer_profile l) r H0).
    destruct r as [r|].
    + destruct IH as (p & -> & [H1 H2]). exists p. split; [done|].
      unfold agreed. set_solver.
    + intros p [H1 H2]. apply (IH p). split; [|set_solver].
      apply elem_of_cons in H1 as [->|H1]; [|done].
      rewrite elem_of_cons. left. destruct (H2 (layer_profile l)); set_solver.
  - assert (combine_profiles (Some p0) (l :: ls) =
      if bool_decide (layer_profile l = Full) || bool_decide (p0 = layer_profile l)
      then combine_profiles (Some p0) ls else None) as Hc.
    { cbn. destruct p0; try done; by repeat case_bool_decide. }
    cbn in Hc. rewrite Hc. clear Hc. intros H0.
    destruct (bool_decide _ || bool_decide _) eqn:Hl.
    + rewrite orb_true_iff, !bool_decide_eq_true in Hl.
      specialize (IH p0 r H0). destruct r as [r|].
      * destruct IH as (p & -> & [H1 H2]). exists p. split; [done|].
        unfold agreed. destruct (H2 p0); [set_solver| |done]. set_solver.
      * intros p [H1 H2]. apply (IH p). split; [|set_solver].
        destruct (H2 p0); [set_solver| |done]. set_solver.
    + subst r. rewrite orb_false_iff, !bool_decide_eq_false in Hl. intros p [H1 H2].
      destruct (H2 p0), (H2 (layer_profile l)); set_solver.
Qed.

Lemma combine_profiles_spec layers :
  layers ≠ [] →
  match combine_profiles None layers with
  | Some r => ∃ p, r = Some p ∧ agreed p (layer_profile <$> layers)
  | None => ∀ p, ¬ agreed p (layer_profile <$> layers)
  end.
Proof.
  destruct layers as [|l ls]; [done|]. intros _. cbn.
  apply (combine_profiles_from (layer_profile l) ls). done.
Qed.

Lemma combine_destinations_Some ds layers :
  ∃ ds', combine_destinations (Some ds) layers = Some ds' ∧
    ∀ d, d ∈ ds' ↔ d ∈ ds ∧ ∀ l, l ∈ layers → d ∈ layer_destinations l.
Proof.
  revert ds. induction layers as [|l ls IH]; intros ds; cbn; [set_solver|].
  destruct (IH (filter (λ d, d ∈ layer_destinations l) ds)) as (ds' & -> & H).
  exists ds'. split; [done|]. intros d. rewrite H, list_elem_of_filter. set_solver.
Qed.

Lemma combine_destinations_spec layers d :
  layers ≠ [] →
  d ∈ default [] (combine_destinations None layers) ↔
  ∀ l, l ∈ layers → d ∈ layer_destinations l.
Proof.
  destruct layers as [|l ls]; [done|]. intros _. cbn.
  destruct (combine_destinations_Some (layer_destinations l) ls) as (ds' & -> & H).
  cbn. rewrite H. set_solver.
Qed.

Lemma elem_of_brokered l layers :
  l ∈ List.filter brokered layers ↔ l ∈ layers ∧ layer_profile l = BrokeredAllowlist.
Proof.
  rewrite !list_elem_of_In, filter_In. unfold brokered.
  by rewrite bool_decide_eq_true.
Qed.

(** The effective network policy permits exactly what every layer permits. *)
Lemma intersect_network_permits layers p ds d :
  layers ≠ [] → intersect_network_policy layers = (p, ds) →
  permits p ds d ↔ ∀ l, l ∈ layers → layer_permits l d.
Proof.
  intros Hne. unfold intersect_network_policy, layer_permits.
  pose proof (combine_profiles_spec layers Hne) as Hc.
  destruct (combine_profiles None layers) as [r|].
  - destruct Hc as (q & -> & [Hin Hall]). cbn.
    assert (∀ l, l ∈ layers → layer_profile l = q ∨ layer_profile l = Full) as Hl.
    { intros l Hl. apply Hall, list_elem_of_fmap. eauto. }
    apply list_elem_of_fmap in Hin as (l0 & -> & Hl0).
    case_bool_decide as Hq; cbn; intros [= <- <-].
    + rewrite Hq in *. cbn. rewrite combine_destinations_spec.
      2: { intros Hnil. apply (elem_of_nil l0). rewrite <- Hnil.
           by apply elem_of_brokered. }
      setoid_rewrite elem_of_brokered. split.
      * intros H l Hin. destruct (Hl l Hin) as [E|E]; rewrite E; cbn; auto.
      * intros H l [Hin E]. specialize (H l Hin). by rewrite E in H.
    + split.
      * intros H l Hin. destruct (Hl l Hin) as [E|E]; rewrite E; [|done].
        by destruct (layer_profile l0).
      * intros H. specialize (H l0 Hl0). by destruct (layer_profile l0).
  - intros [= <- <-]. cbn. split; [done|]. intros H.
    destruct (decide (Forall (λ l, layer_profile l = Full) layers)) as [HF|HF].
    + apply (Hc Full), agreed_Full. split; [by destruct layers|].
      intros q (l & -> & Hl)%list_elem_of_fmap. rewrite Forall_forall in HF. auto.
    + apply not_Forall_Exists in HF; [|apply _]. apply Exists_exists in HF as (l & Hl & Hp).
      cbn in Hp.
      assert (∀ l, l ∈ layers → layer_profile l = BrokeredAllowlist ∨ layer_profile l = Full)
        as Hb.
      { intros l' Hl'. specialize (H l' Hl'). destruct (layer_profile l'); naive_solver. }
      apply (Hc BrokeredAllowlist). split.
      * apply list_elem_of_fmap. exists l. destruct (Hb l Hl); [done|]. done.
      * intros q (l' & -> & Hl')%list_elem_of_fmap. auto.
Qed.

Lemma intersect_network_profile layers p ds :
  layers ≠ [] → intersect_network_policy layers = (p, ds) →
  (agreed p (layer_profile <$> layers) ∨
   p = ProfileNone ∧ ∀ q, ¬ agreed q (layer_profile <$> layers)).
Proof.
  intros Hne. unfold intersect_network_policy.
  pose proof (combine_profiles_spec layers Hne) as Hc.
  destruct (combine_profiles None layers) as [r|].
  - destruct Hc as (q & -> & Hq). cbn. case_bool_decide; cbn; intros [= <- <-]; auto.
  - intros [= <- <-]. auto.
Qed.

(** ** The capability intersection *)

Lemma elem_of_allowed c layers :
  c ∈ allowed_by_all layers ↔ layers ≠ [] ∧ ∀ l, l ∈ layers → c ∈ l.
Proof.
  destruct layers as [|l ls]; cbn; [set_solver|].
  assert (∀ s : gset SandboxCapability,
               c ∈ foldl (λ allowed layer, filter (λ c, c ∈ layer) allowed) s ls ↔
               c ∈ s ∧ ∀ l, l ∈ ls → c ∈ l) as H.
  { induction ls as [|l' ls IH]; intros s; cbn; [set_solver|].
    rewrite IH, elem_of_filter. set_solver. }
  rewrite H. set_solver.
Qed.

Lemma elem_of_sorted_names c s : c ∈ sorted_names s ↔ c ∈ s.
Proof. unfold sorted_names. by rewrite elem_of_sort_by_key, elem_of_elements. Qed.

Lemma sorted_names_nil s : sorted_names s = [] ↔ s = ∅.
Proof.
  split.
  - intros H. apply set_eq. intros c. rewrite <- elem_of_sorted_names, H. set_solver.
  - intros ->. apply elem_of_nil_inv. intros c. rewrite elem_of_sorted_names. set_solver.
Qed.

Lemma intersect_capabilities_Ok r layers cs :
  intersect_policy_capabilities r layers = Ok cs ↔
  layers ≠ [] ∧ capabilities r ≠ ∅ ∧ (∀ l, l ∈ layers → capabilities r ⊆ l) ∧
  cs = sorted_names (capabilities r).
Proof.
  unfold intersect_policy_capabilities.
  assert (capabilities r ∖ allowed_by_all layers = ∅ ∧ capabilities r ≠ ∅ ↔
          layers ≠ [] ∧ capabilities r ≠ ∅ ∧ ∀ l, l ∈ layers → capabilities r ⊆ l) as H.
  { split.
    - intros [Hd Hne]. assert (∀ c, c ∈ capabilities r → c ∈ allowed_by_all layers) as Hc.
      { intros c Hc. destruct (decide (c ∈ allowed_by_all layers)); [done|]. set_solver. }
      setoid_rewrite elem_of_allowed in Hc.
      destruct (set_choose_L _ Hne) as [c0 Hc0]. split; [naive_solver|]. set_solver.
    - intros (Hne & Hr & Hl). split; [|done]. apply set_eq. intros c.
      rewrite elem_of_difference, elem_of_allowed. set_solver. }
  repeat case_bool_decide; rewrite ?sorted_names_nil in *; cbn; naive_solver.
Qed.

Lemma intersect_capabilities_Err r layers cs :
  intersect_policy_capabilities r layers = Err cs →
  (capabilities r = ∅ ∨ ∃ c, c ∈ cs) ∧
  ∀ c, c ∈ cs ↔ c ∈ capabilities r ∧ (layers = [] ∨ ∃ l, l ∈ layers ∧ c ∉ l).
Proof.
  unfold intersect_policy_capabilities. destruct (_ || _) eqn:E; [|done].
  intros [= <-]. split.
  - rewrite orb_true_iff, negb_true_iff, bool_decide_eq_true, bool_decide_eq_false in E.
    destruct E as [E|E]; [by left|right].
    destruct (sorted_names _) as [|c cs]; [done|]. exists c. set_solver.
  - intros c. rewrite elem_of_sorted_names, elem_of_difference, elem_of_allowed.
    split; intros [Hc H]; (split; [done|]).
    + destruct layers as [|l ls]; [by left|]. right.
      destruct (decide (Exists (λ l : PolicyCapabilities, c ∉ l) (l :: ls))) as [HE|HE].
      * apply Exists_exists in HE. naive_solver.
      * destruct H. split; [done|]. intros l' Hl'.
        destruct (decide (c ∈ l')); [done|]. destruct HE. apply (Exists_exists (λ l : PolicyCapabilities, c ∉ l)). eauto.
    + intros [H1 H2]. destruct H as [->|(l & Hl & Hn)]; [done|]. auto.
Qed.

(** ** The decision *)

(** The network condition of a request. *)
Definition network_granted (r : RequestedCapabilities) (layers : list PolicyLayer) : Prop :=
  Network ∈ capabilities r →
  ∃ p, p ≠ ProfileNone ∧ agreed p (layer_profile <$> layers) ∧
    ∀ d, network_destination r = Some d → p = BrokeredAllowlist →
      ∀ l, l ∈ layers → layer_permits l d.

Lemma check_network_Ok r p ds :
  check_network r p ds = Ok tt ↔
  (Network ∈ capabilities r → p ≠ ProfileNone ∧
    ∀ d, network_destination r = Some d → p = BrokeredAllowlist → d ∈ ds).
Proof.
  unfold check_network, requests. case_bool_decide; [|naive_solver].
  case_bool_decide; [naive_solver|].
  destruct (network_destination r); [|naive_solver].
  repeat case_bool_decide; cbn; naive_solver.
Qed.

Lemma check_network_granted r layers p ds :
  layers ≠ [] → intersect_network_policy layers = (p, ds) →
  check_network r p ds = Ok tt ↔ network_granted r layers.
Proof.
  intros Hne Hi. rewrite check_network_Ok. unfold network_granted.
  pose proof (intersect_network_profile _ _ _ Hne Hi) as Hp.
  pose proof (λ d, intersect_network_permits _ _ _ d Hne Hi) as Hd.
  split; intros H Hr; specialize (H Hr).
  - destruct H as [H1 H2]. exists p. destruct Hp as [Hp|[Hp _]]; [|done].
    split_and!; [done..|]. intros d E1 E2. apply Hd. rewrite E2 in *. exact (H2 _ E1 eq_refl).
  - destruct H as (q & H1 & H2 & H3). destruct Hp as [Hp|[_ Hp]]; [|naive_solver].
    assert (q = p) as -> by eauto using agreed_unique.
    split; [done|]. intros d E1 E2. specialize (H3 d E1 E2). apply Hd in H3.
    by rewrite E2 in H3.
Qed.

Lemma check_network_kind r p ds e :
  check_network r p ds = Err e →
  Network ∈ capabilities r ∧
  (e = denied NetworkProfileRequired ∧ p = ProfileNone ∨
   e = denied DestinationDenied ∧ p = BrokeredAllowlist ∧
     ∃ d, network_destination r = Some d ∧ d ∉ ds).
Proof.
  unfold check_network, requests. case_bool_decide; [|done].
  case_bool_decide; [naive_solver|].
  destruct (network_destination r); [|done].
  repeat case_bool_decide; cbn; naive_solver.
Qed.

Lemma all_admit_split subject (layers : list PolicyLayer) :
  (∀ l, l ∈ layers → admits subject l) ↔
  (∀ l, l ∈ layers → tenant_id subject ∈ allowed_tenants l) ∧
  (∀ l, l ∈ layers → role subject ∈ allowed_roles l) ∧
  (∀ l, l ∈ layers →
     classification_le (classification subject) (max_classification l) = true).
Proof. unfold admits. naive_solver. Qed.

(** [evaluate_context_policy] unfolded into its checks, in order. *)
Lemma evaluate_Ok subject r layers eff :
  evaluate_context_policy subject r layers = Ok eff ↔
  layers ≠ [] ∧ (∀ l, l ∈ layers → admits subject l) ∧
  check_network r (network_profile eff) (brokered_destinations eff) = Ok tt ∧
  intersect_network_policy layers = (network_profile eff, brokered_destinations eff) ∧
  intersect_policy_capabilities r (layer_capabilities <$> layers) =
    Ok (effective_capabilities eff).
Proof.
  unfold evaluate_context_policy. rewrite all_admit_split.
  destruct (intersect_network_policy layers) as [p ds].
  rewrite !ensure_bind_Ok, !forallb_true_iff, negb_true_iff, bool_decide_eq_false.
  setoid_rewrite bool_decide_eq_true.
  destruct eff as [cs p' ds']; cbn. split.
  - intros (Hne & Ht & Hr & Hc & ([] & Hn & (cs' & Hcs & [= -> -> ->])%bind_Ok)%bind_Ok).
    by rewrite map_err_Ok in Hcs.
  - intros (Hne & (Ht & Hr & Hc) & Hn & [= -> ->] & Hcs).
    by rewrite Hn, Hcs.
Qed.

Lemma layer_caps_iff (P : PolicyCapabilities → Prop) (layers : list PolicyLayer) :
  (∀ c, c ∈ layer_capabilities <$> layers → P c) ↔
  ∀ l, l ∈ layers → P (layer_capabilities l).
Proof. setoid_rewrite list_elem_of_fmap. naive_solver. Qed.

Definition grants (subject : PolicySubject) (r : RequestedCapabilities)
    (layers : list PolicyLayer) : Prop :=
  layers ≠ [] ∧ capabilities r ≠ ∅ ∧
  (∀ l, l ∈ layers → admits subject l ∧ capabilities r ⊆ layer_capabilities l) ∧
  network_granted r layers.

Lemma fmap_nil_iff (layers : list PolicyLayer) :
  layer_capabilities <$> layers ≠ [] ↔ layers ≠ [].
Proof. by destruct layers. Qed.

(** The contextual policy grants a request exactly when there is at least
    one layer, the request names a capability, and every layer admits the
    tenant, the role and the classification and allows every requested
    capability; a request for the network further needs the layers' profiles
    to agree on one that is not [none], and under a brokered allowlist a named
    destination on every layer that restricts destinations. *)
Theorem context_policy_exact (subject : PolicySubject) (r : RequestedCapabilities)
    (layers : list PolicyLayer) :
  (∃ eff, evaluate_context_policy subject r layers = Ok eff) ↔ grants subject r layers.
Proof.
  setoid_rewrite evaluate_Ok. unfold grants.
  setoid_rewrite intersect_capabilities_Ok. setoid_rewrite layer_caps_iff.
  setoid_rewrite fmap_nil_iff. split.
  - intros (eff & Hne & Ha & Hn & Hi & _ & Hr & Hc & _).
    split; [done|]. split; [done|]. split; [by auto|].
    by eapply check_network_granted.
  - intros (Hne & Hr & Hl & Hn). destruct (intersect_network_policy layers) as [p ds] eqn:Hi.
    exists (mk_EffectivePolicy (sorted_names (capabilities r)) p ds); cbn.
    split; [done|]. split; [by intros; apply Hl|].
    split; [by apply (check_network_granted r layers)|].
    split; [done|]. split; [done|]. split; [done|].
    split; [|done]. intros. by apply Hl.
Qed.

(** C30. Authority never grows: the effective capabilities are exactly the
    requested ones, without duplicates and in the order of their names, each
    allowed by every layer; the effective network policy permits an exact
    destination if and only if every layer permits it, and is the full
    network only when every layer grants the full network. *)
Theorem context_policy_effective (subject : PolicySubject) (r : RequestedCapabilities)
    (layers : list PolicyLayer) (eff : EffectivePolicy)
    (H : evaluate_context_policy subject r layers = Ok eff) :
  (∀ c, c ∈ effective_capabilities eff ↔ c ∈ capabilities r) ∧
  NoDup (effective_capabilities eff) ∧
  StronglySorted (key_le as_str) (effective_capabilities eff) ∧
  (∀ c l, c ∈ effective_capabilities eff → l ∈ layers → c ∈ layer_capabilities l) ∧
  (∀ d, policy_permits eff d ↔ ∀ l, l ∈ layers → layer_permits l d) ∧
  (network_profile eff = Full ↔ ∀ l, l ∈ layers → layer_profile l = Full).
Proof.
  apply evaluate_Ok in H as (Hne & _ & _ & Hi & (_ & Hr & Hl & ->)%intersect_capabilities_Ok).
  setoid_rewrite layer_caps_iff in Hl. setoid_rewrite elem_of_sorted_names.
  split; [done|]. split.
  { unfold sorted_names. rewrite sort_by_key_Permutation. apply NoDup_elements. }
  split; [apply sort_by_key_sorted|]. split.
  { intros c l Hc Hlin. by apply (Hl l). }
  split.
  - intros d. by apply intersect_network_permits.
  - destruct (intersect_network_profile _ _ _ Hne Hi) as [Hp|[Hp Hq]].
    + split.
      * intros E. rewrite E in Hp. apply agreed_Full in Hp as [_ Hp].
        intros l Hlin. apply Hp, list_elem_of_fmap. eauto.
      * intros HF. apply (agreed_unique _ _ _ Hp), agreed_Full. split; [by destruct layers|].
        intros q (l & -> & Hlin)%list_elem_of_fmap. auto.
    + rewrite Hp. split; [done|]. intros HF. destruct (Hq Full). apply agreed_Full.
      split; [by destruct layers|].
      intros q (l & -> & Hlin)%list_elem_of_fmap. auto.
Qed.

(** What each denial reports, the earlier checks having passed. *)
Definition denial_reason (subject : PolicySubject) (r : RequestedCapabilities)
    (layers : list PolicyLayer) (d : ContextPolicyDenied) : Prop :=
  let tenants := ∀ l, l ∈ layers → tenant_id subject ∈ allowed_tenants l in
  let roles := ∀ l, l ∈ layers → role subject ∈ allowed_roles l in
  let all := ∀ l, l ∈ layers → admits subject l in
  match denied_kind d with
  | MissingSubject => False
  | InvalidPolicy => layers = []
  | TenantMismatch => layers ≠ [] ∧ ¬ tenants
  | RoleDenied => layers ≠ [] ∧ tenants ∧ ¬ roles
  | ClassificationDenied => layers ≠ [] ∧ tenants ∧ roles ∧ ¬ all
  | NetworkProfileRequired => layers ≠ [] ∧ all ∧ Network ∈ capabilities r ∧
      ∀ p, agreed p (layer_profile <$> layers) → p = ProfileNone
  | DestinationDenied => layers ≠ [] ∧ all ∧ Network ∈ capabilities r ∧
      agreed BrokeredAllowlist (layer_profile <$> layers) ∧
      ∃ dest, network_destination r = Some dest ∧
        ¬ ∀ l, l ∈ layers → layer_permits l dest
  | CapabilityDenied => layers ≠ [] ∧ all ∧ network_granted r layers ∧
      (capabilities r = ∅ ∨ missing_capabilities d ≠ []) ∧
      ∀ c, c ∈ missing_capabilities d ↔
        c ∈ capabilities r ∧ ∃ l, l ∈ layers ∧ c ∉ layer_capabilities l
  end.

Lemma forallb_false_not {A} (p : A → bool) l :
  forallb p l = false → ¬ ∀ x, x ∈ l → p x = true.
Proof. rewrite <- forallb_true_iff. by intros ->. Qed.

Lemma network_denial_reason subject r layers p ds e :
  layers ≠ [] → (∀ l, l ∈ layers → admits subject l) →
  intersect_network_policy layers = (p, ds) →
  check_network r p ds = Err e → denial_reason subject r layers e.
Proof.
  intros Hne Ha Hi (Hn & [[-> ->]|(-> & -> & d & Hd & Hin)])%check_network_kind;
    unfold denial_reason; cbn; (split; [done|]); (split; [done|]); (split; [done|]);
    destruct (intersect_network_profile _ _ _ Hne Hi) as [Hp|[Hp Hq]].
  - intros q Hq'. eauto using agreed_unique.
  - intros q Hq'. by destruct (Hq q).
  - split; [done|]. exists d. split; [done|]. by rewrite <- (intersect_network_permits _ _ _ d Hne Hi).
  - done.
Qed.

(** A denial names the first check that fails, in the order tenants,
    roles, classifications, network, capabilities (an empty policy before
    all of them), and every earlier check held; a capability denial lists
    exactly the requested classes that some layer lacks. *)
Theorem context_policy_denial (subject : PolicySubject) (r : RequestedCapabilities)
    (layers : list PolicyLayer) (d : ContextPolicyDenied)
    (H : evaluate_context_policy subject r layers = Err d) :
  denial_reason subject r layers d.
Proof.
  unfold evaluate_context_policy in H.
  destruct (intersect_network_policy layers) as [p ds] eqn:Hi.
  apply ensure_bind_Err in H as [[H <-]|[Hne H]].
  { by apply negb_false_iff, bool_decide_eq_true in H. }
  apply negb_true_iff, bool_decide_eq_false in Hne.
  apply ensure_bind_Err in H as [[Ht <-]|[Ht H]].
  { split; [done|]. apply forallb_false_not in Ht.
    by setoid_rewrite bool_decide_eq_true in Ht. }
  rewrite forallb_true_iff in Ht. setoid_rewrite bool_decide_eq_true in Ht.
  apply ensure_bind_Err in H as [[Hr <-]|[Hr H]].
  { split_and!; [done..|]. apply forallb_false_not in Hr.
    by setoid_rewrite bool_decide_eq_true in Hr. }
  rewrite forallb_true_iff in Hr. setoid_rewrite bool_decide_eq_true in Hr.
  apply ensure_bind_Err in H as [[Hc <-]|[Hc H]].
  { split_and!; [done..|]. apply forallb_false_not in Hc.
    by rewrite all_admit_split; intros (_ & _ & ?). }
  rewrite forallb_true_iff in Hc.
  assert (∀ l, l ∈ layers → admits subject l) as Ha by by apply all_admit_split.
  apply bind_Err in H as [H|([] & Hn & H)]; [by eapply network_denial_reason|].
  apply bind_Err in H as [H|(cs & Hcs & H)]; [|done].
  apply map_err_Err in H as (cs & Hcs & ->).
  apply intersect_capabilities_Err in Hcs as [H1 H2].
  split_and!; [done..| | |].
  - by eapply check_network_granted.
  - cbn. destruct H1 as [|[c Hcin]]; [by left|right]. by destruct cs; [apply elem_of_nil in Hcin|].
  - cbn. intros c. rewrite H2. setoid_rewrite list_elem_of_fmap.
    destruct layers; [done|]. naive_solver.
Qed.

(** ** The order of the layers *)

Lemma intersect_network_destinations layers p ds :
  intersect_network_policy layers = (p, ds) → p ≠ BrokeredAllowlist → ds = [].
Proof.
  unfold intersect_network_policy. destruct (combine_profiles None layers); [|naive_solver].
  case_bool_decide; cbn; naive_solver.
Qed.

Lemma intersect_network_Permutation ls1 ls2 p1 ds1 p2 ds2 :
  ls1 ≠ [] → ls1 ≡ₚ ls2 →
  intersect_network_policy ls1 = (p1, ds1) → intersect_network_policy ls2 = (p2, ds2) →
  p1 = p2 ∧ ∀ d, d ∈ ds1 ↔ d ∈ ds2.
Proof.
  intros Hne1 Hp H1 H2.
  assert (ls2 ≠ []) as Hne2 by (intros ->; by apply Permutation_nil_r in Hp).
  assert (layer_profile <$> ls1 ≡ₚ layer_profile <$> ls2) as Hpp by by rewrite Hp.
  assert (p1 = p2) as ->.
  { destruct (intersect_network_profile _ _ _ Hne1 H1) as [Ha1|[-> Hn1]],
      (intersect_network_profile _ _ _ Hne2 H2) as [Ha2|[-> Hn2]]; [|..|done].
    - eapply agreed_unique; [exact Ha1|]. by eapply agreed_Permutation; [symmetry|].
    - destruct (Hn2 p1). by eapply agreed_Permutation.
    - destruct (Hn1 p2). by eapply agreed_Permutation; [symmetry|]. }
  split; [done|]. intros d. destruct (decide (p2 = BrokeredAllowlist)) as [->|Hb].
  - pose proof (intersect_network_permits _ _ _ d Hne1 H1) as Hd1.
    pose proof (intersect_network_permits _ _ _ d Hne2 H2) as Hd2.
    cbn in Hd1, Hd2. rewrite Hd1, Hd2. by setoid_rewrite Hp.
  - by rewrite (intersect_network_destinations _ _ _ H1 Hb),
      (intersect_network_destinations _ _ _ H2 Hb).
Qed.

Lemma check_network_ext r p ds1 ds2 :
  (∀ d, d ∈ ds1 ↔ d ∈ ds2) → check_network r p ds1 = check_network r p ds2.
Proof.
  intros H. unfold check_network. destruct (network_destination r) as [d|]; [|done].
  by rewrite (bool_decide_ext (d ∈ ds1) (d ∈ ds2)) by apply H.
Qed.

Lemma intersect_capabilities_Permutation r ls1 ls2 :
  ls1 ≡ₚ ls2 → intersect_policy_capabilities r ls1 = intersect_policy_capabilities r ls2.
Proof.
  intros Hp. unfold intersect_policy_capabilities.
  replace (allowed_by_all ls2) with (allowed_by_all ls1); [done|].
  apply set_eq. intros c. rewrite !elem_of_allowed.
  split; intros [Hne H]; split.
  - intros ->. by apply Permutation_nil_r in Hp.
  - intros l Hl. apply H. by rewrite Hp.
  - intros ->. by apply Permutation_nil_l in Hp.
  - intros l Hl. apply H. by rewrite <- Hp.
Qed.

Lemma forallb_Permutation {A} (p : A → bool) l1 l2 :
  l1 ≡ₚ l2 → forallb p l1 = forallb p l2.
Proof. induction 1; cbn; [done|congruence|by rewrite !andb_assoc, (andb_comm (p y))|congruence]. Qed.

(** Two decisions that a caller cannot tell apart, except for the order of the
    destination list. *)
Definition same_decision (x y : result ContextPolicyDenied EffectivePolicy) : Prop :=
  match x, y with
  | Ok e1, Ok e2 =>
      effective_capabilities e1 = effective_capabilities e2 ∧
      network_profile e1 = network_profile e2 ∧
      ∀ d, d ∈ brokered_destinations e1 ↔ d ∈ brokered_destinations e2
  | Err d1, Err d2 => d1 = d2
  | _, _ => False
  end.

Lemma same_decision_ensure b e x y :
  same_decision x y → same_decision (ensure b e;; x) (ensure b e;; y).
Proof. by destruct b. Qed.

(** The decision does not depend on the order of the layers: permuted
    layers give the same grant (capabilities, profile and permitted
    destinations) or the same denial. *)
Theorem context_policy_order (subject : PolicySubject) (r : RequestedCapabilities)
    (ls1 ls2 : list PolicyLayer) (Hp : ls1 ≡ₚ ls2) :
  same_decision (evaluate_context_policy subject r ls1)
    (evaluate_context_policy subject r ls2).
Proof.
  destruct (decide (ls1 = [])) as [->|Hne].
  { apply Permutation_nil in Hp. by subst ls2. }
  unfold evaluate_context_policy.
  rewrite (bool_decide_ext (ls1 = []) (ls2 = [])).
  2: { split; intros ->; [by apply Permutation_nil|by apply Permutation_nil_r]. }
  rewrite !(forallb_Permutation _ _ _ Hp).
  do 4 apply same_decision_ensure.
  destruct (intersect_network_policy ls1) as [p1 ds1] eqn:H1,
    (intersect_network_policy ls2) as [p2 ds2] eqn:H2.
  destruct (intersect_network_Permutation _ _ _ _ _ _ Hne Hp H1 H2) as [-> Hds].
  rewrite (check_network_ext _ _ _ _ Hds).
  rewrite (intersect_capabilities_Permutation r _ (layer_capabilities <$> ls2)) by by rewrite Hp.
  destruct (check_network _ _ _); [|done]; cbn.
  by destruct (intersect_policy_capabilities _ _).
Qed.

(** ** Concrete policies *)

Definition ex_subject : PolicySubject :=
  mk_PolicySubject (mk_TenantId "acme") (mk_RoleToken "author") Internal.
Definition ex_request : RequestedCapabilities :=
  with_network_destination (RequestedCapabilities_new [Network; FilesystemRead])
    (mk_NetworkDestination "api.example" 443).
Definition ex_layer (p : NetworkProfile) (ds : list NetworkDestination)
    (c : PolicyCapabilities) : PolicyLayer :=
  mk_PolicyLayer {[mk_TenantId "acme"]} {[mk_RoleToken "author"]} Restricted p ds c.
Definition ex_open : PolicyLayer :=
  ex_layer Full [] {[Network; FilesystemRead; FilesystemWrite]}.
Definition ex_broker : PolicyLayer :=
  ex_layer BrokeredAllowlist
    [mk_NetworkDestination "api.example" 443; mk_NetworkDestination "b" 1]
    {[Network; FilesystemRead]}.
Definition ex_effective : EffectivePolicy :=
  mk_EffectivePolicy [FilesystemRead; Network] BrokeredAllowlist
    [mk_NetworkDestination "api.example" 443; mk_NetworkDestination "b" 1].

Lemma context_policy_effective_witness :
  evaluate_context_policy ex_subject ex_request [ex_open; ex_broker] = Ok ex_effective ∧
  ¬ policy_permits ex_effective (mk_NetworkDestination "other" 443).
Proof.
  assert (evaluate_context_policy ex_subject ex_request [ex_open; ex_broker] =
    Ok ex_effective) as H by by vm_compute.
  split; [exact H|].
  pose proof (context_policy_effective _ _ _ _ H) as (_ & _ & _ & _ & Hd & _).
  rewrite Hd. intros Hl. specialize (Hl ex_broker). cbn in Hl. set_solver.
Defined.

Lemma context_policy_denial_witness :
  evaluate_context_policy ex_subject ex_request
    [ex_open; ex_layer Full [] {[FilesystemRead]}] =
    Err (mk_ContextPolicyDenied CapabilityDenied [Network]) ∧
  denial_reason ex_subject ex_request [ex_open; ex_layer Full [] {[FilesystemRead]}]
    (mk_ContextPolicyDenied CapabilityDenied [Network]).
Proof.
  assert (evaluate_context_policy ex_subject ex_request
    [ex_open; ex_layer Full [] {[FilesystemRead]}] =
    Err (mk_ContextPolicyDenied CapabilityDenied [Network])) as H by by vm_compute.
  split; [exact H|]. exact (context_policy_denial _ _ _ _ H).
Defined.

Lemma context_policy_order_witness :
  [ex_open; ex_broker] ≡ₚ [ex_broker; ex_open] ∧
  same_decision (evaluate_context_policy ex_subject ex_request [ex_open; ex_broker])
    (evaluate_context_policy ex_subject ex_request [ex_broker; ex_open]).
Proof.
  assert ([ex_open; ex_broker] ≡ₚ [ex_broker; ex_open]) as H by constructor.
  split; [exact H|]. exact (context_policy_order _ _ _ _ H).
Defined.
