(* ===== verification/Controller.v ===== *)
(** * The host run controller

    [workflow-runtime/src/controller.rs]: synchronous enforcement of one run's
    ceilings.  Every method takes the elapsed time sampled by the host; a
    failed method latches a terminal cause and, once, hands the identity of
    the open tool call back for cleanup. *)

From S2P Require Import Prelude.
From S2P Require Import Runtime.

(*| runtime/controller.rs 5-20 RunControlError *)
Inductive RunControlError :=
| ClockRegressed
| ModelTurnWhileToolCallActive
| ToolCallAlreadyActive
| ToolOutputWithoutActiveCall
| ToolFinishWithoutActiveCall
| RunFinishWithActiveToolCall.

(*| runtime/controller.rs 22-33 RunTerminalCause *)
Inductive RunTerminalCause :=
| Cancelled
| TimedOut (timeout : RunTimeoutKind)
| LimitExceeded (limit : RunLimitKind)
| Failed (error : RunControlError).

#[export] Instance RunControlError_eq_dec : EqDecision RunControlError.
Proof. solve_decision. Defined.
#[export] Instance RunTerminalCause_eq_dec : EqDecision RunTerminalCause.
Proof. solve_decision. Defined.

(*| runtime/controller.rs 37-44 RunTerminalCause::status *)
Definition cause_status (c : RunTerminalCause) : RunStatus :=
  match c with
  | Cancelled => StatusCancelled
  | TimedOut _ => StatusTimedOut
  | LimitExceeded _ => StatusLimitExceeded
  | Failed _ => StatusFailed
  end.

(*| runtime/controller.rs 46-57 RunTerminalCause::into_outcome *)
Definition into_outcome {T D : Type} (c : RunTerminalCause) (diagnostic : D) :
    RunOutcome T D :=
  match c with
  | Cancelled => OutcomeCancelled diagnostic
  | TimedOut timeout => OutcomeTimedOut timeout diagnostic
  | LimitExceeded limit => OutcomeLimitExceeded limit diagnostic
  | Failed _ => OutcomeFailed diagnostic
  end.

(*| runtime/controller.rs 60-77 ToolCallCleanup *)
Record ToolCallCleanup := mk_ToolCallCleanup {
  exact_tool_id : string;
  exact_version : string
}.

(*| runtime/controller.rs 79-102 RunTermination *)
Record RunTermination := mk_RunTermination {
  termination_cause : RunTerminalCause;
  termination_cleanup : option ToolCallCleanup;
  source_context : RunContext
}.

(*| runtime/controller.rs 104-107 ActiveToolCall *)
Record ActiveToolCall := mk_ActiveToolCall {
  active_cleanup : ToolCallCleanup;
  started_at : Z
}.

(*| runtime/controller.rs 109-121 RunController *)
Record RunController := mk_RunController {
  run_id : RunId;
  limits : RunLimits;
  model_turn_count : Z;
  total_tool_call_count : Z;
  tool_call_counts : gmap string (gmap string Z);
  accepted_tool_output_bytes : Z;
  last_elapsed : Z;
  idle_started_at : Z;
  active_tool_call : option ActiveToolCall;
  terminal_cause : option RunTerminalCause
}.

(** Field updates. *)
Definition set_model_turn_count v s := mk_RunController (run_id s) (limits s) v
  (total_tool_call_count s) (tool_call_counts s) (accepted_tool_output_bytes s)
  (last_elapsed s) (idle_started_at s) (active_tool_call s) (terminal_cause s).
Definition set_tool_calls total counts s := mk_RunController (run_id s) (limits s)
  (model_turn_count s) total counts (accepted_tool_output_bytes s)
  (last_elapsed s) (idle_started_at s) (active_tool_call s) (terminal_cause s).
Definition set_accepted_bytes v s := mk_RunController (run_id s) (limits s)
  (model_turn_count s) (total_tool_call_count s) (tool_call_counts s) v
  (last_elapsed s) (idle_started_at s) (active_tool_call s) (terminal_cause s).
Definition set_last_elapsed v s := mk_RunController (run_id s) (limits s)
  (model_turn_count s) (total_tool_call_count s) (tool_call_counts s)
  (accepted_tool_output_bytes s) v (idle_started_at s) (active_tool_call s)
  (terminal_cause s).
Definition set_idle_started_at v s := mk_RunController (run_id s) (limits s)
  (model_turn_count s) (total_tool_call_count s) (tool_call_counts s)
  (accepted_tool_output_bytes s) (last_elapsed s) v (active_tool_call s)
  (terminal_cause s).
Definition set_active v s := mk_RunController (run_id s) (limits s)
  (model_turn_count s) (total_tool_call_count s) (tool_call_counts s)
  (accepted_tool_output_bytes s) (last_elapsed s) (idle_started_at s) v
  (terminal_cause s).
Definition set_terminal v s := mk_RunController (run_id s) (limits s)
  (model_turn_count s) (total_tool_call_count s) (tool_call_counts s)
  (accepted_tool_output_bytes s) (last_elapsed s) (idle_started_at s)
  (active_tool_call s) v.

Definition ctl (A : Type) : Type := method RunController RunTermination A.

(*| runtime/controller.rs 125-138 RunController::new *)
Definition RunController_new (context : RunContext) : RunController :=
  mk_RunController (ctx_run_id context) (ctx_limits context) 0 0 ∅ 0 0 0 None None.

(*| runtime/controller.rs 147-149 RunController::belongs_to *)
Definition belongs_to (s : RunController) (context : RunContext) : bool :=
  bool_decide (run_id s = ctx_run_id context) &&
  bool_decide (limits s = ctx_limits context).

(*| runtime/controller.rs 323-330 RunController::tool_call_count *)
Definition tool_call_count (s : RunController) (id version : string) : Z :=
  default 0%Z (tool_call_counts s !! id ≫= λ versions, versions !! version).

(*| runtime/controller.rs 400-410 RunController::termination *)
Definition termination (s : RunController) (cause : RunTerminalCause)
    (cleanup : option ToolCallCleanup) : RunTermination :=
  mk_RunTermination cause cleanup (mk_RunContext (run_id s) (limits s)).

(*| runtime/controller.rs 390-398 RunController::terminate *)
Definition terminate (cause : RunTerminalCause) (s : RunController) :
    RunController * RunTermination :=
  match terminal_cause s with
  | Some latched => (s, termination s latched None)
  | None =>
      let s' := set_active None (set_terminal (Some cause) s) in
      let cleanup := active_cleanup <$> active_tool_call s in
      (s', termination s' cause cleanup)
  end.

(** [return Err(self.terminate(cause))]. *)
Definition fail_with {A : Type} (cause : RunTerminalCause) : ctl A :=
  λ s, let '(s', t) := terminate cause s in (s', Err t).

(*| runtime/controller.rs 357-368 RunController::reached_timeout *)
Definition consider (elapsed : Z) (winner : option (Z * RunTimeoutKind))
    (deadline : Z) (kind : RunTimeoutKind) : option (Z * RunTimeoutKind) :=
  if (deadline <=? elapsed)%Z &&
     match winner with
     | Some (earliest, _) => (deadline <? earliest)%Z
     | None => true
     end
  then Some (deadline, kind) else winner.

(*| runtime/controller.rs 356-388 RunController::reached_timeout *)
Definition reached_timeout (s : RunController) (elapsed : Z) :
    option RunTimeoutKind :=
  let winner :=
    consider elapsed None (duration_millis (max_wall_time_ms (limits s))) WallTime in
  let winner :=
    match duration_checked_add (idle_started_at s)
            (duration_millis (max_idle_time_ms (limits s))) with
    | Some deadline => consider elapsed winner deadline IdleTime
    | None => winner
    end in
  let winner :=
    match active_tool_call s with
    | Some active =>
        match duration_checked_add (started_at active)
                (duration_millis (max_tool_time_ms (limits s))) with
        | Some deadline => consider elapsed winner deadline ToolTime
        | None => winner
        end
    | None => winner
    end in
  snd <$> winner.

(*| runtime/controller.rs 342-354 RunController::check_boundary *)
Definition check_boundary (elapsed : Z) : ctl unit := λ s,
  match terminal_cause s with
  | Some cause => (s, Err (termination s cause None))
  | None =>
      if (elapsed <? last_elapsed s)%Z then fail_with (Failed ClockRegressed) s
      else
        let s := set_last_elapsed elapsed s in
        match reached_timeout s elapsed with
        | Some timeout => fail_with (TimedOut timeout) s
        | None => (s, Ok tt)
        end
  end.

(** [self.active_tool_call.is_some()]. *)
Definition is_active (s : RunController) : bool := bool_decide (is_Some (active_tool_call s)).

(*| runtime/controller.rs 140-143 RunController::poll *)
Definition poll (elapsed : Z) : ctl unit := check_boundary elapsed.

(*| runtime/controller.rs 151-159 RunController::preflight_finish *)
Definition preflight_finish (elapsed : Z) : ctl unit :=
  check_boundary elapsed;;
  active ← gets is_active;
  if active : bool then fail_with (Failed RunFinishWithActiveToolCall) else mret tt.

(*| runtime/controller.rs 161-175 RunController::into_rejection_termination *)
Definition into_rejection_termination (s : RunController) : option RunTermination :=
  match terminal_cause s with
  | Some cause => Some (termination s cause None)
  | None =>
      match active_tool_call s with
      | None => None
      | Some _ => Some (snd (terminate (Failed RunFinishWithActiveToolCall) s))
      end
  end.

(*| runtime/controller.rs 177-192 RunController::admit_model_turn *)
Definition admit_model_turn (elapsed : Z) : ctl unit :=
  check_boundary elapsed;;
  s ← gets id;
  if is_active s then fail_with (Failed ModelTurnWhileToolCallActive)
  else if (max_model_turns (limits s) <=? model_turn_count s)%Z
  then fail_with (LimitExceeded ModelTurns)
  else modify (λ s, set_idle_started_at elapsed
                      (set_model_turn_count (u64_add (model_turn_count s) 1) s)).

(** [*counts.entry(id).or_default().entry(version).or_default() += 1]. *)
Definition bump (id version : string) (counts : gmap string (gmap string Z)) :
    gmap string (gmap string Z) :=
  let versions := default ∅ (counts !! id) in
  <[id := <[version := u64_add (default 0%Z (versions !! version)) 1]> versions]> counts.

(*| runtime/controller.rs 194-235 RunController::begin_tool_call *)
Definition begin_tool_call (elapsed : Z) (id version : string) : ctl unit :=
  check_boundary elapsed;;
  s ← gets Datatypes.id;
  if is_active s then fail_with (Failed ToolCallAlreadyActive)
  else if (max_tool_calls (limits s) <=? total_tool_call_count s)%Z
  then fail_with (LimitExceeded TotalToolCalls)
  else if (max_calls_per_tool (limits s) <=? tool_call_count s id version)%Z
  then fail_with (LimitExceeded ToolCallsPerTool)
  else modify (λ s,
    set_idle_started_at elapsed
      (set_active (Some (mk_ActiveToolCall (mk_ToolCallCleanup id version) elapsed))
        (set_tool_calls (u64_add (total_tool_call_count s) 1)
          (bump id version (tool_call_counts s)) s))).

(*| runtime/controller.rs 237-262 RunController::accept_tool_output *)
Definition accept_tool_output (elapsed bytes : Z) : ctl unit :=
  check_boundary elapsed;;
  s ← gets id;
  if negb (is_active s) then fail_with (Failed ToolOutputWithoutActiveCall)
  else
    let remaining := u64_sub (max_tool_output_bytes (limits s))
                       (accepted_tool_output_bytes s) in
    if (remaining <? bytes)%Z then fail_with (LimitExceeded ToolOutputBytes)
    else modify (λ s,
      let s := set_accepted_bytes (u64_add (accepted_tool_output_bytes s) bytes) s in
      if (bytes =? 0)%Z then s else set_idle_started_at elapsed s).

(*| runtime/controller.rs 264-276 RunController::finish_tool_call *)
Definition finish_tool_call (elapsed : Z) : ctl unit :=
  check_boundary elapsed;;
  s ← gets id;
  if negb (is_active s) then fail_with (Failed ToolFinishWithoutActiveCall)
  else modify (λ s, set_idle_started_at elapsed (set_active None s)).

(*| runtime/controller.rs 278-283 RunController::mark_progress *)
Definition mark_progress (elapsed : Z) : ctl unit :=
  check_boundary elapsed;;
  modify (set_idle_started_at elapsed).

(*| runtime/controller.rs 285-291 RunController::request_cancel *)
Definition request_cancel (elapsed : Z) (s : RunController) :
    RunController * RunTermination :=
  match check_boundary elapsed s with
  | (s, Err t) => (s, t)
  | (s, Ok _) => terminate Cancelled s
  end.

(*| runtime/controller.rs 309-311 RunController::finish *)
Definition finish (elapsed : Z) (s : RunController) : result RunTermination unit :=
  snd (preflight_finish elapsed s).

(** ** Command sequences

    A host drives one controller through any sequence of its methods
    ([finish] and [into_rejection_termination] consume it and come last). *)

Inductive command :=
| Poll (elapsed : Z)
| PreflightFinish (elapsed : Z)
| AdmitModelTurn (elapsed : Z)
| BeginToolCall (elapsed : Z) (id version : string)
| AcceptToolOutput (elapsed bytes : Z)
| FinishToolCall (elapsed : Z)
| MarkProgress (elapsed : Z)
| RequestCancel (elapsed : Z).

Definition command_elapsed (c : command) : Z :=
  match c with
  | Poll e | PreflightFinish e | AdmitModelTurn e | BeginToolCall e _ _
  | AcceptToolOutput e _ | FinishToolCall e | MarkProgress e | RequestCancel e => e
  end.

(** The arguments are values of their Rust types. *)
Definition command_wf (c : command) : Prop :=
  duration (command_elapsed c) ∧
  match c with AcceptToolOutput _ bytes => u64 bytes | _ => True end.

Definition exec (c : command) (s : RunController) :
    RunController * result RunTermination unit :=
  match c with
  | Poll e => poll e s
  | PreflightFinish e => preflight_finish e s
  | AdmitModelTurn e => admit_model_turn e s
  | BeginToolCall e id version => begin_tool_call e id version s
  | AcceptToolOutput e bytes => accept_tool_output e bytes s
  | FinishToolCall e => finish_tool_call e s
  | MarkProgress e => mark_progress e s
  | RequestCancel e => let '(s', t) := request_cancel e s in (s', Err t)
  end.

(** The final state and the outcome of every command, in order. *)
Fixpoint exec_all (cs : list command) (s : RunController) :
    RunController * list (command * result RunTermination unit) :=
  match cs with
  | [] => (s, [])
  | c :: cs =>
      let '(s1, r) := exec c s in
      let '(s2, rs) := exec_all cs s1 in
      (s2, (c, r) :: rs)
  end.

(** ** One command, uniformly

    Apart from latching, every command first rejects a regressing clock, then
    a reached deadline, then its own guard ([refusal]); it takes effect only
    when none of the three applies. *)

Definition refusal (c : command) (s : RunController) : option RunTerminalCause :=
  match c with
  | Poll _ | MarkProgress _ => None
  | PreflightFinish _ =>
      if is_active s then Some (Failed RunFinishWithActiveToolCall) else None
  | AdmitModelTurn _ =>
      if is_active s then Some (Failed ModelTurnWhileToolCallActive)
      else if decide (max_model_turns (limits s) ≤ model_turn_count s)%Z
      then Some (LimitExceeded ModelTurns) else None
  | BeginToolCall _ id version =>
      if is_active s then Some (Failed ToolCallAlreadyActive)
      else if decide (max_tool_calls (limits s) ≤ total_tool_call_count s)%Z
      then Some (LimitExceeded TotalToolCalls)
      else if decide (max_calls_per_tool (limits s) ≤ tool_call_count s id version)%Z
      then Some (LimitExceeded ToolCallsPerTool) else None
  | AcceptToolOutput _ bytes =>
      if is_active s then
        if decide (u64_sub (max_tool_output_bytes (limits s))
                     (accepted_tool_output_bytes s) < bytes)%Z
        then Some (LimitExceeded ToolOutputBytes) else None
      else Some (Failed ToolOutputWithoutActiveCall)
  | FinishToolCall _ =>
      if is_active s then None else Some (Failed ToolFinishWithoutActiveCall)
  | RequestCancel _ => Some Cancelled
  end.

Definition blame (c : command) (s : RunController) : option RunTerminalCause :=
  if decide (command_elapsed c < last_elapsed s)%Z then Some (Failed ClockRegressed)
  else match reached_timeout s (command_elapsed c) with
       | Some timeout => Some (TimedOut timeout)
       | None => refusal c s
       end.

Definition effect (c : command) (s : RunController) : RunController :=
  match c with
  | Poll _ | PreflightFinish _ | RequestCancel _ => s
  | AdmitModelTurn e =>
      set_idle_started_at e (set_model_turn_count (u64_add (model_turn_count s) 1) s)
  | BeginToolCall e id version =>
      set_idle_started_at e
        (set_active (Some (mk_ActiveToolCall (mk_ToolCallCleanup id version) e))
          (set_tool_calls (u64_add (total_tool_call_count s) 1)
            (bump id version (tool_call_counts s)) s))
  | AcceptToolOutput e bytes =>
      let s := set_accepted_bytes (u64_add (accepted_tool_output_bytes s) bytes) s in
      if decide (bytes = 0%Z) then s else set_idle_started_at e s
  | FinishToolCall e => set_idle_started_at e (set_active None s)
  | MarkProgress e => set_idle_started_at e s
  end.

(** The state a refused command leaves behind. *)
Definition latched (c : command) (cause : RunTerminalCause) (s : RunController) :
    RunController :=
  let s := if decide (command_elapsed c < last_elapsed s)%Z then s
           else set_last_elapsed (command_elapsed c) s in
  set_active None (set_terminal (Some cause) s).

Section step_lemmas.
Implicit Types (s : RunController) (c : command).

Lemma reached_timeout_last s v e :
  reached_timeout (set_last_elapsed v s) e = reached_timeout s e.
Proof. done. Qed.

Lemma exec_terminal c s cause :
  terminal_cause s = Some cause →
  exec c s = (s, Err (termination s cause None)).
Proof.
  intros H.
  assert (∀ e, check_boundary e s = (s, Err (termination s cause None))) as Hb.
  { intros e. unfold check_boundary. by rewrite H. }
  destruct c; unfold exec, poll, preflight_finish, admit_model_turn,
    begin_tool_call, accept_tool_output, finish_tool_call, mark_progress,
    request_cancel, mbind, method_bind; by rewrite Hb.
Qed.

Lemma check_boundary_running e s :
  terminal_cause s = None →
  check_boundary e s =
    if decide (e < last_elapsed s)%Z
    then fail_with (Failed ClockRegressed) s
    else match reached_timeout s e with
         | Some t => fail_with (TimedOut t) (set_last_elapsed e s)
         | None => (set_last_elapsed e s, Ok tt)
         end.
Proof.
  intros H. unfold check_boundary. rewrite H, reached_timeout_last.
  destruct (Z.ltb_spec e (last_elapsed s)); case_decide; (done || lia).
Qed.

Lemma fail_with_running {A} cause s :
  terminal_cause s = None →
  fail_with (A := A) cause s =
    (set_active None (set_terminal (Some cause) s),
     Err (termination s cause (active_cleanup <$> active_tool_call s))).
Proof. intros H. unfold fail_with, terminate. by rewrite H. Qed.

(** The monadic code of every method, as the uniform rule above. *)
Lemma exec_running c s :
  terminal_cause s = None →
  exec c s =
    match blame c s with
    | Some cause =>
        (latched c cause s,
         Err (termination s cause (active_cleanup <$> active_tool_call s)))
    | None => (effect c (set_last_elapsed (command_elapsed c) s), Ok tt)
    end.
Proof.
  intros H. unfold blame, latched.
  destruct c; cbn [exec command_elapsed]; unfold poll, preflight_finish,
    admit_model_turn, begin_tool_call, accept_tool_output, finish_tool_call,
    mark_progress, request_cancel, mbind, method_bind;
    rewrite check_boundary_running by done;
    repeat case_decide; rewrite ?fail_with_running by done; try done;
    destruct (reached_timeout s _);
    rewrite ?fail_with_running by done; try done;
    cbn -[u64_sub Z.leb Z.ltb Z.eqb bump fail_with];
    unfold terminate, is_active, tool_call_count, modify, mret, method_ret;
    cbn -[u64_sub Z.leb Z.ltb Z.eqb bump fail_with]; rewrite ?H;
    repeat match goal with
      | |- context [(?a <=? ?b)%Z] => destruct (Z.leb_spec a b)
      | |- context [(?a <? ?b)%Z] => destruct (Z.ltb_spec a b)
      | |- context [(?a =? ?b)%Z] => destruct (Z.eqb_spec a b)
      | |- context [decide ?P] => destruct (decide P)
      | |- context [bool_decide ?P] => destruct (bool_decide P)
      end; cbn [negb]; try lia;
    by rewrite ?fail_with_running by done.
Qed.
End step_lemmas.

(** ** What a log of commands records *)

Definition entry : Type := command * result RunTermination unit.

(** Sum of [f c] over the commands [c] that succeeded. *)
Definition entry_value (f : command → Z) (x : entry) : Z :=
  match x with (c, Ok _) => f c | (_, Err _) => 0%Z end.
Fixpoint tally (f : command → Z) (log : list entry) : Z :=
  match log with [] => 0%Z | x :: log => (entry_value f x + tally f log)%Z end.

Definition turn_value (c : command) : Z :=
  match c with AdmitModelTurn _ => 1 | _ => 0 end.
Definition begin_value (c : command) : Z :=
  match c with BeginToolCall _ _ _ => 1 | _ => 0 end.
Definition begin_of_value (id version : string) (c : command) : Z :=
  match c with
  | BeginToolCall _ id' version' =>
      if decide (id' = id ∧ version' = version) then 1 else 0
  | _ => 0
  end.
Definition finish_value (c : command) : Z :=
  match c with FinishToolCall _ => 1 | _ => 0 end.
Definition output_value (c : command) : Z :=
  match c with AcceptToolOutput _ bytes => bytes | _ => 0 end.

(** The number of cleanup intents handed out. *)
Definition cleanup_value (x : entry) : Z :=
  match x with
  | (_, Err t) => if termination_cleanup t is Some _ then 1 else 0
  | (_, Ok _) => 0
  end.
Fixpoint cleanups (log : list entry) : Z :=
  match log with [] => 0%Z | x :: log => (cleanup_value x + cleanups log)%Z end.

Definition active_value (s : RunController) : Z :=
  if active_tool_call s is Some _ then 1 else 0.

Lemma tally_app f l1 l2 : tally f (l1 ++ l2) = (tally f l1 + tally f l2)%Z.
Proof. induction l1 as [|x l1 IH]; cbn; lia. Qed.
Lemma cleanups_app l1 l2 : cleanups (l1 ++ l2) = (cleanups l1 + cleanups l2)%Z.
Proof. induction l1 as [|x l1 IH]; cbn; lia. Qed.
#[export] Hint Rewrite tally_app cleanups_app : kit.

(** The invariant tying the controller's counters to the log that produced
    them: every counter is the exact number of successful commands (no
    wrap-around), inside its ceiling; calls opened are finished, cleaned up or
    still open; a terminal controller has no open call. *)
Record Tracked (s : RunController) (log : list entry) : Prop := {
  tk_limits : RunLimits_wf (limits s);
  tk_turns : model_turn_count s = tally turn_value log;
  tk_turns_max : (0 ≤ model_turn_count s ≤ max_model_turns (limits s))%Z;
  tk_calls : total_tool_call_count s = tally begin_value log;
  tk_calls_max : (0 ≤ total_tool_call_count s ≤ max_tool_calls (limits s))%Z;
  tk_pair : ∀ id version,
    tool_call_count s id version = tally (begin_of_value id version) log;
  tk_pair_max : ∀ id version,
    (0 ≤ tool_call_count s id version ≤ max_calls_per_tool (limits s))%Z;
  tk_bytes : accepted_tool_output_bytes s = tally output_value log;
  tk_bytes_max :
    (0 ≤ accepted_tool_output_bytes s ≤ max_tool_output_bytes (limits s))%Z;
  tk_conserve :
    tally begin_value log =
      (tally finish_value log + cleanups log + active_value s)%Z;
  tk_once :
    (cleanups log ≤ if terminal_cause s is Some _ then 1 else 0)%Z;
  tk_terminal : is_Some (terminal_cause s) → active_tool_call s = None;
  tk_clock : (0 ≤ idle_started_at s ≤ last_elapsed s)%Z;
  tk_started : ∀ a, active_tool_call s = Some a →
    (0 ≤ started_at a ≤ idle_started_at s)%Z
}.

Lemma Tracked_new ctx :
  RunLimits_wf (ctx_limits ctx) → Tracked (RunController_new ctx) [].
Proof.
  intros Hl. pose proof Hl as (H1 & H2 & H3 & H4 & H5 & H6 & H7).
  unfold nonzero_u64 in *.
  split; cbn; try done; try lia.
  intros id version. unfold tool_call_count. cbn. rewrite lookup_empty. cbn. lia.
Qed.

Lemma tool_call_count_bump s s' id version id' version' :
  tool_call_counts s' = bump id version (tool_call_counts s) →
  tool_call_count s' id' version' =
    if decide (id = id' ∧ version = version')
    then u64_add (tool_call_count s id version) 1
    else tool_call_count s id' version'.
Proof.
  intros Hs'. unfold tool_call_count at 1. rewrite Hs'. unfold bump, tool_call_count.
  case_decide as Hd.
  - destruct Hd as [<- <-]. rewrite lookup_insert_eq. cbn. rewrite lookup_insert_eq.
    cbn. by destruct (tool_call_counts s !! id).
  - destruct (decide (id = id')) as [<-|?].
    + rewrite lookup_insert_eq. cbn. rewrite lookup_insert_ne by naive_solver.
      by destruct (tool_call_counts s !! id).
    + by rewrite lookup_insert_ne.
Qed.

Section tracked.
Implicit Types (s : RunController) (c : command) (log : list entry).

Lemma Tracked_latched s log c cause :
  Tracked s log → command_wf c → terminal_cause s = None →
  Tracked (latched c cause s)
    (log ++ [(c, Err (termination s cause (active_cleanup <$> active_tool_call s)))]).
Proof.
  intros [] [Hd _] Hrun. unfold latched. rewrite Hrun in *.
  assert (Hcl : active_value s
    = cleanup_value (c, Err (termination s cause (active_cleanup <$> active_tool_call s)))).
  { unfold active_value. cbn. by destruct (active_tool_call s). }
  assert (active_value s ≤ 1)%Z by (unfold active_value; case_match; lia).
  unfold duration in Hd.
  case_decide; split; cbn -[cleanup_value]; intros;
    rewrite ?tally_app, ?cleanups_app; cbn -[cleanup_value];
    rewrite ?Z.add_0_r, <- ?Hcl; auto; try lia; try done.
  all: try (apply tk_pair0 || apply tk_pair_max0).
  all: unfold active_value in *; cbn; lia.
Qed.

Lemma Tracked_effect s log c :
  Tracked s log → command_wf c → terminal_cause s = None → blame c s = None →
  Tracked (effect c (set_last_elapsed (command_elapsed c) s)) (log ++ [(c, Ok tt)]).
Proof.
  intros [] [Hd Hb] Hrun Hblame. unfold blame in Hblame. rewrite Hrun in *.
  case_decide; [done|]. destruct (reached_timeout _ _); [done|].
  unfold duration in Hd. pose proof tk_limits0 as (?&?&?&?&?&?&?).
  unfold nonzero_u64, active_value in *.
  destruct c; cbn -[u64_sub] in Hblame, Hd, Hb |- *; unfold is_active in Hblame;
    destruct (active_tool_call s) as [a|] eqn:Ha; cbn -[u64_sub] in Hblame;
    simplify_eq; repeat case_decide; simplify_eq;
    rewrite ?(u64_sub_small (max_tool_output_bytes (limits s))) in * by (unfold_u64; lia);
    rewrite ?(u64_add_small (model_turn_count s)), ?(u64_add_small (total_tool_call_count s)),
      ?(u64_add_small (accepted_tool_output_bytes s)) by (unfold_u64; lia).
  all: split; cbn -[bump]; intros; rewrite ?tally_app, ?cleanups_app;
     cbn -[bump]; unfold active_value; cbn -[bump]; rewrite ?Ha, ?Hrun, ?Z.add_0_r;
     try done; try lia.
  all: try exact (tk_pair0 _ _); try exact (tk_pair_max0 _ _).
  all: try (exfalso; rewrite Hrun in *; by eapply is_Some_None).
  all: try (simplify_eq/=; first [lia | by pose proof (tk_started0 _ eq_refl); lia]).
  all: try (unfold u64 in *; lia).
  all: rewrite (tool_call_count_bump s _ id version) by done;
    pose proof (tk_pair0 id version); pose proof (tk_pair_max0 id version);
    pose proof (tk_pair0 id0 version0); pose proof (tk_pair_max0 id0 version0).
  all: case_decide as Heq; [destruct Heq as [<- <-]|];
    rewrite ?u64_add_small by (unfold_u64; lia); lia.
Qed.

Lemma Tracked_exec s log c s' r :
  Tracked s log → command_wf c → exec c s = (s', r) → Tracked s' (log ++ [(c, r)]).
Proof.
  intros HT Hwf Hexec. destruct (terminal_cause s) as [cause|] eqn:Hrun.
  - rewrite (exec_terminal _ _ _ Hrun) in Hexec. simplify_eq.
    destruct HT; split; intros; kit_simpl; cbn; rewrite ?Z.add_0_r; auto.
  - rewrite (exec_running _ _ Hrun) in Hexec.
    destruct (blame c s) eqn:Hblame; simplify_eq;
      [by apply Tracked_latched|by apply Tracked_effect].
Qed.

Lemma Tracked_exec_all cs s log s' log' :
  Tracked s log → Forall command_wf cs → exec_all cs s = (s', log') →
  Tracked s' (log ++ log').
Proof.
  intros HT Hcs. revert s log log' HT. induction Hcs as [|c cs Hc _ IH];
    intros s log log' HT; cbn; intros Hexec; simplify_eq; [by rewrite app_nil_r|].
  destruct (exec c s) as [s1 r] eqn:H1, (exec_all cs s1) as [s2 rs] eqn:H2.
  simplify_eq. rewrite (cons_middle (c, r)), app_assoc.
  eapply IH; [by eapply Tracked_exec|done].
Qed.

Lemma Tracked_reachable ctx cs s log :
  RunLimits_wf (ctx_limits ctx) → Forall command_wf cs →
  exec_all cs (RunController_new ctx) = (s, log) → Tracked s log.
Proof. intros. by eapply (Tracked_exec_all _ _ []); [apply Tracked_new|..]. Qed.
End tracked.

(** ** Deadlines *)

(** The deadlines in force, in the order the code considers them; a deadline
    past [Duration::MAX] is not in force. *)
Definition deadlines (s : RunController) : list (Z * RunTimeoutKind) :=
  (duration_millis (max_wall_time_ms (limits s)), WallTime) ::
  match duration_checked_add (idle_started_at s)
          (duration_millis (max_idle_time_ms (limits s))) with
  | Some deadline => [(deadline, IdleTime)]
  | None => []
  end ++
  match active_tool_call s with
  | Some active =>
      match duration_checked_add (started_at active)
              (duration_millis (max_tool_time_ms (limits s))) with
      | Some deadline => [(deadline, ToolTime)]
      | None => []
      end
  | None => []
  end.

(** [k] is the earliest reached deadline of [ds], the first among equals. *)
Definition earliest_reached (ds : list (Z * RunTimeoutKind)) (elapsed : Z)
    (k : RunTimeoutKind) : Prop :=
  ∃ before d after, ds = before ++ (d, k) :: after ∧ (d ≤ elapsed)%Z ∧
    (∀ d' k', (d', k') ∈ before → (d' ≤ elapsed)%Z → (d < d')%Z) ∧
    (∀ d' k', (d', k') ∈ after → (d' ≤ elapsed)%Z → (d ≤ d')%Z).

Definition consider_all (elapsed : Z) (ds : list (Z * RunTimeoutKind)) :
    option (Z * RunTimeoutKind) :=
  foldl (λ winner '(d, k), consider elapsed winner d k) None ds.

Lemma reached_timeout_consider_all s elapsed :
  reached_timeout s elapsed = snd <$> consider_all elapsed (deadlines s).
Proof. unfold reached_timeout, deadlines, consider_all. by repeat case_match. Qed.

Lemma consider_all_snoc elapsed ds x :
  consider_all elapsed (ds ++ [x]) =
    consider elapsed (consider_all elapsed ds) (fst x) (snd x).
Proof. unfold consider_all. rewrite foldl_app. by destruct x. Qed.

Lemma consider_all_None elapsed ds :
  consider_all elapsed ds = None ↔ ∀ d k, (d, k) ∈ ds → (elapsed < d)%Z.
Proof.
  induction ds as [|[d k] ds IH] using rev_ind; [set_solver|].
  rewrite consider_all_snoc. unfold consider. cbn.
  destruct (Z.leb_spec d elapsed); cbn.
  - destruct (consider_all _ ds) as [[]|] eqn:E.
    + destruct IH as [_ IH]. case_match; split; try done; intros Hall.
      all: enough (elapsed < d)%Z by lia; apply (Hall d k); set_solver.
    + split; [done|]. intros Hall. enough (elapsed < d)%Z by lia.
      apply (Hall d k). set_solver.
  - rewrite IH. split.
    + intros Hall d' k' [?|Hin]%elem_of_app; [by eapply Hall|].
      apply list_elem_of_singleton in Hin. simplify_eq. lia.
    + intros Hall d' k' Hin. apply (Hall d' k'). set_solver.
Qed.

Lemma consider_all_Some elapsed ds d k :
  consider_all elapsed ds = Some (d, k) →
  ∃ before after, ds = before ++ (d, k) :: after ∧ (d ≤ elapsed)%Z ∧
    (∀ d' k', (d', k') ∈ before → (d' ≤ elapsed)%Z → (d < d')%Z) ∧
    (∀ d' k', (d', k') ∈ after → (d' ≤ elapsed)%Z → (d ≤ d')%Z).
Proof.
  revert d k. induction ds as [|[d0 k0] ds IH] using rev_ind; intros d k; [done|].
  rewrite consider_all_snoc. unfold consider. cbn.
  destruct (consider_all elapsed ds) as [[d1 k1]|] eqn:E.
  - destruct (IH d1 k1 eq_refl) as (before & after & -> & Hd1 & Hb & Ha).
    destruct (Z.leb_spec d0 elapsed), (Z.ltb_spec d0 d1); cbn; intros [= <- <-].
    2-4: exists before, (after ++ [(d0, k0)]); rewrite <- app_assoc; split_and!;
      try done; intros d' k' [?|Hin%list_elem_of_singleton]%elem_of_app ?;
      simplify_eq; first [by eauto|lia].
    exists (before ++ (d1, k1) :: after), []. split_and!; try done; [|set_solver].
    intros d' k' [?|[?|?]%elem_of_cons]%elem_of_app ?; simplify_eq; [|lia|].
    + enough (d1 < d')%Z by lia. by eapply Hb.
    + enough (d1 ≤ d')%Z by lia. by eapply Ha.
  - destruct (Z.leb_spec d0 elapsed); cbn; [|done]. intros [= <- <-].
    exists ds, []. split_and!; try done; [|set_solver].
    intros d' k' Hin ?. pose proof (proj1 (consider_all_None _ _) E _ _ Hin). lia.
Qed.

(** ** Phases: the abstract contract of a controller

    Seen from the host a controller is idle, inside one tool call, or terminal
    with an immutable cause. *)

Inductive phase :=
| Idle
| InTool (call : ToolCallCleanup)
| Terminal (cause : RunTerminalCause).

Definition phase_of (s : RunController) : phase :=
  match terminal_cause s with
  | Some cause => Terminal cause
  | None => match active_tool_call s with
            | Some a => InTool (active_cleanup a)
            | None => Idle
            end
  end.

Definition open_call (p : phase) : option ToolCallCleanup :=
  match p with InTool call => Some call | _ => None end.

Inductive phase_step (ctx : RunContext) :
    phase → command → result RunTermination unit → phase → Prop :=
| step_poll p e : open_call p ≠ None ∨ p = Idle →
    phase_step ctx p (Poll e) (Ok tt) p
| step_progress p e : open_call p ≠ None ∨ p = Idle →
    phase_step ctx p (MarkProgress e) (Ok tt) p
| step_preflight e : phase_step ctx Idle (PreflightFinish e) (Ok tt) Idle
| step_turn e : phase_step ctx Idle (AdmitModelTurn e) (Ok tt) Idle
| step_begin e id version :
    phase_step ctx Idle (BeginToolCall e id version) (Ok tt)
      (InTool (mk_ToolCallCleanup id version))
| step_output call e bytes :
    phase_step ctx (InTool call) (AcceptToolOutput e bytes) (Ok tt) (InTool call)
| step_finish call e : phase_step ctx (InTool call) (FinishToolCall e) (Ok tt) Idle
| step_fail p c cause : open_call p ≠ None ∨ p = Idle →
    phase_step ctx p c (Err (mk_RunTermination cause (open_call p) ctx)) (Terminal cause)
| step_latched c cause :
    phase_step ctx (Terminal cause) c
      (Err (mk_RunTermination cause None ctx)) (Terminal cause).

Inductive phase_run (ctx : RunContext) : phase → list entry → phase → Prop :=
| run_nil p : phase_run ctx p [] p
| run_cons p q p' c r log :
    phase_step ctx p c r q → phase_run ctx q log p' → phase_run ctx p ((c, r) :: log) p'.

Definition context_of (s : RunController) : RunContext :=
  mk_RunContext (run_id s) (limits s).

Section phases.
Implicit Types (s : RunController) (c : command).

Lemma exec_context c s s' r : exec c s = (s', r) → context_of s' = context_of s.
Proof.
  destruct (terminal_cause s) as [cause|] eqn:Hrun;
    [rewrite (exec_terminal _ _ _ Hrun)|rewrite (exec_running _ _ Hrun)];
    [by intros [= <- _]|].
  destruct (blame c s); intros [= <- _]; unfold latched; [by case_decide|].
  destruct c; cbn; try done. by case_decide.
Qed.

Lemma exec_all_context cs s s' log :
  exec_all cs s = (s', log) → context_of s' = context_of s.
Proof.
  revert s s' log. induction cs as [|c cs IH]; cbn; intros s s' log Hexec;
    simplify_eq; [done|].
  destruct (exec c s) as [s1 r] eqn:H1, (exec_all cs s1) as [s2 rs] eqn:H2.
  simplify_eq. etrans; [by eapply IH|by eapply exec_context].
Qed.

Lemma phase_live s :
  terminal_cause s = None → open_call (phase_of s) ≠ None ∨ phase_of s = Idle.
Proof. unfold phase_of. intros ->. by destruct (active_tool_call s); [left|right]. Qed.

Lemma exec_phase c s s' r :
  exec c s = (s', r) → phase_step (context_of s) (phase_of s) c r (phase_of s').
Proof.
  destruct (terminal_cause s) as [cause|] eqn:Hrun.
  - rewrite (exec_terminal _ _ _ Hrun). intros [= <- <-].
    unfold phase_of. rewrite Hrun. apply step_latched.
  - rewrite (exec_running _ _ Hrun).
    destruct (blame c s) as [cause|] eqn:Hblame; intros [= <- <-].
    + replace (phase_of (latched c cause s)) with (Terminal cause)
        by (unfold latched; by case_decide).
      replace (active_cleanup <$> active_tool_call s) with (open_call (phase_of s))
        by (unfold phase_of; rewrite Hrun; by destruct (active_tool_call s)).
      by apply step_fail, phase_live.
    + unfold blame in Hblame. case_decide; [done|].
      destruct (reached_timeout _ _); [done|].
      pose proof (phase_live _ Hrun) as Hlive.
      destruct c; cbn in Hblame |- *; unfold is_active in Hblame;
        unfold phase_of in *; cbn; rewrite ?Hrun in *;
        destruct (active_tool_call s) as [a|] eqn:Ha; cbn in *; simplify_eq;
        repeat case_decide; simplify_eq; cbn; rewrite ?Hrun, ?Ha;
        by constructor.
Qed.
End phases.

(** ** Properties *)

(** C2. Enforcement of the run ceilings. However a host drives a fresh
    controller, the number of admitted model turns, of begun tool calls in
    total and for each exact tool, and of accepted output bytes stay within
    the run's limits, and the controller's counters report exactly these
    numbers: no [u64] counter ever wraps. *)
Theorem controller_limits_enforced ctx cs s log :
  RunLimits_wf (ctx_limits ctx) → Forall command_wf cs →
  exec_all cs (RunController_new ctx) = (s, log) →
  (model_turn_count s = tally turn_value log ∧
   tally turn_value log ≤ max_model_turns (ctx_limits ctx))%Z ∧
  (total_tool_call_count s = tally begin_value log ∧
   tally begin_value log ≤ max_tool_calls (ctx_limits ctx))%Z ∧
  (∀ id version,
    tool_call_count s id version = tally (begin_of_value id version) log ∧
    tally (begin_of_value id version) log ≤ max_calls_per_tool (ctx_limits ctx))%Z ∧
  (accepted_tool_output_bytes s = tally output_value log ∧
   tally output_value log ≤ max_tool_output_bytes (ctx_limits ctx))%Z.
Proof.
  intros Hl Hcs Hexec.
  pose proof (Tracked_reachable _ _ _ _ Hl Hcs Hexec) as [].
  apply exec_all_context in Hexec. injection Hexec as _ Heq. cbn in Heq.
  rewrite Heq in *. split_and!; try lia.
  intros id version. specialize (tk_pair0 id version).
  specialize (tk_pair_max0 id version). lia.
Qed.

(** One-shot cleanup and conservation of tool calls. In every run each
    begun tool call is finished, handed back for cleanup, or still open, and
    at most one cleanup intent is ever handed out; once the run is terminal no
    call stays open. *)
Theorem controller_cleanup_conserved ctx cs s log :
  RunLimits_wf (ctx_limits ctx) → Forall command_wf cs →
  exec_all cs (RunController_new ctx) = (s, log) →
  tally begin_value log =
    (tally finish_value log + cleanups log + active_value s)%Z ∧
  (cleanups log ≤ 1)%Z ∧
  (is_Some (terminal_cause s) → active_value s = 0%Z).
Proof.
  intros Hl Hcs Hexec. destruct (Tracked_reachable _ _ _ _ Hl Hcs Hexec).
  split_and!; [done|by case_match; lia|].
  intros Ht. unfold active_value. by rewrite tk_terminal0.
Qed.

(** Terminal causes are immutable. Once a method has failed, whatever the
    host calls next leaves the controller unchanged and fails with the same
    cause and no second cleanup intent. *)
Theorem controller_terminal_latched c s s1 t cs s2 log :
  exec c s = (s1, Err t) → exec_all cs s1 = (s2, log) →
  s2 = s1 ∧ terminal_cause s1 = Some (termination_cause t) ∧
  log = (λ c, (c, Err (mk_RunTermination (termination_cause t) None (context_of s1))))
          <$> cs.
Proof.
  intros Hc Hcs.
  assert (terminal_cause s1 = Some (termination_cause t)) as Hterm.
  { destruct (terminal_cause s) as [cause|] eqn:Hrun;
      [rewrite (exec_terminal _ _ _ Hrun) in Hc|rewrite (exec_running _ _ Hrun) in Hc];
      [by simplify_eq|].
    destruct (blame c s); simplify_eq. unfold latched. by case_decide. }
  revert s2 log Hcs. induction cs as [|c' cs IH]; cbn; intros; simplify_eq; [done|].
  rewrite (exec_terminal _ _ _ Hterm) in Hcs.
  destruct (exec_all cs s1) as [s3 rs] eqn:H3. simplify_eq.
  destruct (IH _ _ eq_refl) as (-> & _ & ->). done.
Qed.

(** Timeout attribution. [reached_timeout] reports a timeout exactly when
    some deadline in force (wall, idle, open tool) has been reached, and it
    reports the kind of the earliest one, the first in the order wall, idle,
    tool when several coincide. *)
Theorem controller_timeout_earliest s elapsed :
  match reached_timeout s elapsed with
  | Some k => earliest_reached (deadlines s) elapsed k
  | None => ∀ d k, (d, k) ∈ deadlines s → (elapsed < d)%Z
  end.
Proof.
  rewrite reached_timeout_consider_all.
  destruct (consider_all elapsed (deadlines s)) as [[d k]|] eqn:E; cbn.
  - apply consider_all_Some in E as (before & after & HE).
    by exists before, d, after.
  - by apply consider_all_None.
Qed.

(** A command succeeds only inside every deadline: time has not
    regressed, and no wall, idle or tool deadline in force has been reached. *)
Theorem controller_success_in_time c s s' :
  exec c s = (s', Ok tt) →
  (last_elapsed s ≤ command_elapsed c)%Z ∧ last_elapsed s' = command_elapsed c ∧
  ∀ d k, (d, k) ∈ deadlines s → (command_elapsed c < d)%Z.
Proof.
  destruct (terminal_cause s) eqn:Hrun; [by rewrite (exec_terminal _ _ _ Hrun)|].
  rewrite (exec_running _ _ Hrun). destruct (blame c s) eqn:Hb; intros [= <-].
  unfold blame in Hb. case_decide; [done|].
  destruct (reached_timeout s (command_elapsed c)) eqn:Ht; [done|].
  rewrite reached_timeout_consider_all, fmap_None, consider_all_None in Ht.
  split_and!; [lia| |done]. destruct c; cbn; try done. by case_decide.
Qed.

(** C35. Refinement. Every run of the concrete controller is a run of the
    phase machine: turns are admitted only while idle, output and completion
    only inside a tool call, a failing command moves to the terminal phase
    handing back exactly the open call, and the terminal phase is absorbing. *)
Theorem controller_refines_phases cs s s' log :
  exec_all cs s = (s', log) →
  phase_run (context_of s) (phase_of s) log (phase_of s').
Proof.
  revert s s' log. induction cs as [|c cs IH]; cbn; intros s s' log Hexec;
    simplify_eq; [constructor|].
  destruct (exec c s) as [s1 r] eqn:H1, (exec_all cs s1) as [s2 rs] eqn:H2.
  simplify_eq. econstructor; [by apply exec_phase|].
  rewrite <- (exec_context _ _ _ _ H1). by apply IH.
Qed.

(** ** Witnesses *)

Definition demo_limits : RunLimits := mk_RunLimits 2 2 1 1000 500 100 10.
Definition demo_context : RunContext := mk_RunContext (mk_RunId "run") demo_limits.
Definition demo_commands : list command :=
  [AdmitModelTurn 1; BeginToolCall 2 "search" "1"; AcceptToolOutput 3 4;
   AcceptToolOutput 4 7; Poll 5].

Lemma demo_limits_wf : RunLimits_wf demo_limits.
Proof. unfold RunLimits_wf, nonzero_u64, u64_max, u64_modulus; cbn; lia. Qed.
Lemma demo_commands_wf : Forall command_wf demo_commands.
Proof.
  repeat constructor; unfold duration_max, u64_modulus; cbn; lia.
Qed.

Lemma controller_limits_enforced_witness :
  ∃ s log, exec_all demo_commands (RunController_new demo_context) = (s, log) ∧
    (tally turn_value log = 1 ∧ tally output_value log = 4 ∧
     model_turn_count s = 1)%Z.
Proof.
  eexists _, _. split; [vm_compute; reflexivity|].
  pose proof (controller_limits_enforced demo_context demo_commands _ _
    demo_limits_wf demo_commands_wf ltac:(vm_compute; reflexivity)) as H.
  split; [reflexivity|]. split; [reflexivity|]. apply (proj1 (proj1 H)).
Defined.

Lemma controller_cleanup_conserved_witness :
  ∃ s log, exec_all demo_commands (RunController_new demo_context) = (s, log) ∧
    cleanups log = 1%Z ∧ (cleanups log ≤ 1)%Z.
Proof.
  eexists _, _. split; [vm_compute; reflexivity|].
  pose proof (controller_cleanup_conserved demo_context demo_commands _ _
    demo_limits_wf demo_commands_wf ltac:(vm_compute; reflexivity)) as H.
  split; [reflexivity|]. apply (proj1 (proj2 H)).
Defined.

Lemma controller_terminal_latched_witness :
  ∃ s1 t s2 log,
    exec (FinishToolCall 1) (RunController_new demo_context) = (s1, Err t) ∧
    exec_all [Poll 2; AdmitModelTurn 3] s1 = (s2, log) ∧ s2 = s1.
Proof.
  eexists _, _, _, _. split; [vm_compute; reflexivity|].
  split; [vm_compute; reflexivity|].
  exact (proj1 (controller_terminal_latched (FinishToolCall 1)
    (RunController_new demo_context) _ _ [Poll 2; AdmitModelTurn 3] _ _
    ltac:(vm_compute; reflexivity) ltac:(vm_compute; reflexivity))).
Defined.

Lemma controller_success_in_time_witness :
  ∃ s', exec (AdmitModelTurn 1) (RunController_new demo_context) = (s', Ok tt) ∧
    last_elapsed s' = 1%Z.
Proof.
  eexists. split; [vm_compute; reflexivity|].
  exact (proj1 (proj2 (controller_success_in_time (AdmitModelTurn 1)
    (RunController_new demo_context) _ ltac:(vm_compute; reflexivity)))).
Defined.

Lemma controller_refines_phases_witness :
  ∃ s log, exec_all demo_commands (RunController_new demo_context) = (s, log) ∧
    phase_run demo_context Idle log (Terminal (LimitExceeded ToolOutputBytes)).
Proof.
  eexists _, _. split; [vm_compute; reflexivity|].
  exact (controller_refines_phases demo_commands (RunController_new demo_context) _ _
    ltac:(vm_compute; reflexivity)).
Defined.
