(* ===== verification/Tool.v ===== *)
(** * Tool descriptions and results

    [workflow-runtime/src/tool.rs] and the call types of
    [workflow-runtime/src/bridge.rs]: what a registered tool declares and what
    a call returns.  Schemas are JSON values; generating and validating them
    is [schemars]' and [jsonschema]'s. *)

From S2P Require Import Prelude.
From S2P Require Import Hashing.
From S2P Require Import Json.
From S2P Require Import Policy.

(*| runtime/tool.rs 197-200 ToolProvenance *)
Record ToolProvenance := mk_ToolProvenance { tool_id : string; tool_version : string }.
#[export] Instance ToolProvenance_eq_dec : EqDecision ToolProvenance.
Proof. solve_decision. Defined.

(*| runtime/tool.rs 170-179 ToolFailure *)
Inductive ToolFailure := InvalidInputFailure | NotFound | Unavailable | Internal.

(*| runtime/tool.rs 50-76 ToolEnvelope *)
Inductive ToolEnvelope (T : Type) :=
| Success (payload : T) (provenance : ToolProvenance)
    (next_offset : option Z) (artifact_id : option string)
| Empty (provenance : ToolProvenance)
| Failure (failure : ToolFailure) (provenance : ToolProvenance).
Arguments Success {T} payload provenance next_offset artifact_id.
Arguments Empty {T} provenance.
Arguments Failure {T} failure provenance.

(*| runtime/tool.rs 103-125 ToolEnvelope::map_payload *)
Definition map_payload {T U : Type} (f : T → U) (e : ToolEnvelope T) : ToolEnvelope U :=
  match e with
  | Success payload p off art => Success (f payload) p off art
  | Empty p => Empty p
  | Failure failure p => Failure failure p
  end.

(*| runtime/tool.rs 128-139 ToolEnvelope::with_artifact *)
Definition with_artifact {T : Type} (id : string) (offset : option Z)
    (e : ToolEnvelope T) : ToolEnvelope T :=
  match e with
  | Success payload p _ _ => Success payload p offset (Some id)
  | e => e
  end.

(*| runtime/tool.rs 142-147 ToolEnvelope::next_offset *)
Definition envelope_next_offset {T : Type} (e : ToolEnvelope T) : option Z :=
  match e with Success _ _ off _ => off | _ => None end.

(*| runtime/tool.rs 150-155 ToolEnvelope::artifact_id *)
Definition envelope_artifact_id {T : Type} (e : ToolEnvelope T) : option string :=
  match e with Success _ _ _ art => art | _ => None end.

(*| runtime/tool.rs 158-164 ToolEnvelope::provenance *)
Definition envelope_provenance {T : Type} (e : ToolEnvelope T) : ToolProvenance :=
  match e with Success _ p _ _ | Empty p | Failure _ p => p end.

(*| runtime/tool.rs 716-720 ToolFlags *)
Record ToolFlags := mk_ToolFlags {
  read_only : bool;
  concurrency_safe : bool;
  idempotent : bool
}.

(*| runtime/tool.rs 685-691 ToolIdempotency *)
Inductive ToolIdempotency := NotRequired | StableKey.
#[export] Instance ToolIdempotency_eq_dec : EqDecision ToolIdempotency.
Proof. solve_decision. Defined.

(*| runtime/tool.rs 478-493 ToolRegistration *)
Record ToolRegistration `{JsonText} := mk_ToolRegistration {
  name : string;
  provenance : ToolProvenance;
  input_schema : Value;
  handler_output_schema : Value;
  output_schema : Value;
  flags : ToolFlags;
  required_capabilities : list SandboxCapability;
  required_scopes : list string;
  timeout_ms : Z;
  inline_output_limit_bytes : Z;
  paging : bool;
  idempotency : ToolIdempotency;
  implementation_digest : string
}.

(*| runtime/bridge.rs 441-464 ToolBridgeErrorKind *)
Inductive ToolBridgeErrorKind :=
| UnknownTool | DuplicateTool | BridgeCapabilityDenied | SandboxDenied
| ApprovalDenied | InvalidInput | ProvenanceMismatch | HandlerFailed
| OutputTooLarge | ArtifactFailed | IdempotencyRequired.
#[export] Instance ToolBridgeErrorKind_eq_dec : EqDecision ToolBridgeErrorKind.
Proof. solve_decision. Defined.

(*| runtime/bridge.rs 23-28 ToolCall *)
Record ToolCall `{JsonText} := mk_ToolCall {
  call_name : string;
  call_id : string;
  call_actor : string;
  call_arguments : Value
}.

Arguments mk_ToolRegistration {_} name provenance input_schema handler_output_schema
  output_schema flags required_capabilities required_scopes timeout_ms
  inline_output_limit_bytes paging idempotency implementation_digest.
Arguments mk_ToolCall {_} call_name call_id call_actor call_arguments.

(** The outcome of foreign code called in the same thread: it returns, or it
    panics and unwinds. *)
Inductive called (A : Type) := Returned (a : A) | Panicked.
Arguments Returned {A} a.
Arguments Panicked {A}.

(** What a bridge promises its clients: the registered names with their
    read-only flags, and a dispatch that may panic. *)
Class Bridge `{JsonText} (B : Type) := {
  tool_names : B → list string;
  registered_read_only : B → string → bool;
  dispatch : B → ToolCall →
    B * called (result ToolBridgeErrorKind (ToolEnvelope Value))
}.
