(* ===== verification/Session.v ===== *)
(** * Session identities

    [workflow-runtime/src/session.rs]: two independent identities for one
    run, from 32 random bytes.  The entropy source is the operating system's:
    the outcome of [read_exact] on a 32-byte buffer is an argument. *)

From S2P Require Import Prelude.
From S2P Require Import Hashing.

(*| runtime/session.rs 7-7 SessionId *)
Record SessionId := mk_SessionId { session_str : string }.
#[export] Instance SessionId_eq_dec : EqDecision SessionId.
Proof. solve_decision. Defined.

(*| runtime/session.rs 18-23 SessionRole *)
Inductive SessionRole := Producer | Reviewer.

(*| runtime/session.rs 27-30 RunSessionIds *)
Record RunSessionIds := mk_RunSessionIds {
  producer_id : SessionId;
  reviewer_id : SessionId
}.

(*| runtime/session.rs 69-74 SessionIdentityErrorKind *)
Inductive SessionIdentityErrorKind := Entropy | DuplicateIdentity.

(*| runtime/session.rs 41-46 RunSessionIds::id *)
Definition session_id (ids : RunSessionIds) (role : SessionRole) : SessionId :=
  match role with Producer => producer_id ids | Reviewer => reviewer_id ids end.

(** [bytes.split_at(16)]. *)
Definition split_at (n : nat) (s : string) : string * string :=
  (String.substring 0 n s, String.substring n (String.length s - n) s).

(** [entropy] is what [read_exact] put in the buffer, or its failure (opening
    the device and reading it fail alike). *)
(*| runtime/session.rs 48-64 RunSessionIds::allocate_with *)
Definition allocate_with (entropy : option string) :
    result SessionIdentityErrorKind RunSessionIds :=
  match entropy with
  | None => Err Entropy
  | Some bytes =>
      let '(producer, reviewer) := split_at 16 bytes in
      if str_eqb producer reviewer then Err DuplicateIdentity
      else Ok (mk_RunSessionIds (mk_SessionId (encode_hex producer))
                 (mk_SessionId (encode_hex reviewer)))
  end.

Lemma substring_length n m s :
  n + m ≤ String.length s → String.length (String.substring n m s) = m.
Proof.
  revert n m. induction s as [|c s IH]; intros [|n] [|m] H; cbn in *; try lia.
  - rewrite IH; lia.
  - apply (IH n 0). lia.
  - apply (IH n (S m)). lia.
Qed.

(** When identities are allocated from 32 bytes, the producer and the
    reviewer never share one: both are 32 lowercase hexadecimal characters and
    they differ; allocation fails exactly when no entropy is available or
    when the two halves of the buffer are equal. *)
Theorem session_ids_independent (entropy : option string)
    (Hlen : ∀ bytes, entropy = Some bytes → String.length bytes = 32) :
  match allocate_with entropy with
  | Ok ids =>
      session_id ids Producer ≠ session_id ids Reviewer ∧
      ∀ role, String.length (session_str (session_id ids role)) = 32 ∧
        str_all is_lower_hex (session_str (session_id ids role)) = true
  | Err Entropy => entropy = None
  | Err DuplicateIdentity => ∃ bytes, entropy = Some bytes ∧
      String.substring 0 16 bytes = String.substring 16 16 bytes
  end.
Proof.
  destruct entropy as [bytes|]; [|done]. specialize (Hlen bytes eq_refl).
  unfold allocate_with, split_at. rewrite Hlen. change (32 - 16) with 16.
  unfold str_eqb. case_bool_decide as E; [by exists bytes|]. cbn. split.
  - intros [= H%(inj encode_hex)]. done.
  - intros []; cbn; rewrite encode_hex_length, substring_length by lia;
      (split; [done|apply encode_hex_lower]).
Qed.

Lemma session_ids_independent_witness :
  ∃ ids, allocate_with (Some "0123456789abcdef0123456789abcdeg") = Ok ids ∧
    session_id ids Producer ≠ session_id ids Reviewer.
Proof.
  eexists. split; [by vm_compute|].
  apply (session_ids_independent (Some "0123456789abcdef0123456789abcdeg")).
  intros bytes [= <-]. done.
Defined.
