(* ===== verification/Review.v ===== *)
(** * Review verdicts, defects and the disagreement policy

    [workflow-review/src/lib.rs]: the typed result of a review, its
    validation, its content identity, and the policy that combines several
    reviewers' votes.  Decoding and encoding of the JSON wire form are
    [serde]'s: parameters of the section.  A confidence is its IEEE-754 bit
    pattern. *)

From S2P Require Import Prelude.
From S2P Require Import Hashing.

(*| review/lib.rs 43-43 REVIEW_SCHEMA_VERSION_V1 *)
Definition REVIEW_SCHEMA_VERSION_V1 : Z := 1.
(*| review/lib.rs 46-46 CANONICAL_REVIEW_WIRE_VERSION_V1 *)
Definition CANONICAL_REVIEW_WIRE_VERSION_V1 : Z := 1.
(*| review/lib.rs 49-49 DOMAIN *)
Definition DOMAIN : string := "adk-workflow-kit/workflow-review" +:+ String "000"%char "".

(*| review/lib.rs 54-61 ReviewVerdict *)
Inductive ReviewVerdict := Pass | Revise | Abstain.
#[export] Instance ReviewVerdict_eq_dec : EqDecision ReviewVerdict.
Proof. solve_decision. Defined.

(*| review/lib.rs 66-75 ReviewSeverity *)
Inductive ReviewSeverity := Info | Warning | Error | Critical.
#[export] Instance ReviewSeverity_eq_dec : EqDecision ReviewSeverity.
Proof. solve_decision. Defined.

(*| review/lib.rs 80-89 ReviewDefect *)
Record ReviewDefect := mk_ReviewDefect {
  code : string;
  severity : ReviewSeverity;
  location : option string;
  evidence_refs : list string;
  message : string;
  suggested_action : option string
}.
#[export] Instance ReviewDefect_eq_dec : EqDecision ReviewDefect.
Proof. solve_decision. Defined.

(*| review/lib.rs 155-161 ReviewResult *)
Record ReviewResult := mk_ReviewResult {
  schema_version : Z;
  verdict : ReviewVerdict;
  summary : string;
  defects : list ReviewDefect;
  confidence : Z
}.
#[export] Instance ReviewResult_eq_dec : EqDecision ReviewResult.
Proof. solve_decision. Defined.

(*| review/lib.rs 314-342 ReviewError *)
Inductive ReviewError (source : Type) :=
| Decode (error : source)
| Serialize (error : source)
| UnsupportedSchemaVersion
| PassWithErrorOrCriticalDefects
| EmptyReviewerSet
| MixedSubjectIdentity.
Arguments Decode {source} error.
Arguments Serialize {source} error.
Arguments UnsupportedSchemaVersion {source}.
Arguments PassWithErrorOrCriticalDefects {source}.
Arguments EmptyReviewerSet {source}.
Arguments MixedSubjectIdentity {source}.

(** [u16::to_be_bytes]. *)
Definition u16_to_be_bytes (x : Z) : string :=
  String (Ascii.ascii_of_N (Z.to_N (x / 256)))
    (String (Ascii.ascii_of_N (Z.to_N (x mod 256))) "").

(** Defects that forbid a pass. *)
Definition blocking (d : ReviewDefect) : bool :=
  match severity d with Error | Critical => true | _ => false end.

Section results.
Context {serde_error : Type}.
Variable from_str : string → result serde_error ReviewResult.
Variable to_string : ReviewResult → result serde_error string.
Context `{Sha256}.

(*| review/lib.rs 344-350 validate_schema_version *)
Definition validate_schema_version (version : Z) : result (ReviewError serde_error) unit :=
  ensure (version =? REVIEW_SCHEMA_VERSION_V1)%Z UnsupportedSchemaVersion.

(*| review/lib.rs 352-367 validate_verdict_defects *)
Definition validate_verdict_defects (verdict : ReviewVerdict) (ds : list ReviewDefect) :
    result (ReviewError serde_error) unit :=
  if bool_decide (verdict = Pass) && existsb blocking ds
  then Err PassWithErrorOrCriticalDefects else Ok tt.

(*| review/lib.rs 166-182 ReviewResult::new *)
Definition ReviewResult_new (version : Z) (verdict : ReviewVerdict) (summary : string)
    (ds : list ReviewDefect) (confidence : Z) :
    result (ReviewError serde_error) ReviewResult :=
  validate_verdict_defects verdict ds;;
  validate_schema_version version;;
  Ok (mk_ReviewResult version verdict summary ds confidence).

(*| review/lib.rs 185-191 ReviewResult::from_json *)
Definition from_json (json : string) : result (ReviewError serde_error) ReviewResult :=
  r ← map_err Decode (from_str json);
  validate_verdict_defects (verdict r) (defects r);;
  validate_schema_version (schema_version r);;
  Ok r.

(*| review/lib.rs 194-196 ReviewResult::to_json *)
Definition to_json (r : ReviewResult) : result (ReviewError serde_error) string :=
  map_err Serialize (to_string r).

(** The bytes fed to the hasher. *)
Definition canonical_bytes (json : string) : string :=
  DOMAIN +:+ u16_to_be_bytes CANONICAL_REVIEW_WIRE_VERSION_V1 +:+ json.

(*| review/lib.rs 199-206 ReviewResult::canonical_hash *)
Definition canonical_hash (r : ReviewResult) : result (ReviewError serde_error) string :=
  json ← to_json r;
  Ok (hex (sha256 (canonical_bytes json))).

(** A value no constructor of the crate can break. *)
Definition ReviewResult_valid (r : ReviewResult) : Prop :=
  schema_version r = 1%Z ∧
  (verdict r = Pass → ∀ d, d ∈ defects r → severity d = Info ∨ severity d = Warning).

Lemma validate_Ok r :
  validate_verdict_defects (verdict r) (defects r) = Ok tt →
  validate_schema_version (schema_version r) = Ok tt → ReviewResult_valid r.
Proof.
  unfold validate_verdict_defects, validate_schema_version, REVIEW_SCHEMA_VERSION_V1.
  rewrite ensure_Ok, Z.eqb_eq. intros Hv Hs. split; [done|].
  intros Hp d Hd. rewrite bool_decide_true in Hv by done.
  destruct (existsb blocking (defects r)) eqn:E; [done|].
  rewrite existsb_false_iff in E. specialize (E d Hd). unfold blocking in E.
  destruct (severity d); naive_solver.
Qed.

End results.

(** ** Several reviewers *)

(*| review/lib.rs 247-252 ReviewDisposition *)
Inductive ReviewDisposition := Accept | Defer.

(*| review/lib.rs 259-262 ReviewVote *)
Record ReviewVote := mk_ReviewVote { subject : string; vote_verdict : ReviewVerdict }.

(*| review/lib.rs 295-307 resolve_disposition *)
Definition resolve_disposition {source : Type} (votes : list ReviewVote) :
    result (ReviewError source) ReviewDisposition :=
  match votes with
  | [] => Err EmptyReviewerSet
  | first :: _ =>
      if existsb (λ vote, negb (str_eqb (subject vote) (subject first))) votes
      then Err MixedSubjectIdentity
      else if forallb (λ vote, bool_decide (vote_verdict vote = Pass)) votes
      then Ok Accept else Ok Defer
  end.

(** The votes are about one subject; every vote passes. *)
Definition one_subject (votes : list ReviewVote) : Prop :=
  ∀ a b, a ∈ votes → b ∈ votes → subject a = subject b.
Definition unanimous (votes : list ReviewVote) : Prop :=
  ∀ v, v ∈ votes → vote_verdict v = Pass.

#[export] Instance one_subject_proper : Proper ((≡ₚ) ==> iff) one_subject.
Proof.
  intros l k Hp. unfold one_subject.
  split; intros H a b Ha Hb; apply H; by (rewrite Hp || rewrite <- Hp).
Qed.
#[export] Instance unanimous_proper : Proper ((≡ₚ) ==> iff) unanimous.
Proof.
  intros l k Hp. unfold unanimous.
  split; intros H v Hv; apply H; by (rewrite Hp || rewrite <- Hp).
Qed.

Lemma mixed_subjects_iff v vs :
  existsb (λ vote, negb (str_eqb (subject vote) (subject v))) (v :: vs) = false ↔
  one_subject (v :: vs).
Proof.
  rewrite existsb_false_iff. split.
  - intros Hm. assert (∀ a, a ∈ v :: vs → subject a = subject v) as Hs.
    { intros a Ha. specialize (Hm a Ha). by apply negb_false_iff, str_eqb_eq in Hm. }
    intros a b Ha Hb. by rewrite (Hs a Ha), (Hs b Hb).
  - intros Hs a Ha. apply negb_false_iff, str_eqb_eq, Hs; set_solver.
Qed.

Lemma resolve_cases {source : Type} (votes : list ReviewVote) :
  let r := resolve_disposition (source := source) votes in
  votes = [] ∧ one_subject votes ∧ r = Err EmptyReviewerSet ∨
  votes ≠ [] ∧ ¬ one_subject votes ∧ r = Err MixedSubjectIdentity ∨
  votes ≠ [] ∧ one_subject votes ∧ unanimous votes ∧ r = Ok Accept ∨
  votes ≠ [] ∧ one_subject votes ∧ ¬ unanimous votes ∧ r = Ok Defer.
Proof.
  cbn zeta. destruct votes as [|v vs]; [left|right].
  { split; [done|]. split; [|done]. intros a b Ha. by apply elem_of_nil in Ha. }
  unfold resolve_disposition. pose proof (mixed_subjects_iff v vs) as Hm.
  assert (forallb (λ vote, bool_decide (vote_verdict vote = Pass)) (v :: vs) = true ↔
          unanimous (v :: vs)) as Hu.
  { rewrite forallb_true_iff. by setoid_rewrite bool_decide_eq_true. }
  destruct (existsb _ _); [left|right].
  - split; [done|]. split; [|done]. by intros H%Hm.
  - assert (one_subject (v :: vs)) by by apply Hm.
    destruct (forallb _ _); [left|right]; (split; [done|]; split; [done|]; split; [|done]).
    + by apply Hu.
    + by intros H'%Hu.
Qed.

(** A candidate is accepted exactly when there is a vote, all votes are
    about one subject and all of them pass; the errors are an empty set and
    mixed subjects; and the decision does not depend on the order of the
    votes. *)
Theorem disposition_exact {source : Type} (votes : list ReviewVote) :
  let outcome := resolve_disposition (source := source) votes in
  (outcome = Ok Accept ↔ votes ≠ [] ∧ one_subject votes ∧ unanimous votes) ∧
  (outcome = Ok Defer ↔ votes ≠ [] ∧ one_subject votes ∧ ¬ unanimous votes) ∧
  (outcome = Err EmptyReviewerSet ↔ votes = []) ∧
  (outcome = Err MixedSubjectIdentity ↔ ¬ one_subject votes) ∧
  (∀ votes', votes ≡ₚ votes' →
     resolve_disposition (source := source) votes' = outcome).
Proof.
  cbn zeta. split; [|split; [|split; [|split]]].
  1-4: by destruct (resolve_cases (source := source) votes)
    as [(? & ? & ->)|[(? & ? & ->)|[(? & ? & ? & ->)|(? & ? & ? & ->)]]];
    split; intros; try done; destruct_and?; split_and?; try done; exfalso; tauto.
  intros votes' Hp.
  assert (votes' = [] ↔ votes = []) as Hnil.
  { split; intros ->; [by apply Permutation_nil_r in Hp|by apply Permutation_nil in Hp]. }
  destruct (resolve_cases (source := source) votes) as
    [(? & ? & ->)|[(? & ? & ->)|[(? & ? & ? & ->)|(? & ? & ? & ->)]]],
    (resolve_cases (source := source) votes') as
    [(? & Ho & ->)|[(? & Ho & ->)|[(? & Ho & Hu & ->)|(? & Ho & Hu & ->)]]];
    rewrite <- Hp in Ho; try rewrite <- Hp in Hu; done || (exfalso; tauto).
Qed.
