(* ===== verification/ReviewLoop.v ===== *)
(** * The bounded review loop

    [workflow-review/src/review_loop.rs]: producer, deterministic validator,
    isolated reviewer and reviser, under ceilings on revisions, model turns
    and reviewer tool calls.

    The four callbacks are arbitrary code.  Each is a function of its request
    and of the caller's own state [W] to a tree ([prog]) that ends with a
    result or a panic and may, on the way, call [ReviewerAuthority::invoke_tool]
    on any authority it was ever handed (authorities are cloneable handles, so
    a callback may keep one after its call, or use one from another thread: a
    call holds the lease mutex throughout, so it takes place as one step).

    The shared objects behind the [Arc<Mutex<_>>]s are the [Store]: the
    boundary's bridge (poisoned when a dispatch panics with the lock held),
    the run's tool budget, and one lease per authority handed out. *)

From S2P Require Import Prelude.
From S2P Require Import Hashing.
From S2P Require Import Json.
From S2P Require Import Tool.
From S2P Require Import Session.
From S2P Require Import Review.

(** ** Artifacts, evidence, configuration *)

(*| review/review_loop.rs 28-31 CandidateArtifact *)
Record CandidateArtifact := mk_CandidateArtifact {
  bytes : string;
  candidate_sha256 : string
}.

(*| review/review_loop.rs 76-76 CandidateDigestError *)
Inductive CandidateDigestError_t := CandidateDigestError.

(*| review/review_loop.rs 1399-1401 digest *)
Definition digest `{Sha256} (bytes : string) : string := hex (sha256 bytes).

(*| review/review_loop.rs 35-38 CandidateArtifact::new *)
Definition CandidateArtifact_new `{Sha256} (bytes : string) : CandidateArtifact :=
  mk_CandidateArtifact bytes (digest bytes).

(*| review/review_loop.rs 41-51 CandidateArtifact::from_declared_hash *)
Definition from_declared_hash `{Sha256} (bytes declared_hash : string) :
    result CandidateDigestError_t CandidateArtifact :=
  let artifact := CandidateArtifact_new bytes in
  if str_eqb (candidate_sha256 artifact) declared_hash then Ok artifact
  else Err CandidateDigestError.

(*| review/review_loop.rs 88-91 SelectedEvidence *)
Record SelectedEvidence := mk_SelectedEvidence {
  evidence_id : string;
  evidence_content : string
}.

(*| review/review_loop.rs 351-362 ReviewLoopConfig *)
Record ReviewLoopConfig := mk_ReviewLoopConfig {
  max_revisions : Z;
  max_same_defect_rounds : Z;
  stop_on_repeated_output_hash : bool;
  stop_on_two_cycle : bool;
  max_model_turns : Z;
  max_tool_calls : Z;
  rubric : string;
  evidence : list SelectedEvidence;
  config_tools : list string;
  (** [Some tools] when an execution boundary is set, with its eligible tools;
      the boundary's shared bridge is in the [Store]. *)
  execution_boundary : option (list string)
}.

(*| review/review_loop.rs 365-378 ReviewLoopConfig::default *)
Definition ReviewLoopConfig_default : ReviewLoopConfig :=
  mk_ReviewLoopConfig 2 1 true true 18 64
    "review the candidate against the acceptance contract" [] [] None.

(*| review/review_loop.rs 445-448 ValidationReport *)
Record ValidationReport := mk_ValidationReport {
  is_valid : bool;
  report_defects : list ReviewDefect
}.

(*| review/review_loop.rs 452-457 ValidationReport::valid *)
Definition ValidationReport_valid : ValidationReport := mk_ValidationReport true [].
(*| review/review_loop.rs 460-465 ValidationReport::invalid *)
Definition ValidationReport_invalid (ds : list ReviewDefect) : ValidationReport :=
  mk_ValidationReport false ds.

(*| review/review_loop.rs 490-493 ReviewCost *)
Record ReviewCost := mk_ReviewCost { model_turns : Z; tool_calls : Z }.

(*| review/review_loop.rs 514-519 ReviewCost::checked_add *)
Definition cost_checked_add (a b : ReviewCost) : option ReviewCost :=
  turns ← checked_add (model_turns a) (model_turns b);
  calls ← checked_add (tool_calls a) (tool_calls b);
  Some (mk_ReviewCost turns calls).

(*| review/review_loop.rs 521-523 ReviewCost::with_tool_calls *)
Definition with_tool_calls (c : ReviewCost) (n : Z) : ReviewCost :=
  mk_ReviewCost (model_turns c) n.

(*| review/review_loop.rs 528-531 ReviewerResponse *)
Record ReviewerResponse := mk_ReviewerResponse {
  review : ReviewResult;
  review_cost : ReviewCost
}.

(*| review/review_loop.rs 552-555 RevisionResponse *)
Record RevisionResponse := mk_RevisionResponse {
  revised : CandidateArtifact;
  revision_cost : ReviewCost
}.

(*| review/review_loop.rs 649-664 ReviewLoopStage *)
Inductive ReviewLoopStage :=
| StageProducer | StageValidate | StageReviewer | StageReviser
| StageFinalValidate | StagePublish | StageAbstain.
#[export] Instance ReviewLoopStage_eq_dec : EqDecision ReviewLoopStage.
Proof. solve_decision. Defined.

(*| review/review_loop.rs 669-686 ReviewLoopDiagnosticCode *)
Inductive ReviewLoopDiagnosticCode :=
| ReviewerAbstained | ReviewerOutputRejected | FinalValidationFailed
| MaxRevisionsExceeded | RepeatedOutputHash | OscillationDetected
| RepeatedDefectSet | BudgetExhausted.
#[export] Instance ReviewLoopDiagnosticCode_eq_dec : EqDecision ReviewLoopDiagnosticCode.
Proof. solve_decision. Defined.

(*| review/review_loop.rs 705-708 ReviewLoopDiagnostic *)
Record ReviewLoopDiagnostic := mk_ReviewLoopDiagnostic {
  diagnostic_code : ReviewLoopDiagnosticCode;
  diagnostic_stage : ReviewLoopStage
}.

(*| review/review_loop.rs 730-737 ReviewLoopMetrics *)
Record ReviewLoopMetrics := mk_ReviewLoopMetrics {
  producer_attempts : Z;
  validation_attempts : Z;
  reviewer_attempts : Z;
  revisions : Z;
  cost : ReviewCost;
  stages : list ReviewLoopStage
}.

(** Field updates. *)
Definition push_stage st m := mk_ReviewLoopMetrics (producer_attempts m)
  (validation_attempts m) (reviewer_attempts m) (revisions m) (cost m) (stages m ++ [st]).
Definition set_validation_attempts n m := mk_ReviewLoopMetrics (producer_attempts m)
  n (reviewer_attempts m) (revisions m) (cost m) (stages m).
Definition set_reviewer_attempts n m := mk_ReviewLoopMetrics (producer_attempts m)
  (validation_attempts m) n (revisions m) (cost m) (stages m).
Definition set_revisions n m := mk_ReviewLoopMetrics (producer_attempts m)
  (validation_attempts m) (reviewer_attempts m) n (cost m) (stages m).
Definition set_cost c m := mk_ReviewLoopMetrics (producer_attempts m)
  (validation_attempts m) (reviewer_attempts m) (revisions m) c (stages m).

(*| review/review_loop.rs 773-788 ReviewLoopOutcome *)
Inductive ReviewLoopOutcome :=
| Published (artifact : CandidateArtifact) (metrics : ReviewLoopMetrics)
| Abstained (diagnostic : ReviewLoopDiagnostic) (metrics : ReviewLoopMetrics).

(*| review/review_loop.rs 808-812 ReviewLoopOutcome::metrics *)
Definition outcome_metrics (o : ReviewLoopOutcome) : ReviewLoopMetrics :=
  match o with Published _ m | Abstained _ m => m end.

(*| review/review_loop.rs 821-824 ReviewLoopCallbackError *)
Record ReviewLoopCallbackError (E : Type) := mk_ReviewLoopCallbackError {
  callback_error : E;
  callback_metrics : ReviewLoopMetrics
}.
Arguments mk_ReviewLoopCallbackError {E} callback_error callback_metrics.
Arguments callback_error {E} r : rename.
Arguments callback_metrics {E} r : rename.

(*| review/review_loop.rs 878-893 ReviewLoopError *)
Inductive ReviewLoopError (E : Type) :=
| ProducerFailed (error : ReviewLoopCallbackError E)
| ValidatorFailed (error : ReviewLoopCallbackError E)
| ReviewerFailed (error : ReviewLoopCallbackError E)
| ReviserFailed (error : ReviewLoopCallbackError E)
| InvalidConfiguration
| InvalidValidationReport
| SessionIdentity (error : SessionIdentityErrorKind).
Arguments ProducerFailed {E} error.
Arguments ValidatorFailed {E} error.
Arguments ReviewerFailed {E} error.
Arguments ReviserFailed {E} error.
Arguments InvalidConfiguration {E}.
Arguments InvalidValidationReport {E}.
Arguments SessionIdentity {E} error.

(*| review/review_loop.rs 897-907 ReviewLoopError::metrics *)
Definition error_metrics {E : Type} (e : ReviewLoopError E) : option ReviewLoopMetrics :=
  match e with
  | ProducerFailed c | ValidatorFailed c | ReviewerFailed c | ReviserFailed c =>
      Some (callback_metrics c)
  | InvalidConfiguration | InvalidValidationReport | SessionIdentity _ => None
  end.

(*| review/review_loop.rs 1388-1397 abstain *)
Definition abstain (metrics : ReviewLoopMetrics) (code : ReviewLoopDiagnosticCode) :
    ReviewLoopOutcome :=
  Abstained (mk_ReviewLoopDiagnostic code StageAbstain) (push_stage StageAbstain metrics).

(** ** Validation of the configuration and of a review *)

(*| review/review_loop.rs 1181-1184 valid_free_text *)
Definition valid_free_text (text : string) : bool :=
  str_all (λ byte, negb (is_ascii_control byte) ||
    existsb (Ascii.eqb byte) ["010"; "013"; "009"]%char) text.

Definition has_control (text : string) : bool := str_any is_ascii_control text.

(*| review/review_loop.rs 1154-1179 validate_config *)
Definition validate_config {E : Type} (config : ReviewLoopConfig) :
    result (ReviewLoopError E) unit :=
  if str_is_empty (rubric config)
    || negb (valid_free_text (rubric config))
    || existsb (λ e, str_is_empty (evidence_id e) || has_control (evidence_id e)
                     || negb (valid_free_text (evidence_content e))) (evidence config)
    || existsb (λ tool, str_is_empty tool || has_control tool) (config_tools config)
    || (negb (bool_decide (config_tools config = [])) &&
        bool_decide (execution_boundary config = None))
    || match execution_boundary config with
       | Some allowed => existsb (λ tool, negb (existsb (str_eqb tool) allowed))
                           (config_tools config)
       | None => false
       end
  then Err InvalidConfiguration else Ok tt.

(*| review/review_loop.rs 1186-1195 validation_review *)
Definition validation_review {E : Type} (validation : ValidationReport) :
    result (ReviewLoopError E) ReviewResult :=
  map_err (λ _ : ReviewError Empty_set, InvalidValidationReport)
    (ReviewResult_new REVIEW_SCHEMA_VERSION_V1 Revise
       "deterministic validation requires repair" (report_defects validation)
       0x3FF0000000000000).

(*| review/review_loop.rs 1292-1304 review_output_is_bound *)
Definition review_output_is_bound (review : ReviewResult)
    (evidence : list SelectedEvidence) : bool :=
  let ids : gset string := list_to_set (map evidence_id evidence) in
  if bool_decide (verdict review = Revise) && bool_decide (defects review = [])
  then false
  else forallb (λ defect,
    (negb (bool_decide (verdict review = Revise)) ||
     negb (bool_decide (evidence_refs defect = []))) &&
    forallb (λ reference, bool_decide (reference ∈ ids)) (evidence_refs defect))
    (defects review).

(*| review/review_loop.rs 1350-1357 severity_rank *)
Definition severity_rank (s : ReviewSeverity) : Z :=
  match s with Info => 0 | Warning => 1 | Error => 2 | Critical => 3 end.

(** The derived order of [(String, u8)]: by text, then by number. *)
Definition pair_le (a b : string * Z) : Prop :=
  String.le (fst a) (fst b) ∧ (fst a = fst b → (snd a ≤ snd b)%Z).
#[export] Instance pair_le_dec : RelDecision pair_le := λ a b, _.

(*| review/review_loop.rs 1341-1348 defect_fingerprint *)
Definition defect_fingerprint (ds : list ReviewDefect) : list (string * Z) :=
  merge_sort pair_le (map (λ d, (code d, severity_rank (severity d))) ds).

(** The streak state: [last_defects] and [same_defect_rounds]. *)
Record streak := mk_streak {
  last_defects : option (list (string * Z));
  same_defect_rounds : Z
}.

(*| review/review_loop.rs 1306-1339 observe_defects *)
Definition observe_defects (ds : list ReviewDefect) (max_same_defect_rounds : Z)
    (s : streak) : streak * bool :=
  let current := defect_fingerprint ds in
  if bool_decide (current = []) then (s, false)
  else
    let same_codes :=
      match last_defects s with
      | Some previous =>
          bool_decide (length previous = length current) &&
          forallb (λ pc, str_eqb (fst (fst pc)) (fst (snd pc))) (zip previous current)
      | None => false
      end in
    let severity_dropped :=
      match last_defects s with
      | Some previous =>
          existsb (λ pc, (snd (snd pc) <? snd (fst pc))%Z) (zip previous current)
      | None => false
      end in
    if same_codes && negb severity_dropped then
      match checked_add (same_defect_rounds s) 1 with
      | None => (s, true)
      | Some next_rounds =>
          (mk_streak (Some current) next_rounds, (max_same_defect_rounds <? next_rounds)%Z)
      end
    else (mk_streak (Some current) 0, (max_same_defect_rounds <? 0)%Z).

(*| review/review_loop.rs 1378-1381 budget_exhausted *)
Definition budget_exhausted (m : ReviewLoopMetrics) (config : ReviewLoopConfig) : bool :=
  ((max_model_turns config <=? model_turns (cost m)) ||
   (max_tool_calls config <=? tool_calls (cost m)))%Z.

(*| review/review_loop.rs 1383-1386 budget_overrun *)
Definition budget_overrun (m : ReviewLoopMetrics) (config : ReviewLoopConfig) : bool :=
  ((max_model_turns config <? model_turns (cost m)) ||
   (max_tool_calls config <? tool_calls (cost m)))%Z.

(** ** The tool budget *)

(*| review/review_loop.rs 141-144 ReviewerToolBudgetState *)
Record ToolBudget := mk_ToolBudget { remaining : Z; consumed : Z }.

(*| review/review_loop.rs 147-154 ReviewerToolBudget::new *)
Definition ToolBudget_new (max_tool_calls : Z) : ToolBudget := mk_ToolBudget max_tool_calls 0.

(** The critical sections on the budget's mutex never panic, so the lock is
    never poisoned. *)
(*| review/review_loop.rs 156-169 ReviewerToolBudget::reserve *)
Definition reserve (b : ToolBudget) : ToolBudget * bool :=
  if (remaining b =? 0)%Z then (b, false)
  else match checked_add (consumed b) 1 with
       | None => (b, false)
       | Some consumed => (mk_ToolBudget (u64_sub (remaining b) 1) consumed, true)
       end.

(*| review/review_loop.rs 1359-1376 record_response_cost *)
Definition record_response_cost (m : ReviewLoopMetrics) (reported : ReviewCost)
    (tool_budget : ToolBudget) : option ReviewLoopMetrics :=
  let billed_model_turns := Z.max (model_turns reported) 1 in
  cost ← cost_checked_add (cost m) (mk_ReviewCost billed_model_turns 0);
  Some (set_cost (with_tool_calls cost (consumed tool_budget)) m).

(** ** Authorities and callbacks *)

(** A lease is [Mutex<bool>]: open, closed, or poisoned by a panic inside a
    dispatch, which holds the lock. *)
Inductive lease := LeaseOpen | LeaseClosed | LeasePoisoned.

(*| review/review_loop.rs 253-259 ReviewerAuthority *)
Record ReviewerAuthority := mk_ReviewerAuthority {
  authority_tools : list string;
  has_boundary : bool;
  reviewer_session_id : string;
  has_tool_budget : bool;
  authority_lease : lease
}.

Definition set_lease (l : lease) (a : ReviewerAuthority) : ReviewerAuthority :=
  mk_ReviewerAuthority (authority_tools a) (has_boundary a) (reviewer_session_id a)
    (has_tool_budget a) l.

(*| review/review_loop.rs 272-276 ReviewerAuthority::close *)
Definition close_lease (l : lease) : lease :=
  match l with LeasePoisoned => LeasePoisoned | _ => LeaseClosed end.

Section loop.
Context `{Sha256, JsonText} {B : Type} `{!Bridge B} {W E : Type}.

(*| review/review_loop.rs 178-198 ReviewerExecutionBoundary::new *)
Definition boundary_tools (bridge : B) : list string :=
  List.filter (registered_read_only bridge) (tool_names bridge).

(*| review/review_loop.rs 126-132 ReviewerExecutionBoundary *)
Record Store := mk_Store {
  bridge : B;
  bridge_poisoned : bool;
  tool_budget : ToolBudget;
  authorities : list ReviewerAuthority
}.

Definition tool_result : Type := result ToolBridgeErrorKind (ToolEnvelope Value).

(** A callback's code; [CallTool] names the authority by its position in
    [authorities]. *)
Inductive prog (A : Type) :=
| Done (a : A)
| Unwind
| CallTool (authority : nat) (call_id tool_name : string) (arguments : Value)
    (k : called tool_result → prog A).

#[local] Arguments Done {A} a.
#[local] Arguments Unwind {A}.
#[local] Arguments CallTool {A} authority call_id tool_name arguments k.

Variable config : ReviewLoopConfig.

(*| review/review_loop.rs 205-231 ReviewerExecutionBoundary::invoke *)
Definition boundary_invoke (allowed : list string) (session call_id tool_name : string)
    (arguments : Value) (st : Store) : Store * called tool_result :=
  if negb (existsb (str_eqb tool_name) allowed)
  then (st, Returned (Err BridgeCapabilityDenied))
  else
    let '(budget, ok) := reserve (tool_budget st) in
    let st := mk_Store (bridge st) (bridge_poisoned st) budget (authorities st) in
    if negb ok then (st, Returned (Err BridgeCapabilityDenied))
    else if bridge_poisoned st then (st, Returned (Err HandlerFailed))
    else
      match dispatch (bridge st) (mk_ToolCall tool_name call_id session arguments) with
      | (bridge, Returned r) =>
          (mk_Store bridge false budget (authorities st), Returned r)
      | (bridge, Panicked) => (mk_Store bridge true budget (authorities st), Panicked)
      end.

(*| review/review_loop.rs 304-338 ReviewerAuthority::invoke_tool *)
Definition invoke_tool (authority : nat) (call_id tool_name : string)
    (arguments : Value) (st : Store) : Store * called tool_result :=
  match authorities st !! authority with
  | None => (st, Returned (Err BridgeCapabilityDenied))
  | Some a =>
      match authority_lease a with
      | LeasePoisoned | LeaseClosed => (st, Returned (Err BridgeCapabilityDenied))
      | LeaseOpen =>
          if negb (existsb (str_eqb tool_name) (authority_tools a))
          then (st, Returned (Err BridgeCapabilityDenied))
          else match has_boundary a, execution_boundary config, has_tool_budget a with
               | true, Some allowed, true =>
                   match boundary_invoke allowed (reviewer_session_id a) call_id
                           tool_name arguments st with
                   | (st, Returned r) => (st, Returned r)
                   | (st, Panicked) =>
                       (mk_Store (bridge st) (bridge_poisoned st) (tool_budget st)
                          (<[authority := set_lease LeasePoisoned a]> (authorities st)),
                        Panicked)
                   end
               | _, _, _ => (st, Returned (Err BridgeCapabilityDenied))
               end
      end
  end.

Fixpoint run_prog {A : Type} (p : prog A) (st : Store) : Store * called A :=
  match p with
  | Done a => (st, Returned a)
  | Unwind => (st, Panicked)
  | CallTool authority call_id tool_name arguments k =>
      let '(st, r) := invoke_tool authority call_id tool_name arguments st in
      run_prog (k r) st
  end.

(*| review/review_loop.rs 575-583 ReviewerRequest *)
Record ReviewerRequest := mk_ReviewerRequest {
  request_candidate : CandidateArtifact;
  request_validation : ValidationReport;
  request_evidence : list SelectedEvidence;
  request_rubric : string;
  request_session_id : string;
  request_producer_session_id : string;
  request_authority : nat
}.

(*| review/review_loop.rs 623-627 RevisionRequest *)
Record RevisionRequest := mk_RevisionRequest {
  revision_candidate : CandidateArtifact;
  revision_validation : ValidationReport;
  revision_review : ReviewResult
}.

Definition callback (A : Type) : Type := W → prog (W * result E A).

Variable producer : callback CandidateArtifact.
Variable validator : CandidateArtifact → callback ValidationReport.
Variable reviewer : ReviewerRequest → callback ReviewerResponse.
Variable reviser : RevisionRequest → callback RevisionResponse.

(** ** The loop's state and its ways out *)

Record LoopState := mk_LoopState {
  store : Store;
  world : W;
  candidate : CandidateArtifact;
  metrics : ReviewLoopMetrics;
  hashes : list string;
  streak_state : streak
}.

Definition set_store_world st w s := mk_LoopState st w (candidate s) (metrics s)
  (hashes s) (streak_state s).
Definition set_store st s := set_store_world st (world s) s.
Definition set_metrics m s := mk_LoopState (store s) (world s) (candidate s) m
  (hashes s) (streak_state s).
Definition set_streak k s := mk_LoopState (store s) (world s) (candidate s) (metrics s)
  (hashes s) k.
Definition set_candidate c s := mk_LoopState (store s) (world s) c (metrics s)
  (hashes s ++ [candidate_sha256 c]) (streak_state s).

(** [return Ok(outcome)], [return Err(error)], [resume_unwind], or the fuel of
    the model (never, see [review_loop_terminates]). *)
Inductive exit :=
| Finished (outcome : ReviewLoopOutcome)
| FailedWith (error : ReviewLoopError E)
| Unwound
| OutOfFuel.

Definition loop_m (A : Type) : Type := method LoopState exit A.

(** Call a callback: the caller's state and the store are updated, a panic
    leaves the store as it is at the panic. *)
Definition call_back {A : Type} (f : callback A) : loop_m (called (result E A)) := λ s,
  match run_prog (f (world s)) (store s) with
  | (st, Returned (w, r)) => (set_store_world st w s, Ok (Returned r))
  | (st, Panicked) => (set_store st s, Ok Panicked)
  end.

Definition push (stage : ReviewLoopStage) : loop_m unit :=
  modify (λ s, set_metrics (push_stage stage (metrics s)) s).

(** [return Ok(abstain(metrics, code))]. *)
Definition abstain_with {A : Type} (code : ReviewLoopDiagnosticCode) : loop_m A := λ s,
  (s, Err (Finished (abstain (metrics s) code))).

(** Count one attempt with [checked_add], abstaining on overflow. *)
Definition count (get : ReviewLoopMetrics → Z) (set : Z → ReviewLoopMetrics → ReviewLoopMetrics)
    (code : ReviewLoopDiagnosticCode) : loop_m unit :=
  m ← gets metrics;
  match checked_add (get m) 1 with
  | None => abstain_with code
  | Some n => modify (set_metrics (set n m))
  end.

(** [match validator(&candidate)]: an error returns, a panic unwinds. *)
Definition validate : loop_m ValidationReport :=
  s ← gets id;
  outcome ← call_back (validator (candidate s));
  m ← gets metrics;
  match outcome with
  | Returned (Ok report) => mret report
  | Returned (Err error) =>
      throw (FailedWith (ValidatorFailed (mk_ReviewLoopCallbackError error m)))
  | Panicked => throw Unwound
  end.

(** [let _ = record_response_cost(..)]: kept only when it succeeds. *)
Definition settle (reported : ReviewCost) : loop_m bool := λ s,
  match record_response_cost (metrics s) reported (tool_budget (store s)) with
  | Some m => (set_metrics m s, Ok true)
  | None => (s, Ok false)
  end.

(** Settlement of a reviewer or reviser call and its budget checks. *)
Definition settle_response {A : Type} (outcome : called (result E A))
    (failed : ReviewLoopCallbackError E → ReviewLoopError E)
    (response_cost : A → ReviewCost) : loop_m A :=
  match outcome with
  | Returned (Ok response) =>
      recorded ← settle (response_cost response);
      m ← gets metrics;
      if negb recorded then abstain_with BudgetExhausted
      else if budget_overrun m config then abstain_with BudgetExhausted
      else mret response
  | Returned (Err error) =>
      settle (mk_ReviewCost 0 0);;
      m ← gets metrics;
      throw (FailedWith (failed (mk_ReviewLoopCallbackError error m)))
  | Panicked => settle (mk_ReviewCost 0 0);; throw Unwound
  end.

(** [observe_defects] on the loop's streak, abstaining when it repeats. *)
Definition observe (ds : list ReviewDefect) : loop_m unit := λ s,
  let '(k, repeated) := observe_defects ds (max_same_defect_rounds config) (streak_state s) in
  let s := set_streak k s in
  if repeated : bool then abstain_with RepeatedDefectSet s else (s, Ok tt).

(** The repetition checks on a revised candidate, then its acceptance. *)
(*| review/review_loop.rs 1269-1288 revise_candidate *)
Definition accept_revision (next : CandidateArtifact) : loop_m unit :=
  s ← gets id;
  if stop_on_two_cycle config && (2 <=? length (hashes s)) &&
     bool_decide (hashes s !! (length (hashes s) - 2) = Some (candidate_sha256 next))
  then abstain_with OscillationDetected
  else if stop_on_repeated_output_hash config &&
          existsb (str_eqb (candidate_sha256 next)) (hashes s)
  then abstain_with RepeatedOutputHash
  else modify (set_candidate next).

(*| review/review_loop.rs 1204-1290 revise_candidate *)
Definition revise_candidate (validation : ValidationReport) (review : ReviewResult) :
    loop_m unit :=
  m ← gets metrics;
  if (max_revisions config <=? revisions m)%Z then abstain_with MaxRevisionsExceeded
  else if budget_exhausted m config then abstain_with BudgetExhausted
  else
    push StageReviser;;
    count revisions set_revisions MaxRevisionsExceeded;;
    s ← gets id;
    outcome ← call_back (reviser (mk_RevisionRequest (candidate s) validation review));
    response ← settle_response outcome ReviserFailed revision_cost;
    accept_revision (revised response).

(** A fresh authority for one reviewer call, with its own open lease. *)
Definition new_authority (reviewer_session : string) : ReviewerAuthority :=
  mk_ReviewerAuthority
    (if bool_decide (config_tools config = [])
     then default [] (execution_boundary config)
     else config_tools config)
    (bool_decide (is_Some (execution_boundary config)))
    reviewer_session
    (bool_decide (is_Some (execution_boundary config)))
    LeaseOpen.

Definition open_authority (reviewer_session : string) : loop_m nat := λ s,
  let st := store s in
  (set_store (mk_Store (bridge st) (bridge_poisoned st) (tool_budget st)
                (authorities st ++ [new_authority reviewer_session])) s,
   Ok (length (authorities st))).

(** The close guard's drop. *)
(*| review/review_loop.rs 341-347 ReviewerAuthorityCloseGuard *)
Definition close_authority (authority : nat) : loop_m unit := modify (λ s,
  let st := store s in
  set_store (mk_Store (bridge st) (bridge_poisoned st) (tool_budget st)
    (alter (λ a, set_lease (close_lease (authority_lease a)) a) authority
       (authorities st))) s).

(** The call of the reviewer with its authority open, closed afterwards
    whether it returned or panicked. *)
(*| review/review_loop.rs 1037-1064 run_bounded_review_loop *)
Definition call_reviewer (ids : RunSessionIds) (validation : ValidationReport) :
    loop_m (called (result E ReviewerResponse)) :=
  let reviewer_session := session_str (session_id ids Reviewer) in
  let producer_session := session_str (session_id ids Producer) in
  s ← gets id;
  authority ← open_authority reviewer_session;
  outcome ← call_back (reviewer
    (mk_ReviewerRequest (candidate s) validation (evidence config) (rubric config)
       reviewer_session producer_session authority));
  close_authority authority;;
  mret outcome.

(*| review/review_loop.rs 1103-1149 run_bounded_review_loop *)
Definition act_on_review (validation : ValidationReport) (review : ReviewResult) :
    loop_m unit :=
  match verdict review with
  | Abstain => abstain_with ReviewerAbstained
  | Revise => revise_candidate validation review
  | Pass =>
      push StageFinalValidate;;
      count validation_attempts set_validation_attempts BudgetExhausted;;
      final_validation ← validate;
      if negb (is_valid final_validation) then abstain_with FinalValidationFailed
      else
        push StagePublish;;
        s ← gets id;
        throw (Finished (Published (candidate s) (metrics s)))
  end.

(*| review/review_loop.rs 1028-1150 run_bounded_review_loop *)
Definition review_valid (ids : RunSessionIds) (validation : ValidationReport) :
    loop_m unit :=
  m ← gets metrics;
  if budget_exhausted m config then abstain_with BudgetExhausted
  else
    push StageReviewer;;
    count reviewer_attempts set_reviewer_attempts BudgetExhausted;;
    outcome ← call_reviewer ids validation;
    response ← settle_response outcome ReviewerFailed review_cost;
    let review := review response in
    if negb (review_output_is_bound review (evidence config))
    then abstain_with ReviewerOutputRejected
    else
      observe (defects review);;
      act_on_review validation review.

(** One iteration of the loop; it comes back for [continue]. *)
(*| review/review_loop.rs 985-1151 run_bounded_review_loop *)
Definition round (ids : RunSessionIds) : loop_m unit :=
  push StageValidate;;
  count validation_attempts set_validation_attempts BudgetExhausted;;
  validation ← validate;
  if negb (is_valid validation) then
    observe (report_defects validation);;
    match validation_review validation with
    | Err error => throw (FailedWith error)
    | Ok review => revise_candidate validation review
    end
  else review_valid ids validation.

Fixpoint loop (fuel : nat) (ids : RunSessionIds) : loop_m unit :=
  match fuel with
  | O => throw OutOfFuel
  | S fuel => round ids;; loop fuel ids
  end.

Definition initial_metrics : ReviewLoopMetrics :=
  mk_ReviewLoopMetrics 1 0 0 0 (mk_ReviewCost 0 0) [StageProducer].

(** The whole call: the final store and caller state, and how it ended.
    [max_revisions + 1] iterations are enough. *)
(*| review/review_loop.rs 946-1152 run_bounded_review_loop *)
Definition run_bounded_review_loop (entropy : option string) (b : B) (w : W) :
    Store * W * exit :=
  let st := mk_Store b false (ToolBudget_new (max_tool_calls config)) [] in
  match validate_config config with
  | Err error => (st, w, FailedWith error)
  | Ok _ =>
      match run_prog (producer w) st with
      | (st, Panicked) => (st, w, Unwound)
      | (st, Returned (w, Err error)) =>
          (st, w, FailedWith (ProducerFailed
                    (mk_ReviewLoopCallbackError error initial_metrics)))
      | (st, Returned (w, Ok candidate)) =>
          match allocate_with entropy with
          | Err error => (st, w, FailedWith (SessionIdentity error))
          | Ok ids =>
              let s := mk_LoopState st w candidate initial_metrics
                         [candidate_sha256 candidate] (mk_streak None 0) in
              match loop (S (Z.to_nat (max_revisions config))) ids s with
              | (s, Err e) => (store s, world s, e)
              | (s, Ok _) => (store s, world s, OutOfFuel)
              end
          end
      end
  end.
(** ** What a callback can do to the store *)

(** The fields are [usize]s and [u64]s, and the attempts counters cannot
    overflow within the allowed revisions. *)
Definition config_wf : Prop :=
  u64 (max_revisions config) ∧ (max_revisions config + 2 ≤ u64_max)%Z ∧
  u64 (max_same_defect_rounds config) ∧
  u64 (max_model_turns config) ∧ u64 (max_tool_calls config).

(** Any count of bridge dispatches that grows by at most one per dispatch. *)
Variable dispatches : B → Z.
Definition counts_dispatches : Prop :=
  ∀ b call, (dispatches (fst (dispatch b call)) ≤ dispatches b + 1)%Z.
Hypothesis Hwf : config_wf.
Hypothesis Hcount : counts_dispatches.

(** Whatever every dispatch keeps of the bridge it started with. *)
Variable keeps : B → B → Prop.
Context `{!PreOrder keeps}.
Hypothesis Hkeeps : ∀ b call, keeps b (fst (dispatch b call)).

Definition budget_ok (b : ToolBudget) : Prop :=
  (0 ≤ remaining b ∧ 0 ≤ consumed b ∧ remaining b + consumed b = max_tool_calls config)%Z.

Definition is_open (a : ReviewerAuthority) : Prop := authority_lease a = LeaseOpen.
Definition all_closed (st : Store) : Prop := Forall (λ a, ¬ is_open a) (authorities st).

(** An authority changes only by its open lease being poisoned. *)
Definition lease_step (a a' : ReviewerAuthority) : Prop :=
  a' = a ∨ is_open a ∧ a' = set_lease LeasePoisoned a.

Record evolves (st st' : Store) : Prop := {
  ev_consumed : (consumed (tool_budget st) ≤ consumed (tool_budget st'))%Z;
  ev_budget : budget_ok (tool_budget st) → budget_ok (tool_budget st');
  ev_dispatches :
    (dispatches (bridge st') - consumed (tool_budget st') ≤
     dispatches (bridge st) - consumed (tool_budget st))%Z;
  ev_keeps : keeps (bridge st) (bridge st');
  ev_leases : Forall2 lease_step (authorities st) (authorities st');
  ev_closed : all_closed st → st' = st
}.

Lemma lease_step_refl l : Forall2 lease_step l l.
Proof. induction l; constructor; [by left|done]. Qed.

Lemma lease_step_trans a b c : lease_step a b → lease_step b c → lease_step a c.
Proof.
  intros [->|[H1 ->]] [->|[H2 ->]]; [by left|by right|by right|].
  unfold is_open, set_lease in H2. by cbn in H2.
Qed.

Lemma lease_step_closed l l' :
  Forall2 lease_step l l' → Forall (λ a, ¬ is_open a) l → l' = l.
Proof.
  induction 1 as [|a a' l l' Ha Hl IH]; [done|]. intros [Hn Hf]%Forall_cons.
  rewrite (IH Hf). by destruct Ha as [->|[? _]].
Qed.

#[global] Instance evolves_preorder : PreOrder evolves.
Proof.
  split.
  - intros st. split; auto using lease_step_refl; [lia..|reflexivity].
  - intros st1 st2 st3 [C1 B1 D1 K1 L1 E1] [C2 B2 D2 K2 L2 E2]. split; [lia|auto|lia|by etrans| |].
    + clear -L1 L2. revert L2. generalize (authorities st3) as l3.
      induction L1 as [|a b l1 l2 Hab _ IH]; intros l3 L2;
        inversion L2; subst; constructor; eauto using lease_step_trans.
    + intros Hc. rewrite (E1 Hc) in *. auto.
Qed.

Lemma reserve_spec b b' ok :
  reserve b = (b', ok) →
  (consumed b ≤ consumed b')%Z ∧ (budget_ok b → budget_ok b') ∧
  (ok = true → consumed b' = consumed b + 1)%Z ∧ (ok = false → b' = b).
Proof.
  unfold reserve, budget_ok. destruct Hwf as (_ & _ & _ & _ & Hu).
  destruct (Z.eqb_spec (remaining b) 0); [intros [= <- <-]; auto with lia|].
  destruct (checked_add (consumed b) 1) as [c|] eqn:Hc; [|intros [= <- <-]; auto with lia].
  apply checked_add_Some in Hc as [-> Hc]. intros [= <- <-]. cbn.
  split; [lia|]. split; [|done]. intros (Hr & Hc0 & Hs).
  rewrite u64_sub_small by (unfold_u64; lia). lia.
Qed.

Lemma boundary_invoke_spec allowed session call tool args st st' r :
  boundary_invoke allowed session call tool args st = (st', r) →
  (consumed (tool_budget st) ≤ consumed (tool_budget st'))%Z ∧
  (budget_ok (tool_budget st) → budget_ok (tool_budget st')) ∧
  (dispatches (bridge st') - consumed (tool_budget st') ≤
     dispatches (bridge st) - consumed (tool_budget st))%Z ∧
  authorities st' = authorities st ∧ keeps (bridge st) (bridge st').
Proof.
  assert (Hrefl : ∀ b, keeps b b) by (intros b; reflexivity).
  unfold boundary_invoke. destruct (existsb _ _); cbn; [|intros [= <- <-]; auto with lia].
  destruct (reserve (tool_budget st)) as [b ok] eqn:Hr.
  apply reserve_spec in Hr as (H1 & H2 & H3 & H4).
  destruct ok; cbn.
  2: { rewrite (H4 eq_refl) in *. intros [= <- <-]. cbn. by split_and!. }
  specialize (H3 eq_refl).
  destruct (bridge_poisoned st); [intros [= <- <-]; cbn; auto with lia|].
  pose proof (Hcount (bridge st) (mk_ToolCall tool call session args)) as Hc.
  pose proof (Hkeeps (bridge st) (mk_ToolCall tool call session args)) as Hk.
  destruct (dispatch _ _) as [br []]; cbn in Hc; intros [= <- <-]; cbn; auto with lia.
Qed.

Lemma invoke_tool_evolves i call tool args st st' r :
  invoke_tool i call tool args st = (st', r) → evolves st st'.
Proof.
  unfold invoke_tool. destruct (authorities st !! i) as [a|] eqn:Ha; [|by intros [= <- _]].
  destruct (authority_lease a) eqn:Hl; [|by intros [= <- _]..].
  destruct (existsb _ _); cbn; [|by intros [= <- _]].
  destruct (has_boundary a); [|by intros [= <- _]].
  destruct (execution_boundary config) as [allowed|]; [|by intros [= <- _]].
  destruct (has_tool_budget a); [|by intros [= <- _]].
  assert (¬ all_closed st) as Hno.
  { intros Hc. unfold all_closed in Hc. rewrite Forall_lookup in Hc. by apply (Hc i a Ha). }
  destruct (boundary_invoke _ _ _ _ _ _) as [st1 r1] eqn:Hb.
  apply boundary_invoke_spec in Hb as (H1 & H2 & H4 & H3 & Hk).
  destruct r1; intros [= <- <-]; split; cbn; try done; rewrite ?H3.
  - apply lease_step_refl.
  - rewrite <- (list_insert_id _ _ _ Ha) at 1.
    apply Forall2_insert; [apply lease_step_refl|]. right. done.
Qed.

Lemma run_prog_evolves {A} (p : prog A) st st' r :
  run_prog p st = (st', r) → evolves st st'.
Proof.
  revert st. induction p as [a| |i call tool args k IH]; intros st; cbn.
  - by intros [= <- _].
  - by intros [= <- _].
  - destruct (invoke_tool i call tool args st) as [st1 r1] eqn:Hi.
    intros Hp. etrans; [by eapply invoke_tool_evolves|]. by eapply IH.
Qed.
(** ** The stage machine

    [trace v r x stage l]: [l] is a run of the closed stage machine that is now
    at [stage], having validated [v] times, reviewed [r] times and revised [x]
    times. *)
Inductive trace : Z → Z → Z → ReviewLoopStage → list ReviewLoopStage → Prop :=
| trace_producer : trace 0 0 0 StageProducer [StageProducer]
| trace_validate v r x s l : s = StageProducer ∨ s = StageReviser →
    trace v r x s l → trace (v + 1) r x StageValidate (l ++ [StageValidate])
| trace_reviewer v r x l :
    trace v r x StageValidate l → trace v (r + 1) x StageReviewer (l ++ [StageReviewer])
| trace_reviser v r x s l : s = StageValidate ∨ s = StageReviewer →
    trace v r x s l → trace v r (x + 1) StageReviser (l ++ [StageReviser])
| trace_final v r x l :
    trace v r x StageReviewer l →
    trace (v + 1) r x StageFinalValidate (l ++ [StageFinalValidate])
| trace_publish v r x l :
    trace v r x StageFinalValidate l → trace v r x StagePublish (l ++ [StagePublish])
| trace_abstain v r x s l : s ≠ StageProducer → s ≠ StagePublish → s ≠ StageAbstain →
    trace v r x s l → trace v r x StageAbstain (l ++ [StageAbstain]).

(** ** The invariant

    [Mid v r x out stage s]: at [stage], after [v] validations, [r] reviews and
    [x] revisions, with [out] model calls not yet settled.  [d0] bounds the
    dispatches before the run. *)
Variable d0 : Z.
Variable b0 : B.

Definition store_ok (st : Store) : Prop :=
  budget_ok (tool_budget st) ∧ all_closed st ∧
  (dispatches (bridge st) - consumed (tool_budget st) ≤ d0)%Z ∧ keeps b0 (bridge st).

(** The emitted hashes: the current candidate's is the last, and no
    configured repetition occurs. *)
Definition no_two_cycle (hs : list string) : Prop :=
  ∀ i h, hs !! i = Some h → hs !! (i + 2) ≠ Some h.
Definition hashes_ok (hs : list string) (c : CandidateArtifact) : Prop :=
  last hs = Some (candidate_sha256 c) ∧
  (stop_on_repeated_output_hash config = true → NoDup hs) ∧
  (stop_on_two_cycle config = true → no_two_cycle hs).

Record Mid (v r x out : Z) (stage : ReviewLoopStage) (s : LoopState) : Prop := {
  mid_producer : producer_attempts (metrics s) = 1%Z;
  mid_validations : validation_attempts (metrics s) = v;
  mid_reviews : reviewer_attempts (metrics s) = r;
  mid_revisions : revisions (metrics s) = x;
  mid_turns : (r + x ≤ model_turns (cost (metrics s)) + out ≤ max_model_turns config)%Z;
  mid_turns0 : (0 ≤ model_turns (cost (metrics s)))%Z;
  mid_calls : (0 ≤ tool_calls (cost (metrics s)) ≤ consumed (tool_budget (store s)))%Z;
  mid_store : store_ok (store s);
  mid_hashes : hashes_ok (hashes s) (candidate s);
  mid_trace : trace v r x stage (stages (metrics s))
}.

Definition metrics_ok (m : ReviewLoopMetrics) (stage : ReviewLoopStage) : Prop :=
  trace (validation_attempts m) (reviewer_attempts m) (revisions m) stage (stages m) ∧
  producer_attempts m = 1%Z ∧
  (0 ≤ revisions m ≤ max_revisions config)%Z ∧
  (0 ≤ reviewer_attempts m ≤ revisions m + 1)%Z ∧
  (0 ≤ validation_attempts m ≤ revisions m + 2)%Z ∧
  (reviewer_attempts m + revisions m ≤ max_model_turns config)%Z ∧
  (tool_calls (cost m) ≤ max_tool_calls config)%Z.

(** The stage at which each callback error is reported. *)
Definition error_stage (error : ReviewLoopError E) (stage : ReviewLoopStage) : Prop :=
  match error with
  | ProducerFailed _ => stage = StageProducer
  | ValidatorFailed _ => stage = StageValidate ∨ stage = StageFinalValidate
  | ReviewerFailed _ => stage = StageReviewer
  | ReviserFailed _ => stage = StageReviser
  | InvalidConfiguration | InvalidValidationReport | SessionIdentity _ => False
  end.

Definition exit_ok (e : exit) (s : LoopState) : Prop :=
  store_ok (store s) ∧ hashes_ok (hashes s) (candidate s) ∧
  match e with
  | Finished (Published a m) =>
      metrics_ok m StagePublish ∧ a = candidate s ∧
      (model_turns (cost m) ≤ max_model_turns config)%Z
  | Finished (Abstained d m) => metrics_ok m StageAbstain ∧ diagnostic_stage d = StageAbstain
  | FailedWith error => ∀ m, error_metrics error = Some m →
      ∃ stage, error_stage error stage ∧ metrics_ok m stage
  | Unwound => True
  | OutOfFuel => False
  end.

(** The counters stay in the window a round allows. *)
Definition window (v r x : Z) : Prop :=
  (0 ≤ x ≤ max_revisions config ∧ 0 ≤ r ≤ x + 1 ∧ 0 ≤ v ≤ x + 2)%Z.

Lemma Mid_metrics_ok v r x out stage s :
  Mid v r x out stage s → window v r x → (0 ≤ out)%Z →
  metrics_ok (metrics s) stage.
Proof.
  intros [Hp Hv Hr Hx Ht Ht0 Hc (Hb & _) Hh Htr] (Hwx & Hwr & Hwv) Hout.
  unfold metrics_ok. rewrite Hv, Hr, Hx. unfold budget_ok in Hb.
  split; [done|]. lia.
Qed.

Lemma store_ok_evolves st st' : store_ok st → evolves st st' → store_ok st'.
Proof.
  intros (Hb & Hc & Hd) [_ E2 E3 _ _ E5]. specialize (E5 Hc). by subst st'.
Qed.

(** Publishing state changes that keep the counters. *)
Lemma Mid_ext v r x out stage s s' :
  Mid v r x out stage s → metrics s' = metrics s → store s' = store s →
  hashes s' = hashes s → candidate s' = candidate s → Mid v r x out stage s'.
Proof. intros [] E1 E2 E3 E4. split; rewrite ?E1, ?E2, ?E3, ?E4; done. Qed.

(** ** Rules for the building blocks *)

#[local] Arguments wp : simpl never.
#[local] Arguments mbind : simpl never.
#[local] Arguments mret : simpl never.
#[local] Arguments abstain_with : simpl never.

Lemma wp_abstain {A} (Q : A → LoopState → Prop) v r x out stage code s :
  Mid v r x out stage s → window v r x → (0 ≤ out)%Z →
  stage ≠ StageProducer → stage ≠ StagePublish → stage ≠ StageAbstain →
  wp (abstain_with code) Q exit_ok s.
Proof.
  intros Hm Hw Hout H1 H2 H3. unfold abstain_with, wp, exit_ok. cbn.
  split; [apply Hm|]. split; [apply Hm|]. split; [|done].
  destruct (Mid_metrics_ok _ _ _ _ _ _ Hm Hw Hout) as (Ht & Hr).
  split; [|done]. cbn. by eapply trace_abstain.
Qed.

Lemma wp_call_back {A} (f : callback A) (Q : called (result E A) → LoopState → Prop) R s :
  (∀ st w r, evolves (store s) st → Q r (set_store_world st w s)) →
  wp (call_back f) Q R s.
Proof.
  intros HQ. unfold call_back, wp.
  destruct (run_prog (f (world s)) (store s)) as [st [[w r]|]] eqn:Hr;
    apply run_prog_evolves in Hr; by apply HQ.
Qed.

(** A callback that holds no open lease cannot touch the store. *)
Lemma wp_call_back_closed {A} (f : callback A)
    (Q : called (result E A) → LoopState → Prop) R s :
  all_closed (store s) →
  (∀ w r, Q r (set_store_world (store s) w s)) →
  wp (call_back f) Q R s.
Proof.
  intros Hc HQ. apply wp_call_back. intros st w r He.
  by rewrite (ev_closed _ _ He Hc).
Qed.

Lemma wp_count get set code (Q : unit → LoopState → Prop) R s :
  (get (metrics s) + 1 ≤ u64_max)%Z →
  Q tt (set_metrics (set (get (metrics s) + 1)%Z (metrics s)) s) →
  wp (count get set code) Q R s.
Proof.
  intros Hb HQ. unfold count. apply wp_bind, wp_gets.
  unfold checked_add. rewrite decide_True by done. by apply wp_modify.
Qed.

Lemma settle_spec reported (Q : bool → LoopState → Prop) R s :
  (∀ m, record_response_cost (metrics s) reported (tool_budget (store s)) = Some m →
     Q true (set_metrics m s)) →
  (record_response_cost (metrics s) reported (tool_budget (store s)) = None → Q false s) →
  wp (settle reported) Q R s.
Proof.
  intros H1 H2. unfold settle, wp. destruct (record_response_cost _ _ _); auto.
Qed.

Lemma record_response_cost_Some m reported b m' :
  record_response_cost m reported b = Some m' →
  m' = set_cost (mk_ReviewCost (model_turns (cost m) + Z.max (model_turns reported) 1)
                   (consumed b)) m ∧
  (model_turns (cost m) + Z.max (model_turns reported) 1 ≤ u64_max)%Z.
Proof.
  unfold record_response_cost, cost_checked_add. cbn.
  destruct (checked_add (model_turns (cost m)) _) as [t|] eqn:Ht; [|done]. cbn.
  destruct (checked_add (tool_calls (cost m)) 0); [|done]. cbn.
  apply checked_add_Some in Ht as [-> Ht]. by intros [= <-].
Qed.

(** Settling one outstanding model call. *)
Lemma wp_settle_response {A} (outcome : called (result E A)) failed response_cost
    (Q : A → LoopState → Prop) v r x stage s :
  (∀ c, error_metrics (failed c) = Some (callback_metrics c) ∧
     error_stage (failed c) stage) →
  Mid v r x 1 stage s → window v r x →
  stage = StageReviewer ∨ stage = StageReviser →
  (∀ response s', outcome = Returned (Ok response) →
     Mid v r x 0 stage s' → world s' = world s → store s' = store s →
     hashes s' = hashes s → candidate s' = candidate s →
     streak_state s' = streak_state s → Q response s') →
  wp (settle_response outcome failed response_cost) Q exit_ok s.
Proof.
  intros Hfail Hm Hw Hst HQ.
  assert (stage ≠ StageProducer ∧ stage ≠ StagePublish ∧ stage ≠ StageAbstain)
    as (S1 & S2 & S3) by by destruct Hst as [->| ->].
  pose proof (mid_turns _ _ _ _ _ _ Hm) as Ht.
  assert (∀ reported m, record_response_cost (metrics s) reported (tool_budget (store s)) = Some m →
    m = set_cost (mk_ReviewCost (model_turns (cost (metrics s)) +
          Z.max (model_turns reported) 1) (consumed (tool_budget (store s)))) (metrics s) ∧
    metrics_ok m stage) as Hrec.
  { intros reported m (-> & Hb)%record_response_cost_Some. split; [done|].
    destruct (Mid_metrics_ok _ _ _ _ _ _ Hm Hw ltac:(lia)) as (H1 & H2 & H3 & H4 & H5 & H6 & H7).
    destruct (mid_store _ _ _ _ _ _ Hm) as (Hbud & _). unfold budget_ok in Hbud.
    unfold metrics_ok. cbn. split_and!; try done; lia. }
  destruct outcome as [[response|error]|]; cbn.
  - apply wp_bind, settle_spec.
    + intros m Hr. destruct (Hrec _ _ Hr) as [-> Hok]. apply wp_bind, wp_gets. cbn.
      destruct Hm as [Hp Hv Hrr Hx Ht' Ht0 Hc Hs Hh Htr].
      apply wp_if.
      * intros Hover. unfold abstain_with, wp, exit_ok. cbn.
        split; [done|]. split; [done|]. split; [|done].
        destruct Hok as [Hok1 Hok2]. split; [by apply (trace_abstain _ _ _ stage)|done].
      * unfold budget_overrun. cbn. rewrite orb_false_iff. intros [H1 H2].
        apply wp_ret, HQ; try done. split; cbn; try done; lia.
    + intros _. apply wp_bind, wp_gets. cbn. by apply (wp_abstain _ v r x 1 stage).
  - apply wp_bind, settle_spec.
    + intros m Hr. destruct (Hrec _ _ Hr) as [-> Hok]. apply wp_bind, wp_gets, wp_throw.
      split; [apply Hm|]. split; [apply Hm|]. cbn. intros m.
      match goal with |- error_metrics (failed ?c) = _ → _ =>
        destruct (Hfail c) as [-> ?] end.
      intros [= <-]. eauto.
    + intros _. apply wp_bind, wp_gets, wp_throw.
      split; [apply Hm|]. split; [apply Hm|]. cbn. intros m.
      destruct (Hfail (mk_ReviewLoopCallbackError error (metrics s))) as [-> ?].
      intros [= <-]. exists stage. split; [done|]. apply (Mid_metrics_ok v r x 1); auto with lia.
  - apply wp_bind, settle_spec; intros; apply wp_throw; (split; [apply Hm|]; split; [apply Hm|done]).
Qed.
Lemma hashes_ok_snoc hs c next :
  hashes_ok hs c →
  stop_on_two_cycle config && (2 <=? length hs) &&
    bool_decide (hs !! (length hs - 2) = Some (candidate_sha256 next)) = false →
  stop_on_repeated_output_hash config &&
    existsb (str_eqb (candidate_sha256 next)) hs = false →
  hashes_ok (hs ++ [candidate_sha256 next]) next.
Proof.
  intros (Hl & Hnd & Hcy) Hg1 Hg2. split; [by rewrite last_snoc|]. split.
  - intros Hs. rewrite Hs in Hg2. cbn in Hg2. apply NoDup_app.
    split; [by apply Hnd|]. split; [|apply NoDup_singleton].
    intros h Hh ->%list_elem_of_singleton. rewrite existsb_false_iff in Hg2.
    specialize (Hg2 _ Hh). unfold str_eqb in Hg2. by rewrite bool_decide_true in Hg2.
  - intros Hs i h Hi Hi2. specialize (Hcy Hs). rewrite Hs, andb_true_l in Hg1.
    destruct (decide (i + 2 < length hs)) as [Hlt|Hge].
    + rewrite lookup_app_l in Hi, Hi2 by lia. by apply (Hcy i h).
    + pose proof (lookup_lt_Some _ _ _ Hi2) as Hlen. rewrite length_app in Hlen. cbn in Hlen.
      replace i with (length hs - 2) in * by lia.
      rewrite lookup_app_r in Hi2 by lia.
      replace (length hs - 2 + 2 - length hs) with 0 in Hi2 by lia.
      rewrite lookup_app_l in Hi by lia. injection Hi2 as <-.
      rewrite (proj2 (Nat.leb_le 2 (length hs))), andb_true_l in Hg1 by lia.
      by apply bool_decide_eq_false in Hg1.
Qed.

Lemma max_revisions_fits : (max_revisions config + 2 ≤ u64_max)%Z.
Proof. apply Hwf. Qed.

(** Pushing a stage and counting the attempt it starts. *)
Ltac open_stage :=
  apply wp_bind, wp_modify; apply wp_bind, wp_count;
  [pose proof max_revisions_fits; cbn; unfold window in *; lia|].

Lemma wp_revise_candidate validation review (Q : unit → LoopState → Prop) v r x stage s :
  Mid v r x 0 stage s → window v r x → (v ≤ x + 1)%Z →
  stage = StageValidate ∨ stage = StageReviewer →
  (∀ s', (x < max_revisions config)%Z → Mid v r (x + 1) 0 StageReviser s' → Q tt s') →
  wp (revise_candidate validation review) Q exit_ok s.
Proof.
  intros Hm Hw Hv Hst HQ.
  assert (stage ≠ StageProducer ∧ stage ≠ StagePublish ∧ stage ≠ StageAbstain)
    as (S1 & S2 & S3) by by destruct Hst as [->| ->].
  apply wp_bind, wp_gets, wp_if.
  { intros _. apply (wp_abstain _ v r x 0 stage); auto with lia. }
  rewrite (mid_revisions _ _ _ _ _ _ Hm). intros Hrev%Z.leb_gt.
  apply wp_if. { intros _. apply (wp_abstain _ v r x 0 stage); auto with lia. }
  intros [Hb1%Z.leb_gt Hb2%Z.leb_gt]%orb_false_iff.
  pose proof (mid_revisions _ _ _ _ _ _ Hm) as Hx.
  apply wp_bind, wp_modify. apply wp_bind, wp_count.
  { cbn. rewrite Hx. pose proof max_revisions_fits. lia. }
  apply wp_bind, wp_gets. apply wp_bind.
  apply wp_call_back_closed. { cbn. apply Hm. }
  intros w outcome. apply wp_bind.
  apply (wp_settle_response _ _ _ _ v r (x + 1) StageReviser); [by split| |unfold window in *; lia|auto|].
  - destruct Hm. split; cbn; try done; try lia. by apply (trace_reviser _ _ _ stage).
  - intros response s' _ Hm' _ _ Hh Hc _. apply wp_bind, wp_gets.
    assert (Mid v r (x + 1) 0 StageReviser s') as Hm'' by done.
    assert (window v r (x + 1)) as Hw' by (unfold window in *; lia).
    apply wp_if. { intros _. by apply (wp_abstain _ v r (x + 1) 0 StageReviser). }
    intros Hg1. apply wp_if. { intros _. by apply (wp_abstain _ v r (x + 1) 0 StageReviser). }
    intros Hg2. apply wp_modify. apply HQ; [done|].
    destruct Hm'. split; cbn; try done. by eapply hashes_ok_snoc.
Qed.

(** Opening, using and closing one authority. *)
Lemma wp_call_reviewer ids validation
    (Q : called (result E ReviewerResponse) → LoopState → Prop) R s :
  store_ok (store s) →
  (∀ outcome st w, store_ok st →
     (consumed (tool_budget (store s)) ≤ consumed (tool_budget st))%Z →
     Q outcome (set_store_world st w s)) →
  wp (call_reviewer ids validation) Q R s.
Proof.
  intros (Hbud & Hclosed & Hd & Hk) HQ. apply wp_bind, wp_gets, wp_bind.
  unfold open_authority, wp at 1. cbv beta iota zeta. apply wp_bind, wp_call_back.
  intros st w outcome He. apply wp_bind, wp_modify, wp_ret.
  destruct He as [E1 E2 E3 Ek E4 _]. cbn in *.
  set (a := new_authority _) in *. set (st' := mk_Store _ _ _ _).
  change (Q outcome (set_store_world st' w s)). apply HQ; [|done].
  split; [by apply E2|]. split; [|cbn; split; [lia|by etrans]].
  unfold all_closed. cbn. apply Forall2_app_inv_l in E4 as (l1 & l2 & Hl1 & Hl2 & Happ).
  apply (lease_step_closed _ _ Hl1) in Hclosed as El1. subst l1.
  rewrite Happ. inversion Hl2 as [|? a' ? l2' Ha Hl2' E5 E6]; subst.
  inversion Hl2'; subst.
  replace (length (authorities (store s))) with (length (authorities (store s)) + 0) by lia.
  rewrite alter_app_r. cbn. apply Forall_app. split; [done|]. apply Forall_singleton.
  unfold is_open, set_lease. cbn. by destruct Ha as [->|[_ ->]].
Qed.

Lemma wp_validate_at (Q : ValidationReport → LoopState → Prop) v r x stage s :
  Mid v r x 0 stage s → window v r x →
  stage = StageValidate ∨ stage = StageFinalValidate →
  (∀ report w, Q report (set_store_world (store s) w s)) →
  wp validate Q exit_ok s.
Proof.
  intros Hm Hw Hst HQ. apply wp_bind, wp_gets, wp_bind.
  apply wp_call_back_closed; [apply Hm|]. intros w outcome. apply wp_bind, wp_gets.
  destruct outcome as [[report|error]|].
  - apply wp_ret, HQ.
  - apply wp_throw. split; [apply Hm|]. split; [apply Hm|]. cbn. intros m [= <-].
    exists stage. split; [done|]. by apply (Mid_metrics_ok v r x 0).
  - apply wp_throw. split; [apply Hm|]. split; [apply Hm|done].
Qed.

Lemma wp_observe_at ds (Q : unit → LoopState → Prop) v r x stage s :
  Mid v r x 0 stage s → window v r x →
  stage = StageValidate ∨ stage = StageReviewer →
  (∀ k, Q tt (set_streak k s)) →
  wp (observe ds) Q exit_ok s.
Proof.
  intros Hm Hw Hst HQ. unfold observe, wp.
  destruct (observe_defects _ _ _) as [k []]; [|apply HQ].
  assert (Mid v r x 0 stage (set_streak k s)) as Hm' by by apply (Mid_ext _ _ _ _ _ s).
  assert (wp (abstain_with (A := unit) RepeatedDefectSet) Q exit_ok (set_streak k s))
    as Hab; [|exact Hab].
  by apply (wp_abstain _ v r x 0 stage); auto; destruct Hst as [->| ->].
Qed.

Lemma wp_act_on_review validation review (Q : unit → LoopState → Prop) r x s :
  Mid (x + 1) r x 0 StageReviewer s → (0 ≤ r ≤ x + 1)%Z → (0 ≤ x ≤ max_revisions config)%Z →
  (∀ s', (x < max_revisions config)%Z → Mid (x + 1) r (x + 1) 0 StageReviser s' → Q tt s') →
  wp (act_on_review validation review) Q exit_ok s.
Proof.
  intros Hm Hr Hx HQ. assert (window (x + 1) r x) as Hw by (unfold window; lia).
  unfold act_on_review. destruct (verdict review).
  - pose proof (mid_validations _ _ _ _ _ _ Hm) as Hv.
    apply wp_bind, wp_modify. apply wp_bind, wp_count.
    { cbn. rewrite Hv. pose proof max_revisions_fits. lia. }
    assert (window (x + 2) r x) as Hw' by (unfold window; lia).
    set (s1 := set_metrics _ _).
    assert (Mid (x + 2) r x 0 StageFinalValidate s1) as Hm1.
    { destruct Hm. split; cbn; try done; try lia. replace (x + 2)%Z with (x + 1 + 1)%Z by lia.
      by apply trace_final. }
    clearbody s1. apply wp_bind, (wp_validate_at _ (x + 2) r x StageFinalValidate); [done|done|by right|].
    intros report w. set (s2 := set_store_world _ _ _).
    assert (Mid (x + 2) r x 0 StageFinalValidate s2) as Hm2 by by apply (Mid_ext _ _ _ _ _ s1).
    clearbody s2. apply wp_if; intros _; [by apply (wp_abstain _ (x + 2) r x 0 StageFinalValidate)|].
    apply wp_bind, wp_modify, wp_bind, wp_gets, wp_throw.
    destruct (Mid_metrics_ok _ _ _ _ _ _ Hm2 Hw' ltac:(lia)) as [Hok1 Hok2].
    split; [apply Hm2|]. split; [apply Hm2|]. cbn. split; [|split; [done|]].
    + split; [by apply trace_publish|done].
    + pose proof (mid_turns _ _ _ _ _ _ Hm2). lia.
  - apply (wp_revise_candidate _ _ _ (x + 1) r x StageReviewer); auto with lia.
  - by apply (wp_abstain _ (x + 1) r x 0 StageReviewer).
Qed.

Lemma wp_review_valid ids validation (Q : unit → LoopState → Prop) r x s :
  Mid (x + 1) r x 0 StageValidate s → (0 ≤ r ≤ x)%Z → (0 ≤ x ≤ max_revisions config)%Z →
  (∀ s', (x < max_revisions config)%Z →
     Mid (x + 1) (r + 1) (x + 1) 0 StageReviser s' → Q tt s') →
  wp (review_valid ids validation) Q exit_ok s.
Proof.
  intros Hm Hr Hx HQ. assert (window (x + 1) r x) as Hw by (unfold window; lia).
  assert (window (x + 1) (r + 1) x) as Hw' by (unfold window; lia).
  apply wp_bind, wp_gets, wp_if.
  { intros _. by apply (wp_abstain _ (x + 1) r x 0 StageValidate). }
  intros [Hb1%Z.leb_gt Hb2%Z.leb_gt]%orb_false_iff.
  pose proof (mid_reviews _ _ _ _ _ _ Hm) as Hrr.
  apply wp_bind, wp_modify. apply wp_bind, wp_count.
  { cbn. rewrite Hrr. pose proof max_revisions_fits. lia. }
  set (s1 := set_metrics _ _).
  assert (Mid (x + 1) (r + 1) x 1 StageReviewer s1) as Hm1.
  { destruct Hm. split; cbn; try done; try lia. by apply trace_reviewer. }
  clearbody s1. apply wp_bind, wp_call_reviewer; [apply Hm1|].
  intros outcome st w Hst Hcons. set (s2 := set_store_world _ _ _).
  assert (Mid (x + 1) (r + 1) x 1 StageReviewer s2) as Hm2.
  { destruct Hm1. split; cbn; try done; lia. }
  clearbody s2. apply wp_bind, (wp_settle_response _ _ _ _ (x + 1) (r + 1) x StageReviewer);
    [by split|done|done|auto|].
  intros response s3 _ Hm3 _ _ _ _ _. cbv zeta. apply wp_if.
  { intros _. by apply (wp_abstain _ (x + 1) (r + 1) x 0 StageReviewer). }
  intros _. apply wp_bind, (wp_observe_at _ _ (x + 1) (r + 1) x StageReviewer); auto.
  intros k. apply (wp_act_on_review _ _ _ (r + 1) x); [|lia|done|done].
  by apply (Mid_ext _ _ _ _ _ s3).
Qed.

(** The invariant between rounds, after [x] revisions. *)
Definition Inv (x : Z) (s : LoopState) : Prop :=
  ∃ r stage, Mid x r x 0 stage s ∧ (0 ≤ r ≤ x)%Z ∧ (0 ≤ x ≤ max_revisions config)%Z ∧
    (stage = StageProducer ∨ stage = StageReviser).

Lemma wp_round ids (Q : unit → LoopState → Prop) x s :
  Inv x s →
  (∀ s', (x < max_revisions config)%Z → Inv (x + 1) s' → Q tt s') →
  wp (round ids) Q exit_ok s.
Proof.
  intros (r & stage & Hm & Hr & Hx & Hst) HQ.
  assert (∀ r' s', (x < max_revisions config)%Z → (0 ≤ r' ≤ x + 1)%Z →
    Mid (x + 1) r' (x + 1) 0 StageReviser s' → Q tt s') as HQ'.
  { intros r' s' Hlt Hr' Hm'. apply HQ; [done|]. exists r', StageReviser. auto with lia. }
  pose proof (mid_validations _ _ _ _ _ _ Hm) as Hv.
  apply wp_bind, wp_modify. apply wp_bind, wp_count.
  { cbn. rewrite Hv. pose proof max_revisions_fits. lia. }
  set (s1 := set_metrics _ _).
  assert (Mid (x + 1) r x 0 StageValidate s1) as Hm1.
  { destruct Hm. split; cbn; try done; try lia. by apply (trace_validate _ _ _ stage). }
  clearbody s1. assert (window (x + 1) r x) as Hw by (unfold window; lia).
  apply wp_bind, (wp_validate_at _ (x + 1) r x StageValidate); [done|done|by left|].
  intros report w. set (s2 := set_store_world _ _ _).
  assert (Mid (x + 1) r x 0 StageValidate s2) as Hm2 by by apply (Mid_ext _ _ _ _ _ s1).
  clearbody s2. apply wp_if; intros _.
  - apply wp_bind, (wp_observe_at _ _ (x + 1) r x StageValidate); auto.
    intros k. destruct (validation_review report) as [review|error] eqn:Hrev.
    + apply (wp_revise_candidate _ _ _ (x + 1) r x StageValidate); [|done|lia|auto|].
      * by apply (Mid_ext _ _ _ _ _ s2).
      * intros s' Hlt. apply HQ'; [done|lia].
    + apply wp_throw. split; [apply Hm2|]. split; [apply Hm2|]. cbn.
      unfold validation_review in Hrev. apply map_err_Err in Hrev as (? & _ & ->). done.
  - apply (wp_review_valid _ _ _ r x); [done..|].
    intros s' Hlt. apply HQ'; [done|lia].
Qed.

(** Enough fuel: the loop always ends by one of the code's own exits. *)
Lemma wp_loop ids fuel x s :
  Inv x s → (max_revisions config < x + Z.of_nat fuel)%Z →
  wp (loop fuel ids) (λ _ _, False) exit_ok s.
Proof.
  revert x s. induction fuel as [|fuel IH]; intros x s Hinv Hfuel.
  { destruct Hinv as (r & stage & _ & _ & Hx & _). lia. }
  cbn. apply wp_bind, (wp_round _ _ x); [done|]. intros s' Hlt Hinv'.
  apply (IH (x + 1)%Z); [done|lia].
Qed.
(** The metrics an ending reports. *)
Definition exit_metrics (e : exit) : option ReviewLoopMetrics :=
  match e with
  | Finished outcome => Some (outcome_metrics outcome)
  | FailedWith error => error_metrics error
  | Unwound | OutOfFuel => None
  end.

(** The stage an ending stops at. *)
Definition exit_stage (e : exit) (stage : ReviewLoopStage) : Prop :=
  match e with
  | Finished (Published _ _) => stage = StagePublish
  | Finished (Abstained d _) => stage = StageAbstain ∧ diagnostic_stage d = StageAbstain
  | FailedWith error => error_stage error stage
  | Unwound | OutOfFuel => False
  end.
Lemma run_ok entropy b w st w' e :
  d0 = dispatches b → b0 = b → (0 ≤ max_model_turns config)%Z →
  run_bounded_review_loop entropy b w = (st, w', e) →
  store_ok st ∧ e ≠ OutOfFuel ∧
  ∀ m, exit_metrics e = Some m → ∃ stage, exit_stage e stage ∧ metrics_ok m stage ∧
    (stage = StagePublish → (model_turns (cost m) ≤ max_model_turns config)%Z).
Proof.
  intros Hd Hb0 Hturns. unfold run_bounded_review_loop.
  set (st0 := mk_Store _ _ _ _).
  assert (store_ok st0) as H0'.
  { destruct Hwf as (_ & _ & _ & _ & Hu). unfold_u64.
    split; [unfold budget_ok; cbn; lia|]. split; [by constructor|]. cbn.
    split; [lia|rewrite Hb0; reflexivity]. }
  assert (metrics_ok initial_metrics StageProducer) as Hinit.
  { destruct Hwf as (Hr & _ & _ & _ & Hu). unfold_u64.
    split; [constructor|]. cbn. lia. }
  destruct (validate_config config) eqn:Hc.
  2: { unfold validate_config in Hc. destruct (_ || _); [|done]. injection Hc as <-.
       by intros [= <- <- <-]. }
  destruct (run_prog (producer w) st0) as [st1 r] eqn:Hp. apply run_prog_evolves in Hp.
  pose proof (store_ok_evolves _ _ H0' Hp) as H1'.
  destruct r as [[w1 [candidate|error]]|]; [|intros [= <- <- <-]; cbn|by intros [= <- <- <-]].
  2: { split; [done|]. split; [done|]. intros m [= <-]. by exists StageProducer. }
  destruct (allocate_with entropy) as [ids|error]; [|by intros [= <- <- <-]].
  set (s0 := mk_LoopState _ _ _ _ _ _).
  assert (Inv 0 s0) as Hinv.
  { exists 0%Z, StageProducer. destruct Hwf as (Hr & _ & _ & _ & Hu). unfold_u64.
    split; [|lia || auto]. 2: { split; [lia|]. split; [lia|]. by left. }
    split; cbn; try done; try lia.
    - destruct H1' as ([_ [Hc' _]] & _). cbn. lia.
    - split; [done|]. split; [intros _; apply NoDup_singleton|].
      intros _ i h Hi Hi2. destruct i; done.
    - constructor. }
  pose proof (wp_loop ids (S (Z.to_nat (max_revisions config))) 0 s0 Hinv) as Hloop.
  destruct Hwf as (Hr & _). unfold_u64. specialize (Hloop ltac:(lia)).
  unfold wp in Hloop. destruct (loop _ ids s0) as [s1 [[]|e1]]; [done|].
  intros [= <- <- <-]. destruct Hloop as (Hs & _ & He). split; [done|].
  destruct e1 as [[a m|d m]|error| |]; try done.
  - split; [done|]. intros m' [= <-]. exists StagePublish. naive_solver.
  - split; [done|]. intros m' [= <-]. exists StageAbstain. naive_solver.
  - split; [done|]. intros m Hm. destruct (He m Hm) as (stage & Hst & Hok).
    exists stage. split; [done|]. split; [done|].
    intros ->. destruct error; cbn in *; naive_solver.
Qed.

(** ** What precedes a publication *)

(** The last three calls before [a] is published: the validator accepts [a],
    the reviewer, in a fresh session and with a fresh authority, passes it on
    that validation with every reference bound to the selected evidence, and
    the validator accepts [a] again; [st'] and [w'] are what the last call
    left behind. *)
Definition certified (ids : RunSessionIds) (a : CandidateArtifact) (st' : Store) (w' : W) :
    Prop :=
  ∃ st0 w0 st1 w1 report st2 w2 response st3 final,
    run_prog (validator a w0) st0 = (st1, Returned (w1, Ok report)) ∧
    is_valid report = true ∧
    run_prog (reviewer (mk_ReviewerRequest a report (evidence config) (rubric config)
        (session_str (session_id ids Reviewer)) (session_str (session_id ids Producer))
        (length (authorities st1))) w1)
      (mk_Store (bridge st1) (bridge_poisoned st1) (tool_budget st1)
         (authorities st1 ++ [new_authority (session_str (session_id ids Reviewer))])) =
      (st2, Returned (w2, Ok response)) ∧
    verdict (review response) = Pass ∧
    review_output_is_bound (review response) (evidence config) = true ∧
    run_prog (validator a w2) st3 = (st', Returned (w', Ok final)) ∧
    is_valid final = true.

Definition publication (ids : RunSessionIds) (e : exit) (s : LoopState) : Prop :=
  ∀ a m, e = Finished (Published a m) → certified ids a (store s) (world s).

Lemma wp_call_back_run {A} (f : callback A) (Q : called (result E A) → LoopState → Prop) R s :
  (∀ st w r, run_prog (f (world s)) (store s) = (st, Returned (w, r)) →
     Q (Returned r) (set_store_world st w s)) →
  (∀ st, Q Panicked (set_store st s)) →
  wp (call_back f) Q R s.
Proof.
  intros H1 H2. unfold call_back, wp.
  destruct (run_prog (f (world s)) (store s)) as [st [[w r]|]] eqn:Hr; auto.
Qed.

Lemma wp_abstain_any {A} (Q : A → LoopState → Prop) ids code s :
  wp (abstain_with code) Q (publication ids) s.
Proof. unfold abstain_with, wp. by intros a m. Qed.

Lemma wp_count_any ids get set code (Q : unit → LoopState → Prop) s :
  (∀ n, Q tt (set_metrics (set n (metrics s)) s)) →
  wp (count get set code) Q (publication ids) s.
Proof.
  intros HQ. apply wp_bind, wp_gets. destruct (checked_add _ _); [by apply wp_modify|].
  apply wp_abstain_any.
Qed.

Lemma wp_settle_any {A} ids (outcome : called (result E A)) failed response_cost
    (Q : A → LoopState → Prop) s :
  (∀ response s', outcome = Returned (Ok response) → world s' = world s →
     store s' = store s → candidate s' = candidate s → Q response s') →
  wp (settle_response outcome failed response_cost) Q (publication ids) s.
Proof.
  intros HQ. destruct outcome as [[response|error]|]; cbn; apply wp_bind, settle_spec.
  - intros m _. apply wp_bind, wp_gets. cbn. apply wp_if; intros _; [apply wp_abstain_any|].
    by apply wp_ret, HQ.
  - intros _. apply wp_bind, wp_gets. apply wp_abstain_any.
  - intros m _. by apply wp_bind, wp_gets, wp_throw.
  - intros _. by apply wp_bind, wp_gets, wp_throw.
  - intros m _. by apply wp_throw.
  - intros _. by apply wp_throw.
Qed.

Lemma wp_revise_any ids validation review s :
  wp (revise_candidate validation review) (λ _ _, True) (publication ids) s.
Proof.
  apply wp_bind, wp_gets, wp_if; intros _; [apply wp_abstain_any|].
  apply wp_if; intros _; [apply wp_abstain_any|].
  apply wp_bind, wp_modify, wp_bind, wp_count_any. intros n.
  apply wp_bind, wp_gets, wp_bind, wp_call_back_run; intros; apply wp_bind, wp_settle_any; [|done].
  intros response s' _ _ _ _. apply wp_bind, wp_gets, wp_if; intros _; [apply wp_abstain_any|].
  apply wp_if; intros _; [apply wp_abstain_any|]. by apply wp_modify.
Qed.

Lemma wp_observe_any ids ds (Q : unit → LoopState → Prop) s :
  (∀ k, Q tt (set_streak k s)) → wp (observe ds) Q (publication ids) s.
Proof.
  intros HQ. unfold observe, wp. destruct (observe_defects _ _ _) as [k []]; [|apply HQ].
  by intros a m.
Qed.

(** The validator on the current candidate, and the exits it can cause. *)
Lemma wp_validate_any ids (Q : ValidationReport → LoopState → Prop) s :
  (∀ st w report, run_prog (validator (candidate s) (world s)) (store s) =
     (st, Returned (w, Ok report)) → Q report (set_store_world st w s)) →
  wp validate Q (publication ids) s.
Proof.
  intros HQ. apply wp_bind, wp_gets, wp_bind, wp_call_back_run.
  - intros st w [report|error] Hr; apply wp_bind, wp_gets; [by apply wp_ret, HQ|].
    by apply wp_throw.
  - intros st. apply wp_bind, wp_gets. by apply wp_throw.
Qed.

Lemma wp_round_publication ids s : wp (round ids) (λ _ _, True) (publication ids) s.
Proof.
  apply wp_bind, wp_modify, wp_bind, wp_count_any. intros n.
  apply wp_bind, wp_validate_any. intros st1 w1 report Hr1. cbn in Hr1.
  apply wp_if.
  { intros _. apply wp_bind, wp_observe_any. intros k.
    destruct (validation_review report); [apply wp_revise_any|by apply wp_throw]. }
  intros Hvalid%negb_false_iff. apply wp_bind, wp_gets, wp_if; intros _; [apply wp_abstain_any|].
  apply wp_bind, wp_modify, wp_bind, wp_count_any. intros n2.
  apply wp_bind, wp_bind, wp_gets, wp_bind.
  unfold open_authority, wp at 1. cbv beta iota zeta.
  apply wp_bind, wp_call_back_run.
  2: { intros st. apply wp_bind, wp_modify, wp_ret, wp_bind, wp_settle_any. done. }
  intros st2 w2 outcome Hr2. cbn in Hr2. apply wp_bind, wp_modify, wp_ret, wp_bind, wp_settle_any.
  intros response s' [= ->] Hw' Hst' Hc'. cbn in Hw', Hc'. cbv zeta.
  apply wp_if; intros Hb; [apply wp_abstain_any|]. apply negb_false_iff in Hb.
  apply wp_bind, wp_observe_any. intros k. unfold act_on_review.
  destruct (verdict (review response)) eqn:Hv; [|apply wp_revise_any|apply wp_abstain_any].
  apply wp_bind, wp_modify, wp_bind, wp_count_any. intros n3.
  apply wp_bind, wp_validate_any. intros st3 w3 final Hr3. cbn in Hr3.
  rewrite Hw', Hc' in Hr3.
  apply wp_if; intros Hfinal; [apply wp_abstain_any|]. apply negb_false_iff in Hfinal.
  apply wp_bind, wp_modify, wp_bind, wp_gets, wp_throw.
  intros a m [= <- _]. cbn. rewrite Hc'.
  exists (store s), (world s), st1, w1, report, st2, w2, response, (store s'), final.
  done.
Qed.

Lemma wp_loop_publication ids fuel s : wp (loop fuel ids) (λ _ _, True) (publication ids) s.
Proof.
  revert s. induction fuel as [|fuel IH]; intros s; [by apply wp_throw|].
  apply wp_bind. eapply wp_mono; [| |apply wp_round_publication]; [|done].
  intros [] s' _. apply IH.
Qed.
End loop.

#[global] Arguments Done {JsonText0 A} a : rename.
#[global] Arguments Unwind {JsonText0 A} : rename.
#[global] Arguments CallTool {JsonText0 A} authority call_id tool_name arguments k : rename.

(** ** The properties of a run *)

Section properties.
Context `{Sha256, JsonText} {B : Type} `{!Bridge B} {W E : Type}.
Context (config : ReviewLoopConfig).
Context (producer : callback (W := W) (E := E) CandidateArtifact).
Context (validator : CandidateArtifact → callback (W := W) (E := E) ValidationReport).
Context (reviewer : ReviewerRequest → callback (W := W) (E := E) ReviewerResponse).
Context (reviser : RevisionRequest → callback (W := W) (E := E) RevisionResponse).

#[local] Abbreviation run :=
  (run_bounded_review_loop config producer validator reviewer reviser).

#[local] Instance keeps_nothing {X} : PreOrder (λ _ _ : X, True).
Proof. by split. Qed.

(** C31. Whatever the callbacks return, report as cost, or do with the tools
    they are handed, the loop ends by one of the program's own exits: the
    allowed revisions plus one iterations are always enough. *)
Theorem review_loop_terminates (entropy : option string) (b : B) (w : W) :
  config_wf config → snd (run entropy b w) ≠ OutOfFuel.
Proof.
  intros Hwf. destruct (run entropy b w) as [[st w'] e] eqn:Hr. cbn.
  assert (0 ≤ max_model_turns config)%Z by apply Hwf.
  eapply (run_ok config producer validator reviewer reviser (λ _ : B, 0%Z) Hwf
            ltac:(intros ? ?; lia) (λ _ _, True)) in Hr; [by destruct Hr as (_ & Hr & _)|done..].
Qed.

(** C32. Every ending that carries metrics stays within the configured
    ceilings: one producer call, at most the allowed revisions, at most one
    review per candidate and one validation more, no more reviewer and reviser
    calls than model turns (a call is billed at least one turn, whatever it
    reports), tool calls within their budget, and a published run within the
    turn budget as well. *)
Theorem review_loop_bounded (entropy : option string) (b : B) (w : W)
    (m : ReviewLoopMetrics) :
  config_wf config → exit_metrics (snd (run entropy b w)) = Some m →
  producer_attempts m = 1%Z ∧
  (0 ≤ revisions m ≤ max_revisions config)%Z ∧
  (0 ≤ reviewer_attempts m ≤ revisions m + 1)%Z ∧
  (0 ≤ validation_attempts m ≤ revisions m + 2)%Z ∧
  (reviewer_attempts m + revisions m ≤ max_model_turns config)%Z ∧
  (tool_calls (cost m) ≤ max_tool_calls config)%Z ∧
  (∀ a, snd (run entropy b w) = Finished (Published a m) →
     (model_turns (cost m) ≤ max_model_turns config)%Z).
Proof.
  intros Hwf. destruct (run entropy b w) as [[st w'] e] eqn:Hr. cbn. intros Hm.
  assert (0 ≤ max_model_turns config)%Z by apply Hwf.
  eapply (run_ok config producer validator reviewer reviser (λ _ : B, 0%Z) Hwf
            ltac:(intros ? ?; lia) (λ _ _, True)) in Hr; [|done..].
  destruct Hr as (_ & _ & Hr). destruct (Hr m Hm) as (stage & Hst & Hok & Hpub).
  destruct Hok as (_ & Hok). destruct_and! Hok.
  split_and!; try done. intros a ->. by apply Hpub.
Qed.

(** The stage trace of every ending is a run of the closed stage machine
    whose numbers of validations, reviews and revisions are the reported
    attempts; it ends at the publication exactly when an artifact is published,
    at the abstention when the loop abstains, and at the failing callback's
    own stage when a callback fails. *)
Theorem review_loop_stages (entropy : option string) (b : B) (w : W)
    (m : ReviewLoopMetrics) :
  config_wf config → exit_metrics (snd (run entropy b w)) = Some m →
  ∃ stage, exit_stage (snd (run entropy b w)) stage ∧
    trace (validation_attempts m) (reviewer_attempts m) (revisions m) stage (stages m).
Proof.
  intros Hwf. destruct (run entropy b w) as [[st w'] e] eqn:Hr. cbn. intros Hm.
  assert (0 ≤ max_model_turns config)%Z by apply Hwf.
  eapply (run_ok config producer validator reviewer reviser (λ _ : B, 0%Z) Hwf
            ltac:(intros ? ?; lia) (λ _ _, True)) in Hr; [|done..].
  destruct Hr as (_ & _ & Hr). destruct (Hr m Hm) as (stage & Hst & [Htr _] & _). eauto.
Qed.

(** However the run ends, panics included, the bridge was dispatched to at
    most as many times as tool calls were reserved, which is at most the tool
    budget; every authority ever handed out is closed, and a call through a
    closed authority is denied without touching the bridge, the budget or any
    lease. *)
Theorem review_loop_tool_authority (dispatches : B → Z) (entropy : option string)
    (b : B) (w : W) :
  config_wf config → counts_dispatches dispatches →
  let st := fst (fst (run entropy b w)) in
  (dispatches (bridge st) ≤ dispatches b + consumed (tool_budget st))%Z ∧
  (0 ≤ consumed (tool_budget st) ≤ max_tool_calls config)%Z ∧
  all_closed st ∧
  ∀ authority call tool arguments,
    invoke_tool config authority call tool arguments st =
    (st, Returned (Err BridgeCapabilityDenied)).
Proof.
  intros Hwf Hcount. destruct (run entropy b w) as [[st w'] e] eqn:Hr. cbn.
  assert (0 ≤ max_model_turns config)%Z by apply Hwf.
  eapply (run_ok config producer validator reviewer reviser dispatches Hwf Hcount
            (λ _ _, True)) in Hr; [|done..].
  destruct Hr as ((Hbud & Hclosed & Hd) & _). unfold budget_ok in Hbud.
  split_and!; [lia|lia|lia|done|].
  intros i call tool args. unfold invoke_tool.
  destruct (authorities st !! i) as [a|] eqn:Ha; [|done].
  unfold all_closed in Hclosed. rewrite Forall_lookup in Hclosed.
  specialize (Hclosed i a Ha). unfold is_open in Hclosed. by destruct (authority_lease a).
Qed.

(** C1. An artifact is published only after the deterministic validator
    accepted it, the reviewer passed that very artifact on that report, in
    its own session and with references bound to the selected evidence, and
    the validator accepted it once more: these are the last three calls of
    the run. *)
Theorem review_loop_publication (entropy : option string) (b : B) (w : W)
    (st : Store) (w' : W) (a : CandidateArtifact) (m : ReviewLoopMetrics) :
  run entropy b w = (st, w', Finished (Published a m)) →
  ∃ ids, allocate_with entropy = Ok ids ∧ certified config validator reviewer ids a st w'.
Proof.
  unfold run_bounded_review_loop.
  destruct (validate_config config) eqn:Hc.
  2: { unfold validate_config in Hc. destruct (_ || _); [|done]. by injection Hc as <-. }
  destruct (run_prog config (producer w) _) as [st1 [[w1 [c|error]]|]]; try done.
  destruct (allocate_with entropy) as [ids|error]; [|done].
  set (s0 := mk_LoopState _ _ _ _ _ _).
  pose proof (wp_loop_publication config validator reviewer reviser ids
    (S (Z.to_nat (max_revisions config))) s0) as Hl. unfold wp in Hl.
  destruct (loop _ _ _ _ _ ids s0) as [s1 [[]|e1]]; [done|].
  intros [= <- <- ->]. exists ids. split; [done|]. by apply (Hl a m).
Qed.

(** A revised candidate is accepted, becoming the current one with its
    hash appended, exactly when no enabled check objects; an oscillation to
    the candidate before the last is reported before a plain repetition; and
    the digests of all accepted candidates stay free of the repetitions the
    configuration forbids. *)
Theorem accept_revision_exact (next : CandidateArtifact) (s : LoopState) :
  let sha := candidate_sha256 next in
  let oscillates := stop_on_two_cycle config = true ∧ 2 ≤ length (hashes s) ∧
    hashes s !! (length (hashes s) - 2) = Some sha in
  let repeats := stop_on_repeated_output_hash config = true ∧ sha ∈ hashes s in
  let stop code := (s, Err (Finished (abstain (metrics s) code))) in
  let outcome := accept_revision (E := E) (B := B) (W := W) config next s in
  (oscillates → outcome = stop OscillationDetected) ∧
  (¬ oscillates → repeats → outcome = stop RepeatedOutputHash) ∧
  (¬ oscillates → ¬ repeats → outcome = (set_candidate next s, Ok tt)) ∧
  (hashes_ok config (hashes s) (candidate s) →
     let s' := fst outcome in hashes_ok config (hashes s') (candidate s')).
Proof.
  cbn zeta.
  assert (stop_on_two_cycle config && (2 <=? length (hashes s)) &&
    bool_decide (hashes s !! (length (hashes s) - 2) = Some (candidate_sha256 next)) = true ↔
    stop_on_two_cycle config = true ∧ 2 ≤ length (hashes s) ∧
    hashes s !! (length (hashes s) - 2) = Some (candidate_sha256 next)) as <-.
  { rewrite !andb_true_iff, Nat.leb_le, bool_decide_eq_true. tauto. }
  assert (stop_on_repeated_output_hash config &&
    existsb (str_eqb (candidate_sha256 next)) (hashes s) = true ↔
    stop_on_repeated_output_hash config = true ∧ candidate_sha256 next ∈ hashes s) as <-.
  { rewrite andb_true_iff, existsb_true_iff. setoid_rewrite str_eqb_eq. naive_solver. }
  unfold accept_revision, mbind, method_bind, gets, modify, abstain_with. cbn [id].
  split; [by intros ->|]. split; [by intros ->%not_true_iff_false ->|].
  split; [by intros ->%not_true_iff_false ->%not_true_iff_false|].
  intros Hok. destruct (_ && bool_decide _) eqn:Hc; [done|].
  destruct (stop_on_repeated_output_hash config && _) eqn:Hc2; [done|]. cbn.
  by apply (hashes_ok_snoc config _ (candidate s)).
Qed.
End properties.

(** ** The configuration *)

Definition text_ok (text : string) : Prop :=
  ∀ byte, byte ∈ str_bytes text → is_ascii_control byte = true →
    byte = "010"%char ∨ byte = "013"%char ∨ byte = "009"%char.
Definition id_ok (text : string) : Prop :=
  text ≠ "" ∧ ∀ byte, byte ∈ str_bytes text → is_ascii_control byte = false.

Lemma valid_free_text_ok text : valid_free_text text = true ↔ text_ok text.
Proof.
  unfold valid_free_text, str_all, text_ok. rewrite forallb_true_iff.
  apply forall_proper. intros byte. apply imp_iff_compat_l.
  destruct (is_ascii_control byte) eqn:Hb; cbn [negb orb]; [|naive_solver].
  rewrite existsb_true_iff. setoid_rewrite Ascii.eqb_eq. split.
  - intros (c & Hc & ->) _. set_solver.
  - intros Hc. exists byte. split; [|done]. specialize (Hc eq_refl). set_solver.
Qed.

Lemma has_control_ok text : has_control text = false ↔
  ∀ byte, byte ∈ str_bytes text → is_ascii_control byte = false.
Proof. unfold has_control, str_any. apply existsb_false_iff. Qed.

(** A run starts exactly when the rubric is non-empty text, every
    evidence record has a non-empty identifier without control characters and
    textual content, and every reviewer tool has such a name and is eligible
    in the execution boundary, which must then exist; otherwise the run reports
    an invalid configuration and calls nothing: the caller's state, the bridge
    and the budget are untouched. *)
Theorem review_config_exact `{Sha256, JsonText} {B : Type} `{!Bridge B} {W E : Type}
    (config : ReviewLoopConfig) (producer : callback (W := W) (E := E) CandidateArtifact)
    validator reviewer reviser (entropy : option string) (b : B) (w : W) :
  (validate_config (E := E) config = Ok tt ↔
    rubric config ≠ "" ∧ text_ok (rubric config) ∧
    (∀ e, e ∈ evidence config → id_ok (evidence_id e) ∧ text_ok (evidence_content e)) ∧
    (∀ tool, tool ∈ config_tools config → id_ok tool ∧
       ∃ allowed, execution_boundary config = Some allowed ∧ tool ∈ allowed)) ∧
  (validate_config (E := E) config ≠ Ok tt →
    run_bounded_review_loop config producer validator reviewer reviser entropy b w =
    (mk_Store b false (ToolBudget_new (max_tool_calls config)) [], w,
     FailedWith InvalidConfiguration)).
Proof.
  split.
  - assert (validate_config (E := E) config = Ok tt ↔
      str_is_empty (rubric config) = false ∧ valid_free_text (rubric config) = true ∧
      existsb (λ e, str_is_empty (evidence_id e) || has_control (evidence_id e)
                    || negb (valid_free_text (evidence_content e))) (evidence config) = false ∧
      existsb (λ tool, str_is_empty tool || has_control tool) (config_tools config) = false ∧
      (config_tools config = [] ∨ is_Some (execution_boundary config)) ∧
      ∀ allowed, execution_boundary config = Some allowed →
        existsb (λ tool, negb (existsb (str_eqb tool) allowed)) (config_tools config) = false)
      as ->.
    { unfold validate_config. rewrite <- !negb_true_iff.
      destruct (str_is_empty (rubric config)); [naive_solver|].
      destruct (valid_free_text (rubric config)); [|naive_solver].
      destruct (existsb _ (evidence config)); [naive_solver|].
      destruct (existsb _ (config_tools config)); [naive_solver|]. cbn.
      destruct (execution_boundary config) as [allowed|]; cbn.
      - rewrite andb_false_r. cbn. destruct (existsb _ _) eqn:Ha; split; try done.
        + intros (_ & _ & _ & _ & _ & Hal). specialize (Hal _ eq_refl). congruence.
        + intros _. repeat split; try done; [right; eauto|]. intros ? [= <-]. done.
      - rewrite andb_true_r, orb_false_r. case_bool_decide as Hn; cbn; split; try done.
        + intros _. repeat split; try done. by left.
        + intros (_ & _ & _ & _ & [?|[? ?]] & _); done. }
    rewrite str_is_empty_false, valid_free_text_ok, !existsb_false_iff.
    setoid_rewrite existsb_false_iff. setoid_rewrite orb_false_iff.
    setoid_rewrite orb_false_iff. setoid_rewrite negb_false_iff.
    setoid_rewrite str_is_empty_false. setoid_rewrite has_control_ok.
    setoid_rewrite valid_free_text_ok. setoid_rewrite existsb_true_iff.
    setoid_rewrite str_eqb_eq. unfold id_ok.
    split; intros (H1 & H2 & H3 & H4); (split; [done|]; split; [done|]).
    + destruct H4 as (H4 & H5 & H6). split; [naive_solver|]. intros tool Ht.
      split; [by apply H4|]. destruct H5 as [Hn|[allowed Ha]].
      { rewrite Hn in Ht. by apply elem_of_nil in Ht. }
      exists allowed. split; [done|]. destruct (H6 allowed Ha tool Ht) as (x & Hx & ->). done.
    + split; [naive_solver|]. split; [naive_solver|]. split.
      * destruct (config_tools config) as [|tool tools] eqn:Htools; [by left|right].
        destruct (H4 tool) as (_ & allowed & -> & _); [set_solver|eauto].
      * intros allowed Ha tool Ht. destruct (H4 tool Ht) as (_ & allowed' & Ha' & Hin).
        exists tool. split; [congruence|done].
  - intros Hc. unfold run_bounded_review_loop. unfold validate_config in *.
    by destruct (_ || _).
Qed.

(** ** The defect streak *)

#[global] Instance pair_le_antisymm : AntiSymm (=) pair_le.
Proof.
  intros [a i] [b j] [H1 H2] [H3 H4]. cbn in *.
  assert (a = b) as -> by by apply (anti_symm String.le).
  f_equal. specialize (H2 eq_refl). specialize (H4 eq_refl). lia.
Qed.
#[global] Instance pair_le_trans : Transitive pair_le.
Proof.
  intros [a i] [b j] [c k] [H1 H2] [H3 H4]. cbn in *. split; cbn; [by etrans|].
  intros ->. assert (c = b) as -> by by apply (anti_symm String.le).
  specialize (H2 eq_refl). specialize (H4 eq_refl). lia.
Qed.
#[global] Instance pair_le_total : Total pair_le.
Proof.
  intros [a i] [b j]. unfold pair_le. cbn. destruct (decide (a = b)) as [->|Hn].
  - destruct (Z.le_ge_cases i j); [left|right]; done.
  - destruct (total String.le a b); [left|right]; naive_solver.
Qed.

Lemma defect_fingerprint_Permutation ds ds' :
  ds ≡ₚ ds' → defect_fingerprint ds = defect_fingerprint ds'.
Proof.
  intros Hp. unfold defect_fingerprint.
  apply (StronglySorted_unique pair_le); [apply (StronglySorted_merge_sort _)..|].
  by rewrite !merge_sort_Permutation, Hp.
Qed.

(** A later set of defects that does not improve on the earlier one: the same
    codes, and no defect whose severity dropped. *)
Definition unimproved (previous current : list (string * Z)) : Prop :=
  map fst previous = map fst current ∧
  ∀ i p c, previous !! i = Some p → current !! i = Some c → (snd p ≤ snd c)%Z.

Lemma same_codes_iff (previous current : list (string * Z)) :
  bool_decide (length previous = length current) &&
  forallb (λ pc, str_eqb (fst (fst pc)) (fst (snd pc))) (zip previous current) = true ↔
  map fst previous = map fst current.
Proof.
  rewrite andb_true_iff, bool_decide_eq_true. revert current.
  induction previous as [|p ps IH]; intros [|c cs]; cbn;
    [done|split; [by intros []|done]..|].
  rewrite andb_true_iff, str_eqb_eq. specialize (IH cs). split.
  - intros [[= Hl] [-> Hf]]. f_equal. by apply IH.
  - intros [= -> Hm]. apply IH in Hm as [-> ?]. done.
Qed.

Lemma severity_dropped_iff (previous current : list (string * Z)) :
  existsb (λ pc, (snd (snd pc) <? snd (fst pc))%Z) (zip previous current) = false ↔
  ∀ i p c, previous !! i = Some p → current !! i = Some c → (snd p ≤ snd c)%Z.
Proof.
  rewrite existsb_false_iff. split.
  - intros Hz i p c Hp Hc. specialize (Hz (p, c)). cbn in Hz.
    apply Z.ltb_ge, Hz, list_elem_of_lookup. exists i.
    rewrite lookup_zip_with, Hp. cbn. by rewrite Hc.
  - intros Hi [p c] Hin. apply list_elem_of_lookup in Hin as [i Hz].
    apply lookup_zip_with_Some in Hz as (p' & c' & [= <- <-] & Hp & Hc).
    apply Z.ltb_ge. eauto.
Qed.

#[global] Instance unimproved_dec previous current : Decision (unimproved previous current).
Proof.
  destruct (decide (map fst previous = map fst current)); [|by right; intros []].
  destruct (existsb (λ pc, (snd (snd pc) <? snd (fst pc))%Z) (zip previous current)) eqn:He.
  - right. intros [_ Hn]. apply severity_dropped_iff in Hn. congruence.
  - left. split; [done|]. by apply severity_dropped_iff.
Defined.

(** The length of the current streak, latest observation first. *)
Fixpoint streak_length (history : list (list (string * Z))) : nat :=
  match history with
  | current :: rest =>
      match rest with
      | previous :: _ =>
          if decide (unimproved previous current) then S (streak_length rest) else 0
      | [] => 0
      end
  | [] => 0
  end.

(** Observing a sequence of defect sets; empty ones are not observations. *)
Fixpoint observe_all (max : Z) (dss : list (list ReviewDefect)) (s : streak) :
    streak * bool :=
  match dss with
  | [] => (s, false)
  | ds :: [] => observe_defects ds max s
  | ds :: dss => observe_all max dss (fst (observe_defects ds max s))
  end.

Definition history (dss : list (list ReviewDefect)) : list (list (string * Z)) :=
  reverse (List.filter (λ f, negb (bool_decide (f = []))) (map defect_fingerprint dss)).

Lemma streak_length_le h : streak_length h ≤ length h.
Proof.
  induction h as [|c h IH]; cbn; [lia|]. destruct h; cbn in *; [lia|].
  case_decide; cbn in *; lia.
Qed.

Definition streak_of (h : list (list (string * Z))) : streak :=
  mk_streak (head h) (Z.of_nat (streak_length h)).

Lemma observe_defects_step ds max h :
  (Z.of_nat (length h) < u64_max)%Z → (0 ≤ max)%Z →
  let current := defect_fingerprint ds in
  observe_defects ds max (streak_of h) =
  if bool_decide (current = []) then (streak_of h, false)
  else (streak_of (current :: h),
        (max <? Z.of_nat (streak_length (current :: h)))%Z).
Proof.
  intros Hlen Hmax. cbn zeta. unfold observe_defects. case_bool_decide as Hne; [done|].
  pose proof (streak_length_le h) as Hle.
  destruct h as [|previous h]; cbn [streak_of head last_defects same_defect_rounds].
  { cbn. done. }
  pose proof (same_codes_iff previous (defect_fingerprint ds)) as Hs.
  pose proof (severity_dropped_iff previous (defect_fingerprint ds)) as Hd.
  destruct (bool_decide _ && forallb _ _), (existsb _ _); cbn [negb andb].
  - unfold streak_of. cbn [streak_length head]. rewrite decide_False; [done|].
    intros [_ Hn]. by apply Hd in Hn.
  - assert (unimproved previous (defect_fingerprint ds)) as Hu by (split; [by apply Hs|by apply Hd]).
    unfold checked_add. rewrite decide_True by lia.
    unfold streak_of. cbn [streak_length head]. rewrite decide_True by done.
    repeat f_equal; lia.
  - unfold streak_of. cbn [streak_length head]. rewrite decide_False; [done|].
    intros [Hn _]. by apply Hs in Hn.
  - unfold streak_of. cbn [streak_length head]. rewrite decide_False; [done|].
    intros [Hn _]. by apply Hs in Hn.
Qed.

Lemma history_cons ds dss :
  history (ds :: dss) =
  history dss ++ (if bool_decide (defect_fingerprint ds = []) then [] else [defect_fingerprint ds]).
Proof.
  unfold history. cbn [map List.filter].
  case_bool_decide; cbn [negb]; [by rewrite app_nil_r|]. by rewrite reverse_cons.
Qed.

Lemma observe_all_from max dss h :
  (Z.of_nat (length h + length dss) < u64_max)%Z → (0 ≤ max)%Z →
  fst (observe_all max dss (streak_of h)) = streak_of (history dss ++ h) ∧
  ∀ ds, last dss = Some ds → snd (observe_all max dss (streak_of h)) =
    negb (bool_decide (defect_fingerprint ds = [])) &&
    (max <? Z.of_nat (streak_length (history dss ++ h)))%Z.
Proof.
  intros Hlen Hmax. revert h Hlen.
  induction dss as [|ds dss IH]; intros h Hlen; [done|]. cbn [length] in Hlen.
  pose proof (observe_defects_step ds max h ltac:(lia) Hmax) as Hstep. cbn zeta in Hstep.
  rewrite history_cons. destruct dss as [|ds' dss].
  - cbn [observe_all]. rewrite Hstep. case_bool_decide as Hf; cbn [app history];
      (split; [done|]); intros d [= ->]; by case_bool_decide.
  - change (observe_all max (ds :: ds' :: dss) (streak_of h)) with
      (observe_all max (ds' :: dss) (fst (observe_defects ds max (streak_of h)))).
    rewrite Hstep, <- app_assoc. case_bool_decide as Hf; cbn [fst app].
    + rewrite last_cons_cons. apply IH. cbn in *. lia.
    + rewrite last_cons_cons. apply IH. cbn in *. lia.
Qed.

(** The loop stops on repeated defects exactly when the latest
    observation extends a streak longer than the tolerated rounds, where the
    streak counts the consecutive latest non-empty defect sets that name the
    same codes as the one before with no severity lowered; the order in which
    defects are listed does not matter, and empty sets neither extend nor
    reset a streak. *)
Theorem defect_streak_exact (max : Z) (dss : list (list ReviewDefect)) (ds : list ReviewDefect) :
  (Z.of_nat (length dss) < u64_max)%Z → (0 ≤ max)%Z → last dss = Some ds →
  (snd (observe_all max dss (mk_streak None 0)) = true ↔
     defect_fingerprint ds ≠ [] ∧ (max < Z.of_nat (streak_length (history dss)))%Z) ∧
  (∀ dss', Forall2 (≡ₚ) dss dss' →
     observe_all max dss' (mk_streak None 0) = observe_all max dss (mk_streak None 0)).
Proof.
  intros Hlen Hmax Hlast. split.
  - destruct (observe_all_from max dss [] Hlen Hmax) as [_ Hsnd].
    change (mk_streak None 0) with (streak_of []). rewrite (Hsnd ds Hlast), app_nil_r.
    by rewrite andb_true_iff, negb_true_iff, bool_decide_eq_false, Z.ltb_lt.
  - intros dss' Hp. generalize (mk_streak None 0). clear -Hp.
    induction Hp as [|d d' dss dss' Hd Hds IH]; intros s; [done|].
    assert (observe_defects d' max s = observe_defects d max s) as Ho.
    { unfold observe_defects. by rewrite (defect_fingerprint_Permutation _ _ Hd). }
    cbn. rewrite Ho, IH. by inversion Hds.
Qed.

(** ** A concrete run

    A reviewer that reads through the bridge and asks for one repair, then
    passes. *)

#[local] Instance ex_sha : Sha256 := λ s, s.
#[local] Existing Instance ex_json.

Definition ex_envelope : ToolEnvelope Value :=
  Empty (mk_ToolProvenance "registry.read" "1").

#[local] Instance ex_bridge : Bridge Z := {
  tool_names := λ _, ["read"; "write"];
  registered_read_only := λ _ name, str_eqb name "read";
  dispatch := λ n _, ((n + 1)%Z, Returned (Ok ex_envelope))
}.

Definition ex_config : ReviewLoopConfig :=
  mk_ReviewLoopConfig 2 1 true true 18 3 "rubric" [mk_SelectedEvidence "e1" "text"] []
    (Some (boundary_tools 0%Z)).

Definition ex_defect : ReviewDefect :=
  mk_ReviewDefect "D1" Error None ["e1"] "broken" None.

Definition ex_producer : callback (W := nat) (E := unit) CandidateArtifact :=
  λ w, Done (S w, Ok (CandidateArtifact_new "draft")).
Definition ex_validator (c : CandidateArtifact) : callback (W := nat) (E := unit) ValidationReport :=
  λ w, Done (S w, Ok ValidationReport_valid).
Definition ex_reviewer (r : ReviewerRequest) : callback (W := nat) (E := unit) ReviewerResponse :=
  λ w, CallTool (request_authority r) "c1" "read" Null (λ _,
         CallTool (request_authority r) "c2" "write" Null (λ _,
           Done (S w, Ok (mk_ReviewerResponse
             (if str_eqb (bytes (request_candidate r)) "draft"
              then mk_ReviewResult 1 Revise "repair" [ex_defect] 0
              else mk_ReviewResult 1 Pass "fine" [] 0)
             (mk_ReviewCost 0 99))))).
Definition ex_reviser (r : RevisionRequest) : callback (W := nat) (E := unit) RevisionResponse :=
  λ w, Done (S w, Ok (mk_RevisionResponse (CandidateArtifact_new "final") (mk_ReviewCost 2 0))).

Definition ex_entropy : option string := Some "0123456789abcdef0123456789abcdeg".
Definition ex_run : Store * nat * exit :=
  run_bounded_review_loop ex_config ex_producer ex_validator ex_reviewer ex_reviser
    ex_entropy 0%Z 0.
Definition ex_metrics : ReviewLoopMetrics :=
  mk_ReviewLoopMetrics 1 3 2 1 (mk_ReviewCost 4 2)
    [StageProducer; StageValidate; StageReviewer; StageReviser; StageValidate;
     StageReviewer; StageFinalValidate; StagePublish].

Lemma ex_config_wf : config_wf ex_config.
Proof. unfold config_wf, u64, u64_max, u64_modulus. cbn. lia. Qed.

Lemma ex_run_exit : snd ex_run = Finished (Published (CandidateArtifact_new "final") ex_metrics).
Proof. by vm_compute. Qed.

Lemma review_loop_terminates_witness :
  config_wf ex_config ∧ snd ex_run ≠ OutOfFuel.
Proof.
  split; [exact ex_config_wf|].
  exact (review_loop_terminates ex_config ex_producer ex_validator ex_reviewer ex_reviser
           ex_entropy 0%Z 0 ex_config_wf).
Defined.

Lemma review_loop_bounded_witness :
  exit_metrics (snd ex_run) = Some ex_metrics ∧ (reviewer_attempts ex_metrics + revisions ex_metrics ≤ 18)%Z.
Proof.
  assert (exit_metrics (snd ex_run) = Some ex_metrics) as Hm by by vm_compute.
  split; [exact Hm|].
  apply (review_loop_bounded ex_config ex_producer ex_validator ex_reviewer ex_reviser
           ex_entropy 0%Z 0 ex_metrics ex_config_wf Hm).
Defined.

Lemma review_loop_stages_witness :
  exit_metrics (snd ex_run) = Some ex_metrics ∧
  ∃ stage, exit_stage (snd ex_run) stage ∧ trace 3 2 1 stage (stages ex_metrics).
Proof.
  assert (exit_metrics (snd ex_run) = Some ex_metrics) as Hm by by vm_compute.
  split; [exact Hm|].
  exact (review_loop_stages ex_config ex_producer ex_validator ex_reviewer ex_reviser
           ex_entropy 0%Z 0 ex_metrics ex_config_wf Hm).
Defined.

Lemma review_loop_tool_authority_witness :
  bridge (fst (fst ex_run)) = 2%Z ∧ consumed (tool_budget (fst (fst ex_run))) = 2%Z ∧
  (2 ≤ 0 + 2)%Z ∧ all_closed (fst (fst ex_run)).
Proof.
  assert (counts_dispatches (λ b : Z, b)) as Hc by (intros b call; cbn; lia).
  pose proof (review_loop_tool_authority ex_config ex_producer ex_validator ex_reviewer
    ex_reviser (λ b : Z, b) ex_entropy 0%Z 0 ex_config_wf Hc) as Hr.
  split; [by vm_compute|]. split; [by vm_compute|]. split; [lia|]. apply Hr.
Defined.

Lemma review_loop_publication_witness :
  ∃ st w, ex_run = (st, w, Finished (Published (CandidateArtifact_new "final") ex_metrics)) ∧
    ∃ ids, allocate_with ex_entropy = Ok ids ∧
      certified ex_config ex_validator ex_reviewer ids (CandidateArtifact_new "final") st w.
Proof.
  eexists _, _. split; [by vm_compute|].
  eapply (review_loop_publication ex_config ex_producer ex_validator ex_reviewer ex_reviser
    ex_entropy 0%Z 0 _ _ _ ex_metrics). by vm_compute.
Defined.

Lemma defect_streak_exact_witness :
  snd (observe_all 1 [[ex_defect]; []; [ex_defect]; [ex_defect]] (mk_streak None 0)) = true ∧
  streak_length (history [[ex_defect]; []; [ex_defect]; [ex_defect]]) = 2.
Proof.
  split; [|by vm_compute].
  apply (defect_streak_exact 1 _ [ex_defect]);
    [unfold u64_max, u64_modulus; cbn; lia|lia|done|].
  split; by vm_compute.
Defined.
