(* ===== verification/MultiHop.v ===== *)
(** * Multi-hop questions

    [workflow-review/src/multi_hop.rs]: a question decomposed into hops with the
    evidence that covers them is compiled into a typed envelope.  [Debug],
    [Display] and the derived [Serialize] are not modelled. *)

From S2P Require Import Prelude Hashing.

(** An identifier or text at the boundary: not empty, without control bytes. *)
Definition malformed (s : string) : bool := str_is_empty s || existsb is_ascii_control (str_bytes s).

(** Some item has the key of an earlier one. *)
Fixpoint repeats {A : Type} (key : A → string) (before rest : list A) : bool :=
  match rest with
  | [] => false
  | x :: rest => existsb (λ p, str_eqb (key p) (key x)) before || repeats key (before ++ [x]) rest
  end.

Lemma repeats_false {A} (key : A → string) l :
  repeats key [] l = false ↔ NoDup (map key l).
Proof.
  assert (Hgen : ∀ before, NoDup (map key before) →
    repeats key before l = false ↔ NoDup (map key (before ++ l))).
  { induction l as [|x l IH]; intros before Hb; cbn; [by rewrite app_nil_r|].
    rewrite orb_false_iff, existsb_false_iff.
    assert (Hx : (∀ p, p ∈ before → str_eqb (key p) (key x) = false) ↔ key x ∉ map key before).
    { rewrite list_elem_of_fmap. unfold str_eqb. setoid_rewrite bool_decide_eq_false. naive_solver. }
    rewrite Hx, (cons_middle x before l), app_assoc. split.
    - intros [Hn Hr]. apply IH; [|done]. rewrite map_app. apply NoDup_app. split_and!; [done| |apply NoDup_singleton].
      intros k Hk ->%list_elem_of_singleton. done.
    - intros Hnd. assert (Hpre : NoDup (map key (before ++ [x]))).
      { rewrite map_app in Hnd. by apply NoDup_app in Hnd as [? _]. }
      split; [|by apply IH]. rewrite map_app in Hpre. apply NoDup_app in Hpre as (_ & Hd & _).
      intros Hin. apply (Hd _ Hin). by left. }
  apply Hgen. constructor.
Qed.

(** Every item's key is one of [keys]. *)
Definition unbound {A B : Type} (key : A → string) (key' : B → string) (l : list A) (l' : list B) : bool :=
  existsb (λ x, negb (existsb (λ y, str_eqb (key' y) (key x)) l')) l.

Lemma unbound_false {A B} (key : A → string) (key' : B → string) l l' :
  unbound key key' l l' = false ↔ ∀ k, k ∈ map key l → k ∈ map key' l'.
Proof.
  unfold unbound. rewrite existsb_false_iff.
  assert (Hin : ∀ x, negb (existsb (λ y, str_eqb (key' y) (key x)) l') = false ↔ key x ∈ map key' l').
  { intros x. rewrite negb_false_iff, existsb_true_iff, list_elem_of_fmap. unfold str_eqb.
    setoid_rewrite bool_decide_eq_true. naive_solver. }
  setoid_rewrite Hin. setoid_rewrite list_elem_of_fmap. naive_solver.
Qed.

(** ** Multi-hop questions *)

(*| review/multi_hop.rs 7-10 MultiHopHop *)
Record Hop := mk_Hop { hop_id : string; query : string }.
(*| review/multi_hop.rs 41-44 MultiHopCoverage *)
Record Coverage := mk_Coverage { coverage_hop_id : string; evidence : string }.
(*| review/multi_hop.rs 111-114 MultiHopAttribution *)
Record Attribution := mk_Attribution { attribution_hop_id : string; source : string }.

(** A budget and a coverage predicate are their one number. *)
(*| review/multi_hop.rs 147-154 MultiHopInput *)
Record Input := mk_Input {
  subject : string; hops : list Hop; coverages : list Coverage; budget : option nat;
  coverage_predicate : option nat; attributions : list Attribution }.
(*| review/multi_hop.rs 158-167 MultiHopInput::new *)
Definition Input_new (subject : string) (hops : list Hop) (coverages : list Coverage) : Input :=
  mk_Input subject hops coverages None None [].
(*| review/multi_hop.rs 170-173 MultiHopInput::with_budget *)
Definition with_budget (limit : nat) (i : Input) : Input :=
  mk_Input (subject i) (hops i) (coverages i) (Some limit) (coverage_predicate i) (attributions i).
(*| review/multi_hop.rs 176-179 MultiHopInput::with_coverage_predicate *)
Definition with_coverage_predicate (required : nat) (i : Input) : Input :=
  mk_Input (subject i) (hops i) (coverages i) (budget i) (Some required) (attributions i).
(*| review/multi_hop.rs 182-185 MultiHopInput::with_attributions *)
Definition with_attributions (l : list Attribution) (i : Input) : Input :=
  mk_Input (subject i) (hops i) (coverages i) (budget i) (coverage_predicate i) l.

(*| review/multi_hop.rs 233-237 MultiHopAcknowledgement *)
Record Acknowledgement := mk_Acknowledgement {
  hop_count : nat; covered_count : nat; attributed_count : nat }.
(*| review/multi_hop.rs 259-270 MultiHopDiagnosticKind *)
Inductive DiagnosticKind :=
| UnsupportedCoverage | DroppedHop | BudgetExceeded | CoveragePredicateMiss | MissingAttribution.
(** The code is determined by the kind. *)
(*| review/multi_hop.rs 294-310 MultiHopEnvelope *)
Inductive Envelope :=
| Complete (acknowledgement : Acknowledgement)
| Corrective (diagnostic : DiagnosticKind)
| Incomplete (diagnostic : DiagnosticKind).
(*| review/multi_hop.rs 325-334 MultiHopError *)
Inductive MultiHopError := InvalidSubject | InvalidHop | InvalidCoverage | InvalidAttribution.
#[export] Instance MultiHopError_eq_dec : EqDecision MultiHopError.
Proof. solve_decision. Defined.

(*| review/multi_hop.rs 409-499 validate_boundary *)
Definition validate_boundary (i : Input) : result MultiHopError unit :=
  if malformed (subject i) then Err InvalidSubject
  else if is_nil (hops i) then Err InvalidHop
  else if existsb (λ h, malformed (hop_id h) || malformed (query h)) (hops i) then Err InvalidHop
  else if repeats hop_id [] (hops i) then Err InvalidHop
  else if existsb (λ c, malformed (coverage_hop_id c) || malformed (evidence c)) (coverages i)
  then Err InvalidCoverage
  else if repeats coverage_hop_id [] (coverages i) then Err InvalidCoverage
  else if unbound coverage_hop_id hop_id (coverages i) (hops i) then Err InvalidCoverage
  else if existsb (λ a, malformed (attribution_hop_id a) || malformed (source a)) (attributions i)
  then Err InvalidAttribution
  else if repeats attribution_hop_id [] (attributions i) then Err InvalidAttribution
  else if unbound attribution_hop_id hop_id (attributions i) (hops i) then Err InvalidAttribution
  else Ok tt.

(*| review/multi_hop.rs 501-508 has_dropped_hop *)
Definition has_dropped_hop (i : Input) : bool := unbound hop_id coverage_hop_id (hops i) (coverages i).

(*| review/multi_hop.rs 510-516 coverage_supports_hops *)
Definition coverage_supports_hops (i : Input) : bool :=
  forallb (λ h, existsb (λ c, str_eqb (coverage_hop_id c) (hop_id h) && str_contains (evidence c) (query h))
                  (coverages i)) (hops i).

(*| review/multi_hop.rs 518-522 budget_exceeded *)
Definition budget_exceeded (i : Input) : bool :=
  match budget i with Some limit => (limit <? length (hops i))%nat | None => false end.
(*| review/multi_hop.rs 524-528 coverage_predicate_miss *)
Definition coverage_predicate_miss (i : Input) : bool :=
  match coverage_predicate i with
  | Some required => (length (hops i) <? required)%nat
  | None => false
  end.
(*| review/multi_hop.rs 530-538 missing_attribution *)
Definition missing_attribution (i : Input) : bool :=
  negb (is_nil (attributions i)) && unbound hop_id attribution_hop_id (hops i) (attributions i).

(*| review/multi_hop.rs 355-404 compile_multi_hop *)
Definition compile_multi_hop (i : Input) : result MultiHopError Envelope :=
  validate_boundary i;;
  if has_dropped_hop i then Ok (Incomplete DroppedHop)
  else if budget_exceeded i then Ok (Corrective BudgetExceeded)
  else if negb (coverage_supports_hops i) then Ok (Corrective UnsupportedCoverage)
  else if coverage_predicate_miss i then Ok (Corrective CoveragePredicateMiss)
  else if missing_attribution i then Ok (Corrective MissingAttribution)
  else Ok (Complete (mk_Acknowledgement (length (hops i)) (length (hops i)) (length (attributions i)))).

(** The input is well-formed: texts without control bytes, no identity twice,
    evidence and attributions for declared hops only. *)
Record well_formed (i : Input) : Prop := {
  wf_subject : malformed (subject i) = false;
  wf_some : hops i ≠ [];
  wf_hops h : h ∈ hops i → malformed (hop_id h) = false ∧ malformed (query h) = false;
  wf_once : NoDup (map hop_id (hops i));
  wf_coverage c : c ∈ coverages i → malformed (coverage_hop_id c) = false ∧ malformed (evidence c) = false;
  wf_coverage_once : NoDup (map coverage_hop_id (coverages i));
  wf_coverage_bound k : k ∈ map coverage_hop_id (coverages i) → k ∈ map hop_id (hops i);
  wf_attribution a : a ∈ attributions i →
    malformed (attribution_hop_id a) = false ∧ malformed (source a) = false;
  wf_attribution_once : NoDup (map attribution_hop_id (attributions i));
  wf_attribution_bound k : k ∈ map attribution_hop_id (attributions i) → k ∈ map hop_id (hops i)
}.

Lemma malformed_all {A} (p q : A → string) l :
  existsb (λ x, malformed (p x) || malformed (q x)) l = false ↔
  ∀ x, x ∈ l → malformed (p x) = false ∧ malformed (q x) = false.
Proof. rewrite existsb_false_iff. split; intros Hl x Hx; by apply orb_false_iff, Hl. Qed.

Lemma is_nil_false {A} (l : list A) : is_nil l = false ↔ l ≠ [].
Proof. by destruct l. Qed.

Lemma hop_boundary_Ok i u : validate_boundary i = Ok u ↔ well_formed i.
Proof.
  unfold validate_boundary. rewrite !guard_Ok, !malformed_all, !repeats_false, !unbound_false, is_nil_false.
  destruct u. split.
  - intros (? & ? & ? & ? & ? & ? & ? & ? & ? & ? & _). by split.
  - intros []. tauto.
Qed.

(** Every hop has evidence that contains its query. *)
Definition supported (i : Input) : Prop :=
  ∀ h, h ∈ hops i → ∃ c, c ∈ coverages i ∧ coverage_hop_id c = hop_id h ∧
                         str_contains (evidence c) (query h) = true.

Lemma coverage_supports_true i : coverage_supports_hops i = true ↔ supported i.
Proof.
  unfold coverage_supports_hops, supported. rewrite forallb_true_iff. setoid_rewrite existsb_true_iff.
  setoid_rewrite andb_true_iff. unfold str_eqb. by setoid_rewrite bool_decide_eq_true.
Qed.

Lemma supported_not_dropped i : supported i → has_dropped_hop i = false.
Proof.
  intros Hs. apply unbound_false. intros k (h & -> & Hh)%list_elem_of_fmap.
  destruct (Hs h Hh) as (c & Hc & <- & _). by apply list_elem_of_fmap_2.
Qed.

(** A sublist of keys of the same length has all of them. *)
Lemma all_bound (l k : list string) :
  NoDup l → NoDup k → (∀ x, x ∈ l → x ∈ k) → (∀ x, x ∈ k → x ∈ l) ↔ length l = length k.
Proof.
  intros Hl Hk Hin. split.
  - intros Hout. assert (Hp : l ≡ₚ k) by (apply NoDup_Permutation; [done|done|intros x; split; auto]). by rewrite Hp.
  - intros Hlen x Hx. assert (Hsub : l ⊆+ k) by by apply NoDup_submseteq.
    by rewrite (submseteq_length_Permutation _ _ Hsub ltac:(lia)).
Qed.

(** A question is complete exactly when everything holds.  The compiler
    refuses exactly the inputs that are not well-formed; it answers [Complete]
    exactly when every hop has evidence containing its query, the hops are
    within the budget and enough for the predicate, and the attributions, if
    there are any, cover every hop; and then it counts every hop once as
    declared and covered, and either none or every one as attributed. *)
Theorem multi_hop_complete_exact i :
  ((∃ e, compile_multi_hop i = Err e) ↔ ¬ well_formed i) ∧
  ((∃ a, compile_multi_hop i = Ok (Complete a)) ↔
     well_formed i ∧ supported i ∧
     (∀ limit, budget i = Some limit → length (hops i) ≤ limit) ∧
     (∀ required, coverage_predicate i = Some required → required ≤ length (hops i)) ∧
     (attributions i = [] ∨ length (attributions i) = length (hops i))) ∧
  (∀ a, compile_multi_hop i = Ok (Complete a) →
     a = mk_Acknowledgement (length (hops i)) (length (hops i)) (length (attributions i))).
Proof.
  assert (Hwf := hop_boundary_Ok i). unfold compile_multi_hop.
  destruct (validate_boundary i) as [u|e] eqn:Ev; cbn [mbind result_bind].
  2:{ split_and!; [|split; [by intros [a ?]|]|done].
      - split; [intros _ Hw; by apply (Hwf tt) in Hw|]. intros _. by exists e.
      - intros [Hw _]. by apply (Hwf tt) in Hw. }
  pose proof (proj1 (Hwf u) eq_refl) as Hw. split_and!.
  - split; [|done]. repeat case_match; intros [e He]; discriminate.
  - assert (Hbudget : budget_exceeded i = false ↔ ∀ limit, budget i = Some limit → length (hops i) ≤ limit).
    { unfold budget_exceeded. destruct (budget i); [|naive_solver]. rewrite Nat.ltb_ge. naive_solver. }
    assert (Hpred : coverage_predicate_miss i = false ↔
      ∀ required, coverage_predicate i = Some required → required ≤ length (hops i)).
    { unfold coverage_predicate_miss. destruct (coverage_predicate i); [|naive_solver]. rewrite Nat.ltb_ge. naive_solver. }
    assert (Hattr : missing_attribution i = false ↔
      attributions i = [] ∨ length (attributions i) = length (hops i)).
    { unfold missing_attribution. rewrite andb_false_iff, negb_false_iff, unbound_false.
      assert (Hnil : is_nil (attributions i) = true ↔ attributions i = []) by by destruct (attributions i).
      pose proof (all_bound _ _ (wf_attribution_once i Hw) (wf_once i Hw) (wf_attribution_bound i Hw)) as Hb.
      rewrite !length_map in Hb. tauto. }
    rewrite <- Hbudget, <- Hpred, <- Hattr, <- coverage_supports_true. split.
    + intros [a E]. destruct (has_dropped_hop i); [done|]. destruct (budget_exceeded i); [done|].
      destruct (coverage_supports_hops i); [|done]. destruct (coverage_predicate_miss i); [done|].
      by destruct (missing_attribution i).
    + intros (_ & Hs & -> & -> & ->). rewrite Hs. apply coverage_supports_true in Hs.
      rewrite supported_not_dropped by done. by eexists.
  - intros a. repeat case_match; intros E; try discriminate. by injection E.
Qed.

(** A dropped hop is reported before anything else, an exceeded budget before
    missing support. *)
Lemma multi_hop_order i :
  well_formed i →
  (has_dropped_hop i = true → compile_multi_hop i = Ok (Incomplete DroppedHop)) ∧
  (has_dropped_hop i = false → budget_exceeded i = true →
     compile_multi_hop i = Ok (Corrective BudgetExceeded)).
Proof.
  intros Hw. unfold compile_multi_hop. rewrite (proj2 (hop_boundary_Ok i tt) Hw). cbn [mbind result_bind].
  split; [by intros ->|by intros -> ->].
Qed.

(** ** Example *)

Definition ex_hops : Input :=
  with_attributions [mk_Attribution "a" "wiki"; mk_Attribution "b" "log"]
    (with_budget 2
       (Input_new "q" [mk_Hop "a" "who"; mk_Hop "b" "when"]
          [mk_Coverage "b" "when it rained"; mk_Coverage "a" "who did it"])).

Example multi_hop_example :
  compile_multi_hop ex_hops = Ok (Complete (mk_Acknowledgement 2 2 2)) ∧
  compile_multi_hop (with_budget 1 ex_hops) = Ok (Corrective BudgetExceeded).
Proof. vm_compute. done. Qed.
