(* ===== verification/GroundedAnswer.v ===== *)
(** * Grounded answers

    [workflow-review/src/grounded_answer.rs]: an answer with claims, citations
    and reviewers' votes is compiled into a typed envelope.  [Debug], [Display]
    and the derived [Serialize] are not modelled. *)

From S2P Require Import Prelude Hashing Review MultiHop.

Section grounded.
Context `{Sha256}.

(*| review/grounded_answer.rs 10-13 GroundedAnswerClaim *)
Record Claim := mk_Claim { claim_text : string; citation_ids : list string }.
(*| review/grounded_answer.rs 44-47 GroundedAnswerCitation *)
Record Citation := mk_Citation { citation_id : string; evidence : string }.
(*| review/grounded_answer.rs 80-86 GroundedAnswerInput *)
Record Input := mk_Input {
  subject : string; answer : string; claims : list Claim; citations : list Citation;
  review_votes : list ReviewVote }.
(*| review/grounded_answer.rs 90-98 GroundedAnswerInput::new *)
Definition Input_new (subject answer : string) (votes : list ReviewVote) : Input :=
  mk_Input subject answer [] [] votes.
(*| review/grounded_answer.rs 101-109 GroundedAnswerInput::with_claims *)
Definition with_claims (claims : list Claim) (citations : list Citation) (i : Input) : Input :=
  mk_Input (subject i) (answer i) claims citations (review_votes i).

(*| review/grounded_answer.rs 152-155 GroundedAnswerPublicationAck *)
Record PublicationAck := mk_PublicationAck { answer_len : nat; answer_sha256 : string }.
(*| review/grounded_answer.rs 172-177 GroundedAnswerDiagnosticKind *)
Inductive DiagnosticKind := ReviewDeferred | UnsupportedClaim.
(*| review/grounded_answer.rs 201-212 GroundedAnswerEnvelope *)
Inductive Envelope := Published (acknowledgement : PublicationAck) | Abstained (diagnostic : DiagnosticKind).
(*| review/grounded_answer.rs 244-263 GroundedAnswerError *)
Inductive GroundedAnswerError :=
| InvalidSubject | EmptyAnswer | InvalidAnswer | InvalidClaim | InvalidCitation | MissingReview
| MixedReviewSubject | ReviewSubjectMismatch | ReviewResolutionFailed.

(*| review/grounded_answer.rs 348-385 validate_claim_boundaries *)
Definition validate_claim_boundaries (claims : list Claim) (citations : list Citation) :
    result GroundedAnswerError unit :=
  if is_nil claims && negb (is_nil citations) then Err InvalidCitation
  else if existsb (λ c, malformed (claim_text c) || is_nil (citation_ids c) ||
                        existsb malformed (citation_ids c)) claims
  then Err InvalidClaim
  else if existsb (λ c, malformed (citation_id c) || malformed (evidence c)) citations
  then Err InvalidCitation
  else if repeats citation_id [] citations then Err InvalidCitation
  else Ok tt.

(*| review/grounded_answer.rs 331-346 validate_boundary *)
Definition validate_boundary (i : Input) : result GroundedAnswerError unit :=
  if malformed (subject i) then Err InvalidSubject
  else if str_is_empty (answer i) then Err EmptyAnswer
  else if existsb is_ascii_control (str_bytes (answer i)) then Err InvalidAnswer
  else
    validate_claim_boundaries (claims i) (citations i);;
    if is_nil (review_votes i) then Err MissingReview else Ok tt.

(*| review/grounded_answer.rs 387-395 claims_are_supported *)
Definition claims_are_supported (i : Input) : bool :=
  forallb (λ claim,
    forallb (λ id, existsb (λ c, str_eqb (citation_id c) id && str_contains (evidence c) (claim_text claim))
                     (citations i)) (citation_ids claim)) (claims i).

(*| review/grounded_answer.rs 397-408 map_review_error *)
Definition map_review_error {source : Type} (e : ReviewError source) : GroundedAnswerError :=
  match e with
  | EmptyReviewerSet => MissingReview
  | MixedSubjectIdentity => MixedReviewSubject
  | _ => ReviewResolutionFailed
  end.

(*| review/grounded_answer.rs 294-329 compile_grounded_answer *)
Definition compile_grounded_answer (i : Input) : result GroundedAnswerError Envelope :=
  validate_boundary i;;
  if negb (claims_are_supported i) then Ok (Abstained UnsupportedClaim)
  else
    disposition ← map_err map_review_error (resolve_disposition (source := unit) (review_votes i));
    if existsb (λ v, negb (str_eqb (Review.subject v) (subject i))) (review_votes i)
    then Err ReviewSubjectMismatch
    else Ok match disposition with
            | Accept => Published (mk_PublicationAck (String.length (answer i)) (hex (sha256 (answer i))))
            | Defer => Abstained ReviewDeferred
            end.

(** The texts at the boundary are well-formed. *)
Record well_formed (i : Input) : Prop := {
  wf_subject : malformed (subject i) = false;
  wf_answer : malformed (answer i) = false;
  wf_cited : claims i = [] → citations i = [];
  wf_claims c : c ∈ claims i → malformed (claim_text c) = false ∧ citation_ids c ≠ [] ∧
                  ∀ id, id ∈ citation_ids c → malformed id = false;
  wf_citations c : c ∈ citations i → malformed (citation_id c) = false ∧ malformed (evidence c) = false;
  wf_once : NoDup (map citation_id (citations i));
  wf_votes : review_votes i ≠ []
}.

Lemma validate_boundary_Ok i u : validate_boundary i = Ok u ↔ well_formed i.
Proof.
  unfold validate_boundary. rewrite !guard_Ok, bind_Ok.
  assert (Hclaims : ∀ u, validate_claim_boundaries (claims i) (citations i) = Ok u ↔
    is_nil (claims i) && negb (is_nil (citations i)) = false ∧
    (∀ c, c ∈ claims i → malformed (claim_text c) = false ∧ citation_ids c ≠ [] ∧
       ∀ id, id ∈ citation_ids c → malformed id = false) ∧
    (∀ c, c ∈ citations i → malformed (citation_id c) = false ∧ malformed (evidence c) = false) ∧
    NoDup (map citation_id (citations i))).
  { intros []. unfold validate_claim_boundaries.
    rewrite !guard_Ok, MultiHop.malformed_all, repeats_false, existsb_false_iff.
    assert (Hone : ∀ c, malformed (claim_text c) || is_nil (citation_ids c) || existsb malformed (citation_ids c) = false ↔
      malformed (claim_text c) = false ∧ citation_ids c ≠ [] ∧ ∀ id, id ∈ citation_ids c → malformed id = false).
    { intros c. rewrite !orb_false_iff, existsb_false_iff, MultiHop.is_nil_false. tauto. }
    split.
    - intros (? & Hcl & ? & ? & _). split_and!; try done. intros c Hin. by apply Hone, Hcl.
    - intros (? & Hcl & ? & ?). split_and!; try done. intros c Hin. by apply Hone, Hcl. }
  assert (Hc : is_nil (claims i) && negb (is_nil (citations i)) = false ↔ (claims i = [] → citations i = [])).
  { destruct (claims i), (citations i); naive_solver. }
  destruct u. split.
  - intros (? & Ha & Hb & [] & (Hn & ? & ? & ?)%Hclaims & [Hv%MultiHop.is_nil_false _]%guard_Ok).
    split; try done; [|by apply Hc]. unfold malformed. by rewrite Ha, Hb.
  - intros [? Ha Hn ? ? ? Hv]. apply orb_false_iff in Ha as [? ?]. split_and!; try done. exists tt.
    split; [by apply Hclaims; rewrite Hc|]. apply guard_Ok. by split; [apply MultiHop.is_nil_false|].
Qed.

(** Every citation of every claim is evidence that contains the claim. *)
Definition grounded (i : Input) : Prop :=
  ∀ claim id, claim ∈ claims i → id ∈ citation_ids claim →
    ∃ c, c ∈ citations i ∧ citation_id c = id ∧ str_contains (evidence c) (claim_text claim) = true.

Lemma claims_are_supported_true i : claims_are_supported i = true ↔ grounded i.
Proof.
  unfold claims_are_supported, grounded. rewrite forallb_true_iff. setoid_rewrite forallb_true_iff.
  setoid_rewrite existsb_true_iff. setoid_rewrite andb_true_iff. unfold str_eqb.
  setoid_rewrite bool_decide_eq_true. naive_solver.
Qed.

(** An answer is published exactly when it is grounded and unanimously
    accepted: the input is well-formed, every citation of every claim is evidence
    that contains the complete claim, there is a vote, and every vote is about
    this subject and passes.  The acknowledgement then identifies the answer by
    its length and digest; an answer that is not grounded or not unanimous is
    never published. *)
Theorem grounded_answer_published_exact i ack :
  compile_grounded_answer i = Ok (Published ack) ↔
  well_formed i ∧ grounded i ∧
  (∀ v, v ∈ review_votes i → Review.subject v = subject i ∧ vote_verdict v = Pass) ∧
  ack = mk_PublicationAck (String.length (answer i)) (hex (sha256 (answer i))).
Proof.
  unfold compile_grounded_answer. rewrite bind_Ok. setoid_rewrite validate_boundary_Ok.
  rewrite <- claims_are_supported_true.
  assert (Hsub : existsb (λ v, negb (str_eqb (Review.subject v) (subject i))) (review_votes i) = false ↔
    ∀ v, v ∈ review_votes i → Review.subject v = subject i).
  { rewrite existsb_false_iff. setoid_rewrite negb_false_iff. unfold str_eqb. by setoid_rewrite bool_decide_eq_true. }
  split.
  - intros (_ & Hw & E). destruct (claims_are_supported i); [|done]. cbn [negb] in E.
    destruct (resolve_cases (source := unit) (review_votes i))
      as [(? & ? & Er)|[(? & ? & Er)|[(? & Ho & Hu & Er)|(? & ? & ? & Er)]]];
      rewrite Er in E; cbn [map_err mbind result_bind] in E; try done.
    + apply guard_Ok in E as [Hs [= <-]]. split_and!; [done..| |done]. intros v Hv.
      split; [by apply Hsub|by apply Hu].
    + apply guard_Ok in E as [_ [=]].
  - intros (Hw & Hg & Hv & ->). exists tt. split; [done|]. rewrite Hg. cbn [negb].
    destruct (resolve_cases (source := unit) (review_votes i))
      as [(He & ? & Er)|[(? & Hn & Er)|[(? & Ho & Hu & Er)|(? & ? & Hn & Er)]]];
      rewrite Er; cbn [map_err mbind result_bind].
    + by apply wf_votes in Hw.
    + destruct Hn. intros a b Ha Hb. by rewrite (proj1 (Hv a Ha)), (proj1 (Hv b Hb)).
    + apply guard_Ok. split; [|done]. apply Hsub. intros v Hin. by apply Hv.
    + destruct Hn. intros v Hin. by apply Hv.
Qed.
End grounded.

(** ** Example *)

Definition ex_answer (evidence : string) : Input :=
  with_claims [mk_Claim "it rained" ["log"]]
    [mk_Citation "log" evidence]
    (Input_new "q" "yes" [mk_ReviewVote "q" Pass]).

Example grounded_answer_example :
  (∃ ack, compile_grounded_answer (H := λ s, s) (ex_answer "today it rained.") =
     Ok (Published ack)) ∧
  compile_grounded_answer (H := λ s, s) (ex_answer "today it") =
     Ok (Abstained UnsupportedClaim).
Proof. split; [eexists|]; vm_compute; done. Qed.
