(* ===== verification/Text.v ===== *)
(** * Text functions of the standard library

    [str::trim_start], [str::trim().is_empty()], [str::strip_prefix],
    [str::find] and [str::to_ascii_lowercase] on UTF-8 bytes.  A Unicode
    whitespace scalar is matched by its bytes: U+0009..U+000D, U+0020, U+0085,
    U+00A0, U+1680, U+2000..U+200A, U+2028, U+2029, U+202F, U+205F, U+3000. *)

From stdpp Require Import pretty.
From S2P Require Import Prelude.

#[local] Arguments String.append !_ _ /.

Definition byte_in (lo hi : N) (c : ascii) : bool := ((lo <=? byte_N c) && (byte_N c <=? hi))%N.
Definition byte_eq (n : N) (c : ascii) : bool := (byte_N c =? n)%N.

(** The whitespace scalars of one, two and three bytes. *)
Definition ws1 (a : ascii) : bool := byte_in 9 13 a || byte_eq 32 a.
Definition ws2 (a b : ascii) : bool := byte_eq 194 a && (byte_eq 133 b || byte_eq 160 b).
Definition ws3 (a b c : ascii) : bool :=
  byte_eq 225 a && byte_eq 154 b && byte_eq 128 c ||
  byte_eq 226 a && byte_eq 128 b &&
    (byte_in 128 138 c || byte_eq 168 c || byte_eq 169 c || byte_eq 175 c) ||
  byte_eq 226 a && byte_eq 129 b && byte_eq 159 c ||
  byte_eq 227 a && byte_eq 128 b && byte_eq 128 c.

(** [str::trim_start]. *)
Fixpoint trim_start (s : string) : string :=
  match s with
  | EmptyString => EmptyString
  | String a rest =>
      if ws1 a then trim_start rest
      else match rest with
      | EmptyString => s
      | String b rest' =>
          if ws2 a b then trim_start rest'
          else match rest' with
          | EmptyString => s
          | String c rest'' => if ws3 a b c then trim_start rest'' else s
          end
      end
  end.

(** [s.trim().is_empty()]: nothing is left once the leading whitespace is gone. *)
Definition is_blank (s : string) : bool := str_is_empty (trim_start s).

(** [str::strip_prefix] for a [str] prefix. *)
Fixpoint strip_prefix (prefix s : string) : option string :=
  match prefix with
  | EmptyString => Some s
  | String a prefix =>
      match s with
      | EmptyString => None
      | String b s => if Ascii.eqb a b then strip_prefix prefix s else None
      end
  end.

(** [str::find] for a [str] needle, as the text before it and the text after. *)
Fixpoint split_once (needle s : string) : option (string * string) :=
  match strip_prefix needle s with
  | Some after => Some (EmptyString, after)
  | None =>
      match s with
      | EmptyString => None
      | String a s =>
          match split_once needle s with
          | Some (before, after) => Some (String a before, after)
          | None => None
          end
      end
  end.

(** [str::chars().any(char::is_control)]: U+0000..U+001F, U+007F and, in two
    bytes, U+0080..U+009F. *)
Fixpoint any_control (s : string) : bool :=
  match s with
  | EmptyString => false
  | String a rest =>
      is_ascii_control a ||
      byte_eq 194 a && (match rest with String b _ => byte_in 128 159 b | _ => false end) ||
      any_control rest
  end.

(** [trim_start_matches] for a byte predicate. *)
Fixpoint skip_while (p : ascii → bool) (s : string) : string :=
  match s with
  | EmptyString => EmptyString
  | String a rest => if p a then skip_while p rest else s
  end.

Definition to_lower (c : ascii) : ascii :=
  if is_ascii_upper c then Ascii.ascii_of_N (byte_N c + 32) else c.
Fixpoint to_ascii_lowercase (s : string) : string :=
  match s with
  | EmptyString => EmptyString
  | String c s => String (to_lower c) (to_ascii_lowercase s)
  end.

(** [u8::is_ascii_whitespace]: space, tab, line feed, form feed, return. *)
Definition is_ascii_whitespace (c : ascii) : bool :=
  byte_eq 32 c || byte_eq 9 c || byte_eq 10 c || byte_eq 12 c || byte_eq 13 c.

(** [str::trim_end]: a suffix of whitespace scalars starts at a first byte. *)
Fixpoint trim_end (s : string) : string :=
  match s with
  | EmptyString => EmptyString
  | String c rest => if is_blank s then EmptyString else String c (trim_end rest)
  end.
(** [str::trim]. *)
Definition trim (s : string) : string := trim_end (trim_start s).

(** [trim_end_matches] and [trim_matches] for a byte predicate. *)
Fixpoint trim_end_while (p : ascii → bool) (s : string) : string :=
  match s with
  | EmptyString => EmptyString
  | String c rest =>
      let rest := trim_end_while p rest in
      if p c && str_is_empty rest then EmptyString else String c rest
  end.
Definition trim_while (p : ascii → bool) (s : string) : string := trim_end_while p (skip_while p s).

(** [str::split] for a byte predicate: always at least one part. *)
Fixpoint split_at (p : ascii → bool) (s : string) : list string :=
  match s with
  | EmptyString => [""]
  | String c rest =>
      if p c then "" :: split_at p rest
      else match split_at p rest with
      | part :: parts => String c part :: parts
      | [] => [String c ""]
      end
  end.

(** [str::lines]: a last empty line is none, and a return before the line feed
    belongs to it. *)
Fixpoint strip_return (s : string) : string :=
  match s with
  | EmptyString => EmptyString
  | String c EmptyString => if byte_eq 13 c then EmptyString else s
  | String c rest => String c (strip_return rest)
  end.
Fixpoint lines_of (parts : list string) : list string :=
  match parts with
  | [] | [EmptyString] => []
  | [last] => [last]
  | part :: parts => strip_return part :: lines_of parts
  end.
Definition lines (s : string) : list string := lines_of (split_at (byte_eq 10) s).

(** ** [String::from_utf8_lossy] *)

(** The ranges of the continuation bytes after a first byte; [None] for a byte
    that starts no character. *)
Definition utf8_ranges (b : N) : option (list (N * N)) :=
  let cont := (128, 191)%N in
  (if b <? 128 then Some []
   else if (194 <=? b) && (b <=? 223) then Some [cont]
   else if b =? 224 then Some [(160, 191); cont]
   else if b =? 237 then Some [(128, 159); cont]
   else if (225 <=? b) && (b <=? 239) then Some [cont; cont]
   else if b =? 240 then Some [(144, 191); cont; cont]
   else if b =? 244 then Some [(128, 143); cont; cont]
   else if (241 <=? b) && (b <=? 243) then Some [cont; cont; cont]
   else None)%N.

(** The continuation bytes present, the rest, and whether they are complete. *)
Fixpoint take_ranges (ranges : list (N * N)) (s : string) : string * string * bool :=
  match ranges, s with
  | [], s => ("", s, true)
  | (lo, hi) :: ranges, String b s' =>
      if ((lo <=? byte_N b) && (byte_N b <=? hi))%N
      then let '(taken, rest, ok) := take_ranges ranges s' in (String b taken, rest, ok)
      else ("", s, false)
  | _, EmptyString => ("", "", false)
  end.

(** U+FFFD, for each maximal invalid part. *)
Definition replacement_character : string := string_of_list_ascii (map ascii_of_nat [239; 191; 189]).

Fixpoint utf8_lossy (fuel : nat) (s : string) : string :=
  match fuel, s with
  | S fuel, String b s =>
      match utf8_ranges (byte_N b) with
      | None => replacement_character +:+ utf8_lossy fuel s
      | Some ranges =>
          let '(taken, rest, ok) := take_ranges ranges s in
          (if ok then String b taken else replacement_character) +:+ utf8_lossy fuel rest
      end
  | _, _ => ""
  end.
(** Every step consumes a byte. *)
Definition from_utf8_lossy (s : string) : string := utf8_lossy (String.length s) s.

(** ** Properties *)

Lemma strip_prefix_Some p s t : strip_prefix p s = Some t ↔ s = p +:+ t.
Proof.
  revert s. induction p as [|a p IH]; intros s; cbn; [naive_solver|].
  destruct s as [|b s]; [naive_solver|]. destruct (Ascii.eqb_spec a b) as [->|Hne].
  - rewrite IH. naive_solver.
  - naive_solver.
Qed.

(** [needle] does not occur in [s]. *)
Definition lacks (needle s : string) : Prop := ∀ u v, s ≠ u +:+ needle +:+ v.

Lemma lacks_cons needle a s :
  lacks needle (String a s) ↔ strip_prefix needle (String a s) = None ∧ lacks needle s.
Proof.
  unfold lacks. split.
  - intros Hl. split.
    + destruct (strip_prefix needle (String a s)) as [t|] eqn:E; [|done].
      apply strip_prefix_Some in E. by destruct (Hl "" t).
    + intros u v ->. by destruct (Hl (String a u) v).
  - intros [Hp Hs] [|b u] v E; cbn in E.
    + assert (strip_prefix needle (String a s) = Some v) by (by apply strip_prefix_Some). congruence.
    + injection E as -> E. by apply (Hs u v).
Qed.

Lemma split_once_None needle s : split_once needle s = None ↔ lacks needle s.
Proof.
  induction s as [|a s IH].
  - cbn. destruct (strip_prefix needle "") as [t|] eqn:E.
    + split; [done|]. intros Hl. apply strip_prefix_Some in E. by destruct (Hl "" t).
    + split; [|done]. intros _ [|b u] v Eu; [|done]. cbn in Eu.
      assert (strip_prefix needle "" = Some v) by (by apply strip_prefix_Some). congruence.
  - rewrite lacks_cons, <-IH. cbn [split_once].
    destruct (strip_prefix needle (String a s)); [naive_solver|].
    destruct (split_once needle s) as [[]|]; naive_solver.
Qed.

Lemma split_once_Some needle s before after :
  split_once needle s = Some (before, after) → s = before +:+ needle +:+ after.
Proof.
  revert before. induction s as [|a s IH]; intros before; cbn [split_once].
  - destruct (strip_prefix needle "") eqn:E; [|done]. apply strip_prefix_Some in E.
    intros [= <- <-]. done.
  - destruct (strip_prefix needle (String a s)) eqn:E.
    + apply strip_prefix_Some in E. intros [= <- <-]. done.
    + destruct (split_once needle s) as [[b af]|]; [|done]. intros [= <- <-].
      by rewrite (IH b eq_refl) at 1.
Qed.

Lemma skip_while_suffix p s : ∃ u, s = u +:+ skip_while p s.
Proof.
  induction s as [|a s [u IH]]; [by exists ""|]. cbn. destruct (p a).
  - exists (String a u). cbn. by rewrite <-IH.
  - by exists "".
Qed.

Lemma split_once_first needle s before after :
  needle ≠ "" → split_once needle s = Some (before, after) → lacks needle before.
Proof.
  intros Hne. revert before. induction s as [|a s IH]; intros before; cbn [split_once].
  - destruct (strip_prefix needle "") eqn:E; [|done]. intros [= <- <-] [|? u] v E'; [|done].
    cbn in E'. destruct needle; done.
  - destruct (strip_prefix needle (String a s)) eqn:E.
    { intros [= <- <-] [|? u] v E'; [|done]. cbn in E'. by destruct needle. }
    destruct (split_once needle s) as [[b af]|] eqn:Es; [|done]. intros [= <- <-].
    apply lacks_cons. split; [|by apply IH].
    destruct (strip_prefix needle (String a b)) as [t|] eqn:Et; [|done].
    apply strip_prefix_Some in Et. apply split_once_Some in Es.
    assert (strip_prefix needle (String a s) = Some (t +:+ needle +:+ af)); [|congruence].
    apply strip_prefix_Some. rewrite Es. change (String a (b +:+ needle +:+ af)) with (String a b +:+ needle +:+ af).
    by rewrite Et, str_app_assoc.
Qed.

(** The characters of a string. *)
Definition has_char (c : ascii) (s : string) : bool := str_any (Ascii.eqb c) s.

Lemma strip_prefix_stops p c x y :
  has_char c p = false → strip_prefix p x = None → strip_prefix p (x +:+ String c y) = None.
Proof.
  revert x. induction p as [|a p IH]; intros x Hc; cbn; [done|].
  unfold has_char, str_any in Hc. cbn in Hc. apply orb_false_iff in Hc as [Hca Hcp].
  destruct x as [|b x]; cbn.
  - intros _. destruct (Ascii.eqb_spec a c) as [->|]; [|done]. by rewrite Ascii.eqb_refl in Hca.
  - destruct (Ascii.eqb a b); [by apply IH|done].
Qed.

(** An occurrence cannot cross a character the needle does not have. *)
Lemma lacks_separated needle b c rest :
  needle ≠ "" → has_char c needle = false → lacks needle b → lacks needle rest →
  lacks needle (b +:+ String c rest).
Proof.
  intros Hne Hc Hb Hr. induction b as [|a b IH]; cbn.
  - apply lacks_cons. split; [|done].
    destruct needle as [|n needle]; [done|].
    apply (strip_prefix_stops _ c "" rest Hc). done.
  - apply lacks_cons in Hb as [Hp Hb]. apply lacks_cons. split; [|by apply IH].
    by apply (strip_prefix_stops _ c (String a b) rest).
Qed.

(** A number is written with digits. *)
Lemma pretty_digits (n : N) : str_all is_ascii_digit (pretty n) = true.
Proof.
  assert (Hgo : ∀ n s, str_all is_ascii_digit s = true → str_all is_ascii_digit (pretty_N_go n s) = true).
  { intros m. induction (N.lt_wf_0 m) as [m _ IH]. intros s Hs.
    destruct (decide (0 < m)%N) as [Hm|Hm].
    - rewrite pretty_N_go_step by done. apply IH; [apply N.div_lt; lia|].
      unfold str_all in *. cbn [str_bytes forallb]. rewrite Hs, andb_true_r.
      pose proof (N.mod_lt m 10 ltac:(lia)) as Hlt. revert Hlt. generalize (m mod 10)%N. intros k Hk.
      assert (k ∈ (N.of_nat <$> seq 0 10)) as Hin.
      { apply list_elem_of_fmap. exists (N.to_nat k). rewrite elem_of_seq. lia. }
      cbn in Hin. set_unfold in Hin. destruct_or? Hin; subst; done.
    - assert (m = 0%N) as -> by lia. by rewrite pretty_N_go_0. }
  unfold pretty, pretty_N. case_decide; [done|]. by apply Hgo.
Qed.
