(* ===== verification/Package.v ===== *)
(** * Workflow packages

    [workflow-review/src/package.rs]: the manifest of an archive and the checks
    of its entries - safe paths, declared digests, no executables and nothing
    that looks like a secret. *)

From S2P Require Import Prelude Hashing Text.

Definition PACKAGE_SCHEMA_VERSION_V1 : Z := 1.

(*| review/package.rs 10-13 PackageFile *)
Record PackageFile := mk_PackageFile { file_path : string; file_sha256 : string }.
#[export] Instance PackageFile_eq_dec : EqDecision PackageFile.
Proof. solve_decision. Defined.
(*| review/package.rs 35-38 PackageManifest *)
Record PackageManifest := mk_PackageManifest { schema_version : Z; files : list PackageFile }.
(*| review/package.rs 42-47 PackageManifest::new *)
Definition PackageManifest_new (files : list PackageFile) : PackageManifest :=
  mk_PackageManifest PACKAGE_SCHEMA_VERSION_V1 files.
(*| review/package.rs 62-66 PackageArchiveEntry *)
Record PackageArchiveEntry := mk_PackageArchiveEntry {
  entry_path : string; entry_bytes : string; executable : bool }.

(*| review/package.rs 118-139 PackageValidationError *)
Inductive PackageValidationError :=
| InvalidManifest | UnsupportedSchemaVersion | PathEscape | InvalidDigest | DuplicatePath
| UnexpectedFile | MissingFile | HashMismatch | ExecutableFile | SecretDetected.
#[export] Instance PackageValidationError_eq_dec : EqDecision PackageValidationError.
Proof. solve_decision. Defined.

Definition is_separator (c : ascii) : bool := Ascii.eqb c "/" || Ascii.eqb c "\".
Definition starts_with_separator (s : string) : bool :=
  match s with String c _ => is_separator c | EmptyString => false end.

(*| review/package.rs 250-261 ensure_safe_path *)
Definition ensure_safe_path (path : string) : result PackageValidationError unit :=
  if str_is_empty path || starts_with_separator path || str_contains path ":" then Err PathEscape
  else if existsb (λ component, str_is_empty component || str_eqb component "." || str_eqb component "..")
            (split_at is_separator path)
  then Err PathEscape
  else Ok tt.

(*| review/package.rs 263-268 is_sha256 *)
Definition is_sha256 (value : string) : bool :=
  (str_len value =? 64)%Z && str_all (λ byte, is_ascii_digit byte || byte_in 97 102 byte) value.

Definition one_of (words : list string) (s : string) : bool := existsb (str_eqb s) words.

Definition PATH_WORDS : list string := ["secret"; "secrets"; "credential"; "credentials"; "token"].
Definition MARKERS : list string :=
  ["canary_secret_56"; "canary_secret_"; "password"; "api_key"; "private_key"; "client_secret";
   "credential"].
Definition KEY_WORDS : list string := ["secret"; "token"; "password"; "api_key"; "client_secret"].
Definition is_quote (c : ascii) : bool := byte_eq 34 c || byte_eq 39 c.

(** A line that assigns something to a word. *)
Definition assigns_secret (line : string) : bool :=
  match split_once "=" line with
  | None => false
  | Some (key, value) =>
      let key := to_ascii_lowercase (trim_while is_quote (trim key)) in
      negb (str_is_empty (trim value)) && one_of KEY_WORDS key
  end.

(*| review/package.rs 275-307 contains_secret_like_data *)
Definition contains_secret_like_data (path bytes : string) : bool :=
  let path := to_ascii_lowercase path in
  let content := to_ascii_lowercase (from_utf8_lossy bytes) in
  if existsb (one_of PATH_WORDS) (split_at is_separator path) then true
  else if existsb (str_contains content) MARKERS then true
  else existsb assigns_secret (lines content).

(*| review/package.rs 238-248 validate_secret_free_fixture *)
Definition validate_secret_free_fixture (path bytes : string) : result PackageValidationError unit :=
  ensure_safe_path path;;
  if contains_secret_like_data path bytes then Err SecretDetected else Ok tt.

Section package.
Context `{Sha256}.

(** [items[..index].iter().any(..)] for each item of the list, in order. *)
Fixpoint check_each {A : Type} (check : list A → A → result PackageValidationError unit)
    (before rest : list A) : result PackageValidationError unit :=
  match rest with
  | [] => Ok tt
  | x :: rest => check before x;; check_each check (before ++ [x]) rest
  end.

(*| review/package.rs 180-191 validate_package *)
Definition check_file (previous : list PackageFile) (file : PackageFile) :
    result PackageValidationError unit :=
  ensure_safe_path (file_path file);;
  if negb (is_sha256 (file_sha256 file)) then Err InvalidDigest
  else if existsb (λ p, str_eqb (file_path p) (file_path file)) previous then Err DuplicatePath
  else Ok tt.
(*| review/package.rs 193-201 validate_package *)
Definition check_entry_path (previous : list PackageArchiveEntry) (entry : PackageArchiveEntry) :
    result PackageValidationError unit :=
  ensure_safe_path (entry_path entry);;
  if existsb (λ p, str_eqb (entry_path p) (entry_path entry)) previous then Err DuplicatePath
  else Ok tt.
(*| review/package.rs 203-219 validate_package *)
Definition check_entry (manifest : PackageManifest) (entry : PackageArchiveEntry) :
    result PackageValidationError unit :=
  if executable entry then Err ExecutableFile
  else if contains_secret_like_data (entry_path entry) (entry_bytes entry) then Err SecretDetected
  else match List.find (λ f, str_eqb (file_path f) (entry_path entry)) (files manifest) with
  | None => Err UnexpectedFile
  | Some declared =>
      if negb (str_eqb (hex (sha256 (entry_bytes entry))) (file_sha256 declared)) then Err HashMismatch
      else Ok tt
  end.

(*| review/package.rs 172-235 validate_package *)
Definition validate_package (manifest : PackageManifest) (entries : list PackageArchiveEntry) :
    result PackageValidationError unit :=
  if negb (schema_version manifest =? PACKAGE_SCHEMA_VERSION_V1)%Z then Err UnsupportedSchemaVersion
  else
    check_each check_file [] (files manifest);;
    check_each check_entry_path [] entries;;
    for_each (check_entry manifest) entries;;
    if existsb (λ f, negb (existsb (λ e, str_eqb (entry_path e) (file_path f)) entries)) (files manifest)
    then Err MissingFile
    else if existsb (λ e, negb (existsb (λ f, str_eqb (file_path f) (entry_path e)) (files manifest))) entries
    then Err UnexpectedFile
    else Ok tt.
End package.

(** ** What is accepted *)

(** A relative path that stays below the root of the archive: extracting it
    component by component never leaves the directory. *)
Fixpoint stays_below (depth : nat) (components : list string) : Prop :=
  match components with
  | [] => True
  | c :: rest =>
      if str_eqb c ".." then match depth with O => False | S depth => stays_below depth rest end
      else if str_is_empty c || str_eqb c "." then stays_below depth rest
      else stays_below (S depth) rest
  end.

Definition safe_path (path : string) : Prop :=
  path ≠ "" ∧ starts_with_separator path = false ∧ str_contains path ":" = false ∧
  Forall (λ c, c ≠ "" ∧ c ≠ "." ∧ c ≠ "..") (split_at is_separator path).

Lemma ensure_safe_path_Ok path u : ensure_safe_path path = Ok u ↔ safe_path path.
Proof.
  unfold ensure_safe_path, safe_path. rewrite guard_Ok, !orb_false_iff, str_is_empty_false, guard_Ok.
  rewrite existsb_false_iff, Forall_forall. destruct u.
  setoid_rewrite orb_false_iff. setoid_rewrite orb_false_iff. setoid_rewrite str_is_empty_false.
  unfold str_eqb. setoid_rewrite bool_decide_eq_false. naive_solver.
Qed.

Lemma safe_path_stays path depth : safe_path path → stays_below depth (split_at is_separator path).
Proof.
  intros (_ & _ & _ & Hc). revert depth. induction Hc as [|c cs (Hne & Hd & Hdd) Hc IH]; intros depth; [done|].
  cbn. unfold str_eqb. rewrite !bool_decide_eq_false_2 by done.
  apply str_is_empty_false in Hne as ->. apply IH.
Qed.

Section accepted.
Context `{Sha256}.

Lemma check_each_Ok {A} (check : list A → A → result PackageValidationError unit) before rest u :
  check_each check before rest = Ok u ↔
  ∀ i x, rest !! i = Some x → ∃ v, check (before ++ take i rest) x = Ok v.
Proof.
  revert before. induction rest as [|x rest IH]; intros before; cbn.
  { destruct u. split; [|done]. by intros _ i x. }
  rewrite bind_Ok. setoid_rewrite IH. split.
  - intros ([] & Hx & Hr) [|i] y Hy; cbn in *.
    + injection Hy as <-. exists tt. by rewrite app_nil_r.
    + rewrite cons_middle, app_assoc. by apply Hr.
  - intros Hall. destruct (Hall 0 x eq_refl) as [v Hv]. cbn in Hv. rewrite app_nil_r in Hv.
    exists v. split; [done|]. intros i y Hy. destruct (Hall (S i) y Hy) as [w Hw].
    exists w. cbn in Hw. by rewrite cons_middle, app_assoc in Hw.
Qed.

(** No item has the key of an earlier one. *)
Lemma no_earlier {A} (key : A → string) l :
  (∀ i x, l !! i = Some x → existsb (λ p, str_eqb (key p) (key x)) (take i l) = false) ↔ NoDup (map key l).
Proof.
  rewrite NoDup_alt. split.
  - intros Hl i j k Hi Hj.
    apply list_lookup_fmap_Some in Hi as (x & -> & Hx), Hj as (y & E & Hy).
    assert (Hno : ∀ i j x y, i < j → l !! i = Some x → l !! j = Some y → key x ≠ key y).
    { intros a b p q Hab Hp Hq Heq. specialize (Hl b q Hq). rewrite existsb_false_iff in Hl.
      specialize (Hl p). rewrite Heq in Hl. unfold str_eqb in Hl. rewrite bool_decide_eq_true_2 in Hl by done.
      assert (p ∈ take b l); [|naive_solver]. apply list_elem_of_lookup. exists a. by rewrite lookup_take_lt. }
    destruct (Nat.lt_trichotomy i j) as [Hlt|[->|Hlt]]; [|done|].
    + by destruct (Hno i j x y).
    + by destruct (Hno j i y x).
  - intros Hnd i x Hx. apply existsb_false_iff. intros p [j Hj]%list_elem_of_lookup.
    apply bool_decide_eq_false. intros E. apply lookup_take_Some in Hj as [Hj Hlt].
    assert (j = i); [|lia]. apply (Hnd j i (key x)); apply list_lookup_fmap_Some; eauto.
Qed.

Record package_ok (manifest : PackageManifest) (entries : list PackageArchiveEntry) : Prop := {
  ok_version : schema_version manifest = PACKAGE_SCHEMA_VERSION_V1;
  ok_digests : Forall (λ f, is_sha256 (file_sha256 f) = true) (files manifest);
  ok_declared_once : NoDup (map file_path (files manifest));
  ok_present_once : NoDup (map entry_path entries);
  ok_same_paths : map file_path (files manifest) ≡ₚ map entry_path entries;
  ok_safe : Forall (λ e, safe_path (entry_path e)) entries;
  ok_content e f : e ∈ entries → f ∈ files manifest → file_path f = entry_path e →
    hex (sha256 (entry_bytes e)) = file_sha256 f;
  ok_plain : Forall (λ e, executable e = false ∧
               contains_secret_like_data (entry_path e) (entry_bytes e) = false) entries
}.

Lemma path_in {A} (key : A → string) l path :
  existsb (λ x, str_eqb (key x) path) l = true ↔ path ∈ map key l.
Proof.
  rewrite existsb_true_iff, list_elem_of_fmap. unfold str_eqb. setoid_rewrite bool_decide_eq_true. naive_solver.
Qed.

Lemma all_in {A B} (key : A → string) (key' : B → string) l l' :
  existsb (λ x, negb (existsb (λ y, str_eqb (key' y) (key x)) l')) l = false ↔
  ∀ path, path ∈ map key l → path ∈ map key' l'.
Proof.
  rewrite existsb_false_iff. split.
  - intros Hl path (x & -> & Hx)%list_elem_of_fmap. apply Hl, negb_false_iff in Hx. by apply path_in.
  - intros Hl x Hx. apply negb_false_iff, path_in, Hl. apply list_elem_of_fmap. by exists x.
Qed.

Lemma check_entry_Ok manifest entry u :
  NoDup (map file_path (files manifest)) →
  check_entry manifest entry = Ok u ↔
  executable entry = false ∧ contains_secret_like_data (entry_path entry) (entry_bytes entry) = false ∧
  entry_path entry ∈ map file_path (files manifest) ∧
  ∀ f, f ∈ files manifest → file_path f = entry_path entry → hex (sha256 (entry_bytes entry)) = file_sha256 f.
Proof.
  intros Hnd. unfold check_entry. rewrite !guard_Ok.
  destruct (List.find _ (files manifest)) as [f|] eqn:E.
  - apply find_Some_iff in E as [Hin E]. apply str_eqb_eq in E. rewrite guard_Ok, negb_false_iff, str_eqb_eq.
    destruct u. split.
    + intros (He & Hs & Hh & _). split_and!; [done..| |].
      * rewrite <- E. by apply list_elem_of_fmap_2.
      * intros g Hg Eg. assert (g = f) as ->; [|done]. apply (NoDup_map_inj_on file_path (files manifest)); congruence.
    + naive_solver.
  - rewrite find_None_iff in E. split; [naive_solver|]. intros (_ & _ & (f & Ef & Hf)%list_elem_of_fmap & _).
    apply E in Hf. apply bool_decide_eq_false in Hf. congruence.
Qed.

Lemma check_entry_path_all entries u :
  check_each check_entry_path [] entries = Ok u ↔
  Forall (λ e, safe_path (entry_path e)) entries ∧ NoDup (map entry_path entries).
Proof.
  rewrite check_each_Ok, <- no_earlier, Forall_lookup. unfold check_entry_path. split.
  - intros Hall. split; intros i x Hx; destruct (Hall i x Hx) as [[] Hv];
      apply bind_Ok in Hv as (v & Hs & [Hd _]%guard_Ok); [by apply ensure_safe_path_Ok in Hs|done].
  - intros [Hs Hd] i x Hx. exists tt. apply bind_Ok. exists tt. split; [by apply ensure_safe_path_Ok, (Hs i)|].
    apply guard_Ok. split; [by apply Hd|done].
Qed.

Lemma check_file_all fs u :
  check_each check_file [] fs = Ok u ↔
  Forall (λ f, safe_path (file_path f) ∧ is_sha256 (file_sha256 f) = true) fs ∧ NoDup (map file_path fs).
Proof.
  rewrite check_each_Ok, <- no_earlier, Forall_lookup. unfold check_file. split.
  - intros Hall. split; intros i x Hx; destruct (Hall i x Hx) as [[] Hv];
      apply bind_Ok in Hv as (v & Hs & [Hh [Hd _]%guard_Ok]%guard_Ok); [|done].
    split; [by apply ensure_safe_path_Ok in Hs|by apply negb_false_iff].
  - intros [Hs Hd] i x Hx. destruct (Hs i x Hx) as [Hp Hh]. exists tt. apply bind_Ok. exists tt.
    split; [by apply ensure_safe_path_Ok|]. apply guard_Ok. split; [by apply negb_false_iff|].
    apply guard_Ok. split; [by apply Hd|done].
Qed.

(** C23. A package is accepted exactly when the archive is what the manifest
    declares: version 1, every path declared once and present once, the two sets
    of paths equal and safe - relative, staying inside the archive's root - every
    content with its declared digest, and no executable and nothing that looks
    like a secret. *)
Theorem package_validation_exact manifest entries :
  (validate_package manifest entries = Ok tt ↔ package_ok manifest entries) ∧
  (validate_package manifest entries = Ok tt → Forall (λ e, stays_below 0 (split_at is_separator (entry_path e))) entries).
Proof.
  assert (Hex : validate_package manifest entries = Ok tt ↔ package_ok manifest entries).
  { unfold validate_package. rewrite guard_Ok, negb_false_iff, Z.eqb_eq, bind_Ok. split.
    - intros (Hv & u & [Hf Hfn]%check_file_all & (u' & [He Hen]%check_entry_path_all & E)%bind_Ok).
      apply bind_Ok in E as (u'' & Hc & E). rewrite for_each_Ok in Hc.
      apply guard_Ok in E as [Hm [Hu _]%guard_Ok]. pose proof (proj1 (all_in _ _ _ _) Hm) as Hm'.
      pose proof (proj1 (all_in _ _ _ _) Hu) as Hu'.
      assert (Hall : ∀ e, e ∈ entries → executable e = false ∧
        contains_secret_like_data (entry_path e) (entry_bytes e) = false ∧
        ∀ f, f ∈ files manifest → file_path f = entry_path e → hex (sha256 (entry_bytes e)) = file_sha256 f).
      { intros e Hin. specialize (Hc e Hin). apply check_entry_Ok in Hc; [|done].
        by destruct Hc as (? & ? & _ & ?). }
      split; try done.
      + eapply Forall_impl; [exact Hf|]. by intros f [_ ?].
      + by apply NoDup_Permutation; [done..|]; intros path; split; [apply Hm'|apply Hu'].
      + intros e f Hin. apply Hall. done.
      + apply Forall_forall. intros e Hin. destruct (Hall e Hin) as (? & ? & _). done.
    - intros [Hv Hd Hfn Hen Hp Hs Hc Hpl]. split; [done|]. exists tt. split.
      { apply check_file_all. split; [|done]. apply Forall_forall. intros f Hf. split.
        - assert (Hin : file_path f ∈ map entry_path entries) by (rewrite <- Hp; by apply list_elem_of_fmap_2).
          apply list_elem_of_fmap in Hin as (e & -> & He). by apply (proj1 (Forall_forall _ _) Hs).
        - by apply (proj1 (Forall_forall _ _) Hd). }
      apply bind_Ok. exists tt. split; [by apply check_entry_path_all|]. apply bind_Ok. exists tt. split.
      { apply for_each_Ok. intros e He. apply check_entry_Ok; [done|].
        destruct (proj1 (Forall_forall _ _) Hpl e He) as [Hx Hsec]. split_and!; [done..| |].
        - rewrite Hp. by apply list_elem_of_fmap_2.
        - intros f. by apply Hc. }
      apply guard_Ok. split; [apply all_in; intros path; by rewrite Hp|].
      apply guard_Ok. split; [apply all_in; intros path; by rewrite Hp|done]. }
  split; [done|]. intros [_ _ _ _ _ Hs _ _]%Hex. eapply Forall_impl; [exact Hs|].
  intros e He. by apply safe_path_stays.
Qed.
End accepted.
