(* ===== verification/Spec.v ===== *)
(** * The workflow specification

    [workflow-spec/src/lib.rs] and [agent_contract.rs]: the source-level
    workflow and the checks [parse_str] makes once TOML and serde have decoded
    the document into its raw form (a parameter of [parse_str]).  A newtype
    around [String] is a [string]; a [BTreeMap]'s entries are visited in the
    byte order of their keys. *)

From S2P Require Import Prelude.

(*| spec/lib.rs 21-21 WORKFLOW_SCHEMA_VERSION_V1 *)
Definition WORKFLOW_SCHEMA_VERSION_V1 : Z := 1.

(*| spec/lib.rs 24-25 RESERVED_SKILL_TOOL_NAMES *)
Definition RESERVED_SKILL_TOOL_NAMES : list string :=
  ["activate_skill"; "read_skill_resource"; "run_skill_script"].

(*| spec/lib.rs 28-30 is_reserved_skill_tool_name *)
Definition is_reserved_skill_tool_name (name : string) : bool :=
  existsb (str_eqb name) RESERVED_SKILL_TOOL_NAMES.

(*| spec/lib.rs 231-231 NodeId *)
Definition NodeId : Type := string.

(*| spec/lib.rs 243-256 NodeKind *)
Inductive NodeKind := Agent | Action | Validator | Registered | Approval | Terminal.
#[export] Instance NodeKind_eq_dec : EqDecision NodeKind.
Proof. solve_decision. Defined.

(*| spec/lib.rs 336-341 ModelRole *)
Inductive ModelRole := Worker | ReviewerRole.
#[export] Instance ModelRole_eq_dec : EqDecision ModelRole.
Proof. solve_decision. Defined.

(*| spec/lib.rs 345-349 ModelReference *)
Record ModelReference := mk_ModelReference {
  model_role : ModelRole; model_id : string; model_version : string }.
#[export] Instance ModelReference_eq_dec : EqDecision ModelReference.
Proof. solve_decision. Defined.

(*| spec/lib.rs 370-373 ToolReference *)
Record ToolReference := mk_ToolReference { tool_ref_id : string; tool_ref_version : string }.
#[export] Instance ToolReference_eq_dec : EqDecision ToolReference.
Proof. solve_decision. Defined.

(*| spec/lib.rs 389-392 SkillReference *)
Record SkillReference := mk_SkillReference { skill_id : string; skill_version : string }.
#[export] Instance SkillReference_eq_dec : EqDecision SkillReference.
Proof. solve_decision. Defined.

(*| spec/lib.rs 182-185 ResourceReference *)
Record ResourceReference := mk_ResourceReference {
  resource_path : string; resource_sha256 : string }.
#[export] Instance ResourceReference_eq_dec : EqDecision ResourceReference.
Proof. solve_decision. Defined.

(*| spec/lib.rs 434-439 TrajectoryObserverMode *)
Inductive TrajectoryObserverMode := Disabled | Semantic.
#[export] Instance TrajectoryObserverMode_eq_dec : EqDecision TrajectoryObserverMode.
Proof. solve_decision. Defined.

(*| spec/lib.rs 424-429 TrajectoryPolicy *)
Record TrajectoryPolicy := mk_TrajectoryPolicy {
  trajectory_version : Z; observer_mode : option TrajectoryObserverMode }.
#[export] Instance TrajectoryPolicy_eq_dec : EqDecision TrajectoryPolicy.
Proof. solve_decision. Defined.

(*| spec/lib.rs 411-416 BehavioralPolicy *)
Record BehavioralPolicy := mk_BehavioralPolicy {
  behavioral_version : Z; max_steps : Z; behavioral_timeout_ms : Z;
  trajectory : option TrajectoryPolicy }.
#[export] Instance BehavioralPolicy_eq_dec : EqDecision BehavioralPolicy.
Proof. solve_decision. Defined.

(*| spec/lib.rs 445-452 UntrustedTextPreparation *)
Record UntrustedTextPreparation := mk_UntrustedTextPreparation {
  preparation_version : Z; max_input_bytes : Z; lang_en : bool; lang_zh : bool;
  lang_ja : bool; behavioral : option BehavioralPolicy }.
#[export] Instance UntrustedTextPreparation_eq_dec : EqDecision UntrustedTextPreparation.
Proof. solve_decision. Defined.

(*| spec/lib.rs 1138-1141 FirewallContract *)
Record FirewallContract := mk_FirewallContract {
  firewall_version : Z; firewall_identity : string }.
#[export] Instance FirewallContract_eq_dec : EqDecision FirewallContract.
Proof. solve_decision. Defined.

(** ** Agent contracts *)

(*| spec/agent_contract.rs 9-14 SessionMode *)
Inductive SessionMode := Isolated | Shared.
#[export] Instance SessionMode_eq_dec : EqDecision SessionMode.
Proof. solve_decision. Defined.

(*| spec/agent_contract.rs 18-28 AgentContractError *)
Inductive AgentContractError :=
| EmptyField (field : string) | DuplicateStateKey | InvalidSession.

(*| spec/agent_contract.rs 32-35 InstructionContract *)
Record InstructionContract := mk_InstructionContract {
  instruction_path : string; instruction_sha256 : string }.
#[export] Instance InstructionContract_eq_dec : EqDecision InstructionContract.
Proof. solve_decision. Defined.

(*| spec/agent_contract.rs 38-51 InstructionContract::new *)
Definition InstructionContract_new (path sha256 : string) :
    result AgentContractError InstructionContract :=
  if str_is_empty path then Err (EmptyField "instruction.path")
  else if str_is_empty sha256 then Err (EmptyField "instruction.sha256")
  else Ok (mk_InstructionContract path sha256).

(*| spec/agent_contract.rs 69-80 InputContract::new *)
Fixpoint InputContract_check (seen : list string) (state_keys : list string) :
    result AgentContractError unit :=
  match state_keys with
  | [] => Ok tt
  | key :: keys =>
      if str_is_empty key then Err (EmptyField "input.state_keys")
      else if bool_decide (key ∈ seen) then Err DuplicateStateKey
      else InputContract_check (seen ++ [key]) keys
  end.

(*| spec/agent_contract.rs 89-92 OutputContract *)
Record OutputContract := mk_OutputContract {
  output_state_key : string; output_schema : string }.
#[export] Instance OutputContract_eq_dec : EqDecision OutputContract.
Proof. solve_decision. Defined.

(*| spec/agent_contract.rs 95-108 OutputContract::new *)
Definition OutputContract_new (state_key schema : string) :
    result AgentContractError OutputContract :=
  if str_is_empty state_key then Err (EmptyField "output.state_key")
  else if str_is_empty schema then Err (EmptyField "output.schema")
  else Ok (mk_OutputContract state_key schema).

(*| spec/agent_contract.rs 121-126 AgentNodeContract *)
Record AgentNodeContract := mk_AgentNodeContract {
  contract_instruction : InstructionContract;
  input_state_keys : list string;
  contract_output : OutputContract;
  contract_session : SessionMode }.
#[export] Instance AgentNodeContract_eq_dec : EqDecision AgentNodeContract.
Proof. solve_decision. Defined.

(** ** The workflow *)

(*| spec/lib.rs 456-469 Node *)
Record Node := mk_Node {
  node_id : NodeId; node_kind : NodeKind; timeout_ms : option Z; max_visits : option Z;
  idempotent : bool; node_resources : list ResourceReference;
  model : option ModelReference; tools : list ToolReference; skills : list SkillReference;
  agent_contract : option AgentNodeContract;
  untrusted_text : option UntrustedTextPreparation; firewall : option FirewallContract }.

(*| spec/lib.rs 555-558 Edge *)
Record Edge := mk_Edge { edge_from : NodeId; edge_to : NodeId }.
#[export] Instance Edge_eq_dec : EqDecision Edge.
Proof. solve_decision. Defined.

(*| spec/lib.rs 593-596 PredicateReference *)
Record PredicateReference := mk_PredicateReference {
  predicate_id : string; predicate_version : string }.
#[export] Instance PredicateReference_eq_dec : EqDecision PredicateReference.
Proof. solve_decision. Defined.

(*| spec/lib.rs 612-615 RouteCase *)
Record RouteCase := mk_RouteCase { case_key : string; case_target : NodeId }.
#[export] Instance RouteCase_eq_dec : EqDecision RouteCase.
Proof. solve_decision. Defined.

(*| spec/lib.rs 562-567 PredicateRoute *)
Record PredicateRoute := mk_PredicateRoute {
  route_from : NodeId; predicate : PredicateReference; cases : list RouteCase;
  route_default : option NodeId }.
#[export] Instance PredicateRoute_eq_dec : EqDecision PredicateRoute.
Proof. solve_decision. Defined.

(*| spec/lib.rs 663-668 StateKey *)
Record StateKey := mk_StateKey {
  key_name : string; key_schema_id : string; key_schema_version : string;
  handle : option string }.
#[export] Instance StateKey_eq_dec : EqDecision StateKey.
Proof. solve_decision. Defined.

(*| spec/lib.rs 632-637 StateSpec *)
Record StateSpec := mk_StateSpec {
  state_schema_id : string; state_schema_version : string;
  required_keys : list string; state_keys : list StateKey }.
#[export] Instance StateSpec_eq_dec : EqDecision StateSpec.
Proof. solve_decision. Defined.

(*| spec/lib.rs 694-707 CompactStateEndpoint *)
Inductive CompactStateEndpoint :=
| CodeInvestigation | GroundedAnswerEndpoint | MultiHopEndpoint | ReviewEndpoint.
#[export] Instance CompactStateEndpoint_eq_dec : EqDecision CompactStateEndpoint.
Proof. solve_decision. Defined.

(*| spec/lib.rs 711-714 CompactStateExchange *)
Record CompactStateExchange := mk_CompactStateExchange {
  exchange_from : CompactStateEndpoint; exchange_to : CompactStateEndpoint }.
#[export] Instance CompactStateExchange_eq_dec : EqDecision CompactStateExchange.
Proof. solve_decision. Defined.

(*| spec/lib.rs 173-178 Workflow *)
Record Workflow := mk_Workflow {
  workflow_id : string; workflow_version : string; entry : NodeId;
  workflow_resources : list ResourceReference }.

(*| spec/lib.rs 118-127 WorkflowSpec *)
Record WorkflowSpec := mk_WorkflowSpec {
  workflow : Workflow; nodes : list Node; edges : list Edge;
  routes : list PredicateRoute; state : option StateSpec;
  compact_state_exchange : option CompactStateExchange;
  resources : list ResourceReference }.

(** ** The decoded document and its checks *)

(*| spec/lib.rs 1228-1233 RawStateKey *)
Record RawStateKey := mk_RawStateKey {
  raw_key_schema_id : string; raw_key_schema_version : string; raw_handle : option string }.

(*| spec/lib.rs 1218-1224 RawState *)
Record RawState := mk_RawState {
  raw_schema_id : string; raw_schema_version : string; raw_required_keys : gset string;
  raw_keys : gmap string RawStateKey }.

(*| spec/lib.rs 1194-1200 RawPredicateRoute *)
Record RawPredicateRoute := mk_RawPredicateRoute {
  raw_from : string; raw_predicate : PredicateReference; raw_cases : gmap string string;
  raw_default : option string }.

(*| spec/lib.rs 1103-1132 RawNode *)
Record RawNode := mk_RawNode {
  raw_id : string; raw_kind : NodeKind; raw_timeout_ms : option Z;
  raw_max_visits : option Z; raw_idempotent : bool;
  raw_node_resources : list ResourceReference; raw_model : option ModelReference;
  raw_tools : list ToolReference; raw_skills : list SkillReference;
  raw_instruction : option (string * string); raw_input : option (list string);
  raw_output : option (string * string); raw_session : option string;
  raw_untrusted_text : option UntrustedTextPreparation;
  raw_firewall : option FirewallContract }.

(*| spec/lib.rs 1076-1089 RawWorkflowSpec *)
Record RawWorkflowSpec := mk_RawWorkflowSpec {
  raw_schema_version_u32 : Z; raw_workflow : Workflow; raw_nodes : list RawNode;
  raw_edges : list Edge; raw_routes : list RawPredicateRoute; raw_state : option RawState;
  raw_exchange : option CompactStateExchange; raw_resources : list ResourceReference }.

(*| spec/lib.rs 742-781 SpecError *)
Inductive SpecError (D : Type) :=
| Decode (error : D)
| UnsupportedSchemaVersion (found : Z)
| InvalidNodeBinding.
Arguments Decode {D} error.
Arguments UnsupportedSchemaVersion {D} found.
Arguments InvalidNodeBinding {D}.

(** [all] with a growing set of identities. *)
Fixpoint all_fresh {A : Type} `{EqDecision A} (ok : A → bool) (seen l : list A) : bool :=
  match l with
  | [] => true
  | x :: l => ok x && negb (bool_decide (x ∈ seen)) && all_fresh ok (x :: seen) l
  end.

(*| spec/lib.rs 967-975 valid_tools *)
Definition valid_tools (ts : list ToolReference) : bool :=
  all_fresh (λ t, negb (str_is_empty (tool_ref_id t)) &&
                  negb (str_is_empty (tool_ref_version t)) &&
                  negb (is_reserved_skill_tool_name (tool_ref_id t))) [] ts.

(*| spec/lib.rs 977-984 valid_skills *)
Definition valid_skills (ss : list SkillReference) : bool :=
  all_fresh (λ s, negb (str_is_empty (skill_id s)) && negb (str_is_empty (skill_version s)))
    [] ss.

(*| spec/lib.rs 986-993 valid_skill_versions *)
Fixpoint versions_agree (versions : gmap string string) (ss : list SkillReference) : bool :=
  match ss with
  | [] => true
  | s :: ss =>
      match versions !! skill_id s with
      | None => true
      | Some version => str_eqb version (skill_version s)
      end && versions_agree (<[skill_id s := skill_version s]> versions) ss
  end.

Definition valid_skill_versions (ns : list RawNode) : bool :=
  versions_agree ∅ (concat (map raw_skills ns)).

Section parse.
Context {D : Type}.

Definition invalid_binding {A : Type} (r : result AgentContractError A) :
    result (SpecError D) A := map_err (λ _, InvalidNodeBinding) r.

(*| spec/lib.rs 932-965 parse_agent_contract *)
Definition parse_agent_contract (node : RawNode) :
    result (SpecError D) (option AgentNodeContract) :=
  match raw_instruction node, raw_input node, raw_output node, raw_session node with
  | None, None, None, None => Ok None
  | Some (path, sha256), Some keys, Some (state_key, schema), Some session =>
      instruction ← invalid_binding (InstructionContract_new path sha256);
      invalid_binding (InputContract_check [] keys);;
      output ← invalid_binding (OutputContract_new state_key schema);
      session ← (if str_eqb session "isolated" then Ok Isolated
                 else if str_eqb session "shared" then Ok Shared
                 else Err InvalidNodeBinding);
      Ok (Some (mk_AgentNodeContract instruction keys output session))
  | _, _, _, _ => Err InvalidNodeBinding
  end.

(*| spec/lib.rs 842-876 parse_str *)
Definition parse_node (node : RawNode) : result (SpecError D) Node :=
  contract ← parse_agent_contract node;
  Ok (mk_Node (raw_id node) (raw_kind node) (raw_timeout_ms node) (raw_max_visits node)
        (raw_idempotent node) (raw_node_resources node) (raw_model node) (raw_tools node)
        (raw_skills node) contract (raw_untrusted_text node) (raw_firewall node)).

Definition parse_route (route : RawPredicateRoute) : PredicateRoute :=
  mk_PredicateRoute (raw_from route) (raw_predicate route)
    (map (λ e, mk_RouteCase (fst e) (snd e)) (btree_entries (raw_cases route)))
    (raw_default route).

Definition parse_state (s : RawState) : StateSpec :=
  mk_StateSpec (raw_schema_id s) (raw_schema_version s) (btree_elements (raw_required_keys s))
    (map (λ e, mk_StateKey (fst e) (raw_key_schema_id (snd e))
                 (raw_key_schema_version (snd e)) (raw_handle (snd e)))
       (btree_entries (raw_keys s))).

(** A node binding rejected before anything else is looked at. *)
Definition binding_rejected (node : RawNode) : bool :=
  match raw_model node with
  | Some m => str_is_empty (model_id m) || str_is_empty (model_version m)
  | None => false
  end || negb (valid_tools (raw_tools node)) || negb (valid_skills (raw_skills node)).

(** [decode] is TOML and serde: it fails or yields the raw document. *)
(*| spec/lib.rs 784-930 parse_str *)
Definition parse_str (decode : string → result D RawWorkflowSpec) (toml : string) :
    result (SpecError D) WorkflowSpec :=
  raw ← map_err Decode (decode toml);
  if existsb binding_rejected (raw_nodes raw) || negb (valid_skill_versions (raw_nodes raw))
  then Err InvalidNodeBinding
  else if negb (raw_schema_version_u32 raw =? WORKFLOW_SCHEMA_VERSION_V1)%Z
  then Err (UnsupportedSchemaVersion (raw_schema_version_u32 raw))
  else
    ns ← traverse parse_node (raw_nodes raw);
    Ok (mk_WorkflowSpec (raw_workflow raw) ns (raw_edges raw)
          (map parse_route (raw_routes raw)) (parse_state <$> raw_state raw)
          (raw_exchange raw) (raw_resources raw)).
End parse.
