(* ===== verification/Order.v ===== *)
(** * Comparators

    [Ord::cmp] as a function to [comparison], [Ordering::then] as [lex], derived
    lexicographic orders, and the stable sort [slice::sort_by] with its
    uniqueness: the sorted list depends only on which elements are sorted. *)

From S2P Require Import Prelude.

(** A total preorder, and a comparator whose [Eq] is equality. *)
Class Comparator {A : Type} (cmp : A → A → comparison) : Prop := {
  cmp_flip x y : cmp y x = CompOpp (cmp x y);
  cmp_trans x y z : cmp x y ≠ Gt → cmp y z ≠ Gt → cmp x z ≠ Gt
}.
Class CmpExact {A : Type} (cmp : A → A → comparison) : Prop :=
  cmp_exact x y : cmp x y = Eq → x = y.

(** [Ordering::then]. *)
Definition lex (c d : comparison) : comparison :=
  match c with Eq => d | _ => c end.
Definition cmp_by {A B : Type} (f : A → B) (cmp : B → B → comparison) (x y : A) : comparison :=
  cmp (f x) (f y).
Definition cmp_then {A : Type} (c d : A → A → comparison) (x y : A) : comparison :=
  lex (c x y) (d x y).

(** The derived orders of [Vec] and [Option]. *)
Fixpoint cmp_list {A : Type} (cmp : A → A → comparison) (l k : list A) : comparison :=
  match l, k with
  | [], [] => Eq
  | [], _ => Lt
  | _, [] => Gt
  | x :: l, y :: k => lex (cmp x y) (cmp_list cmp l k)
  end.
Definition cmp_option {A : Type} (cmp : A → A → comparison) (o p : option A) : comparison :=
  match o, p with
  | None, None => Eq
  | None, _ => Lt
  | _, None => Gt
  | Some x, Some y => cmp x y
  end.

Lemma cmp_Eq_between {A} (cmp : A → A → comparison) `{!Comparator cmp} x y z :
  cmp x y ≠ Gt → cmp y z ≠ Gt → cmp x z = Eq → cmp x y = Eq ∧ cmp y z = Eq.
Proof.
  intros Hxy Hyz Hxz.
  assert (Hzx : cmp z x ≠ Gt) by (rewrite (cmp_flip x z), Hxz; done).
  assert (Hyx := cmp_trans _ _ _ Hyz Hzx). assert (Hzy := cmp_trans _ _ _ Hzx Hxy).
  rewrite (cmp_flip x y) in Hyx. rewrite (cmp_flip y z) in Hzy.
  destruct (cmp x y), (cmp y z); done.
Qed.

#[export] Instance string_cmp : Comparator String.compare.
Proof.
  split; [intros x y; apply String.compare_antisym|]. intros x y z Hxy Hyz.
  assert (Hle : ∀ a b, String.compare a b ≠ Gt ↔ String.le a b).
  { intros a b. unfold String.le, String.leb. by destruct (String.compare a b). }
  rewrite Hle in *. by etrans.
Qed.
#[export] Instance string_cmp_exact : CmpExact String.compare.
Proof. intros x y. apply String.compare_eq_iff. Qed.

#[export] Instance Z_cmp : Comparator Z.compare.
Proof.
  split; [intros x y; apply Z.compare_antisym|]. intros x y z ??.
  by apply (Z.le_trans x y z).
Qed.
#[export] Instance Z_cmp_exact : CmpExact Z.compare.
Proof. intros x y. apply Z.compare_eq. Qed.

#[export] Instance cmp_by_comparator {A B} (f : A → B) cmp `{!Comparator cmp} :
  Comparator (cmp_by f cmp).
Proof. split; unfold cmp_by; intros; [apply cmp_flip|by eapply cmp_trans]. Qed.

#[export] Instance cmp_then_comparator {A} (c d : A → A → comparison)
    `{!Comparator c, !Comparator d} : Comparator (cmp_then c d).
Proof.
  split; unfold cmp_then.
  - intros x y. rewrite (cmp_flip x y), (cmp_flip (cmp := d) x y). by destruct (c x y).
  - intros x y z Hxy Hyz.
    assert (Hc : ∀ a b, lex (c a b) (d a b) ≠ Gt →
                        c a b ≠ Gt ∧ (c a b = Eq → d a b ≠ Gt)).
    { intros a b. by destruct (c a b). }
    apply Hc in Hxy as [Hxy Hd1]. apply Hc in Hyz as [Hyz Hd2].
    assert (Hxz := cmp_trans _ _ _ Hxy Hyz).
    destruct (c x z) eqn:E; cbn; [|done..].
    destruct (cmp_Eq_between c x y z) as [??]; [done..|].
    eapply (cmp_trans (cmp := d)); eauto.
Qed.

#[export] Instance cmp_list_comparator {A} (cmp : A → A → comparison) `{!Comparator cmp} :
  Comparator (cmp_list cmp).
Proof.
  split.
  - intros l. induction l as [|x l IH]; intros [|y k]; cbn; try done.
    rewrite (cmp_flip x y), (IH k). by destruct (cmp x y).
  - intros l. induction l as [|x l IH]; intros [|y k] [|z m]; cbn; try done.
    intros Hxy Hyz.
    assert (Hc : ∀ a b (e : comparison), lex (cmp a b) e ≠ Gt →
                        cmp a b ≠ Gt ∧ (cmp a b = Eq → e ≠ Gt)).
    { intros a b e. by destruct (cmp a b). }
    apply Hc in Hxy as [Hxy Hd1]. apply Hc in Hyz as [Hyz Hd2].
    assert (Hxz := cmp_trans _ _ _ Hxy Hyz).
    destruct (cmp x z) eqn:E; cbn; [|done..].
    destruct (cmp_Eq_between cmp x y z) as [??]; [done..|].
    eapply IH; eauto.
Qed.

#[export] Instance cmp_option_comparator {A} (cmp : A → A → comparison) `{!Comparator cmp} :
  Comparator (cmp_option cmp).
Proof.
  split.
  - intros [x|] [y|]; cbn; try done. apply cmp_flip.
  - intros [x|] [y|] [z|]; cbn; try done. apply cmp_trans.
Qed.

Lemma lex_Eq c d : lex c d = Eq ↔ c = Eq ∧ d = Eq.
Proof. destruct c; naive_solver. Qed.

#[export] Instance cmp_list_exact {A} (cmp : A → A → comparison) `{!CmpExact cmp} :
  CmpExact (cmp_list cmp).
Proof.
  intros l. induction l as [|x l IH]; intros [|y k]; cbn; try done.
  rewrite lex_Eq. intros [->%cmp_exact ->%IH]. done.
Qed.
#[export] Instance cmp_option_exact {A} (cmp : A → A → comparison) `{!CmpExact cmp} :
  CmpExact (cmp_option cmp).
Proof. intros [x|] [y|]; cbn; try done. by intros ->%cmp_exact. Qed.

(** ** Sorting *)

Section sort_by.
Context {A : Type} (cmp : A → A → comparison) `{!Comparator cmp}.

Definition le_by (x y : A) : Prop := cmp x y ≠ Gt.
#[export] Instance le_by_dec : RelDecision le_by.
Proof. intros x y. unfold le_by. apply _. Defined.
#[export] Instance le_by_trans : Transitive le_by.
Proof. intros x y z. apply cmp_trans. Qed.
#[export] Instance le_by_total : Total le_by.
Proof.
  intros x y. unfold le_by. rewrite (cmp_flip (cmp:=cmp) x y).
  destruct (cmp x y); cbn; by (left + right).
Qed.

(** [l.sort_by(cmp)]: stable. *)
Definition sort_by (l : list A) : list A := merge_sort le_by l.

Lemma sort_by_Permutation l : sort_by l ≡ₚ l.
Proof. apply merge_sort_Permutation. Qed.

Lemma sort_by_unique l1 l2 :
  (∀ x y, x ∈ l1 → y ∈ l1 → cmp x y = Eq → x = y) →
  l1 ≡ₚ l2 → sort_by l1 = sort_by l2.
Proof.
  intros Hexact Hp.
  apply (StronglySorted_unique_strong le_by);
    [|apply (StronglySorted_merge_sort _)..|by rewrite !sort_by_Permutation].
  intros x y Hx Hy Hxy Hyx. apply Hexact.
  - by rewrite sort_by_Permutation in Hx.
  - by rewrite Hp, <-(sort_by_Permutation l2).
  - unfold le_by in *. rewrite (cmp_flip (cmp:=cmp) x y) in Hyx. by destruct (cmp x y).
Qed.

Lemma sort_by_unique_exact `{!CmpExact cmp} l1 l2 :
  l1 ≡ₚ l2 → sort_by l1 = sort_by l2.
Proof. apply sort_by_unique. intros x y _ _. apply cmp_exact. Qed.
End sort_by.
