(* ===== verification/Search.v ===== *)
(** * Graph traversals

    The traversals of [workflow-compiler/src/lib.rs] on index-based adjacency
    lists: the worklist search behind [reachability_from] and the second pass of
    [cyclic_components], and the explicit-stack depth-first search of its first
    pass.  Every index stored in an adjacency list is in range (the adjacency is
    built from positions of the node list), so the code's indexing does not
    panic and a lookup out of range, [[]] or [false] here, is not made. *)

From stdpp Require Import relations.
From S2P Require Import Prelude.

(*| compiler/lib.rs 439-439 Adjacency *)
Definition Adjacency : Type := list (list nat).

Definition edge (adj : Adjacency) (u v : nat) : Prop := v ∈ adj !!! u.
(** Every target is the position of a node. *)
Definition wf_adj (adj : Adjacency) : Prop :=
  ∀ u v, edge adj u v → u < length adj ∧ v < length adj.
(** [marks[v]] of a [Vec<bool>]. *)
Definition marked (marks : list bool) (v : nat) : bool := default false (marks !! v).

(** ** Definitions *)

(** [for &next in nexts { if !marks[next] { marks[next] = true; put(next) } }]. *)
Fixpoint visit (put : nat → list nat → list nat) (nexts : list nat) (marks : list bool)
    (work : list nat) : list bool * list nat :=
  match nexts with
  | [] => (marks, work)
  | next :: nexts =>
      if marked marks next then visit put nexts marks work
      else visit put nexts (<[next := true]> marks) (put next work)
  end.

(** [while let Some(node) = pop(work) { visit(adjacency[node]) }]: the marks and
    the nodes in the order they are popped. *)
Fixpoint search (put : nat → list nat → list nat) (adj : Adjacency) (fuel : nat)
    (marks : list bool) (work : list nat) : list bool * list nat :=
  match fuel, work with
  | S fuel, node :: work =>
      let '(marks, work) := visit put (adj !!! node) marks work in
      let '(marks, popped) := search put adj fuel marks work in
      (marks, node :: popped)
  | _, _ => (marks, [])
  end.

(** [VecDeque::push_back] with [pop_front]; [Vec::push] with [pop], the top of
    the stack first. *)
Definition push_back (x : nat) (queue : list nat) : list nat := queue ++ [x].
Definition push (x : nat) (stack : list nat) : list nat := x :: stack.

(*| compiler/lib.rs 867-885 reachability_from *)
Definition reachability_from (starts : list nat) (adj : Adjacency) : list bool :=
  let '(marks, queue) := visit push_back starts (replicate (length adj) false) [] in
  fst (search push_back adj (length adj) marks queue).

(*| compiler/lib.rs 863-865 reachability *)
Definition reachability (start : nat) (adj : Adjacency) : list bool :=
  reachability_from [start] adj.

(** The first pass: a stack of nodes with the next edge to look at. *)
(*| compiler/lib.rs 896-911 cyclic_components *)
Fixpoint dfs (fwd : Adjacency) (fuel : nat) (visited : list bool) (stack : list (nat * nat))
    (finished : list nat) : list bool * list nat :=
  match fuel, stack with
  | S fuel, (node, next_edge) :: rest =>
      if decide (next_edge = length (fwd !!! node)) then
        dfs fwd fuel visited rest (finished ++ [node])
      else
        let next := (fwd !!! node) !!! next_edge in
        let stack := (node, S next_edge) :: rest in
        if marked visited next then dfs fwd fuel visited stack finished
        else dfs fwd fuel (<[next := true]> visited) ((next, 0) :: stack) finished
  | _, _ => (visited, finished)
  end.

(** Every edge is looked at and every node finished once. *)
Definition dfs_fuel (fwd : Adjacency) : nat :=
  sum_list_with (λ u, S (length (fwd !!! u))) (seq 0 (length fwd)).

(*| compiler/lib.rs 888-912 cyclic_components *)
Fixpoint finish_order (fwd : Adjacency) (starts : list nat) (visited : list bool)
    (finished : list nat) : list nat :=
  match starts with
  | [] => finished
  | start :: starts =>
      if marked visited start then finish_order fwd starts visited finished
      else
        let '(visited, finished) :=
          dfs fwd (dfs_fuel fwd) (<[start := true]> visited) [(start, 0)] finished in
        finish_order fwd starts visited finished
  end.

(*| compiler/lib.rs 913-940 cyclic_components *)
Fixpoint components_of (fwd rev : Adjacency) (order : list nat) (assigned : list bool) :
    list (list nat) :=
  match order with
  | [] => []
  | start :: order =>
      if marked assigned start then components_of fwd rev order assigned
      else
        let '(assigned, component) :=
          search push rev (length rev) (<[start := true]> assigned) [start] in
        let component := merge_sort le component in
        let first := component !!! 0 in
        let cyclic := (1 <? length component) || bool_decide (first ∈ fwd !!! first) in
        (if cyclic then [component] else []) ++ components_of fwd rev order assigned
  end.

(** [components.sort_unstable_by_key(|component| component[0])]; the first
    elements differ. *)
Definition first_le (c d : list nat) : Prop := c !!! 0 ≤ d !!! 0.
#[export] Instance first_le_dec : RelDecision first_le.
Proof. intros c d. unfold first_le. apply _. Defined.

(*| compiler/lib.rs 887-943 cyclic_components *)
Definition cyclic_components (fwd rev : Adjacency) : list (list nat) :=
  let finished := finish_order fwd (seq 0 (length fwd)) (replicate (length fwd) false) [] in
  merge_sort first_le
    (components_of fwd rev (reverse finished) (replicate (length fwd) false)).

(** ** Marks *)

Lemma marked_insert marks v w :
  v < length marks → marked (<[v := true]> marks) w = true ↔ w = v ∨ marked marks w = true.
Proof.
  intros Hv. unfold marked. destruct (decide (w = v)) as [->|Hne].
  - rewrite list_lookup_insert_eq by done. naive_solver.
  - rewrite list_lookup_insert_ne by done. naive_solver.
Qed.

Lemma marked_replicate n v : marked (replicate n false) v = false.
Proof.
  unfold marked. destruct (replicate n false !! v) as [b|] eqn:E; [|done].
  apply lookup_replicate in E as [-> _]. done.
Qed.

Lemma marked_lt marks v : marked marks v = true → v < length marks.
Proof.
  unfold marked. destruct (marks !! v) eqn:E; [|done]. by apply lookup_lt_Some in E.
Qed.

(** The marks as a set. *)
Lemma not_marked marks v : marked marks v = false ↔ ¬ marked marks v = true.
Proof. by destruct (marked marks v). Qed.

(** *** Visiting *)

Class Puts (put : nat → list nat → list nat) := puts : ∀ x l, put x l ≡ₚ x :: l.
#[export] Instance puts_back : Puts push_back.
Proof. intros x l. unfold push_back. by rewrite (comm (++)). Qed.
#[export] Instance puts_push : Puts push.
Proof. by intros x l. Qed.

Lemma visit_spec put `{!Puts put} nexts marks work marks' work' :
  (∀ v, v ∈ nexts → v < length marks) →
  visit put nexts marks work = (marks', work') →
  length marks' = length marks ∧
  ∃ new, work' ≡ₚ new ++ work ∧ NoDup new ∧
    (∀ v, v ∈ new ↔ v ∈ nexts ∧ marked marks v = false) ∧
    (∀ v, marked marks' v = true ↔ marked marks v = true ∨ v ∈ new).
Proof.
  revert marks work. induction nexts as [|x nexts IH]; cbn; intros marks work Hlt E.
  - simplify_eq. split; [done|]. exists []. split_and!; [done|constructor|set_solver..].
  - destruct (marked marks x) eqn:Ex.
    + apply IH in E as (Hlen & new & Hw & Hnd & Hnew & Hm); [|set_solver].
      split; [done|]. exists new. split_and!; try done.
      intros v. rewrite Hnew, elem_of_cons. naive_solver congruence.
    + apply IH in E as (Hlen & new & Hw & Hnd & Hnew & Hm);
        [|rewrite length_insert; set_solver].
      rewrite length_insert in Hlen. split; [done|].
      assert (Hx : x < length marks) by set_solver.
      assert (Hnew' : ∀ v, v ∈ new ↔ v ∈ nexts ∧ v ≠ x ∧ marked marks v = false).
      { intros v. rewrite Hnew, !not_marked, marked_insert by done. naive_solver. }
      exists (x :: new). split_and!.
      * rewrite Hw, (puts x work). cbn. by rewrite <-Permutation_middle.
      * constructor; [rewrite Hnew'; naive_solver|done].
      * intros v. rewrite !elem_of_cons, Hnew'.
        destruct (decide (v = x)) as [->|]; naive_solver.
      * intros v. rewrite Hm, marked_insert, elem_of_cons by done. naive_solver.
Qed.

(** ** The worklist search

    [base]: the marks before the search; [starts]: where it starts.  It pops
    every unmarked node reachable from [starts] through unmarked nodes, once. *)

Section search.
Context (put : nat → list nat → list nat) `{!Puts put} (adj : Adjacency).
Context (base : nat → Prop) (starts : list nat).
Hypothesis Hwf : wf_adj adj.

Definition open_edge (u v : nat) : Prop := edge adj u v ∧ ¬ base v.
Definition found (v : nat) : Prop := ∃ s, s ∈ starts ∧ rtc open_edge s v.

Record search_inv (marks : list bool) (work popped : list nat) : Prop := {
  inv_length : length marks = length adj;
  inv_marked v : marked marks v = true ↔ base v ∨ v ∈ popped ++ work;
  inv_found v : v ∈ popped ++ work → found v ∧ ¬ base v ∧ v < length adj;
  inv_starts s : s ∈ starts → s ∈ popped ++ work;
  inv_closed u v : u ∈ popped → edge adj u v → marked marks v = true;
  inv_nodup : NoDup (popped ++ work)
}.

Lemma search_inv_step marks node work popped marks' work' :
  search_inv marks (node :: work) popped →
  visit put (adj !!! node) marks work = (marks', work') →
  search_inv marks' work' (popped ++ [node]).
Proof.
  intros [Hlen Hm Hf Hs Hc Hnd] E.
  apply visit_spec in E as (Hlen' & new & Hw & Hndn & Hnew & Hm');
    [|done|intros v Hv; rewrite Hlen; by eapply Hwf].
  assert (Hin : ∀ v, v ∈ (popped ++ [node]) ++ work' ↔ v ∈ popped ++ node :: work ∨ v ∈ new).
  { intros v. rewrite Hw. set_solver. }
  split.
  - congruence.
  - intros v. rewrite Hm', Hm, Hin. tauto.
  - intros v. rewrite Hin. intros [Hv|Hv]; [by apply Hf|].
    apply Hnew in Hv as [Hv Hvm].
    assert (Hb : ¬ base v) by (intros Hb; apply not_marked in Hvm; apply Hvm, Hm; by left).
    split_and!; [|done|by eapply Hwf].
    destruct (Hf node) as [(s & Hs' & Hr) _]; [set_solver|].
    exists s. split; [done|]. eapply rtc_r; [done|]. by split.
  - intros s Hs'. apply Hin. left. by apply Hs.
  - intros u v [Hu| ->%list_elem_of_singleton]%elem_of_app Huv; apply Hm'.
    + left. by eapply Hc.
    + destruct (marked marks v) eqn:Ev; [by left|right]. by apply Hnew.
  - rewrite Hw. rewrite <-(assoc_L (++)). cbn.
    assert (Permutation (popped ++ node :: new ++ work) (new ++ popped ++ node :: work)) as ->.
    { rewrite (Permutation_app_swap_app new popped). f_equiv.
      by rewrite Permutation_middle. }
    apply NoDup_app. split_and!; [done| |done].
    intros v Hv Hv'. apply Hnew in Hv as [_ Hv]. apply not_marked in Hv. apply Hv, Hm. by right.
Qed.

Lemma search_inv_length marks work popped :
  search_inv marks work popped → length popped + length work ≤ length adj.
Proof.
  intros [_ _ Hf _ _ Hnd]. rewrite <-length_app.
  rewrite <-(length_seq (length adj) 0). apply submseteq_length, NoDup_submseteq; [done|].
  intros v Hv. apply elem_of_seq. destruct (Hf v Hv) as (_&_&?). lia.
Qed.

Lemma search_spec_gen fuel marks work popped marks' popped' :
  search_inv marks work popped → length adj - length popped ≤ fuel →
  search put adj fuel marks work = (marks', popped') →
  search_inv marks' [] (popped ++ popped').
Proof.
  revert marks work popped marks' popped'.
  induction fuel as [|fuel IH]; intros marks work popped marks' popped' Hinv Hfuel E;
    pose proof (search_inv_length _ _ _ Hinv) as Hl.
  - assert (work = []) as -> by (destruct work; [done|cbn in Hl; lia]).
    cbn in E. simplify_eq. by rewrite app_nil_r.
  - destruct work as [|node work]; cbn in E; [simplify_eq; by rewrite app_nil_r|].
    destruct (visit put (adj !!! node) marks work) as [m w] eqn:Ev.
    destruct (search put adj fuel m w) as [m' d] eqn:Es. simplify_eq.
    eapply search_inv_step in Ev; [|done].
    apply IH with (popped := popped ++ [node]) in Es; [|done|rewrite length_app; cbn; lia].
    by rewrite <-(assoc_L (++)) in Es.
Qed.

(** Any search with enough fuel, from marked starting points. *)
Lemma search_spec fuel marks work marks' popped :
  search_inv marks work [] → length adj ≤ fuel →
  search put adj fuel marks work = (marks', popped) →
  length marks' = length adj ∧ NoDup popped ∧
  (∀ v, marked marks' v = true ↔ base v ∨ v ∈ popped) ∧ (∀ v, v ∈ popped ↔ found v).
Proof.
  intros Hinv Hfuel E. apply search_spec_gen with (popped := []) in E; [|done|cbn; lia].
  cbn in E. destruct E as [Hlen Hm Hf Hs Hc Hnd].
  rewrite app_nil_r in *. split_and!; [done|done| |].
  - intros v. by rewrite Hm, ?app_nil_r.
  - intros v. split; [intros Hv; apply Hf; by rewrite ?app_nil_r|].
    intros (s & Hin & Hr). apply Hs in Hin. rewrite ?app_nil_r in Hin.
    induction Hr as [s|s w v [He Hb] _ IH]; [done|].
    apply IH. apply (Hc s w) in He; [|done]. apply Hm in He. rewrite ?app_nil_r in He. naive_solver.
Qed.
End search.

Lemma rtc_open_edge adj s v : rtc (open_edge adj (λ _, False)) s v ↔ rtc (edge adj) s v.
Proof.
  split; apply rtc_subrel; intros x y; unfold open_edge; tauto.
Qed.

Lemma reachability_from_spec starts adj :
  wf_adj adj → (∀ s, s ∈ starts → s < length adj) →
  length (reachability_from starts adj) = length adj ∧
  ∀ v, marked (reachability_from starts adj) v = true ↔ ∃ s, s ∈ starts ∧ rtc (edge adj) s v.
Proof.
  intros Hwf Hs. unfold reachability_from.
  destruct (visit push_back starts _ []) as [marks queue] eqn:Ev.
  apply visit_spec in Ev as (Hlen & new & Hq & Hnd & Hnew & Hm);
    [|apply _|intros s; rewrite length_replicate; apply Hs].
  rewrite app_nil_r in Hq. rewrite length_replicate in Hlen.
  assert (Hnew' : ∀ v, v ∈ new ↔ v ∈ starts).
  { intros v. rewrite Hnew, marked_replicate. tauto. }
  destruct (search push_back adj (length adj) marks queue) as [m popped] eqn:Es. cbn.
  apply (search_spec push_back adj (λ _, False) starts Hwf) in Es as (Hl & _ & Hmk & Hp); [|split|done].
  - split; [done|]. intros v. rewrite Hmk, Hp. unfold found.
    setoid_rewrite rtc_open_edge. tauto.
  - done.
  - intros v. rewrite Hm, marked_replicate, app_nil_l, Hq. naive_solver.
  - intros v. rewrite app_nil_l, Hq, Hnew'. intros Hv. split_and!; [|tauto|by apply Hs].
    exists v. split; [done|apply rtc_refl].
  - intros s. by rewrite app_nil_l, Hq, Hnew'.
  - intros u v Hu. by apply elem_of_nil in Hu.
  - by rewrite app_nil_l, Hq.
Qed.

(** ** Finishing order

    The invariant of the depth-first search.  [dfs_order] says what the second
    pass needs: when a node is finished, every node not yet finished either
    reaches it or has no edge from a finished node. *)

Section dfs.
Context (fwd : Adjacency).
Hypothesis Hwf : wf_adj fwd.

Definition dfs_order (finished : list nat) : Prop :=
  ∀ l1 y l2, finished = l1 ++ y :: l2 → ∀ w, w ∉ l1 ++ [y] →
    rtc (edge fwd) w y ∨ ∀ u, u ∈ l1 ++ [y] → ¬ edge fwd u w.

(** Every node of the stack reaches those above it. *)
Fixpoint stack_path (stack : list (nat * nat)) : Prop :=
  match stack with
  | [] => True
  | (x, _) :: rest => Forall (λ e, rtc (edge fwd) (fst e) x) rest ∧ stack_path rest
  end.

Record dfs_inv (visited : list bool) (stack : list (nat * nat)) (finished : list nat) : Prop := {
  dfs_length : length visited = length fwd;
  dfs_visited v : marked visited v = true ↔ v ∈ finished ++ stack.*1;
  dfs_range v : v ∈ finished ++ stack.*1 → v < length fwd;
  dfs_nodup : NoDup (finished ++ stack.*1);
  dfs_closed u v : u ∈ finished → edge fwd u v → marked visited v = true;
  dfs_pending u k : (u, k) ∈ stack → k ≤ length (fwd !!! u) ∧
    ∀ j v, j < k → (fwd !!! u) !! j = Some v → marked visited v = true;
  dfs_path : stack_path stack;
  dfs_ordered : dfs_order finished
}.

Lemma dfs_inv_finish visited node rest finished :
  dfs_inv visited ((node, length (fwd !!! node)) :: rest) finished →
  dfs_inv visited rest (finished ++ [node]).
Proof.
  intros [Hlen Hv Hr Hnd Hc Hp Hpath Ho]. cbn in *. destruct Hpath as [Hnode Hpath].
  assert (Hclosed : ∀ u v, u ∈ finished ++ [node] → edge fwd u v → marked visited v = true).
  { intros u v [Hu| ->%list_elem_of_singleton]%elem_of_app Huv; [by eapply Hc|].
    apply list_elem_of_lookup in Huv as [j Hj]. destruct (Hp node (length (fwd !!! node))) as [_ Hn];
      [set_solver|]. eapply Hn; [|done]. by eapply lookup_lt_Some. }
  split; rewrite <-?(assoc_L (++)); try done.
  - intros u k Hin. apply Hp. set_solver.
  - intros l1 y l2 E w Hw. destruct l2 as [|z l2' _] using rev_ind.
    + apply app_inj_2 in E as [<- [= ->]]; [|done].
      destruct (marked visited w) eqn:Ew.
      * left. apply Hv in Ew. rewrite Forall_forall in Hnode.
        assert (w ∈ rest.*1) as ((?&k) & -> & Hin)%list_elem_of_fmap by set_solver.
        by apply (Hnode _ Hin).
      * right. intros u Hu Huw. apply (Hclosed u w) in Hu; [|done]. congruence.
    + rewrite app_comm_cons, (assoc_L (++)) in E. apply app_inj_2 in E as [-> _]; [|done].
      by eapply Ho.
Qed.

(** The next edge leads to a visited node. *)
Lemma dfs_inv_skip visited node k rest finished :
  dfs_inv visited ((node, k) :: rest) finished → k < length (fwd !!! node) →
  marked visited ((fwd !!! node) !!! k) = true →
  dfs_inv visited ((node, S k) :: rest) finished.
Proof.
  intros [Hlen Hv Hr Hnd Hc Hp Hpath Ho] Hk Hm. split; try done.
  intros u i [[= -> ->]|Hin]%elem_of_cons; [|apply Hp; set_solver].
  split; [lia|]. intros j v Hj Hl. destruct (decide (j = k)) as [->|].
  - by rewrite (list_lookup_total_correct _ _ _ Hl) in Hm.
  - destruct (Hp node k) as [_ Hn]; [set_solver|]. apply (Hn j); [lia|done].
Qed.

(** It leads to a new one, which goes on the stack. *)
Lemma dfs_inv_push visited node k rest finished next :
  dfs_inv visited ((node, k) :: rest) finished → (fwd !!! node) !! k = Some next →
  marked visited next = false →
  dfs_inv (<[next := true]> visited) ((next, 0) :: (node, S k) :: rest) finished.
Proof.
  intros [Hlen Hv Hr Hnd Hc Hp Hpath Ho] Hk Hm.
  assert (He : edge fwd node next) by (by eapply list_elem_of_lookup_2).
  assert (Hlt : next < length visited) by (rewrite Hlen; by eapply Hwf).
  assert (Hfresh : next ∉ finished ++ node :: rest.*1).
  { intros Hin. apply not_marked in Hm. by apply Hm, Hv. }
  assert (Hmono : ∀ v, marked visited v = true → marked (<[next := true]> visited) v = true).
  { intros v Hmv. apply marked_insert; auto. }
  split; cbn in *.
  - by rewrite length_insert.
  - intros v. rewrite marked_insert, Hv by done. set_solver.
  - intros v Hin. destruct (decide (v = next)) as [->|]; [congruence|]. apply Hr. set_solver.
  - rewrite <-Permutation_middle. by constructor.
  - intros u v Hu Huv. apply Hmono. by eapply Hc.
  - intros u i [[= -> ->]|[[= -> ->]|Hin]%elem_of_cons]%elem_of_cons.
    + split; [lia|]. intros j v Hj. lia.
    + apply lookup_lt_Some in Hk as Hkl. split; [lia|]. intros j v Hj Hl.
      destruct (decide (j = k)) as [->|]; [apply marked_insert; naive_solver|].
      destruct (Hp node k) as [_ Hn]; [set_solver|]. apply Hmono, (Hn j); [lia|done].
    + destruct (Hp u i) as [? Hn]; [set_solver|]. split; [done|].
      intros j v Hj Hl. apply Hmono. by eapply Hn.
  - destruct Hpath as [Hnode Hpath]. split_and!; [|done..].
    constructor; [by apply rtc_once|]. apply (Forall_impl _ _ _ Hnode).
    intros e Hr'. by eapply rtc_r.
  - done.
Qed.

(** The steps left: every node not visited, every edge not looked at. *)
Definition unvisited_cost (visited : list bool) (v : nat) : nat :=
  if marked visited v then 0 else S (length (fwd !!! v)).
Definition dfs_cost (visited : list bool) (stack : list (nat * nat)) : nat :=
  sum_list_with (unvisited_cost visited) (seq 0 (length fwd)) +
  sum_list_with (λ e, S (length (fwd !!! fst e) - snd e)) stack.

Lemma sum_list_with_change (f g : nat → nat) l x :
  NoDup l → x ∈ l → (∀ y, y ≠ x → f y = g y) →
  sum_list_with f l + g x = sum_list_with g l + f x.
Proof.
  induction l as [|y l IH]; intros Hnd Hx Hfg; [by apply elem_of_nil in Hx|].
  apply NoDup_cons in Hnd as [Hy Hnd]. cbn. apply elem_of_cons in Hx as [->|Hx].
  - assert (sum_list_with f l = sum_list_with g l) as ->; [|lia].
    clear -Hy Hfg. induction l as [|z l IH]; cbn; [done|].
    rewrite (Hfg z), IH by set_solver. done.
  - rewrite (Hfg y) by set_solver. specialize (IH Hnd Hx Hfg). lia.
Qed.

Lemma dfs_cost_push visited next stack :
  next < length visited → length visited = length fwd → marked visited next = false →
  dfs_cost (<[next := true]> visited) ((next, 0) :: stack) = dfs_cost visited stack.
Proof.
  intros Hlt Hlen Hm. unfold dfs_cost. cbn.
  pose proof (sum_list_with_change (unvisited_cost (<[next := true]> visited))
    (unvisited_cost visited) (seq 0 (length fwd)) next (NoDup_seq _ _)) as Hsum.
  assert (Hn : unvisited_cost (<[next := true]> visited) next = 0).
  { unfold unvisited_cost. by rewrite (proj2 (marked_insert _ _ _ Hlt)) by (by left). }
  assert (Ho : unvisited_cost visited next = S (length (fwd !!! next))).
  { unfold unvisited_cost. by rewrite Hm. }
  rewrite Hn, Ho in Hsum. specialize (Hsum ltac:(apply elem_of_seq; lia)).
  rewrite Nat.sub_0_r. enough (∀ y, y ≠ next →
    unvisited_cost (<[next:=true]> visited) y = unvisited_cost visited y) as Hy
    by (specialize (Hsum Hy); lia).
  intros y Hy. unfold unvisited_cost, marked. by rewrite list_lookup_insert_ne.
Qed.

Lemma dfs_spec fuel visited stack finished visited' finished' :
  dfs_inv visited stack finished → dfs_cost visited stack ≤ fuel →
  dfs fwd fuel visited stack finished = (visited', finished') →
  dfs_inv visited' [] finished' ∧
  ∀ v, marked visited v = true → marked visited' v = true.
Proof.
  revert visited stack finished.
  induction fuel as [|fuel IH]; intros visited [|[node k] rest] finished Hinv Hfuel E;
    cbn [dfs] in E; try (by simplify_eq).
  { unfold dfs_cost in Hfuel. cbn in Hfuel. lia. }
  destruct (dfs_pending _ _ _ Hinv node k) as [Hk Hpend]; [set_solver|].
  destruct (decide (k = length (fwd !!! node))) as [->|Hne].
  - eapply IH in E; [done|by apply dfs_inv_finish|].
    unfold dfs_cost in *. cbn in *. lia.
  - destruct (lookup_lt_is_Some_2 (fwd !!! node) k) as [next Hnext]; [lia|].
    rewrite (list_lookup_total_correct _ _ _ Hnext) in E.
    destruct (marked visited next) eqn:Em.
    + eapply IH in E; [done| |].
      * apply dfs_inv_skip; [done|lia|]. by rewrite (list_lookup_total_correct _ _ _ Hnext).
      * unfold dfs_cost in *. cbn in *. lia.
    + pose proof (dfs_inv_push _ _ _ _ _ _ Hinv Hnext Em) as Hpush.
      assert (Hlt : next < length visited).
      { rewrite (dfs_length _ _ _ Hinv). eapply Hwf, (list_elem_of_lookup_2 (fwd !!! node)), Hnext. }
      eapply IH in E as [Hinv' Hmono]; [|done|].
      * split; [done|]. intros v Hv. apply Hmono, marked_insert; auto.
      * rewrite dfs_cost_push; [|done|apply (dfs_length _ _ _ Hinv)|done].
        unfold dfs_cost in *. cbn in *. lia.
Qed.

Lemma dfs_cost_initial visited start :
  start < length visited → length visited = length fwd → marked visited start = false →
  dfs_cost (<[start := true]> visited) [(start, 0)] ≤ dfs_fuel fwd.
Proof.
  intros ???. rewrite dfs_cost_push by done. unfold dfs_cost, dfs_fuel. cbn.
  rewrite Nat.add_0_r. induction (seq 0 (length fwd)) as [|v l IH]; cbn; [done|].
  unfold unvisited_cost at 1. destruct (marked visited v); lia.
Qed.

Lemma dfs_inv_start visited finished start :
  dfs_inv visited [] finished → start < length fwd → marked visited start = false →
  dfs_inv (<[start := true]> visited) [(start, 0)] finished.
Proof.
  intros [Hlen Hv Hr Hnd Hc Hp Hpath Ho] Hlt Hm. cbn in *. rewrite app_nil_r in *.
  assert (Hfresh : start ∉ finished).
  { intros Hin. apply not_marked in Hm. by apply Hm, Hv; rewrite ?app_nil_r. }
  split; cbn.
  - by rewrite length_insert.
  - intros v. rewrite marked_insert, Hv by lia. set_solver.
  - intros v. set_solver.
  - rewrite (comm (++)). cbn. by constructor.
  - intros u v Hu Huv. apply marked_insert; [lia|]. right. by eapply Hc.
  - intros u k [= -> ->]%list_elem_of_singleton. split; [lia|]. intros j v Hj. lia.
  - done.
  - done.
Qed.

Lemma finish_order_spec starts visited finished :
  dfs_inv visited [] finished → (∀ s, s ∈ starts → s < length fwd) →
  ∃ visited', dfs_inv visited' [] (finish_order fwd starts visited finished) ∧
    ∀ v, marked visited v = true ∨ v ∈ starts → marked visited' v = true.
Proof.
  revert visited finished. induction starts as [|s starts IH]; intros visited finished Hinv Hlt; cbn.
  - exists visited. split; [done|]. intros v [?|[]%elem_of_nil]. done.
  - destruct (marked visited s) eqn:Es.
    + destruct (IH visited finished Hinv) as (v' & Hv' & Hm); [set_solver|].
      exists v'. split; [done|]. intros v [?|[->|?]%elem_of_cons]; apply Hm; auto.
    + destruct (dfs fwd _ _ _ _) as [visited1 finished1] eqn:E.
      apply dfs_spec in E as [Hinv1 Hmono].
      * destruct (IH visited1 finished1 Hinv1) as (v' & Hv' & Hm); [set_solver|].
        assert (Hs : s < length visited) by (rewrite (dfs_length _ _ _ Hinv); set_solver).
        exists v'. split; [done|].
        intros v [?|[->|?]%elem_of_cons]; apply Hm; [left|left|by right]; apply Hmono, marked_insert; auto.
      * apply dfs_inv_start; [done|set_solver|done].
      * apply dfs_cost_initial; [|apply (dfs_length _ _ _ Hinv)|done].
        rewrite (dfs_length _ _ _ Hinv). set_solver.
Qed.

Lemma finish_order_all :
  let finished := finish_order fwd (seq 0 (length fwd)) (replicate (length fwd) false) [] in
  NoDup finished ∧ (∀ v, v ∈ finished ↔ v < length fwd) ∧ dfs_order finished.
Proof.
  intros finished.
  destruct (finish_order_spec (seq 0 (length fwd)) (replicate (length fwd) false) [])
    as (visited & Hinv & Hm).
  - split; cbn; try set_solver.
    + by rewrite length_replicate.
    + intros v. rewrite marked_replicate. set_solver.
    + constructor.
    + intros l1 y l2 E. by destruct l1.
  - intros s. rewrite elem_of_seq. lia.
  - destruct Hinv as [Hlen Hv Hr Hnd Hc Hp Hpath Ho]. cbn in *. rewrite app_nil_r in *.
    split_and!; [done| |done]. intros v. split; [intros Hin; apply Hr; by rewrite ?app_nil_r|].
    intros Hlt. specialize (Hv v). rewrite ?app_nil_r in Hv. apply Hv, Hm. right.
    apply elem_of_seq. lia.
Qed.
End dfs.

(** ** Strongly connected components *)

Definition scc (adj : Adjacency) (x y : nat) : Prop := rtc (edge adj) x y ∧ rtc (edge adj) y x.

#[export] Instance scc_equivalence adj : Equivalence (scc adj).
Proof.
  split.
  - intros x. split; apply rtc_refl.
  - intros x y [??]. by split.
  - intros x y z [??] [??]. split; etrans; eauto.
Qed.

(** A path that leaves a set has an edge that leaves it, closer to the end. *)
Lemma nsteps_crossing (R : relation nat) (B : list nat) n x y :
  nsteps R n x y → x ∈ B → y ∉ B →
  ∃ m u w, (m < n)%nat ∧ (u ∈ B) ∧ (w ∉ B) ∧ R u w ∧ nsteps R m w y.
Proof.
  intros Hn. induction Hn as [x|n x z y Hxz Hzy IH]; intros Hx Hy; [done|].
  destruct (decide (z ∈ B)) as [Hz|Hz].
  - destruct (IH Hz Hy) as (m & u & w & ? & ? & ? & ? & ?). exists m, u, w. split_and!; try done. lia.
  - exists n, x, z. split_and!; try done. lia.
Qed.

(** The key to the second pass: what reaches a node through nodes finished no
    later is reached by it. *)
Lemma dfs_order_scc adj finished l1 y l2 :
  dfs_order adj finished → NoDup finished → finished = l1 ++ y :: l2 →
  ∀ n v, nsteps (λ a b, edge adj a b ∧ a ∈ l1 ++ [y] ∧ b ∈ l1 ++ [y]) n v y →
  rtc (edge adj) y v.
Proof.
  intros Ho Hnd Ef n. induction n as [n IH] using lt_wf_ind. intros v Hn.
  destruct (decide (v = y)) as [->|Hvy]; [apply rtc_refl|].
  assert (Hv : v ∈ l1).
  { inversion Hn; subst; [done|]. set_solver. }
  apply list_elem_of_split in Hv as (m1 & m2 & ->).
  rewrite Ef in Hnd.
  destruct (nsteps_crossing _ (m1 ++ [v]) _ _ _ Hn) as (m & u & w & Hm & Hu & Hw & Huw & Hwy).
  { set_solver. }
  { rewrite <-!(assoc_L (++)) in Hnd. apply NoDup_app in Hnd as (_ & Hd & Hnd).
    apply NoDup_cons in Hnd as [Hv _]. intros [Hin| ->%list_elem_of_singleton]%elem_of_app.
    - apply (Hd y Hin). set_solver.
    - done. }
  destruct Huw as [Huw _].
  destruct (Ho m1 v (m2 ++ y :: l2)) with (w := w) as [Hr|Hr]; [|done| |by destruct (Hr u Hu)].
  - by rewrite Ef, <-(assoc_L (++)).
  - etrans; [|exact Hr]. by apply (IH m).
Qed.

Section kosaraju.
Context (fwd rev : Adjacency).
Hypothesis Hfwd : wf_adj fwd.
Hypothesis Hrev : wf_adj rev.
Hypothesis Hlen : length rev = length fwd.
Hypothesis Hflip : ∀ u v, edge rev u v ↔ edge fwd v u.

(** What the second pass has collected, from a start not yet assigned. *)
Lemma component_scc finished rest start assigned :
  dfs_order fwd finished → NoDup finished → (∀ v, v ∈ finished ↔ v < length fwd) →
  (∃ processed, reverse finished = processed ++ start :: rest ∧
     ∀ v, v ∈ processed → marked assigned v = true) →
  (∀ u v, scc fwd u v → marked assigned u = true → marked assigned v = true) →
  marked assigned start = false →
  ∀ v, found rev (λ v, marked assigned v = true) [start] v ↔ scc fwd start v.
Proof.
  intros Ho Hnd Hall (processed & Hsplit & Hproc) Hclosed Hstart v.
  assert (Ef : finished = reverse rest ++ start :: reverse processed).
  { rewrite <-(reverse_involutive finished), Hsplit, reverse_app, reverse_cons.
    by rewrite <-(assoc_L (++)). }
  unfold found, open_edge. split.
  - intros (s & ->%list_elem_of_singleton & Hr).
    assert (Hopen : ∀ w, w < length fwd → marked assigned w ≠ true → w ∈ reverse rest ++ [start]).
    { intros w Hw Hwm. apply Hall in Hw. rewrite Ef in Hw. destruct (decide (w ∈ reverse processed)) as [Hp|].
      - by apply elem_of_reverse, Hproc in Hp.
      - set_solver. }
    assert (Hback : ∀ a, a ∈ reverse rest ++ [start] →
      rtc (λ u w, edge rev u w ∧ marked assigned w ≠ true) a v →
      rtc (λ u w, edge fwd u w ∧ u ∈ reverse rest ++ [start] ∧ w ∈ reverse rest ++ [start]) v a).
    { intros a Ha Hav. induction Hav as [a|a b c [Hab Hb] _ IH]; [apply rtc_refl|].
      assert (b ∈ reverse rest ++ [start]) by (apply Hopen; [rewrite <-Hlen; by eapply Hrev|done]).
      eapply rtc_r; [by apply IH|]. split; [by apply Hflip|done]. }
    specialize (Hback start ltac:(set_solver) Hr).
    split; [|by eapply rtc_subrel, Hback; naive_solver].
    apply rtc_nsteps in Hback as [n Hback]. by eapply dfs_order_scc.
  - intros [Hsv Hvs]. exists start. split; [set_solver|].
    assert (Hback : ∀ a b, rtc (edge fwd) a b → rtc (edge fwd) start a → rtc (edge fwd) b start →
      rtc (λ u w, edge rev u w ∧ marked assigned w ≠ true) b a).
    { intros a b Hab. induction Hab as [a|a c b Hac Hcb IH]; intros Hsa Hbs; [apply rtc_refl|].
      eapply rtc_r; [apply IH; [by eapply rtc_r|done]|].
      split; [by apply Hflip|]. intros Hm. apply not_marked in Hstart. apply Hstart.
      apply (Hclosed a start); [|done]. split; [|done].
      etrans; [by apply rtc_once|]. by etrans. }
    by apply Hback; [|..|apply rtc_refl].
Qed.

Definition cyclic_node (x : nat) : Prop := tc (edge fwd) x x.

Lemma cyclic_component start component :
  NoDup component → (∀ v, v ∈ component ↔ scc fwd start v) →
  let first := component !!! 0 in
  (1 <? length component) || bool_decide (first ∈ fwd !!! first) = true ↔ cyclic_node start.
Proof.
  intros Hnd Hc first.
  assert (Hstart : start ∈ component) by (apply Hc; split; apply rtc_refl).
  rewrite orb_true_iff, bool_decide_eq_true, Nat.ltb_lt. unfold cyclic_node.
  destruct component as [|x [|y component]]; [by apply elem_of_nil in Hstart|..]; cbn in *.
  - apply list_elem_of_singleton in Hstart as <-. subst first. cbn. split.
    + intros [?|He]; [lia|]. by apply tc_once.
    + intros Htc. right. inversion Htc as [? ? He|? w ? He Hw]; subst; [done|].
      assert (w ∈ [start]) as ->%list_elem_of_singleton; [|done].
      apply Hc. split; [by apply rtc_once|by apply tc_rtc].
  - split; [intros _|by left; lia].
    assert (∃ z, z ≠ start ∧ z ∈ x :: y :: component) as (z & Hz & Hzc).
    { apply NoDup_cons in Hnd as [Hx _]. destruct (decide (x = start)) as [->|].
      - exists y. set_solver.
      - exists x. set_solver. }
    apply Hc in Hzc as [Hsz Hzs]. apply rtc_tc in Hsz as [->|Hsz]; [done|].
    by eapply tc_rtc_r.
Qed.

Lemma cyclic_node_scc x y : cyclic_node x → scc fwd y x → cyclic_node y.
Proof.
  intros Hx [Hyx Hxy]. eapply tc_rtc_l; [exact Hyx|]. by eapply tc_rtc_r.
Qed.

(** The components of the nodes still to be assigned, cyclic ones only. *)
Lemma components_of_spec finished order assigned :
  dfs_order fwd finished → NoDup finished → (∀ v, v ∈ finished ↔ v < length fwd) →
  length assigned = length fwd →
  (∃ processed, reverse finished = processed ++ order ∧
     ∀ v, v ∈ processed → marked assigned v = true) →
  (∀ u v, scc fwd u v → marked assigned u = true → marked assigned v = true) →
  let components := components_of fwd rev order assigned in
  (∀ c, c ∈ components → ∃ x, x < length fwd ∧ marked assigned x = false ∧ cyclic_node x ∧
     StronglySorted le c ∧ NoDup c ∧ ∀ v, v ∈ c ↔ scc fwd x v) ∧
  (∀ x, x ∈ order → marked assigned x = false → cyclic_node x →
     ∃ c, c ∈ components ∧ x ∈ c) ∧
  NoDup components.
Proof.
  intros Ho Hnd Hall. revert assigned.
  induction order as [|start order IH]; cbn; intros assigned Hal Hsplit Hclosed.
  { split_and!; [set_solver|set_solver|constructor]. }
  destruct Hsplit as (processed & Hsplit & Hproc).
  assert (Hrest : reverse finished = (processed ++ [start]) ++ order).
  { by rewrite <-(assoc_L (++)). }
  destruct (marked assigned start) eqn:Es.
  - destruct (IH assigned Hal) as (H1 & H2 & H3); [|done|].
    { exists (processed ++ [start]). split; [done|]. intros v. set_solver. }
    split_and!; [done| |done]. intros x [->|Hx]%elem_of_cons Hxm; [congruence|by apply H2].
  - destruct (search push rev _ _ _) as [assigned' component] eqn:Esearch.
    assert (Hstart : start < length assigned).
    { rewrite Hal. apply Hall. apply elem_of_reverse. rewrite Hsplit. set_solver. }
    assert (Hinv : search_inv rev (λ v, marked assigned v = true) [start]
                     (<[start:=true]> assigned) [start] []).
    { split; cbn.
      - rewrite length_insert. congruence.
      - intros v. rewrite marked_insert by done. set_solver.
      - intros v ->%list_elem_of_singleton. split_and!; [|congruence|congruence].
        exists start. split; [set_solver|apply rtc_refl].
      - done.
      - intros u v Hu. by apply elem_of_nil in Hu.
      - apply NoDup_singleton. }
    destruct (search_spec push rev (λ v, marked assigned v = true) [start] Hrev
      _ _ _ _ _ Hinv (le_n _) Esearch) as (Hlen' & Hndc & Hm' & Hfound).
    assert (Hscc : ∀ v, v ∈ component ↔ scc fwd start v).
    { intros v. rewrite Hfound. eapply component_scc; eauto. }
    clear Hinv Hfound.
    set (sorted := merge_sort le component).
    assert (Hp : sorted ≡ₚ component) by apply merge_sort_Permutation.
    assert (Hsorted : ∀ v, v ∈ sorted ↔ scc fwd start v) by (intros v; by rewrite Hp).
    assert (Hnds : NoDup sorted) by by rewrite Hp.
    destruct (IH assigned') as (H1 & H2 & H3).
    { congruence. }
    { exists (processed ++ [start]). split; [done|].
      intros v [Hv| ->%list_elem_of_singleton]%elem_of_app; apply Hm'; [left; by apply Hproc|right].
      apply Hscc. split; apply rtc_refl. }
    { intros u v Huv [Hu|Hu]%Hm'; apply Hm'; [left; by eapply Hclosed|right].
      apply Hscc. apply Hscc in Hu. by etrans. }
    pose proof (cyclic_component start sorted Hnds Hsorted) as Hcyc. cbv zeta in Hcyc.
    assert (Hnew : ∀ c, c ∈ components_of fwd rev order assigned' → start ∉ c).
    { intros c (x & _ & Hx & _ & _ & _ & Hc)%H1 Hin%Hc. apply not_marked in Hx.
      apply Hx, Hm'. right. by apply Hscc. }
    assert (H2' : ∀ x, x ∈ order → marked assigned x = false → cyclic_node x → ¬ scc fwd start x →
              ∃ c, c ∈ components_of fwd rev order assigned' ∧ x ∈ c).
    { intros x Hx Hxm Hcx Hns. apply H2; [done| |done]. apply not_marked.
      intros [Hm|Hm%Hscc]%Hm'; [congruence|done]. }
    assert (H1' : ∀ c, c ∈ components_of fwd rev order assigned' → ∃ x, x < length fwd ∧
       marked assigned x = false ∧ cyclic_node x ∧ StronglySorted le c ∧ NoDup c ∧
       ∀ v, v ∈ c ↔ scc fwd x v).
    { intros c (x & ? & Hx & ?)%H1. exists x. split; [done|]. split; [|done].
      apply not_marked. intros Hm. apply not_marked in Hx. apply Hx, Hm'. by left. }
    destruct (_ || _).
    + assert (Hcs : cyclic_node start) by by apply Hcyc. cbn. split_and!.
      * intros c [->|Hc]%elem_of_cons; [|by apply H1'].
        exists start. split_and!; try done; [congruence|].
        apply (StronglySorted_merge_sort _).
      * intros x Hx Hxm Hcx. destruct (decide (x ∈ sorted)) as [Hin|Hin].
        { exists sorted. set_solver. }
        assert (x ≠ start) by (intros ->; apply Hin, Hsorted; split; apply rtc_refl).
        destruct (H2' x) as (c & ? & ?); [set_solver|done|done|by rewrite <-Hsorted|].
        exists c. set_solver.
      * constructor; [|done]. intros Hin%Hnew. apply Hin, Hsorted. split; apply rtc_refl.
    + assert (Hcs : ¬ cyclic_node start) by (intros Hcs%Hcyc; done). cbn.
      split_and!; [done| |done]. intros x Hx Hxm Hcx.
      assert (¬ scc fwd start x) by (intros Hsx; by apply Hcs, (cyclic_node_scc x)).
      assert (x ≠ start) by (intros ->; done).
      apply H2'; [set_solver|done..].
Qed.
End kosaraju.

(** ** The traversals are exact *)

(** The worklist search marks exactly the nodes reachable from its starting
    points (and looks at no index out of range). *)
Theorem reachability_exact starts adj :
  wf_adj adj → (∀ s, s ∈ starts → s < length adj) →
  ∀ v, marked (reachability_from starts adj) v = true ↔ ∃ s, s ∈ starts ∧ rtc (edge adj) s v.
Proof. intros Hwf Hs. by apply reachability_from_spec. Qed.

Lemma StronglySorted_lt l : StronglySorted le l → NoDup l → StronglySorted lt l.
Proof.
  induction 1 as [|x l Hl IH Hx]; intros Hnd; constructor; apply NoDup_cons in Hnd as [Hin Hnd].
  - by apply IH.
  - rewrite Forall_forall in *. intros y Hy. specialize (Hx y Hy).
    assert (x ≠ y) by (intros ->; done). lia.
Qed.

Lemma StronglySorted_lt_eq l k :
  StronglySorted lt l → StronglySorted lt k → (∀ v, v ∈ l ↔ v ∈ k) → l = k.
Proof.
  intros Hl Hk Hlk.
  assert (Hnd : ∀ m, StronglySorted lt m → NoDup m).
  { induction 1 as [|x m _ IH Hx]; constructor; [|done]. intros Hin.
    rewrite Forall_forall in Hx. specialize (Hx x Hin). lia. }
  assert (Hle : ∀ m, StronglySorted lt m → StronglySorted le m).
  { induction 1 as [|x m _ IH Hx]; constructor; [done|].
    apply (Forall_impl _ _ _ Hx). intros y Hy. lia. }
  apply (StronglySorted_unique le); [by apply Hle..|].
  apply NoDup_Permutation; auto.
Qed.

#[export] Instance first_le_trans : Transitive first_le.
Proof. intros c d e. unfold first_le. lia. Qed.
#[export] Instance first_le_total : Total first_le.
Proof. intros c d. unfold first_le. lia. Qed.

(** A sorted list of components of different nodes is sorted strictly. *)
Lemma first_le_strict (l : list (list nat)) :
  StronglySorted first_le l → NoDup l → (∀ c d, c ∈ l → d ∈ l → c !!! 0 = d !!! 0 → c = d) →
  StronglySorted (λ c d, c !!! 0 < d !!! 0) l.
Proof.
  induction 1 as [|c l Hl IH Hc]; intros Hnd Hinj; constructor; apply NoDup_cons in Hnd as [Hin Hnd].
  - apply IH; [done|]. intros d e Hd He. apply Hinj; set_solver.
  - rewrite Forall_forall in *. intros d Hd. specialize (Hc d Hd). unfold first_le in Hc.
    destruct (decide (c !!! 0 = d !!! 0)) as [E|]; [|lia].
    apply Hinj in E as ->; [done|set_solver..].
Qed.

Section exact.
Context (fwd rev : Adjacency).
Hypothesis Hfwd : wf_adj fwd.
Hypothesis Hrev : wf_adj rev.
Hypothesis Hlen : length rev = length fwd.
Hypothesis Hflip : ∀ u v, edge rev u v ↔ edge fwd v u.

Lemma cyclic_components_spec :
  (∀ c, c ∈ cyclic_components fwd rev → StronglySorted lt c ∧
     ∃ x, tc (edge fwd) x x ∧ ∀ v, v ∈ c ↔ scc fwd x v) ∧
  (∀ x, tc (edge fwd) x x → ∃ c, c ∈ cyclic_components fwd rev ∧ x ∈ c) ∧
  NoDup (cyclic_components fwd rev).
Proof.
  destruct (finish_order_all fwd Hfwd) as (Hnd & Hall & Ho). unfold cyclic_components.
  set (finished := finish_order fwd _ _ []) in *.
  destruct (components_of_spec fwd rev Hfwd Hrev Hlen Hflip finished (reverse finished)
    (replicate (length fwd) false) Ho Hnd Hall) as (H1 & H2 & H3).
  { by rewrite length_replicate. }
  { exists []. split; [done|]. intros v Hv. by apply elem_of_nil in Hv. }
  { intros u v _. by rewrite marked_replicate. }
  set (l := components_of fwd rev (reverse finished) (replicate (length fwd) false)) in *.
  assert (Hp : merge_sort first_le l ≡ₚ l) by apply merge_sort_Permutation.
  split_and!; [| |by rewrite Hp].
  - intros c. rewrite Hp. intros (x & _ & _ & Hcyc & Hs & Hndc & Hv)%H1.
    split; [by apply StronglySorted_lt|]. by exists x.
  - intros x Hcyc. setoid_rewrite Hp. apply H2; [|by rewrite marked_replicate|done].
    apply elem_of_reverse, Hall.
    by inversion Hcyc as [? ? He|? ? ? He]; subst; apply Hfwd in He as [? ?].
Qed.

(** The nodes on a cycle are those of the components. *)
Lemma cyclic_components_nodes v :
  (∃ c, c ∈ cyclic_components fwd rev ∧ v ∈ c) ↔ tc (edge fwd) v v.
Proof.
  destruct cyclic_components_spec as (H1 & H2 & _). split; [|apply H2].
  intros (c & Hc & Hv). apply H1 in Hc as (_ & x & Hx & Hs). apply Hs in Hv.
  apply (cyclic_node_scc fwd x v); [done|]. by symmetry.
Qed.

Lemma cyclic_components_inj c d v :
  c ∈ cyclic_components fwd rev → d ∈ cyclic_components fwd rev → v ∈ c → v ∈ d → c = d.
Proof.
  destruct cyclic_components_spec as (H1 & _).
  intros (Hs & x & _ & Hv)%H1 (Hsd & y & _ & Hvd)%H1 Hxc%Hv Hyd%Hvd.
  apply StronglySorted_lt_eq; [done|done|]. intros w. rewrite Hv, Hvd, Hxc. by rewrite Hyd.
Qed.
End exact.

(** The two depth-first passes compute the cycles of a graph: the components
    returned are the strongly connected components that contain a cycle, each
    once, its nodes in ascending order, the components by their first node. *)
Theorem cyclic_components_exact fwd rev :
  wf_adj fwd → wf_adj rev → length rev = length fwd →
  (∀ u v, edge rev u v ↔ edge fwd v u) →
  (∀ c, c ∈ cyclic_components fwd rev ↔
     StronglySorted lt c ∧ ∃ x, tc (edge fwd) x x ∧ ∀ v, v ∈ c ↔ scc fwd x v) ∧
  StronglySorted (λ c d, c !!! 0 < d !!! 0) (cyclic_components fwd rev).
Proof.
  intros Hfwd Hrev Hlen Hflip.
  destruct (cyclic_components_spec fwd rev Hfwd Hrev Hlen Hflip) as (H1 & H2 & H3). split.
  - intros c. split; [by apply H1|]. intros (Hs & x & Hcyc & Hv).
    destruct (H2 x Hcyc) as (d & Hd & Hxd). destruct (H1 d Hd) as (Hsd & y & _ & Hvd).
    assert (c = d) as ->; [|done]. apply StronglySorted_lt_eq; [done|done|].
    intros v. rewrite Hv, Hvd. apply Hvd in Hxd. by rewrite Hxd.
  - apply first_le_strict; [apply (StronglySorted_merge_sort _)|done|].
    intros c d Hcl Hdl E.
    assert (Hhead : ∀ e, e ∈ cyclic_components fwd rev → e !!! 0 ∈ e).
    { intros e (_ & z & _ & Hz)%H1.
      assert (Hin : z ∈ e) by (apply Hz; split; apply rtc_refl).
      destruct e; [by apply elem_of_nil in Hin|]. cbn. set_solver. }
    apply (cyclic_components_inj fwd rev Hfwd Hrev Hlen Hflip c d (c !!! 0)); [done|done|auto|].
    rewrite E. auto.
Qed.

(** *** A concrete graph: 0 ⇄ 1 → 2, 2 → 2 *)

Definition ex_fwd : Adjacency := [[1]; [0; 2]; [2]].
Definition ex_rev : Adjacency := [[1]; [0]; [1; 2]].

Lemma neighbours_out (adj : list (list nat)) u : adj !! u = None → adj !!! u = [].
Proof. rewrite list_lookup_total_alt. by intros ->. Qed.

Definition wf_adj_check (adj : Adjacency) : bool :=
  forallb (forallb (λ v, v <? length adj)) adj.
Lemma wf_adj_check_true adj : wf_adj_check adj = true → wf_adj adj.
Proof.
  unfold wf_adj_check, wf_adj, edge, Adjacency in *. rewrite forallb_true_iff. intros Hc u v Hv.
  destruct (is_Some_dec (adj !! u)) as [[l E]|E%eq_None_not_Some].
  - rewrite (list_lookup_total_correct _ _ _ E) in Hv. split; [by eapply lookup_lt_Some|].
    apply list_elem_of_lookup_2, Hc in E. rewrite forallb_true_iff in E.
    by apply Nat.ltb_lt, E.
  - rewrite (neighbours_out adj u E) in Hv.
    by apply elem_of_nil in Hv.
Qed.

Lemma reachability_exact_witness :
  marked (reachability_from [0] ex_fwd) 2 = true ∧ ∃ s, s ∈ [0] ∧ rtc (edge ex_fwd) s 2.
Proof.
  split; [done|]. apply (reachability_exact [0] ex_fwd); [by apply wf_adj_check_true| |done].
  intros s ->%list_elem_of_singleton. cbn. lia.
Defined.

Lemma cyclic_components_exact_witness :
  cyclic_components ex_fwd ex_rev = [[0; 1]; [2]] ∧
  ∃ x, tc (edge ex_fwd) x x ∧ ∀ v, v ∈ [0; 1] ↔ scc ex_fwd x v.
Proof.
  split; [by vm_compute|].
  destruct (cyclic_components_exact ex_fwd ex_rev) as [Hc _];
    [by apply wf_adj_check_true..|done| |].
  - intros u v. unfold edge. do 3 (destruct u as [|u]; [do 3 (destruct v as [|v]; [cbn; set_solver|]); cbn; set_solver|]).
    do 3 (destruct v as [|v]; [cbn; set_solver|]). cbn. set_solver.
  - apply (Hc [0; 1]). assert (Hin : [0; 1] ∈ cyclic_components ex_fwd ex_rev) by (vm_compute; set_solver).
    done.
Defined.
