(* ===== verification/Wire.v ===== *)
(** * Byte framing

    The writers shared by the canonical encoders ([write_frame], [write_u16],
    [write_u32], [write_u64] of [workflow-ir/src/lib.rs]): fixed-width
    big-endian integers, length-prefixed text, one-byte option tags and counted
    lists.  A sink accumulates the bytes written to it, so a writer is the list
    of bytes it appends.

    [Delimits P f]: on the values that satisfy [P], a reader of [f x] followed by
    anything recovers [x] and where its bytes end; the class is closed under the
    combinators, so an encoder built from them is injective. *)

From S2P Require Import Prelude.

Definition byte_of (z : Z) : ascii := Ascii.ascii_of_N (Z.to_N z).

(** The low [n] bytes of [z], most significant first: [to_be_bytes]. *)
Fixpoint be_bytes (n : nat) (z : Z) : list ascii :=
  match n with
  | 0 => []
  | S n => be_bytes n (z `div` 256) ++ [byte_of (z `mod` 256)]
  end.

(*| ir/lib.rs 1105-1107 write_u16 *)
Definition write_u16 (z : Z) : list ascii := be_bytes 2 z.
(*| ir/lib.rs 1109-1111 write_u32 *)
Definition write_u32 (z : Z) : list ascii := be_bytes 4 z.
(*| ir/lib.rs 1113-1115 write_u64 *)
Definition write_u64 (z : Z) : list ascii := be_bytes 8 z.

(** [u64_from_usize] is the identity on a 64-bit target. *)
(*| ir/lib.rs 1100-1103 write_frame *)
Definition write_frame (value : string) : list ascii :=
  write_u64 (str_len value) ++ str_bytes value.

(** [match o { Some(x) => [1] f(x), None => [0] }]. *)
Definition write_option {A : Type} (f : A → list ascii) (o : option A) : list ascii :=
  match o with
  | Some x => byte_of 1 :: f x
  | None => [byte_of 0]
  end.

(** A count, then the elements. *)
Definition write_list {A : Type} (f : A → list ascii) (l : list A) : list ascii :=
  write_u64 (zlength l) ++ concat (map f l).

(** [if b { f(x) }]. *)
Definition write_if {A : Type} (b : bool) (f : A → list ascii) (x : A) : list ascii :=
  if b then f x else [].

(** [sink.write_chunk(&[tag])]. *)
Definition write_tag (tag : Z) : list ascii := [byte_of tag].

(** [u8::from(b)]. *)
Definition write_bool (b : bool) : list ascii := write_tag (if b then 1 else 0).

(** ** Delimiting *)

Class Delimits {A : Type} (P : A → Prop) (f : A → list ascii) := delimits :
  ∀ x y r s, P x → P y → f x ++ r = f y ++ s → x = y ∧ r = s.

Definition fits (n : nat) (z : Z) : Prop := (0 ≤ z < 256 ^ Z.of_nat n)%Z.
Definition u8 (z : Z) : Prop := (0 ≤ z < 256)%Z.
(** A text whose length is a [usize]: every Rust [String]. *)
Definition str_fits (s : string) : Prop := u64 (str_len s).
Definition list_fits {A : Type} (P : A → Prop) (l : list A) : Prop :=
  u64 (zlength l) ∧ Forall P l.
Definition option_fits {A : Type} (P : A → Prop) (o : option A) : Prop :=
  from_option P True o.

#[export] Instance option_fits_dec {A} (P : A → Prop) `{∀ x, Decision (P x)} o :
  Decision (option_fits P o).
Proof. destruct o; cbn; apply _. Defined.
#[export] Instance list_fits_dec {A} (P : A → Prop) `{∀ x, Decision (P x)} l :
  Decision (list_fits P l).
Proof. unfold list_fits. apply _. Defined.

#[export] Instance fits_dec n z : Decision (fits n z).
Proof. unfold fits; apply _. Defined.
#[export] Instance str_fits_dec s : Decision (str_fits s).
Proof. unfold str_fits; apply _. Defined.

Lemma option_fits_mono {A} (P Q : A → Prop) o :
  (∀ x, P x → Q x) → option_fits P o → option_fits Q o.
Proof. destruct o; cbn; auto. Qed.

Lemma option_fits_True {A} (o : option A) : option_fits (λ _, True) o.
Proof. by destruct o. Qed.
#[export] Hint Resolve option_fits_True : kit.

Lemma byte_of_inj a b : (0 ≤ a < 256)%Z → (0 ≤ b < 256)%Z → byte_of a = byte_of b → a = b.
Proof.
  intros Ha Hb E. apply (f_equal Ascii.N_of_ascii) in E. unfold byte_of in E.
  rewrite !Ascii.N_ascii_embedding in E by lia. lia.
Qed.

Lemma cons_split {A} (x y : A) l k : x :: l = y :: k → x = y ∧ l = k.
Proof. by intros [= -> ->]. Qed.

Lemma be_bytes_length n z : length (be_bytes n z) = n.
Proof. revert z. induction n as [|n IH]; intros z; cbn; [done|]. rewrite length_app, IH. cbn. lia. Qed.

Lemma fits_div n z : fits (S n) z → fits n (z `div` 256).
Proof.
  unfold fits. rewrite Nat2Z.inj_succ, Z.pow_succ_r by lia. intros [??]. split.
  - apply Z.div_pos; lia.
  - apply Z.div_lt_upper_bound; lia.
Qed.

Lemma be_bytes_inj n a b : fits n a → fits n b → be_bytes n a = be_bytes n b → a = b.
Proof.
  revert a b. induction n as [|n IH]; intros a b Ha Hb; cbn.
  - unfold fits in *. cbn in *. lia.
  - intros [E1 [= E2]]%app_inj_2; [|done].
    apply IH in E1; [|by apply fits_div..].
    apply byte_of_inj in E2; [|apply Z.mod_pos_bound; lia..].
    rewrite (Z.div_mod a 256), (Z.div_mod b 256) by lia. congruence.
Qed.

#[export] Instance be_bytes_delimits n : Delimits (fits n) (be_bytes n).
Proof.
  intros x y r s Hx Hy E. apply app_inj_1 in E as [E Er]; [|by rewrite !be_bytes_length].
  split; [|done]. by apply be_bytes_inj in E.
Qed.
#[export] Instance write_u16_delimits : Delimits (fits 2) write_u16 := be_bytes_delimits 2.
#[export] Instance write_u32_delimits : Delimits (fits 4) write_u32 := be_bytes_delimits 4.
#[export] Instance write_u64_delimits : Delimits u64 write_u64.
Proof. exact (be_bytes_delimits 8). Qed.

Lemma str_bytes_length s : length (str_bytes s) = String.length s.
Proof. induction s; cbn; congruence. Qed.
Lemma str_bytes_inj a b : str_bytes a = str_bytes b → a = b.
Proof. revert b. induction a; intros [|? b]; cbn; intros [=]; f_equal; auto. Qed.

#[export] Instance write_frame_delimits : Delimits str_fits write_frame.
Proof.
  intros x y r s Hx Hy. unfold write_frame. rewrite <-!(assoc_L (++)).
  intros [E1 E2]%delimits; [|done..].
  apply app_inj_1 in E2 as [E2%str_bytes_inj ?]; [done|].
  rewrite !str_bytes_length. unfold str_len in E1. lia.
Qed.

#[export] Instance write_option_delimits {A} (P : A → Prop) f :
  Delimits P f → Delimits (option_fits P) (write_option f).
Proof.
  intros Hf [x|] [y|] r s Hx Hy; cbn [write_option app]; intros E.
  - apply cons_split in E as [_ E]. by destruct (Hf x y r s Hx Hy E) as [-> ->].
  - by apply cons_split in E as [E%byte_of_inj _].
  - by apply cons_split in E as [E%byte_of_inj _].
  - by apply cons_split in E as [_ ->].
Qed.

Lemma concat_delimits {A} (P : A → Prop) f `{Hf : !Delimits P f} l k r s :
  Forall P l → Forall P k → length l = length k →
  concat (map f l) ++ r = concat (map f k) ++ s → l = k ∧ r = s.
Proof.
  intros Hl. revert k. induction Hl as [|x l Hx Hl IH]; intros [|y k] Hk E; try done.
  inversion Hk; subst. cbn. rewrite <-!(assoc_L (++)).
  intros [-> E2]%delimits; [|done..].
  destruct (IH k) as [-> ->]; [done|cbn in E; lia|done..].
Qed.

#[export] Instance write_list_delimits {A} (P : A → Prop) f :
  Delimits P f → Delimits (list_fits P) (write_list f).
Proof.
  intros Hf x y r s [Hx Hxs] [Hy Hys]. unfold write_list. rewrite <-!(assoc_L (++)).
  intros [E1 E2]%delimits; [|done..].
  eapply concat_delimits; [done..| |done]. unfold zlength in E1. lia.
Qed.

(** A field left out unless [b]: recoverable where it then has one value. *)
Lemma write_if_delimits {A} (P : A → Prop) f (b : bool) (d : A) :
  Delimits P f → Delimits (λ x, P x ∧ (b = false → x = d)) (write_if b f).
Proof.
  intros Hf x y r s [Hx Hx'] [Hy Hy']. destruct b; cbn.
  - by apply Hf.
  - intros ->. by rewrite Hx', Hy'.
Qed.

#[export] Instance write_tag_delimits : Delimits u8 write_tag.
Proof.
  intros x y r s Hx Hy E. apply cons_split in E as [E ->]. split; [|done].
  by apply byte_of_inj in E.
Qed.

#[export] Instance write_bool_delimits : Delimits (λ _, True) write_bool.
Proof.
  intros x y r s _ _ E. apply (delimits (f := write_tag)) in E as [E ->]; [|by destruct x, y..].
  by destruct x, y.
Qed.

#[global] Arguments write_u16 : simpl never.
#[global] Arguments write_u32 : simpl never.
#[global] Arguments write_u64 : simpl never.
#[global] Arguments write_frame : simpl never.
#[global] Arguments write_option : simpl never.
#[global] Arguments write_list : simpl never.
#[global] Arguments write_if : simpl never.
#[global] Arguments write_tag : simpl never.
#[global] Arguments write_bool : simpl never.

(** That the values written are in the writer's domain. *)
Ltac fits_tac := destruct_and?; cbv beta; split_and?; eauto with kit.

(** Peel the first writer of the equation [E] of two outputs: the two values it
    wrote are equal, and [E] becomes the equation of what follows. *)
Ltac peel E :=
  rewrite <-?(assoc_L (++)) in E;
  match type of E with
  | ?f ?x ++ ?r = ?f ?y ++ ?s =>
      let V := fresh "V" in
      let P := open_constr:(_) in
      let D := constr:(_ : Delimits P f) in
      unshelve epose proof (D x y r s _ _ E) as [V E'];
        [solve [fits_tac]..|clear E; rename E' into E]
  end.
