(* ===== verification/Trust.v ===== *)
(** * Content provenance and synthetic secrets

    [workflow-runtime/src/security.rs]: the trust policy that classifies each
    content object by its author, the cache key that binds content to its
    provenance, synthetic honeytokens and their redaction from logs. *)

From S2P Require Import Prelude Hashing.
From S2P Require Import Text Wire.

#[local] Arguments String.append !_ _ /.

(*| runtime/security.rs 11-11 SECURITY_MODEL_VERSION *)
Definition SECURITY_MODEL_VERSION : string := "security-threat-model-v1".
(*| runtime/security.rs 12-12 SECRET_POLICY_VERSION *)
Definition SECRET_POLICY_VERSION : string := "synthetic-secret-policy-v1".
(*| runtime/security.rs 13-13 SYNTHETIC_HONEYTOKEN_PREFIX *)
Definition SYNTHETIC_HONEYTOKEN_PREFIX : string := "synthetic-honeytoken-v1:".

(*| runtime/security.rs 18-24 TrustDomain *)
Inductive TrustDomain :=
| TrustedPolicy | TrustedGoal | ConditionallyTrustedContent | UntrustedContent | SyntheticTrap.
#[export] Instance TrustDomain_eq_dec : EqDecision TrustDomain.
Proof. solve_decision. Defined.

(*| runtime/security.rs 27-35 TrustDomain::cache_salt *)
Definition cache_salt (domain : TrustDomain) : string :=
  match domain with
  | TrustedPolicy => "trust-domain:policy:v1"
  | TrustedGoal => "trust-domain:goal:v1"
  | ConditionallyTrustedContent => "trust-domain:conditional-content:v1"
  | UntrustedContent => "trust-domain:untrusted-content:v1"
  | SyntheticTrap => "trust-domain:synthetic-trap:v1"
  end.

(*| runtime/security.rs 40-43 ContentObjectKind *)
Inductive ContentObjectKind := IssueBodyKind | CommentKind.
#[export] Instance ContentObjectKind_eq_dec : EqDecision ContentObjectKind.
Proof. solve_decision. Defined.

(*| runtime/security.rs 241-246 ContentObjectKind::cache_tag *)
Definition cache_tag (kind : ContentObjectKind) : string :=
  match kind with IssueBodyKind => "issue_body" | CommentKind => "comment" end.

(*| runtime/security.rs 46-53 ContentProvenance *)
Record ContentProvenance := mk_ContentProvenance {
  provenance_kind : ContentObjectKind; provenance_scope : string; object_id : string;
  author : string; domain : TrustDomain; policy_digest : string }.

(*| runtime/security.rs 127-130 ContentObject *)
Inductive ContentObject :=
| IssueBody (object_id author : string)
| Comment (object_id author : string).

(*| runtime/security.rs 133-138 TrustPolicyError *)
Inductive TrustPolicyError := EmptyScope | EmptyAllowlistedAuthor | EmptyObjectId | EmptyAuthor.

(*| runtime/security.rs 155-159 TrustPolicy *)
Record TrustPolicy := mk_TrustPolicy {
  policy_scope : string; allowlisted_authors : gset string; trust_policy_digest : string }.

(*| runtime/security.rs 216-222 validate_non_blank *)
Definition validate_non_blank {E : Type} (value : string) (error : E) : result E unit :=
  if is_blank value then Err error else Ok tt.

(** [update_field] for each field in turn: the bytes hashed so far. *)
(*| runtime/security.rs 235-238 update_field *)
Definition update_fields (fields : list string) : list ascii :=
  concat (map write_frame fields).

Section trust.
Context `{Sha256}.

Definition digest_of (bytes : list ascii) : string := sha256 (string_of_list_ascii bytes).

(** A [BTreeSet]'s elements, in byte order. *)
Definition authors_in_order (authors : gset string) : list string :=
  sort_by_key id (elements authors).

(*| runtime/security.rs 224-233 canonical_policy_digest *)
Definition canonical_policy_digest (allowlisted : gset string) : string :=
  digest_of (update_fields ([SECURITY_MODEL_VERSION; SECRET_POLICY_VERSION;
                             "trust-policy-allowlist-v1"] ++ authors_in_order allowlisted)).

(*| runtime/security.rs 162-182 TrustPolicy::new *)
Definition TrustPolicy_new (scope : string) (authors : list string) :
    result TrustPolicyError TrustPolicy :=
  validate_non_blank scope EmptyScope;;
  for_each (λ a, validate_non_blank a EmptyAllowlistedAuthor) authors;;
  let allowlisted := list_to_set authors in
  Ok (mk_TrustPolicy scope allowlisted (canonical_policy_digest allowlisted)).

(*| runtime/security.rs 184-186 TrustPolicy::allows_author *)
Definition allows_author (policy : TrustPolicy) (author : string) : bool :=
  bool_decide (author ∈ allowlisted_authors policy).

(*| runtime/security.rs 56-75 ContentProvenance::from_parts *)
Definition from_parts (kind : ContentObjectKind) (scope object_id author : string)
    (domain : TrustDomain) (policy_digest : string) :
    result TrustPolicyError ContentProvenance :=
  validate_non_blank scope EmptyScope;;
  validate_non_blank object_id EmptyObjectId;;
  validate_non_blank author EmptyAuthor;;
  Ok (mk_ContentProvenance kind scope object_id author domain policy_digest).

Definition object_parts (object : ContentObject) : ContentObjectKind * string * string :=
  match object with
  | IssueBody object_id author => (IssueBodyKind, object_id, author)
  | Comment object_id author => (CommentKind, object_id, author)
  end.

(*| runtime/security.rs 188-213 TrustPolicy::classify *)
Definition classify (policy : TrustPolicy) (object : ContentObject) :
    result TrustPolicyError ContentProvenance :=
  let '(kind, object_id, author) := object_parts object in
  let domain := if bool_decide (author ∈ allowlisted_authors policy)
                then ConditionallyTrustedContent else UntrustedContent in
  from_parts kind (policy_scope policy) object_id author domain (trust_policy_digest policy).

(** The fields of the cache key, in the order they are hashed. *)
Definition cache_fields (p : ContentProvenance) (content : string) : list string :=
  [SECURITY_MODEL_VERSION; SECRET_POLICY_VERSION; policy_digest p; provenance_scope p;
   cache_tag (provenance_kind p); object_id p; author p; cache_salt (domain p); content].

(*| runtime/security.rs 97-109 ContentProvenance::cache_key *)
Definition cache_key (p : ContentProvenance) (content : string) : string :=
  digest_of (update_fields (cache_fields p content)).

(** ** Synthetic secrets *)

(*| runtime/security.rs 263-266 ExecutorTarget *)
Inductive ExecutorTarget := Simulated | Production.

(*| runtime/security.rs 289-294 SentinelProbe::bind *)
Definition SentinelProbe_bind (target : ExecutorTarget) : result unit unit :=
  match target with Simulated => Ok tt | Production => Err tt end.

(*| runtime/security.rs 331-335 SecretPolicyError *)
Inductive SecretPolicyError := EmptyTokenScope | EmptyNonce | RealSecretFixtureRejected.

(*| runtime/security.rs 303-319 SyntheticHoneytoken::for_scope *)
Definition for_scope (scope nonce : string) : result SecretPolicyError string :=
  if is_blank scope then Err EmptyTokenScope
  else if is_blank nonce then Err EmptyNonce
  else
    let digest := sha256 (scope +:+ String (byte_of 0) nonce) in
    Ok (SYNTHETIC_HONEYTOKEN_PREFIX +:+ hex digest).

(*| runtime/security.rs 325-327 SyntheticHoneytoken::is_synthetic *)
Definition is_synthetic (value : string) : bool :=
  match strip_prefix SYNTHETIC_HONEYTOKEN_PREFIX value with Some _ => true | None => false end.
End trust.

(*| runtime/security.rs 374-374 REDACTION_MARKER *)
Definition REDACTION_MARKER : string := "[REDACTED_SYNTHETIC]".

Definition token_byte (c : ascii) : bool :=
  is_ascii_alphanumeric c || byte_eq 45 c || byte_eq 95 c || byte_eq 46 c.

(** One round of the loop per unit of fuel; each consumes the prefix it finds, so
    the length of the line is enough. *)
Fixpoint redact (fuel : nat) (line : string) : string :=
  match fuel with
  | 0 => line
  | S fuel =>
      match split_once SYNTHETIC_HONEYTOKEN_PREFIX line with
      | None => line
      | Some (before, after) =>
          before +:+ REDACTION_MARKER +:+ redact fuel (skip_while token_byte after)
      end
  end.

(*| runtime/security.rs 390-409 redact_synthetic_markers *)
Definition redact_synthetic_markers (line : string) : string :=
  redact (String.length line) line.

(*| runtime/security.rs 375-388 SECRET_LIKE_KEYS *)
Definition SECRET_LIKE_KEYS : list string :=
  ["api_key"; "apikey"; "secret"; "secret_key"; "secret_access_key"; "access_token";
   "auth_token"; "private_key"; "password"; "credential"; "credentials"; "token"].

Definition first_byte (s : string) : option ascii :=
  match s with EmptyString => None | String c _ => Some c end.

(** The byte before a position: the last of [before], or [prev] if it is empty. *)
Fixpoint byte_before (prev : option ascii) (before : string) : option ascii :=
  match before with EmptyString => prev | String c before => byte_before (Some c) before end.

Definition none_or_not (p : ascii → bool) (o : option ascii) : bool :=
  from_option (λ c, negb (p c)) true o.
Definition is_byte (n : N) (o : option ascii) : bool := from_option (byte_eq n) false o.

(*| runtime/security.rs 469-478 is_key_boundary *)
Definition is_key_boundary (before after : option ascii) : bool :=
  none_or_not is_ascii_alphanumeric before && none_or_not is_ascii_alphanumeric after.

(*| runtime/security.rs 480-483 is_single_quoted_key *)
Definition is_single_quoted_key (before after : option ascii) : bool :=
  is_byte 39 before || is_byte 39 after.

(*| runtime/security.rs 502-507 is_redaction_suffix *)
Definition is_redaction_suffix (suffix : string) : bool :=
  match first_byte (trim_start suffix) with
  | None => true
  | Some c => byte_eq 44 c || byte_eq 125 c || byte_eq 93 c
  end.

Definition quote : string := String (byte_of 34) "".

(*| runtime/security.rs 485-500 is_redaction_value *)
Definition is_redaction_value (value : string) : bool :=
  match strip_prefix REDACTION_MARKER value with
  | Some suffix => is_redaction_suffix suffix
  | None =>
      match value ← strip_prefix quote value; value ← strip_prefix REDACTION_MARKER value;
            strip_prefix quote value with
      | Some suffix => is_redaction_suffix suffix
      | None => false
      end
  end.

Fixpoint str_drop (n : nat) (s : string) : string :=
  match n, s with
  | S n, String _ s => str_drop n s
  | _, _ => s
  end.

Definition key_byte (c : ascii) : bool := is_ascii_alphanumeric c || byte_eq 95 c || byte_eq 45 c.

(** The value assigned to a key whose name ends where [tail] starts, in the
    lowercase text: what follows an optional quote, [=] or [:]. *)
(*| runtime/security.rs 435-457 contains_unknown_secret_like_structure *)
Definition assigned_value (tail : string) : option string :=
  let tail := default tail (strip_prefix quote tail) in
  let tail := skip_while is_ascii_whitespace tail in
  match tail with
  | String c rest =>
      if byte_eq 61 c || byte_eq 58 c then Some (skip_while is_ascii_whitespace rest) else None
  | EmptyString => None
  end.

(** The occurrences of [key] in [rest], the lowercase text after [prev]; the same
    position of [line] has as many bytes after it.  Every round consumes a key. *)
(*| runtime/security.rs 419-465 contains_unknown_secret_like_structure *)
Fixpoint secret_key (fuel : nat) (line key : string) (prev : option ascii) (rest : string) : bool :=
  match fuel with
  | 0 => false
  | S fuel =>
      match split_once key rest with
      | None => false
      | Some (before, after) =>
          let prev := byte_before prev before in
          let tail := skip_while key_byte after in
          is_key_boundary prev (first_byte tail) &&
            (is_single_quoted_key prev (first_byte tail) ||
             match assigned_value tail with
             | Some value =>
                 negb (is_redaction_value
                   (str_drop (String.length line - String.length value) line))
             | None => false
             end) ||
          secret_key fuel line key (byte_before prev key) after
      end
  end.

(*| runtime/security.rs 411-467 contains_unknown_secret_like_structure *)
Definition contains_unknown_secret_like_structure (line : string) : bool :=
  let lower := to_ascii_lowercase line in
  existsb (str_contains lower) ["real-secret-fixture"; "fixture-placeholder"] ||
  existsb (λ key, secret_key (String.length line) line key None lower) SECRET_LIKE_KEYS.

(*| runtime/security.rs 365-371 SyntheticSecretPolicy::sanitize_log *)
Definition sanitize_log (line : string) : result SecretPolicyError string :=
  let redacted := redact_synthetic_markers line in
  if contains_unknown_secret_like_structure redacted then Err RealSecretFixtureRejected
  else Ok redacted.

Example sanitize_password : sanitize_log "db password = hunter2" = Err RealSecretFixtureRejected.
Proof. by vm_compute. Qed.
Example sanitize_redacted :
  sanitize_log "token: synthetic-honeytoken-v1:00ff, done" = Ok "token: [REDACTED_SYNTHETIC], done".
Proof. by vm_compute. Qed.

(** ** Classification *)

(** Provenance is exact: an object is classified exactly when the policy's
    scope, its identifier and its author are non-blank; it is conditionally
    trusted if its author is on the policy's allowlist and untrusted otherwise
    (never a trusted domain), and the rest of the provenance is the object's and
    the policy's own. *)
Theorem classify_exact policy object p :
  classify policy object = Ok p ↔
  let '(kind, id, author') := object_parts object in
  is_blank (policy_scope policy) = false ∧ is_blank id = false ∧ is_blank author' = false ∧
  p = mk_ContentProvenance kind (policy_scope policy) id author'
        (if bool_decide (author' ∈ allowlisted_authors policy)
         then ConditionallyTrustedContent else UntrustedContent)
        (trust_policy_digest policy).
Proof.
  unfold classify, from_parts, validate_non_blank.
  destruct (object_parts object) as [[kind id] author'].
  destruct (is_blank (policy_scope policy)), (is_blank id), (is_blank author'); cbn; naive_solver.
Qed.

(** ** Cache keys *)

Section keys.
Context `{Sha256} `{!Inj (=) (=) sha256}.

Lemma string_of_list_ascii_inj a b : string_of_list_ascii a = string_of_list_ascii b → a = b.
Proof.
  intros E. rewrite <-(list_ascii_of_string_of_list_ascii a), E.
  apply list_ascii_of_string_of_list_ascii.
Qed.

Lemma digest_of_inj a b : digest_of a = digest_of b → a = b.
Proof. unfold digest_of. intros E%(inj sha256). by apply string_of_list_ascii_inj. Qed.

(** A sequence of frames determines its fields. *)
Lemma update_fields_inj l k :
  Forall str_fits l → Forall str_fits k → update_fields l = update_fields k → l = k.
Proof.
  intros Hl. revert k. unfold update_fields.
  induction Hl as [|x l Hx Hl IH]; intros [|y k] Hk E; [done|..]; cbn in E.
  - symmetry in E. apply app_eq_nil in E as [E _].
    apply (f_equal length) in E. unfold write_frame, write_u64 in E.
    rewrite length_app, be_bytes_length in E. cbn in E. lia.
  - apply app_eq_nil in E as [E _].
    apply (f_equal length) in E. unfold write_frame, write_u64 in E.
    rewrite length_app, be_bytes_length in E. cbn in E. lia.
  - inversion Hk; subst. apply delimits in E as [-> E]; [|done..]. f_equal. by apply IH.
Qed.

Definition provenance_fits (p : ContentProvenance) : Prop :=
  str_fits (policy_digest p) ∧ str_fits (provenance_scope p) ∧ str_fits (object_id p) ∧
  str_fits (author p).

#[export] Instance provenance_fits_dec p : Decision (provenance_fits p).
Proof. unfold provenance_fits, str_fits. apply _. Defined.

Lemma cache_fields_fit p content :
  provenance_fits p → str_fits content → Forall str_fits (cache_fields p content).
Proof.
  intros (?&?&?&?) ?. unfold cache_fields. rewrite !Forall_cons, Forall_nil.
  split_and?; try done.
  - by destruct (provenance_kind p).
  - by destruct (domain p).
Qed.

(** A cache key binds everything: with a collision-free hash, two equal keys
    are of the same content with the same provenance (kind, scope, identifier,
    author, trust domain and policy digest); in particular content never shares
    a key across trust domains. *)
Theorem cache_key_binds p q content content' :
  provenance_fits p → provenance_fits q → str_fits content → str_fits content' →
  cache_key p content = cache_key q content' → p = q ∧ content = content'.
Proof.
  intros Hp Hq Hc Hc' E. apply digest_of_inj, update_fields_inj in E;
    [|by apply cache_fields_fit..].
  destruct p as [k ? ? ? d ?], q as [k' ? ? ? d' ?]. unfold cache_fields in E. cbn in E.
  injection E as -> -> Hk -> -> Hd ->.
  assert (k = k') as -> by by destruct k, k'.
  assert (d = d') as -> by by destruct d, d'.
  done.
Qed.

Lemma authors_fit a :
  (∀ x, x ∈ a → str_fits x) → Forall str_fits ([SECURITY_MODEL_VERSION; SECRET_POLICY_VERSION;
    "trust-policy-allowlist-v1"] ++ authors_in_order a).
Proof.
  intros Ha. do 3 (constructor; [done|]). apply Forall_forall. intros x Hx.
  unfold authors_in_order in Hx. rewrite elem_of_sort_by_key, elem_of_elements in Hx. by apply Ha.
Qed.

(** The policy digest binds the allowlist: with a collision-free hash, two
    allowlists with the same digest are the same set of authors. *)
Theorem policy_digest_binds (a b : gset string) :
  (∀ x, x ∈ a → str_fits x) → (∀ x, x ∈ b → str_fits x) →
  canonical_policy_digest a = canonical_policy_digest b → a = b.
Proof.
  intros Ha Hb E. apply digest_of_inj, update_fields_inj in E; [|by apply authors_fit..].
  injection E as E. apply set_eq. intros x.
  rewrite <-(elem_of_elements a), <-(elem_of_elements b).
  rewrite <-(elem_of_sort_by_key id (elements a)), <-(elem_of_sort_by_key id (elements b)).
  unfold authors_in_order in E. by rewrite E.
Qed.
End keys.

(** ** Redaction *)

Lemma redact_lacks fuel line :
  String.length line ≤ fuel → lacks SYNTHETIC_HONEYTOKEN_PREFIX (redact fuel line).
Proof.
  revert line. induction fuel as [|fuel IH]; intros line Hf; cbn [redact].
  { destruct line; [|cbn in Hf; lia]. by apply split_once_None. }
  destruct (split_once SYNTHETIC_HONEYTOKEN_PREFIX line) as [[before after]|] eqn:E;
    [|by apply split_once_None].
  apply split_once_first in E as Hb; [|done]. apply split_once_Some in E.
  assert (Ha : String.length after < String.length line).
  { rewrite E, !str_length_app. cbn. lia. }
  destruct (skip_while_suffix token_byte after) as [u Hu].
  assert (Hs : String.length (skip_while token_byte after) ≤ fuel).
  { apply (f_equal String.length) in Hu. rewrite str_length_app in Hu. lia. }
  change (before +:+ REDACTION_MARKER +:+ redact fuel (skip_while token_byte after)) with
    (before +:+ String "["%char ("REDACTED_SYNTHETIC" +:+ String "]"%char
       (redact fuel (skip_while token_byte after)))).
  apply lacks_separated; [done|done|done|].
  apply lacks_separated; [done|done|by apply split_once_None|by apply IH].
Qed.

Lemma redact_fixed fuel line : lacks SYNTHETIC_HONEYTOKEN_PREFIX line → redact fuel line = line.
Proof.
  intros Hl. destruct fuel; [done|]. cbn [redact]. by rewrite (proj2 (split_once_None _ _) Hl).
Qed.

(** Redaction is complete and touches nothing else: the redacted line contains
    no synthetic honeytoken marker, a line without one is returned as it is, and
    so redacting twice is redacting once; a line that passes [sanitize_log] has
    none and no fixture pattern. *)
Theorem redaction_complete line :
  lacks SYNTHETIC_HONEYTOKEN_PREFIX (redact_synthetic_markers line) ∧
  (lacks SYNTHETIC_HONEYTOKEN_PREFIX line → redact_synthetic_markers line = line) ∧
  redact_synthetic_markers (redact_synthetic_markers line) = redact_synthetic_markers line ∧
  ∀ safe, sanitize_log line = Ok safe →
    lacks SYNTHETIC_HONEYTOKEN_PREFIX safe ∧
    str_contains (to_ascii_lowercase safe) "real-secret-fixture" = false ∧
    ∀ key, key ∈ SECRET_LIKE_KEYS →
      secret_key (String.length safe) safe key None (to_ascii_lowercase safe) = false.
Proof.
  assert (Hl : ∀ line, lacks SYNTHETIC_HONEYTOKEN_PREFIX (redact_synthetic_markers line)).
  { intros l. by apply redact_lacks. }
  split_and!; [apply Hl|apply redact_fixed|apply redact_fixed, Hl|].
  intros safe. unfold sanitize_log.
  destruct (contains_unknown_secret_like_structure _) eqn:E; [done|]. intros [= <-].
  unfold contains_unknown_secret_like_structure in E. apply orb_false_iff in E as [Hp Hk].
  rewrite existsb_false_iff in Hp, Hk. split_and!; [apply Hl|apply Hp; set_solver|apply Hk].
Qed.

(** The honeytoken of a scope is not bound to the scope: the digest is of the
    scope, a zero byte and the nonce with no length, so a zero byte in either
    (neither is excluded) makes two pairs share a token, whatever the hash. *)
Theorem honeytoken_scope_collision `{Sha256} (a b c : string) (nul := String (byte_of 0)) :
  is_blank a = false → is_blank (b +:+ nul c) = false →
  is_blank (a +:+ nul b) = false → is_blank c = false →
  for_scope (a +:+ nul b) c = for_scope a (b +:+ nul c) ∧ ∃ token, for_scope a (b +:+ nul c) = Ok token.
Proof.
  intros Ha Hbc Hab Hc. unfold for_scope. rewrite Ha, Hbc, Hab, Hc. unfold nul.
  rewrite str_app_assoc. split; [done|by eexists].
Qed.

#[local] Instance ex_sha : Sha256 := λ s, s.
#[local] Instance ex_sha_inj : Inj (=) (=) (sha256 (Sha256 := ex_sha)).
Proof. by intros a b. Qed.

Definition ex_policy : TrustPolicy :=
  mk_TrustPolicy "acme/repo" {["alice"]} (canonical_policy_digest {["alice"]}).
Definition ex_provenance (author : string) (domain : TrustDomain) : ContentProvenance :=
  mk_ContentProvenance CommentKind "acme/repo" "42" author domain (trust_policy_digest ex_policy).

Lemma cache_key_binds_witness :
  classify ex_policy (Comment "42" "alice") =
    Ok (ex_provenance "alice" ConditionallyTrustedContent) ∧
  cache_key (ex_provenance "alice" ConditionallyTrustedContent) "hi" ≠
  cache_key (ex_provenance "bob" UntrustedContent) "hi".
Proof.
  split; [by vm_compute|].
  assert (Hp : provenance_fits (ex_provenance "alice" ConditionallyTrustedContent)).
  { by apply (bool_decide_unpack _); vm_compute. }
  assert (Hq : provenance_fits (ex_provenance "bob" UntrustedContent)).
  { by apply (bool_decide_unpack _); vm_compute. }
  assert (Hc : str_fits "hi") by by apply (bool_decide_unpack _); vm_compute.
  intros E. destruct (cache_key_binds _ _ _ _ Hp Hq Hc Hc E) as [Ep _]. clear E.
  by apply (f_equal domain) in Ep.
Defined.

Lemma policy_digest_binds_witness :
  canonical_policy_digest {["alice"]} ≠ canonical_policy_digest {["alice"; "bob"]}.
Proof.
  assert (Hf : ∀ x, x ∈ ({["alice"; "bob"]} : gset string) → str_fits x).
  { intros x [->%elem_of_singleton| ->%elem_of_singleton]%elem_of_union;
      by apply (bool_decide_unpack _); vm_compute. }
  intros E.
  assert (Hs : ({["alice"]} : gset string) = {["alice"; "bob"]}).
  { apply policy_digest_binds; [|exact Hf|exact E].
    intros x Hx. by apply Hf, elem_of_union_l. }
  clear E. assert (Hb : "bob" ∈ ({["alice"; "bob"]} : gset string)).
  { by apply elem_of_union_r, elem_of_singleton. }
  rewrite <-Hs in Hb. by apply elem_of_singleton in Hb.
Defined.

Lemma honeytoken_scope_collision_witness :
  let nul := String (byte_of 0) in
  for_scope ("a" +:+ nul "b") "c" = for_scope "a" ("b" +:+ nul "c").
Proof. by apply (honeytoken_scope_collision "a" "b" "c"). Defined.
