(* ===== verification/Ir.v ===== *)
(** * The workflow IR and its canonical wire

    [workflow-ir/src/lib.rs]: the normalized workflow, its lowering from a
    specification, and the byte encoding whose SHA-256 is the workflow's content
    identity. *)

From S2P Require Import Prelude Hashing.
From S2P Require Import Order Wire Spec.

(*| ir/lib.rs 50-50 DOMAIN *)
Definition DOMAIN : list ascii :=
  str_bytes "adk-workflow-kit/workflow-ir" ++ [byte_of 0].

(** [IrSchemaVersion::V1.tag()]. *)
(*| ir/lib.rs 51-66 IrSchemaVersion::tag *)
Definition IR_SCHEMA_VERSION_V1 : Z := 1.

(** ** The data *)

(*| ir/lib.rs 92-105 IrNodeKind *)
Inductive IrNodeKind := IrAgent | IrAction | IrValidator | IrRegistered | IrApproval | IrTerminal.
#[export] Instance IrNodeKind_eq_dec : EqDecision IrNodeKind.
Proof. solve_decision. Defined.

(*| ir/lib.rs 108-117 IrNodeKind::tag *)
Definition kind_tag (kind : IrNodeKind) : Z :=
  match kind with
  | IrAgent => 1 | IrAction => 2 | IrValidator => 3
  | IrRegistered => 4 | IrApproval => 5 | IrTerminal => 6
  end.

(*| ir/lib.rs 178-183 IrModelRole *)
Inductive IrModelRole := IrWorker | IrReviewer.
#[export] Instance IrModelRole_eq_dec : EqDecision IrModelRole.
Proof. solve_decision. Defined.

(*| ir/lib.rs 186-191 IrModelRole::tag *)
Definition role_tag (role : IrModelRole) : Z :=
  match role with IrWorker => 1 | IrReviewer => 2 end.

(*| ir/lib.rs 196-200 IrModelReference *)
Record IrModelReference := mk_IrModelReference {
  irm_role : IrModelRole; irm_id : string; irm_version : string }.
#[export] Instance IrModelReference_eq_dec : EqDecision IrModelReference.
Proof. solve_decision. Defined.

(*| ir/lib.rs 221-224 IrToolReference *)
Record IrToolReference := mk_IrToolReference { irt_id : string; irt_version : string }.
#[export] Instance IrToolReference_eq_dec : EqDecision IrToolReference.
Proof. solve_decision. Defined.

(*| ir/lib.rs 240-243 IrSkillReference *)
Record IrSkillReference := mk_IrSkillReference { irs_id : string; irs_version : string }.
#[export] Instance IrSkillReference_eq_dec : EqDecision IrSkillReference.
Proof. solve_decision. Defined.

(*| ir/lib.rs 259-271 IrNode *)
Record IrNode := mk_IrNode {
  irn_id : NodeId; irn_kind : IrNodeKind; irn_timeout_ms : option Z;
  irn_max_visits : option Z; irn_idempotent : bool;
  irn_model : option IrModelReference; irn_tools : list IrToolReference;
  irn_skills : list IrSkillReference; irn_agent_contract : option AgentNodeContract;
  irn_untrusted_text : option UntrustedTextPreparation;
  irn_firewall : option FirewallContract }.
#[export] Instance IrNode_eq_dec : EqDecision IrNode.
Proof. solve_decision. Defined.

(*| ir/lib.rs 332-335 IrEdge *)
Record IrEdge := mk_IrEdge { ire_from : NodeId; ire_to : NodeId }.
#[export] Instance IrEdge_eq_dec : EqDecision IrEdge.
Proof. solve_decision. Defined.

(*| ir/lib.rs 339-342 IrResource *)
Record IrResource := mk_IrResource { irr_path : string; irr_sha256 : string }.
#[export] Instance IrResource_eq_dec : EqDecision IrResource.
Proof. solve_decision. Defined.

(*| ir/lib.rs 388-391 IrPredicateReference *)
Record IrPredicateReference := mk_IrPredicateReference {
  irp_id : string; irp_version : string }.
#[export] Instance IrPredicateReference_eq_dec : EqDecision IrPredicateReference.
Proof. solve_decision. Defined.

(*| ir/lib.rs 407-410 IrRouteCase *)
Record IrRouteCase := mk_IrRouteCase { irc_key : string; irc_target : NodeId }.
#[export] Instance IrRouteCase_eq_dec : EqDecision IrRouteCase.
Proof. solve_decision. Defined.

(*| ir/lib.rs 357-362 IrPredicateRoute *)
Record IrPredicateRoute := mk_IrPredicateRoute {
  irp_from : NodeId; irp_predicate : IrPredicateReference;
  irp_cases : list IrRouteCase; irp_default : option NodeId }.
#[export] Instance IrPredicateRoute_eq_dec : EqDecision IrPredicateRoute.
Proof. solve_decision. Defined.

(*| ir/lib.rs 470-475 IrStateKey *)
Record IrStateKey := mk_IrStateKey {
  irk_name : string; irk_schema_id : string; irk_schema_version : string;
  irk_handle : option string }.
#[export] Instance IrStateKey_eq_dec : EqDecision IrStateKey.
Proof. solve_decision. Defined.

(*| ir/lib.rs 439-444 IrState *)
Record IrState := mk_IrState {
  irs_schema_id : string; irs_schema_version : string; irs_required_keys : list string;
  irs_keys : list IrStateKey }.
#[export] Instance IrState_eq_dec : EqDecision IrState.
Proof. solve_decision. Defined.

(*| ir/compact_state.rs 18-27 IrCompactStateEndpoint *)
Inductive IrCompactStateEndpoint :=
| IrCodeInvestigation | IrGroundedAnswer | IrMultiHop | IrReview.
#[export] Instance IrCompactStateEndpoint_eq_dec : EqDecision IrCompactStateEndpoint.
Proof. solve_decision. Defined.

(*| ir/compact_state.rs 31-38 IrCompactStateEndpoint::as_str *)
Definition endpoint_str (endpoint : IrCompactStateEndpoint) : string :=
  match endpoint with
  | IrCodeInvestigation => "code.investigation"
  | IrGroundedAnswer => "grounded.answer"
  | IrMultiHop => "multi.hop"
  | IrReview => "review"
  end.

(*| ir/compact_state.rs 54-57 IrCompactStateExchange *)
Record IrCompactStateExchange := mk_IrCompactStateExchange {
  irx_from : IrCompactStateEndpoint; irx_to : IrCompactStateEndpoint }.
#[export] Instance IrCompactStateExchange_eq_dec : EqDecision IrCompactStateExchange.
Proof. solve_decision. Defined.

(** The schema version has one value, [V1]. *)
(*| ir/lib.rs 504-515 WorkflowIr *)
Record WorkflowIr := mk_WorkflowIr {
  ir_workflow_id : string; ir_workflow_version : string; ir_entry : NodeId;
  ir_nodes : list IrNode; ir_edges : list IrEdge; ir_routes : list IrPredicateRoute;
  ir_state : option IrState; ir_exchange : option IrCompactStateExchange;
  ir_resources : list IrResource }.
#[export] Instance WorkflowIr_eq_dec : EqDecision WorkflowIr.
Proof. solve_decision. Defined.

(** ** Lowering *)

(*| ir/lib.rs 624-629 From<&WorkflowSpec>::from *)
Definition cmp_tool : IrToolReference → IrToolReference → comparison :=
  cmp_then (cmp_by irt_id String.compare) (cmp_by irt_version String.compare).
(*| ir/lib.rs 641-646 From<&WorkflowSpec>::from *)
Definition cmp_skill : IrSkillReference → IrSkillReference → comparison :=
  cmp_then (cmp_by irs_id String.compare) (cmp_by irs_version String.compare).
(*| ir/lib.rs 696-702 From<&WorkflowSpec>::from *)
Definition cmp_node : IrNode → IrNode → comparison :=
  cmp_then (cmp_by irn_id String.compare) (cmp_by (λ n, kind_tag (irn_kind n)) Z.compare).
(*| ir/lib.rs 703-714 From<&WorkflowSpec>::from *)
Definition cmp_edge : IrEdge → IrEdge → comparison :=
  cmp_then (cmp_by ire_from String.compare) (cmp_by ire_to String.compare).
(*| ir/lib.rs 338-342 IrResource *)
Definition cmp_resource : IrResource → IrResource → comparison :=
  cmp_then (cmp_by irr_path String.compare) (cmp_by irr_sha256 String.compare).
(*| ir/lib.rs 675-680 From<&WorkflowSpec>::from *)
Definition cmp_case : IrRouteCase → IrRouteCase → comparison :=
  cmp_then (cmp_by irc_key String.compare) (cmp_by irc_target String.compare).
(*| ir/lib.rs 387-391 IrPredicateReference *)
Definition cmp_predicate : IrPredicateReference → IrPredicateReference → comparison :=
  cmp_then (cmp_by irp_id String.compare) (cmp_by irp_version String.compare).

(*| ir/lib.rs 715-723 From<&WorkflowSpec>::from *)
Definition cmp_route : IrPredicateRoute → IrPredicateRoute → comparison :=
  cmp_then (cmp_by irp_from String.compare)
    (cmp_then (cmp_by irp_predicate cmp_predicate)
       (cmp_then (cmp_by irp_cases (cmp_list cmp_case))
          (cmp_by irp_default (cmp_option String.compare)))).

(*| ir/lib.rs 591-598 From<&WorkflowSpec>::from *)
Definition lower_kind (kind : NodeKind) : IrNodeKind :=
  match kind with
  | Agent => IrAgent | Action => IrAction | Validator => IrValidator
  | Registered => IrRegistered | Approval => IrApproval | Terminal => IrTerminal
  end.

(*| ir/lib.rs 607-614 From<&WorkflowSpec>::from *)
Definition lower_model (m : ModelReference) : IrModelReference :=
  mk_IrModelReference
    match model_role m with Worker => IrWorker | ReviewerRole => IrReviewer end
    (model_id m) (model_version m).

(*| ir/lib.rs 587-654 From<&WorkflowSpec>::from *)
Definition lower_node (node : Node) : IrNode :=
  let kind := lower_kind (node_kind node) in
  mk_IrNode (node_id node) kind
    (if decide (kind = IrApproval) then timeout_ms node else None)
    (max_visits node) (idempotent node)
    (lower_model <$> model node)
    (sort_by cmp_tool
       (map (λ t, mk_IrToolReference (tool_ref_id t) (tool_ref_version t)) (tools node)))
    (sort_by cmp_skill
       (map (λ s, mk_IrSkillReference (skill_id s) (skill_version s)) (skills node)))
    (agent_contract node) (untrusted_text node) (firewall node).

(*| ir/lib.rs 655-662 From<&WorkflowSpec>::from *)
Definition lower_edge (e : Edge) : IrEdge := mk_IrEdge (edge_from e) (edge_to e).

(*| ir/lib.rs 663-694 From<&WorkflowSpec>::from *)
Definition lower_route (route : PredicateRoute) : IrPredicateRoute :=
  mk_IrPredicateRoute (route_from route)
    (mk_IrPredicateReference (predicate_id (predicate route))
       (predicate_version (predicate route)))
    (sort_by cmp_case (map (λ c, mk_IrRouteCase (case_key c) (case_target c)) (cases route)))
    (route_default route).

(*| ir/lib.rs 775-780 ir_resource *)
Definition ir_resource (r : ResourceReference) : IrResource :=
  mk_IrResource (resource_path r) (resource_sha256 r).

(*| ir/lib.rs 745-764 From<&WorkflowSpec>::from *)
Definition lower_state (s : StateSpec) : IrState :=
  mk_IrState (state_schema_id s) (state_schema_version s) (required_keys s)
    (map (λ k, mk_IrStateKey (key_name k) (key_schema_id k) (key_schema_version k)
            (h ← handle k; if str_eqb h "inline" then None else Some h)) (state_keys s)).

(*| ir/compact_state.rs 42-49 IrCompactStateEndpoint::from *)
Definition lower_endpoint (e : CompactStateEndpoint) : IrCompactStateEndpoint :=
  match e with
  | CodeInvestigation => IrCodeInvestigation
  | GroundedAnswerEndpoint => IrGroundedAnswer
  | MultiHopEndpoint => IrMultiHop
  | ReviewEndpoint => IrReview
  end.

(*| ir/compact_state.rs 77-79 IrCompactStateExchange::from *)
Definition lower_exchange (x : CompactStateExchange) : IrCompactStateExchange :=
  mk_IrCompactStateExchange (lower_endpoint (exchange_from x)) (lower_endpoint (exchange_to x)).

(** Every resource the specification declares, document first, then the
    workflow's, then each node's. *)
(*| ir/lib.rs 725-736 From<&WorkflowSpec>::from *)
Definition all_resources (spec : WorkflowSpec) : list ResourceReference :=
  (resources spec ++ workflow_resources (workflow spec)) ++
  concat (map node_resources (nodes spec)).

(*| ir/lib.rs 581-773 From<&WorkflowSpec>::from *)
Definition lower (spec : WorkflowSpec) : WorkflowIr :=
  mk_WorkflowIr (workflow_id (workflow spec)) (workflow_version (workflow spec))
    (entry (workflow spec))
    (sort_by cmp_node (map lower_node (nodes spec)))
    (sort_by cmp_edge (map lower_edge (edges spec)))
    (sort_by cmp_route (map lower_route (routes spec)))
    (lower_state <$> state spec)
    (lower_exchange <$> compact_state_exchange spec)
    (sort_by cmp_resource (map ir_resource (all_resources spec))).

(** ** The wire *)

(*| ir/lib.rs 819-827 encode_canonical *)
Definition has_cycle_policy (ir : WorkflowIr) : bool :=
  existsb (λ n, bool_decide (is_Some (irn_max_visits n)) || irn_idempotent n) (ir_nodes ir).

(*| ir/lib.rs 828-832 encode_canonical *)
Definition has_route_defaults (ir : WorkflowIr) : bool :=
  existsb (λ r, bool_decide (is_Some (irp_default r))) (ir_routes ir).

Definition behavioral_of (n : IrNode) : option BehavioralPolicy :=
  irn_untrusted_text n ≫= behavioral.
Definition trajectory_of (n : IrNode) : option TrajectoryPolicy :=
  behavioral_of n ≫= trajectory.


(*| ir/lib.rs 1029-1098 canonical_wire_version *)
Definition canonical_wire_version (ir : WorkflowIr) : Z :=
  let some_node p := existsb p (ir_nodes ir) in
  if some_node (λ n, match trajectory_of n with
                     | Some p => (trajectory_version p =? 3)%Z
                     | None => false
                     end) then 15
  else if is_some (ir_exchange ir) then 14
  else if some_node (λ n, is_some (trajectory_of n)) then 13
  else if some_node (λ n, is_some (behavioral_of n)) then 12
  else if some_node (λ n, is_some (irn_untrusted_text n)) then 11
  else if some_node (λ n, is_some (irn_firewall n)) then 10
  else if some_node (λ n, is_some (irn_agent_contract n)) then 9
  else if some_node (λ n, negb (is_nil (irn_skills n))) then 8
  else if some_node (λ n, is_some (irn_model n) || negb (is_nil (irn_tools n))) then 7
  else if negb (is_nil (ir_resources ir)) || has_cycle_policy ir || has_route_defaults ir
  then 5
  else if some_node (λ n, bool_decide (irn_kind n = IrApproval)) then 4
  else if is_some (ir_state ir) then 3
  else if is_nil (ir_routes ir) then 1
  else 2.

Section encode.
Context (wire_version : Z) (cycle_policy route_defaults : bool).

(** [wire_version >= CANONICAL_IR_WIRE_VERSION_Vn]. *)
Definition from_version (n : Z) : bool := (n <=? wire_version)%Z.

(*| ir/lib.rs 863-878 encode_canonical *)
Definition encode_trajectory (p : TrajectoryPolicy) : list ascii :=
  write_u16 (trajectory_version p) ++
  write_if (from_version 15)
    (write_option (λ mode, write_tag match mode with Disabled => 0 | Semantic => 1 end))
    (observer_mode p).

(*| ir/lib.rs 856-883 encode_canonical *)
Definition encode_behavioral (p : BehavioralPolicy) : list ascii :=
  write_u16 (behavioral_version p) ++ write_u64 (max_steps p) ++
  write_u64 (behavioral_timeout_ms p) ++
  write_if (from_version 13) (write_option encode_trajectory) (trajectory p).

(*| ir/lib.rs 845-886 encode_canonical *)
Definition encode_untrusted (p : UntrustedTextPreparation) : list ascii :=
  write_u16 (preparation_version p) ++ write_u64 (max_input_bytes p) ++
  write_bool (lang_en p) ++ write_bool (lang_zh p) ++ write_bool (lang_ja p) ++
  write_if (from_version 12) (write_option encode_behavioral) (behavioral p).

(*| ir/lib.rs 910-917 encode_canonical *)
Definition encode_model (m : IrModelReference) : list ascii :=
  write_tag (role_tag (irm_role m)) ++ write_frame (irm_id m) ++ write_frame (irm_version m).

(*| ir/lib.rs 918-926 encode_canonical *)
Definition encode_tools (ts : list IrToolReference) : list ascii :=
  if (wire_version =? 6)%Z then write_tag 0
  else write_list (λ t, write_frame (irt_id t) ++ write_frame (irt_version t)) ts.

(*| ir/lib.rs 927-933 encode_canonical *)
Definition encode_skills (ss : list IrSkillReference) : list ascii :=
  write_list (λ s, write_frame (irs_id s) ++ write_frame (irs_version s)) ss.

(*| ir/lib.rs 938-942 encode_canonical *)
Definition session_tag (session : SessionMode) : Z :=
  match session with Isolated => 1 | Shared => 2 end.

(*| ir/lib.rs 935-952 encode_canonical *)
Definition encode_contract (c : AgentNodeContract) : list ascii :=
  write_tag (session_tag (contract_session c)) ++
  write_frame (instruction_path (contract_instruction c)) ++
  write_frame (instruction_sha256 (contract_instruction c)) ++
  write_list write_frame (input_state_keys c) ++
  write_frame (output_state_key (contract_output c)) ++
  write_frame (output_schema (contract_output c)).

(*| ir/lib.rs 909-954 encode_canonical *)
Definition encode_bindings (n : IrNode) : list ascii :=
  write_option encode_model (irn_model n) ++ encode_tools (irn_tools n) ++
  write_if (from_version 8) encode_skills (irn_skills n) ++
  write_if (from_version 9) (write_option encode_contract) (irn_agent_contract n).

(*| ir/lib.rs 840-955 encode_canonical *)
Definition encode_node (n : IrNode) : list ascii :=
  write_frame (irn_id n) ++ write_tag (kind_tag (irn_kind n)) ++
  write_if (from_version 11) (write_option encode_untrusted) (irn_untrusted_text n) ++
  write_if (bool_decide (irn_kind n = IrApproval)) (write_option write_u64) (irn_timeout_ms n) ++
  write_if cycle_policy (write_option write_u32) (irn_max_visits n) ++
  write_if cycle_policy write_bool (irn_idempotent n) ++
  write_if (from_version 6) encode_bindings n.

(*| ir/lib.rs 958-965 encode_canonical *)
Definition encode_firewall (c : FirewallContract) : list ascii :=
  write_u64 (firewall_version c) ++ write_frame (firewall_identity c).

(*| ir/lib.rs 968-972 encode_canonical *)
Definition encode_edge (e : IrEdge) : list ascii :=
  write_frame (ire_from e) ++ write_frame (ire_to e).

(*| ir/lib.rs 974-993 encode_canonical *)
Definition encode_route (r : IrPredicateRoute) : list ascii :=
  write_frame (irp_from r) ++ write_frame (irp_id (irp_predicate r)) ++
  write_frame (irp_version (irp_predicate r)) ++
  write_list (λ c, write_frame (irc_key c) ++ write_frame (irc_target c)) (irp_cases r) ++
  write_if route_defaults (write_option write_frame) (irp_default r).

(*| ir/lib.rs 1003-1014 encode_canonical *)
Definition encode_state_key (k : IrStateKey) : list ascii :=
  write_frame (irk_name k) ++ write_frame (irk_schema_id k) ++
  write_frame (irk_schema_version k) ++ write_option write_frame (irk_handle k).

(*| ir/lib.rs 995-1015 encode_canonical *)
Definition encode_state (s : IrState) : list ascii :=
  write_frame (irs_schema_id s) ++ write_frame (irs_schema_version s) ++
  write_list write_frame (irs_required_keys s) ++ write_list encode_state_key (irs_keys s).
End encode.

(*| ir/lib.rs 1016-1019 encode_canonical *)
Definition encode_exchange (x : IrCompactStateExchange) : list ascii :=
  write_frame (endpoint_str (irx_from x)) ++ write_frame (endpoint_str (irx_to x)).

(*| ir/lib.rs 1020-1026 encode_canonical *)
Definition encode_resource (r : IrResource) : list ascii :=
  write_frame (irr_path r) ++ write_frame (irr_sha256 r).

(** An untagged optional section: absent, it leaves no byte. *)
Definition write_section {A : Type} (f : A → list ascii) (o : option A) : list ascii :=
  match o with Some x => f x | None => [] end.
Definition write_nonempty {A : Type} (f : A → list ascii) (l : list A) : list ascii :=
  write_if (negb (is_nil l)) (write_list f) l.

(*| ir/lib.rs 816-1027 encode_canonical *)
Definition encode_canonical (ir : WorkflowIr) : list ascii :=
  let wire_version := canonical_wire_version ir in
  let cycle_policy := has_cycle_policy ir in
  let route_defaults := has_route_defaults ir in
  DOMAIN ++ write_u16 wire_version ++ write_u32 IR_SCHEMA_VERSION_V1 ++
  write_frame (ir_workflow_id ir) ++ write_frame (ir_workflow_version ir) ++
  write_frame (ir_entry ir) ++
  write_list (encode_node wire_version cycle_policy) (ir_nodes ir) ++
  write_if (from_version wire_version 10)
    (λ ns, concat (map (λ n, write_option encode_firewall (irn_firewall n)) ns))
    (ir_nodes ir) ++
  write_list encode_edge (ir_edges ir) ++
  write_nonempty (encode_route route_defaults) (ir_routes ir) ++
  write_section encode_state (ir_state ir) ++
  write_section encode_exchange (ir_exchange ir) ++
  write_nonempty encode_resource (ir_resources ir).

(*| ir/lib.rs 569-573 WorkflowIr::canonical_hash *)
Definition canonical_ir_hash `{Sha256} (ir : WorkflowIr) : string :=
  sha256 (string_of_list_ascii (encode_canonical ir)).

(** ** Lowering forgets the order of declarations *)

(** An order compared field by field is exact. *)
Ltac cmp_exact_tac def :=
  intros [] [] E; unfold def, cmp_then, cmp_by in E; rewrite ?lex_Eq in E;
  destruct_and?;
  repeat match goal with E : _ = Eq |- _ => apply cmp_exact in E end;
  simplify_eq/=; done.

#[export] Instance cmp_tool_exact : CmpExact cmp_tool.
Proof. cmp_exact_tac cmp_tool. Qed.
#[export] Instance cmp_skill_exact : CmpExact cmp_skill.
Proof. cmp_exact_tac cmp_skill. Qed.
#[export] Instance cmp_edge_exact : CmpExact cmp_edge.
Proof. cmp_exact_tac cmp_edge. Qed.
#[export] Instance cmp_resource_exact : CmpExact cmp_resource.
Proof. cmp_exact_tac cmp_resource. Qed.
#[export] Instance cmp_case_exact : CmpExact cmp_case.
Proof. cmp_exact_tac cmp_case. Qed.
#[export] Instance cmp_predicate_exact : CmpExact cmp_predicate.
Proof. cmp_exact_tac cmp_predicate. Qed.
#[export] Instance cmp_route_exact : CmpExact cmp_route.
Proof. cmp_exact_tac cmp_route. Qed.

(** Two declarations of one node: the same but for the order of its tools and
    skills, its own resources, and a timeout that only an approval keeps. *)
Definition node_equiv (n m : Node) : Prop :=
  node_id n = node_id m ∧ node_kind n = node_kind m ∧
  (node_kind n = Approval → timeout_ms n = timeout_ms m) ∧
  max_visits n = max_visits m ∧ idempotent n = idempotent m ∧ model n = model m ∧
  tools n ≡ₚ tools m ∧ skills n ≡ₚ skills m ∧
  agent_contract n = agent_contract m ∧ untrusted_text n = untrusted_text m ∧
  firewall n = firewall m.

Definition route_equiv (r s : PredicateRoute) : Prop :=
  route_from r = route_from s ∧ predicate r = predicate s ∧
  cases r ≡ₚ cases s ∧ route_default r = route_default s.

(** Two documents that declare the same workflow in another order. *)
Record spec_equiv (s t : WorkflowSpec) : Prop := {
  eq_workflow : workflow_id (workflow s) = workflow_id (workflow t) ∧
                workflow_version (workflow s) = workflow_version (workflow t) ∧
                entry (workflow s) = entry (workflow t);
  eq_nodes : ∃ l, nodes s ≡ₚ l ∧ Forall2 node_equiv l (nodes t);
  eq_edges : edges s ≡ₚ edges t;
  eq_routes : ∃ l, routes s ≡ₚ l ∧ Forall2 route_equiv l (routes t);
  eq_state : state s = state t;
  eq_exchange : compact_state_exchange s = compact_state_exchange t;
  eq_resources : all_resources s ≡ₚ all_resources t
}.

Lemma lower_node_equiv n m : node_equiv n m → lower_node n = lower_node m.
Proof.
  intros (Hi & Hk & Ht & Hv & Hd & Hm & Hts & Hss & Hc & Hu & Hf). unfold lower_node.
  rewrite Hi, Hk, Hv, Hd, Hm, Hc, Hu, Hf. f_equal.
  - rewrite Hk in Ht. case_decide as Ha; [|done]. apply Ht. by destruct (node_kind m).
  - by apply (sort_by_unique_exact _), Permutation_map.
  - by apply (sort_by_unique_exact _), Permutation_map.
Qed.

Lemma lower_route_equiv r s : route_equiv r s → lower_route r = lower_route s.
Proof.
  intros (Hf & Hp & Hc & Hd). unfold lower_route. rewrite Hf, Hp, Hd. f_equal.
  by apply (sort_by_unique_exact _), Permutation_map.
Qed.

Lemma Forall2_map_eq {A B} (R : A → A → Prop) (f : A → B) l k :
  (∀ x y, R x y → f x = f y) → Forall2 R l k → map f l = map f k.
Proof. intros Hf. induction 1; cbn; f_equal; auto. Qed.

Lemma irn_id_lower l : map irn_id (map lower_node l) = map node_id l.
Proof. rewrite map_map. done. Qed.

Lemma sorted_nodes_unique l1 l2 :
  NoDup (map irn_id l1) → l1 ≡ₚ l2 → sort_by cmp_node l1 = sort_by cmp_node l2.
Proof.
  intros Hnd. apply (sort_by_unique _). intros x y Hx Hy E.
  apply lex_Eq in E as [E _]. unfold cmp_by in E. apply cmp_exact in E.
  by eapply NoDup_map_inj_on.
Qed.

(** The lowering is a function of what is declared, not of the order it is
    declared in: documents with unique node identities that differ in the order
    of their nodes, edges, routes, cases, tools, skills and resources (wherever
    a resource is declared), or in a timeout outside an approval, lower to the
    same IR, hence have the same content identity. *)
Theorem lowering_order_insensitive s t :
  NoDup (map node_id (nodes s)) → spec_equiv s t → lower s = lower t.
Proof.
  intros Hnd [(Hi & Hv & He) (ln & Hn & Hn') Hed (lr & Hr & Hr') Hst Hx Hres].
  unfold lower. rewrite Hi, Hv, He, Hst, Hx.
  assert (sort_by cmp_node (map lower_node (nodes s)) =
          sort_by cmp_node (map lower_node (nodes t))) as ->.
  { rewrite <-(Forall2_map_eq _ lower_node ln _ lower_node_equiv Hn').
    apply sorted_nodes_unique; [by rewrite irn_id_lower|by apply Permutation_map]. }
  assert (sort_by cmp_route (map lower_route (routes s)) =
          sort_by cmp_route (map lower_route (routes t))) as ->.
  { rewrite <-(Forall2_map_eq _ lower_route lr _ lower_route_equiv Hr').
    by apply (sort_by_unique_exact _), Permutation_map. }
  f_equal; by apply (sort_by_unique_exact _), Permutation_map.
Qed.

(** ** Values of the machine

    What holds of every [WorkflowIr] in memory: integers of their width, lengths
    that are a [usize].  [ir_normal] is what the lowering adds (a timeout only on
    an approval) and what the host accepts of observers (a mode only in the
    third version of the trajectory policy). *)

Definition trajectory_fits (p : TrajectoryPolicy) : Prop := fits 2 (trajectory_version p).
Definition behavioral_fits (p : BehavioralPolicy) : Prop :=
  fits 2 (behavioral_version p) ∧ u64 (max_steps p) ∧ u64 (behavioral_timeout_ms p) ∧
  option_fits trajectory_fits (trajectory p).
Definition untrusted_fits (p : UntrustedTextPreparation) : Prop :=
  fits 2 (preparation_version p) ∧ u64 (max_input_bytes p) ∧
  option_fits behavioral_fits (behavioral p).
Definition model_fits (m : IrModelReference) : Prop :=
  str_fits (irm_id m) ∧ str_fits (irm_version m).
Definition tool_fits (t : IrToolReference) : Prop :=
  str_fits (irt_id t) ∧ str_fits (irt_version t).
Definition skill_fits (s : IrSkillReference) : Prop :=
  str_fits (irs_id s) ∧ str_fits (irs_version s).
Definition contract_fits (c : AgentNodeContract) : Prop :=
  str_fits (instruction_path (contract_instruction c)) ∧
  str_fits (instruction_sha256 (contract_instruction c)) ∧
  list_fits str_fits (input_state_keys c) ∧
  str_fits (output_state_key (contract_output c)) ∧
  str_fits (output_schema (contract_output c)).
Definition firewall_fits (c : FirewallContract) : Prop :=
  u64 (firewall_version c) ∧ str_fits (firewall_identity c).
Definition node_fits (n : IrNode) : Prop :=
  str_fits (irn_id n) ∧ option_fits u64 (irn_timeout_ms n) ∧
  option_fits (fits 4) (irn_max_visits n) ∧ option_fits model_fits (irn_model n) ∧
  list_fits tool_fits (irn_tools n) ∧ list_fits skill_fits (irn_skills n) ∧
  option_fits contract_fits (irn_agent_contract n) ∧
  option_fits untrusted_fits (irn_untrusted_text n) ∧
  option_fits firewall_fits (irn_firewall n).
Definition edge_fits (e : IrEdge) : Prop := str_fits (ire_from e) ∧ str_fits (ire_to e).
Definition case_fits (c : IrRouteCase) : Prop := str_fits (irc_key c) ∧ str_fits (irc_target c).
Definition route_fits (r : IrPredicateRoute) : Prop :=
  str_fits (irp_from r) ∧ str_fits (irp_id (irp_predicate r)) ∧
  str_fits (irp_version (irp_predicate r)) ∧ list_fits case_fits (irp_cases r) ∧
  option_fits str_fits (irp_default r).
Definition state_key_fits (k : IrStateKey) : Prop :=
  str_fits (irk_name k) ∧ str_fits (irk_schema_id k) ∧ str_fits (irk_schema_version k) ∧
  option_fits str_fits (irk_handle k).
Definition state_fits (s : IrState) : Prop :=
  str_fits (irs_schema_id s) ∧ str_fits (irs_schema_version s) ∧
  list_fits str_fits (irs_required_keys s) ∧ list_fits state_key_fits (irs_keys s).
Definition resource_fits (r : IrResource) : Prop :=
  str_fits (irr_path r) ∧ str_fits (irr_sha256 r).

Definition ir_fits (ir : WorkflowIr) : Prop :=
  str_fits (ir_workflow_id ir) ∧ str_fits (ir_workflow_version ir) ∧ str_fits (ir_entry ir) ∧
  list_fits node_fits (ir_nodes ir) ∧ list_fits edge_fits (ir_edges ir) ∧
  list_fits route_fits (ir_routes ir) ∧ option_fits state_fits (ir_state ir) ∧
  list_fits resource_fits (ir_resources ir).

Definition node_normal (n : IrNode) : Prop :=
  (irn_kind n ≠ IrApproval → irn_timeout_ms n = None) ∧
  option_fits (λ p, trajectory_version p ≠ 3%Z → observer_mode p = None) (trajectory_of n).
Definition ir_normal (ir : WorkflowIr) : Prop := Forall node_normal (ir_nodes ir).

Ltac dec_tac def := intros; unfold def; apply _.
#[export] Instance trajectory_fits_dec p : Decision (trajectory_fits p).
Proof. dec_tac trajectory_fits. Defined.
#[export] Instance behavioral_fits_dec p : Decision (behavioral_fits p).
Proof. dec_tac behavioral_fits. Defined.
#[export] Instance untrusted_fits_dec p : Decision (untrusted_fits p).
Proof. dec_tac untrusted_fits. Defined.
#[export] Instance model_fits_dec p : Decision (model_fits p).
Proof. dec_tac model_fits. Defined.
#[export] Instance tool_fits_dec p : Decision (tool_fits p).
Proof. dec_tac tool_fits. Defined.
#[export] Instance skill_fits_dec p : Decision (skill_fits p).
Proof. dec_tac skill_fits. Defined.
#[export] Instance contract_fits_dec p : Decision (contract_fits p).
Proof. dec_tac contract_fits. Defined.
#[export] Instance firewall_fits_dec p : Decision (firewall_fits p).
Proof. dec_tac firewall_fits. Defined.
#[export] Instance node_fits_dec p : Decision (node_fits p).
Proof. dec_tac node_fits. Defined.
#[export] Instance edge_fits_dec p : Decision (edge_fits p).
Proof. dec_tac edge_fits. Defined.
#[export] Instance case_fits_dec p : Decision (case_fits p).
Proof. dec_tac case_fits. Defined.
#[export] Instance route_fits_dec p : Decision (route_fits p).
Proof. dec_tac route_fits. Defined.
#[export] Instance state_key_fits_dec p : Decision (state_key_fits p).
Proof. dec_tac state_key_fits. Defined.
#[export] Instance state_fits_dec p : Decision (state_fits p).
Proof. dec_tac state_fits. Defined.
#[export] Instance resource_fits_dec p : Decision (resource_fits p).
Proof. dec_tac resource_fits. Defined.
#[export] Instance ir_fits_dec p : Decision (ir_fits p).
Proof. dec_tac ir_fits. Defined.
#[export] Instance node_normal_dec p : Decision (node_normal p).
Proof. dec_tac node_normal. Defined.
#[export] Instance ir_normal_dec p : Decision (ir_normal p).
Proof. dec_tac ir_normal. Defined.

(** ** Every part of the wire is delimited *)

#[export] Instance write_if_option_delimits {A} (P : A → Prop) f (b : bool) :
  Delimits P f →
  Delimits (λ o, option_fits P o ∧ (b = false → o = None)) (write_if b (write_option f)).
Proof. intros Hf. apply (write_if_delimits (option_fits P)), _. Qed.
#[export] Instance write_if_list_delimits {A} (P : A → Prop) f (b : bool) :
  Delimits P f →
  Delimits (λ l, list_fits P l ∧ (b = false → l = [])) (write_if b (write_list f)).
Proof. intros Hf. apply (write_if_delimits (list_fits P)), _. Qed.
#[export] Instance write_if_bool_delimits (b : bool) :
  Delimits (λ x, b = false → x = false) (write_if b write_bool).
Proof.
  intros x y r s Hx Hy.
  apply (write_if_delimits (λ _, True) write_bool b false write_bool_delimits); done.
Qed.

Section delimits.
Context (wv : Z).

Definition trajectory_ok (p : TrajectoryPolicy) : Prop :=
  trajectory_fits p ∧ (from_version wv 15 = false → observer_mode p = None).

#[export] Instance observer_delimits :
  Delimits (λ _, True) (λ mode : TrajectoryObserverMode,
    write_tag match mode with Disabled => 0 | Semantic => 1 end).
Proof.
  intros x y r s _ _ E. apply delimits in E as [E ->]; [|by destruct x, y..].
  by destruct x, y.
Qed.

#[export] Instance encode_trajectory_delimits :
  Delimits trajectory_ok (encode_trajectory wv).
Proof.
  intros [v m] [v' m'] r s [Hf Hm] [Hf' Hm'] E. unfold encode_trajectory in E. cbn in *.
  peel E. peel E. by subst.
Qed.

Definition behavioral_ok (p : BehavioralPolicy) : Prop :=
  behavioral_fits p ∧ (from_version wv 13 = false → trajectory p = None) ∧
  option_fits trajectory_ok (trajectory p).

#[export] Instance encode_behavioral_delimits :
  Delimits behavioral_ok (encode_behavioral wv).
Proof.
  intros [] [] r s (Hf & Ht & Ht') (Kf & Kt & Kt') E. unfold behavioral_fits in *.
  unfold encode_behavioral in E. cbn in *. do 4 peel E. by subst.
Qed.

Definition untrusted_ok (p : UntrustedTextPreparation) : Prop :=
  untrusted_fits p ∧ (from_version wv 12 = false → behavioral p = None) ∧
  option_fits behavioral_ok (behavioral p).

#[export] Instance encode_untrusted_delimits :
  Delimits untrusted_ok (encode_untrusted wv).
Proof.
  intros [] [] r s (Hf & Ht & Ht') (Kf & Kt & Kt') E. unfold untrusted_fits in *.
  unfold encode_untrusted in E. cbn in *. do 6 peel E. by subst.
Qed.
End delimits.

Lemma role_tag_byte x : u8 (role_tag x).
Proof. by destruct x. Qed.
#[export] Hint Resolve role_tag_byte : kit.

#[export] Instance encode_model_delimits : Delimits model_fits encode_model.
Proof.
  intros [ro ? ?] [ro' ? ?] r s Hf Kf E. unfold model_fits in *.
  unfold encode_model in E. cbn -[role_tag] in *. do 3 peel E. subst.
  by destruct ro, ro'.
Qed.

Lemma session_tag_byte m : u8 (session_tag m).
Proof. by destruct m. Qed.
#[export] Hint Resolve session_tag_byte : kit.

#[export] Instance encode_contract_delimits : Delimits contract_fits encode_contract.
Proof.
  intros [[] ? [] m] [[] ? [] m'] r s Hf Kf E. unfold contract_fits in *.
  unfold encode_contract in E. cbn -[session_tag] in *. do 6 peel E. subst.
  by destruct m, m'.
Qed.

(** A record written field by field, each in its own writer. *)
Ltac delimits_tac enc fit :=
  intros [] [] r s Hf Kf E; try unfold fit in *; unfold enc in E; cbn in *;
  repeat peel E; simplify_eq; done.

#[export] Instance encode_tool_delimits :
  Delimits tool_fits (λ t, write_frame (irt_id t) ++ write_frame (irt_version t)).
Proof. intros [] [] r s Hf Kf E. unfold tool_fits in *. cbn in *. do 2 peel E. by subst. Qed.
#[export] Instance encode_skill_delimits :
  Delimits skill_fits (λ t, write_frame (irs_id t) ++ write_frame (irs_version t)).
Proof. intros [] [] r s Hf Kf E. unfold skill_fits in *. cbn in *. do 2 peel E. by subst. Qed.
#[export] Instance encode_case_delimits :
  Delimits case_fits (λ c, write_frame (irc_key c) ++ write_frame (irc_target c)).
Proof. intros [] [] r s Hf Kf E. unfold case_fits in *. cbn in *. do 2 peel E. by subst. Qed.

#[export] Instance encode_firewall_delimits : Delimits firewall_fits encode_firewall.
Proof. delimits_tac encode_firewall firewall_fits. Qed.
#[export] Instance encode_edge_delimits : Delimits edge_fits encode_edge.
Proof. delimits_tac encode_edge edge_fits. Qed.
#[export] Instance encode_resource_delimits : Delimits resource_fits encode_resource.
Proof. delimits_tac encode_resource resource_fits. Qed.
#[export] Instance encode_state_key_delimits : Delimits state_key_fits encode_state_key.
Proof. delimits_tac encode_state_key state_key_fits. Qed.
#[export] Instance encode_state_delimits : Delimits state_fits encode_state.
Proof. delimits_tac encode_state state_fits. Qed.

#[export] Instance encode_skills_delimits : Delimits (list_fits skill_fits) encode_skills.
Proof. unfold encode_skills. apply _. Qed.
#[export] Instance encode_tools_delimits wv :
  TCEq (wv =? 6)%Z false → Delimits (list_fits tool_fits) (encode_tools wv).
Proof. unfold encode_tools. intros ->%TCEq_eq. apply _. Qed.

#[export] Instance encode_exchange_delimits : Delimits (λ _, True) encode_exchange.
Proof.
  intros [a b] [c d] r s _ _ E. unfold encode_exchange in E. cbn in E.
  assert (Hs : ∀ e, str_fits (endpoint_str e)) by (by intros []).
  do 2 peel E. by destruct a, b, c, d.
Qed.

Definition route_ok (route_defaults : bool) (r : IrPredicateRoute) : Prop :=
  route_fits r ∧ (route_defaults = false → irp_default r = None).

#[export] Instance encode_route_delimits d : Delimits (route_ok d) (encode_route d).
Proof.
  intros [? [] ? ?] [? [] ? ?] r s Hf Kf E. unfold route_ok, route_fits in *.
  unfold encode_route in E. cbn in *. do 5 peel E. by subst.
Qed.

(** *** Nodes *)

(** What a node leaves out of the wire is absent from it. *)
Record node_ok (wv : Z) (cycle_policy : bool) (n : IrNode) : Prop := {
  ok_fits : node_fits n;
  ok_timeout : bool_decide (irn_kind n = IrApproval) = false → irn_timeout_ms n = None;
  ok_visits : cycle_policy = false → irn_max_visits n = None;
  ok_idempotent : cycle_policy = false → irn_idempotent n = false;
  ok_bindings : from_version wv 6 = false →
    irn_model n = None ∧ irn_tools n = [] ∧ irn_skills n = [] ∧ irn_agent_contract n = None;
  ok_skills : from_version wv 8 = false → irn_skills n = [];
  ok_contract : from_version wv 9 = false → irn_agent_contract n = None;
  ok_untrusted : from_version wv 11 = false → irn_untrusted_text n = None;
  ok_policies : option_fits (untrusted_ok wv) (irn_untrusted_text n)
}.

Lemma kind_tag_inj j k : kind_tag j = kind_tag k → j = k.
Proof. by destruct j, k. Qed.
Lemma kind_tag_byte k : u8 (kind_tag k).
Proof. by destruct k. Qed.
#[export] Hint Resolve kind_tag_byte : kit.

(** The wire of a node, its firewall apart, which has its own section. *)
Definition plain_node (n : IrNode) : IrNode :=
  mk_IrNode (irn_id n) (irn_kind n) (irn_timeout_ms n) (irn_max_visits n) (irn_idempotent n)
    (irn_model n) (irn_tools n) (irn_skills n) (irn_agent_contract n) (irn_untrusted_text n)
    None.

Lemma encode_node_delimits wv c : (wv =? 6)%Z = false →
  Delimits (λ n, node_ok wv c n ∧ irn_firewall n = None) (encode_node wv c).
Proof.
  intros Hw x y r s [Hx Hfx] [Hy Hfy] E. apply TCEq_eq in Hw.
  destruct Hx as [Hx ? ? ? Hxb ? ? ? ?], Hy as [Hy ? ? ? Hyb ? ? ? ?].
  unfold node_fits in *. unfold encode_node in E.
  destruct x as [? kx ? ? ? ? ? ? ? ? ?], y as [? ky ? ? ? ? ? ? ? ? ?]. cbn -[kind_tag] in *.
  do 2 peel E. apply kind_tag_inj in V0. subst.
  do 4 peel E. subst. destruct (from_version wv 6); unfold write_if in E at 1 2.
  - unfold encode_bindings in E. cbn -[kind_tag] in E. do 4 peel E. by subst.
  - destruct (Hxb eq_refl) as (?&?&?&?), (Hyb eq_refl) as (?&?&?&?). by subst.
Qed.

(** *** The layout *)

(** A feature that would raise the wire version is absent below it. *)
Lemma wire_version_absent ir (some_node := λ p, existsb p (ir_nodes ir))
    (v := canonical_wire_version ir) :
  ((v < 15)%Z → some_node (λ n, match trajectory_of n with
                     | Some p => (trajectory_version p =? 3)%Z
                     | None => false
                     end) = false) ∧
  ((v < 14)%Z → is_some (ir_exchange ir) = false) ∧
  ((v < 13)%Z → some_node (λ n, is_some (trajectory_of n)) = false) ∧
  ((v < 12)%Z → some_node (λ n, is_some (behavioral_of n)) = false) ∧
  ((v < 11)%Z → some_node (λ n, is_some (irn_untrusted_text n)) = false) ∧
  ((v < 10)%Z → some_node (λ n, is_some (irn_firewall n)) = false) ∧
  ((v < 9)%Z → some_node (λ n, is_some (irn_agent_contract n)) = false) ∧
  ((v < 8)%Z → some_node (λ n, negb (is_nil (irn_skills n))) = false) ∧
  ((v < 7)%Z → some_node (λ n, is_some (irn_model n) || negb (is_nil (irn_tools n))) = false) ∧
  ((v < 5)%Z → negb (is_nil (ir_resources ir)) || has_cycle_policy ir || has_route_defaults ir
               = false) ∧
  ((v < 3)%Z → is_some (ir_state ir) = false ∧ is_nil (ir_routes ir) = (v =? 1)%Z) ∧
  v ≠ 6%Z ∧ (1 ≤ v ≤ 15)%Z.
Proof.
  subst some_node v. unfold canonical_wire_version. cbv zeta.
  repeat match goal with |- context [if ?b then _ else _] => destruct b eqn:? end;
    split_and?; intros; (done || lia).
Qed.

Lemma from_version_false wv k : from_version wv k = false ↔ (wv < k)%Z.
Proof. unfold from_version. rewrite Z.leb_gt. lia. Qed.

Lemma wire_version_ne_6 ir : (canonical_wire_version ir =? 6)%Z = false.
Proof. apply Z.eqb_neq. apply wire_version_absent. Qed.

Lemma has_cycle_policy_false ir n :
  has_cycle_policy ir = false → n ∈ ir_nodes ir →
  irn_max_visits n = None ∧ irn_idempotent n = false.
Proof.
  intros Hc Hn. unfold has_cycle_policy in Hc. rewrite existsb_false_iff in Hc.
  apply Hc, orb_false_iff in Hn as [Hv Hi]. rewrite bool_decide_eq_false in Hv.
  by rewrite <-eq_None_not_Some in Hv.
Qed.

(** The optional policies nested in a node. *)
Lemma policies_ok ir n (v := canonical_wire_version ir) :
  n ∈ ir_nodes ir → node_fits n → node_normal n →
  option_fits (untrusted_ok v) (irn_untrusted_text n).
Proof.
  intros Hn (_&_&_&_&_&_&_&Hf&_) [_ Hobs].
  destruct (wire_version_absent ir) as (H15&_&H13&H12&_). fold v in H15, H13, H12.
  rewrite !existsb_false_iff in H15, H13, H12.
  specialize (λ H, H15 H _ Hn). specialize (λ H, H13 H _ Hn). specialize (λ H, H12 H _ Hn).
  unfold trajectory_of, behavioral_of in *.
  destruct (irn_untrusted_text n) as [p|]; cbn in *; [|done].
  split; [done|]. rewrite from_version_false.
  split; [by intros ?%H12%is_some_false|].
  destruct Hf as (_&_&Hf). destruct (behavioral p) as [b|]; cbn in *; [|done].
  split; [done|]. rewrite from_version_false.
  split; [by intros ?%H13%is_some_false|].
  destruct Hf as (_&_&_&Hf). destruct (trajectory b) as [t|]; cbn in *; [|done].
  split; [done|]. rewrite from_version_false. intros Hv. apply Hobs.
  specialize (H15 Hv). lia.
Qed.

Lemma nodes_ok ir n :
  n ∈ ir_nodes ir → node_fits n → node_normal n →
  node_ok (canonical_wire_version ir) (has_cycle_policy ir) n.
Proof.
  intros Hn Hf Hnorm.
  destruct (wire_version_absent ir) as (_&_&_&_&H11&_&H9&H8&H7&_).
  rewrite !existsb_false_iff in *.
  specialize (λ H, H11 H _ Hn). specialize (λ H, H9 H _ Hn).
  specialize (λ H, H8 H _ Hn). specialize (λ H, H7 H _ Hn).
  split; [done| | | | | | | |by apply policies_ok].
  - rewrite bool_decide_eq_false. apply Hnorm.
  - intros Hc. by apply (has_cycle_policy_false ir n) in Hc as [??].
  - intros Hc. by apply (has_cycle_policy_false ir n) in Hc as [??].
  - rewrite from_version_false. intros Hv.
    specialize (H7 ltac:(lia)). specialize (H8 ltac:(lia)). specialize (H9 ltac:(lia)).
    apply orb_false_iff in H7 as [Hm Ht]. apply negb_false_iff in H8, Ht.
    split_and?; eauto using is_some_false, is_nil_true.
  - rewrite from_version_false. intros Hv. apply is_nil_true, negb_false_iff, H8. lia.
  - rewrite from_version_false. intros Hv. apply is_some_false, H9. lia.
  - rewrite from_version_false. intros Hv. apply is_some_false, H11. lia.
Qed.

(** The optional parts of the wire: which of them are written. *)
Definition layout (ir : WorkflowIr) : bool * bool * (bool * bool * bool * bool) :=
  (has_cycle_policy ir, has_route_defaults ir,
   (is_nil (ir_routes ir), is_some (ir_state ir), is_some (ir_exchange ir),
    is_nil (ir_resources ir))).

Lemma encode_header a b :
  encode_canonical a = encode_canonical b →
  canonical_wire_version a = canonical_wire_version b.
Proof.
  unfold encode_canonical. cbv zeta. intros E. apply app_inj_1 in E as [_ E]; [|done].
  assert (Hfit : ∀ ir, fits 2 (canonical_wire_version ir)).
  { intros ir. destruct (wire_version_absent ir) as (_&_&_&_&_&_&_&_&_&_&_&_&?).
    unfold fits. cbn. lia. }
  by peel E.
Qed.

Lemma write_nonempty_delimits {A} (P : A → Prop) f `{!Delimits P f} l k r s :
  is_nil l = is_nil k → list_fits P l → list_fits P k →
  write_nonempty f l ++ r = write_nonempty f k ++ s → l = k ∧ r = s.
Proof.
  unfold write_nonempty, write_if. intros Hn Hl Hk.
  destruct l, k; try done; cbn; by intros E%(delimits (f := write_list f)).
Qed.

Lemma write_section_delimits {A} (P : A → Prop) f `{!Delimits P f} o p r s :
  is_some o = is_some p → option_fits P o → option_fits P p →
  write_section f o ++ r = write_section f p ++ s → o = p ∧ r = s.
Proof.
  destruct o, p; cbn; try done. by intros _ ?? [-> ->]%delimits.
Qed.

Lemma write_nodes_plain v c l :
  write_list (encode_node v c) l = write_list (encode_node v c) (map plain_node l).
Proof.
  unfold write_list, zlength. rewrite length_map, map_map. done.
Qed.

Lemma plain_nodes_inj l k :
  map plain_node l = map plain_node k → map irn_firewall l = map irn_firewall k → l = k.
Proof.
  revert k. induction l as [|x l IH]; intros [|y k]; try done. cbn [map].
  intros [= ????? ????? El] [= Ef Efs]. f_equal; [|by apply IH].
  destruct x, y. cbn in *. congruence.
Qed.

Lemma plain_node_ok v c n : node_ok v c n → node_ok v c (plain_node n).
Proof.
  intros []. unfold node_fits in *. split; try done. cbn. destruct_and?. by split_and?.
Qed.

Lemma has_route_defaults_ok ir :
  list_fits route_fits (ir_routes ir) →
  list_fits (route_ok (has_route_defaults ir)) (ir_routes ir).
Proof.
  intros [Hl Hr]. split; [done|]. rewrite Forall_forall in *. intros r Hin. split; [by apply Hr|].
  unfold has_route_defaults. rewrite existsb_false_iff. intros Hd. apply Hd in Hin.
  rewrite bool_decide_eq_false in Hin. by apply eq_None_not_Some.
Qed.

(** A sequence of nodes and then their firewalls. *)
Lemma nodes_section_delimits v c l k r s :
  (v =? 6)%Z = false →
  list_fits (node_ok v c) l → list_fits (node_ok v c) k →
  (from_version v 10 = false → ∀ n, n ∈ l ++ k → irn_firewall n = None) →
  let firewalls ns := concat (map (λ n, write_option encode_firewall (irn_firewall n)) ns) in
  write_list (encode_node v c) l ++ write_if (from_version v 10) firewalls l ++ r =
  write_list (encode_node v c) k ++ write_if (from_version v 10) firewalls k ++ s →
  l = k ∧ r = s.
Proof.
  intros Hv [Hl Hlok] [Hk Hkok] Hfw firewalls E.
  assert (Hplain : ∀ ns, Forall (node_ok v c) ns → u64 (zlength ns) →
    list_fits (λ n, node_ok v c n ∧ irn_firewall n = None) (map plain_node ns)).
  { intros ns Hns Hn. split; [by unfold zlength in *; rewrite length_map|].
    apply Forall_map. apply (Forall_impl _ _ _ Hns). split; [by apply plain_node_ok|done]. }
  rewrite (write_nodes_plain _ _ l), (write_nodes_plain _ _ k) in E.
  pose proof (encode_node_delimits v c Hv) as Hd.
  apply (write_list_delimits _ _ Hd) in E as [El E]; [|by apply Hplain..].
  assert (length l = length k) as Hlen by (apply (f_equal length) in El; by rewrite !length_map in El).
  destruct (from_version v 10); unfold write_if in E.
  - subst firewalls. cbn beta in E.
    rewrite <-!(map_map irn_firewall (write_option encode_firewall)) in E.
    apply (concat_delimits (option_fits firewall_fits) _ (Hf := _)) in E as [Ef ->].
    + by rewrite (plain_nodes_inj l k).
    + apply Forall_map. apply (Forall_impl _ _ _ Hlok). intros n [Hn _ _ _ _ _ _ _ _]. apply Hn.
    + apply Forall_map. apply (Forall_impl _ _ _ Hkok). intros n [Hn _ _ _ _ _ _ _ _]. apply Hn.
    + by rewrite !length_map.
  - cbn in E. split; [|done]. apply plain_nodes_inj; [done|].
    assert (Hnone : ∀ ns, (∀ n, n ∈ ns → irn_firewall n = None) →
                     map irn_firewall ns = replicate (length ns) None).
    { intros ns. induction ns as [|n ns IH]; intros Hns; cbn; [done|].
      rewrite Hns, IH; [done|..]; set_solver. }
    rewrite !Hnone, Hlen; [done|..]; set_solver.
Qed.

Lemma encode_canonical_inj a b :
  ir_fits a → ir_normal a → ir_fits b → ir_normal b → layout a = layout b →
  encode_canonical a = encode_canonical b → a = b.
Proof.
  intros Ha Hna Hb Hnb [= Hc Hd Hr Hs Hx Hres] E.
  pose proof (encode_header _ _ E) as Hv. unfold encode_canonical in E. cbv zeta in E.
  destruct Ha as (?&?&?&[Hal Han]&?&Har&?&?), Hb as (?&?&?&[Hbl Hbn]&?&Hbr&?&?).
  pose proof (has_route_defaults_ok a Har) as Har'.
  pose proof (has_route_defaults_ok b Hbr) as Hbr'.
  assert (Hok : ∀ ir, Forall node_fits (ir_nodes ir) → ir_normal ir →
    Forall (node_ok (canonical_wire_version ir) (has_cycle_policy ir)) (ir_nodes ir)).
  { intros ir. unfold ir_normal. rewrite !Forall_forall. intros Hf Hn n Hin.
    apply nodes_ok; auto. }
  assert (Hfw : ∀ ir n, from_version (canonical_wire_version ir) 10 = false →
                 n ∈ ir_nodes ir → irn_firewall n = None).
  { intros ir n Hlt Hn. rewrite from_version_false in Hlt. apply is_some_false.
    destruct (wire_version_absent ir) as (_&_&_&_&_&Hfw&_).
    rewrite existsb_false_iff in Hfw. by apply Hfw. }
  pose proof (Hfw a) as Hfa. pose proof (Hfw b) as Hfb.
  pose proof (Hok a Han Hna) as Hoka. pose proof (Hok b Hbn Hnb) as Hokb.
  rewrite <-Hv, <-Hc, <-?Hd in *.
  do 2 (apply app_inj_1 in E as [_ E]; [|done]).
  apply app_inj_1 in E as [_ E]; [|done].
  do 3 peel E.
  apply nodes_section_delimits in E as [En E];
    [|apply wire_version_ne_6|done|done|intros ? n [?|?]%elem_of_app; eauto].
  peel E.
  apply write_nonempty_delimits with (P := route_ok (has_route_defaults a)) in E as [Er E];
    [|apply _|done..].
  apply write_section_delimits with (P := state_fits) in E as [Est E]; [|apply _|done..].
  apply write_section_delimits with (P := λ _, True) in E as [Ex E];
    [|apply _|done|apply option_fits_True..].
  rewrite <-(app_nil_r (write_nonempty encode_resource (ir_resources a))),
    <-(app_nil_r (write_nonempty encode_resource (ir_resources b))) in E.
  apply write_nonempty_delimits with (P := resource_fits) in E as [Ere _]; [|apply _|done..].
  destruct a, b. cbn in *. congruence.
Qed.

(** C38. The canonical wire identifies a workflow among those of its layout: of
    two IRs (with machine-sized values, a timeout only on approvals and an
    observer mode only in version-3 trajectory policies) that agree on which
    optional sections are present, the bytes are the same exactly when the IRs
    are the same; every field of every node, edge, route, state key, resource
    is bound. *)
Theorem canonical_encoding_injective a b :
  ir_fits a → ir_normal a → ir_fits b → ir_normal b → layout a = layout b →
  encode_canonical a = encode_canonical b ↔ a = b.
Proof.
  intros Ha Hna Hb Hnb Hl. split; [by apply encode_canonical_inj|by intros ->].
Qed.

(** A workflow in the first two wire versions (nodes without bindings or
    policies, edges and predicate routes, neither state nor resources) needs no
    such agreement: any IR with the same bytes is the same IR. *)
Theorem canonical_encoding_basic a b :
  ir_fits a → ir_normal a → ir_fits b → ir_normal b →
  (canonical_wire_version a ≤ 2)%Z →
  encode_canonical a = encode_canonical b ↔ a = b.
Proof.
  intros Ha Hna Hb Hnb Hv. split; [|by intros ->]. intros E.
  apply encode_canonical_inj; try done. apply encode_header in E as Hab.
  assert (Hbasic : ∀ ir, (canonical_wire_version ir ≤ 2)%Z →
    layout ir = (false, false, ((canonical_wire_version ir =? 1)%Z, false, false, true))).
  { intros ir Hir. unfold layout.
    destruct (wire_version_absent ir) as (_&Hx&_&_&_&_&_&_&_&H5&H3&_).
    destruct (H3 ltac:(lia)) as [-> ->]. rewrite Hx by lia.
    specialize (H5 ltac:(lia)). apply orb_false_iff in H5 as [[Hr ->]%orb_false_iff ->].
    by rewrite (proj1 (negb_false_iff _) Hr). }
  rewrite !Hbasic, Hab; [done|congruence|done].
Qed.

(** *** A concrete workflow *)

Definition ex_node (id : string) (kind : NodeKind) : Node :=
  mk_Node id kind (Some 5%Z) None false [] None [] [] None None None.
Definition ex_spec (version : string) : WorkflowSpec :=
  mk_WorkflowSpec (mk_Workflow "demo" version "start" [])
    [ex_node "start" Agent; ex_node "done" Terminal] [mk_Edge "start" "done"] [] None None [].
Definition ex_spec_permuted : WorkflowSpec :=
  mk_WorkflowSpec (mk_Workflow "demo" "1" "start" [])
    [ex_node "done" Terminal; ex_node "start" Agent] [mk_Edge "start" "done"] [] None None [].
(** The same with a resource, a model and a Skill. *)
Definition ex_rich (sha : string) : WorkflowSpec :=
  mk_WorkflowSpec (mk_Workflow "demo" "1" "start" [])
    [mk_Node "start" Agent None (Some 3%Z) true [mk_ResourceReference "prompt.md" sha]
       (Some (mk_ModelReference Worker "m" "1")) [mk_ToolReference "search" "2"]
       [mk_SkillReference "audit" "1"]
       (Some (mk_AgentNodeContract (mk_InstructionContract "i.md" "00") ["q"]
                (mk_OutputContract "a" "s") Isolated))
       (Some (mk_UntrustedTextPreparation 1 100 true false false
                (Some (mk_BehavioralPolicy 1 4 100 (Some (mk_TrajectoryPolicy 3 (Some Semantic)))))))
       (Some (mk_FirewallContract 1 "fw"));
     ex_node "done" Terminal] [mk_Edge "start" "done"]
    [mk_PredicateRoute "start" (mk_PredicateReference "p" "1") [mk_RouteCase "k" "done"]
       (Some "done")]
    (Some (mk_StateSpec "s" "1" ["q"] [mk_StateKey "q" "s" "1" (Some "inline")]))
    (Some (mk_CompactStateExchange CodeInvestigation ReviewEndpoint)) [].

Lemma lowering_order_insensitive_witness :
  NoDup (map node_id (nodes (ex_spec "1"))) ∧ lower (ex_spec "1") = lower ex_spec_permuted.
Proof.
  assert (Hnd : NoDup (map node_id (nodes (ex_spec "1")))) by by apply (bool_decide_unpack _).
  split; [done|]. apply lowering_order_insensitive; [done|]. split; try done.
  - exists [ex_node "done" Terminal; ex_node "start" Agent]. split; [apply Permutation_swap|].
    repeat constructor.
  - by exists [].
Defined.

Lemma canonical_encoding_injective_witness :
  encode_canonical (lower (ex_rich "aa")) ≠ encode_canonical (lower (ex_rich "ab")).
Proof.
  intros E. apply canonical_encoding_injective in E;
    [done|by apply (bool_decide_unpack _); vm_compute..|done].
Defined.

Lemma canonical_encoding_basic_witness :
  encode_canonical (lower (ex_spec "1")) ≠ encode_canonical (lower (ex_rich "ab")).
Proof.
  intros E. apply canonical_encoding_basic in E;
    [done|by apply (bool_decide_unpack _); vm_compute..|by vm_compute].
Defined.
