(* ===== verification/Graph.v ===== *)
(** * Graph and state validation

    [validate_graph] and [validate_state] of [workflow-compiler/src/lib.rs] with
    their helpers.  A position computed by the code is in range, so the model's
    lookups with a default never use it. *)

From stdpp Require Import relations.
From S2P Require Import Prelude Order Spec Ir Search.

(** ** Binary search

    [slice::binary_search_by] of the standard library: the position of some
    element that compares equal, if the slice is sorted. *)

Fixpoint bisect {A : Type} (cmp : A → comparison) (l : list A) (fuel base size : nat) : nat :=
  match fuel with
  | 0 => base
  | S fuel =>
      if size <=? 1 then base
      else
        let half := size / 2 in
        let mid := base + half in
        let base := match cmp <$> l !! mid with Some (Lt | Eq) => mid | _ => base end in
        bisect cmp l fuel base (size - half)
  end.

Definition binary_search_by {A : Type} (cmp : A → comparison) (l : list A) : option nat :=
  let base := bisect cmp l (length l) 0 (length l) in
  match cmp <$> l !! base with Some Eq => Some base | _ => None end.

(** The elements below what is searched for come first, those above it last. *)
Definition bisected {A : Type} (cmp : A → comparison) (l : list A) : Prop :=
  ∀ i j x y, i < j → l !! i = Some x → l !! j = Some y →
    (cmp x = Gt → cmp y = Gt) ∧ (cmp y = Lt → cmp x = Lt).

Lemma bisect_spec {A} (cmp : A → comparison) l fuel base size :
  bisected cmp l → size ≤ fuel → base + size ≤ length l →
  (∃ j x, base ≤ j < base + size ∧ l !! j = Some x ∧ cmp x = Eq) →
  cmp <$> l !! bisect cmp l fuel base size = Some Eq.
Proof.
  intros Hb. revert base size. induction fuel as [|fuel IH]; intros base size Hs Hl (j & x & Hj & Hx & E).
  { lia. }
  cbn [bisect]. destruct (size <=? 1) eqn:Hsize.
  - apply Nat.leb_le in Hsize. assert (j = base) as -> by lia. by rewrite Hx, <-E.
  - apply Nat.leb_gt in Hsize.
    assert (Hhalf : 1 ≤ size / 2 < size).
    { split; [apply Nat.div_le_lower_bound; lia|apply Nat.div_lt; lia]. }
    assert (Hhalf' : size / 2 ≤ size - size / 2).
    { pose proof (Nat.div_mod size 2). pose proof (Nat.mod_upper_bound size 2). lia. }
    destruct (lookup_lt_is_Some_2 l (base + size / 2)) as [y Hy]; [lia|].
    rewrite Hy. cbn [fmap option_fmap option_map].
    destruct (cmp y) eqn:Ey; apply IH; try lia.
    + exists (base + size / 2), y. split_and!; [lia|lia|done|done].
    + exists j, x. split_and!; [|lia|done|done].
      destruct (decide (j ≤ base + size / 2)) as [Hle|]; [|lia].
      destruct (decide (j = base + size / 2)) as [->|]; [congruence|].
      destruct (Hb j (base + size / 2) x y) as [_ Hlt]; [lia|done..|]. specialize (Hlt Ey). congruence.
    + exists j, x. split_and!; [lia| |done|done].
      destruct (decide (j < base + size / 2)) as [|Hge]; [lia|].
      destruct (decide (j = base + size / 2)) as [->|]; [congruence|].
      destruct (Hb (base + size / 2) j y x) as [Hgt _]; [lia|done..|]. specialize (Hgt Ey). congruence.
Qed.

Lemma binary_search_by_Some {A} (cmp : A → comparison) l i :
  binary_search_by cmp l = Some i → ∃ x, l !! i = Some x ∧ cmp x = Eq.
Proof.
  unfold binary_search_by. set (base := bisect _ _ _ _ _). destruct (l !! base) as [x|] eqn:E; cbn; [|done].
  destruct (cmp x) eqn:Ex; [|done..]. intros [= <-]. by exists x.
Qed.

Lemma binary_search_by_None {A} (cmp : A → comparison) l :
  bisected cmp l → binary_search_by cmp l = None → ∀ x, x ∈ l → cmp x ≠ Eq.
Proof.
  unfold binary_search_by. intros Hb Hn x (j & Hj)%list_elem_of_lookup E.
  apply lookup_lt_Some in Hj as Hlt.
  rewrite (bisect_spec cmp l) in Hn; [done|done|lia|lia|]. exists j, x. split_and!; [lia|lia|done|done].
Qed.

(** ** The definitions *)

(*| compiler/lib.rs 443-450 MissingEdgeEndpoint *)
Inductive MissingEdgeEndpoint := Origin | Destination | Both.

(*| compiler/lib.rs 454-510 GraphValidationError *)
Inductive GraphValidationError :=
| InvalidIdentifier (field_path : string)
| DuplicateNodeId (node_id : NodeId) (occurrences : nat)
| MissingEntryNode (entry_node_id : NodeId)
| DanglingEdge (from to : NodeId) (missing : MissingEdgeEndpoint)
| EmptyRouteCases
| DuplicateRouteOrigin
| MixedRouteAndEdgeOrigin
| DanglingRoute
| UnreachableNode (node_id : NodeId)
| NoReachableTerminal
| Cycle (node_ids : list NodeId)
| UnboundedCycle (node_ids : list NodeId)
| NonIdempotentCycleNode (node_id : NodeId)
| CannotReachTerminal (node_id : NodeId).

(** [for (path, value) in fields { if value.is_empty() { return path } }]. *)
Definition first_empty (fields : list (string * string)) : option string :=
  fst <$> List.find (λ field, str_is_empty (snd field)) fields.

(** [for x in l { if let Some(e) = f(x) { return Some(e) } }]. *)
Fixpoint find_map {A B : Type} (f : A → option B) (l : list A) : option B :=
  match l with
  | [] => None
  | x :: l => match f x with Some y => Some y | None => find_map f l end
  end.

Definition or_else {A : Type} (o p : option A) : option A :=
  match o with Some x => Some x | None => p end.

(** ADK's own node identifiers. *)
Definition reserved_id (id : NodeId) : bool :=
  existsb (str_eqb id) [""; "__start__"; "__end__"].

(*| compiler/lib.rs 704-758 invalid_identifier_error *)
Definition invalid_identifier_error (ir : WorkflowIr) : option GraphValidationError :=
  InvalidIdentifier <$>
  or_else (first_empty [("workflow.id", ir_workflow_id ir); ("workflow.entry", ir_entry ir)])
  (or_else
    (if existsb (λ n, reserved_id (irn_id n)) (ir_nodes ir) then Some "nodes[].id" else None)
  (or_else
    (find_map (λ e, first_empty [("edges[].from", ire_from e); ("edges[].to", ire_to e)])
       (ir_edges ir))
    (find_map (λ r,
       or_else
         (first_empty [("routes[].from", irp_from r);
                       ("routes[].predicate.id", irp_id (irp_predicate r));
                       ("routes[].predicate.version", irp_version (irp_predicate r))])
         (find_map (λ c, first_empty [("routes[].cases[].key", irc_key c);
                                      ("routes[].cases[].target", irc_target c)])
            (irp_cases r)))
       (ir_routes ir)))).

(** The run of nodes that repeat the identifier of the node before them. *)
Fixpoint leading (id : NodeId) (nodes : list IrNode) : nat :=
  match nodes with
  | [] => 0
  | n :: nodes => if str_eqb id (irn_id n) then S (leading id nodes) else 0
  end.

(*| compiler/lib.rs 760-776 duplicate_node_error *)
Fixpoint duplicate_node_error (nodes : list IrNode) : option GraphValidationError :=
  match nodes with
  | [] => None
  | n :: nodes =>
      match leading (irn_id n) nodes with
      | 0 => duplicate_node_error nodes
      | S more => Some (DuplicateNodeId (irn_id n) (S (S more)))
      end
  end.

(*| compiler/lib.rs 852-861 find_node_index *)
Definition find_node_index (nodes : list IrNode) (node_id : NodeId) : option nat :=
  binary_search_by (λ n, String.compare (irn_id n) node_id) nodes.

(** [routes.windows(2).any(|r| r[0].from() == r[1].from())]. *)
Fixpoint adjacent_origins (routes : list IrPredicateRoute) : bool :=
  match routes with
  | r :: ((s :: _) as routes) => str_eqb (irp_from r) (irp_from s) || adjacent_origins routes
  | _ => false
  end.

(*| compiler/lib.rs 831-850 route_structure_error *)
Definition route_structure_error (ir : WorkflowIr) : option GraphValidationError :=
  if existsb (λ r, is_nil (irp_cases r)) (ir_routes ir) then Some EmptyRouteCases
  else if adjacent_origins (ir_routes ir) then Some DuplicateRouteOrigin
  else if existsb (λ r, is_some (binary_search_by
                     (λ e, String.compare (ire_from e) (irp_from r)) (ir_edges ir)))
            (ir_routes ir) then Some MixedRouteAndEdgeOrigin
  else None.

(** [forward[from].push(to); reverse[to].push(from)]. *)
Definition add_edge (from to : nat) (g : Adjacency * Adjacency) : Adjacency * Adjacency :=
  (alter (λ l, l ++ [to]) from (fst g), alter (λ l, l ++ [from]) to (snd g)).

(*| compiler/lib.rs 785-807 adjacency *)
Definition declare_edge (nodes : list IrNode) (e : IrEdge) (g : Adjacency * Adjacency) :
    result GraphValidationError (Adjacency * Adjacency) :=
  match find_node_index nodes (ire_from e), find_node_index nodes (ire_to e) with
  | Some from, Some to => Ok (add_edge from to g)
  | from, to =>
      let missing := match from, to with
        | None, None => Both
        | None, Some _ => Origin
        | Some _, _ => Destination
        end in
      Err (DanglingEdge (ire_from e) (ire_to e) missing)
  end.

(*| compiler/lib.rs 812-826 adjacency *)
Definition declare_target (nodes : list IrNode) (from : nat) (target : NodeId)
    (g : Adjacency * Adjacency) : result GraphValidationError (Adjacency * Adjacency) :=
  match find_node_index nodes target with
  | Some to => Ok (add_edge from to g)
  | None => Err DanglingRoute
  end.

(** The targets of a route: its cases, then its default. *)
Definition route_targets (r : IrPredicateRoute) : list NodeId :=
  map irc_target (irp_cases r) ++ option_list (irp_default r).

(*| compiler/lib.rs 808-826 adjacency *)
Definition declare_route (nodes : list IrNode) (r : IrPredicateRoute)
    (g : Adjacency * Adjacency) : result GraphValidationError (Adjacency * Adjacency) :=
  match find_node_index nodes (irp_from r) with
  | None => Err DanglingRoute
  | Some from => try_fold (declare_target nodes from) (route_targets r) g
  end.

(*| compiler/lib.rs 778-829 adjacency *)
Definition adjacency (nodes : list IrNode) (ir : WorkflowIr) :
    result GraphValidationError (Adjacency * Adjacency) :=
  let empty := replicate (length nodes) [] in
  g ← try_fold (declare_edge nodes) (ir_edges ir) (empty, empty);
  try_fold (declare_route nodes) (ir_routes ir) g.

Definition id_at (nodes : list IrNode) (index : nat) : NodeId :=
  from_option irn_id "" (nodes !! index).

(** [iter().position(p)]. *)
Definition position {A : Type} (p : A → bool) (l : list A) : option nat :=
  fst <$> list_find (λ x, p x = true) l.

(** [bound] is [None] or 0. *)
Definition unbounded (n : IrNode) : bool :=
  match irn_max_visits n with None => true | Some bound => (bound =? 0)%Z end.
Definition is_action (n : IrNode) : bool := bool_decide (irn_kind n = IrAction).
Definition is_terminal (n : IrNode) : bool := bool_decide (irn_kind n = IrTerminal).
Definition node_is (p : IrNode → bool) (nodes : list IrNode) (index : nat) : bool :=
  from_option p false (nodes !! index).

(*| compiler/lib.rs 553-571 validate_graph *)
Definition check_component (nodes : list IrNode) (component : list nat) :
    result GraphValidationError unit :=
  if existsb (node_is unbounded nodes) component
  then Err (UnboundedCycle (map (id_at nodes) component))
  else
    match List.find (node_is (λ n, is_action n && negb (irn_idempotent n)) nodes) component with
    | Some index => Err (NonIdempotentCycleNode (id_at nodes index))
    | None => Ok tt
    end.

(** [if let Some(e) = o { return Err(e) }]. *)
Definition reject {E : Type} (o : option E) : result E unit :=
  match o with Some e => Err e | None => Ok tt end.

(** The checks made once the adjacency lists are built. *)
(*| compiler/lib.rs 535-585 validate_graph *)
Definition liveness_checks (nodes : list IrNode) (entry : nat) (forward reverse : Adjacency) :
    result GraphValidationError unit :=
  let reachable := reachability entry forward in
  reject ((λ index, UnreachableNode (id_at nodes index)) <$> position negb reachable);;
  let terminal_seeds :=
    List.filter (λ index, marked reachable index && node_is is_terminal nodes index)
      (seq 0 (length nodes)) in
  ensure (negb (is_nil terminal_seeds)) NoReachableTerminal;;
  for_each (check_component nodes) (cyclic_components forward reverse);;
  let can_reach_terminal := reachability_from terminal_seeds reverse in
  reject ((λ index, CannotReachTerminal (id_at nodes index)) <$>
    List.find (λ index, marked reachable index && negb (marked can_reach_terminal index))
      (seq 0 (length nodes))).

(*| compiler/lib.rs 516-586 validate_graph *)
Definition validate_graph (ir : WorkflowIr) : result GraphValidationError unit :=
  let nodes := ir_nodes ir in
  reject (invalid_identifier_error ir);;
  reject (duplicate_node_error nodes);;
  reject (route_structure_error ir);;
  entry ← match find_node_index nodes (ir_entry ir) with
          | Some entry => Ok entry
          | None => Err (MissingEntryNode (ir_entry ir))
          end;
  g ← adjacency nodes ir;
  let '(forward, reverse) := g in
  liveness_checks nodes entry forward reverse.

(** ** State *)

(*| compiler/lib.rs 589-589 STATE_SCHEMA_VERSION_V1 *)
Definition STATE_SCHEMA_VERSION_V1 : string := "1".
(*| compiler/lib.rs 595-595 HANDLE_SHAPES *)
Definition HANDLE_SHAPES : list string := ["inline"; "artifact"].

(*| compiler/lib.rs 601-627 StateValidationError *)
Inductive StateValidationError :=
| InvalidStateIdentifier (field_path : string)
| UnsupportedSchemaVersion (found : string)
| MissingRequiredKey (key_name : string)
| InvalidHandleShape (shape : string)
| UndeclaredAgentStateKey (key_name : string).

Definition declares (s : IrState) (key_name : string) : bool :=
  existsb (λ k, str_eqb (irk_name k) key_name) (irs_keys s).

(** The first key a node's contract reads or writes that is not declared. *)
Definition undeclared_key (state : option IrState) (n : IrNode) : option StateValidationError :=
  contract ← irn_agent_contract n;
  UndeclaredAgentStateKey <$>
    List.find (λ key, negb (from_option (λ s, declares s key) false state))
      (input_state_keys contract ++ [output_state_key (contract_output contract)]).

Definition key_identifiers (k : IrStateKey) : list (string * string) :=
  [("state.keys[].name", irk_name k); ("state.keys[].schema_id", irk_schema_id k);
   ("state.keys[].schema_version", irk_schema_version k)].

Definition bad_shape (k : IrStateKey) : option StateValidationError :=
  shape ← irk_handle k;
  if existsb (str_eqb shape) HANDLE_SHAPES then None else Some (InvalidHandleShape shape).

(*| compiler/lib.rs 634-702 validate_state *)
Definition validate_state (ir : WorkflowIr) : result StateValidationError unit :=
  reject (find_map (undeclared_key (ir_state ir)) (ir_nodes ir));;
  match ir_state ir with
  | None => Ok tt
  | Some s =>
      reject (InvalidStateIdentifier <$>
        first_empty [("state.schema_id", irs_schema_id s);
                     ("state.schema_version", irs_schema_version s)]);;
      reject (find_map (λ k, InvalidStateIdentifier <$> first_empty (key_identifiers k))
        (irs_keys s));;
      ensure (str_eqb (irs_schema_version s) STATE_SCHEMA_VERSION_V1)
        (UnsupportedSchemaVersion (irs_schema_version s));;
      reject (MissingRequiredKey <$>
        List.find (λ name, negb (declares s name)) (irs_required_keys s));;
      reject (find_map bad_shape (irs_keys s))
  end.

Example validate_demo : validate_graph (lower (ex_spec "1")) = Ok tt.
Proof. by vm_compute. Qed.

(** ** Sorted lists

    The lowering sorts; the binary searches and the run-length scans rely on it. *)

Definition key_ord {A : Type} (key : A → string) (x y : A) : Prop :=
  String.compare (key x) (key y) ≠ Gt.

Record ir_sorted (ir : WorkflowIr) : Prop := {
  sorted_nodes : StronglySorted (key_ord irn_id) (ir_nodes ir);
  sorted_edges : StronglySorted (key_ord ire_from) (ir_edges ir);
  sorted_routes : StronglySorted (key_ord irp_from) (ir_routes ir)
}.

Lemma StronglySorted_impl {A} (R S : relation A) l :
  (∀ x y, R x y → S x y) → StronglySorted R l → StronglySorted S l.
Proof.
  intros HRS. induction 1; constructor; [done|]. by eapply Forall_impl; [|apply HRS].
Qed.

Lemma sort_by_key_ord {A} (key : A → string) d l `{!Comparator d} :
  StronglySorted (key_ord key) (sort_by (cmp_then (cmp_by key String.compare) d) l).
Proof.
  apply (StronglySorted_impl (le_by (cmp_then (cmp_by key String.compare) d))).
  - intros x y. unfold le_by, cmp_then, cmp_by, key_ord. by destruct (String.compare _ _).
  - apply (StronglySorted_merge_sort _).
Qed.

Lemma lower_sorted spec : ir_sorted (lower spec).
Proof. split; apply sort_by_key_ord; apply _. Qed.

Lemma StronglySorted_lookup {A} (R : relation A) l i j x y :
  StronglySorted R l → i < j → l !! i = Some x → l !! j = Some y → R x y.
Proof.
  intros Hl. revert i j. induction Hl as [|z l Hl IH Hz]; intros i j Hij Hi Hj; [done|].
  destruct j as [|j]; [lia|]. cbn in Hj. destruct i as [|i]; cbn in Hi.
  - simplify_eq. rewrite Forall_forall in Hz. apply Hz. by eapply list_elem_of_lookup_2.
  - eapply IH; [|done..]. lia.
Qed.

Lemma key_ord_bisected {A} (key : A → string) t l :
  StronglySorted (key_ord key) l → bisected (λ x, String.compare (key x) t) l.
Proof.
  intros Hl i j x y Hij Hi Hj.
  pose proof (StronglySorted_lookup _ _ _ _ _ _ Hl Hij Hi Hj) as Hxy. unfold key_ord in Hxy.
  split.
  - intros Hx. destruct (String.compare (key y) t) eqn:Hy; [|..|done]; exfalso;
      (apply (cmp_trans (key x) (key y) t) in Hxy; [congruence|congruence]).
  - intros Hy. destruct (String.compare (key x) t) eqn:Hx; [|done|]; exfalso.
    + apply cmp_exact in Hx. rewrite <-Hx in Hy.
      rewrite (cmp_flip (key y) (key x)), Hy in Hxy. done.
    + apply (cmp_trans (key x) (key y) t) in Hxy; congruence.
Qed.

(** In a sorted list only a neighbour can repeat a key. *)
Lemma sorted_head_fresh {A} (key : A → string) x l :
  StronglySorted (key_ord key) (x :: l) →
  (∀ y, head l = Some y → key x ≠ key y) → key x ∉ map key l.
Proof.
  intros Hs Hh. destruct l as [|y l]; [by intros ?%elem_of_nil|].
  specialize (Hh y eq_refl). intros (z & Ez & Hz)%list_elem_of_fmap.
  inversion Hs as [|? ? Hl Hx]; subst. inversion Hl as [|? ? _ Hy]; subst.
  rewrite Forall_forall in Hx, Hy. apply Hh.
  assert (Hxy := Hx y ltac:(set_solver)). unfold key_ord in Hxy.
  apply elem_of_cons in Hz as [->|Hz]; [done|]. specialize (Hy z Hz). unfold key_ord in Hy.
  rewrite <-Ez, (cmp_flip (key x) (key y)) in Hy.
  destruct (String.compare (key x) (key y)) eqn:E; [by apply cmp_exact in E|done..].
Qed.

Lemma leading_0 id nodes : leading id nodes = 0 ↔ ∀ y, head nodes = Some y → id ≠ irn_id y.
Proof.
  destruct nodes as [|n nodes]; cbn; [done|]. unfold str_eqb. case_bool_decide; naive_solver.
Qed.

Lemma duplicate_node_error_None nodes :
  StronglySorted (key_ord irn_id) nodes →
  duplicate_node_error nodes = None ↔ NoDup (map irn_id nodes).
Proof.
  induction nodes as [|n nodes IH]; intros Hs; cbn; [by split; [constructor|]|].
  rewrite NoDup_cons. destruct (leading (irn_id n) nodes) as [|more] eqn:E.
  - rewrite IH by by inversion Hs. rewrite leading_0 in E.
    pose proof (sorted_head_fresh _ _ _ Hs E). tauto.
  - split; [done|]. intros [Hn _]. destruct nodes as [|m nodes]; cbn in *; [done|].
    unfold str_eqb in E. case_bool_decide; [set_solver|done].
Qed.

Lemma adjacent_origins_false routes :
  StronglySorted (key_ord irp_from) routes →
  adjacent_origins routes = false ↔ NoDup (map irp_from routes).
Proof.
  induction routes as [|r routes IH]; intros Hs; [by split; [constructor|]|].
  cbn [map]. rewrite NoDup_cons. destruct routes as [|s routes].
  { split; [|done]. intros _. split; [set_solver|constructor]. }
  change ((str_eqb (irp_from r) (irp_from s) || adjacent_origins (s :: routes)) = false ↔
          (irp_from r ∉ map irp_from (s :: routes)) ∧ NoDup (map irp_from (s :: routes))).
  rewrite orb_false_iff, IH by by inversion Hs. unfold str_eqb. rewrite bool_decide_eq_false.
  split; intros [Hr Hnd]; (split; [|done]).
  - apply (sorted_head_fresh irp_from r (s :: routes) Hs). cbn. by intros y [= <-].
  - cbn in Hr. set_solver.
Qed.

(** ** Node positions *)

Section index.
Context (nodes : list IrNode).
Hypothesis Hsorted : StronglySorted (key_ord irn_id) nodes.
Hypothesis Hunique : NoDup (map irn_id nodes).
#[local] Abbreviation ids := (map irn_id nodes).

Lemma find_node_index_Some id i : find_node_index nodes id = Some i ↔ ids !! i = Some id.
Proof.
  unfold find_node_index. split.
  - intros (n & Hn & E)%binary_search_by_Some. apply cmp_exact in E as <-.
    by rewrite list_lookup_fmap, Hn.
  - intros Hi. rewrite list_lookup_fmap in Hi.
    destruct (nodes !! i) as [n|] eqn:Hn; cbn in Hi; simplify_eq.
    destruct (binary_search_by _ nodes) as [j|] eqn:Ej.
    + apply binary_search_by_Some in Ej as (m & Hm & E). apply cmp_exact in E. f_equal.
      apply (NoDup_lookup ids j i (irn_id n)); [done|..]; rewrite list_lookup_fmap, ?Hm, ?Hn;
        cbn; congruence.
    + exfalso. eapply binary_search_by_None in Ej;
        [|by apply key_ord_bisected|by eapply list_elem_of_lookup_2].
      apply Ej. pose proof (cmp_flip (cmp := String.compare) (irn_id n) (irn_id n)) as Hf.
      by destruct (String.compare (irn_id n) (irn_id n)).
Qed.

Lemma find_node_index_None id : find_node_index nodes id = None ↔ id ∉ ids.
Proof.
  rewrite eq_None_not_Some. split; intros Hn Hin; apply Hn.
  - apply list_elem_of_lookup in Hin as [i Hi]. exists i. by apply find_node_index_Some.
  - destruct Hin as [i Hi%find_node_index_Some]. by eapply list_elem_of_lookup_2.
Qed.

Lemma find_node_index_is_Some id : is_Some (find_node_index nodes id) ↔ id ∈ ids.
Proof.
  rewrite <-not_eq_None_Some, find_node_index_None.
  destruct (decide (id ∈ ids)); tauto.
Qed.
End index.

(** ** The adjacency lists *)

(** An edge of the workflow: declared, or a case or default of a route. *)
Definition ir_edge (ir : WorkflowIr) (a b : NodeId) : Prop :=
  (∃ e, e ∈ ir_edges ir ∧ ire_from e = a ∧ ire_to e = b) ∨
  (∃ r, r ∈ ir_routes ir ∧ irp_from r = a ∧ b ∈ route_targets r).

(** The edges in the order the code adds them. *)
Definition edge_pair (e : IrEdge) : NodeId * NodeId := (ire_from e, ire_to e).
Definition route_pairs (r : IrPredicateRoute) : list (NodeId * NodeId) :=
  map (pair (irp_from r)) (route_targets r).
Definition ir_pairs (ir : WorkflowIr) : list (NodeId * NodeId) :=
  map edge_pair (ir_edges ir) ++ concat (map route_pairs (ir_routes ir)).

Lemma elem_of_concat {A} (x : A) ls : x ∈ concat ls ↔ ∃ l, l ∈ ls ∧ x ∈ l.
Proof. rewrite list_elem_of_In, in_concat. by setoid_rewrite list_elem_of_In. Qed.

Lemma elem_of_ir_pairs ir a b : (a, b) ∈ ir_pairs ir ↔ ir_edge ir a b.
Proof.
  unfold ir_pairs, ir_edge, edge_pair, route_pairs.
  rewrite elem_of_app, list_elem_of_fmap, elem_of_concat. split.
  - intros [(e & [= -> ->] & He)|(l & (r & -> & Hr)%list_elem_of_fmap & Hp)];
      [left; by exists e|right].
    apply list_elem_of_fmap in Hp as (t & [= -> ->] & Ht). by exists r.
  - intros [(e & He & <- & <-)|(r & Hr & <- & Hb)]; [left; by exists e|right].
    exists (map (pair (irp_from r)) (route_targets r)).
    split; apply list_elem_of_fmap; eauto.
Qed.

Fixpoint add_pairs (nodes : list IrNode) (pairs : list (NodeId * NodeId))
    (g : Adjacency * Adjacency) : option (Adjacency * Adjacency) :=
  match pairs with
  | [] => Some g
  | (a, b) :: pairs =>
      i ← find_node_index nodes a; j ← find_node_index nodes b;
      add_pairs nodes pairs (add_edge i j g)
  end.

Section adjacency.
Context (nodes : list IrNode).

Lemma add_pairs_app l k g :
  add_pairs nodes (l ++ k) g = (g' ← add_pairs nodes l g; add_pairs nodes k g').
Proof.
  revert g. induction l as [|[a b] l IH]; intros g; cbn; [done|].
  destruct (find_node_index nodes a), (find_node_index nodes b); cbn; [apply IH|done..].
Qed.

Lemma add_pairs_cons a b pairs g g' :
  add_pairs nodes ((a, b) :: pairs) g = Some g' ↔
  ∃ i j, find_node_index nodes a = Some i ∧ find_node_index nodes b = Some j ∧
    add_pairs nodes pairs (add_edge i j g) = Some g'.
Proof.
  cbn. destruct (find_node_index nodes a), (find_node_index nodes b); cbn; naive_solver.
Qed.

Lemma declare_edge_Ok e g g' :
  declare_edge nodes e g = Ok g' ↔
  ∃ i j, find_node_index nodes (ire_from e) = Some i ∧
    find_node_index nodes (ire_to e) = Some j ∧ g' = add_edge i j g.
Proof.
  unfold declare_edge.
  destruct (find_node_index nodes (ire_from e)), (find_node_index nodes (ire_to e)); naive_solver.
Qed.

Lemma declare_edges_Ok l g g' :
  try_fold (declare_edge nodes) l g = Ok g' ↔ add_pairs nodes (map edge_pair l) g = Some g'.
Proof.
  revert g. induction l as [|e l IH]; intros g; [cbn; naive_solver|].
  cbn [try_fold map]. unfold edge_pair at 1. rewrite add_pairs_cons, bind_Ok.
  setoid_rewrite declare_edge_Ok. setoid_rewrite <-IH. naive_solver.
Qed.

Lemma declare_target_Ok i t g g' :
  declare_target nodes i t g = Ok g' ↔
  ∃ j, find_node_index nodes t = Some j ∧ g' = add_edge i j g.
Proof. unfold declare_target. destruct (find_node_index nodes t); naive_solver. Qed.

Lemma declare_targets_Ok from i l g g' :
  find_node_index nodes from = Some i →
  try_fold (declare_target nodes i) l g = Ok g' ↔
  add_pairs nodes (map (pair from) l) g = Some g'.
Proof.
  intros Hi. revert g. induction l as [|t l IH]; intros g; [cbn; naive_solver|].
  cbn [try_fold map]. rewrite add_pairs_cons, bind_Ok.
  setoid_rewrite declare_target_Ok. setoid_rewrite <-IH. naive_solver.
Qed.

Lemma declare_route_Ok r g g' :
  declare_route nodes r g = Ok g' ↔
  is_Some (find_node_index nodes (irp_from r)) ∧ add_pairs nodes (route_pairs r) g = Some g'.
Proof.
  unfold declare_route. destruct (find_node_index nodes (irp_from r)) as [i|] eqn:Ei.
  - rewrite (declare_targets_Ok (irp_from r) i _ _ _ Ei). unfold route_pairs. naive_solver.
  - split; [done|]. by intros [[] _].
Qed.

Lemma declare_routes_Ok l g g' :
  try_fold (declare_route nodes) l g = Ok g' ↔
  add_pairs nodes (concat (map route_pairs l)) g = Some g' ∧
  (∀ r, r ∈ l → is_Some (find_node_index nodes (irp_from r))).
Proof.
  revert g. induction l as [|r l IH]; intros g.
  { cbn. split; [intros [= <-]; split; [done|set_solver]|naive_solver]. }
  cbn [try_fold map concat]. rewrite add_pairs_app, bind_Ok.
  setoid_rewrite declare_route_Ok. setoid_rewrite IH. split.
  - intros (g1 & [Hr ->] & Hg & Hl). split; [done|]. intros s [->|Hs]%elem_of_cons; auto.
  - intros [Hg Hr]. destruct (add_pairs nodes (route_pairs r) g) as [g1|]; [|done].
    exists g1. split_and!; [apply Hr; set_solver|done|done|]. intros s Hs. apply Hr. set_solver.
Qed.

Lemma adjacency_Ok ir g :
  adjacency nodes ir = Ok g ↔
  add_pairs nodes (ir_pairs ir) (replicate (length nodes) [], replicate (length nodes) []) = Some g ∧
  (∀ r, r ∈ ir_routes ir → is_Some (find_node_index nodes (irp_from r))).
Proof.
  unfold adjacency, ir_pairs. rewrite add_pairs_app, bind_Ok.
  setoid_rewrite declare_edges_Ok. setoid_rewrite declare_routes_Ok. split.
  - by intros (g1 & -> & ? & ?).
  - intros [Hg Hr]. destruct (add_pairs nodes (map edge_pair _) _) as [g1|]; [|done]. by exists g1.
Qed.

Lemma edge_alter (adj : list (list nat)) u v from to :
  from < length adj →
  edge (alter (λ l, l ++ [to]) from adj) u v ↔ edge adj u v ∨ u = from ∧ v = to.
Proof.
  intros Hlt. unfold edge, Adjacency in *. destruct (decide (u = from)) as [->|Hne].
  - rewrite list_lookup_total_alter_eq by done. set_solver.
  - rewrite list_lookup_total_alter_ne by done. naive_solver.
Qed.

(** What [add_pairs] adds: an edge between the positions of each pair. *)
Lemma add_pairs_spec pairs g g' :
  (∀ id i, find_node_index nodes id = Some i → i < length nodes) →
  length (fst g) = length nodes → length (snd g) = length nodes →
  add_pairs nodes pairs g = Some g' →
  length (fst g') = length nodes ∧ length (snd g') = length nodes ∧
  (∀ a b, (a, b) ∈ pairs → is_Some (find_node_index nodes a) ∧ is_Some (find_node_index nodes b)) ∧
  ∀ u v, let added := ∃ a b, (a, b) ∈ pairs ∧ find_node_index nodes a = Some u ∧
                      find_node_index nodes b = Some v in
    (edge (fst g') u v ↔ edge (fst g) u v ∨ added) ∧
    (edge (snd g') v u ↔ edge (snd g) v u ∨ added).
Proof.
  intros Hlt. revert g. induction pairs as [|[a b] pairs IH]; intros g Hf Hr E; cbn in E.
  { simplify_eq. split_and!; [done|done|set_solver|]. intros u v. cbn. set_solver. }
  destruct (find_node_index nodes a) as [i|] eqn:Ei; cbn in E; [|done].
  destruct (find_node_index nodes b) as [j|] eqn:Ej; cbn in E; [|done].
  apply IH in E as (Hf' & Hr' & Hall & Hadd); [|by unfold add_edge, Adjacency in *; cbn; rewrite length_alter..].
  split_and!; [done|done| |].
  - intros a' b' [[= -> ->]|Hin]%elem_of_cons; [by rewrite Ei, Ej|by apply Hall].
  - intros u v added. subst added. cbn in Hadd. destruct (Hadd u v) as [-> ->].
    apply Hlt in Ei as Hi. apply Hlt in Ej as Hj. rewrite <-Hf in Hi. rewrite <-Hr in Hj.
    rewrite (edge_alter _ _ _ _ _ Hi), (edge_alter _ _ _ _ _ Hj).
    assert (Hcons : (∃ a' b', (a', b') ∈ (a, b) :: pairs ∧ find_node_index nodes a' = Some u ∧
                       find_node_index nodes b' = Some v) ↔
      (u = i ∧ v = j) ∨ ∃ a' b', (a', b') ∈ pairs ∧ find_node_index nodes a' = Some u ∧
                       find_node_index nodes b' = Some v).
    { setoid_rewrite elem_of_cons. split.
      - intros (a' & b' & [[= -> ->]|Hin] & Hu & Hv); [left; split; congruence|right; eauto].
      - intros [[-> ->]|(a' & b' & Hin & Hu & Hv)]; eauto 10. }
    rewrite Hcons. tauto.
Qed.

Lemma add_pairs_is_Some pairs g :
  (∀ a b, (a, b) ∈ pairs → is_Some (find_node_index nodes a) ∧ is_Some (find_node_index nodes b)) →
  is_Some (add_pairs nodes pairs g).
Proof.
  revert g. induction pairs as [|[a b] pairs IH]; intros g Hall; cbn; [by eexists|].
  destruct (Hall a b) as [[i ->] [j ->]]; [set_solver|]. cbn. apply IH.
  intros a' b' Hin. apply Hall. set_solver.
Qed.
End adjacency.

(** ** What a valid workflow graph is *)

Definition ir_ids (ir : WorkflowIr) : list NodeId := map irn_id (ir_nodes ir).

Record valid_graph (ir : WorkflowIr) : Prop := {
  valid_identifiers :
    ir_workflow_id ir ≠ "" ∧ ir_entry ir ≠ "" ∧
    (∀ n, n ∈ ir_nodes ir → irn_id n ∉ [""; "__start__"; "__end__"]) ∧
    (∀ e, e ∈ ir_edges ir → ire_from e ≠ "" ∧ ire_to e ≠ "") ∧
    (∀ r, r ∈ ir_routes ir → irp_from r ≠ "" ∧ irp_id (irp_predicate r) ≠ "" ∧
       irp_version (irp_predicate r) ≠ "" ∧
       ∀ c, c ∈ irp_cases r → irc_key c ≠ "" ∧ irc_target c ≠ "");
  valid_unique : NoDup (ir_ids ir);
  valid_routes :
    (∀ r, r ∈ ir_routes ir → irp_cases r ≠ []) ∧
    NoDup (map irp_from (ir_routes ir)) ∧
    (∀ r e, r ∈ ir_routes ir → e ∈ ir_edges ir → ire_from e ≠ irp_from r);
  valid_entry : ir_entry ir ∈ ir_ids ir;
  valid_declared a b : ir_edge ir a b → a ∈ ir_ids ir ∧ b ∈ ir_ids ir;
  valid_reachable id : id ∈ ir_ids ir → rtc (ir_edge ir) (ir_entry ir) id;
  valid_cycles n : n ∈ ir_nodes ir → tc (ir_edge ir) (irn_id n) (irn_id n) →
    (∃ bound, irn_max_visits n = Some bound ∧ bound ≠ 0%Z) ∧
    (irn_kind n = IrAction → irn_idempotent n = true);
  valid_terminal id : id ∈ ir_ids ir →
    ∃ t, t ∈ ir_nodes ir ∧ irn_kind t = IrTerminal ∧ rtc (ir_edge ir) id (irn_id t)
}.

Lemma reject_Ok {E} (o : option E) u : reject o = Ok u ↔ o = None.
Proof. destruct o, u; naive_solver. Qed.
Lemma reject_bind_Ok {E A} (o : option E) (k : result E A) y :
  (reject o ≫= λ _, k) = Ok y ↔ o = None ∧ k = Ok y.
Proof. destruct o; naive_solver. Qed.
Lemma first_empty_None fields :
  first_empty fields = None ↔ ∀ f, f ∈ fields → snd f ≠ "".
Proof.
  unfold first_empty. rewrite fmap_None, find_None_iff. setoid_rewrite str_is_empty_false. done.
Qed.
Lemma find_map_None {A B} (f : A → option B) l :
  find_map f l = None ↔ ∀ x, x ∈ l → f x = None.
Proof.
  induction l as [|x l IH]; cbn; [set_solver|].
  destruct (f x) eqn:E; [|rewrite IH]; set_solver.
Qed.
Lemma or_else_None {A} (o p : option A) : or_else o p = None ↔ o = None ∧ p = None.
Proof. destruct o; naive_solver. Qed.
#[export] Hint Rewrite @reject_Ok first_empty_None @find_map_None @or_else_None @fmap_None : kit.

Lemma reserved_id_false id : reserved_id id = false ↔ id ∉ [""; "__start__"; "__end__"].
Proof.
  unfold reserved_id. rewrite existsb_false_iff. unfold str_eqb.
  setoid_rewrite bool_decide_eq_false. set_solver.
Qed.

Lemma invalid_identifier_None ir :
  invalid_identifier_error ir = None ↔
    ir_workflow_id ir ≠ "" ∧ ir_entry ir ≠ "" ∧
    (∀ n, n ∈ ir_nodes ir → irn_id n ∉ [""; "__start__"; "__end__"]) ∧
    (∀ e, e ∈ ir_edges ir → ire_from e ≠ "" ∧ ire_to e ≠ "") ∧
    (∀ r, r ∈ ir_routes ir → irp_from r ≠ "" ∧ irp_id (irp_predicate r) ≠ "" ∧
       irp_version (irp_predicate r) ≠ "" ∧
       ∀ c, c ∈ irp_cases r → irc_key c ≠ "" ∧ irc_target c ≠ "").
Proof.
  unfold invalid_identifier_error. rewrite fmap_None, !or_else_None, !find_map_None.
  setoid_rewrite or_else_None. setoid_rewrite find_map_None. setoid_rewrite first_empty_None.
  assert (Hn : (if existsb (λ n, reserved_id (irn_id n)) (ir_nodes ir)
                then Some "nodes[].id" else None) = None ↔
               ∀ n, n ∈ ir_nodes ir → irn_id n ∉ [""; "__start__"; "__end__"]).
  { setoid_rewrite <-reserved_id_false. rewrite <-existsb_false_iff.
    by destruct (existsb _ _). }
  rewrite Hn. clear Hn.
  assert (H2 : ∀ (p q : string) (a b : string),
    (∀ f, f ∈ [(p, a); (q, b)] → snd f ≠ "") ↔ a ≠ "" ∧ b ≠ "").
  { intros p q a b. setoid_rewrite elem_of_cons. setoid_rewrite list_elem_of_singleton. naive_solver. }
  assert (H3 : ∀ (p q s : string) (a b c : string),
    (∀ f, f ∈ [(p, a); (q, b); (s, c)] → snd f ≠ "") ↔ a ≠ "" ∧ b ≠ "" ∧ c ≠ "").
  { intros p q s a b c. do 2 setoid_rewrite elem_of_cons. setoid_rewrite list_elem_of_singleton.
    naive_solver. }
  setoid_rewrite H3. setoid_rewrite H2. split; intros Hall; destruct_and!; split_and!; auto;
    intros r Hr; [naive_solver..].
Qed.

Lemma route_structure_None ir :
  ir_sorted ir →
  route_structure_error ir = None ↔
    (∀ r, r ∈ ir_routes ir → irp_cases r ≠ []) ∧
    NoDup (map irp_from (ir_routes ir)) ∧
    (∀ r e, r ∈ ir_routes ir → e ∈ ir_edges ir → ire_from e ≠ irp_from r).
Proof.
  intros [_ He Hr]. unfold route_structure_error.
  rewrite <-(adjacent_origins_false _ Hr).
  assert (Hc : existsb (λ r, is_nil (irp_cases r)) (ir_routes ir) = false ↔
               ∀ r, r ∈ ir_routes ir → irp_cases r ≠ []).
  { rewrite existsb_false_iff. split; intros Hall r Hin; specialize (Hall r Hin);
      by destruct (irp_cases r). }
  rewrite <-Hc.
  assert (Hm : existsb (λ r, is_some (binary_search_by
                   (λ e, String.compare (ire_from e) (irp_from r)) (ir_edges ir)))
                 (ir_routes ir) = false ↔
               ∀ r e, r ∈ ir_routes ir → e ∈ ir_edges ir → ire_from e ≠ irp_from r).
  { rewrite existsb_false_iff. split.
    - intros Hall r e Hin Hine E. specialize (Hall r Hin). apply is_some_false in Hall.
      apply (binary_search_by_None _ _ (key_ord_bisected _ (irp_from r) _ He)) with (x := e) in Hall;
        [|done].
      rewrite E in Hall. pose proof (cmp_flip (cmp := String.compare) (irp_from r) (irp_from r)) as Hf.
      by destruct (String.compare (irp_from r) (irp_from r)).
    - intros Hall r Hin. destruct (binary_search_by _ _) as [i|] eqn:E; [exfalso|done].
      apply binary_search_by_Some in E as (e & Hine & E). apply cmp_exact in E.
      eapply Hall; [done|by eapply list_elem_of_lookup_2|done]. }
  rewrite <-Hm. destruct (existsb _ _), (adjacent_origins _), (existsb _ _); naive_solver.
Qed.

(** ** Positions and identifiers *)

Section transfer.
Context (ir : WorkflowIr) (E : nat → nat → Prop).
#[local] Abbreviation ids := (ir_ids ir).
Hypothesis Hunique : NoDup ids.
Hypothesis Hdeclared : ∀ a b, ir_edge ir a b → a ∈ ids ∧ b ∈ ids.
Hypothesis HE : ∀ u v, E u v ↔ ∃ a b, ir_edge ir a b ∧ ids !! u = Some a ∧ ids !! v = Some b.

Lemma rtc_ids u a v : ids !! u = Some a → rtc E u v → ∃ b, ids !! v = Some b ∧ rtc (ir_edge ir) a b.
Proof.
  intros Hu Hr. revert a Hu. induction Hr as [u|u w v Huw _ IH]; intros a Hu.
  - exists a. split; [done|apply rtc_refl].
  - apply HE in Huw as (a' & c & He & Hu' & Hw). simplify_eq.
    destruct (IH c Hw) as (b & Hb & Hr). exists b. split; [done|]. by eapply rtc_l.
Qed.

Lemma rtc_positions a b u :
  ids !! u = Some a → rtc (ir_edge ir) a b → ∃ v, ids !! v = Some b ∧ rtc E u v.
Proof.
  intros Hu Hr. revert u Hu. induction Hr as [a|a c b Hac _ IH]; intros u Hu.
  - exists u. split; [done|apply rtc_refl].
  - destruct (Hdeclared a c Hac) as [_ [w Hw]%list_elem_of_lookup].
    destruct (IH w Hw) as (v & Hv & Hr). exists v. split; [done|].
    eapply rtc_l; [|done]. apply HE. by exists a, c.
Qed.

Lemma rtc_transfer u v a b :
  ids !! u = Some a → ids !! v = Some b → rtc E u v ↔ rtc (ir_edge ir) a b.
Proof.
  intros Hu Hv. split.
  - intros (b' & Hb & Hr)%(rtc_ids u a); [|done]. by simplify_eq.
  - intros (v' & Hv' & Hr)%(rtc_positions a b u); [|done].
    assert (v' = v) as ->; [by eapply NoDup_lookup|done].
Qed.

Lemma tc_transfer u a : ids !! u = Some a → tc E u u ↔ tc (ir_edge ir) a a.
Proof.
  intros Hu.
  assert (Htc : ∀ A (R : relation A) x, tc R x x ↔ ∃ y, R x y ∧ rtc R y x).
  { intros A R x. split.
    - inversion 1 as [? ? Hr|? y ? Hr Hy]; subst.
      { exists x. split; [done|apply rtc_refl]. }
      exists y. split; [done|by apply tc_rtc].
    - intros (y & Hy & Hr). eapply tc_rtc_r; [by apply tc_once|done]. }
  rewrite !Htc. split.
  - intros (w & (a' & c & He & Hu' & Hw)%HE & Hr). simplify_eq. exists c. split; [done|].
    by apply (rtc_transfer w u c a).
  - intros (c & He & Hr). destruct (Hdeclared a c He) as [_ [w Hw]%list_elem_of_lookup].
    exists w. split; [apply HE; by exists a, c|]. by apply (rtc_transfer w u c a).
Qed.
End transfer.

(** The adjacency lists of a workflow without dangling ends. *)
Lemma adjacency_spec ir forward reverse :
  ir_sorted ir → NoDup (ir_ids ir) → adjacency (ir_nodes ir) ir = Ok (forward, reverse) →
  (∀ a b, ir_edge ir a b → a ∈ ir_ids ir ∧ b ∈ ir_ids ir) ∧
  length forward = length (ir_nodes ir) ∧ length reverse = length (ir_nodes ir) ∧
  (∀ u v, edge forward u v ↔ ∃ a b, ir_edge ir a b ∧ ir_ids ir !! u = Some a ∧ ir_ids ir !! v = Some b) ∧
  (∀ u v, edge reverse v u ↔ edge forward u v) ∧ wf_adj forward ∧ wf_adj reverse.
Proof.
  intros [Hs _ _] Hnd [E _]%adjacency_Ok.
  assert (Hidx : ∀ id i, find_node_index (ir_nodes ir) id = Some i ↔ ir_ids ir !! i = Some id).
  { intros id i. by apply find_node_index_Some. }
  apply add_pairs_spec in E as (Hf & Hr & Hall & Hedge); [| |by cbn; rewrite length_replicate..].
  - cbn in Hf, Hr, Hedge.
    assert (Hempty : ∀ n u v, ¬ edge (replicate n []) u v).
    { intros n u v. unfold edge, Adjacency. rewrite list_lookup_total_alt.
      destruct (replicate n [] !! u) as [l|] eqn:El; cbn; [|by intros ?%elem_of_nil].
      apply lookup_replicate in El as [-> _]. by intros ?%elem_of_nil. }
    assert (He : ∀ u v, edge forward u v ↔
      ∃ a b, ir_edge ir a b ∧ ir_ids ir !! u = Some a ∧ ir_ids ir !! v = Some b).
    { intros u v. destruct (Hedge u v) as [-> _]. setoid_rewrite elem_of_ir_pairs.
      setoid_rewrite Hidx. pose proof (Hempty (length (ir_nodes ir)) u v). tauto. }
    assert (Hrev : ∀ u v, edge reverse v u ↔ edge forward u v).
    { intros u v. destruct (Hedge u v) as [-> ->].
      pose proof (Hempty (length (ir_nodes ir)) u v).
      pose proof (Hempty (length (ir_nodes ir)) v u). tauto. }
    assert (Hlen : ∀ i id, ir_ids ir !! i = Some id → i < length (ir_nodes ir)).
    { intros i id Hi%lookup_lt_Some. unfold ir_ids in Hi. by rewrite length_map in Hi. }
    assert (Hwf : wf_adj forward).
    { intros u v (a & b & _ & Hu & Hv)%He. rewrite Hf. split; by eapply Hlen. }
    split_and!; try done.
    + intros a b Hab%elem_of_ir_pairs. apply Hall in Hab as [[i Hi%Hidx] [j Hj%Hidx]].
      split; by eapply list_elem_of_lookup_2.
    + intros u v Huv. apply Hrev, Hwf in Huv as [? ?]. by rewrite Hr, <-Hf.
  - intros id i Hi%Hidx%lookup_lt_Some. unfold ir_ids in Hi. by rewrite length_map in Hi.
Qed.

Lemma position_negb_None l : position negb l = None ↔ ∀ v, v < length l → marked l v = true.
Proof.
  unfold position. rewrite fmap_None, list_find_None, Forall_lookup. unfold marked. split.
  - intros Hall v Hv. destruct (lookup_lt_is_Some_2 l v Hv) as [b Hb]. rewrite Hb. cbn.
    specialize (Hall v b Hb). by destruct b.
  - intros Hall v b Hb. specialize (Hall v (lookup_lt_Some _ _ _ Hb)). rewrite Hb in Hall.
    cbn in Hall. by subst.
Qed.

Lemma check_component_Ok nodes c u :
  check_component nodes c = Ok u ↔
  ∀ v n, v ∈ c → nodes !! v = Some n →
    (∃ bound, irn_max_visits n = Some bound ∧ bound ≠ 0%Z) ∧
    (irn_kind n = IrAction → irn_idempotent n = true).
Proof.
  unfold check_component.
  assert (Hu : existsb (node_is unbounded nodes) c = false ↔
    ∀ v n, v ∈ c → nodes !! v = Some n → ∃ bound, irn_max_visits n = Some bound ∧ bound ≠ 0%Z).
  { rewrite existsb_false_iff. unfold node_is, unbounded. split.
    - intros Hall v n Hv Hn. specialize (Hall v Hv). rewrite Hn in Hall. cbn in Hall.
      destruct (irn_max_visits n) as [b|]; [|done]. exists b. split; [done|]. by apply Z.eqb_neq.
    - intros Hall v Hv. destruct (nodes !! v) as [n|] eqn:Hn; [|done]. cbn.
      destruct (Hall v n Hv Hn) as (b & -> & Hb). by apply Z.eqb_neq. }
  assert (Hi : List.find (node_is (λ n, is_action n && negb (irn_idempotent n)) nodes) c = None ↔
    ∀ v n, v ∈ c → nodes !! v = Some n → irn_kind n = IrAction → irn_idempotent n = true).
  { rewrite find_None_iff. unfold node_is, is_action. split.
    - intros Hall v n Hv Hn Ha. specialize (Hall v Hv). rewrite Hn in Hall. cbn in Hall.
      rewrite bool_decide_eq_true_2 in Hall by done. by destruct (irn_idempotent n).
    - intros Hall v Hv. destruct (nodes !! v) as [n|] eqn:Hn; [|done]. cbn.
      case_bool_decide as Ha; [|done]. by rewrite (Hall v n Hv Hn Ha). }
  destruct u, (existsb _ _).
  { split; [done|]. intros Hall. exfalso. enough (true = false) by done. apply Hu. intros v n Hv Hn. by destruct (Hall v n Hv Hn). }
  destruct (List.find _ _).
  { split; [done|]. intros Hall. exfalso. enough (Some n = None) by done. apply Hi. intros v m Hv Hn. by destruct (Hall v m Hv Hn). }
  split; [|done]. intros _ v n Hv Hn. split; [by eapply Hu|by eapply Hi].
Qed.

Lemma rtc_flip {A} (R S : relation A) x y :
  (∀ a b, R a b ↔ S b a) → rtc R x y ↔ rtc S y x.
Proof.
  intros HRS. split; induction 1 as [|a b c Hab _ IH]; try apply rtc_refl;
    (eapply rtc_r; [exact IH|]); by apply HRS.
Qed.

(** ** What each rejection means *)

Definition graph_defect (ir : WorkflowIr) (e : GraphValidationError) : Prop :=
  let ids := ir_ids ir in
  match e with
  | InvalidIdentifier _ => invalid_identifier_error ir = Some e
  | DuplicateNodeId id k => 2 ≤ k ∧ k = length (List.filter (str_eqb id) ids)
  | MissingEntryNode id => id = ir_entry ir ∧ id ∉ ids
  | DanglingEdge a b missing =>
      mk_IrEdge a b ∈ ir_edges ir ∧
      match missing with
      | Origin => (a ∉ ids) ∧ b ∈ ids
      | Destination => a ∈ ids ∧ b ∉ ids
      | Both => (a ∉ ids) ∧ b ∉ ids
      end
  | EmptyRouteCases => ∃ r, r ∈ ir_routes ir ∧ irp_cases r = []
  | DuplicateRouteOrigin => ¬ NoDup (map irp_from (ir_routes ir))
  | MixedRouteAndEdgeOrigin =>
      ∃ r e, r ∈ ir_routes ir ∧ e ∈ ir_edges ir ∧ ire_from e = irp_from r
  | DanglingRoute =>
      ∃ r, r ∈ ir_routes ir ∧ (irp_from r ∉ ids ∨ ∃ t, t ∈ route_targets r ∧ t ∉ ids)
  | UnreachableNode id => id ∈ ids ∧ ¬ rtc (ir_edge ir) (ir_entry ir) id
  | NoReachableTerminal => ∀ n, n ∈ ir_nodes ir → irn_kind n ≠ IrTerminal
  | Cycle _ => False
  | UnboundedCycle cycle =>
      (∃ id, id ∈ ids ∧ tc (ir_edge ir) id id ∧
         ∀ other, other ∈ cycle ↔
           other ∈ ids ∧ rtc (ir_edge ir) id other ∧ rtc (ir_edge ir) other id) ∧
      StronglySorted (λ a b, String.compare a b = Lt) cycle ∧
      ∃ n, n ∈ ir_nodes ir ∧ irn_id n ∈ cycle ∧
        (irn_max_visits n = None ∨ irn_max_visits n = Some 0%Z)
  | NonIdempotentCycleNode id =>
      ∃ n, n ∈ ir_nodes ir ∧ irn_id n = id ∧ irn_kind n = IrAction ∧
        irn_idempotent n = false ∧ tc (ir_edge ir) id id
  | CannotReachTerminal id =>
      id ∈ ids ∧ ∀ t, t ∈ ir_nodes ir → irn_kind t = IrTerminal → ¬ rtc (ir_edge ir) id (irn_id t)
  end.

Lemma reject_bind_Err {E A} (o : option E) (k : result E A) e :
  (reject o ≫= λ _, k) = Err e ↔ o = Some e ∨ o = None ∧ k = Err e.
Proof. destruct o; cbn; naive_solver. Qed.

Lemma for_each_Err {A E} (f : A → result E unit) l e :
  for_each f l = Err e → ∃ x, x ∈ l ∧ f x = Err e.
Proof.
  induction l as [|x l IH]; cbn; [done|]. rewrite bind_Err. intros [Hx|(u & Hu & Hl)].
  - exists x. split; [set_solver|done].
  - apply IH in Hl as (y & Hy & Hf). exists y. split; [set_solver|done].
Qed.

Section liveness.
Context (ir : WorkflowIr) (entry : nat) (forward reverse : Adjacency).
#[local] Abbreviation nodes := (ir_nodes ir).
#[local] Abbreviation ids := (ir_ids ir).
Hypothesis Hunique : NoDup ids.
Hypothesis Hentry : ids !! entry = Some (ir_entry ir).
Hypothesis Hdeclared : ∀ a b, ir_edge ir a b → a ∈ ids ∧ b ∈ ids.
Hypothesis Hlenf : length forward = length nodes.
Hypothesis Hlenr : length reverse = length nodes.
Hypothesis Hedge : ∀ u v, edge forward u v ↔
  ∃ a b, ir_edge ir a b ∧ ids !! u = Some a ∧ ids !! v = Some b.
Hypothesis Hflip : ∀ u v, edge reverse v u ↔ edge forward u v.
Hypothesis Hwff : wf_adj forward.
Hypothesis Hwfr : wf_adj reverse.

Lemma ids_lookup v a : ids !! v = Some a ↔ ∃ n, nodes !! v = Some n ∧ irn_id n = a.
Proof.
  unfold ir_ids. rewrite list_lookup_fmap, fmap_Some. naive_solver.
Qed.

Lemma ids_length : length ids = length nodes.
Proof. unfold ir_ids. by rewrite length_map. Qed.

Lemma reachable_spec v a :
  ids !! v = Some a → marked (reachability entry forward) v = true ↔ rtc (ir_edge ir) (ir_entry ir) a.
Proof.
  intros Hv. unfold reachability.
  destruct (reachability_from_spec [entry] forward Hwff) as [_ Hm].
  { intros s ->%list_elem_of_singleton. rewrite Hlenf, <-ids_length. by eapply lookup_lt_Some. }
  rewrite Hm, <-(rtc_transfer ir (edge forward) Hunique Hdeclared Hedge entry v _ _ Hentry Hv).
  set_solver.
Qed.

Lemma unreachable_None :
  position negb (reachability entry forward) = None ↔
  ∀ id, id ∈ ids → rtc (ir_edge ir) (ir_entry ir) id.
Proof.
  rewrite position_negb_None.
  assert (length (reachability entry forward) = length nodes) as ->.
  { unfold reachability. rewrite <-Hlenf. apply reachability_from_spec; [done|].
    intros s ->%list_elem_of_singleton. rewrite Hlenf, <-ids_length. by eapply lookup_lt_Some. }
  rewrite <-ids_length. split.
  - intros Hall id [v Hv]%list_elem_of_lookup. apply (reachable_spec v id Hv), Hall.
    by eapply lookup_lt_Some.
  - intros Hall v [a Hv]%lookup_lt_is_Some_2. apply (reachable_spec v a Hv), Hall.
    by eapply list_elem_of_lookup_2.
Qed.

(** The terminals, all nodes being reachable. *)
Definition seeds : list nat :=
  List.filter (λ index, marked (reachability entry forward) index && node_is is_terminal nodes index)
    (seq 0 (length nodes)).

Lemma elem_of_seeds v :
  (∀ id, id ∈ ids → rtc (ir_edge ir) (ir_entry ir) id) →
  v ∈ seeds ↔ ∃ t, nodes !! v = Some t ∧ irn_kind t = IrTerminal.
Proof.
  intros Hall. unfold seeds, node_is, is_terminal.
  rewrite list_elem_of_In, filter_In, <-list_elem_of_In, elem_of_seq, andb_true_iff.
  split.
  - intros (_ & _ & Ht). destruct (nodes !! v) as [t|] eqn:E; [|done]. cbn in Ht.
    exists t. by rewrite bool_decide_eq_true in Ht.
  - intros (t & Hv & Ht). rewrite Hv. cbn. rewrite bool_decide_eq_true_2 by done.
    apply lookup_lt_Some in Hv as Hlt. split_and!; [lia|lia| |done].
    assert (Hid : ids !! v = Some (irn_id t)) by (apply ids_lookup; eauto).
    apply (reachable_spec v _ Hid), Hall. by eapply list_elem_of_lookup_2.
Qed.

Lemma can_reach_spec v a :
  (∀ id, id ∈ ids → rtc (ir_edge ir) (ir_entry ir) id) → ids !! v = Some a →
  marked (reachability_from seeds reverse) v = true ↔
  ∃ t, t ∈ nodes ∧ irn_kind t = IrTerminal ∧ rtc (ir_edge ir) a (irn_id t).
Proof.
  intros Hall Hv. destruct (reachability_from_spec seeds reverse Hwfr) as [_ Hm].
  { intros s (t & Ht & _)%elem_of_seeds; [|done]. rewrite Hlenr. by eapply lookup_lt_Some. }
  rewrite Hm. clear Hm. split.
  - intros (s & (t & Hs & Ht)%elem_of_seeds & Hr); [|done]. exists t.
    split_and!; [by eapply list_elem_of_lookup_2|done|].
    apply (rtc_flip _ (edge forward)) in Hr; [|done].
    eapply (rtc_transfer ir (edge forward) Hunique Hdeclared Hedge v s); [done| |done].
    apply ids_lookup. eauto.
  - intros (t & [s Hs]%list_elem_of_lookup & Ht & Hr). exists s.
    split; [apply elem_of_seeds; eauto|]. apply (rtc_flip _ (edge forward)); [done|].
    eapply (rtc_transfer ir (edge forward) Hunique Hdeclared Hedge v s); [done| |done].
    apply ids_lookup. eauto.
Qed.

Lemma cycles_spec :
  (∀ c, c ∈ cyclic_components forward reverse → check_component nodes c = Ok tt) ↔
  ∀ n, n ∈ nodes → tc (ir_edge ir) (irn_id n) (irn_id n) →
    (∃ bound, irn_max_visits n = Some bound ∧ bound ≠ 0%Z) ∧
    (irn_kind n = IrAction → irn_idempotent n = true).
Proof.
  assert (Hcyc : ∀ v n, nodes !! v = Some n →
    (∃ c, c ∈ cyclic_components forward reverse ∧ v ∈ c) ↔
    tc (ir_edge ir) (irn_id n) (irn_id n)).
  { intros v n Hv. rewrite cyclic_components_nodes; [|done|done|congruence|].
    - apply tc_transfer; [done..|]. apply ids_lookup. eauto.
    - intros u w. apply Hflip. }
  setoid_rewrite check_component_Ok. split.
  - intros Hall n [v Hv]%list_elem_of_lookup Ht. apply (Hcyc v n Hv) in Ht as (c & Hc & Hin).
    by apply (Hall c Hc v n).
  - intros Hall c Hc v n Hin Hv. apply Hall; [by eapply list_elem_of_lookup_2|].
    apply (Hcyc v n Hv). eauto.
Qed.

Lemma liveness_checks_Ok :
  liveness_checks nodes entry forward reverse = Ok tt ↔
  (∀ id, id ∈ ids → rtc (ir_edge ir) (ir_entry ir) id) ∧
  (∀ n, n ∈ nodes → tc (ir_edge ir) (irn_id n) (irn_id n) →
    (∃ bound, irn_max_visits n = Some bound ∧ bound ≠ 0%Z) ∧
    (irn_kind n = IrAction → irn_idempotent n = true)) ∧
  (∀ id, id ∈ ids →
    ∃ t, t ∈ nodes ∧ irn_kind t = IrTerminal ∧ rtc (ir_edge ir) id (irn_id t)).
Proof.
  unfold liveness_checks. fold seeds. cbv zeta.
  rewrite reject_bind_Ok, fmap_None, unreachable_None.
  rewrite ensure_bind_Ok, for_each_bind_Ok, cycles_spec.
  rewrite reject_Ok, fmap_None, find_None_iff.
  assert (Hcan : (∀ id, id ∈ ids → rtc (ir_edge ir) (ir_entry ir) id) →
    (∀ x, x ∈ seq 0 (length nodes) →
       marked (reachability entry forward) x &&
       negb (marked (reachability_from seeds reverse) x) = false) ↔
    (∀ id, id ∈ ids →
      ∃ t, t ∈ nodes ∧ irn_kind t = IrTerminal ∧ rtc (ir_edge ir) id (irn_id t))).
  { intros Hall. setoid_rewrite andb_false_iff. setoid_rewrite negb_false_iff. split.
    - intros Hx id [v Hv]%list_elem_of_lookup. apply (can_reach_spec v id Hall Hv).
      destruct (Hx v) as [Hr|]; [|exfalso|done].
      + apply elem_of_seq. rewrite <-ids_length. apply lookup_lt_Some in Hv. lia.
      + apply not_marked in Hr. apply Hr, (reachable_spec v id Hv), Hall.
        by eapply list_elem_of_lookup_2.
    - intros Ht x Hx%elem_of_seq. right.
      destruct (lookup_lt_is_Some_2 ids x) as [a Ha]; [rewrite ids_length; lia|].
      apply (can_reach_spec x a Hall Ha), Ht. by eapply list_elem_of_lookup_2. }
  split.
  - intros (Hall & _ & Hc & Hx). split_and!; [done|done|by apply Hcan].
  - intros (Hall & Hc & Ht). split_and!; [done| |done|by apply Hcan].
    destruct (Ht (ir_entry ir)) as (t & [v Hv]%list_elem_of_lookup & Hk & _).
    { by eapply list_elem_of_lookup_2. }
    assert (Hin : v ∈ seeds) by (apply elem_of_seeds; eauto).
    destruct seeds; [by apply elem_of_nil in Hin|done].
Qed.

Lemma position_Some {A} (p : A → bool) l i :
  position p l = Some i → ∃ x, l !! i = Some x ∧ p x = true.
Proof.
  unfold position. intros ([j x] & Hf & [= <-])%fmap_Some.
  apply list_find_Some in Hf as (Hj & Hx & _). eauto.
Qed.

Lemma unreachable_Some index :
  position negb (reachability entry forward) = Some index →
  id_at nodes index ∈ ids ∧ ¬ rtc (ir_edge ir) (ir_entry ir) (id_at nodes index).
Proof.
  intros (b & Hb & Hn)%position_Some.
  assert (Hlt : index < length ids).
  { rewrite ids_length, <-Hlenf. apply lookup_lt_Some in Hb.
    unfold reachability in Hb. destruct (reachability_from_spec [entry] forward Hwff) as [Hl _]; [|lia].
    intros s ->%list_elem_of_singleton. rewrite Hlenf, <-ids_length. by eapply lookup_lt_Some. }
  apply lookup_lt_is_Some_2 in Hlt as [a Ha]. apply ids_lookup in Ha as Hn'.
  destruct Hn' as (n & Hnode & <-). unfold id_at. rewrite Hnode. cbn.
  split; [by eapply list_elem_of_lookup_2|]. rewrite <-(reachable_spec index (irn_id n) Ha).
  unfold marked. rewrite Hb. by destruct b.
Qed.

Lemma cycle_ids c :
  c ∈ cyclic_components forward reverse →
  (∀ v, v ∈ c → is_Some (nodes !! v)) ∧
  ∃ id, id ∈ ids ∧ tc (ir_edge ir) id id ∧
    ∀ other, other ∈ map (id_at nodes) c ↔
      other ∈ ids ∧ rtc (ir_edge ir) id other ∧ rtc (ir_edge ir) other id.
Proof.
  intros Hc.
  assert (Hfl : ∀ u v, edge reverse u v ↔ edge forward v u) by (intros u v; apply Hflip).
  destruct (cyclic_components_spec forward reverse) as (H1 & _); [done|done|congruence|done|].
  apply H1 in Hc as (_ & x & Hx & Hv).
  assert (Hin : ∀ v, v ∈ c → is_Some (nodes !! v)).
  { intros v Hvc. apply Hv in Hvc as [Hxv _]. apply lookup_lt_is_Some_2. rewrite <-Hlenf.
    apply rtc_inv_r in Hxv as [->|(y & _ & He)]; [|by apply Hwff in He as [??]].
    by inversion Hx as [? ? He|? ? ? He]; subst; apply Hwff in He as [??]. }
  split; [done|].
  assert (Hxc : x ∈ c) by (apply Hv; split; apply rtc_refl).
  destruct (Hin x Hxc) as [n Hn].
  assert (Hid : ids !! x = Some (irn_id n)) by (apply ids_lookup; eauto).
  exists (irn_id n). split_and!; [by eapply list_elem_of_lookup_2|by eapply tc_transfer|].
  intros other. rewrite list_elem_of_fmap. split.
  - intros (v & -> & Hvc). destruct (Hin v Hvc) as [m Hm]. unfold id_at. rewrite Hm. cbn.
    assert (Hidm : ids !! v = Some (irn_id m)) by (apply ids_lookup; eauto).
    apply Hv in Hvc as [Hxv Hvx].
    split_and!; [by eapply list_elem_of_lookup_2|by eapply rtc_transfer..].
  - intros ([v Hvi]%list_elem_of_lookup & Hto & Hfrom). exists v.
    split.
    + apply ids_lookup in Hvi as (m & Hm & <-). unfold id_at. by rewrite Hm.
    + apply Hv. split; by eapply rtc_transfer.
Qed.

(** A list of positions in order names nodes in strict order. *)
Lemma ids_strict c :
  ir_sorted ir → StronglySorted lt c → (∀ v, v ∈ c → is_Some (nodes !! v)) →
  StronglySorted (λ a b, String.compare a b = Lt) (map (id_at nodes) c).
Proof.
  intros [Hsort _ _] Hc. induction Hc as [|v c Hc IH Hv]; intros Hin; cbn; constructor.
  - apply IH. intros w Hw. apply Hin. by right.
  - rewrite Forall_forall in Hv. apply Forall_forall. intros b (w & -> & Hw)%list_elem_of_fmap.
    destruct (Hin v) as [n Hn]; [by left|]. destruct (Hin w) as [m Hm]; [by right|].
    specialize (Hv w Hw). pose proof (StronglySorted_lookup _ _ _ _ _ _ Hsort Hv Hn Hm) as Hnm.
    unfold key_ord in Hnm. unfold id_at. rewrite Hn, Hm. cbn.
    destruct (String.compare _ _) eqn:E; [|done..]. exfalso. apply String.compare_eq_iff in E.
    assert (v = w) by (apply (NoDup_lookup ids v w (irn_id n)); [done|apply ids_lookup; by exists n|apply ids_lookup; by exists m]).
    lia.
Qed.

Lemma check_component_Err c e :
  ir_sorted ir →
  c ∈ cyclic_components forward reverse → check_component nodes c = Err e → graph_defect ir e.
Proof.
  intros Hsort Hc. destruct (cycle_ids c Hc) as [Hin Hcyc]. unfold check_component.
  assert (Hasc : StronglySorted lt c).
  { destruct (cyclic_components_spec forward reverse) as (H1 & _); [done|done|congruence| |by apply H1].
    intros u w. apply Hflip. }
  destruct (existsb _ _) eqn:Eu.
  - intros [= <-]. split; [done|]. split; [by apply ids_strict|]. apply existsb_true_iff in Eu as (v & Hv & Hu).
    destruct (Hin v Hv) as [n Hn]. unfold node_is in Hu. rewrite Hn in Hu. cbn in Hu. exists n.
    split_and!; [by eapply list_elem_of_lookup_2| |].
    + apply list_elem_of_fmap. exists v. unfold id_at. by rewrite Hn.
    + unfold unbounded in Hu. destruct (irn_max_visits n) as [b|]; [right|by left].
      apply Z.eqb_eq in Hu. by subst.
  - destruct (List.find _ _) as [v|] eqn:Ef; [|done]. intros [= <-].
    apply find_Some_iff in Ef as [Hv Hp]. destruct (Hin v Hv) as [n Hn].
    unfold node_is, is_action in Hp. rewrite Hn in Hp. cbn in Hp.
    apply andb_true_iff in Hp as [Ha Hi]. rewrite bool_decide_eq_true in Ha.
    apply negb_true_iff in Hi. exists n. unfold id_at. rewrite Hn. cbn.
    split_and!; [by eapply list_elem_of_lookup_2|done|done|done|].
    assert (Hcn : tc (edge forward) v v).
    { apply (cyclic_components_nodes forward reverse); [done|done|congruence| |by exists c].
      intros u w. apply Hflip. }
    assert (Hid : ids !! v = Some (irn_id n)) by (apply ids_lookup; eauto).
    by eapply tc_transfer.
Qed.

Lemma liveness_checks_Err e :
  ir_sorted ir →
  liveness_checks nodes entry forward reverse = Err e → graph_defect ir e.
Proof.
  intros Hsort. unfold liveness_checks. fold seeds. cbv zeta. rewrite reject_bind_Err.
  intros [(index & Hp & ->)%fmap_Some|[Hr E]]; [by apply unreachable_Some|].
  rewrite fmap_None, unreachable_None in Hr. rewrite ensure_bind_Err in E.
  destruct E as [[Hnil <-]|[_ E]].
  { intros t [v Hv]%list_elem_of_lookup Ht. apply negb_false_iff, is_nil_true in Hnil.
    assert (Hin : v ∈ seeds) by (apply elem_of_seeds; eauto). rewrite Hnil in Hin.
    by apply elem_of_nil in Hin. }
  rewrite bind_Err in E. destruct E as [(c & Hc & Ec)%for_each_Err|(u & _ & E)].
  { by eapply check_component_Err. }
  destruct (List.find _ _) as [v|] eqn:Ef; [|done]. simplify_eq/=.
  apply find_Some_iff in Ef as [Hv%elem_of_seq Hp]. apply andb_true_iff in Hp as [_ Hp].
  destruct (lookup_lt_is_Some_2 ids v) as [a Ha]; [rewrite ids_length; lia|].
  apply ids_lookup in Ha as Hn'. destruct Hn' as (n & Hn & <-). unfold id_at. rewrite Hn. cbn.
  split; [by eapply list_elem_of_lookup_2|]. intros t Ht Hk Hreach.
  apply negb_true_iff, not_marked in Hp. apply Hp.
  apply (can_reach_spec v (irn_id n) Hr Ha). eauto.
Qed.
End liveness.

Lemma validate_graph_Ok ir :
  ir_sorted ir → validate_graph ir = Ok tt ↔ valid_graph ir.
Proof.
  intros Hs. unfold validate_graph. cbv zeta.
  rewrite !reject_bind_Ok, invalid_identifier_None, (route_structure_None ir Hs).
  rewrite duplicate_node_error_None by apply Hs.
  assert (Hidx : NoDup (ir_ids ir) → ∀ id i,
            find_node_index (ir_nodes ir) id = Some i ↔ ir_ids ir !! i = Some id).
  { intros Hnd id i. apply find_node_index_Some; [apply Hs|done]. }
  split.
  - intros (Hids & Hnd & Hr & Hrest).
    destruct (find_node_index (ir_nodes ir) (ir_entry ir)) as [entry|] eqn:Ee; [|done].
    cbn in Hrest. apply bind_Ok in Hrest as ([forward reverse] & Ha & Hl).
    apply Hidx in Ee; [|done].
    destruct (adjacency_spec ir forward reverse Hs Hnd Ha) as (Hd & Hf & Hrv & He & Hfl & Hw1 & Hw2).
    apply (liveness_checks_Ok ir entry forward reverse Hnd Ee Hd Hf Hrv He Hfl Hw1 Hw2)
      in Hl as (? & ? & ?).
    split; try done. by eapply list_elem_of_lookup_2.
  - intros [Hids Hnd Hr Hentry Hd Hreach Hcyc Hterm].
    do 3 (split; [done|]).
    apply list_elem_of_lookup in Hentry as [entry Ee].
    rewrite (proj2 (Hidx Hnd _ _) Ee). cbn.
    assert (Ha : is_Some (add_pairs (ir_nodes ir) (ir_pairs ir)
      (replicate (length (ir_nodes ir)) [], replicate (length (ir_nodes ir)) []))).
    { apply add_pairs_is_Some. intros a b Hab%elem_of_ir_pairs%Hd.
      split; apply find_node_index_is_Some; (apply Hs || apply Hnd || apply Hab). }
    destruct Ha as [[forward reverse] Ha].
    assert (Hadj : adjacency (ir_nodes ir) ir = Ok (forward, reverse)).
    { apply adjacency_Ok. split; [done|]. intros r Hin.
      apply find_node_index_is_Some; [apply Hs|apply Hnd|].
      destruct Hr as [Hc _]. specialize (Hc r Hin).
      destruct (irp_cases r) as [|c cs] eqn:Ec; [done|].
      apply (Hd (irp_from r) (irc_target c)). right. exists r. split_and!; [done|done|].
      unfold route_targets. rewrite Ec. set_solver. }
    rewrite Hadj. cbn.
    destruct (adjacency_spec ir forward reverse Hs Hnd Hadj) as (_ & Hf & Hrv & He & Hfl & Hw1 & Hw2).
    by apply (liveness_checks_Ok ir entry forward reverse Hnd Ee Hd Hf Hrv He Hfl Hw1 Hw2).
Qed.

(** C37. Graph validation accepts a lowered workflow exactly when it is one the
    runtime can execute: proper identifiers, unique nodes, routes with cases and
    an origin of their own, declared ends, every node reachable from the entry
    and able to reach a terminal, and every node on a cycle with a positive
    visit bound and, if an action, idempotent. *)
Theorem validate_graph_exact spec :
  validate_graph (lower spec) = Ok tt ↔ valid_graph (lower spec).
Proof. apply validate_graph_Ok, lower_sorted. Qed.

(** In a sorted list the nodes that share an identifier are together. *)
Lemma leading_count n nodes :
  StronglySorted (key_ord irn_id) (n :: nodes) →
  leading (irn_id n) nodes = length (List.filter (str_eqb (irn_id n)) (map irn_id nodes)).
Proof.
  revert n. induction nodes as [|m nodes IH]; intros n Hs; [done|].
  inversion Hs as [|? ? Hm Hn]; subst. cbn.
  destruct (str_eqb (irn_id n) (irn_id m)) eqn:E; [apply str_eqb_eq in E|].
  - cbn. f_equal. rewrite E. by apply IH.
  - pose proof (sorted_head_fresh irn_id n (m :: nodes) Hs) as Hf.
    assert (Hfresh : irn_id n ∉ map irn_id (m :: nodes))
      by (apply Hf; intros ? [= <-] Eq%str_eqb_eq; congruence).
    symmetry. apply length_zero_iff_nil.
    destruct (List.filter _ _) as [|x l] eqn:Ef; [done|].
    assert (Hx : x ∈ x :: l) by set_solver. rewrite <-Ef in Hx.
    apply list_elem_of_In, filter_In in Hx as [Hx Ex].
    apply str_eqb_eq in Ex. apply list_elem_of_In in Hx. exfalso. apply Hfresh. rewrite Ex.
    cbn. set_solver.
Qed.

Lemma duplicate_node_error_Some nodes e :
  StronglySorted (key_ord irn_id) nodes → duplicate_node_error nodes = Some e →
  ∃ id k, e = DuplicateNodeId id k ∧ 2 ≤ k ∧
    k = length (List.filter (str_eqb id) (map irn_id nodes)).
Proof.
  induction nodes as [|n nodes IH]; intros Hs E; [done|]. cbn in E.
  destruct (leading (irn_id n) nodes) as [|more] eqn:El.
  - destruct IH as (id & k & -> & Hk & Hc); [by inversion Hs|done|].
    exists id, k. split_and!; [done|done|]. cbn. destruct (str_eqb id (irn_id n)) eqn:En; [apply str_eqb_eq in En|done].
    exfalso. subst id. rewrite (leading_count n nodes Hs) in El. lia.
  - simplify_eq. exists (irn_id n), (S (S more)). split_and!; [done|lia|].
    cbn. rewrite (proj2 (str_eqb_eq _ _) eq_refl). cbn.
    by rewrite <-(leading_count n nodes Hs), El.
Qed.

(** The adjacency lists fail only on a dangling end, which they name. *)
Lemma adjacency_Err ir e :
  StronglySorted (key_ord irn_id) (ir_nodes ir) → NoDup (ir_ids ir) →
  adjacency (ir_nodes ir) ir = Err e → graph_defect ir e.
Proof.
  intros Hs Hnd. unfold adjacency. rewrite bind_Err.
  assert (Hnone := find_node_index_None (ir_nodes ir) Hs Hnd).
  assert (Hsome := find_node_index_is_Some (ir_nodes ir) Hs Hnd).
  intros [E|(g & _ & E)]; apply try_fold_Err in E as (x & g' & Hx & E).
  - unfold declare_edge in E.
    destruct (find_node_index _ (ire_from x)) as [i|] eqn:Ei,
      (find_node_index _ (ire_to x)) as [j|] eqn:Ej; simplify_eq/=; (split; [by destruct x|]);
      rewrite ?Hnone in *; try done; (split; [|done]) || (split; [done|]); apply Hsome; eauto.
  - unfold declare_route in E. destruct (find_node_index _ (irp_from x)) as [i|] eqn:Ei.
    + apply try_fold_Err in E as (t & g'' & Ht & E). unfold declare_target in E.
      destruct (find_node_index _ t) eqn:Et; simplify_eq. exists x. split; [done|]. right.
      exists t. split; [done|]. by apply Hnone.
    + simplify_eq. exists x. split; [done|]. left. by apply Hnone.
Qed.

Lemma route_structure_Some ir e :
  ir_sorted ir → route_structure_error ir = Some e → graph_defect ir e.
Proof.
  intros [_ He Hr]. unfold route_structure_error.
  destruct (existsb (λ r, is_nil (irp_cases r)) _) eqn:Ec.
  { intros [= <-]. apply existsb_true_iff in Ec as (r & Hin & Hc). exists r.
    split; [done|]. by destruct (irp_cases r). }
  destruct (adjacent_origins _) eqn:Ea.
  { intros [= <-]. cbn. rewrite <-(adjacent_origins_false _ Hr). by rewrite Ea. }
  destruct (existsb (λ r, is_some _) _) eqn:Em; [|done]. intros [= <-].
  apply existsb_true_iff in Em as (r & Hin & Hb).
  destruct (binary_search_by _ _) as [i|] eqn:E; [|done].
  apply binary_search_by_Some in E as (edge & Hine & E). apply cmp_exact in E.
  exists r, edge. split_and!; [done|by eapply list_elem_of_lookup_2|done].
Qed.

Lemma validate_graph_defect spec e :
  validate_graph (lower spec) = Err e → graph_defect (lower spec) e.
Proof.
  pose proof (lower_sorted spec) as Hs. set (ir := lower spec) in *.
  unfold validate_graph. cbv zeta. rewrite !reject_bind_Err.
  intros [E|[_ [E|[Hd [E|[_ E]]]]]].
  - pose proof E as E'. unfold invalid_identifier_error in E'. by apply fmap_Some in E' as (p & _ & ->).
  - apply duplicate_node_error_Some in E as (id & k & -> & ? & ?); [done|apply Hs].
  - by apply route_structure_Some.
  - apply duplicate_node_error_None in Hd as Hnd; [|apply Hs].
    destruct (find_node_index _ _) as [entry|] eqn:Ee; cbn in E.
    + rewrite bind_Err in E. destruct E as [E|([forward reverse] & Ha & E)].
      { apply adjacency_Err; [apply Hs|done|done]. }
      apply find_node_index_Some in Ee; [|apply Hs|done].
      destruct (adjacency_spec ir forward reverse Hs Hnd Ha) as (Hdc & Hf & Hrv & He & Hfl & Hw1 & Hw2).
      by apply (liveness_checks_Err ir entry forward reverse Hnd Ee Hdc Hf Hrv He Hfl Hw1 Hw2).
    + simplify_eq. split; [done|]. apply find_node_index_None in Ee; [done|apply Hs|done].
Qed.

(** C40. A rejection names a real defect: every error graph validation returns
    describes the workflow as it says (which identifier is repeated and how
    often, which ends of an edge are missing, the strongly connected component
    that is not bounded, ...), and [Cycle] is never returned. *)
Theorem validate_graph_error spec e :
  validate_graph (lower spec) = Err e → graph_defect (lower spec) e.
Proof. apply validate_graph_defect. Qed.

(** The demonstration workflow without its edge: [done] cannot be reached. *)
Definition ex_broken : WorkflowSpec :=
  mk_WorkflowSpec (workflow (ex_spec "1")) (nodes (ex_spec "1")) [] [] None None [].

Lemma validate_graph_error_witness :
  validate_graph (lower ex_broken) = Err (UnreachableNode "done") ∧
  graph_defect (lower ex_broken) (UnreachableNode "done").
Proof.
  assert (E : validate_graph (lower ex_broken) = Err (UnreachableNode "done")) by by vm_compute.
  split; [done|]. by apply (validate_graph_error ex_broken).
Defined.

(** ** State declarations *)

Definition key_names (s : IrState) : list string := map irk_name (irs_keys s).

Record valid_state (ir : WorkflowIr) : Prop := {
  (** Every key an agent contract reads or writes is declared. *)
  state_contracts n contract key :
    n ∈ ir_nodes ir → irn_agent_contract n = Some contract →
    key ∈ input_state_keys contract ++ [output_state_key (contract_output contract)] →
    ∃ s, ir_state ir = Some s ∧ key ∈ key_names s;
  (** The declaration is well formed. *)
  state_declaration s :
    ir_state ir = Some s →
    irs_schema_id s ≠ "" ∧ irs_schema_version s = STATE_SCHEMA_VERSION_V1 ∧
    (∀ name, name ∈ irs_required_keys s → name ∈ key_names s) ∧
    ∀ k, k ∈ irs_keys s →
      irk_name k ≠ "" ∧ irk_schema_id k ≠ "" ∧ irk_schema_version k ≠ "" ∧
      ∀ shape, irk_handle k = Some shape → shape ∈ HANDLE_SHAPES
}.

Lemma declares_true s key : declares s key = true ↔ key ∈ key_names s.
Proof.
  unfold declares, key_names. rewrite existsb_true_iff, list_elem_of_fmap.
  setoid_rewrite str_eqb_eq. naive_solver.
Qed.

Lemma undeclared_key_None state n :
  undeclared_key state n = None ↔
  ∀ contract key, irn_agent_contract n = Some contract →
    key ∈ input_state_keys contract ++ [output_state_key (contract_output contract)] →
    ∃ s, state = Some s ∧ key ∈ key_names s.
Proof.
  unfold undeclared_key. destruct (irn_agent_contract n) as [c|]; cbn; [|naive_solver].
  rewrite fmap_None, find_None_iff. split.
  - intros Hall contract key [= <-] Hk. specialize (Hall key Hk).
    apply negb_false_iff in Hall. destruct state as [s|]; [|done]. cbn in Hall.
    exists s. split; [done|]. by apply declares_true.
  - intros Hall key Hk. destruct (Hall c key eq_refl Hk) as (s & -> & Hs).
    apply negb_false_iff. cbn. by apply declares_true.
Qed.

Lemma bad_shape_None k :
  bad_shape k = None ↔ ∀ shape, irk_handle k = Some shape → shape ∈ HANDLE_SHAPES.
Proof.
  unfold bad_shape. destruct (irk_handle k) as [h|]; cbn -[HANDLE_SHAPES]; [|naive_solver].
  destruct (existsb (str_eqb h) HANDLE_SHAPES) eqn:E.
  - split; [|done]. intros _ shape [= <-]. apply existsb_true_iff in E as (x & Hx & ->%str_eqb_eq).
    done.
  - split; [done|]. intros Hall. rewrite existsb_false_iff in E.
    specialize (E h (Hall h eq_refl)). unfold str_eqb in E. by rewrite bool_decide_eq_false in E.
Qed.

Lemma key_identifiers_ok k :
  (∀ f, f ∈ key_identifiers k → snd f ≠ "") ↔
  irk_name k ≠ "" ∧ irk_schema_id k ≠ "" ∧ irk_schema_version k ≠ "".
Proof.
  unfold key_identifiers. do 2 setoid_rewrite elem_of_cons.
  setoid_rewrite list_elem_of_singleton. naive_solver.
Qed.

Lemma validate_state_Ok ir : validate_state ir = Ok tt ↔ valid_state ir.
Proof.
  unfold validate_state. rewrite reject_bind_Ok, find_map_None. setoid_rewrite undeclared_key_None.
  destruct (ir_state ir) as [s|] eqn:Es.
  - rewrite !reject_bind_Ok, ensure_bind_Ok, reject_bind_Ok, reject_Ok, !fmap_None, !find_map_None.
    rewrite first_empty_None, find_None_iff. unfold str_eqb. rewrite bool_decide_eq_true.
    setoid_rewrite fmap_None. setoid_rewrite first_empty_None. setoid_rewrite key_identifiers_ok.
    setoid_rewrite bad_shape_None. setoid_rewrite negb_false_iff. setoid_rewrite declares_true.
    split.
    + intros (Hc & Hid & Hk & Hv & Hreq & Hsh). split.
      * intros n contract key Hn Hco Hkey. rewrite Es. by eapply Hc.
      * intros s' Hs'. rewrite Es in Hs'. simplify_eq. split_and!; [|done|done|].
        -- apply (Hid ("state.schema_id", _)). set_solver.
        -- intros k Hin. destruct (Hk k Hin) as (? & ? & ?). split_and!; [done..|by apply Hsh].
    + intros [Hc Hd]. rewrite Es in Hc, Hd. destruct (Hd s eq_refl) as (Hid & Hv & Hreq & Hk).
      split_and!; [naive_solver| | |done|done|].
      * intros f [->|[->|[]%elem_of_nil]%elem_of_cons]%elem_of_cons; cbn; [done|by rewrite Hv].
      * intros k Hin. destruct (Hk k Hin) as (? & ? & ? & ?). done.
      * intros k Hin. by destruct (Hk k Hin) as (? & ? & ? & ?).
  - split.
    + intros [Hc _]. split; [|by rewrite Es]. intros n contract key Hn Hco Hkey.
      rewrite Es. by eapply Hc.
    + intros [Hc _]. rewrite Es in Hc. split; [|done]. naive_solver.
Qed.

(** State validation accepts exactly the well-formed declarations: every key
    a node's contract reads or writes is declared, identifiers are non-empty,
    the schema version is the supported one, required keys are declared and
    handle shapes are in the closed vocabulary. *)
Theorem validate_state_exact ir : validate_state ir = Ok tt ↔ valid_state ir.
Proof. apply validate_state_Ok. Qed.
