(* ===== verification/RuntimePlan.v ===== *)
(** * Runtime plans

    [workflow-compiler/src/runtime_plan.rs]: between the IR and execution the
    identities that nodes and the host name are resolved by a registry, and the
    resolved identities, with the capabilities of the run, are fingerprinted.
    The registry is a trait: the parameter [registry].  The accessors are record
    projections; [Debug] is not modelled. *)

From S2P Require Import Prelude Hashing Json Spec Ir Graph.

#[local] Open Scope string_scope.

(*| compiler/runtime_plan.rs 18-29 BindingCategory *)
Inductive BindingCategory :=
| CatModel | CatTool | CatValidator | CatPredicate | CatSkill | CatSandbox | CatWorkdir
| CatCheckpoint | CatEvent | CatArtifact.
#[export] Instance BindingCategory_eq_dec : EqDecision BindingCategory.
Proof. solve_decision. Defined.

Definition category_index (c : BindingCategory) : nat :=
  match c with
  | CatModel => 0 | CatTool => 1 | CatValidator => 2 | CatPredicate => 3 | CatSkill => 4
  | CatSandbox => 5 | CatWorkdir => 6 | CatCheckpoint => 7 | CatEvent => 8 | CatArtifact => 9
  end.
Definition category_at (i : nat) : BindingCategory :=
  default CatModel ([CatModel; CatTool; CatValidator; CatPredicate; CatSkill; CatSandbox; CatWorkdir;
                     CatCheckpoint; CatEvent; CatArtifact] !! i).
#[export] Instance BindingCategory_countable : Countable BindingCategory.
Proof. apply (inj_countable' category_index category_at). by intros []. Defined.

(** The names serde gives the variants. *)
(*| compiler/runtime_plan.rs 18-29 BindingCategory *)
Definition category_str (c : BindingCategory) : string :=
  match c with
  | CatModel => "model" | CatTool => "tool" | CatValidator => "validator"
  | CatPredicate => "predicate" | CatSkill => "skill" | CatSandbox => "sandbox"
  | CatWorkdir => "workdir" | CatCheckpoint => "checkpoint" | CatEvent => "event"
  | CatArtifact => "artifact"
  end.

(*| compiler/runtime_plan.rs 33-36 BindingRef *)
Record BindingRef := mk_BindingRef { br_id : string; br_version : string }.
#[export] Instance BindingRef_eq_dec : EqDecision BindingRef.
Proof. solve_decision. Defined.

(*| compiler/runtime_plan.rs 76-80 ResolvedBinding *)
Record ResolvedBinding := mk_ResolvedBinding {
  rb_id : string; rb_version : string; metadata_identity : string }.

(*| compiler/runtime_plan.rs 137-140 RegistryResolutionErrorKind *)
Inductive RegistryResolutionErrorKind := RegistryMissing | RegistryAmbiguous.
(*| compiler/runtime_plan.rs 143-146 RegistryResolutionError *)
Record RegistryResolutionError := mk_RegistryResolutionError {
  rr_kind : RegistryResolutionErrorKind; rr_category : BindingCategory }.

(** ** Capability sets *)

(*| compiler/runtime_plan.rs 171-171 CapabilitySet *)
Definition CapabilitySet : Type := list string.
(*| compiler/runtime_plan.rs 193-198 CapabilitySet::new *)
Definition CapabilitySet_new (values : list string) : CapabilitySet := dedup (sort_by_key id values).
(*| compiler/runtime_plan.rs 202-204 CapabilitySet::contains_all *)
Definition contains_all (self other : CapabilitySet) : bool :=
  forallb (λ v, is_some (binary_search_by (λ x, String.compare x v) self)) other.

(** ** Requests *)

(*| compiler/runtime_plan.rs 225-229 NodeBindingRequest *)
Record NodeBindingRequest := mk_NodeBindingRequest {
  nb_model : option (IrModelRole * BindingRef); nb_tools : list BindingRef; nb_skills : list BindingRef }.

(*| compiler/runtime_plan.rs 215-222 RuntimePlanRequest *)
Record RuntimePlanRequest := mk_RuntimePlanRequest {
  rq_ir_hash : string;
  rq_node_bindings : gmap string NodeBindingRequest;
  rq_bindings : gmap BindingCategory (list BindingRef);
  rq_capabilities : CapabilitySet;
  rq_effective : option CapabilitySet;
  rq_ambiguous : gmap BindingCategory BindingRef }.

(*| compiler/runtime_plan.rs 268-274 RuntimePlanRequest::with_binding *)
Definition with_binding (category : BindingCategory) (id version : string) (r : RuntimePlanRequest) :
    RuntimePlanRequest :=
  mk_RuntimePlanRequest (rq_ir_hash r) (rq_node_bindings r)
    (<[category := (default [] (rq_bindings r !! category) ++ [mk_BindingRef id version])%list]> (rq_bindings r))
    (rq_capabilities r) (rq_effective r) (rq_ambiguous r).
(*| compiler/runtime_plan.rs 299-301 RuntimePlanRequest::set_capabilities *)
Definition set_capabilities (cs : CapabilitySet) (r : RuntimePlanRequest) : RuntimePlanRequest :=
  mk_RuntimePlanRequest (rq_ir_hash r) (rq_node_bindings r) (rq_bindings r) cs (rq_effective r)
    (rq_ambiguous r).
(*| compiler/runtime_plan.rs 302-304 RuntimePlanRequest::set_effective_capabilities *)
Definition set_effective_capabilities (cs : CapabilitySet) (r : RuntimePlanRequest) : RuntimePlanRequest :=
  mk_RuntimePlanRequest (rq_ir_hash r) (rq_node_bindings r) (rq_bindings r) (rq_capabilities r) (Some cs)
    (rq_ambiguous r).
(*| compiler/runtime_plan.rs 305-307 RuntimePlanRequest::set_ambiguous *)
Definition set_ambiguous (category : BindingCategory) (b : BindingRef) (r : RuntimePlanRequest) :
    RuntimePlanRequest :=
  mk_RuntimePlanRequest (rq_ir_hash r) (rq_node_bindings r) (rq_bindings r) (rq_capabilities r)
    (rq_effective r) (<[category := b]> (rq_ambiguous r)).

(*| compiler/runtime_plan.rs 242-256 RuntimePlanRequest::from_ir *)
Definition node_request (node : IrNode) : NodeBindingRequest :=
  mk_NodeBindingRequest
    ((λ m, (irm_role m, mk_BindingRef (irm_id m) (irm_version m))) <$> irn_model node)
    (map (λ t, mk_BindingRef (irt_id t) (irt_version t)) (irn_tools node))
    (map (λ s, mk_BindingRef (irs_id s) (irs_version s)) (irn_skills node)).

Section plan.
Context `{JsonText, Sha256}.

(*| compiler/runtime_plan.rs 232-267 RuntimePlanRequest::from_ir *)
Definition from_ir (ir : WorkflowIr) : RuntimePlanRequest :=
  foldl (λ r route, with_binding CatPredicate (irp_id (irp_predicate route)) (irp_version (irp_predicate route)) r)
    (mk_RuntimePlanRequest (encode_hex (canonical_ir_hash ir))
       (foldl (λ m node, <[irn_id node := node_request node]> m) ∅
          (filter (λ node, irn_kind node = IrAgent) (ir_nodes ir)))
       ∅ [] None ∅)
    (ir_routes ir).

(** ** Plans *)

(*| compiler/runtime_plan.rs 339-344 ResolvedNodeBinding *)
Record ResolvedNodeBinding := mk_ResolvedNodeBinding {
  rn_role : IrModelRole; rn_model : ResolvedBinding; rn_tools : list ResolvedBinding;
  rn_skills : list ResolvedBinding }.

(*| compiler/runtime_plan.rs 321-336 ResolvedRuntimePlan *)
Record ResolvedRuntimePlan := mk_ResolvedRuntimePlan {
  ir_hash : string; plan_hash : string; resume_identity : string;
  node_bindings : gmap string ResolvedNodeBinding;
  validators : list ResolvedBinding; predicates : list ResolvedBinding;
  skills : list ResolvedBinding; sandboxes : list ResolvedBinding;
  workdirs : list ResolvedBinding; checkpoints : list ResolvedBinding;
  events : list ResolvedBinding; artifacts : list ResolvedBinding;
  effective_capabilities : CapabilitySet }.

(*| compiler/runtime_plan.rs 365-370 PlanResolutionErrorKind *)
Inductive PlanResolutionErrorKind := MissingBinding | AmbiguousBinding | CapabilityWidening | InvalidBinding.
(*| compiler/runtime_plan.rs 373-377 PlanResolutionError *)
Record PlanResolutionError := mk_PlanResolutionError {
  pe_kind : PlanResolutionErrorKind; pe_category : option BindingCategory; pe_node : option string }.

(*| compiler/runtime_plan.rs 661-666 registry_error_kind *)
Definition registry_error_kind (kind : RegistryResolutionErrorKind) : PlanResolutionErrorKind :=
  match kind with RegistryMissing => MissingBinding | RegistryAmbiguous => AmbiguousBinding end.

(** *** The fingerprint *)

(*| compiler/runtime_plan.rs 691-697 binding_fingerprint *)
Definition binding_fingerprint (b : ResolvedBinding) : Value :=
  Object [("id", VString (rb_id b)); ("version", VString (rb_version b));
          ("metadata_identity", VString (metadata_identity b))].
(*| compiler/runtime_plan.rs 538-541 ResolvedRuntimePlan::resolve *)
Definition role_str (role : IrModelRole) : string :=
  match role with IrWorker => "worker" | IrReviewer => "reviewer" end.
(*| compiler/runtime_plan.rs 677-682 NodeBindingFingerprint *)
Definition node_fingerprint (b : ResolvedNodeBinding) : Value :=
  Object [("role", VString (role_str (rn_role b))); ("model", binding_fingerprint (rn_model b));
          ("tools", Array (map binding_fingerprint (rn_tools b)));
          ("skills", Array (map binding_fingerprint (rn_skills b)))].
(*| compiler/runtime_plan.rs 669-674 PlanFingerprint *)
Definition PlanFingerprint (ir_hash : string) (nodes : gmap string ResolvedNodeBinding)
    (groups : list (BindingCategory * list ResolvedBinding)) (capabilities : CapabilitySet) : Value :=
  Object [("ir_hash", VString ir_hash);
          ("node_bindings", Object (map (λ '(id, b), (id, node_fingerprint b)) (btree_entries nodes)));
          ("bindings", Object (map (λ '(c, l), (category_str c, Array (map binding_fingerprint l))) groups));
          ("capabilities", Array (map VString capabilities))].
(*| compiler/runtime_plan.rs 705-707 hash_json *)
Definition hash_json (value : Value) : string := encode_hex (sha256 (compact value)).

(** *** Explanation

    What serde writes of a plan: identities and capabilities are replaced. *)

Definition REDACTED : string := "<redacted>".
(*| compiler/runtime_plan.rs 94-100 ResolvedBinding::serialize *)
Definition binding_text (b : ResolvedBinding) : Value :=
  Object [("id", VString REDACTED); ("version", VString REDACTED); ("metadata_identity", VString REDACTED)].
(*| compiler/runtime_plan.rs 347-360 ResolvedNodeBinding::serialize *)
Definition node_text (b : ResolvedNodeBinding) : Value :=
  Object [("role", VString (role_str (rn_role b))); ("model", binding_text (rn_model b));
          ("tools", Array (map binding_text (rn_tools b))); ("skills", Array (map binding_text (rn_skills b)))].
(*| compiler/runtime_plan.rs 183-189 CapabilitySet::serialize *)
Definition capabilities_text (cs : CapabilitySet) : Value := Array (map (λ _, VString REDACTED) cs).
(*| compiler/runtime_plan.rs 629-631 ResolvedRuntimePlan::explain *)
Definition explain (p : ResolvedRuntimePlan) : string :=
  let bindings l := Array (map binding_text l) in
  compact (Object
    [("ir_hash", VString (ir_hash p)); ("plan_hash", VString (plan_hash p));
     ("resume_identity", VString (resume_identity p));
     ("node_bindings", Object (map (λ '(id, b), (id, node_text b)) (btree_entries (node_bindings p))));
     ("validators", bindings (validators p)); ("predicates", bindings (predicates p));
     ("skills", bindings (skills p)); ("sandboxes", bindings (sandboxes p));
     ("workdirs", bindings (workdirs p)); ("checkpoints", bindings (checkpoints p));
     ("events", bindings (events p)); ("artifacts", bindings (artifacts p));
     ("effective_capabilities", capabilities_text (effective_capabilities p));
     ("redaction", VString REDACTED)]).

(** *** Resolution *)

Context (registry : BindingCategory → BindingRef → result RegistryResolutionError ResolvedBinding).

(*| compiler/runtime_plan.rs 634-659 resolve_node_value *)
Definition resolve_node_value (ambiguous : gmap BindingCategory BindingRef) (category : BindingCategory)
    (binding : BindingRef) (node_id : string) : result PlanResolutionError ResolvedBinding :=
  if bool_decide (ambiguous !! category = Some binding)
  then Err (mk_PlanResolutionError AmbiguousBinding (Some category) (Some node_id))
  else
    value ← map_err (λ e, mk_PlanResolutionError (registry_error_kind (rr_kind e)) (Some (rr_category e))
                            (Some node_id)) (registry category binding);
    if str_is_empty (rb_id value) || str_is_empty (rb_version value)
    then Err (mk_PlanResolutionError InvalidBinding (Some category) (Some node_id))
    else Ok value.

(** One turn of the loop over the nodes. *)
(*| compiler/runtime_plan.rs 434-491 ResolvedRuntimePlan::resolve *)
Definition resolve_node (ambiguous : gmap BindingCategory BindingRef) (node_id : string)
    (binding : NodeBindingRequest) : result PlanResolutionError ResolvedNodeBinding :=
  match nb_model binding with
  | None => Err (mk_PlanResolutionError MissingBinding (Some CatModel) (Some node_id))
  | Some (role, model_ref) =>
      model ← resolve_node_value ambiguous CatModel model_ref node_id;
      if bool_decide (role = IrReviewer) && (negb (is_nil (nb_tools binding)) || negb (is_nil (nb_skills binding)))
      then Err (mk_PlanResolutionError InvalidBinding (Some CatTool) (Some node_id))
      else
        tools ← traverse (λ b, resolve_node_value ambiguous CatTool b node_id) (nb_tools binding);
        skills ← traverse (λ b, resolve_node_value ambiguous CatSkill b node_id) (nb_skills binding);
        Ok (mk_ResolvedNodeBinding role model tools skills)
  end.

(*| compiler/runtime_plan.rs 506-523 ResolvedRuntimePlan::resolve *)
Definition resolve_global (ambiguous : gmap BindingCategory BindingRef) (category : BindingCategory)
    (binding : BindingRef) : result PlanResolutionError ResolvedBinding :=
  if bool_decide (ambiguous !! category = Some binding)
  then Err (mk_PlanResolutionError AmbiguousBinding (Some category) None)
  else
    value ← map_err (λ e, mk_PlanResolutionError (registry_error_kind (rr_kind e)) (Some (rr_category e)) None)
              (registry category binding);
    if str_is_empty (rb_id value) || str_is_empty (rb_version value)
    then Err (mk_PlanResolutionError InvalidBinding (Some category) None)
    else Ok value.

(*| compiler/runtime_plan.rs 495-504 ResolvedRuntimePlan::resolve *)
Definition GLOBAL_CATEGORIES : list BindingCategory :=
  [CatValidator; CatPredicate; CatSkill; CatSandbox; CatWorkdir; CatCheckpoint; CatEvent; CatArtifact].

(** The map has an entry for each category with a binding, in the order of the
    categories. *)
(*| compiler/runtime_plan.rs 494-526 ResolvedRuntimePlan::resolve *)
Definition resolve_groups (request : RuntimePlanRequest) :
    result PlanResolutionError (list (BindingCategory * list ResolvedBinding)) :=
  groups ← traverse (λ c, pair c <$> traverse (resolve_global (rq_ambiguous request) c) (default [] (rq_bindings request !! c)))
             GLOBAL_CATEGORIES;
  Ok (filter (λ g, snd g ≠ []) groups).

(*| compiler/runtime_plan.rs 699-704 take *)
Definition take_group (groups : list (BindingCategory * list ResolvedBinding)) (c : BindingCategory) :
    list ResolvedBinding :=
  default [] (snd <$> List.find (λ g, bool_decide (fst g = c)) groups).

(*| compiler/runtime_plan.rs 416-577 ResolvedRuntimePlan::resolve *)
Definition resolve (request : RuntimePlanRequest) : result PlanResolutionError ResolvedRuntimePlan :=
  let effective := default (rq_capabilities request) (rq_effective request) in
  if negb (contains_all (rq_capabilities request) effective)
  then Err (mk_PlanResolutionError CapabilityWidening None None)
  else
    nodes ← traverse (λ '(id, b), pair id <$> resolve_node (rq_ambiguous request) id b)
              (btree_entries (rq_node_bindings request));
    let nodes := list_to_map nodes in
    groups ← resolve_groups request;
    let plan_hash := hash_json (PlanFingerprint (rq_ir_hash request) nodes groups effective) in
    Ok (mk_ResolvedRuntimePlan (rq_ir_hash request) plan_hash ("resume-v1:" +:+ plan_hash) nodes
          (take_group groups CatValidator) (take_group groups CatPredicate) (take_group groups CatSkill)
          (take_group groups CatSandbox) (take_group groups CatWorkdir) (take_group groups CatCheckpoint)
          (take_group groups CatEvent) (take_group groups CatArtifact) effective).

(** ** What a plan is *)

(** The fields of the global categories. *)
Definition plan_group (p : ResolvedRuntimePlan) (c : BindingCategory) : list ResolvedBinding :=
  match c with
  | CatValidator => validators p | CatPredicate => predicates p | CatSkill => skills p
  | CatSandbox => sandboxes p | CatWorkdir => workdirs p | CatCheckpoint => checkpoints p
  | CatEvent => events p | CatArtifact => artifacts p
  | CatModel | CatTool => []
  end.
Definition plan_groups (p : ResolvedRuntimePlan) : list (BindingCategory * list ResolvedBinding) :=
  filter (λ g, snd g ≠ []) (map (λ c, (c, plan_group p c)) GLOBAL_CATEGORIES).
Definition plan_fingerprint (p : ResolvedRuntimePlan) : Value :=
  PlanFingerprint (ir_hash p) (node_bindings p) (plan_groups p) (effective_capabilities p).

(** A name that is not marked ambiguous and that the registry resolves to a
    named identity. *)
Definition resolved_to (request : RuntimePlanRequest) (c : BindingCategory) (b : BindingRef)
    (v : ResolvedBinding) : Prop :=
  rq_ambiguous request !! c ≠ Some b ∧ registry c b = Ok v ∧ rb_id v ≠ "" ∧ rb_version v ≠ "".

(** An agent has a model; a reviewer has no tool and no skill. *)
Definition node_resolved (request : RuntimePlanRequest) (b : NodeBindingRequest) (n : ResolvedNodeBinding) : Prop :=
  ∃ m, nb_model b = Some (rn_role n, m) ∧ resolved_to request CatModel m (rn_model n) ∧
    Forall2 (resolved_to request CatTool) (nb_tools b) (rn_tools n) ∧
    Forall2 (resolved_to request CatSkill) (nb_skills b) (rn_skills n) ∧
    (rn_role n = IrReviewer → nb_tools b = [] ∧ nb_skills b = []).

Record plan_of (request : RuntimePlanRequest) (p : ResolvedRuntimePlan) : Prop := {
  plan_ir : ir_hash p = rq_ir_hash request;
  plan_capabilities : effective_capabilities p = default (rq_capabilities request) (rq_effective request);
  plan_narrow v : v ∈ effective_capabilities p → v ∈ rq_capabilities request;
  plan_nodes id : option_Forall2 (node_resolved request) (rq_node_bindings request !! id) (node_bindings p !! id);
  plan_global c : c ∈ GLOBAL_CATEGORIES →
    Forall2 (resolved_to request c) (default [] (rq_bindings request !! c)) (plan_group p c);
  plan_identity : plan_hash p = hash_json (plan_fingerprint p);
  plan_resume : resume_identity p = "resume-v1:" +:+ plan_hash p }.

Lemma resolve_node_value_Ok request c b id v :
  resolve_node_value (rq_ambiguous request) c b id = Ok v ↔ resolved_to request c b v.
Proof.
  unfold resolve_node_value, resolved_to. rewrite guard_Ok, bool_decide_eq_false, bind_Ok.
  setoid_rewrite map_err_Ok. setoid_rewrite guard_Ok. setoid_rewrite orb_false_iff.
  setoid_rewrite str_is_empty_false. naive_solver.
Qed.

Lemma resolve_global_Ok request c b v :
  resolve_global (rq_ambiguous request) c b = Ok v ↔ resolved_to request c b v.
Proof.
  unfold resolve_global, resolved_to. rewrite guard_Ok, bool_decide_eq_false, bind_Ok.
  setoid_rewrite map_err_Ok. setoid_rewrite guard_Ok. setoid_rewrite orb_false_iff.
  setoid_rewrite str_is_empty_false. naive_solver.
Qed.

Lemma resolve_values_Ok request c id l vs :
  traverse (λ b, resolve_node_value (rq_ambiguous request) c b id) l = Ok vs ↔
  Forall2 (resolved_to request c) l vs.
Proof.
  rewrite traverse_Ok. split; intros Hl; (eapply Forall2_impl; [exact Hl|]); intros b v;
    apply resolve_node_value_Ok.
Qed.

Lemma is_nil_iff {A} (l : list A) : is_nil l = true ↔ l = [].
Proof. by destruct l. Qed.

Lemma resolve_node_Ok request id b n :
  resolve_node (rq_ambiguous request) id b = Ok n ↔ node_resolved request b n.
Proof.
  unfold resolve_node, node_resolved. destruct (nb_model b) as [[role m]|]; [|naive_solver].
  rewrite bind_Ok. setoid_rewrite resolve_node_value_Ok. setoid_rewrite guard_Ok. setoid_rewrite bind_Ok.
  setoid_rewrite bind_Ok. setoid_rewrite resolve_values_Ok.
  assert (Hr : bool_decide (role = IrReviewer) && (negb (is_nil (nb_tools b)) || negb (is_nil (nb_skills b))) = false ↔
    (role = IrReviewer → nb_tools b = [] ∧ nb_skills b = [])).
  { rewrite andb_false_iff, bool_decide_eq_false, orb_false_iff, !negb_false_iff, !is_nil_iff.
    destruct (decide (role = IrReviewer)); naive_solver. }
  setoid_rewrite Hr. split.
  - intros (v & Hm & Hv & ts & Ht & ss & Hs & [= <-]). by exists m.
  - destruct n as [role' v ts ss]. intros (m' & [= <- <-] & Hm & Ht & Hs & Hv).
    by exists v; split_and!; [|..|exists ts; split; [|exists ss]].
Qed.

Lemma option_Forall2_mono {A B} (P Q : A → B → Prop) o o' :
  (∀ a b, P a b → Q a b) → option_Forall2 P o o' → option_Forall2 Q o o'.
Proof. intros Himpl [a b Hab|]; constructor. by apply Himpl. Qed.

(** The nodes of a plan are those of the request. *)
Lemma traverse_nodes_Ok {A B E} (f : string → A → result E B) (m : gmap string A) (m' : gmap string B) :
  (∃ ys, traverse (λ '(id, b), pair id <$> f id b) (btree_entries m) = Ok ys ∧ m' = list_to_map ys) ↔
  ∀ id, option_Forall2 (λ b n, f id b = Ok n) (m !! id) (m' !! id).
Proof.
  assert (Hsome : ∀ ys, traverse (λ '(id, b), pair id <$> f id b) (btree_entries m) = Ok ys →
    ∀ id, option_Forall2 (λ b n, f id b = Ok n) (m !! id) ((list_to_map ys : gmap string B) !! id)).
  { intros ys Hys%traverse_Ok id.
    assert (Hk : map fst ys = map fst (btree_entries m)).
    { clear -Hys. induction Hys as [|[k b] [k' n] l l' Hx Hl IH]; [done|]. cbn. f_equal; [|done].
      destruct (f k b); [|done]. by injection Hx. }
    assert (Hnd : NoDup (map fst ys)) by (rewrite Hk; apply btree_entries_keys).
    destruct (m !! id) as [b|] eqn:Eb.
    - apply elem_of_btree_entries in Eb. apply list_elem_of_lookup in Eb as [i Hi].
      destruct (Forall2_lookup_l _ _ _ _ _ Hys Hi) as ([k n] & Hn & Hx).
      destruct (f id b) as [n'|] eqn:Ef; [|done]. injection Hx as <- <-.
      apply list_elem_of_lookup_2 in Hn. rewrite (elem_of_list_to_map_1 ys id n') by done. by constructor.
    - destruct (list_to_map ys !! id) as [n|] eqn:En; [|constructor]. exfalso.
      apply elem_of_list_to_map_2 in En. assert (id ∈ map fst ys) as Hin by (by apply (list_elem_of_fmap_2 fst) in En).
      rewrite Hk in Hin. apply list_elem_of_fmap in Hin as ([k b] & -> & Hb).
      apply elem_of_btree_entries in Hb. cbn in Eb. congruence. }
  split; [intros (ys & Hys & ->); by apply Hsome|]. intros Hm.
  assert (Htot : ∃ ys, traverse (λ '(id, b), pair id <$> f id b) (btree_entries m) = Ok ys).
  { assert (Hin : ∀ k b, (k, b) ∈ btree_entries m → ∃ n, f k b = Ok n).
    { intros k b Hb%elem_of_btree_entries. specialize (Hm k). rewrite Hb in Hm. inversion Hm. eauto. }
    clear Hsome Hm. induction (btree_entries m) as [|[k b] l IH]; cbn; [by eexists|].
    destruct (Hin k b) as [n ->]; [by left|]. cbn.
    destruct (IH (λ k' b' Hb, Hin k' b' (list_elem_of_further _ _ _ Hb))) as [ys ->]. by eexists. }
  destruct Htot as [ys Hys]. exists ys. split; [done|]. apply map_eq. intros id.
  specialize (Hsome ys Hys id). specialize (Hm id).
  inversion Hm as [b n Hf E1 E2|E1 E2]; inversion Hsome; congruence.
Qed.

(** *** The groups *)

Lemma take_group_filter groups c :
  NoDup (map fst groups) → take_group (filter (λ g, snd g ≠ []) groups) c = take_group groups c.
Proof.
  unfold take_group. induction groups as [|[k l] groups IH]; [done|]. cbn [map fst]. intros [Hk Hnd]%NoDup_cons.
  specialize (IH Hnd). rewrite filter_cons. case_decide as Hl; cbn [snd] in Hl.
  - cbn [List.find fst]. case_bool_decide; [done|]. exact IH.
  - subst l. rewrite IH. cbn [List.find fst]. case_bool_decide as E; [|done]. subst k.
    destruct (List.find _ groups) as [[k l]|] eqn:Ef; [|done].
    apply find_Some_iff in Ef as [Hin Ef]. apply bool_decide_eq_true in Ef. cbn in Ef. subst k.
    destruct Hk. by apply (list_elem_of_fmap_2 fst) in Hin.
Qed.

Lemma take_plan_group p c :
  c ∈ GLOBAL_CATEGORIES → take_group (plan_groups p) c = plan_group p c.
Proof.
  intros Hc. unfold plan_groups. rewrite take_group_filter by (apply (bool_decide_unpack _); by vm_compute).
  unfold GLOBAL_CATEGORIES in Hc. rewrite !elem_of_cons, elem_of_nil in Hc.
  by destruct_or? Hc; subst c.
Qed.

(** Resolving the groups gives each category its list. *)
Lemma resolve_groups_Ok request groups :
  resolve_groups request = Ok groups ↔
  ∃ f : BindingCategory → list ResolvedBinding,
    groups = filter (λ g, snd g ≠ []) (map (λ c, (c, f c)) GLOBAL_CATEGORIES) ∧
    ∀ c, c ∈ GLOBAL_CATEGORIES → Forall2 (resolved_to request c) (default [] (rq_bindings request !! c)) (f c).
Proof.
  unfold resolve_groups. rewrite bind_Ok.
  assert (Hgen : ∀ cs ys, NoDup cs →
    traverse (λ c, pair c <$> traverse (resolve_global (rq_ambiguous request) c)
                (default [] (rq_bindings request !! c))) cs = Ok ys ↔
    ∃ f : BindingCategory → list ResolvedBinding, ys = map (λ c, (c, f c)) cs ∧
      ∀ c, c ∈ cs → Forall2 (resolved_to request c) (default [] (rq_bindings request !! c)) (f c)).
  { assert (Hone : ∀ c vs, traverse (resolve_global (rq_ambiguous request) c)
        (default [] (rq_bindings request !! c)) = Ok vs ↔
      Forall2 (resolved_to request c) (default [] (rq_bindings request !! c)) vs).
    { intros c vs. rewrite traverse_Ok. split; intros Hl; (eapply Forall2_impl; [exact Hl|]); intros b v;
        apply resolve_global_Ok. }
    induction cs as [|c cs IH]; intros ys Hnd; cbn.
    - split; [intros [= <-]|by intros (f & -> & _)]. exists (λ _, []). split; [done|]. by intros c ?%elem_of_nil.
    - apply NoDup_cons in Hnd as [Hc Hnd]. rewrite bind_Ok. setoid_rewrite bind_Ok. setoid_rewrite IH; [|done]. split.
      + intros (y & (vs & Evs%Hone & [= <-]) & ys' & (f & -> & Hf) & [= <-]).
        exists (λ c', if decide (c' = c) then vs else f c'). split.
        * rewrite decide_True by done. f_equal. apply list_fmap_ext. intros i c' Hi%list_elem_of_lookup_2.
          by rewrite decide_False by (by intros ->).
        * intros c' [->|Hin]%elem_of_cons; [by rewrite decide_True|].
          rewrite decide_False by (by intros ->). by apply Hf.
      + intros (f & -> & Hf). exists (c, f c). split.
        { exists (f c). split; [|done]. apply Hone, Hf. by left. }
        eexists. split; [|done]. exists f. split; [done|]. intros c' Hin. apply Hf. by right. }
  split.
  - intros (ys & Hys & [= <-]). apply Hgen in Hys as (f & -> & Hf); [|apply (bool_decide_unpack _); by vm_compute].
    by exists f.
  - intros (f & -> & Hf). eexists. split; [|done]. apply Hgen; [apply (bool_decide_unpack _); by vm_compute|].
    by exists f.
Qed.

(** *** Capabilities *)

Lemma contains_all_elem self other :
  (contains_all self other = true → ∀ v, v ∈ other → v ∈ self) ∧
  (StronglySorted String.le self → (∀ v, v ∈ other → v ∈ self) → contains_all self other = true).
Proof.
  unfold contains_all. rewrite forallb_forall. split.
  - intros Hall v Hv. specialize (Hall v ltac:(by apply list_elem_of_In)).
    destruct (binary_search_by _ _) eqn:E; [|done].
    apply binary_search_by_Some in E as (x & Hx & Heq). apply String.compare_eq_iff in Heq. subst x.
    by eapply list_elem_of_lookup_2.
  - intros Hs Hin v Hv%list_elem_of_In. destruct (binary_search_by _ _) eqn:E; [done|].
    apply binary_search_by_None with (x := v) in E; [| |by apply Hin].
    + destruct E. pose proof (String.compare_antisym v v) as Ha. by destruct (String.compare v v).
    + apply (key_ord_bisected id). apply (StronglySorted_impl String.le); [|done].
      intros a b Hab. unfold key_ord, id. unfold String.le, String.leb in Hab. by destruct (String.compare a b).
Qed.

Lemma CapabilitySet_new_sorted values : StronglySorted String.le (CapabilitySet_new values).
Proof. apply dedup_sorted. apply (sort_by_key_sorted id). Qed.

(** *** The theorems *)

Lemma runtime_plan_resolved request p values :
  rq_capabilities request = CapabilitySet_new values →
  resolve request = Ok p ↔ plan_of request p.
Proof.
  intros Hcaps. unfold resolve. rewrite guard_Ok, negb_false_iff, bind_Ok. split.
  - intros (Hn & ys & Hys & (groups & Hg & [= <-])%bind_Ok).
    pose proof (proj1 (traverse_nodes_Ok _ _ _) (ex_intro _ ys (conj Hys eq_refl))) as Hnodes.
    apply resolve_groups_Ok in Hg as (f & -> & Hf).
    set (groups := filter _ _).
    assert (Hgr : ∀ c, c ∈ GLOBAL_CATEGORIES → take_group groups c = f c).
    { intros c Hc. unfold groups. rewrite take_group_filter by (apply (bool_decide_unpack _); by vm_compute).
      unfold GLOBAL_CATEGORIES in Hc. rewrite !elem_of_cons, elem_of_nil in Hc. by destruct_or? Hc; subst c. }
    set (p := mk_ResolvedRuntimePlan _ _ _ _ _ _ _ _ _ _ _ _ _).
    assert (Hpg : ∀ c, c ∈ GLOBAL_CATEGORIES → plan_group p c = f c).
    { intros c Hc. rewrite <- (Hgr c Hc). unfold GLOBAL_CATEGORIES in Hc.
      rewrite !elem_of_cons, elem_of_nil in Hc. by destruct_or? Hc; subst c. }
    assert (Hgs : plan_groups p = groups).
    { unfold plan_groups, groups. f_equal. apply list_fmap_ext. intros i c Hi%list_elem_of_lookup_2. by rewrite Hpg. }
    split; try done.
    + apply (proj1 (contains_all_elem _ _)). exact Hn.
    + intros id. specialize (Hnodes id). eapply option_Forall2_mono; [|exact Hnodes]. intros b n. apply resolve_node_Ok.
    + intros c Hc. rewrite Hpg by done. by apply Hf.
    + unfold plan_fingerprint. by rewrite Hgs.
  - intros [Hir Hcap Hnarrow Hnodes Hglobal Hid Hres]. split.
    { rewrite <- Hcap. apply (proj2 (contains_all_elem _ _)); [|done]. rewrite Hcaps. apply CapabilitySet_new_sorted. }
    destruct (proj2 (traverse_nodes_Ok (resolve_node (rq_ambiguous request)) (rq_node_bindings request) (node_bindings p)))
      as (ys & Hys & Hmap).
    { intros id. eapply option_Forall2_mono; [|exact (Hnodes id)]. intros b n. apply resolve_node_Ok. }
    exists ys. split; [done|]. apply bind_Ok. exists (plan_groups p). split.
    { apply resolve_groups_Ok. by exists (plan_group p). }
    rewrite <- Hmap, <- Hir, <- Hcap, !take_plan_group by (cbn; set_solver).
    change (PlanFingerprint _ _ _ _) with (plan_fingerprint p). rewrite <- Hid, <- Hres. by destruct p.
Qed.

(** C24. Planning is exact and only narrows.  Given requested capabilities made
    by [CapabilitySet::new], a request is planned if and only if its effective
    capabilities are among those requested, every agent names a model, a reviewer
    names no tool and no skill, and every name - of an agent's model, tools and
    skills, and of every global category - is not marked ambiguous and resolves to
    a named identity; the plan then holds exactly those identities, in order and
    for exactly the request's agents, the effective capabilities, and the hash of
    the fingerprint of what it holds. *)
Theorem runtime_plan_exact request p values :
  rq_capabilities request = CapabilitySet_new values →
  resolve request = Ok p ↔ plan_of request p.
Proof. apply runtime_plan_resolved. Qed.

(** *** The hash *)

Context `{!JsonTextLaws}.

#[local] Instance category_str_inj : Inj (=) (=) category_str.
Proof. by intros [] []. Qed.
#[local] Instance role_str_inj : Inj (=) (=) role_str.
Proof. by intros [] []. Qed.
#[local] Instance VString_inj : Inj (=) (=) VString.
Proof. by intros ? ? [= ->]. Qed.
#[local] Instance binding_fingerprint_inj : Inj (=) (=) binding_fingerprint.
Proof. by intros [] [] [= -> -> ->]. Qed.
#[local] Instance node_fingerprint_inj : Inj (=) (=) node_fingerprint.
Proof.
  intros [r m ts ss] [r' m' ts' ss'] E. injection E as Hr Hi Hv Hm Ht Hs.
  apply (inj role_str) in Hr as ->. apply (list_fmap_eq_inj _ binding_fingerprint_inj) in Ht as ->.
  apply (list_fmap_eq_inj _ binding_fingerprint_inj) in Hs as ->.
  f_equal. destruct m, m'. cbn in *. congruence.
Qed.
#[local] Instance node_entry_inj :
  Inj (=) (=) (λ '(id, b), (id, node_fingerprint b) : string * Value).
Proof. intros [i b] [i' b'] [-> E]%pair_equal_spec. by apply node_fingerprint_inj in E as ->. Qed.
#[local] Instance group_entry_inj :
  Inj (=) (=) (λ '(c, l), (category_str c, Array (map binding_fingerprint l)) : string * Value).
Proof.
  intros [c l] [c' l'] [Ec El]%pair_equal_spec. apply (inj category_str) in Ec as ->. injection El as El.
  by apply (list_fmap_eq_inj _ binding_fingerprint_inj) in El as ->.
Qed.

Lemma PlanFingerprint_inj h n g c h' n' g' c' :
  PlanFingerprint h n g c = PlanFingerprint h' n' g' c' → h = h' ∧ n = n' ∧ g = g' ∧ c = c'.
Proof.
  intros E. injection E as -> Hn Hg Hc.
  apply (list_fmap_eq_inj _ node_entry_inj) in Hn. apply btree_entries_inj in Hn as ->.
  apply (list_fmap_eq_inj _ group_entry_inj) in Hg as ->. by apply (list_fmap_eq_inj _ VString_inj) in Hc as ->.
Qed.

Lemma plan_groups_inj p q c :
  plan_groups p = plan_groups q → c ∈ GLOBAL_CATEGORIES → plan_group p c = plan_group q c.
Proof. intros E Hc. by rewrite <- (take_plan_group p c Hc), E, take_plan_group. Qed.

Lemma from_ir_hash ir : rq_ir_hash (from_ir ir) = encode_hex (canonical_ir_hash ir).
Proof.
  unfold from_ir. generalize (ir_routes ir). intros routes. set (r := mk_RuntimePlanRequest _ _ _ _ _ _).
  assert (E : rq_ir_hash r = encode_hex (canonical_ir_hash ir)) by done. clearbody r. revert r E.
  induction routes as [|x routes IH]; intros r E; [done|]. cbn. by apply IH.
Qed.

(** The plan hash identifies the plan.  Two plans made for requests whose
    capabilities are made by [CapabilitySet::new] and whose plan hashes agree are
    the same plan - the same IR hash, the same model, tools and skills of every
    agent with their metadata identities, the same global bindings and the same
    effective capabilities - unless the hash collides on their two fingerprints;
    so a run resumes under an equal resume identity only with an equal plan, and
    plans of two IRs agree only if the IRs have the same content hash. *)
Theorem runtime_plan_hash_identifies request request' p p' values values' :
  rq_capabilities request = CapabilitySet_new values →
  rq_capabilities request' = CapabilitySet_new values' →
  resolve request = Ok p → resolve request' = Ok p' →
  resume_identity p = resume_identity p' →
  (sha256 (compact (plan_fingerprint p)) = sha256 (compact (plan_fingerprint p')) →
     compact (plan_fingerprint p) = compact (plan_fingerprint p')) →
  p = p' ∧ rq_ir_hash request = rq_ir_hash request' ∧
  ∀ ir ir', rq_ir_hash request = rq_ir_hash (from_ir ir) → rq_ir_hash request' = rq_ir_hash (from_ir ir') →
    canonical_ir_hash ir = canonical_ir_hash ir'.
Proof.
  intros Hc Hc' Hp Hp' Hr Hnc. apply (runtime_plan_resolved _ _ _ Hc) in Hp as Hplan.
  apply (runtime_plan_resolved _ _ _ Hc') in Hp' as Hplan'.
  assert (Hhash : plan_hash p = plan_hash p').
  { rewrite (plan_resume _ _ Hplan), (plan_resume _ _ Hplan') in Hr. by injection Hr. }
  rewrite (plan_identity _ _ Hplan), (plan_identity _ _ Hplan') in Hhash.
  unfold hash_json in Hhash. apply (inj encode_hex), Hnc, compact_inj, PlanFingerprint_inj in Hhash
    as (Hir & Hn & Hg & He).
  assert (Heq : p = p').
  { pose proof (plan_identity _ _ Hplan) as Hi. pose proof (plan_identity _ _ Hplan') as Hi'.
    unfold plan_fingerprint in Hi, Hi'. rewrite <- Hir, <- Hn, <- Hg, <- He, <- Hi in Hi'.
    pose proof (λ c, plan_groups_inj p p' c Hg) as Hgroup.
    assert (Hgs : validators p = validators p' ∧ predicates p = predicates p' ∧ skills p = skills p' ∧
      sandboxes p = sandboxes p' ∧ workdirs p = workdirs p' ∧ checkpoints p = checkpoints p' ∧
      events p = events p' ∧ artifacts p = artifacts p').
    { split_and!; [apply (Hgroup CatValidator)|apply (Hgroup CatPredicate)|apply (Hgroup CatSkill)
        |apply (Hgroup CatSandbox)|apply (Hgroup CatWorkdir)|apply (Hgroup CatCheckpoint)
        |apply (Hgroup CatEvent)|apply (Hgroup CatArtifact)]; by apply (bool_decide_unpack _). }
    clear -Hir Hn He Hr Hi' Hgs. destruct p, p'. cbn in *. destruct_and! Hgs. by subst. }
  split_and!; [done|by rewrite <- (plan_ir _ _ Hplan), Hir, (plan_ir _ _ Hplan')|].
  intros ir ir' E E'. apply (inj encode_hex). rewrite <- !from_ir_hash, <- E, <- E'.
  by rewrite <- (plan_ir _ _ Hplan), Hir, (plan_ir _ _ Hplan').
Qed.

(** What identities a plan holds does not show in its explanation. *)
Lemma binding_text_map l l' : length l = length l' → map binding_text l = map binding_text l'.
Proof.
  revert l'. induction l as [|x l IH]; intros [|y l'] E; try done. cbn. f_equal. apply IH. by injection E.
Qed.

Lemma explain_redacts p q :
  ir_hash p = ir_hash q → plan_hash p = plan_hash q → resume_identity p = resume_identity q →
  Forall2 (λ x y, fst x = fst y ∧ rn_role (snd x) = rn_role (snd y) ∧
             length (rn_tools (snd x)) = length (rn_tools (snd y)) ∧
             length (rn_skills (snd x)) = length (rn_skills (snd y)))
    (btree_entries (node_bindings p)) (btree_entries (node_bindings q)) →
  (∀ c, c ∈ GLOBAL_CATEGORIES → length (plan_group p c) = length (plan_group q c)) →
  length (effective_capabilities p) = length (effective_capabilities q) →
  explain p = explain q.
Proof.
  intros Hi Hh Hr Hn Hg Hc. unfold explain. do 2 f_equal. rewrite Hi, Hh, Hr.
  assert (Hnodes : map (λ '(id, b), (id, node_text b)) (btree_entries (node_bindings p)) =
    map (λ '(id, b), (id, node_text b)) (btree_entries (node_bindings q))).
  { induction Hn as [|[i n] [j m] l k (Hij & Hrole & Ht & Hs) Hn IH]; [done|]. cbn in *. f_equal; [|done].
    unfold node_text. by rewrite Hij, Hrole, (binding_text_map _ _ Ht), (binding_text_map _ _ Hs). }
  assert (Hcs : capabilities_text (effective_capabilities p) = capabilities_text (effective_capabilities q)).
  { unfold capabilities_text. f_equal. revert Hc. generalize (effective_capabilities p) (effective_capabilities q).
    intros l. induction l as [|x l IH]; intros [|y k] E; try done. cbn. f_equal. apply IH. by injection E. }
  assert (Hgr : ∀ c, c ∈ GLOBAL_CATEGORIES →
    map binding_text (plan_group p c) = map binding_text (plan_group q c)) by (intros; by apply binding_text_map, Hg).
  rewrite Hnodes, Hcs. change (validators ?x) with (plan_group x CatValidator).
  pose proof (Hgr CatValidator ltac:(by apply (bool_decide_unpack _))) as E1.
  pose proof (Hgr CatPredicate ltac:(by apply (bool_decide_unpack _))) as E2.
  pose proof (Hgr CatSkill ltac:(by apply (bool_decide_unpack _))) as E3.
  pose proof (Hgr CatSandbox ltac:(by apply (bool_decide_unpack _))) as E4.
  pose proof (Hgr CatWorkdir ltac:(by apply (bool_decide_unpack _))) as E5.
  pose proof (Hgr CatCheckpoint ltac:(by apply (bool_decide_unpack _))) as E6.
  pose proof (Hgr CatEvent ltac:(by apply (bool_decide_unpack _))) as E7.
  pose proof (Hgr CatArtifact ltac:(by apply (bool_decide_unpack _))) as E8.
  cbn [plan_group] in *. by rewrite E1, E2, E3, E4, E5, E6, E7, E8.
Qed.
End plan.

(** ** Example *)

Section example.
#[local] Existing Instance ex_json_Z.
#[local] Existing Instance ex_json_Z_laws.
#[local] Instance ex_identity_hash : Sha256 := λ s, s.

Definition ex_registry (c : BindingCategory) (b : BindingRef) :
    result RegistryResolutionError ResolvedBinding :=
  if str_eqb (br_id b) "absent" then Err (mk_RegistryResolutionError RegistryMissing c)
  else Ok (mk_ResolvedBinding (br_id b) (br_version b) "m").
Definition ex_request (model : string) : RuntimePlanRequest :=
  set_effective_capabilities ["read"]
    (set_capabilities (CapabilitySet_new ["write"; "read"; "read"])
      (with_binding CatValidator "v" "1"
        (mk_RuntimePlanRequest "h"
          {["a" := mk_NodeBindingRequest (Some (IrWorker, mk_BindingRef model "1")) [mk_BindingRef "t" "1"] []]}
          ∅ [] None ∅))).
Definition ex_plan : option ResolvedRuntimePlan :=
  match resolve ex_registry (ex_request "model") with Ok p => Some p | Err _ => None end.

Lemma ex_plan_resolved : ∃ p, resolve ex_registry (ex_request "model") = Ok p ∧
  validators p = [mk_ResolvedBinding "v" "1" "m"].
Proof. eexists. split; vm_compute; reflexivity. Qed.

Example ex_missing :
  resolve ex_registry (ex_request "absent") =
    Err (mk_PlanResolutionError MissingBinding (Some CatModel) (Some "a")).
Proof. vm_compute. reflexivity. Qed.

Lemma runtime_plan_exact_witness :
  ∃ p, plan_of ex_registry (ex_request "model") p ∧ effective_capabilities p = ["read"].
Proof.
  destruct (resolve ex_registry (ex_request "model")) as [p|] eqn:E.
  - exists p. split.
    + exact (proj1 (runtime_plan_exact ex_registry (ex_request "model") p ["write"; "read"; "read"] eq_refl) E).
    + apply (f_equal (λ r, match r with Ok q => effective_capabilities q | Err _ => [] end)) in E.
      rewrite <- E. vm_compute. reflexivity.
  - exfalso. destruct ex_plan_resolved as (p & Ep & _). congruence.
Defined.

(** A mark that concerns no binding of the request changes nothing. *)
Definition ex_marked : RuntimePlanRequest :=
  set_ambiguous CatTool (mk_BindingRef "u" "1") (ex_request "model").

Lemma runtime_plan_hash_identifies_witness :
  resolve ex_registry (ex_request "model") = resolve ex_registry ex_marked.
Proof.
  destruct (resolve ex_registry (ex_request "model")) as [p|] eqn:E;
    [|exfalso; destruct ex_plan_resolved as (p & Ep & _); congruence].
  assert (Hk : (match resolve ex_registry ex_marked with Ok q => Some (resume_identity q) | Err _ => None end) =
    Some (resume_identity p)).
  { apply (f_equal (λ r, match r with Ok q => Some (resume_identity q) | Err _ => None end)) in E.
    rewrite <- E. vm_compute. reflexivity. }
  destruct (resolve ex_registry ex_marked) as [p'|] eqn:E'; [|done]. injection Hk as Hk.
  exact (f_equal Ok (proj1 (runtime_plan_hash_identifies ex_registry (ex_request "model") ex_marked p p'
    ["write"; "read"; "read"] ["write"; "read"; "read"] eq_refl eq_refl E E' (eq_sym Hk) id))).
Defined.
End example.
