(* ===== verification/Event.v ===== *)
(** * Runtime events

    [workflow-runtime/src/event.rs]: the versioned event envelope, the
    redaction of its payload and the append-only log of a run.  How
    [serde_json] prints a payload and decodes the three fields of an artifact
    reference is third-party code, [JsonText] and [ArtifactJson]. *)

From S2P Require Import Prelude Hashing.
From S2P Require Import Text Json.

(*| runtime/observability.rs 8-8 REDACTION_MARKER *)
Definition REDACTION_MARKER : string := "<redacted>".
(*| runtime/event.rs 10-10 WORKFLOW_RUNTIME_EVENT_SCHEMA_VERSION_V1 *)
Definition WORKFLOW_RUNTIME_EVENT_SCHEMA_VERSION_V1 : Z := 1.

(*| runtime/event.rs 12-20 FOREIGN_TYPE_MARKERS *)
Definition FOREIGN_TYPE_MARKERS : list string :=
  ["adk_rust::"; "adk_core::"; "adk_agent::"; "adk_model::"; "adk_graph::";
   "adk_guardrail::"; "adk_telemetry::"].

(*| runtime/event.rs 25-53 WorkflowRuntimeEventKindV1 *)
Inductive WorkflowRuntimeEventKindV1 :=
| WorkflowStarted | WorkflowResumed | WorkflowCancelled | NodeScheduled | NodeStarted
| NodeCompleted | NodeFailed | ModelRequestStarted | ModelRequestCompleted | ToolRequested
| ToolAuthorized | ToolDenied | ToolStarted | ToolCompleted | RetryScheduled
| ApprovalRequested | ApprovalResolved | CheckpointCommitStarted | CheckpointCommitted
| CheckpointFailed | ArtifactCommitted | ReviewCompleted | RevisionRequested
| WorkflowCompleted | WorkflowAbstained | WorkflowIncomplete | WorkflowFailed.

(*| runtime/event.rs 57-87 WorkflowRuntimeEventKindV1::as_str *)
Definition kind_str (kind : WorkflowRuntimeEventKindV1) : string :=
  match kind with
  | WorkflowStarted => "workflow_started"
  | WorkflowResumed => "workflow_resumed"
  | WorkflowCancelled => "workflow_cancelled"
  | NodeScheduled => "node_scheduled"
  | NodeStarted => "node_started"
  | NodeCompleted => "node_completed"
  | NodeFailed => "node_failed"
  | ModelRequestStarted => "model_request_started"
  | ModelRequestCompleted => "model_request_completed"
  | ToolRequested => "tool_requested"
  | ToolAuthorized => "tool_authorized"
  | ToolDenied => "tool_denied"
  | ToolStarted => "tool_started"
  | ToolCompleted => "tool_completed"
  | RetryScheduled => "retry_scheduled"
  | ApprovalRequested => "approval_requested"
  | ApprovalResolved => "approval_resolved"
  | CheckpointCommitStarted => "checkpoint_commit_started"
  | CheckpointCommitted => "checkpoint_committed"
  | CheckpointFailed => "checkpoint_failed"
  | ArtifactCommitted => "artifact_committed"
  | ReviewCompleted => "review_completed"
  | RevisionRequested => "revision_requested"
  | WorkflowCompleted => "workflow_completed"
  | WorkflowAbstained => "workflow_abstained"
  | WorkflowIncomplete => "workflow_incomplete"
  | WorkflowFailed => "workflow_failed"
  end.

(*| runtime/event.rs 437-447 WorkflowRuntimeEventErrorKind *)
Inductive WorkflowRuntimeEventError :=
| InvalidMetadata | InvalidPayload | InvalidArtifactReference | UnsupportedSchemaVersion
| DuplicateEventId | SequenceIntegrity | SequenceOverflow | IntegrityMismatch
| ForeignTypeLeakage.

(*| runtime/event.rs 496-498 valid_metadata *)
Definition valid_metadata (value : string) : bool :=
  negb (str_is_empty value) && negb (existsb is_ascii_control (str_bytes value)).

(*| runtime/event.rs 500-507 valid_sha256 *)
Definition valid_sha256 (value : string) : bool :=
  match strip_prefix "sha256:" value with
  | Some digest => (str_len digest =? 64)%Z && str_all is_lower_hex digest
  | None => false
  end.

(** ** Artifact references *)

(*| runtime/event.rs 93-97 ProtectedArtifactReferenceV1 *)
Record ProtectedArtifactReferenceV1 := mk_ArtifactReference {
  artifact_id : string; artifact_sha256 : string; artifact_byte_len : Z }.

(*| runtime/event.rs 109-126 ProtectedArtifactReferenceV1::new *)
Definition ArtifactReference_new (id sha256 : string) (byte_len : Z) :
    result WorkflowRuntimeEventError ProtectedArtifactReferenceV1 :=
  if negb (valid_metadata id) || negb (valid_sha256 sha256) || (byte_len =? 0)%Z
  then Err InvalidArtifactReference else Ok (mk_ArtifactReference id sha256 byte_len).

(** The derived decoder of the three fields: [None] on anything else. *)
Class ArtifactJson `{JsonText} := decode_artifact_fields : Value → option (string * string * Z).

(** ** Sensitive keys *)

(** The bytes that satisfy [p]. *)
Fixpoint str_filter (p : ascii → bool) (s : string) : string :=
  match s with
  | EmptyString => EmptyString
  | String c s => if p c then String c (str_filter p s) else str_filter p s
  end.

(*| runtime/event.rs 613-627 sensitive_key *)
Definition sensitive_key (key : string) : bool :=
  let normalized := to_ascii_lowercase (str_filter is_ascii_alphanumeric key) in
  let token_key := str_contains normalized "token" &&
                   negb (existsb (str_eqb normalized) ["inputtokens"; "outputtokens"]) in
  str_contains normalized "authorization" || str_contains normalized "apikey" ||
  str_contains normalized "password" || str_contains normalized "secret" || token_key ||
  existsb (str_eqb normalized) ["chainofthought"; "reasoning"].

Example sensitive_keys :
  map sensitive_key ["X-Api-Key"; "input_tokens"; "session token"; "path"] =
  [true; false; true; false].
Proof. by vm_compute. Qed.

Definition foreign (text : string) : bool := existsb (str_contains text) FOREIGN_TYPE_MARKERS.

Section json.
Context `{JsonText}.

(** [value == REDACTION_MARKER]. *)
Definition is_marker (value : Value) : bool :=
  match value with VString s => str_eqb s REDACTION_MARKER | _ => false end.

(*| runtime/event.rs 529-537 contains_sensitive_key *)
Fixpoint contains_sensitive_key (value : Value) : bool :=
  match value with
  | Object object =>
      existsb (λ e, sensitive_key (fst e) || contains_sensitive_key (snd e)) object
  | Array values => existsb contains_sensitive_key values
  | _ => false
  end.

(*| runtime/event.rs 539-553 sanitize_payload *)
Fixpoint sanitize_payload (value : Value) : Value :=
  match value with
  | Object object =>
      Object (map (λ e, (fst e, if sensitive_key (fst e) then VString REDACTION_MARKER
                                else sanitize_payload (snd e))) object)
  | Array values => Array (map sanitize_payload values)
  | value => value
  end.

(*| runtime/event.rs 581-611 validate_value *)
Fixpoint validate_value (value : Value) : result WorkflowRuntimeEventError unit :=
  match value with
  | VString s => if foreign s then Err ForeignTypeLeakage else Ok tt
  | Array values => for_each validate_value values
  | Object object =>
      for_each (λ e,
        if foreign (fst e) then Err ForeignTypeLeakage
        else if sensitive_key (fst e) && negb (is_marker (snd e)) then Err InvalidPayload
        else validate_value (snd e)) object
  | _ => Ok tt
  end.

Context `{!ArtifactJson}.

(*| runtime/event.rs 555-579 validate_persisted_payload *)
Definition validate_persisted_payload (value : Value) : result WorkflowRuntimeEventError unit :=
  match value with
  | Object object =>
      for_each (λ e,
        if sensitive_key (fst e) && negb (is_marker (snd e)) then Err InvalidPayload
        else validate_value (snd e)) object;;
      match object_get "artifact_reference" object with
      | None => Ok tt
      | Some reference =>
          match decode_artifact_fields reference with
          | Some (id, sha256, len) => ArtifactReference_new id sha256 len;; Ok tt
          | None => Err InvalidArtifactReference
          end
      end
  | _ => Err InvalidPayload
  end.

Context `{Sha256}.

(** [serde_json::to_vec] of a [Value] does not fail. *)
(*| runtime/event.rs 509-514 digest_json *)
Definition digest_json (value : Value) : string :=
  "sha256:" +:+ encode_hex (sha256 (compact value)).

(*| runtime/event.rs 522-526 redact_json_value *)
Definition redact_json_value (value : Value) : Value := sanitize_payload value.
(*| runtime/event.rs 517-519 redacted_json_digest *)
Definition redacted_json_digest (value : Value) : string := digest_json (redact_json_value value).

(** ** Events and the log *)

(*| runtime/event.rs 170-181 WorkflowRuntimeEventV1 *)
Record WorkflowRuntimeEventV1 := mk_Event {
  schema_version : Z; event_id : string; event_run_id : string; event_workflow_id : string;
  event_node_id : option string; sequence : Z; occurred_at : string;
  event_kind : WorkflowRuntimeEventKindV1; payload : Value; payload_sha256 : string }.

(*| runtime/event.rs 218-245 WorkflowRuntimeEventV1::validate *)
Definition validate_event (e : WorkflowRuntimeEventV1) : result WorkflowRuntimeEventError unit :=
  if negb (schema_version e =? WORKFLOW_RUNTIME_EVENT_SCHEMA_VERSION_V1)%Z
  then Err UnsupportedSchemaVersion
  else if negb (valid_metadata (event_id e)) || negb (valid_metadata (event_run_id e)) ||
          negb (valid_metadata (event_workflow_id e)) || negb (valid_metadata (occurred_at e)) ||
          from_option (λ id, negb (valid_metadata id)) false (event_node_id e) ||
          (sequence e =? 0)%Z
  then Err InvalidMetadata
  else
    validate_persisted_payload (payload e);;
    if negb (str_eqb (payload_sha256 e) (digest_json (payload e))) then Err IntegrityMismatch
    else Ok tt.

(** Decoding an event is validating its fields. *)
(*| runtime/event.rs 199-216 WorkflowRuntimeEventV1::from_fields *)
Definition from_fields (e : WorkflowRuntimeEventV1) :
    result WorkflowRuntimeEventError WorkflowRuntimeEventV1 := validate_event e;; Ok e.

(*| runtime/event.rs 309-315 WorkflowRuntimeEventLogV1 *)
Record WorkflowRuntimeEventLogV1 := mk_EventLog {
  log_run_id : string; log_workflow_id : string; next_sequence : Z;
  event_ids : gset string; events : list WorkflowRuntimeEventV1 }.

(** One turn of the loop over [events.iter().enumerate()]. *)
Fixpoint admit_events (run_id workflow_id : string) (index : nat) (ids : gset string)
    (es : list WorkflowRuntimeEventV1) : result WorkflowRuntimeEventError (gset string) :=
  match es with
  | [] => Ok ids
  | e :: es =>
      validate_event e;;
      match checked_add (Z.of_nat index) 1 with
      | None => Err SequenceOverflow
      | Some expected =>
          if negb (str_eqb (event_run_id e) run_id) ||
             negb (str_eqb (event_workflow_id e) workflow_id) ||
             negb (sequence e =? expected)%Z
          then Err SequenceIntegrity
          else if bool_decide (event_id e ∈ ids) then Err DuplicateEventId
          else admit_events run_id workflow_id (S index) ({[event_id e]} ∪ ids) es
      end
  end.

(*| runtime/event.rs 332-380 WorkflowRuntimeEventLogV1::resume *)
Definition resume (run_id workflow_id : string) (es : list WorkflowRuntimeEventV1) :
    result WorkflowRuntimeEventError WorkflowRuntimeEventLogV1 :=
  if negb (valid_metadata run_id) || negb (valid_metadata workflow_id)
  then Err InvalidMetadata
  else
    ids ← admit_events run_id workflow_id 0 ∅ es;
    match checked_add (zlength es) 1 with
    | None => Err SequenceOverflow
    | Some next => Ok (mk_EventLog run_id workflow_id next ids es)
    end.

(*| runtime/event.rs 324-329 WorkflowRuntimeEventLogV1::new *)
Definition EventLog_new (run_id workflow_id : string) :
    result WorkflowRuntimeEventError WorkflowRuntimeEventLogV1 := resume run_id workflow_id [].

(*| runtime/event.rs 383-422 WorkflowRuntimeEventLogV1::append *)
Definition append (id : string) (node_id : option string) (at_time : string)
    (kind : WorkflowRuntimeEventKindV1) (value : Value) :
    method WorkflowRuntimeEventLogV1 WorkflowRuntimeEventError WorkflowRuntimeEventV1 := λ log,
  if bool_decide (id ∈ event_ids log) then (log, Err DuplicateEventId)
  else if (next_sequence log =? u64_max)%Z then (log, Err SequenceOverflow)
  else
    let value := sanitize_payload value in
    let e := mk_Event WORKFLOW_RUNTIME_EVENT_SCHEMA_VERSION_V1 id (log_run_id log)
               (log_workflow_id log) node_id (next_sequence log) at_time kind value
               (digest_json value) in
    match validate_event e with
    | Err error => (log, Err error)
    | Ok _ =>
        (mk_EventLog (log_run_id log) (log_workflow_id log) (u64_add (next_sequence log) 1)
           ({[id]} ∪ event_ids log) (events log ++ [e]), Ok e)
    end.
End json.

(** ** Redaction *)

Section redaction.
Context `{JsonText}.

(** No sensitive key keeps a value, at any depth. *)
Fixpoint secret_free (v : Value) : Prop :=
  match v with
  | Object o =>
      foldr (λ e P, ((sensitive_key (fst e) = true → is_marker (snd e) = true) ∧
                     secret_free (snd e)) ∧ P) True o
  | Array l => foldr (λ v P, secret_free v ∧ P) True l
  | _ => True
  end.

Lemma secret_free_Object o :
  secret_free (Object o) ↔
  Forall (λ e, (sensitive_key (fst e) = true → is_marker (snd e) = true) ∧ secret_free (snd e)) o.
Proof. apply foldr_and_Forall. Qed.
Lemma secret_free_Array l : secret_free (Array l) ↔ Forall secret_free l.
Proof. apply foldr_and_Forall. Qed.

Lemma is_marker_true v : is_marker v = true ↔ v = VString REDACTION_MARKER.
Proof. destruct v; cbn; rewrite ?str_eqb_eq; naive_solver. Qed.

Lemma sanitize_secret_free v : secret_free (sanitize_payload v).
Proof.
  induction v as [| | | |l IH|o IH] using Value_nested_ind; try done.
  - cbn [sanitize_payload]. rewrite secret_free_Array, Forall_map. done.
  - cbn [sanitize_payload]. rewrite secret_free_Object, Forall_map.
    apply (Forall_impl _ _ _ IH). intros [key v] Hv. cbn in *. destruct (sensitive_key key); done.
Qed.

Lemma Forall_map_id {A} (f : A → A) l : map f l = l ↔ Forall (λ x, f x = x) l.
Proof.
  induction l as [|x l IH]; [done|]. cbn. rewrite Forall_cons, <-IH.
  split; [by intros [= -> ->]|by intros [-> ->]].
Qed.

(** Redaction changes nothing else. *)
Lemma sanitize_fixed v : secret_free v → sanitize_payload v = v.
Proof.
  induction v as [| | | |l IH|o IH] using Value_nested_ind; try done; cbn [sanitize_payload].
  - rewrite secret_free_Array. intros Hl. f_equal. apply Forall_map_id.
    rewrite Forall_forall in *. auto.
  - rewrite secret_free_Object. intros Ho. f_equal. apply Forall_map_id.
    rewrite Forall_forall in *. intros [key v] Hin. specialize (Ho _ Hin). specialize (IH _ Hin).
    cbn in *. destruct Ho as [Hm Hv]. destruct (sensitive_key key); [|by rewrite IH].
    f_equal. symmetry. by apply is_marker_true, Hm.
Qed.

Lemma validate_value_secret_free v u : validate_value v = Ok u → secret_free v.
Proof.
  destruct u. induction v as [| | | |l IH|o IH] using Value_nested_ind; try done; cbn [validate_value].
  - rewrite secret_free_Array, for_each_Ok, !Forall_forall in *. auto.
  - rewrite secret_free_Object, for_each_Ok, !Forall_forall in *. intros Ho e Hin.
    specialize (Ho e Hin). specialize (IH e Hin). destruct (foreign (fst e)); [done|].
    destruct (sensitive_key (fst e)), (is_marker (snd e)); cbn in Ho; try done; by split; [|auto].
Qed.

Lemma persisted_secret_free `{!ArtifactJson} v u :
  validate_persisted_payload v = Ok u → secret_free v.
Proof.
  destruct v as [| | | | |o]; try done. cbn [validate_persisted_payload].
  rewrite for_each_bind_Ok, secret_free_Object, Forall_forall. intros [Ho _] e Hin.
  specialize (Ho e Hin).
  destruct (sensitive_key (fst e)), (is_marker (snd e)); cbn in Ho; try done;
    (split; [done|by eapply validate_value_secret_free]).
Qed.

(** Redaction is exact: the copy it returns keeps no value under a sensitive
    key at any depth, a payload is left as it is exactly when it already has that
    property, and the digest of a redacted payload is a function of the redacted
    payload alone. *)
Theorem payload_redaction_exact `{Sha256} v :
  secret_free (redact_json_value v) ∧ (redact_json_value v = v ↔ secret_free v) ∧
  redacted_json_digest (redact_json_value v) = redacted_json_digest v.
Proof.
  unfold redact_json_value, redacted_json_digest, redact_json_value.
  pose proof (sanitize_secret_free v) as Hs.
  split_and!; [done| |by rewrite (sanitize_fixed _ Hs)].
  split; [by intros <-|apply sanitize_fixed].
Qed.
End redaction.

(** ** The log *)

Section log.
Context `{JsonText} `{!ArtifactJson} `{Sha256}.

(** The events of a run, in order: consecutive from 1, of this run, valid, with
    identities of their own. *)
Record events_valid (run_id workflow_id : string) (es : list WorkflowRuntimeEventV1) : Prop := {
  ev_event i e : es !! i = Some e →
    validate_event e = Ok tt ∧ event_run_id e = run_id ∧ event_workflow_id e = workflow_id ∧
    sequence e = Z.of_nat (S i);
  ev_ids : NoDup (map event_id es);
  ev_length : (zlength es < u64_max)%Z
}.

Lemma admit_events_Ok run_id workflow_id index ids es ids' :
  admit_events run_id workflow_id index ids es = Ok ids' ↔
  (∀ i e, es !! i = Some e →
     validate_event e = Ok tt ∧ event_run_id e = run_id ∧ event_workflow_id e = workflow_id ∧
     sequence e = Z.of_nat (S (index + i)) ∧ (Z.of_nat (S (index + i)) ≤ u64_max)%Z ∧
     event_id e ∉ ids) ∧
  NoDup (map event_id es) ∧ ids' = ids ∪ list_to_set (map event_id es).
Proof.
  revert index ids. induction es as [|e es IH]; intros index ids; cbn [admit_events map].
  { split.
    - intros [= <-]. split_and!; [done|constructor|]. cbn. by rewrite union_empty_r_L.
    - intros (_ & _ & ->). cbn. by rewrite union_empty_r_L. }
  split.
  - intros ([] & Hv & E)%bind_Ok.
    destruct (checked_add _ _) as [expected|] eqn:Ec; [|done].
    apply checked_add_Some in Ec as [-> Hle].
    destruct (str_eqb _ run_id) eqn:Er; [|done]. destruct (str_eqb _ workflow_id) eqn:Ew; [|done].
    destruct (Z.eqb_spec (sequence e) (Z.of_nat index + 1)) as [Hs|]; [|done]. cbn in E.
    case_bool_decide as Hid; [done|]. apply IH in E as (Hes & Hnd & ->).
    apply str_eqb_eq in Er, Ew.
    assert (Hfresh : event_id e ∉ map event_id es).
    { intros (f & Ef & (i & Hi)%list_elem_of_lookup)%list_elem_of_fmap.
      destruct (Hes i f Hi) as (_&_&_&_&_&Hf). apply Hf. rewrite <-Ef.
      by apply elem_of_union_l, elem_of_singleton. }
    split_and!; [|by constructor|cbn; by rewrite (assoc_L (∪)), (comm_L (∪) ids)].
    intros [|i] f Hf.
    + injection Hf as <-. split_and!; [done..|lia|lia|done].
    + apply Hes in Hf as (?&?&?&?&?&Hf). split_and!; [done..|lia|lia|].
      intros Hin. by apply Hf, elem_of_union_r.
  - intros (Hes & [Hfresh Hnd]%NoDup_cons & ->).
    destruct (Hes 0 e eq_refl) as (-> & <- & <- & Hs & Hle & Hid). cbn.
    rewrite (proj2 (checked_add_Some _ _ (Z.of_nat index + 1)%Z)) by lia.
    rewrite !(proj2 (str_eqb_eq _ _) eq_refl).
    rewrite (proj2 (Z.eqb_eq _ _)) by lia. cbn. rewrite bool_decide_eq_false_2 by done.
    apply IH. split_and!; [|done|cbn; by rewrite (assoc_L (∪)), (comm_L (∪) ids)].
    intros i f Hf. destruct (Hes (S i) f Hf) as (?&?&?&?&?&?). split_and!; [done..|lia|lia|].
    assert (event_id f ∈ map event_id es).
    { apply list_elem_of_fmap. exists f. split; [done|]. by eapply list_elem_of_lookup_2. }
    intros [Hfe%elem_of_singleton|]%elem_of_union; congruence.
Qed.

(** A log built by resuming and appending. *)
Inductive built_log : WorkflowRuntimeEventLogV1 → Prop :=
| built_resume run_id workflow_id es log :
    resume run_id workflow_id es = Ok log → built_log log
| built_append log id node_id at_time kind value log' r :
    built_log log → append id node_id at_time kind value log = (log', r) → built_log log'.

Lemma resume_Ok run_id workflow_id es log :
  resume run_id workflow_id es = Ok log ↔
  valid_metadata run_id = true ∧ valid_metadata workflow_id = true ∧
  events_valid run_id workflow_id es ∧
  log = mk_EventLog run_id workflow_id (zlength es + 1) (list_to_set (map event_id es)) es.
Proof.
  unfold resume. destruct (valid_metadata run_id); [|by split; [|intros (?&_)]].
  destruct (valid_metadata workflow_id); [|by split; [|intros (_&?&_)]]. cbn.
  rewrite bind_Ok. setoid_rewrite admit_events_Ok. split.
  - intros (ids & (Hes & Hnd & ->) & E).
    destruct (checked_add _ _) as [next|] eqn:Ec; [|done].
    apply checked_add_Some in Ec as [-> Hle]. simplify_eq.
    split_and!; [done..| |by rewrite union_empty_l_L].
    split; [|done|lia]. intros i e He. by destruct (Hes i e He) as (?&?&?&?&_).
  - intros (_ & _ & [Hes Hnd Hl] & ->). eexists. split.
    + split_and!; [|done|done]. intros i e He. destruct (Hes i e He) as (?&?&?&?).
      apply lookup_lt_Some in He. unfold zlength in Hl. split_and!; [done..|cbn; lia|set_solver].
    + rewrite (proj2 (checked_add_Some _ _ (zlength es + 1)%Z)) by lia.
      by rewrite union_empty_l_L.
Qed.

(** What a log is, whoever built it. *)
Definition log_wf (log : WorkflowRuntimeEventLogV1) : Prop :=
  resume (log_run_id log) (log_workflow_id log) (events log) = Ok log.

Lemma log_wf_shape log :
  log_wf log → next_sequence log = (zlength (events log) + 1)%Z ∧
  event_ids log = list_to_set (map event_id (events log)) ∧
  events_valid (log_run_id log) (log_workflow_id log) (events log).
Proof. intros (_ & _ & Hv & E)%resume_Ok. rewrite E. by rewrite E in Hv. Qed.

(** What [append] makes of its arguments. *)
Definition new_event (log : WorkflowRuntimeEventLogV1) (id : string) (node_id : option string)
    (at_time : string) (kind : WorkflowRuntimeEventKindV1) (value : Value) :
    WorkflowRuntimeEventV1 :=
  mk_Event WORKFLOW_RUNTIME_EVENT_SCHEMA_VERSION_V1 id (log_run_id log) (log_workflow_id log)
    node_id (zlength (events log) + 1) at_time kind (redact_json_value value)
    (redacted_json_digest value).

Lemma append_wf log id node_id at_time kind value log' r :
  log_wf log → append id node_id at_time kind value log = (log', r) →
  log_wf log' ∧
  match r with
  | Ok e => e = new_event log id node_id at_time kind value ∧ validate_event e = Ok tt ∧
            (id ∉ map event_id (events log)) ∧ (zlength (events log) + 1 < u64_max)%Z ∧
            events log' = events log ++ [e] ∧
            log_run_id log' = log_run_id log ∧ log_workflow_id log' = log_workflow_id log
  | Err _ => log' = log
  end.
Proof.
  intros Hwf. destruct (log_wf_shape log Hwf) as (Hn & Hids & [Hes Hnd Hl]).
  apply resume_Ok in Hwf as Hr. destruct Hr as (Hm1 & Hm2 & _ & _).
  unfold append. case_bool_decide as Hid; [by intros [= <- <-]|].
  destruct (Z.eqb_spec (next_sequence log) u64_max) as [|Hmax]; [by intros [= <- <-]|].
  cbv zeta.
  replace (mk_Event _ _ _ _ _ _ _ _ _ _) with (new_event log id node_id at_time kind value)
    by (unfold new_event; by rewrite Hn).
  set (e := new_event _ _ _ _ _ _).
  destruct (validate_event e) as [[]|error] eqn:Hv; intros [= <- <-]; [|done].
  rewrite Hids, elem_of_list_to_set in Hid.
  split; [|split_and!; try done; unfold zlength in *; lia].
  unfold log_wf. cbn [events log_run_id log_workflow_id]. apply resume_Ok.
  assert (Hz : zlength (events log ++ [e]) = (zlength (events log) + 1)%Z)
    by (unfold zlength; rewrite length_app; cbn; lia).
  split_and!; [done|done| |].
  - split.
    + intros i f Hf. destruct (decide (i < length (events log))).
      * rewrite lookup_app_l in Hf by done. by apply Hes.
      * rewrite lookup_app_r in Hf by lia. apply list_lookup_singleton_Some in Hf as [Hi <-].
        split_and!; [done..|]. cbn. unfold zlength. lia.
    + rewrite map_app. apply NoDup_app. split_and!; [done| |apply NoDup_singleton].
      intros x Hx Hin%list_elem_of_singleton. subst x. done.
    + rewrite Hz. lia.
  - rewrite Hz, Hids, Hn, map_app, list_to_set_app_L. f_equal; [|cbn; set_solver].
    apply u64_add_small; unfold_u64; unfold zlength in *; lia.
Qed.

Lemma built_log_wf log : built_log log → log_wf log.
Proof.
  induction 1 as [run_id workflow_id es log E|log id node_id at_time kind value log' r _ IH E].
  - unfold log_wf. apply resume_Ok in E as E'. destruct E' as (_ & _ & _ & ->). exact E.
  - by apply append_wf in E as [? _].
Qed.

(** The event log is append-only and restorable.  However it was built, its
    events are exactly those from which [resume] rebuilds the same log; they are
    numbered from 1 without a gap, have pairwise different identities and carry
    no secret.  An append either adds one event at the end, with the redacted
    payload, or leaves the log as it was. *)
Theorem event_log_append_only log id node_id at_time kind value log' r :
  built_log log → append id node_id at_time kind value log = (log', r) →
  resume (log_run_id log') (log_workflow_id log') (events log') = Ok log' ∧
  NoDup (map event_id (events log')) ∧
  (∀ i e, events log' !! i = Some e →
     sequence e = Z.of_nat (S i) ∧ secret_free (payload e) ∧
     payload_sha256 e = digest_json (payload e)) ∧
  match r with
  | Ok e => events log' = events log ++ [e] ∧ payload e = redact_json_value value
  | Err _ => log' = log
  end.
Proof.
  intros Hb E. apply built_log_wf in Hb. apply append_wf in E as [Hwf Hr]; [|done].
  destruct (log_wf_shape log' Hwf) as (_ & _ & [Hes Hnd _]). split_and!; [done|done| |].
  - intros i e He. destruct (Hes i e He) as (Hv & _ & _ & Hs). split; [done|].
    unfold validate_event in Hv.
    destruct (negb _); [done|]. destruct (_ || _); [done|].
    apply bind_Ok in Hv as (u & Hp & Hv). split; [by eapply persisted_secret_free|].
    destruct (str_eqb _ _) eqn:Ed; [|done]. by apply str_eqb_eq in Ed.
  - destruct r as [e|error]; [|done]. destruct Hr as (-> & _ & _ & _ & -> & _). done.
Qed.
End log.

(** *** A concrete log *)

#[local] Instance ex_sha : Sha256 := λ s, s.
#[local] Instance ex_artifact : @ArtifactJson ex_json := λ _, None.
#[local] Existing Instance ex_json.

Definition ex_payload : Value :=
  Object [("password", VString "hunter2"); ("path", VString "a/b")].
Definition ex_log : WorkflowRuntimeEventLogV1 := mk_EventLog "run" "flow" 1 ∅ [].

Lemma event_log_append_only_witness :
  ∃ e, events (append "e1" None "now" NodeStarted ex_payload ex_log).1 = [e] ∧
    payload e = Object [("password", VString "<redacted>"); ("path", VString "a/b")].
Proof.
  assert (Hb : built_log ex_log) by (apply (built_resume "run" "flow" []); by vm_compute).
  assert (Hok : match (append "e1" None "now" NodeStarted ex_payload ex_log).2 with
                | Ok _ => True | Err _ => False end) by by vm_compute.
  destruct (append "e1" None "now" NodeStarted ex_payload ex_log) as [log' [e|]] eqn:E; [|done].
  pose proof (event_log_append_only _ _ _ _ _ _ _ _ Hb E) as (_ & _ & _ & Hev & Hp).
  exists e. split; [exact Hev|rewrite Hp; by vm_compute].
Defined.

(** A type of the implementation may be named by a key of the payload itself,
    while the same key one level down is rejected. *)
Theorem foreign_type_key_gap (decode : ArtifactJson) :
  validate_persisted_payload (H0 := decode)
    (Object [("adk_core::Agent", Null)]) = Ok tt ∧
  validate_persisted_payload (H0 := decode)
    (Object [("agent", Object [("adk_core::Agent", Null)])]) = Err ForeignTypeLeakage.
Proof. split; by vm_compute. Qed.
