(* ===== verification/Serde.v ===== *)
(** * Derived JSON codecs

    [#[derive(Serialize, Deserialize)]] on a type is generated code: its writer
    and its reader are the class [Serde], and what the program relies on - a
    value that was written reads back - is the law [SerdeLaws].  [kept] is the
    value without the fields marked [#[serde(skip)]], which the writer ignores
    and the reader resets. *)

From S2P Require Import Prelude.
From S2P Require Import Json.

Class Serde (A : Type) := {
  to_text : A → string;
  from_text : string → option A
}.

Class SerdeLaws (A : Type) `{Serde A} (kept : A → A) : Prop := {
  from_to x : from_text (to_text x) = Some (kept x);
  to_kept x : to_text (kept x) = to_text x
}.

Section laws.
Context {A : Type} `{SerdeLaws A kept}.

(** The text determines the value, up to the skipped fields. *)
Lemma to_text_inj x y : to_text x = to_text y → kept x = kept y.
Proof. intros E. pose proof (from_to x) as Hx. rewrite E, from_to in Hx. by injection Hx. Qed.

Lemma kept_kept x : kept (kept x) = kept x.
Proof. apply to_text_inj, to_kept. Qed.
End laws.

(** ** A codec of every countable type

    The binary numeral of the value's code: the laws are satisfiable. *)

Fixpoint binary_positive (s : string) : option positive :=
  match s with
  | EmptyString => None
  | String c rest =>
      if Ascii.eqb c "1" then
        match rest with EmptyString => Some xH | _ => xI <$> binary_positive rest end
      else xO <$> binary_positive rest
  end.

Lemma binary_positive_text p : binary_positive (binary_text p) = Some p.
Proof.
  induction p as [p IH|p IH|]; cbn; [|by rewrite IH|done].
  destruct (binary_text p) eqn:E; [by destruct p|]. by rewrite IH.
Qed.

(** [f] clears the skipped fields. *)
Definition countable_serde_kept (A : Type) `{Countable A} (f : A → A) : Serde A := {|
  to_text x := binary_text (encode (f x));
  from_text s := binary_positive s ≫= decode
|}.

Lemma countable_serde_kept_laws (A : Type) `{Countable A} (f : A → A) :
  (∀ x, f (f x) = f x) → SerdeLaws A (H := countable_serde_kept A f) f.
Proof.
  intros Hf. split; intros x; cbn.
  - rewrite binary_positive_text. cbn. by rewrite decode_encode.
  - by rewrite Hf.
Qed.

Definition countable_serde (A : Type) `{Countable A} : Serde A := {|
  to_text x := binary_text (encode x);
  from_text s := binary_positive s ≫= decode
|}.

Lemma countable_serde_laws (A : Type) `{Countable A} :
  SerdeLaws A (H := countable_serde A) id.
Proof.
  split; [|done]. intros x. cbn. rewrite binary_positive_text. cbn. by rewrite decode_encode.
Qed.
