(* ===== verification/JsonRead.v ===== *)
(** * Reading JSON

    [serde_json::from_str::<Value>], [Value::as_u64] and the accessors of an
    object.  The parser is third-party code: the class [JsonRead], whose
    documented properties are the laws [JsonReadLaws] - a printed document reads
    back, an object is a map in key order.  A concrete parser, of the documents
    that [ex_json_Z] prints, shows that the laws can hold. *)

From S2P Require Import Prelude Hashing Json Text.

#[local] Arguments String.append !_ _ /.

Definition v_object `{JsonText} (v : Value) : option (list (string * Value)) :=
  match v with Object o => Some o | _ => None end.
Definition v_array `{JsonText} (v : Value) : option (list Value) :=
  match v with Array l => Some l | _ => None end.
Definition v_str `{JsonText} (v : Value) : option string :=
  match v with VString s => Some s | _ => None end.

(** A [serde_json::Map] of distinct keys. *)
Definition jobject `{JsonText} (fields : list (string * Value)) : Value :=
  Object (sort_by_key fst fields).

(** [object.contains_key(key)]. *)
Definition has_key `{JsonText} (key : string) (o : list (string * Value)) : bool :=
  is_some (object_get key o).

(** [object.len() == keys.len() && keys.iter().all(|key| object.contains_key(key))]. *)
Definition exact_keys `{JsonText} (o : list (string * Value)) (keys : list string) : bool :=
  (length o =? length keys)%nat && forallb (λ key, has_key key o) keys.

Definition sorted_json `{JsonText} (v : Value) : Prop := unique_keys v ∧ normalize v = v.

Class JsonRead `{JsonText} := {
  json_parse : string → option Value;
  number_as_u64 : json_number → option Z
}.

Class JsonReadLaws `{IntJson} `{!JsonRead} : Prop := {
  parse_compact v : sorted_json v → json_parse (compact v) = Some v;
  parse_sorted s v : json_parse s = Some v → sorted_json v;
  as_u64_int n : u64 n → number_as_u64 (int_number n) = Some n;
  as_u64_Some x n : number_as_u64 x = Some n → u64 n ∧ x = int_number n
}.

Definition v_u64 `{JsonRead} (v : Value) : option Z :=
  match v with Number n => number_as_u64 n | _ => None end.

(** ** Objects *)

Section objects.
Context `{JsonText}.
Implicit Types (o l : list (string * Value)).

Lemma object_get_elem k v o : NoDup (map fst o) → object_get k o = Some v ↔ (k, v) ∈ o.
Proof.
  intros Hnd. unfold object_get. split.
  - destruct (List.find _ o) as [[k' v']|] eqn:E; [|done]. cbn. intros [= ->].
    apply find_Some_iff in E as [Hin E]. apply str_eqb_eq in E. cbn in E. by subst k'.
  - intros Hin. destruct (List.find _ o) as [[k' v']|] eqn:E; cbn.
    + apply find_Some_iff in E as [Hin' E]. apply str_eqb_eq in E. cbn in E. subst k'. f_equal.
      by apply (map_fst_unique o k).
    + apply find_None_iff with (x := (k, v)) in E; [|done]. by apply bool_decide_eq_false in E.
Qed.

Lemma has_key_elem k o : has_key k o = true ↔ k ∈ map fst o.
Proof.
  unfold has_key, object_get. rewrite list_elem_of_fmap.
  destruct (List.find _ o) as [[k' v]|] eqn:E; cbn.
  - apply find_Some_iff in E as [Hin E]. apply str_eqb_eq in E. cbn in E. subst k'.
    split; [|done]. intros _. by exists (k, v).
  - split; [done|]. intros ([k' v] & -> & Hin). apply find_None_iff with (x := (k', v)) in E; [|done].
    by apply bool_decide_eq_false in E.
Qed.

Lemma jobject_keys l : NoDup (map fst l) → NoDup (map fst (sort_by_key (@fst string Value) l)).
Proof. intros Hn. by rewrite (Permutation_map (@fst string Value) (sort_by_key_Permutation fst l)). Qed.

Lemma object_get_sorted k l : NoDup (map fst l) → object_get k (sort_by_key fst l) = object_get k l.
Proof.
  intros Hn. pose proof (jobject_keys l Hn) as Hn'.
  apply option_eq. intros v. rewrite !object_get_elem by done. by rewrite sort_by_key_Permutation.
Qed.

Lemma exact_keys_spec o keys :
  NoDup (map fst o) → NoDup keys → exact_keys o keys = true ↔ map fst o ≡ₚ keys.
Proof.
  intros Ho Hk. unfold exact_keys. rewrite andb_true_iff, forallb_true_iff, Nat.eqb_eq.
  setoid_rewrite has_key_elem. split.
  - intros [Hlen Hin]. symmetry. apply NoDup_submseteq in Hin; [|done].
    apply submseteq_length_Permutation; [done|]. rewrite length_map. lia.
  - intros Hp. split; [by rewrite <- Hp, length_map|]. intros k. by rewrite Hp.
Qed.

Lemma exact_keys_jobject l keys :
  NoDup keys → map fst l ≡ₚ keys → exact_keys (sort_by_key fst l) keys = true.
Proof.
  intros Hk Hp. apply exact_keys_spec; [|done|].
  - apply jobject_keys. by rewrite Hp.
  - by rewrite (Permutation_map (@fst string Value) (sort_by_key_Permutation fst l)).
Qed.

Lemma sorted_unique (l k : list (string * Value)) :
  NoDup (map fst l) → StronglySorted (key_le fst) l → StronglySorted (key_le fst) k → l ≡ₚ k → l = k.
Proof.
  intros Hnd Hl Hk Hp. apply (StronglySorted_unique_strong (key_le fst)); [|done..].
  intros [k1 v1] [k2 v2] Hin1 Hin2 Hle1 Hle2.
  assert (k1 = k2) as -> by by apply (anti_symm String.le).
  rewrite <- Hp in Hin2. by rewrite (map_fst_unique l k2 v1 v2).
Qed.

Lemma sorted_object o : sorted_json (Object o) → NoDup (map fst o) ∧ StronglySorted (key_le fst) o.
Proof.
  intros [[Hnd _] Hs]. split; [done|]. cbn in Hs. injection Hs as Hs. rewrite <- Hs.
  apply sort_by_key_sorted.
Qed.

(** A sorted object with the fields [l] and no others is that object. *)
Lemma exact_object o l :
  sorted_json (Object o) → NoDup (map fst l) → length o = length l →
  (∀ k v, (k, v) ∈ l → object_get k o = Some v) → Object o = jobject l.
Proof.
  intros [Hnd Hs]%sorted_object Hl Hlen Hget. unfold jobject. f_equal.
  assert (Hp : l ≡ₚ o).
  { apply submseteq_length_Permutation; [|lia]. apply NoDup_submseteq; [by eapply NoDup_fmap_1|].
    intros [k v] Hin. by apply object_get_elem, Hget. }
  apply sorted_unique; [done|done|apply sort_by_key_sorted|]. by rewrite sort_by_key_Permutation.
Qed.

Lemma jobject_sorted l :
  NoDup (map fst l) → Forall (λ e, sorted_json (snd e)) l → sorted_json (jobject l).
Proof.
  intros Hnd Hv. pose proof (jobject_keys l Hnd) as Hnd'. unfold jobject.
  assert (Hv' : Forall (λ e, sorted_json (snd e)) (sort_by_key fst l)) by by rewrite sort_by_key_Permutation.
  split; cbn.
  - split; [done|]. apply foldr_and_Forall. eapply Forall_impl; [exact Hv'|]. by intros e [? _].
  - f_equal. assert (Hm : map (λ e, (fst e, normalize (snd e))) (sort_by_key fst l) = sort_by_key fst l).
    { rewrite <- (map_id (sort_by_key fst l)) at 2. apply map_ext_in. intros [k v] Hin%list_elem_of_In.
      rewrite Forall_forall in Hv'. destruct (Hv' _ Hin) as [_ He]. cbn in *. by rewrite He. }
    rewrite Hm. symmetry. apply sorted_unique; [done|apply sort_by_key_sorted..|].
    symmetry. apply sort_by_key_Permutation.
Qed.

Lemma array_sorted (l : list Value) : Forall sorted_json l → sorted_json (Array l).
Proof.
  intros Hl. split; cbn.
  - apply foldr_and_Forall. eapply Forall_impl; [exact Hl|]. by intros v [? _].
  - f_equal. induction Hl as [|v l [_ Hv] Hl IH]; cbn; [done|]. by rewrite Hv, IH.
Qed.

Lemma sorted_field o k v : sorted_json (Object o) → object_get k o = Some v → sorted_json v.
Proof.
  intros Hs Hg. pose proof (sorted_object o Hs) as [Hnd _]. apply object_get_elem in Hg; [|done].
  destruct Hs as [[_ Hu] He]. rewrite foldr_and_Forall, Forall_forall in Hu. split; [by apply (Hu (k, v))|].
  cbn in He. injection He as He.
  assert (Hin : (k, normalize v) ∈ o).
  { rewrite <- He. apply elem_of_sort_by_key, list_elem_of_fmap. by exists (k, v). }
  by apply (map_fst_unique o k).
Qed.

Lemma sorted_element (l : list Value) v : sorted_json (Array l) → v ∈ l → sorted_json v.
Proof.
  intros [Hu He] Hin. cbn in Hu. rewrite foldr_and_Forall, Forall_forall in Hu.
  split; [by apply Hu|]. cbn in He. injection He as He. clear Hu.
  induction l as [|w l IH]; [by apply elem_of_nil in Hin|]. cbn in He. injection He as Hw He.
  apply elem_of_cons in Hin as [->|Hin]; auto.
Qed.
End objects.

(** ** A concrete parser

    Of the documents that [ex_json_Z] prints: recursive descent, with the length
    of the document as fuel. *)

Section parser.
#[local] Existing Instance ex_json_Z.
#[local] Existing Instance ex_json_Z_laws.

Definition char_is (c d : ascii) : bool := Ascii.eqb c d.
#[local] Arguments char_is : simpl never.

Fixpoint span_chars (p : ascii → bool) (s : string) : string * string :=
  match s with
  | EmptyString => ("", "")
  | String c rest => if p c then let '(a, b) := span_chars p rest in (String c a, b) else ("", s)
  end.

Fixpoint decode_hex (s : string) : string :=
  match s with
  | String hi (String lo rest) =>
      String (Ascii.ascii_of_N (16 * hex_value hi + hex_value lo)) (decode_hex rest)
  | _ => ""
  end.

Fixpoint parse_binary (s : string) : option positive :=
  match s with
  | EmptyString => None
  | String c rest =>
      if char_is c "1" then
        match rest with EmptyString => Some xH | _ => xI <$> parse_binary rest end
      else xO <$> parse_binary rest
  end.
Definition parse_integer (s : string) : option Z :=
  match s with
  | String c rest =>
      if char_is c "-" then Zneg <$> parse_binary rest
      else if char_is c "0" then Some 0%Z else Zpos <$> parse_binary rest
  | EmptyString => None
  end.

Definition parse_string (s : string) : option (string * string) :=
  match s with
  | String c rest =>
      if negb (char_is c quote) then None
      else let '(h, r) := span_chars is_lower_hex rest in
           match r with String _ r => Some (decode_hex h, r) | _ => None end
  | _ => None
  end.

(** Elements up to the closing bracket. *)
Fixpoint parse_list {A : Type} (p : string → option (A * string)) (close : ascii) (fuel : nat)
    (s : string) : option (list A * string) :=
  match fuel with
  | O => None
  | S fuel =>
      '(x, r) ← p s;
      match r with
      | String c r =>
          if char_is c close then Some ([x], r)
          else '(xs, r) ← parse_list p close fuel r; Some (x :: xs, r)
      | EmptyString => None
      end
  end.
Definition parse_items {A : Type} (p : string → option (A * string)) (close : ascii) (fuel : nat)
    (s : string) : option (list A * string) :=
  match s with
  | String c r => if char_is c close then Some ([], r) else parse_list p close fuel s
  | EmptyString => None
  end.

Fixpoint parse_value (fuel : nat) (s : string) : option (Value * string) :=
  match fuel, s with
  | S fuel, String c rest =>
      if char_is c "n" then (λ r, (Null, r)) <$> strip_prefix "ull" rest
      else if char_is c "t" then (λ r, (Bool true, r)) <$> strip_prefix "rue" rest
      else if char_is c "f" then (λ r, (Bool false, r)) <$> strip_prefix "alse" rest
      else if char_is c quote then '(t, r) ← parse_string s; Some (VString t, r)
      else if char_is c "[" then
        '(l, r) ← parse_items (parse_value fuel) "]" fuel rest; Some (Array l, r)
      else if char_is c "{" then
        '(o, r) ← parse_items (λ s, '(k, r) ← parse_string s;
                                    match r with
                                    | String _ r => '(v, r) ← parse_value fuel r; Some ((k, v), r)
                                    | _ => None
                                    end) "}" fuel rest;
        Some (Object o, r)
      else let '(t, r) := span_chars is_number_char s in
           z ← parse_integer t; Some (Number z, r)
  | _, _ => None
  end.

Fixpoint unique_keysb (v : Value) : bool :=
  match v with
  | Array l => forallb unique_keysb l
  | Object o => bool_decide (NoDup (map fst o)) && forallb (λ e, unique_keysb (snd e)) o
  | _ => true
  end.

Lemma unique_keysb_spec v : unique_keysb v = true ↔ unique_keys v.
Proof.
  induction v as [| | | |l IH|o IH] using Value_nested_ind; cbn; try done.
  - rewrite foldr_and_Forall, forallb_true_iff, Forall_forall. rewrite Forall_forall in IH.
    by split; intros Hl v Hin; apply IH, Hl.
  - rewrite foldr_and_Forall, andb_true_iff, bool_decide_eq_true, forallb_true_iff, Forall_forall.
    rewrite Forall_forall in IH.
    by split; intros [Hnd Hl]; (split; [done|]); intros e Hin; apply IH, Hl.
Qed.

Definition sorted_jsonb (v : Value) : bool :=
  unique_keysb v && @bool_decide (normalize v = v) (@Value_eq_dec ex_json_Z Z.eq_dec (normalize v) v).

(** *** What is printed parses *)

Lemma span_chars_app p a r :
  str_all p a = true → (∀ c t, r = String c t → p c = false) → span_chars p (a +:+ r) = (a, r).
Proof.
  unfold str_all. intros Ha Hr. induction a as [|c a IH]; cbn in *.
  - destruct r as [|c r]; [done|]. cbn. by rewrite (Hr c r).
  - apply andb_true_iff in Ha as [-> Ha]. by rewrite IH.
Qed.

Lemma decode_hex_encode s : decode_hex (encode_hex s) = s.
Proof.
  induction s as [|c s IH]; [done|]. cbn [encode_hex decode_hex].
  rewrite high_nibble, low_nibble, !hex_value_digit, IH by (apply high_nibble_lt || apply low_nibble_lt).
  f_equal. apply byte_N_inj. unfold byte_N at 1. rewrite <- N.div_mod'.
  apply N_ascii_embedding, byte_N_bound.
Qed.

Lemma parse_binary_text p : parse_binary (binary_text p) = Some p.
Proof.
  induction p as [p IH|p IH|]; cbn; [|by rewrite IH|done].
  destruct (binary_text p) eqn:E; [by destruct p|]. by rewrite IH.
Qed.

Lemma parse_integer_text z : parse_integer (integer_text z) = Some z.
Proof. destruct z as [|p|p]; cbn; [done|by rewrite parse_binary_text..]. Qed.

Lemma parse_string_text s r : parse_string (string_text s +:+ r) = Some (s, r).
Proof.
  cbn. rewrite str_app_assoc. rewrite span_chars_app.
  - cbn. by rewrite decode_hex_encode.
  - apply encode_hex_lower.
  - intros c t [= <- _]. by vm_compute.
Qed.

(** [p] reads back what [q] prints of the elements of [l], with fuel [n]. *)
Lemma parse_list_printed {A} (p : string → option (A * string)) (q : A → string) close l x n r :
  (close = "]" ∨ close = "}")%char →
  (∀ y r, y ∈ x :: l → stops r → p (q y +:+ r) = Some (y, r)) → length l < n →
  parse_list p close n (q x +:+ foldr (λ t rest, "," +:+ t +:+ rest) "" (map q l) +:+ String close r)
  = Some (x :: l, r).
Proof.
  intros Hclose. revert x n. induction l as [|y l IH]; intros x n Hp Hn; (destruct n as [|n]; [cbn in Hn; lia|]).
  - cbn [map foldr parse_list]. cbn. rewrite Hp; [|set_solver|by destruct Hclose as [->| ->]].
    cbn. unfold char_is. by rewrite Ascii.eqb_refl.
  - cbn [map foldr parse_list]. rewrite Hp; [|set_solver|done]. cbn.
    replace (char_is "," close) with false by (by destruct Hclose as [->| ->]).
    rewrite !str_app_assoc, IH; [done| |cbn in Hn; lia].
    intros z r' Hz. apply Hp. set_solver.
Qed.

Lemma parse_items_printed {A} (p : string → option (A * string)) (q : A → string) close l n r :
  (close = "]" ∨ close = "}")%char →
  (∀ y r, y ∈ l → stops r → p (q y +:+ r) = Some (y, r)) → (∀ y, no_stop (q y)) → length l ≤ n →
  parse_items p close n (comma_separated (map q l) +:+ String close r) = Some (l, r).
Proof.
  intros Hclose Hp Hq Hn. destruct l as [|x l]; cbn [map comma_separated].
  - cbn. unfold char_is. by rewrite Ascii.eqb_refl.
  - pose proof (Hq x) as Hx. pose proof (parse_list_printed p q close l x n r Hclose Hp Hn) as E.
    rewrite str_app_assoc. unfold parse_items. destruct (q x) as [|c t]; [done|]. cbn in E |- *.
    replace (char_is c close) with false; [done|]. cbn in Hx. unfold char_is.
    destruct (Ascii.eqb_spec c close) as [->|]; [|done]. by destruct Hclose as [->| ->].
Qed.

(** The nesting depth and the widths of a value: enough fuel. *)
Fixpoint fuel_of (v : Value) : nat :=
  match v with
  | Array l => S (length l + foldr (λ v n, fuel_of v + n) 0 l)
  | Object o => S (length o + foldr (λ e n, fuel_of (snd e) + n) 0 o)
  | _ => 1
  end.

Lemma foldr_plus_in {A} (f : A → nat) l x : x ∈ l → f x ≤ foldr (λ y n, f y + n) 0 l.
Proof. induction 1 as [|x y l _ IH]; cbn; lia. Qed.

Lemma parse_value_printed v fuel r :
  fuel_of v ≤ fuel → stops r → parse_value fuel (compact v +:+ r) = Some (v, r).
Proof.
  revert fuel r. induction v as [|b|z|s|l IH|o IH] using Value_nested_ind; intros [|fuel] r Hf Hr;
    try (cbn in Hf; lia).
  - done.
  - by destruct b.
  - destruct (compact_kind (Number z)) as (c & t & Ec & Hk). cbn in Ec.
    assert (Hspan : span_chars is_number_char (integer_text z +:+ r) = (integer_text z, r)).
    { apply span_chars_app; [exact (number_text_chars z)|].
      intros c' t' E. by apply (stops_not_number r c' t'). }
    pose proof (parse_integer_text z) as Hz. cbn [compact number_text ex_json_Z].
    rewrite Ec in *. cbn [String.append] in *. cbn [parse_value].
    assert (Hc : ∀ d, is_number_char d = false → char_is c d = false).
    { intros d Hd. unfold char_is. destruct (Ascii.eqb_spec c d) as [->|]; [|done].
      pose proof (number_text_chars z) as Hn.
      change (number_text z) with (integer_text z) in Hn. rewrite Ec in Hn. cbn in Hn.
      apply andb_true_iff in Hn as [Hn _]. congruence. }
    rewrite !Hc by by vm_compute. rewrite Hspan. cbn [mbind option_bind]. by rewrite Hz.
  - cbn [compact]. pose proof (parse_string_text s r) as E.
    change (string_text s +:+ r) with (String quote ((encode_hex s +:+ String quote "") +:+ r)) in *.
    cbn [parse_value]. change (char_is quote "n") with false. change (char_is quote "t") with false.
    change (char_is quote "f") with false. change (char_is quote quote) with true. cbv iota.
    by rewrite E.
  - rewrite Forall_forall in IH. cbn [fuel_of] in Hf. cbn [compact String.append parse_value].
    change (char_is "[" "n") with false. change (char_is "[" "t") with false.
    change (char_is "[" "f") with false. change (char_is "[" quote) with false.
    change (char_is "[" "[") with true. cbv iota. rewrite str_app_assoc. cbn [String.append].
    rewrite parse_items_printed; [done|by left| |apply (compact_no_stop)|lia].
    intros y r' Hy Hr'. apply IH; [done| |done]. pose proof (foldr_plus_in fuel_of l y Hy). lia.
  - rewrite Forall_forall in IH. cbn [fuel_of] in Hf. cbn [compact String.append parse_value].
    change (char_is "{" "n") with false. change (char_is "{" "t") with false.
    change (char_is "{" "f") with false. change (char_is "{" quote) with false.
    change (char_is "{" "[") with false. change (char_is "{" "{") with true. cbv iota.
    rewrite str_app_assoc, map_map. cbn [String.append].
    rewrite (parse_items_printed _ (λ e, entry_text (fst e, compact (snd e))));
      [done|by right| |apply (entry_no_stop)|lia].
    intros [k v] r' Hy Hr'. unfold entry_text. cbn [fst snd]. rewrite str_app_assoc, parse_string_text.
    cbn [mbind option_bind String.append]. rewrite (IH (k, v)); [done|done| |done].
    pose proof (foldr_plus_in (λ e : string * Value, fuel_of (snd e)) o (k, v) Hy). cbn in *. lia.
Qed.

Lemma comma_separated_length {A} (q : A → string) (f : A → nat) l :
  (∀ y, y ∈ l → f y ≤ String.length (q y)) →
  length l + foldr (λ y n, f y + n) 0 l ≤ S (String.length (comma_separated (map q l))).
Proof.
  intros Hq. destruct l as [|x l]; cbn [map comma_separated]; [cbn; lia|].
  rewrite str_length_app.
  assert (Htail : length l + foldr (λ y n, f y + n) 0 l ≤
    String.length (foldr (λ t rest, "," +:+ t +:+ rest) "" (map q l))).
  { assert (Hq' : ∀ y, y ∈ l → f y ≤ String.length (q y)) by (intros y Hy; apply Hq; set_solver).
    clear Hq. induction l as [|y l IH]; [cbn; lia|]. cbn [map foldr length]. rewrite !str_length_app.
    pose proof (Hq' y ltac:(set_solver)). specialize (IH ltac:(intros z Hz; apply Hq'; set_solver)).
    change (String.length ",") with 1. lia. }
  pose proof (Hq x ltac:(set_solver)). cbn [length foldr]. lia.
Qed.

Lemma fuel_of_compact v : fuel_of v ≤ String.length (compact v).
Proof.
  induction v as [|b|z|s|l IH|o IH] using Value_nested_ind; cbn [fuel_of].
  - cbn. lia.
  - destruct b; cbn; lia.
  - destruct z; cbn; lia.
  - cbn. lia.
  - rewrite Forall_forall in IH. pose proof (comma_separated_length compact fuel_of l IH) as Hl.
    cbn. rewrite str_length_app. cbn. lia.
  - rewrite Forall_forall in IH. cbn. rewrite map_map, str_length_app. cbn.
    pose proof (comma_separated_length (λ e, entry_text (fst e, compact (snd e)))
      (λ e : string * Value, fuel_of (snd e)) o) as Ho.
    assert (Hq : ∀ y, y ∈ o → fuel_of (snd y) ≤ String.length (entry_text (fst y, compact (snd y)))).
    { intros [k v] Hy. unfold entry_text. rewrite !str_length_app. specialize (IH _ Hy). cbn in *. lia. }
    specialize (Ho Hq). cbn in *. lia.
Qed.

#[export] Instance ex_read : JsonRead := {
  json_parse s :=
    '(v, r) ← parse_value (String.length s) s;
    if str_is_empty r && sorted_jsonb v then Some v else None;
  number_as_u64 z := if decide (u64 z) then Some z else None }.

Definition ex_integers : IntJson := λ z, z.

Lemma sorted_jsonb_spec v : sorted_jsonb v = true ↔ sorted_json v.
Proof. unfold sorted_jsonb, sorted_json. by rewrite andb_true_iff, unique_keysb_spec, bool_decide_eq_true. Qed.

Lemma ex_read_laws : JsonReadLaws (H0 := ex_integers).
Proof.
  split.
  - intros v Hv. cbn. pose proof (parse_value_printed v (String.length (compact v)) "") as E.
    rewrite str_app_nil_r in E. rewrite E; [|apply fuel_of_compact|done]. cbn.
    apply sorted_jsonb_spec in Hv. by rewrite Hv.
  - intros s v. cbn. destruct (parse_value _ s) as [[w r]|]; cbn; [|done].
    destruct (str_is_empty r && sorted_jsonb w) eqn:E; [|done]. intros [= <-].
    apply andb_true_iff in E as [_ E]. by apply sorted_jsonb_spec.
  - intros n Hn. cbn. unfold int_number, ex_integers. by rewrite decide_True.
  - intros x n. cbn. case_decide; [|done]. by intros [= <-].
Qed.
End parser.
