(* ===== verification/JsonMap.v ===== *)
(** * Updating a JSON object

    [serde_json::Map] as the code updates it: [insert], [remove], [extend],
    [get_mut] and [entry] on an object, which is a map in key order, so an
    object is the list of its entries sorted by key. *)

From S2P Require Import Prelude Json JsonRead.

Section maps.
Context `{JsonText}.
Implicit Types (o : list (string * Value)) (k : string) (v : Value).

(** [Map::remove]. *)
Definition object_remove k o : list (string * Value) := filter (λ e, fst e ≠ k) o.
(** [Map::insert]. *)
Definition object_insert k v o : list (string * Value) := sort_by_key fst ((k, v) :: object_remove k o).
(** [Map::extend]: the later entry of a key wins. *)
Definition object_extend o (incoming : list (string * Value)) : list (string * Value) :=
  foldl (λ o e, object_insert (fst e) (snd e) o) o incoming.

Definition object_wf o : Prop := NoDup (map fst o).

Lemma object_remove_wf k o : object_wf o → object_wf (object_remove k o) ∧ k ∉ map fst (object_remove k o).
Proof.
  unfold object_wf, object_remove. intros Hn. split.
  - induction o as [|e o IH]; [by constructor|]. cbn [map] in Hn. apply NoDup_cons in Hn as [He Hn].
    rewrite filter_cons. destruct (decide _); [|auto]. cbn [map]. constructor; [|auto].
    intros (x & E & [_ Hx]%list_elem_of_filter)%list_elem_of_fmap. apply He, list_elem_of_fmap. eauto.
  - intros (x & -> & [Hx _]%list_elem_of_filter)%list_elem_of_fmap. by apply Hx.
Qed.

Lemma object_insert_wf k v o : object_wf o → object_wf (object_insert k v o).
Proof.
  intros [Hn Hk]%(object_remove_wf k). unfold object_wf, object_insert.
  apply jobject_keys. cbn [map fst]. by constructor.
Qed.

Lemma object_get_remove_ne k k' o : k ≠ k' → object_get k (object_remove k' o) = object_get k o.
Proof.
  intros Hne. unfold object_get, object_remove. f_equal. induction o as [|[a v] o IH]; [done|].
  rewrite filter_cons. cbn [fst]. destruct (decide (a ≠ k')) as [Ha|Ha]; cbn [List.find fst].
  - by destruct (str_eqb a k).
  - apply dec_stable in Ha as ->. destruct (str_eqb k' k) eqn:E; [|done].
    apply str_eqb_eq in E. by subst.
Qed.

Lemma object_get_remove k o : object_get k (object_remove k o) = None.
Proof.
  unfold object_get, object_remove. induction o as [|[a v] o IH]; [done|].
  rewrite filter_cons. cbn [fst]. destruct (decide (a ≠ k)) as [Ha|Ha]; [|done].
  cbn [List.find fst]. destruct (str_eqb a k) eqn:E; [|done]. apply str_eqb_eq in E. by subst.
Qed.

Lemma object_get_insert k v o : object_wf o → object_get k (object_insert k v o) = Some v.
Proof.
  intros [Hn Hk]%(object_remove_wf k). unfold object_insert.
  rewrite object_get_sorted by by constructor. unfold object_get. cbn.
  unfold str_eqb. by rewrite bool_decide_true.
Qed.

Lemma object_get_insert_ne k k' v o :
  object_wf o → k ≠ k' → object_get k (object_insert k' v o) = object_get k o.
Proof.
  intros Ho Hne. pose proof (object_remove_wf k' o Ho) as [Hn Hk]. unfold object_insert.
  rewrite object_get_sorted by by constructor. rewrite <- (object_get_remove_ne k k' o Hne).
  unfold object_get at 1. cbn. unfold str_eqb at 1. by rewrite bool_decide_false.
Qed.

Lemma object_extend_wf o incoming : object_wf o → object_wf (object_extend o incoming).
Proof.
  revert o. induction incoming as [|e l IH]; intros o Ho; [done|]. cbn. by apply IH, object_insert_wf.
Qed.

Lemma object_get_extend k o incoming :
  object_wf o → object_wf incoming →
  object_get k (object_extend o incoming) =
  match object_get k incoming with Some v => Some v | None => object_get k o end.
Proof.
  revert o. induction incoming as [|[k' v'] l IH]; intros o Ho Hn; [done|].
  unfold object_wf in Hn. cbn [map fst] in Hn. apply NoDup_cons in Hn as [Hk Hn].
  cbn [object_extend foldl fst snd]. fold (object_extend (object_insert k' v' o) l).
  rewrite IH by first [done|by apply object_insert_wf].
  destruct (decide (k = k')) as [->|Hne].
  - assert (object_get k' l = None) as ->.
    { destruct (object_get k' l) as [v|] eqn:E; [|done]. apply object_get_elem in E; [|done].
      destruct Hk. apply list_elem_of_fmap. by exists (k', v). }
    rewrite object_get_insert by done. unfold object_get. cbn. unfold str_eqb. by rewrite bool_decide_true.
  - rewrite object_get_insert_ne by done. unfold object_get at 3. cbn. unfold str_eqb.
    rewrite bool_decide_false by congruence. done.
Qed.
End maps.
