(* ===== verification/Frame.v ===== *)
(** * Framed texts and their digests

    The text of [workflow-runtime/src/node_cache.rs] and
    [workflow-adk/src/model_invocation.rs] that is hashed into an identity: a
    sequence of labelled values, each preceded by its length, so that the values
    can be read back from the text; and the text of a digest. *)

From stdpp Require Import pretty.
From S2P Require Import Prelude Hashing Json Text.

#[local] Arguments String.append !_ _ /.

Definition newline : string := String "010" "".

(*| runtime/node_cache.rs 623-625 frame *)
Definition frame (label value : string) : string :=
  label +:+ "_BYTES:" +:+ pretty (N.of_nat (String.length value)) +:+ newline +:+ value.

(** Frames on lines of their own. *)
Definition frames (fields : list (string * string)) : string :=
  String.concat newline (map (λ f, frame (fst f) (snd f)) fields).

Lemma str_app_inj_len (a b r s : string) :
  String.length a = String.length b → a +:+ r = b +:+ s → a = b ∧ r = s.
Proof.
  revert b. induction a as [|x a IH]; intros [|y b]; cbn; try done.
  intros [= Hl] [= -> E]. destruct (IH b Hl E). by subst.
Qed.

(** A frame is delimited by its length. *)
Lemma frame_delimits label v v' r r' :
  frame label v +:+ r = frame label v' +:+ r' → v = v' ∧ r = r'.
Proof.
  unfold frame. rewrite !str_app_assoc. intros E.
  apply str_app_inj_len in E as [_ E]; [|done]. apply str_app_inj_len in E as [_ E]; [|done].
  assert (Hstop : ∀ c t u, newline +:+ u = String c t → is_ascii_digit c = false) by by intros c t u [= <- _].
  apply (span_unique is_ascii_digit) in E as [En E]; [|apply pretty_digits..|intros; by eapply Hstop|intros; by eapply Hstop].
  apply str_app_inj_len in E as [_ E]; [|done].
  apply (inj pretty), (inj N.of_nat) in En. by apply str_app_inj_len in E.
Qed.

Lemma frame_end label v v' : frame label v = frame label v' → v = v'.
Proof.
  intros E. apply (f_equal (λ s, s +:+ "")) in E. by apply frame_delimits in E as [-> _].
Qed.

Lemma frame_next label v v' r r' :
  frame label v +:+ newline +:+ r = frame label v' +:+ newline +:+ r' → v = v' ∧ r = r'.
Proof.
  intros [-> E]%frame_delimits. split; [done|]. by apply str_app_inj_len in E as [_ ?].
Qed.

Lemma frames_cons f l :
  frames (f :: l) = frame (fst f) (snd f) +:+ match l with [] => "" | _ => newline +:+ frames l end.
Proof. destruct l; [|done]. unfold frames. cbn. by rewrite str_app_nil_r. Qed.

(** The framed text of a list of fields determines it among those that have the
    same labels, or more. *)
Lemma frames_inj l k : map fst l `prefix_of` map fst k → frames l = frames k → l = k.
Proof.
  revert k. induction l as [|[label v] l IH]; intros [|[label' v'] k] Hp E; [done|..].
  - apply (f_equal String.length) in E. rewrite frames_cons in E. unfold frame in E.
    rewrite !str_length_app in E. cbn in E. lia.
  - by apply prefix_nil_inv in Hp.
  - cbn in Hp. pose proof (prefix_cons_inv_1 _ _ _ _ Hp) as Hl. apply prefix_cons_inv_2 in Hp.
    cbn in Hl. subst label'. rewrite !frames_cons in E. cbn [fst snd] in E.
    apply frame_delimits in E as [-> E]. f_equal. destruct l as [|x l], k as [|y k]; try done.
    apply str_app_inj_len in E as [_ E]; [|done]. by apply IH.
Qed.

Section digests.
Context `{Sha256}.

(*| runtime/node_cache.rs 619-621 digest_bytes *)
Definition digest_bytes (bytes : string) : string := "sha256:" +:+ encode_hex (sha256 bytes).

(** No two of these texts collide. *)
Definition no_collision (a b : string) : Prop := sha256 a = sha256 b → a = b.

Lemma digest_bytes_eq a b : digest_bytes a = digest_bytes b ↔ sha256 a = sha256 b.
Proof.
  unfold digest_bytes. split; [|by intros ->]. intros E. by apply str_app_inj_len in E as [_ ?%(inj encode_hex)].
Qed.

End digests.
