(* ===== verification/CompactState.v ===== *)
(** * Compact state

    [workflow-ir/src/compact_state.rs]: the continuation state of a workflow.
    Entries are content-addressed, cite byte ranges of retained sources and are
    never deleted; deltas are applied by a reducer that validates them, and two
    states are joined by applying one as a delta to the other.  The reader and
    writer that [serde] derives for a delta are the class [DeltaJson]. *)

From stdpp Require Import pretty.
From S2P Require Import Prelude Hashing Json Order Text Serde.

(** ** The data *)

(*| ir/compact_state.rs 104-111 SourceRecord *)
Record SourceRecord := mk_SourceRecord { record_artifact_id : string; byte_len : Z }.
#[export] Instance SourceRecord_eq_dec : EqDecision SourceRecord.
Proof. solve_decision. Defined.
#[export, refine] Instance SourceRecord_countable : Countable SourceRecord :=
  inj_countable' (λ r, (record_artifact_id r, byte_len r)) (λ '(a, n), mk_SourceRecord a n) _.
Proof. by intros []. Defined.

Abbreviation SourceIndex := (gmap string SourceRecord).

(*| ir/compact_state.rs 120-126 SourceRef *)
Record SourceRef := mk_SourceRef {
  ref_source : string; ref_artifact_id : string; ref_start : Z; ref_end : Z }.
#[export] Instance SourceRef_eq_dec : EqDecision SourceRef.
Proof. solve_decision. Defined.
#[export, refine] Instance SourceRef_countable : Countable SourceRef :=
  inj_countable' (λ r, (ref_source r, ref_artifact_id r, ref_start r, ref_end r))
    (λ '(s, a, i, j), mk_SourceRef s a i j) _.
Proof. by intros []. Defined.

(** The derived order, and a [BTreeSet<SourceRef>] in it. *)
Definition cmp_ref : SourceRef → SourceRef → comparison :=
  cmp_then (cmp_by ref_source String.compare)
    (cmp_then (cmp_by ref_artifact_id String.compare)
       (cmp_then (cmp_by ref_start Z.compare) (cmp_by ref_end Z.compare))).
Definition btree_refs (refs : gset SourceRef) : list SourceRef := sort_by cmp_ref (elements refs).

(*| ir/compact_state.rs 132-157 EntryKind *)
Inductive EntryKind :=
| Objective | Fact | Decision' | Constraint | PendingTask | CompletedTask | FailedApproach
| ArtifactEntry | OpenQuestion | EnvironmentBinding | Proposal | Alternative.
#[export] Instance EntryKind_eq_dec : EqDecision EntryKind.
Proof. solve_decision. Defined.

(** [#[serde(rename_all = "snake_case")]]. *)
(*| ir/compact_state.rs 131-131 EntryKind *)
Definition kind_name (kind : EntryKind) : string :=
  match kind with
  | Objective => "objective" | Fact => "fact" | Decision' => "decision"
  | Constraint => "constraint" | PendingTask => "pending_task"
  | CompletedTask => "completed_task" | FailedApproach => "failed_approach"
  | ArtifactEntry => "artifact" | OpenQuestion => "open_question"
  | EnvironmentBinding => "environment_binding" | Proposal => "proposal"
  | Alternative => "alternative"
  end.

(*| ir/compact_state.rs 162-170 StateEntry *)
Record StateEntry := mk_StateEntry {
  entry_kind : EntryKind; entry_scope : string; entry_key : string; entry_text : string;
  provenance : gset SourceRef; supersedes : gset string; contradicts : gset string }.
#[export] Instance StateEntry_eq_dec : EqDecision StateEntry.
Proof. solve_decision. Defined.

(** The schema version has one value. *)
(*| ir/compact_state.rs 177-181 StateDelta *)
Record StateDelta := mk_StateDelta { delta_sources : SourceIndex; delta_entries : list StateEntry }.
#[export] Instance StateDelta_eq_dec : EqDecision StateDelta.
Proof. solve_decision. Defined.

(*| ir/compact_state.rs 185-190 StateDeltaWire *)
Record StateDeltaWire := mk_StateDeltaWire {
  wire_sources : SourceIndex; has_duplicate : bool; wire_entries : list StateEntry }.

(*| ir/compact_state.rs 231-240 StateError *)
Inductive StateError := StateDocument | StateEntryError | StateSource | StateIdentity.
#[export] Instance StateError_eq_dec : EqDecision StateError.
Proof. solve_decision. Defined.

(*| ir/compact_state.rs 245-248 RelationKind *)
Inductive RelationKind := Contradicts | Supersedes.
#[export] Instance RelationKind_eq_dec : EqDecision RelationKind.
Proof. solve_decision. Defined.

(*| ir/compact_state.rs 244-244 RelationKind *)
Definition relation_name (kind : RelationKind) : string :=
  match kind with Contradicts => "contradicts" | Supersedes => "supersedes" end.

(*| ir/compact_state.rs 252-257 StateRelation *)
Record StateRelation := mk_StateRelation {
  relation_source : string; relation_kind : RelationKind; relation_target : string;
  target_present : bool }.

(*| ir/compact_state.rs 262-265 CompactState *)
Record CompactState := mk_CompactState {
  sources : SourceIndex; entries : gmap string StateEntry }.
#[export] Instance CompactState_eq_dec : EqDecision CompactState.
Proof. solve_decision. Defined.

(** [CompactState::default()]. *)
Definition empty_state : CompactState := mk_CompactState ∅ ∅.

(*| ir/compact_state.rs 276-282 From<CompactState>::from *)
Definition to_delta (state : CompactState) : StateDelta :=
  mk_StateDelta (sources state) (btree_values (entries state)).

(*| ir/compact_state.rs 311-316 valid_state_digest *)
Definition valid_state_digest (value : string) : bool :=
  (str_len value =? 64)%Z &&
  str_all (λ byte, is_ascii_digit byte || byte_in 97 102 byte) value.

(** ** The reducer *)

Section state.
Context `{IntJson, Sha256}.

(** What an entry says, apart from its history. *)
Definition content (e : StateEntry) : EntryKind * string * string * string :=
  (entry_kind e, entry_scope e, entry_key e, entry_text e).

(** [serde_json] writes a tuple as an array. *)
(*| ir/compact_state.rs 319-323 entry_id *)
Definition entry_id (e : StateEntry) : string :=
  encode_hex (sha256 (compact (Array
    [jnum 1; VString (kind_name (entry_kind e)); VString (entry_scope e);
     VString (entry_key e); VString (entry_text e)]))).

(*| ir/compact_state.rs 339-351 CompactState::apply *)
Definition apply_source (binding : string * SourceRecord) (next : CompactState) :
    result StateError CompactState :=
  let '(source_id, source) := binding in
  if is_blank source_id || negb (valid_state_digest (record_artifact_id source)) ||
     (byte_len source =? 0)%Z ||
     match sources next !! source_id with
     | Some existing => negb (bool_decide (existing = source))
     | None => false
     end
  then Err StateSource
  else Ok (mk_CompactState (<[source_id := source]> (sources next)) (entries next)).

(*| ir/compact_state.rs 362-377 CompactState::apply *)
Definition check_provenance (delta next : SourceIndex) (p : SourceRef) : result StateError unit :=
  if negb (is_some (delta !! ref_source p)) then Err StateSource
  else match next !! ref_source p with
  | None => Err StateSource
  | Some source =>
      if is_blank (ref_source p) ||
         negb (str_eqb (ref_artifact_id p) (record_artifact_id source)) ||
         (ref_end p <=? ref_start p)%Z || (byte_len source <? ref_end p)%Z
      then Err StateSource else Ok tt
  end.

(*| ir/compact_state.rs 399-401 CompactState::apply *)
Definition extend (existing entry : StateEntry) : StateEntry :=
  mk_StateEntry (entry_kind existing) (entry_scope existing) (entry_key existing)
    (entry_text existing) (provenance existing ∪ provenance entry)
    (supersedes existing ∪ supersedes entry) (contradicts existing ∪ contradicts entry).

(*| ir/compact_state.rs 353-405 CompactState::apply *)
Definition apply_entry (delta : SourceIndex) (entry : StateEntry) (next : CompactState) :
    result StateError CompactState :=
  if is_blank (entry_scope entry) || is_blank (entry_key entry) ||
     str_is_empty (entry_text entry) || bool_decide (provenance entry = ∅)
  then Err StateEntryError
  else
    for_each (check_provenance delta (sources next)) (btree_refs (provenance entry));;
    let id := entry_id entry in
    if existsb (λ target, negb (valid_state_digest target) || str_eqb target id)
         (btree_elements (supersedes entry) ++ btree_elements (contradicts entry))
    then Err StateEntryError
    else match entries next !! id with
    | Some existing =>
        if negb (bool_decide (content existing = content entry)) then Err StateIdentity
        else Ok (mk_CompactState (sources next) (<[id := extend existing entry]> (entries next)))
    | None => Ok (mk_CompactState (sources next) (<[id := entry]> (entries next)))
    end.

(*| ir/compact_state.rs 337-407 CompactState::apply *)
Definition apply (state : CompactState) (delta : StateDelta) : result StateError CompactState :=
  next ← try_fold apply_source (btree_entries (delta_sources delta)) state;
  try_fold (apply_entry (delta_sources delta)) (delta_entries delta) next.

(*| ir/compact_state.rs 410-412 CompactState::union *)
Definition union (a b : CompactState) : result StateError CompactState := apply a (to_delta b).

(*| ir/compact_state.rs 270-272 TryFrom<StateDelta>::try_from *)
Definition try_from (delta : StateDelta) : result StateError CompactState :=
  apply empty_state delta.

(** ** Documents *)

Class DeltaJson := {
  delta_text : StateDelta → string;
  decode_wire : string → option StateDeltaWire
}.

Context `{!DeltaJson}.

(*| ir/compact_state.rs 286-295 StateDelta::from_wire *)
Definition from_wire (wire : StateDeltaWire) : result StateError StateDelta :=
  if has_duplicate wire then Err StateSource
  else Ok (mk_StateDelta (wire_sources wire) (wire_entries wire)).

(*| ir/compact_state.rs 299-307 Deserialize::deserialize *)
Definition read_delta (document : string) : option StateDelta :=
  wire ← decode_wire document;
  match from_wire wire with
  | Err _ => None
  | Ok delta => match try_from delta with Ok _ => Some delta | Err _ => None end
  end.

(*| ir/compact_state.rs 415-417 CompactState::to_json *)
Definition to_json (state : CompactState) : string := delta_text (to_delta state).

(*| ir/compact_state.rs 420-424 CompactState::from_json *)
Definition from_json (document : string) : result StateError CompactState :=
  match decode_wire document with
  | None => Err StateDocument
  | Some wire => from_wire wire ≫= try_from
  end.

(** ** Views *)

Definition relation_tag (kind : RelationKind) : Z :=
  match kind with Contradicts => 0 | Supersedes => 1 end.

(*| ir/compact_state.rs 450-455 CompactState::relations *)
Definition cmp_relation : StateRelation → StateRelation → comparison :=
  cmp_then (cmp_by relation_source String.compare)
    (cmp_then (cmp_by (λ r, relation_tag (relation_kind r)) Z.compare)
       (cmp_by relation_target String.compare)).

Definition links (state : CompactState) (id : string) (kind : RelationKind)
    (targets : gset string) : list StateRelation :=
  map (λ target, mk_StateRelation id kind target (is_some (entries state !! target)))
    (btree_elements targets).

(*| ir/compact_state.rs 427-457 CompactState::relations *)
Definition relations (state : CompactState) : list StateRelation :=
  sort_by cmp_relation
    (concat (map (λ '(id, e), links state id Contradicts (contradicts e) ++
                              links state id Supersedes (supersedes e))
               (btree_entries (entries state)))).

Definition spaced (words : list string) : string := String.concat " " words.

(*| ir/compact_state.rs 463-470 CompactState::render *)
Definition source_line (binding : string * SourceRecord) : string :=
  spaced ["source"; string_text (fst binding); record_artifact_id (snd binding);
          pretty (byte_len (snd binding))].
(*| ir/compact_state.rs 477-485 CompactState::render *)
Definition ref_line (id : string) (r : SourceRef) : string :=
  spaced ["ref"; id;
    string_text (ref_source r) +:+ "#" +:+ pretty (ref_start r) +:+ "-" +:+ pretty (ref_end r)].
(*| ir/compact_state.rs 486-499 CompactState::render *)
Definition link_line (r : StateRelation) : string :=
  spaced ["link"; relation_source r; string_text (relation_name (relation_kind r));
          relation_target r; if target_present r then "1" else "0"].

(*| ir/compact_state.rs 471-500 CompactState::render *)
Definition entry_lines (state : CompactState) (e : string * StateEntry) : list string :=
  let '(id, entry) := e in
  spaced ["entry"; id; string_text (kind_name (entry_kind entry))]
  :: map (ref_line id) (btree_refs (provenance entry))
  ++ map link_line (links state id Contradicts (contradicts entry) ++
                    links state id Supersedes (supersedes entry)).

Definition newline : string := String "010" "".

(*| ir/compact_state.rs 461-502 CompactState::render *)
Definition render (state : CompactState) : string :=
  "    " +:+ String.concat (newline +:+ "    ")
    ("CompactState v1"
     :: map source_line (btree_entries (sources state))
     ++ concat (map (entry_lines state) (btree_entries (entries state)))).

(** ** Well-formed states *)

Definition source_ok (id : string) (r : SourceRecord) : Prop :=
  is_blank id = false ∧ valid_state_digest (record_artifact_id r) = true ∧ byte_len r ≠ 0%Z.

Definition ref_ok (index : SourceIndex) (p : SourceRef) : Prop :=
  is_blank (ref_source p) = false ∧
  ∃ r, index !! ref_source p = Some r ∧ ref_artifact_id p = record_artifact_id r ∧
       (ref_start p < ref_end p ≤ byte_len r)%Z.

Record entry_ok (index : SourceIndex) (e : StateEntry) : Prop := {
  ok_scope : is_blank (entry_scope e) = false;
  ok_key : is_blank (entry_key e) = false;
  ok_text : entry_text e ≠ "";
  ok_provenance : provenance e ≠ ∅;
  ok_refs p : p ∈ provenance e → ref_ok index p;
  ok_links target : target ∈ supersedes e ∪ contradicts e →
    valid_state_digest target = true ∧ target ≠ entry_id e
}.

(** Every entry is stored under its own identity. *)
Definition keyed (m : gmap string StateEntry) : Prop := ∀ id e, m !! id = Some e → id = entry_id e.

Record state_wf (s : CompactState) : Prop := {
  wf_sources id r : sources s !! id = Some r → source_ok id r;
  wf_keyed : keyed (entries s);
  wf_entries id e : entries s !! id = Some e → entry_ok (sources s) e
}.

Definition delta_ok (d : StateDelta) : Prop :=
  (∀ id r, delta_sources d !! id = Some r → source_ok id r) ∧
  (∀ e, e ∈ delta_entries d → entry_ok (delta_sources d) e).

(** Two maps that give the same value to every common key. *)
Definition agree {A : Type} (m1 m2 : gmap string A) : Prop :=
  ∀ k x y, m1 !! k = Some x → m2 !! k = Some y → x = y.

Lemma agree_comm {A} (m1 m2 : gmap string A) : agree m1 m2 → agree m2 m1.
Proof. intros Ha k x y Hx Hy. symmetry. by apply (Ha k). Qed.
Lemma agree_refl {A} (m : gmap string A) : agree m m.
Proof. intros k x y -> [= ->]. done. Qed.
Lemma agree_union_comm {A} (m1 m2 : gmap string A) : agree m1 m2 → m1 ∪ m2 = m2 ∪ m1.
Proof.
  intros Ha. apply map_eq. intros k. rewrite !lookup_union.
  destruct (m1 !! k) as [x|] eqn:E1, (m2 !! k) as [y|] eqn:E2; try done.
  by rewrite (Ha k x y).
Qed.
(** *** Sources *)

Lemma apply_source_Ok b s s' :
  apply_source b s = Ok s' ↔
  source_ok (fst b) (snd b) ∧ (∀ x, sources s !! fst b = Some x → x = snd b) ∧
  s' = mk_CompactState (<[fst b := snd b]> (sources s)) (entries s).
Proof.
  destruct b as [id r]. cbn. unfold apply_source, source_ok. rewrite guard_Ok, !orb_false_iff, negb_false_iff.
  rewrite Z.eqb_neq. destruct (sources s !! id) as [x|].
  - rewrite negb_false_iff, bool_decide_eq_true. naive_solver.
  - naive_solver.
Qed.

Lemma apply_sources_Ok l s s' :
  NoDup (map fst l) →
  try_fold apply_source l s = Ok s' ↔
  (∀ id r, (id, r) ∈ l → source_ok id r ∧ ∀ x, sources s !! id = Some x → x = r) ∧
  s' = mk_CompactState (list_to_map l ∪ sources s) (entries s).
Proof.
  revert s. induction l as [|[id r] l IH]; intros s Hnd.
  - cbn. rewrite (left_id_L ∅ (∪)). destruct s. cbn. set_solver.
  - cbn in Hnd. apply NoDup_cons in Hnd as [Hnin Hnd]. cbn [try_fold]. rewrite bind_Ok.
    setoid_rewrite apply_source_Ok. cbn [fst snd].
    assert (Hid : ∀ y, (id, y) ∉ l).
    { intros y Hy. apply Hnin, list_elem_of_fmap. by exists (id, y). }
    split.
    + intros (s1 & (Hok & Hag & ->) & [Hl ->]%IH); [|done]. cbn [sources entries] in *. split.
      * intros id' r' [[= -> ->]|Hin]%elem_of_cons; [done|].
        destruct (Hl id' r' Hin) as [Hok' Hag']. split; [done|]. intros x Hx. apply Hag'.
        rewrite lookup_insert_ne; [done|]. intros ->. by destruct (Hid r').
      * f_equal. cbn. rewrite <- insert_union_l, <- insert_union_r; [done|].
        by apply not_elem_of_list_to_map_1.
    + intros [Hl ->]. exists (mk_CompactState (<[id := r]> (sources s)) (entries s)).
      destruct (Hl id r) as [Hok Hag]; [set_solver|]. split; [done|]. apply IH; [done|].
      cbn [sources entries]. split.
      * intros id' r' Hin. destruct (Hl id' r') as [Hok' Hag']; [set_solver|]. split; [done|].
        intros x Hx. rewrite lookup_insert_ne in Hx; [by apply Hag'|].
        intros ->. by destruct (Hid r').
      * f_equal. cbn. rewrite <- insert_union_l, <- insert_union_r; [done|].
        by apply not_elem_of_list_to_map_1.
Qed.

(** *** Entries *)

Lemma elem_of_btree_refs refs p : p ∈ btree_refs refs ↔ p ∈ refs.
Proof. unfold btree_refs. by rewrite sort_by_Permutation, elem_of_elements. Qed.

Lemma check_provenance_Ok delta next p :
  (∀ k r, delta !! k = Some r → next !! k = Some r) →
  check_provenance delta next p = Ok tt ↔ ref_ok delta p.
Proof.
  intros Hsub. unfold check_provenance, ref_ok.
  destruct (delta !! ref_source p) as [r|] eqn:E; cbn; [|naive_solver].
  rewrite (Hsub _ _ E), guard_Ok, !orb_false_iff, negb_false_iff, str_eqb_eq, Z.leb_gt, Z.ltb_ge.
  naive_solver lia.
Qed.

(** [entry] joins what is stored under its identity. *)
Definition absorb (m : gmap string StateEntry) (e : StateEntry) : gmap string StateEntry :=
  <[entry_id e := from_option (λ x, extend x e) e (m !! entry_id e)]> m.

Lemma apply_entry_Ok delta e s s' :
  (∀ k r, delta !! k = Some r → sources s !! k = Some r) →
  apply_entry delta e s = Ok s' ↔
  entry_ok delta e ∧ (∀ x, entries s !! entry_id e = Some x → content x = content e) ∧
  s' = mk_CompactState (sources s) (absorb (entries s) e).
Proof.
  intros Hsub. unfold apply_entry. rewrite guard_Ok, for_each_bind_Ok, guard_Ok.
  rewrite !orb_false_iff, str_is_empty_false, bool_decide_eq_false, existsb_false_iff.
  setoid_rewrite elem_of_btree_refs. setoid_rewrite (check_provenance_Ok delta (sources s)); [|done].
  assert (Hlinks : (∀ t, t ∈ btree_elements (supersedes e) ++ btree_elements (contradicts e) →
      negb (valid_state_digest t) || str_eqb t (entry_id e) = false) ↔
    ∀ t, t ∈ supersedes e ∪ contradicts e → valid_state_digest t = true ∧ t ≠ entry_id e).
  { setoid_rewrite elem_of_app. setoid_rewrite elem_of_btree_elements. setoid_rewrite elem_of_union.
    setoid_rewrite orb_false_iff. setoid_rewrite negb_false_iff.
    setoid_rewrite bool_decide_eq_false. done. }
  rewrite Hlinks. unfold absorb.
  assert (Hok : entry_ok delta e ↔
    ((is_blank (entry_scope e) = false ∧ is_blank (entry_key e) = false) ∧ entry_text e ≠ "") ∧
    provenance e ≠ ∅ ∧ (∀ p, p ∈ provenance e → ref_ok delta p) ∧
    (∀ t, t ∈ supersedes e ∪ contradicts e → valid_state_digest t = true ∧ t ≠ entry_id e)).
  { split; [intros []; auto|]. intros ([[??]?]&?&?&?). by split. }
  rewrite Hok. clear Hlinks Hok Hsub.
  generalize (∀ t, t ∈ supersedes e ∪ contradicts e → valid_state_digest t = true ∧ t ≠ entry_id e).
  generalize (∀ p, p ∈ provenance e → ref_ok delta p). intros Refs Links.
  destruct (entries s !! entry_id e) as [x|]; cbn.
  - rewrite guard_Ok, negb_false_iff, bool_decide_eq_true. split.
    + intros ([[[??]?]?] & ? & ? & ? & [= <-]). split_and!; try done. by intros ? [= <-].
    + intros (([[??]?] & ? & ? & ?) & Hc & ->). split_and!; try done. by apply Hc.
  - split.
    + intros ([[[??]?]?] & ? & ? & [= <-]). by split_and!.
    + intros (([[??]?] & ? & ? & ?) & Hc & ->). by split_and!.
Qed.

(** No two of the entries share an identity without saying the same. *)
Definition coherent (m : gmap string StateEntry) (l : list StateEntry) : Prop :=
  (∀ e x, e ∈ l → m !! entry_id e = Some x → content x = content e) ∧
  (∀ e e', e ∈ l → e' ∈ l → entry_id e = entry_id e' → content e = content e').

Lemma absorb_lookup m e : ∃ x, absorb m e !! entry_id e = Some x ∧
  ((∀ y, m !! entry_id e = Some y → content y = content e) → content x = content e).
Proof.
  unfold absorb. rewrite lookup_insert_eq. eexists; split; [done|]. intros Hy.
  destruct (m !! entry_id e) as [y|]; [|done]. cbn. by rewrite <- (Hy y).
Qed.

Lemma coherent_cons m e l :
  coherent m (e :: l) ↔
  (∀ x, m !! entry_id e = Some x → content x = content e) ∧ coherent (absorb m e) l.
Proof.
  destruct (absorb_lookup m e) as (z & Hz & Hcz).
  assert (Hne : ∀ k, k ≠ entry_id e → absorb m e !! k = m !! k).
  { intros k Hk. unfold absorb. by rewrite lookup_insert_ne by done. }
  split.
  - intros [Hm Hl]. assert (Hhead : ∀ x, m !! entry_id e = Some x → content x = content e)
      by (intros x; apply Hm; set_solver).
    split; [done|]. split; [|intros ????; apply Hl; set_solver].
    intros e' x He' Hx. destruct (decide (entry_id e' = entry_id e)) as [Heq|Hk].
    + rewrite Heq, Hz in Hx. injection Hx as <-. rewrite (Hcz Hhead). apply Hl; set_solver.
    + rewrite Hne in Hx by done. apply Hm; [set_solver|done].
  - intros [Hhead [Hm Hl]].
    assert (Hpair : ∀ e', e' ∈ l → entry_id e' = entry_id e → content e = content e').
    { intros e' He' Heq. rewrite <- (Hcz Hhead). apply Hm; [done|]. by rewrite Heq. }
    split.
    + intros e' x [->|He']%elem_of_cons Hx; [auto|].
      destruct (decide (entry_id e' = entry_id e)) as [Heq|Hk].
      * rewrite Heq in Hx. rewrite (Hhead x Hx). by apply Hpair.
      * apply Hm; [done|]. by rewrite Hne.
    + intros e1 e2 [->|Hi1]%elem_of_cons [->|Hi2]%elem_of_cons Heq; auto.
      symmetry. by apply Hpair.
Qed.

Lemma apply_entries_Ok delta l s s' :
  (∀ k r, delta !! k = Some r → sources s !! k = Some r) →
  try_fold (apply_entry delta) l s = Ok s' ↔
  (∀ e, e ∈ l → entry_ok delta e) ∧ coherent (entries s) l ∧
  s' = mk_CompactState (sources s) (foldl absorb (entries s) l).
Proof.
  revert s. induction l as [|e l IH]; intros s Hsub; cbn [try_fold foldl].
  - destruct s. cbn. unfold coherent. set_solver.
  - rewrite bind_Ok. setoid_rewrite apply_entry_Ok; [|done]. rewrite coherent_cons. split.
    + intros (s1 & (Hok & Hx & ->) & (Hl & Hc & ->)%IH); [|done]. cbn in *.
      split_and!; [|done..]. intros e' [->|?]%elem_of_cons; auto.
    + intros (Hl & [Hx Hc] & ->). eexists. split; [split_and!; [|done..]|].
      * apply Hl. set_solver.
      * apply IH; [done|]. cbn. split_and!; [|done..]. intros e' He'. apply Hl. set_solver.
Qed.

(** What [apply] accepts, and the state it returns. *)
Lemma apply_Ok s d s' :
  apply s d = Ok s' ↔
  delta_ok d ∧ agree (sources s) (delta_sources d) ∧ coherent (entries s) (delta_entries d) ∧
  s' = mk_CompactState (delta_sources d ∪ sources s) (foldl absorb (entries s) (delta_entries d)).
Proof.
  unfold apply. rewrite bind_Ok.
  setoid_rewrite apply_sources_Ok; [|by apply btree_entries_keys..].
  assert (Hmap : list_to_map (btree_entries (delta_sources d)) = delta_sources d).
  { unfold btree_entries. rewrite <- (list_to_map_to_list (delta_sources d)) at 2.
    symmetry. apply list_to_map_proper; [apply NoDup_fst_map_to_list|].
    by rewrite sort_by_key_Permutation. }
  rewrite Hmap. setoid_rewrite elem_of_btree_entries.
  assert (Hsub : ∀ k r, delta_sources d !! k = Some r →
    (delta_sources d ∪ sources s) !! k = Some r) by (intros k r; apply lookup_union_Some_l).
  unfold delta_ok, agree. split.
  - intros (s1 & [Hsrc ->] & (He & Hc & ->)%apply_entries_Ok); [|done]. cbn in *.
    split_and!; [by intros id r [? _]%Hsrc|done| |done|done].
    intros k x y Hx Hy. by apply (Hsrc k y Hy).
  - intros ([Hsrc He] & Hag & Hc & ->). eexists. split; [split; [|done]|].
    + intros id r Hr. split; [by apply Hsrc|]. intros x Hx. by apply (Hag id).
    + by apply apply_entries_Ok.
Qed.

(** ** The join of two states *)

Definition join_with (m1 m2 : gmap string StateEntry) : gmap string StateEntry :=
  union_with (λ x y, Some (extend x y)) m1 m2.
Definition join (a b : CompactState) : CompactState :=
  mk_CompactState (sources a ∪ sources b) (join_with (entries a) (entries b)).

(** The two states bind every common source and identity alike. *)
Definition compatible (a b : CompactState) : Prop :=
  agree (sources a) (sources b) ∧
  ∀ id x y, entries a !! id = Some x → entries b !! id = Some y → content x = content y.

Lemma extend_assoc x y z : extend (extend x y) z = extend x (extend y z).
Proof. unfold extend. cbn. by rewrite !(assoc_L (∪)). Qed.
Lemma extend_comm x y : content x = content y → extend x y = extend y x.
Proof.
  destruct x, y. unfold extend, content. cbn. intros [= -> -> -> ->].
  f_equal; apply (comm_L (∪)).
Qed.
Lemma extend_idemp x : extend x x = x.
Proof. destruct x. unfold extend. cbn. by rewrite !(idemp_L (∪)). Qed.
Lemma extend_content x y : content (extend x y) = content x.
Proof. done. Qed.
Lemma entry_id_content x y : content x = content y → entry_id x = entry_id y.
Proof. destruct x, y. unfold content, entry_id. cbn. by intros [= -> -> -> ->]. Qed.

Lemma join_with_lookup m1 m2 id :
  join_with m1 m2 !! id = match m1 !! id, m2 !! id with
                          | Some x, Some y => Some (extend x y)
                          | Some x, None => Some x
                          | None, o => o
                          end.
Proof. unfold join_with. rewrite lookup_union_with. by destruct (m1 !! id), (m2 !! id). Qed.

Lemma join_with_assoc m1 m2 m3 :
  join_with (join_with m1 m2) m3 = join_with m1 (join_with m2 m3).
Proof.
  apply map_eq. intros id. rewrite !join_with_lookup.
  destruct (m1 !! id), (m2 !! id), (m3 !! id); try done. by rewrite extend_assoc.
Qed.

Lemma absorb_join m e : absorb m e = join_with m {[entry_id e := e]}.
Proof.
  apply map_eq. intros id. unfold absorb. rewrite join_with_lookup.
  destruct (decide (id = entry_id e)) as [->|Hne].
  - rewrite lookup_insert_eq, lookup_singleton_eq. by destruct (m !! entry_id e).
  - rewrite lookup_insert_ne, lookup_singleton_ne by done. by destruct (m !! id).
Qed.

Lemma foldl_absorb_join m k l :
  foldl absorb (join_with m k) l = join_with m (foldl absorb k l).
Proof.
  revert k. induction l as [|e l IH]; intros k; cbn; [done|].
  by rewrite <- IH, !absorb_join, join_with_assoc.
Qed.

Lemma join_with_empty m : join_with m ∅ = m.
Proof. apply map_eq. intros id. rewrite join_with_lookup, lookup_empty. by destruct (m !! id). Qed.

Lemma foldl_absorb m l : foldl absorb m l = join_with m (foldl absorb ∅ l).
Proof. by rewrite <- foldl_absorb_join, join_with_empty. Qed.

(** The entries of a state, absorbed one after the other, are the state's. *)
Lemma foldl_absorb_entries l :
  NoDup (map entry_id l) →
  foldl absorb ∅ l = list_to_map (map (λ e, (entry_id e, e)) l).
Proof.
  induction l as [|e l IH]; cbn; [done|]. intros [Hnin Hnd]%NoDup_cons.
  rewrite foldl_absorb, IH by done.
  assert (Hn : (list_to_map (map (λ e, (entry_id e, e)) l) : gmap string StateEntry) !! entry_id e = None).
  { apply not_elem_of_list_to_map_1. by rewrite <- list_fmap_compose. }
  apply map_eq. intros id. rewrite join_with_lookup. unfold absorb. rewrite lookup_empty. cbn.
  destruct (decide (id = entry_id e)) as [->|Hne].
  - by rewrite !lookup_insert_eq, Hn.
  - by rewrite !lookup_insert_ne, lookup_empty by done.
Qed.

Lemma foldl_absorb_values m : keyed m → foldl absorb ∅ (btree_values m) = m.
Proof.
  intros Hk.
  assert (Hid : map entry_id (btree_values m) = map fst (btree_entries m)).
  { unfold btree_values. rewrite map_map. apply map_ext_in. intros [id e] Hin.
    apply list_elem_of_In, elem_of_btree_entries, Hk in Hin. done. }
  rewrite foldl_absorb_entries by (rewrite Hid; apply btree_entries_keys).
  assert (Hl : map (λ e, (entry_id e, e)) (btree_values m) = btree_entries m).
  { unfold btree_values. rewrite map_map. rewrite <- (map_id (btree_entries m)) at 2.
    apply map_ext_in. intros [id e] Hin. apply list_elem_of_In, elem_of_btree_entries, Hk in Hin.
    cbn. by rewrite <- Hin. }
  rewrite Hl. unfold btree_entries. rewrite <- (list_to_map_to_list m) at 2.
  apply list_to_map_proper; [|by rewrite sort_by_key_Permutation].
  rewrite (Permutation_map fst (sort_by_key_Permutation fst _)). apply NoDup_fst_map_to_list.
Qed.

(** *** Where the entries of a fold come from *)

Lemma foldl_absorb_from m l id y :
  foldl absorb m l !! id = Some y →
  (∃ x, m !! id = Some x ∧ content y = content x) ∨
  (∃ e, e ∈ l ∧ entry_id e = id ∧ content y = content e).
Proof.
  revert m. induction l as [|e l IH]; intros m; cbn; [eauto|].
  intros [(x & Hx & Hc)|(e' & He' & Hid & Hc)]%IH.
  - unfold absorb in Hx. destruct (decide (id = entry_id e)) as [->|Hne].
    + rewrite lookup_insert_eq in Hx. injection Hx as <-.
      destruct (m !! entry_id e) as [z|]; cbn in Hc; [left; eauto|].
      right. exists e. split; [set_solver|done].
    + rewrite lookup_insert_ne in Hx by done. eauto.
  - right. exists e'. split; [set_solver|done].
Qed.

Lemma foldl_absorb_some m l id :
  is_Some (m !! id) ∨ (∃ e, e ∈ l ∧ entry_id e = id) → is_Some (foldl absorb m l !! id).
Proof.
  revert m. induction l as [|e l IH]; intros m; cbn.
  - intros [?|(e & He & _)]; [done|]. by apply elem_of_nil in He.
  - intros Hin. apply IH. destruct (decide (id = entry_id e)) as [->|Hne].
    + left. unfold absorb. by rewrite lookup_insert_eq.
    + destruct Hin as [Hin|(e' & [->|He']%elem_of_cons & Hid)]; [|done|eauto].
      left. unfold absorb. by rewrite lookup_insert_ne.
Qed.

Lemma coherent_split m l :
  coherent m l ↔ coherent ∅ l ∧
    ∀ id x y, m !! id = Some x → foldl absorb ∅ l !! id = Some y → content x = content y.
Proof.
  unfold coherent. split.
  - intros [Hm Hl]. split; [split; [intros e x _ Hx; by rewrite lookup_empty in Hx|done]|].
    intros id x y Hx [(z & Hz & _)|(e & He & <- & ->)]%foldl_absorb_from; [by rewrite lookup_empty in Hz|].
    by apply Hm.
  - intros [[_ Hl] Hm]. split; [|done]. intros e x He Hx.
    destruct (foldl_absorb_some ∅ l (entry_id e)) as [y Hy]; [right; eauto|].
    rewrite (Hm _ x y Hx Hy).
    apply foldl_absorb_from in Hy as [(z & Hz & _)|(e' & He' & Hid & ->)]; [by rewrite lookup_empty in Hz|].
    by apply Hl.
Qed.

(** *** Well-formedness is kept *)

Lemma ref_ok_mono (i j : SourceIndex) p :
  (∀ k r, i !! k = Some r → j !! k = Some r) → ref_ok i p → ref_ok j p.
Proof. intros Hij [Hb (r & Hr & Hrest)]. split; [done|]. exists r. split; [by apply Hij|done]. Qed.

Lemma entry_ok_mono (i j : SourceIndex) e :
  (∀ k r, i !! k = Some r → j !! k = Some r) → entry_ok i e → entry_ok j e.
Proof. intros Hij [Hs Hk Ht Hp Hr Hl]. split; [done..| |done]. intros p Hin. eauto using ref_ok_mono. Qed.

Lemma extend_ok i x y :
  content x = content y → entry_ok i x → entry_ok i y → entry_ok i (extend x y).
Proof.
  intros Hc [Hs Hk Ht Hp Hr Hl] [_ _ _ _ Hr' Hl'].
  assert (Hid : entry_id (extend x y) = entry_id x) by by apply entry_id_content.
  split; cbn; [done..| | |].
  - intros He. apply Hp. set_solver.
  - set_solver.
  - rewrite Hid. rewrite <- (entry_id_content x y Hc) in Hl'. set_solver.
Qed.

Definition all_ok (index : SourceIndex) (m : gmap string StateEntry) : Prop :=
  keyed m ∧ ∀ id e, m !! id = Some e → entry_ok index e.

Lemma join_with_ok index m1 m2 :
  (∀ id x y, m1 !! id = Some x → m2 !! id = Some y → content x = content y) →
  all_ok index m1 → all_ok index m2 → all_ok index (join_with m1 m2).
Proof.
  intros Hc [Hk1 Ho1] [Hk2 Ho2]. split; intros id e; rewrite join_with_lookup;
    destruct (m1 !! id) as [x|] eqn:E1, (m2 !! id) as [y|] eqn:E2; intros [= <-]; eauto.
  - rewrite (Hk1 id x E1). by apply entry_id_content.
  - apply extend_ok; eauto.
Qed.

Lemma foldl_absorb_ok index l :
  coherent ∅ l → (∀ e, e ∈ l → entry_ok index e) → all_ok index (foldl absorb ∅ l).
Proof.
  enough (Hgen : ∀ m, coherent m l → (∀ e, e ∈ l → entry_ok index e) → all_ok index m →
            all_ok index (foldl absorb m l)).
  { intros Hc Hl. apply Hgen; [done..|]. split; intros id e He; by rewrite lookup_empty in He. }
  induction l as [|e l IH]; intros m Hc Hl Hm; cbn; [done|].
  apply coherent_cons in Hc as [He Hc]. apply IH; [done|set_solver|].
  rewrite absorb_join. apply join_with_ok; [|done|].
  - intros id x y Hx [<- <-]%lookup_singleton_Some. by apply He.
  - split; intros id y [<- <-]%lookup_singleton_Some; [done|]. apply Hl. set_solver.
Qed.

Lemma empty_state_wf : state_wf empty_state.
Proof. split; cbn; intros id e He; by rewrite lookup_empty in He. Qed.

Lemma to_delta_ok s : state_wf s → delta_ok (to_delta s).
Proof.
  intros [Hs Hk He]. split; cbn; [done|]. intros e [id Hid]%elem_of_btree_values. by apply (He id).
Qed.

Lemma values_coherent m : keyed m → coherent ∅ (btree_values m).
Proof.
  intros Hk. split; [intros e x _ Hx; by rewrite lookup_empty in Hx|].
  intros e e' [i Hi]%elem_of_btree_values [j Hj]%elem_of_btree_values Hid.
  apply Hk in Hi as Ei. apply Hk in Hj as Ej. subst i j. congruence.
Qed.

Lemma union_Ok a b c : state_wf b → union a b = Ok c ↔ compatible a b ∧ c = join a b.
Proof.
  intros Hb. unfold union. rewrite apply_Ok. cbn. rewrite coherent_split, (foldl_absorb (entries a)).
  rewrite foldl_absorb_values by apply Hb. unfold compatible, join. split.
  - intros (_ & Hag & [_ Hc] & ->). split; [by split|]. by rewrite (agree_union_comm (sources a)).
  - intros ([Hag Hc] & ->). split_and!; [by apply to_delta_ok|done| |done|].
    + by apply values_coherent, Hb.
    + by rewrite (agree_union_comm (sources a)).
Qed.

Lemma try_from_Ok d t :
  try_from d = Ok t ↔ delta_ok d ∧ coherent ∅ (delta_entries d) ∧
    t = mk_CompactState (delta_sources d) (foldl absorb ∅ (delta_entries d)).
Proof.
  unfold try_from. rewrite apply_Ok. cbn. rewrite (right_id_L ∅ (∪)).
  assert (agree ∅ (delta_sources d)) by (intros k x y Hx; by rewrite lookup_empty in Hx). naive_solver.
Qed.

Lemma try_from_wf d t : try_from d = Ok t → state_wf t.
Proof.
  intros ([Hs He] & Hc & ->)%try_from_Ok. split; cbn; [done|..];
    by apply (foldl_absorb_ok (delta_sources d)).
Qed.

(** Applying a delta is joining the state it describes. *)
Lemma apply_union s d s' :
  apply s d = Ok s' ↔ ∃ t, try_from d = Ok t ∧ compatible s t ∧ s' = join s t.
Proof.
  rewrite apply_Ok, coherent_split, (foldl_absorb (entries s)). split.
  - intros (Hd & Hag & [Hc Hx] & ->). eexists. rewrite try_from_Ok. split; [by split_and!|].
    unfold compatible, join. cbn. split; [done|]. by rewrite (agree_union_comm (sources s)).
  - intros (t & (Hd & Hc & ->)%try_from_Ok & [Hag Hx] & ->). cbn in *. split_and!; try done.
    unfold join. cbn. by rewrite (agree_union_comm (sources s)).
Qed.

Lemma join_wf a b : compatible a b → state_wf a → state_wf b → state_wf (join a b).
Proof.
  intros [Hag Hc] [Hsa Hka Hea] [Hsb Hkb Heb].
  assert (Hall : all_ok (sources a ∪ sources b) (join_with (entries a) (entries b))).
  { apply join_with_ok; [done|split; [done|]..].
    - intros id e He. eapply entry_ok_mono; [|by apply (Hea id)]. intros k r. apply lookup_union_Some_l.
    - intros id e He. eapply entry_ok_mono; [|by apply (Heb id)].
      intros k r. rewrite (agree_union_comm (sources a)) by done. apply lookup_union_Some_l. }
  split; cbn; [|apply Hall..]. intros id r. rewrite lookup_union.
  destruct (sources a !! id) as [x|] eqn:E1, (sources b !! id) as [y|] eqn:E2; intros [= <-]; auto.
Qed.

Lemma apply_wf s d s' : state_wf s → apply s d = Ok s' → state_wf s'.
Proof. intros Hs (t & Ht & Hc & ->)%apply_union. apply join_wf; [done..|]. by eapply try_from_wf. Qed.

(** *** The laws *)

Lemma compatible_comm a b : compatible a b → compatible b a.
Proof. intros [Hag Hc]. split; [by apply agree_comm|]. intros id x y Hx Hy. symmetry. by apply (Hc id). Qed.

Lemma join_comm a b : compatible a b → join a b = join b a.
Proof.
  intros [Hag Hc]. unfold join. rewrite (agree_union_comm (sources a)) by done. f_equal.
  apply map_eq. intros id. rewrite !join_with_lookup.
  destruct (entries a !! id) as [x|] eqn:E1, (entries b !! id) as [y|] eqn:E2; try done.
  by rewrite (extend_comm x y) by by apply (Hc id).
Qed.

Lemma join_assoc a b c : join (join a b) c = join a (join b c).
Proof. unfold join. cbn. by rewrite (assoc_L (∪)), join_with_assoc. Qed.

Lemma join_idemp a : join a a = a.
Proof.
  destruct a as [src ents]. unfold join. cbn. rewrite (idemp_L (∪)). f_equal.
  apply map_eq. intros id. rewrite join_with_lookup. destruct (ents !! id); [|done].
  by rewrite extend_idemp.
Qed.

Lemma compatible_join a b c :
  compatible a b → compatible (join a b) c ↔ compatible a c ∧ compatible b c.
Proof.
  intros [Hag Hc]. unfold compatible. cbn. split.
  - intros [Hs He]. split_and!.
    + intros k x y Hx. apply Hs. by apply lookup_union_Some_l.
    + intros id x y Hx Hy. destruct (entries b !! id) as [z|] eqn:Ez.
      * rewrite <- (He id (extend x z) y); [done| |done]. by rewrite join_with_lookup, Hx, Ez.
      * rewrite <- (He id x y); [done| |done]. by rewrite join_with_lookup, Hx, Ez.
    + intros k x y Hx. apply Hs. rewrite (agree_union_comm (sources a)) by done.
      by apply lookup_union_Some_l.
    + intros id x y Hx Hy. destruct (entries a !! id) as [z|] eqn:Ez.
      * rewrite <- (Hc id z x) by done. apply (He id (extend z x)); [|done].
        by rewrite join_with_lookup, Hx, Ez.
      * apply (He id x); [|done]. by rewrite join_with_lookup, Hx, Ez.
  - intros [[Has Hae] [Hbs Hbe]]. split.
    + intros k x y. rewrite lookup_union. destruct (sources a !! k) as [z|] eqn:Ez.
      * destruct (sources b !! k); intros [= <-]; by apply Has.
      * destruct (sources b !! k) eqn:Eb; intros [= <-]; by apply Hbs.
    + intros id x y. rewrite join_with_lookup. destruct (entries a !! id) as [z|] eqn:Ez.
      * destruct (entries b !! id); intros [= <-] Hy; rewrite ?extend_content; by apply (Hae id z y).
      * by apply Hbe.
Qed.


(** [a] has everything of [s]: the same bindings, and under every identity the
    same statement with at least its sources and links. *)
Definition below (s a : CompactState) : Prop :=
  sources s ⊆ sources a ∧
  ∀ id x, entries s !! id = Some x → ∃ y, entries a !! id = Some y ∧ content y = content x ∧
    provenance x ⊆ provenance y ∧ supersedes x ⊆ supersedes y ∧ contradicts x ⊆ contradicts y.

Lemma below_join_l a b : below a (join a b).
Proof.
  split; [by apply map_union_subseteq_l|]. intros id x Hx. cbn. rewrite join_with_lookup, Hx.
  destruct (entries b !! id) as [y|]; eexists; (split; [done|]); [|done].
  cbn. split_and!; [done|set_solver..].
Qed.

Lemma below_compatible a b u : below a u → below b u → compatible a b.
Proof.
  intros [Ha Hae] [Hb Hbe]. split.
  - intros k x y Hx Hy. apply (lookup_weaken _ (sources u)) in Hx, Hy; [|done..]. congruence.
  - intros id x y Hx Hy. destruct (Hae id x Hx) as (z & Hz & <- & _).
    destruct (Hbe id y Hy) as (w & Hw & <- & _). congruence.
Qed.

Lemma below_join a b u : below a u → below b u → below (join a b) u.
Proof.
  intros [Ha Hae] [Hb Hbe]. split; cbn; [by apply map_union_least|].
  intros id z. rewrite join_with_lookup.
  destruct (entries a !! id) as [x|] eqn:Ex, (entries b !! id) as [y|] eqn:Ey; intros [= <-]; auto.
  destruct (Hae id x Ex) as (v & Hv & Hc & ?&?&?). destruct (Hbe id y Ey) as (w & Hw & _ & ?&?&?).
  rewrite Hv in Hw. injection Hw as <-. exists v. split_and!; cbn; [done|done|set_solver..].
Qed.

(** C9. [union] is the join of a semilattice: for well-formed states it is
    idempotent, and commutative and associative where it succeeds - it succeeds
    in one order or grouping exactly when it does in the other - and its result
    is the least state that has all bindings, statements, sources and links of
    both; it fails only when no state has. *)
Theorem compact_state_union_lattice a b c :
  state_wf a → state_wf b → state_wf c →
  union a a = Ok a ∧
  (∀ s, union a b = Ok s ↔ union b a = Ok s) ∧
  (∀ s, (union a b ≫= λ ab, union ab c) = Ok s ↔ (union b c ≫= λ bc, union a bc) = Ok s) ∧
  (∀ s, union a b = Ok s → below a s ∧ below b s ∧ ∀ u, below a u → below b u → below s u) ∧
  (∀ e u, union a b = Err e → ¬ (below a u ∧ below b u)).
Proof.
  intros Ha Hb Hc. split_and!.
  - apply union_Ok; [done|]. split; [|by rewrite join_idemp]. split; [apply agree_refl|].
    by intros id x y -> [= ->].
  - intros s. rewrite !union_Ok by done. split; intros [Hco ->]; split;
      by auto using compatible_comm, join_comm.
  - intros s. rewrite !bind_Ok. split.
    + intros (ab & [Hab ->]%union_Ok & [Habc ->]%union_Ok); [|done..].
      apply compatible_join in Habc as [Hac Hbc]; [|done].
      exists (join b c). split; [by apply union_Ok|]. apply union_Ok; [by apply join_wf|].
      split; [|apply join_assoc]. apply compatible_comm, compatible_join; [done|].
      split; by apply compatible_comm.
    + intros (bc & [Hbc ->]%union_Ok & [Hbca ->]%union_Ok); [|by apply join_wf|done].
      apply compatible_comm, compatible_join in Hbca as [Hba Hca]; [|done].
      exists (join a b). split; [apply union_Ok; [done|]; split; [by apply compatible_comm|done]|].
      apply union_Ok; [done|]. split; [|by rewrite join_assoc].
      apply compatible_join; [by apply compatible_comm|]. split; [by apply compatible_comm|done].
  - intros s [Hco ->]%union_Ok; [|done]. split_and!; [apply below_join_l| |].
    + rewrite join_comm by done. apply below_join_l.
    + intros u. apply below_join.
  - intros e u E [Hau Hbu]. pose proof (below_compatible a b u Hau Hbu) as Hco.
    assert (union a b = Ok (join a b)) by by apply union_Ok. congruence.
Qed.

Lemma applies_wf ds s r :
  state_wf s → try_fold (λ d s, apply s d) ds s = Ok r → state_wf r.
Proof.
  revert s. induction ds as [|d ds IH]; intros s Hs; cbn; [by intros [= <-]|].
  intros (s1 & Ha & Hl)%bind_Ok. eapply (IH s1); [by eapply apply_wf|done].
Qed.

(** The order in which deltas arrive does not matter: applying a list of
    deltas and applying any rearrangement of it succeed together, with the same
    state, and the state stays well-formed. *)
Theorem compact_state_order_irrelevant ds ds' s r :
  state_wf s → ds ≡ₚ ds' → try_fold (λ d s, apply s d) ds s = Ok r →
  try_fold (λ d s, apply s d) ds' s = Ok r ∧ state_wf r.
Proof.
  intros Hs Hp. revert s r Hs. induction Hp as [|d l l' _ IH|d1 d2 l|l1 l2 l3 _ IH1 _ IH2]; intros s r Hs.
  - by intros [= <-].
  - cbn. rewrite !bind_Ok. intros (s1 & Hd & Hl). destruct (IH s1 r) as [Hl' Hr];
      [by eapply apply_wf|done|]. split; [|done]. by exists s1.
  - cbn. rewrite bind_Ok. intros (s1 & (t1 & Ht1 & Hc1 & ->)%apply_union & Hrest).
    apply bind_Ok in Hrest as (s2 & (t2 & Ht2 & Hc2 & ->)%apply_union & Hl).
    apply try_from_wf in Ht1 as Hw1. apply try_from_wf in Ht2 as Hw2.
    apply compatible_join in Hc2 as [Hc2 Hc12]; [|done].
    assert (Hsw : join (join s t1) t2 = join (join s t2) t1).
    { by rewrite !join_assoc, (join_comm t1 t2). }
    assert (Hcs : compatible (join s t2) t1).
    { apply compatible_join; [done|]. split; [done|by apply compatible_comm]. }
    rewrite Hsw in Hl. split.
    + apply bind_Ok. exists (join s t2). split; [apply apply_union; eauto|].
      apply bind_Ok. exists (join (join s t2) t1). split; [apply apply_union; eauto|done].
    + apply (applies_wf l (join (join s t2) t1)); [by auto using join_wf|done].
  - intros [Hl2 _]%IH1; [|done]. by apply IH2.
Qed.

(** *** Documents *)

(** What is derived for a delta: its text reads back, without a duplicate. *)
Class DeltaJsonLaws : Prop :=
  decode_text d : decode_wire (delta_text d) = Some (mk_StateDeltaWire (delta_sources d) false (delta_entries d)).

Context `{!DeltaJsonLaws}.

Lemma to_delta_try_from s : state_wf s → try_from (to_delta s) = Ok s.
Proof.
  intros Hs. apply try_from_Ok. split_and!; [by apply to_delta_ok|by apply values_coherent, Hs|].
  cbn. rewrite foldl_absorb_values by apply Hs. by destruct s.
Qed.

(** A state that any deltas built is well-formed - its entries are stored
    under the digests of what they say, cite non-empty ranges inside retained
    sources with the digest of the source, and link other entries only by valid
    digests - and its document reads back as exactly that state, so that the
    bytes identify it; the document's delta is the one accepted again. *)
Theorem compact_state_roundtrip ds s :
  try_fold (λ d s, apply s d) ds empty_state = Ok s →
  state_wf s ∧ from_json (to_json s) = Ok s ∧ read_delta (to_json s) = Some (to_delta s) ∧
  ∀ s', state_wf s' → to_json s' = to_json s → s' = s.
Proof.
  intros E. assert (Hs : state_wf s).
  { apply (applies_wf ds empty_state); [apply empty_state_wf|done]. }
  assert (Hread : ∀ s, state_wf s → from_json (to_json s) = Ok s).
  { intros s' Hs'. unfold from_json, to_json. rewrite decode_text. cbn. by apply to_delta_try_from. }
  split_and!; [done|by apply Hread| |].
  - unfold read_delta, to_json. rewrite decode_text. cbn.
    pose proof (to_delta_try_from s Hs) as Ht. destruct s. unfold to_delta in *. cbn in *. by rewrite Ht.
  - intros s' Hs' Eq. pose proof (Hread s' Hs') as Hr. rewrite Eq, (Hread s Hs) in Hr. congruence.
Qed.
End state.

(** ** Example *)

Section example.
#[local] Existing Instance ex_json_Z.
#[local] Instance ex_numbers : IntJson := λ z, z.
#[local] Instance ex_digest : Sha256 := λ s, s.

Definition kind_index (kind : EntryKind) : nat :=
  match kind with
  | Objective => 0 | Fact => 1 | Decision' => 2 | Constraint => 3 | PendingTask => 4
  | CompletedTask => 5 | FailedApproach => 6 | ArtifactEntry => 7 | OpenQuestion => 8
  | EnvironmentBinding => 9 | Proposal => 10 | Alternative => 11
  end.
Definition all_kinds : list EntryKind :=
  [Objective; Fact; Decision'; Constraint; PendingTask; CompletedTask; FailedApproach;
   ArtifactEntry; OpenQuestion; EnvironmentBinding; Proposal; Alternative].
#[local] Instance EntryKind_countable : Countable EntryKind.
Proof. refine (inj_countable kind_index (λ n, all_kinds !! n) _). by intros []. Defined.
#[local] Instance StateEntry_countable : Countable StateEntry.
Proof.
  refine (inj_countable' (λ e, (content e, provenance e, supersedes e, contradicts e))
    (λ '(k, s, i, t, p, u, c), mk_StateEntry k s i t p u c) _). by intros [].
Defined.

(** A delta as the numeral of its code. *)
#[local] Instance ex_deltas : DeltaJson := {
  delta_text d := to_text (Serde := countable_serde _) (delta_sources d, delta_entries d);
  decode_wire s :=
    (λ d, mk_StateDeltaWire (fst d) false (snd d)) <$> from_text (Serde := countable_serde _) s }.
#[local] Instance ex_deltas_laws : DeltaJsonLaws.
Proof.
  intros d. cbn [decode_wire delta_text ex_deltas].
  by rewrite (from_to (SerdeLaws := countable_serde_laws _)).
Qed.

Definition ex_hash : string :=
  "aaaaaaaaaaaaaaaaaaaaaaaaaaaaaaaaaaaaaaaaaaaaaaaaaaaaaaaaaaaaaaaa".
Definition ex_fact (start stop : Z) (links : gset string) : StateDelta :=
  mk_StateDelta {["log" := mk_SourceRecord ex_hash 10]}
    [mk_StateEntry Fact "build" "status" "the build passes"
       {[mk_SourceRef "log" ex_hash start stop]} ∅ links].
Definition ex_first : StateDelta := ex_fact 0 5 ∅.
Definition ex_second : StateDelta := ex_fact 5 10 {[ex_hash]}.
Definition ex_of (d : StateDelta) : CompactState :=
  match try_from d with Ok s => s | Err _ => empty_state end.
Definition ex_both : CompactState := join (ex_of ex_first) (ex_of ex_second).

Lemma ex_first_of : try_from ex_first = Ok (ex_of ex_first).
Proof. apply (bool_decide_unpack _). vm_compute. exact I. Qed.
Lemma ex_second_of : try_from ex_second = Ok (ex_of ex_second).
Proof. apply (bool_decide_unpack _). vm_compute. exact I. Qed.
Lemma ex_both_of : union (ex_of ex_first) (ex_of ex_second) = Ok ex_both.
Proof. apply (bool_decide_unpack _). vm_compute. exact I. Qed.
Lemma ex_applied : try_fold (λ d s, apply s d) [ex_first; ex_second] empty_state = Ok ex_both.
Proof. apply (bool_decide_unpack _). vm_compute. exact I. Qed.

Lemma compact_state_union_lattice_witness :
  union (ex_of ex_second) (ex_of ex_first) = Ok ex_both ∧ below (ex_of ex_first) ex_both.
Proof.
  pose proof (compact_state_union_lattice (ex_of ex_first) (ex_of ex_second) empty_state
    (try_from_wf _ _ ex_first_of) (try_from_wf _ _ ex_second_of) empty_state_wf)
    as (_ & Hcomm & _ & Hleast & _).
  exact (conj (proj1 (Hcomm ex_both) ex_both_of) (proj1 (Hleast ex_both ex_both_of))).
Defined.

Lemma compact_state_order_irrelevant_witness :
  try_fold (λ d s, apply s d) [ex_second; ex_first] empty_state = Ok ex_both.
Proof.
  exact (proj1 (compact_state_order_irrelevant [ex_first; ex_second] [ex_second; ex_first]
    empty_state ex_both empty_state_wf (perm_swap _ _ _) ex_applied)).
Defined.

Lemma compact_state_roundtrip_witness : from_json (to_json ex_both) = Ok ex_both.
Proof.
  exact (proj1 (proj2 (compact_state_roundtrip [ex_first; ex_second] ex_both ex_applied))).
Defined.
End example.
