(* ===== verification/Checkpoint.v ===== *)
(** * Durable checkpoints

    [workflow-runtime/src/checkpoint.rs]: the compatibility manifest, the
    bounded checkpoint row and the run-scoped SQLite store.  SQLite and the
    file system are not modelled beyond what the store relies on: a manifest
    file and two tables ([Storage]), a transaction that is applied as a whole,
    and every call's outcome in an environment record. *)

From S2P Require Import Prelude.
From S2P Require Import Runtime.
From S2P Require Import Json.
From S2P Require Import Serde.
From S2P Require Import Event.

(*| runtime/checkpoint.rs 70-85 CheckpointErrorKind *)
Inductive CheckpointErrorKind :=
| EmptyState | Unavailable | ManifestMismatch | Corrupt | UnknownVersion | RunMismatch
| InsecurePath.

#[export] Instance CheckpointErrorKind_eq_dec : EqDecision CheckpointErrorKind.
Proof. solve_decision. Defined.

Definition CHECKPOINT_SCHEMA_VERSION : Z := 1.
Definition CHECKPOINT_MAX_STATE_BYTES : Z := 1024 * 1024.
Definition i64_max : Z := 2 ^ 63 - 1.

(** ** The compatibility manifest *)

(*| runtime/checkpoint.rs 128-138 CheckpointCompatibilityManifestV1 *)
Record CheckpointManifestV1 := mk_Manifest {
  schema_version : Z;
  manifest_run_id : string;
  workflow_id : string;
  workflow_version : string;
  workflow_hash : string;
  resource_hashes : gmap string string;
  implementation_identities : gmap string string;
  sandbox_policy_hash : string;
  event_log_identity : string
}.

#[export] Instance CheckpointManifestV1_eq_dec : EqDecision CheckpointManifestV1.
Proof. solve_decision. Defined.

(*| runtime/checkpoint.rs 145-161 CheckpointCompatibilityManifestV1::new *)
Definition CheckpointManifestV1_new (run_id : RunId) (workflow_id workflow_version : string) :
    CheckpointManifestV1 :=
  mk_Manifest CHECKPOINT_SCHEMA_VERSION (run_id_str run_id) workflow_id workflow_version "" ∅ ∅ "" "".

(*| runtime/checkpoint.rs 164-167 CheckpointCompatibilityManifestV1::with_schema_version *)
Definition with_schema_version (v : Z) (m : CheckpointManifestV1) : CheckpointManifestV1 :=
  mk_Manifest v (manifest_run_id m) (workflow_id m) (workflow_version m) (workflow_hash m)
    (resource_hashes m) (implementation_identities m) (sandbox_policy_hash m)
    (event_log_identity m).

(*| runtime/checkpoint.rs 170-173 CheckpointCompatibilityManifestV1::with_workflow_hash *)
Definition with_workflow_hash (hash : string) (m : CheckpointManifestV1) : CheckpointManifestV1 :=
  mk_Manifest (schema_version m) (manifest_run_id m) (workflow_id m) (workflow_version m) hash
    (resource_hashes m) (implementation_identities m) (sandbox_policy_hash m)
    (event_log_identity m).

(*| runtime/checkpoint.rs 176-183 CheckpointCompatibilityManifestV1::with_resource_hash *)
Definition with_resource_hash (resource hash : string) (m : CheckpointManifestV1) :
    CheckpointManifestV1 :=
  mk_Manifest (schema_version m) (manifest_run_id m) (workflow_id m) (workflow_version m)
    (workflow_hash m) (<[resource := hash]> (resource_hashes m)) (implementation_identities m)
    (sandbox_policy_hash m) (event_log_identity m).

(*| runtime/checkpoint.rs 186-194 CheckpointCompatibilityManifestV1::with_implementation *)
Definition with_implementation (name identity : string) (m : CheckpointManifestV1) :
    CheckpointManifestV1 :=
  mk_Manifest (schema_version m) (manifest_run_id m) (workflow_id m) (workflow_version m)
    (workflow_hash m) (resource_hashes m) (<[name := identity]> (implementation_identities m))
    (sandbox_policy_hash m) (event_log_identity m).

(*| runtime/checkpoint.rs 197-200 CheckpointCompatibilityManifestV1::with_sandbox_policy_hash *)
Definition with_sandbox_policy_hash (hash : string) (m : CheckpointManifestV1) :
    CheckpointManifestV1 :=
  mk_Manifest (schema_version m) (manifest_run_id m) (workflow_id m) (workflow_version m)
    (workflow_hash m) (resource_hashes m) (implementation_identities m) hash
    (event_log_identity m).

(*| runtime/checkpoint.rs 203-206 CheckpointCompatibilityManifestV1::with_event_log_identity *)
Definition with_event_log_identity (identity : string) (m : CheckpointManifestV1) :
    CheckpointManifestV1 :=
  mk_Manifest (schema_version m) (manifest_run_id m) (workflow_id m) (workflow_version m)
    (workflow_hash m) (resource_hashes m) (implementation_identities m) (sandbox_policy_hash m)
    identity.

(*| runtime/checkpoint.rs 209-211 CheckpointCompatibilityManifestV1::implementation *)
Definition implementation (name : string) (m : CheckpointManifestV1) : option string :=
  implementation_identities m !! name.

(** ** Checkpoints *)

Section checkpoint.
Context `{JsonText} `{!Serde Value} `{!Serde CheckpointManifestV1} `{!Serde (list string)}.

(*| runtime/checkpoint.rs 17-20 Checkpoint *)
Record Checkpoint := mk_Checkpoint { cp_run_id : RunId; cp_state : string }.

(*| runtime/checkpoint.rs 41-46 Checkpoint::new *)
Definition Checkpoint_new (run_id : RunId) (state : string) :
    result CheckpointErrorKind Checkpoint :=
  if str_is_empty state then Err EmptyState else Ok (mk_Checkpoint run_id state).

(*| runtime/checkpoint.rs 226-232 DurableCheckpointV1 *)
Record DurableCheckpointV1 := mk_DurableCheckpoint {
  dc_run_id : RunId;
  node_id : string;
  event_sequence : Z;
  dc_state : string;
  artifact_refs : list string
}.

(*| runtime/checkpoint.rs 234-243 contains_redaction_marker *)
Fixpoint contains_redaction_marker (value : Value) : bool :=
  match value with
  | Object object =>
      existsb (λ e, str_eqb (fst e) REDACTION_MARKER || contains_redaction_marker (snd e)) object
  | Array values => existsb contains_redaction_marker values
  | VString s => str_eqb s REDACTION_MARKER
  | _ => false
  end.

(*| runtime/checkpoint.rs 247-279 DurableCheckpointV1::new *)
Definition DurableCheckpointV1_new (run_id : RunId) (node_id : string) (event_sequence : Z)
    (state : string) (artifact_refs : list string) :
    result CheckpointErrorKind DurableCheckpointV1 :=
  if match from_text (A := Value) state with
     | Some value => contains_sensitive_key value || contains_redaction_marker value
     | None => false
     end
  then Err Unavailable
  else if str_is_empty state then Err EmptyState
  else if (CHECKPOINT_MAX_STATE_BYTES <? str_len state)%Z then Err Unavailable
  else Ok (mk_DurableCheckpoint run_id node_id event_sequence state artifact_refs).

(** ** The store *)

(** One row of [kit_checkpoints], keyed by its run. *)
Record row := mk_row {
  row_node_id : string; row_event_sequence : Z; row_state : string; row_refs : string
}.

(** The database: the row of [kit_checkpoint_meta] and the checkpoints.  A
    database file without its tables is the empty database, since [open]
    creates missing tables. *)
Record Database := mk_Database {
  meta : option (Z * string);
  checkpoints : gmap string row
}.

(** What the store touches in the run directory. *)
Record Storage := mk_Storage {
  manifest_file : option string;
  database : option Database
}.

Definition set_database (d : Database) (s : Storage) : Storage :=
  mk_Storage (manifest_file s) (Some d).

(** The outcomes of one [open]: the two path checks, the accesses to the
    manifest file, and what SQLite answers ([None] when it succeeds). *)
Record OpenEnv := mk_OpenEnv {
  parent_secure : bool;
  manifest_secure : bool;
  manifest_readable : bool;
  manifest_renamed : bool;
  manifest_synced : bool;
  connect_fault : option CheckpointErrorKind;
  schema_fault : option CheckpointErrorKind;
  query_fault : option CheckpointErrorKind;
  insert_fault : option CheckpointErrorKind;
  directory_synced : bool
}.

(** [map_sqlite_error(..)?]. *)
Definition sqlite (fault : option CheckpointErrorKind) : result CheckpointErrorKind unit :=
  match fault with None => Ok tt | Some e => Err e end.

(*| runtime/checkpoint.rs 304-309 SqliteCheckpointStore *)
Record SqliteCheckpointStore := mk_Store {
  manifest : CheckpointManifestV1;
  fail_saves : bool
}.

(*| runtime/checkpoint.rs 551-564 validate_manifest *)
Definition validate_manifest (bytes : string) (expected : CheckpointManifestV1) :
    result CheckpointErrorKind unit :=
  match from_text bytes with
  | None => Err Corrupt
  | Some persisted =>
      if negb (schema_version persisted =? CHECKPOINT_SCHEMA_VERSION)%Z then Err UnknownVersion
      else if negb (bool_decide (persisted = expected)) then Err ManifestMismatch
      else Ok tt
  end.

(*| runtime/checkpoint.rs 605-636 write_manifest *)
Definition write_manifest (env : OpenEnv) (m : CheckpointManifestV1) :
    method Storage CheckpointErrorKind unit := λ s,
  let s := if manifest_renamed env then mk_Storage (Some (to_text m)) (database s) else s in
  (s, if manifest_renamed env && manifest_synced env then Ok tt else Err Unavailable).

(*| runtime/checkpoint.rs 378-385 SqliteCheckpointStore::open *)
Definition open_manifest (env : OpenEnv) (m : CheckpointManifestV1) :
    method Storage CheckpointErrorKind unit := λ s,
  match manifest_file s with
  | Some bytes =>
      if negb (manifest_readable env) then (s, Err Corrupt)
      else (s, validate_manifest bytes m)
  | None => write_manifest env m s
  end.

(** [Connection::open] followed by [CREATE TABLE IF NOT EXISTS]. *)
Definition create_tables (s : Storage) : Storage :=
  set_database (default (mk_Database None ∅) (database s)) s.

(*| runtime/checkpoint.rs 408-436 SqliteCheckpointStore::open *)
Definition open_meta (env : OpenEnv) (m : CheckpointManifestV1) :
    method Storage CheckpointErrorKind unit := λ s,
  match sqlite (query_fault env) with
  | Err e => (s, Err e)
  | Ok _ =>
      match database s with
      | None => (s, Err Unavailable)
      | Some d =>
          match meta d with
          | Some (version, json) =>
              (s, if negb (version =? CHECKPOINT_SCHEMA_VERSION)%Z then Err UnknownVersion
                  else match from_text json with
                       | None => Err Corrupt
                       | Some persisted =>
                           if bool_decide (persisted = m) then Ok tt else Err ManifestMismatch
                       end)
          | None =>
              match sqlite (insert_fault env) with
              | Err e => (s, Err e)
              | Ok _ =>
                  (set_database (mk_Database (Some (CHECKPOINT_SCHEMA_VERSION, to_text m))
                                   (checkpoints d)) s, Ok tt)
              end
          end
      end
  end.

(*| runtime/checkpoint.rs 368-452 SqliteCheckpointStore::open *)
Definition open (env : OpenEnv) (m : CheckpointManifestV1) :
    method Storage CheckpointErrorKind SqliteCheckpointStore := λ s,
  if negb (schema_version m =? CHECKPOINT_SCHEMA_VERSION)%Z then (s, Err UnknownVersion)
  else if negb (parent_secure env) || negb (manifest_secure env) then (s, Err InsecurePath)
  else match open_manifest env m s with
  | (s, Err e) => (s, Err e)
  | (s, Ok _) =>
      let created_database := negb (is_some (database s)) in
      match sqlite (connect_fault env) with
      | Err e => (s, Err e)
      | Ok _ =>
          let s := create_tables s in
          match sqlite (schema_fault env) with
          | Err e => (s, Err e)
          | Ok _ =>
              match open_meta env m s with
              | (s, Err e) => (s, Err e)
              | (s, Ok _) =>
                  if created_database && negb (directory_synced env) then (s, Err Unavailable)
                  else (s, Ok (mk_Store m false))
              end
          end
      end
  end.

(*| runtime/checkpoint.rs 455-462 SqliteCheckpointStore::failing_saves *)
Definition failing_saves (env : OpenEnv) (m : CheckpointManifestV1) :
    method Storage CheckpointErrorKind SqliteCheckpointStore :=
  store ← open env m; mret (mk_Store (manifest store) true).

(*| runtime/checkpoint.rs 321-365 SqliteCheckpointStore::open_read_only *)
Definition open_read_only (env : OpenEnv) (m : CheckpointManifestV1) (s : Storage) :
    result CheckpointErrorKind SqliteCheckpointStore :=
  if negb (schema_version m =? CHECKPOINT_SCHEMA_VERSION)%Z then Err UnknownVersion
  else if negb (parent_secure env) || negb (manifest_secure env) then Err InsecurePath
  else match manifest_file s with
  | None => Err Unavailable
  | Some bytes =>
      if negb (manifest_readable env) then Err Unavailable
      else
        validate_manifest bytes m;;
        sqlite (connect_fault env);;
        sqlite (query_fault env);;
        match database s ≫= meta with
        | None => Err Unavailable
        | Some (version, json) =>
            if negb (version =? CHECKPOINT_SCHEMA_VERSION)%Z then Err UnknownVersion
            else validate_manifest json m;; sqlite (schema_fault env);; Ok (mk_Store m false)
        end
  end.

(** How the transaction of a save ends: an error that SQLite reports from
    [commit] may leave the row stored or not. *)
Inductive tx :=
| Committed
| Aborted (applied : bool) (e : CheckpointErrorKind).

(*| runtime/checkpoint.rs 475-511 SqliteCheckpointStore::save_checkpoint *)
Definition save_checkpoint (t : tx) (store : SqliteCheckpointStore) (c : DurableCheckpointV1) :
    method Storage CheckpointErrorKind unit := λ s,
  if fail_saves store then (s, Err Unavailable)
  else match RunId_new (manifest_run_id (manifest store)) with
  | Err _ => (s, Err Corrupt)
  | Ok run_id =>
      if negb (bool_decide (dc_run_id c = run_id)) then (s, Err RunMismatch)
      else if (i64_max <? event_sequence c)%Z then (s, Err Unavailable)
      else
        let d := default (mk_Database None ∅) (database s) in
        let stored := set_database
          (mk_Database (meta d)
             (<[run_id_str (dc_run_id c) :=
                  mk_row (node_id c) (event_sequence c) (dc_state c)
                    (to_text (artifact_refs c))]> (checkpoints d))) s in
        match t with
        | Committed => (stored, Ok tt)
        | Aborted applied e => (if applied then stored else s, Err e)
        end
  end.

(*| runtime/checkpoint.rs 514-548 SqliteCheckpointStore::load_latest *)
Definition load_latest (fault : option CheckpointErrorKind) (run_id : RunId) (s : Storage) :
    result CheckpointErrorKind (option DurableCheckpointV1) :=
  sqlite fault;;
  match database s with
  | None => Ok None
  | Some d =>
      match checkpoints d !! run_id_str run_id with
      | None => Ok None
      | Some r =>
          stored_run_id ← map_err (λ _, Corrupt) (RunId_new (run_id_str run_id));
          if negb (bool_decide (stored_run_id = run_id)) || (row_event_sequence r <? 0)%Z
          then Err Corrupt
          else match from_text (row_refs r) with
          | None => Err Corrupt
          | Some refs =>
              Some <$> map_err (λ _, Corrupt)
                (DurableCheckpointV1_new stored_run_id (row_node_id r) (row_event_sequence r)
                   (row_state r) refs)
          end
      end
  end.

(*| runtime/checkpoint.rs 567-571 CheckpointBackend::load *)
Definition backend_load (fault : option CheckpointErrorKind) (run_id : RunId) (s : Storage) :
    result CheckpointErrorKind (option Checkpoint) :=
  latest ← load_latest fault run_id s;
  match latest with
  | None => Ok None
  | Some c => Some <$> Checkpoint_new (dc_run_id c) (dc_state c)
  end.

(*| runtime/checkpoint.rs 573-581 CheckpointBackend::save *)
Definition backend_save (t : tx) (store : SqliteCheckpointStore) (c : Checkpoint) :
    method Storage CheckpointErrorKind unit := λ s,
  match DurableCheckpointV1_new (cp_run_id c) "checkpoint" 0 (cp_state c) [] with
  | Err e => (s, Err e)
  | Ok c => save_checkpoint t store c s
  end.

(** One operation on the run directory: opening it, or saving through a store
    that was just opened, whatever the outcome. *)
Inductive storage_step : Storage → Storage → Prop :=
| step_open env m s s' r : open env m s = (s', r) → storage_step s s'
| step_save env m t store c s s1 s' r :
    open env m s = (s1, Ok store) → save_checkpoint t store c s1 = (s', r) → storage_step s s'.

Definition empty_storage : Storage := mk_Storage None None.
End checkpoint.

(** ** What a checkpoint is *)

Section theorems.
Context `{JsonText} `{!Serde Value} `{!Serde CheckpointManifestV1} `{!Serde (list string)}.
Context `{!SerdeLaws CheckpointManifestV1 id} `{!SerdeLaws (list string) id}.
Implicit Types (s : Storage) (m : CheckpointManifestV1) (c : DurableCheckpointV1).

(** The content a stored state may have: bounded, not empty, and, where it is
    JSON, without secrets or redacted text. *)
Definition admissible_state (state : string) : Prop :=
  state ≠ "" ∧ (str_len state ≤ CHECKPOINT_MAX_STATE_BYTES)%Z ∧
  ∀ value, from_text state = Some value →
    contains_sensitive_key value = false ∧ contains_redaction_marker value = false.

Lemma DurableCheckpointV1_new_Ok rid node sequence state refs c :
  DurableCheckpointV1_new rid node sequence state refs = Ok c ↔
  c = mk_DurableCheckpoint rid node sequence state refs ∧ admissible_state state.
Proof.
  unfold DurableCheckpointV1_new, admissible_state. rewrite !guard_Ok.
  rewrite str_is_empty_false, Z.ltb_ge.
  assert (match from_text (A := Value) state with
    | Some value => contains_sensitive_key value || contains_redaction_marker value
    | None => false end = false ↔
    ∀ value, from_text state = Some value →
      contains_sensitive_key value = false ∧ contains_redaction_marker value = false) as ->.
  { destruct (from_text state) as [v|]; [rewrite orb_false_iff|]; naive_solver. }
  naive_solver.
Qed.

(** ** The store *)

(** The manifest a directory belongs to, and what its database may hold. *)
Record bound_to m s : Prop := {
  bound_file : manifest_file s = Some (to_text m);
  bound_schema : schema_version m = CHECKPOINT_SCHEMA_VERSION;
  bound_meta d x : database s = Some d → meta d = Some x →
    x = (CHECKPOINT_SCHEMA_VERSION, to_text m);
  bound_rows d rid : database s = Some d → is_Some (checkpoints d !! rid) →
    rid = manifest_run_id m
}.

Definition untouched s : Prop := manifest_file s = None ∧ database s = None.

Lemma validate_manifest_Ok m m' :
  validate_manifest (to_text m') m = Ok tt ↔
  m' = m ∧ schema_version m = CHECKPOINT_SCHEMA_VERSION.
Proof.
  unfold validate_manifest. rewrite from_to, !guard_Ok, negb_false_iff, Z.eqb_eq,
    negb_false_iff, bool_decide_eq_true. unfold id. naive_solver.
Qed.

Lemma open_manifest_spec env m s s' r :
  open_manifest env m s = (s', r) → schema_version m = CHECKPOINT_SCHEMA_VERSION →
  (∀ m0, bound_to m0 s → s' = s ∧ (r = Ok tt → m = m0)) ∧
  (untouched s → (untouched s' ∧ r ≠ Ok tt) ∨ bound_to m s' ∧ database s' = None).
Proof.
  intros E Hm. unfold open_manifest in E. split.
  - intros m0 [Hf _ _ _]. rewrite Hf in E.
    destruct (manifest_readable env); cbn in E; [|by injection E as <- <-].
    injection E as <- <-. split; [done|]. by intros [-> _]%validate_manifest_Ok.
  - intros [Hf Hd]. rewrite Hf in E. unfold write_manifest in E. injection E as <- <-.
    destruct (manifest_renamed env); cbn; [|by left; split].
    right. split; [|done]. split; cbn; [done..| |]; by rewrite Hd.
Qed.

Lemma open_meta_spec env m s s' r :
  open_meta env m s = (s', r) → bound_to m s → bound_to m s'.
Proof.
  intros E Hb. unfold open_meta in E.
  destruct (sqlite (query_fault env)); [|by injection E as <- <-].
  destruct (database s) as [d|] eqn:Hd; [|by injection E as <- <-].
  destruct (meta d) as [[v j]|]; [by injection E as <- <-|].
  destruct (sqlite (insert_fault env)); [|by injection E as <- <-].
  injection E as <- <-. destruct Hb as [Hf Hs Hm Hr]. split; cbn; [done..| |].
  - by intros d' x [= <-] [= <-].
  - intros d' rid [= <-]. cbn. by apply Hr.
Qed.

Lemma create_tables_bound m s : bound_to m s → bound_to m (create_tables s).
Proof.
  intros [Hf Hs Hm Hr]. split; cbn; [done..| |].
  - intros d x [= <-]. destruct (database s) as [d|] eqn:Hd; [by apply Hm|done].
  - intros d rid [= <-]. destruct (database s) as [d|] eqn:Hd; [by apply Hr|].
    cbn. rewrite lookup_empty. by intros [].
Qed.

Lemma open_spec env m s s' r :
  open env m s = (s', r) →
  (∀ m0, bound_to m0 s → bound_to m0 s' ∧ (∀ store, r = Ok store → m = m0)) ∧
  (untouched s → untouched s' ∧ (∀ store, r ≠ Ok store) ∨ bound_to m s').
Proof.
  intros E. unfold open in E.
  case_match eqn:Hv; [injection E as <- <-; split; [by intros|by left]|].
  apply negb_false_iff, Z.eqb_eq in Hv.
  case_match eqn:Hsec; [injection E as <- <-; split; [by intros|by left]|].
  destruct (open_manifest env m s) as [s1 [[]|e]] eqn:Em;
    apply open_manifest_spec in Em as [Hb Hu]; [..|done| |done].
  2:{ injection E as <- <-. split.
      - intros m0 H0. by destruct (Hb m0 H0) as [-> _].
      - intros H0. destruct (Hu H0) as [[? _]|[? _]]; [by left|by right]. }
  assert (Hs1 : ∀ m0, bound_to m0 s → m = m0) by (intros m0 H0; by apply (Hb m0 H0)).
  assert (Hm1 : (∃ m0, bound_to m0 s) ∨ untouched s → bound_to m s1).
  { intros [[m0 H0]|H0].
    - rewrite (Hs1 m0 H0). by destruct (Hb m0 H0) as [-> _].
    - by destruct (Hu H0) as [[_ ?]|[? _]]. }
  assert (Hgoal : ((∃ m0, bound_to m0 s) ∨ untouched s → bound_to m s') →
    (∀ m0, bound_to m0 s → bound_to m0 s' ∧ (∀ store, r = Ok store → m = m0)) ∧
    (untouched s → untouched s' ∧ (∀ store, r ≠ Ok store) ∨ bound_to m s')).
  { intros Hm'. split; [|by right; apply Hm'; right].
    intros m0 H0. rewrite <- (Hs1 m0 H0). split; [|done]. apply Hm'. left. by exists m0. }
  apply Hgoal. intros Hpre. apply Hm1 in Hpre.
  destruct (sqlite (connect_fault env)); [|by injection E as <- <-].
  apply create_tables_bound in Hpre.
  destruct (sqlite (schema_fault env)); [|by injection E as <- <-].
  destruct (open_meta env m (create_tables s1)) as [s2 [[]|e]] eqn:Eo;
    apply open_meta_spec in Eo; [..|done| |done]; [|by injection E as <- <-].
  case_match; by injection E as <- <-.
Qed.

Lemma open_store env m s s' store :
  open env m s = (s', Ok store) → store = mk_Store m false.
Proof.
  unfold open. intros E. repeat case_match; by simplify_eq.
Qed.

(** *** Saving and loading *)

Definition stored (s : Storage) (rid : RunId) : option row :=
  d ← database s; checkpoints d !! run_id_str rid.

(** Opening a directory does not touch its checkpoints. *)
Lemma open_stored env m s s' r rid : open env m s = (s', r) → stored s' rid = stored s rid.
Proof.
  assert (Hm : ∀ env m s s' r, open_manifest env m s = (s', r) → stored s' rid = stored s rid).
  { intros env0 m0 s0 s0' r0. unfold open_manifest, write_manifest. intros E.
    repeat case_match; by simplify_eq. }
  assert (Ht : ∀ s, stored (create_tables s) rid = stored s rid).
  { intros s0. unfold stored. cbn. by destruct (database s0). }
  assert (Ho : ∀ env m s s' r, open_meta env m s = (s', r) → stored s' rid = stored s rid).
  { intros env0 m0 s0 s0' r0. unfold open_meta. intros E. unfold stored.
    destruct (database s0) eqn:Hd; repeat case_match; simplify_eq; cbn; by rewrite ?Hd. }
  unfold open. intros E.
  repeat case_match; simplify_eq;
    repeat match goal with
    | H : open_meta _ _ _ = _ |- _ => apply Ho in H
    | H : open_manifest _ _ _ = _ |- _ => apply Hm in H
    end; rewrite ?Ht in *; congruence.
Qed.

Definition row_of c : row :=
  mk_row (node_id c) (event_sequence c) (dc_state c) (to_text (artifact_refs c)).

Lemma save_checkpoint_spec t m c s s' r :
  save_checkpoint t (mk_Store m false) c s = (s', r) →
  (r = Ok tt → t = Committed) ∧
  (s' = s ∧ r ≠ Ok tt ∨
   run_id_str (dc_run_id c) = manifest_run_id m ∧ run_id_str (dc_run_id c) ≠ "" ∧
   (event_sequence c ≤ i64_max)%Z ∧ (r = Ok tt ∨ ∃ e, t = Aborted true e) ∧
   manifest_file s' = manifest_file s ∧
   (∃ d', database s' = Some d' ∧ meta d' = database s ≫= meta) ∧
   ∀ rid, stored s' rid =
     if decide (rid = dc_run_id c) then Some (row_of c) else stored s rid).
Proof.
  unfold save_checkpoint. cbn [fail_saves manifest]. intros E.
  destruct (RunId_new (manifest_run_id m)) as [rid|] eqn:Hrid; [|simplify_eq; split; [done|by left]].
  unfold RunId_new in Hrid. apply guard_Ok in Hrid as [Hne [= <-]].
  apply str_is_empty_false in Hne.
  case_match eqn:Hr; [simplify_eq; split; [done|by left]|].
  apply negb_false_iff, bool_decide_eq_true in Hr.
  case_match eqn:Hs; [simplify_eq; split; [done|by left]|]. apply Z.ltb_ge in Hs.
  set (d := default (mk_Database None ∅) (database s)) in *.
  match type of E with context [set_database ?x s] => set (d' := x) in * end.
  assert (Hst : ∀ rid, stored (set_database d' s) rid =
    if decide (rid = dc_run_id c) then Some (row_of c) else stored s rid).
  { intros rid. unfold stored. cbn. case_decide as Hd.
    - subst rid. by rewrite lookup_insert_eq.
    - rewrite lookup_insert_ne.
      + subst d. by destruct (database s).
      + intros Heq. apply Hd. destruct rid, (dc_run_id c). cbn in Heq. by subst. }
  assert (Hmeta : meta d' = database s ≫= meta) by (subst d' d; by destruct (database s)).
  rewrite Hr in *. cbn in *.
  destruct t as [|[] e]; simplify_eq; (split; [done|]).
  - right. split_and!; [done..| |done| |done]; [by left|by eexists].
  - right. split_and!; [done..| |done| |done]; [by right; eexists|by eexists].
  - by left.
Qed.

Lemma save_bound t m c s s' r :
  save_checkpoint t (mk_Store m false) c s = (s', r) → bound_to m s → bound_to m s'.
Proof.
  intros [_ [[-> _]|(Hid & _ & _ & _ & Hf & (d' & Hd' & Hm') & Hst)]]%save_checkpoint_spec;
    [done|]. intros [Hb Hs Hm Hr]. split; [by rewrite Hf|done| |].
  - intros d x Hd Hx. rewrite Hd' in Hd. injection Hd as <-. rewrite Hm' in Hx.
    destruct (database s) as [d|] eqn:Ed; [|done]. by apply (Hm d).
  - intros d rid Hd Hrow. specialize (Hst (mk_RunId rid)). unfold stored in Hst.
    rewrite Hd in Hst. cbn in Hst. case_decide as Hc.
    + by rewrite <- Hid, <- Hc.
    + destruct (database s) as [d0|] eqn:Ed; cbn in Hst.
      * apply (Hr d0); [done|]. by rewrite <- Hst.
      * rewrite Hst in Hrow. by destruct Hrow.
Qed.

(** What [load_latest] makes of a row. *)
Lemma load_latest_stored s rid :
  run_id_str rid ≠ "" →
  load_latest None rid s =
    match stored s rid with
    | None => Ok None
    | Some r =>
        if (row_event_sequence r <? 0)%Z then Err Corrupt
        else match from_text (row_refs r) with
        | None => Err Corrupt
        | Some refs => Some <$> map_err (λ _, Corrupt)
            (DurableCheckpointV1_new rid (row_node_id r) (row_event_sequence r) (row_state r) refs)
        end
    end.
Proof.
  intros Hne. unfold load_latest, stored. cbn. destruct (database s) as [d|]; cbn; [|done].
  destruct (checkpoints d !! run_id_str rid) as [r|]; [|done].
  unfold RunId_new. apply str_is_empty_false in Hne. rewrite Hne. cbn.
  destruct rid as [i]. by rewrite bool_decide_true.
Qed.

Lemma load_row c s :
  stored s (dc_run_id c) = Some (row_of c) → run_id_str (dc_run_id c) ≠ "" →
  (0 ≤ event_sequence c)%Z → admissible_state (dc_state c) →
  load_latest None (dc_run_id c) s = Ok (Some c).
Proof.
  intros Hst Hne Hseq Hadm. rewrite (load_latest_stored _ _ Hne), Hst. cbn.
  assert ((event_sequence c <? 0)%Z = false) as -> by (apply Z.ltb_ge; lia).
  rewrite from_to. unfold id.
  rewrite (proj2 (DurableCheckpointV1_new_Ok _ _ _ _ _ c)); [done|]. by destruct c.
Qed.

#[local] Arguments load_latest : simpl never.

(** ** The properties *)

(** C7. A checkpoint that was saved is the one the run resumes from, and a save
    is atomic: whatever SQLite answers, what [load_latest] then returns for the
    run is the new checkpoint or exactly what it returned before, never a
    mixture; a reported success is the new one (run, node, sequence, state and
    artifact references unchanged), and another run's checkpoint is not
    touched. *)
Theorem checkpoint_save_atomic env m s0 s store t c s' r rid node sequence state refs :
  open env m s0 = (s, Ok store) →
  DurableCheckpointV1_new rid node sequence state refs = Ok c → (0 ≤ sequence)%Z →
  run_id_str rid ≠ "" →
  save_checkpoint t store c s = (s', r) →
  (load_latest None rid s' = Ok (Some c) ∨
   r ≠ Ok tt ∧ load_latest None rid s' = load_latest None rid s) ∧
  (r = Ok tt → load_latest None rid s' = Ok (Some c) ∧ run_id_str rid = manifest_run_id m) ∧
  (∀ other, run_id_str other ≠ "" → other ≠ rid →
     load_latest None other s' = load_latest None other s).
Proof.
  intros ->%open_store [-> Hadm]%DurableCheckpointV1_new_Ok Hseq Hne
    [_ [[-> Hr]|(Hid & _ & _ & _ & _ & _ & Hst)]]%save_checkpoint_spec; cbn in *.
  - split_and!; [by right|done|done].
  - assert (Hload : load_latest None rid s' =
      Ok (Some (mk_DurableCheckpoint rid node sequence state refs))).
    { apply (load_row (mk_DurableCheckpoint rid node sequence state refs)); cbn; [|done..].
      rewrite Hst. by rewrite decide_True. }
    split_and!; [by left|done|]. intros other Ho Hneq.
    rewrite !load_latest_stored, Hst by done. by rewrite decide_False.
Qed.

Lemma storage_step_inv s s' :
  storage_step s s' →
  (∀ m, bound_to m s → bound_to m s') ∧ (untouched s → untouched s' ∨ ∃ m, bound_to m s').
Proof.
  intros [env m s0 s1 r E|env m t store c s0 s1 s2 r Eo Es].
  - apply open_spec in E as [Hb Hu]. split; [intros m0 H0; by apply (Hb m0)|].
    intros [[? _]|?]%Hu; [by left|right; by exists m].
  - pose proof (open_store _ _ _ _ _ Eo) as ->. apply open_spec in Eo as [Hb Hu]. split.
    + intros m0 H0. destruct (Hb m0 H0) as [H1 Hm]. rewrite (Hm _ eq_refl) in Es.
      by apply save_bound in Es.
    + intros [[_ Hno]|H1]%Hu; [by destruct (Hno _ eq_refl)|].
      right. exists m. by apply save_bound in Es.
Qed.

Lemma storage_steps_bound m s s' : rtc storage_step s s' → bound_to m s → bound_to m s'.
Proof. induction 1 as [|s1 s2 s3 Hstep _ IH]; [done|]. intros Hb. by apply IH, (storage_step_inv s1 s2). Qed.

Lemma storage_steps_reach s s' :
  rtc storage_step s s' → untouched s → untouched s' ∨ ∃ m, bound_to m s'.
Proof.
  induction 1 as [|s1 s2 s3 Hstep Hsteps IH]; [by left|].
  intros [Hu|[m Hb]]%(storage_step_inv s1 s2 Hstep); [auto|].
  right. exists m. by apply (storage_steps_bound m s2).
Qed.

End theorems.

(** ** Examples *)

Section examples.
#[local] Existing Instance ex_json_Z.

#[local] Instance ex_value_serde : Serde Value := {| to_text := compact; from_text _ := None |}.
#[local] Instance ex_manifest_countable : Countable CheckpointManifestV1.
Proof.
  refine (inj_countable'
    (λ m, (schema_version m, manifest_run_id m, workflow_id m, workflow_version m, workflow_hash m,
           resource_hashes m, implementation_identities m, sandbox_policy_hash m,
           event_log_identity m))
    (λ '(a, b, c, d, e, f, g, h, i), mk_Manifest a b c d e f g h i) _).
  by intros [].
Defined.
#[local] Instance ex_manifest_serde : Serde CheckpointManifestV1 := countable_serde _.
#[local] Instance ex_strings_serde : Serde (list string) := countable_serde _.
#[local] Instance ex_manifest_laws : SerdeLaws CheckpointManifestV1 id := countable_serde_laws _.
#[local] Instance ex_strings_laws : SerdeLaws (list string) id := countable_serde_laws _.

Definition ex_open : OpenEnv := mk_OpenEnv true true true true true None None None None true.
Definition ex_manifest : CheckpointManifestV1 :=
  with_workflow_hash "h" (CheckpointManifestV1_new (mk_RunId "run") "w" "1").
Definition ex_opened : Storage := fst (open ex_open ex_manifest empty_storage).
Definition ex_checkpoint : DurableCheckpointV1 :=
  mk_DurableCheckpoint (mk_RunId "run") "node" 3 "state" ["a"].
Definition ex_saved : Storage :=
  fst (save_checkpoint Committed (mk_Store ex_manifest false) ex_checkpoint ex_opened).

Lemma checkpoint_save_atomic_witness :
  load_latest None (mk_RunId "run") ex_saved = Ok (Some ex_checkpoint).
Proof.
  refine (proj1 (proj1 (proj2 (checkpoint_save_atomic ex_open ex_manifest empty_storage ex_opened
    (mk_Store ex_manifest false) Committed ex_checkpoint ex_saved (Ok tt) (mk_RunId "run")
    "node" 3 "state" ["a"] _ _ _ _ _)) _)); [by vm_compute..|done|done].
Defined.

End examples.
