(* ===== verification/Firewall.v ===== *)
(** * The tool firewall

    [workflow-runtime/src/firewall_types.rs], [firewall.rs] and
    [semantic_firewall.rs]: the deterministic hard policy over a proposed tool
    call, and the reduction of the four semantic judges, which can only restrict
    it.  The [Serialize] implementations are derived: they are written out as
    JSON values, because the identities hash them and the secret scan reads them.
    [serde_json] decoding of a proposal and of a judge report is the class
    [FirewallJson]. *)

From stdpp Require Import pretty.
From S2P Require Import Prelude Hashing.
From S2P Require Import Policy Text Json Approval Spec Order Trust Event.

(*| runtime/firewall_types.rs 7-7 FIREWALL_SCHEMA_VERSION *)
Definition FIREWALL_SCHEMA_VERSION : Z := 1.
(*| runtime/firewall_types.rs 8-8 FIREWALL_IMPLEMENTATION_VERSION *)
Definition FIREWALL_IMPLEMENTATION_VERSION : string := "firewall-hard-policy-v1".
(*| runtime/firewall.rs 20-20 MAX_PROPOSAL_BYTES *)
Definition MAX_PROPOSAL_BYTES : Z := 16384.
(*| runtime/semantic_firewall.rs 7-7 SEMANTIC_FIREWALL_VERSION *)
Definition SEMANTIC_FIREWALL_VERSION : string := "semantic-firewall-v1".

(*| runtime/typed_protocol.rs 141-145 FirewallDecision *)
Inductive FirewallDecision := Allow | Deny | RequireHumanApproval.
#[export] Instance FirewallDecision_eq_dec : EqDecision FirewallDecision.
Proof. solve_decision. Defined.

(*| runtime/firewall_types.rs 13-21 TrustedGoal *)
Record TrustedGoal := mk_TrustedGoal {
  goal_schema_version : Z; goal_id : string; goal_version : string;
  goal_capabilities : gset SandboxCapability; goal_scopes : gset string;
  goal_destinations : gset string }.

(*| runtime/firewall_types.rs 26-31 SideEffectClass *)
Inductive SideEffectClass := EffectNone | EffectRead | EffectWrite | EffectDestructive.
#[export] Instance SideEffectClass_eq_dec : EqDecision SideEffectClass.
Proof. solve_decision. Defined.

(*| runtime/firewall_types.rs 36-40 SideEffectDescriptor *)
Record SideEffectDescriptor := mk_SideEffect { effect_schema_version : Z; effect_class : SideEffectClass }.

(*| runtime/firewall_types.rs 47-51 TargetVersion *)
Record TargetVersion := mk_TargetVersion { target_schema_version : Z; revision : string }.
#[export] Instance TargetVersion_eq_dec : EqDecision TargetVersion.
Proof. solve_decision. Defined.

(*| runtime/firewall_types.rs 56-61 TargetState *)
Record TargetState := mk_TargetState {
  target_scope : string; target_destination : string; target_resource : string;
  target_version : TargetVersion }.
#[export] Instance TargetState_eq_dec : EqDecision TargetState.
Proof. solve_decision. Defined.
#[export] Instance TargetState_countable : Countable TargetState.
Proof.
  apply (inj_countable'
    (λ t, (target_scope t, target_destination t, target_resource t,
           target_schema_version (target_version t), revision (target_version t)))
    (λ '(s, d, r, v, n), mk_TargetState s d r (mk_TargetVersion v n))).
  by intros [??? []].
Defined.

(*| runtime/firewall_types.rs 66-78 ToolIntent *)
Record ToolIntent := mk_ToolIntent {
  intent_schema_version : Z; intent_goal_id : string; intent_tool_id : string;
  intent_tool_version : string; intent_capabilities : gset SandboxCapability;
  intent_scope : string; intent_destination : string; intent_resource : string;
  intent_effect : SideEffectDescriptor; intent_target_version : TargetVersion }.

(*| runtime/firewall_types.rs 83-89 ToolArgument *)
Inductive ToolArgument := ArgInteger (value : Z) | ArgBoolean (value : bool) | ArgToken (value : string).

(*| runtime/firewall_types.rs 112-116 ProposalProvenance *)
Record ProposalProvenance := mk_ProposalProvenance {
  source_digest : string; arguments_digest_claim : string; proposal_trust_domain : TrustDomain }.

(*| runtime/firewall_types.rs 121-128 ToolProposal *)
Record ToolProposal := mk_ToolProposal {
  proposal_schema_version : Z; intent : ToolIntent; proposal_arguments : gmap string ToolArgument;
  proposal_provenance : ProposalProvenance }.

(*| runtime/firewall_types.rs 133-138 ArgumentRule *)
Inductive ArgumentRule :=
| RuleInteger (min max : Z) | RuleBoolean | RuleToken (max_bytes : Z)
| RuleChoice (values : gset string).

(*| runtime/firewall_types.rs 143-146 ArgumentBinding *)
Inductive ArgumentBinding := BindLiteral (value : string) | BindArgument (name : string).

(*| runtime/firewall_types.rs 151-154 ToolAdmission *)
Inductive ToolAdmission := AdmitLowRisk | AdmitHumanApproval.
#[export] Instance ToolAdmission_eq_dec : EqDecision ToolAdmission.
Proof. solve_decision. Defined.

(*| runtime/firewall_types.rs 159-170 ToolRule *)
Record ToolRule := mk_ToolRule {
  rule_version : string; rule_capabilities : gset SandboxCapability; rule_scopes : gset string;
  rule_destinations : gset string; rule_effect : SideEffectClass; rule_admission : ToolAdmission;
  rule_arguments : gmap string ArgumentRule; rule_scope : ArgumentBinding;
  rule_destination : ArgumentBinding; rule_resource : ArgumentBinding }.

(*| runtime/firewall_types.rs 175-183 FirewallPolicy *)
Record FirewallPolicy := mk_FirewallPolicy {
  fw_schema_version : Z; fw_version : string; fw_tools : gmap string ToolRule;
  fw_targets : gset TargetState; forbidden_markers : gset string }.

(*| runtime/firewall_types.rs 214-245 FirewallReason *)
Inductive FirewallReason :=
| ReasonSchema | ReasonPolicy | ReasonProvenance | ReasonGoal | ReasonTool | ReasonCapability
| ReasonScope | ReasonDestination | ReasonArguments | ReasonSecret | ReasonSideEffect
| ReasonStaleTarget | ReasonLowRisk | ReasonSemantic | ReasonHumanApproval.
#[export] Instance FirewallReason_eq_dec : EqDecision FirewallReason.
Proof. solve_decision. Defined.

(*| runtime/firewall_types.rs 214-245 FirewallReason *)
Definition reason_code (r : FirewallReason) : string :=
  match r with
  | ReasonSchema => "sch" | ReasonPolicy => "pol" | ReasonProvenance => "prv"
  | ReasonGoal => "gol" | ReasonTool => "tol" | ReasonCapability => "cap"
  | ReasonScope => "scp" | ReasonDestination => "dst" | ReasonArguments => "arg"
  | ReasonSecret => "sec" | ReasonSideEffect => "eff" | ReasonStaleTarget => "stl"
  | ReasonLowRisk => "low" | ReasonSemantic => "smt" | ReasonHumanApproval => "hum"
  end.

(** ** Tokens, bindings and argument rules *)

Definition token_punctuation (c : ascii) : bool :=
  existsb (Ascii.eqb c) ["."; "_"; "-"; "/"; ":"; "@"; "#"]%char.

(*| runtime/firewall.rs 239-245 token *)
Definition token (value : string) (max : Z) : bool :=
  negb (str_is_empty value) && (str_len value <=? max)%Z &&
  str_all (λ c, is_ascii_alphanumeric c || token_punctuation c) value.

(*| runtime/firewall.rs 246-251 valid_digest *)
Definition valid_hex_digest (value : string) : bool :=
  (str_len value =? 64)%Z && str_all is_lower_hex value.

(*| runtime/firewall.rs 211-225 ArgumentRule::accepts *)
Definition accepts (rule : ArgumentRule) (argument : ToolArgument) : bool :=
  match rule, argument with
  | RuleInteger min max, ArgInteger value => (min <=? value)%Z && (value <=? max)%Z
  | RuleBoolean, ArgBoolean _ => true
  | RuleToken max_bytes, ArgToken value => token value (Z.min max_bytes 256)
  | RuleChoice values, ArgToken value => token value 256 && bool_decide (value ∈ values)
  | _, _ => false
  end.

(** [i64] and [bool] in [Display] form. *)
Definition argument_text (a : ToolArgument) : string :=
  match a with
  | ArgToken value => value
  | ArgInteger value => pretty value
  | ArgBoolean value => bool_text value
  end.

(*| runtime/firewall.rs 228-237 ArgumentBinding::resolve *)
Definition resolve_binding (b : ArgumentBinding) (proposal : ToolProposal) : option string :=
  match b with
  | BindLiteral value => Some value
  | BindArgument name => argument_text <$> proposal_arguments proposal !! name
  end.

(** ** Serialized forms *)

(*| runtime/lib.rs 503-535 SandboxCapability *)
Definition capability_code (c : SandboxCapability) : string :=
  match c with
  | FilesystemRead => "filesystem_read" | FilesystemWrite => "filesystem_write"
  | Network => "network" | ProcessSpawn => "process_spawn" | MaximumPids => "maximum_pids"
  | CpuTime => "cpu_time" | CapWallTime => "wall_time" | CapIdleTime => "idle_time"
  | Memory => "memory" | OutputBytes => "output_bytes" | OpenFiles => "open_files"
  | EnvironmentVariables => "environment_variables" | SyscallProfile => "syscall_profile"
  | UserGroupIdentity => "user_group_identity" | DeviceAccess => "device_access"
  end.

(*| runtime/security.rs 17-24 TrustDomain *)
Definition domain_code (d : TrustDomain) : string :=
  match d with
  | TrustedPolicy => "trusted_policy" | Trust.TrustedGoal => "trusted_goal"
  | ConditionallyTrustedContent => "conditionally_trusted_content"
  | UntrustedContent => "untrusted_content" | SyntheticTrap => "synthetic_trap"
  end.

(*| runtime/firewall_types.rs 24-31 SideEffectClass *)
Definition effect_code (c : SideEffectClass) : string :=
  match c with
  | EffectNone => "none" | EffectRead => "read" | EffectWrite => "write"
  | EffectDestructive => "destructive"
  end.

(** The derived order of [TargetState]: field by field. *)
Definition cmp_target : TargetState → TargetState → comparison :=
  cmp_then (cmp_by target_scope String.compare)
    (cmp_then (cmp_by target_destination String.compare)
       (cmp_then (cmp_by target_resource String.compare)
          (cmp_then (cmp_by (λ t, target_schema_version (target_version t)) Z.compare)
             (cmp_by (λ t, revision (target_version t)) String.compare)))).

Section json.
Context `{IntJson}.

(** A [BTreeSet] is an array in order; capabilities are ordered as declared. *)
Definition capabilities_value (cs : gset SandboxCapability) : Value :=
  jstrings (map capability_code (List.filter (λ c, bool_decide (c ∈ cs)) all_capabilities)).
Definition set_value (s : gset string) : Value := jstrings (btree_elements s).
Definition map_value {A : Type} (f : A → Value) (m : gmap string A) : Value :=
  Object (map (λ e, (fst e, f (snd e))) (btree_entries m)).

(*| runtime/firewall_types.rs 11-21 TrustedGoal *)
Definition goal_value (g : TrustedGoal) : Value :=
  Object [("schema_version", jnum (goal_schema_version g)); ("id", VString (goal_id g));
          ("version", VString (goal_version g));
          ("capabilities", capabilities_value (goal_capabilities g));
          ("scopes", set_value (goal_scopes g)); ("destinations", set_value (goal_destinations g))].

(*| runtime/firewall_types.rs 44-51 TargetVersion *)
Definition version_value (v : TargetVersion) : Value :=
  Object [("schema_version", jnum (target_schema_version v)); ("revision", VString (revision v))].

(*| runtime/firewall_types.rs 54-61 TargetState *)
Definition target_value (t : TargetState) : Value :=
  Object [("scope", VString (target_scope t)); ("destination", VString (target_destination t));
          ("resource", VString (target_resource t)); ("version", version_value (target_version t))].

(*| runtime/firewall_types.rs 64-78 ToolIntent *)
Definition intent_value (i : ToolIntent) : Value :=
  Object [("schema_version", jnum (intent_schema_version i)); ("goal_id", VString (intent_goal_id i));
          ("tool_id", VString (intent_tool_id i)); ("tool_version", VString (intent_tool_version i));
          ("capabilities", capabilities_value (intent_capabilities i));
          ("scope", VString (intent_scope i)); ("destination", VString (intent_destination i));
          ("resource", VString (intent_resource i));
          ("effect", Object [("schema_version", jnum (effect_schema_version (intent_effect i)));
                             ("class", VString (effect_code (effect_class (intent_effect i))))]);
          ("target_version", version_value (intent_target_version i))].

(*| runtime/firewall_types.rs 81-89 ToolArgument *)
Definition argument_value (a : ToolArgument) : Value :=
  match a with
  | ArgInteger value => jnum value
  | ArgBoolean value => Bool value
  | ArgToken value => VString value
  end.

Definition arguments_value (arguments : gmap string ToolArgument) : Value :=
  map_value argument_value arguments.

(*| runtime/firewall_types.rs 119-128 ToolProposal *)
Definition proposal_value (p : ToolProposal) : Value :=
  Object [("schema_version", jnum (proposal_schema_version p)); ("intent", intent_value (intent p));
          ("arguments", arguments_value (proposal_arguments p));
          ("provenance", Object
             [("source_digest", VString (source_digest (proposal_provenance p)));
              ("arguments_digest", VString (arguments_digest_claim (proposal_provenance p)));
              ("trust_domain",
               VString (domain_code (proposal_trust_domain (proposal_provenance p))))])].

(*| runtime/firewall_types.rs 131-138 ArgumentRule *)
Definition argument_rule_value (r : ArgumentRule) : Value :=
  match r with
  | RuleInteger min max => Object [("kind", VString "integer"); ("min", jnum min); ("max", jnum max)]
  | RuleBoolean => Object [("kind", VString "boolean")]
  | RuleToken max_bytes => Object [("kind", VString "token"); ("max_bytes", jnum max_bytes)]
  | RuleChoice values => Object [("kind", VString "choice"); ("values", set_value values)]
  end.

(*| runtime/firewall_types.rs 141-146 ArgumentBinding *)
Definition binding_value (b : ArgumentBinding) : Value :=
  match b with
  | BindLiteral value => Object [("kind", VString "literal"); ("value", VString value)]
  | BindArgument name => Object [("kind", VString "argument"); ("name", VString name)]
  end.

(*| runtime/firewall_types.rs 157-170 ToolRule *)
Definition rule_value (r : ToolRule) : Value :=
  Object [("version", VString (rule_version r));
          ("capabilities", capabilities_value (rule_capabilities r));
          ("scopes", set_value (rule_scopes r)); ("destinations", set_value (rule_destinations r));
          ("effect", VString (effect_code (rule_effect r)));
          ("admission", VString match rule_admission r with
                                | AdmitLowRisk => "low_risk"
                                | AdmitHumanApproval => "human_approval" end);
          ("arguments", map_value argument_rule_value (rule_arguments r));
          ("scope", binding_value (rule_scope r)); ("destination", binding_value (rule_destination r));
          ("resource", binding_value (rule_resource r))].

(*| runtime/firewall_types.rs 173-183 FirewallPolicy *)
Definition policy_value (p : FirewallPolicy) : Value :=
  Object [("schema_version", jnum (fw_schema_version p)); ("version", VString (fw_version p));
          ("tools", map_value rule_value (fw_tools p));
          ("targets", Array (map target_value (sort_by cmp_target (elements (fw_targets p)))));
          ("forbidden_markers", set_value (forbidden_markers p))].

(*| runtime/firewall.rs 50-52 ToolProposal::canonical_arguments *)
Definition canonical_arguments (p : ToolProposal) : string :=
  compact (arguments_value (proposal_arguments p)).

(** ** The hard policy *)

(*| runtime/firewall.rs 94-109 FirewallPolicy::contains_secret *)
Fixpoint contains_secret (policy : FirewallPolicy) (value : Value) : bool :=
  let marked text :=
    str_contains text SYNTHETIC_HONEYTOKEN_PREFIX ||
    existsb (str_contains text) (btree_elements (forbidden_markers policy)) in
  match value with
  | VString text => marked text
  | Array values => existsb (contains_secret policy) values
  | Object entries => existsb (λ e, marked (fst e) || contains_secret policy (snd e)) entries
  | _ => false
  end.

Context `{Sha256}.

(*| runtime/firewall.rs 55-57 ToolProposal::arguments_digest *)
Definition arguments_digest (p : ToolProposal) : string :=
  argument_fingerprint (arguments_value (proposal_arguments p)).

(*| runtime/firewall.rs 62-64 FirewallPolicy::identity *)
Definition policy_identity (p : FirewallPolicy) : string := argument_fingerprint (policy_value p).

(** The registered rule, if its identity and version are proper and the
    proposal's version is the rule's. *)
(*| runtime/firewall.rs 137-145 FirewallPolicy::check *)
Definition proposal_rule (policy : FirewallPolicy) (intent : ToolIntent) : option ToolRule :=
  rule ← fw_tools policy !! intent_tool_id intent;
  if token (intent_tool_id intent) 128 && token (rule_version rule) 128 &&
     str_eqb (rule_version rule) (intent_tool_version intent)
  then Some rule else None.

Definition resolves_to (b : ArgumentBinding) (p : ToolProposal) (value : string) : bool :=
  bool_decide (resolve_binding b p = Some value).

(*| runtime/firewall.rs 172-183 FirewallPolicy::check *)
Definition bad_arguments (rule : ToolRule) (p : ToolProposal) : bool :=
  (MAX_PROPOSAL_BYTES <? str_len (canonical_arguments p))%Z ||
  negb (size (rule_arguments rule) =? size (proposal_arguments p)) ||
  negb (forallb (λ e, from_option (accepts (snd e)) false (proposal_arguments p !! fst e))
          (btree_entries (rule_arguments rule))) ||
  negb (resolves_to (rule_scope rule) p (intent_scope (intent p))) ||
  negb (resolves_to (rule_destination rule) p (intent_destination (intent p))) ||
  negb (resolves_to (rule_resource rule) p (intent_resource (intent p))).

(** The snapshots of the resource the intent names. *)
(*| runtime/firewall.rs 192-196 FirewallPolicy::check *)
Definition intent_targets (policy : FirewallPolicy) (i : ToolIntent) : list TargetState :=
  List.filter (λ t, str_eqb (target_scope t) (intent_scope i) &&
                    str_eqb (target_destination t) (intent_destination i) &&
                    str_eqb (target_resource t) (intent_resource i))
    (sort_by cmp_target (elements (fw_targets policy))).

(** The checks made against the rule of the tool. *)
(*| runtime/firewall.rs 146-206 FirewallPolicy::check *)
Definition check_rule (policy : FirewallPolicy) (goal : TrustedGoal) (p : ToolProposal)
    (rule : ToolRule) : result FirewallReason unit :=
  let i := intent p in
  if negb (bool_decide (intent_capabilities i = rule_capabilities rule)) ||
     negb (bool_decide (rule_capabilities rule ⊆ goal_capabilities goal))
  then Err ReasonCapability
  else if negb (token (intent_scope i) 256) ||
          negb (bool_decide (intent_scope i ∈ rule_scopes rule)) ||
          negb (bool_decide (intent_scope i ∈ goal_scopes goal))
  then Err ReasonScope
  else if negb (token (intent_destination i) 256) ||
          negb (bool_decide (intent_destination i ∈ rule_destinations rule)) ||
          negb (bool_decide (intent_destination i ∈ goal_destinations goal))
  then Err ReasonDestination
  else if contains_secret policy (proposal_value p) ||
          match sanitize_log (canonical_arguments p) with Ok _ => false | Err _ => true end ||
          contains_sensitive_key (arguments_value (proposal_arguments p))
  then Err ReasonSecret
  else if bad_arguments rule p then Err ReasonArguments
  else if negb (bool_decide (rule_effect rule = effect_class (intent_effect i))) ||
          (bool_decide (rule_admission rule = AdmitLowRisk) &&
           negb (bool_decide (rule_effect rule = EffectNone) ||
                 bool_decide (rule_effect rule = EffectRead)))
  then Err ReasonSideEffect
  else match intent_targets policy i with
  | [target] =>
      if negb (token (intent_resource i) 256) ||
         negb (token (revision (intent_target_version i)) 256) ||
         negb (target_schema_version (target_version target) =? FIREWALL_SCHEMA_VERSION)%Z ||
         negb (bool_decide (target_version target = intent_target_version i))
      then Err ReasonStaleTarget else Ok tt
  | _ => Err ReasonStaleTarget
  end.

(*| runtime/firewall.rs 111-207 FirewallPolicy::check *)
Definition check (policy : FirewallPolicy) (goal : TrustedGoal) (p : ToolProposal) :
    result FirewallReason unit :=
  let i := intent p in
  if existsb (λ v, negb (v =? FIREWALL_SCHEMA_VERSION)%Z)
       [fw_schema_version policy; goal_schema_version goal; proposal_schema_version p;
        intent_schema_version i; effect_schema_version (intent_effect i);
        target_schema_version (intent_target_version i)]
  then Err ReasonSchema
  else if negb (token (fw_version policy) 128) ||
          existsb str_is_empty (btree_elements (forbidden_markers policy))
  then Err ReasonPolicy
  else if negb (token (goal_id goal) 128) || negb (token (goal_version goal) 128) ||
          negb (str_eqb (intent_goal_id i) (goal_id goal))
  then Err ReasonGoal
  else if negb (valid_hex_digest (source_digest (proposal_provenance p))) ||
          negb (str_eqb (arguments_digest_claim (proposal_provenance p)) (arguments_digest p))
  then Err ReasonProvenance
  else match proposal_rule policy i with
  | None => Err ReasonTool
  | Some rule => check_rule policy goal p rule
  end.

(*| runtime/firewall.rs 299-303 ToolDecision *)
Record ToolDecision := mk_ToolDecision {
  decision : FirewallDecision; reason : FirewallReason; decision_identity : string }.

(*| runtime/firewall.rs 67-92 FirewallPolicy::evaluate *)
Definition evaluate (policy : FirewallPolicy) (goal : TrustedGoal) (p : ToolProposal) : ToolDecision :=
  let reason :=
    match check policy goal p with
    | Err reason => reason
    | Ok _ =>
        match fw_tools policy !! intent_tool_id (intent p) with
        | Some rule => if decide (rule_admission rule = AdmitLowRisk)
                       then ReasonLowRisk else ReasonHumanApproval
        | None => ReasonHumanApproval
        end
    end in
  let decision :=
    match reason with
    | ReasonLowRisk => Allow
    | ReasonHumanApproval => RequireHumanApproval
    | _ => Deny
    end in
  mk_ToolDecision decision reason (argument_fingerprint (Object
    [("implementation", VString FIREWALL_IMPLEMENTATION_VERSION);
     ("schema_version", jnum FIREWALL_SCHEMA_VERSION); ("policy", policy_value policy);
     ("goal", goal_value goal); ("proposal", proposal_value p);
     ("reason", VString (reason_code reason)); ("security", VString SECURITY_MODEL_VERSION);
     ("secrets", VString SECRET_POLICY_VERSION)])).
End json.

(** ** Decoding a proposal *)

Class FirewallJson := decode_fields : string → option ToolProposal.

(*| runtime/firewall.rs 30-47 ToolProposal::decode *)
Definition decode_proposal `{FirewallJson} (bytes : string) : result FirewallReason ToolProposal :=
  if (MAX_PROPOSAL_BYTES <? str_len bytes)%Z then Err ReasonArguments
  else match decode_fields bytes with
  | None => Err ReasonSchema
  | Some p =>
      if existsb (λ v, negb (v =? FIREWALL_SCHEMA_VERSION)%Z)
           [proposal_schema_version p; intent_schema_version (intent p);
            effect_schema_version (intent_effect (intent p));
            target_schema_version (intent_target_version (intent p))]
      then Err ReasonSchema else Ok p
  end.

(** ** Semantic evidence *)

(*| runtime/semantic_firewall.rs 13-18 JudgeKind *)
Inductive JudgeKind := TaskAlignment | PrivilegeScope | DestinationJudge | DataFlow.
#[export] Instance JudgeKind_eq_dec : EqDecision JudgeKind.
Proof. solve_decision. Defined.

(*| runtime/semantic_firewall.rs 20-25 JudgeKind::ALL *)
Definition all_judges : list JudgeKind := [TaskAlignment; PrivilegeScope; DestinationJudge; DataFlow].

(*| runtime/semantic_firewall.rs 26-33 JudgeKind::id *)
Definition judge_id (j : JudgeKind) : string :=
  match j with
  | TaskAlignment => "task_alignment" | PrivilegeScope => "privilege_scope"
  | DestinationJudge => "destination" | DataFlow => "data_flow"
  end.

Lemma elem_of_all_judges j : j ∈ all_judges.
Proof. by apply (bool_decide_unpack (j ∈ all_judges)); destruct j. Qed.
#[export] Instance JudgeKind_countable : Countable JudgeKind.
Proof.
  apply (inj_countable' judge_id (λ s, if str_eqb s "task_alignment" then TaskAlignment
    else if str_eqb s "privilege_scope" then PrivilegeScope
    else if str_eqb s "destination" then DestinationJudge else DataFlow)).
  by intros [].
Defined.

(*| runtime/semantic_firewall.rs 51-54 Impact *)
Inductive Impact := Low | High.
#[export] Instance Impact_eq_dec : EqDecision Impact.
Proof. solve_decision. Defined.

(*| runtime/semantic_firewall.rs 58-61 JudgeOutput *)
Record JudgeOutput := mk_JudgeOutput { judge : JudgeKind; judge_decision : FirewallDecision }.

(*| runtime/semantic_firewall.rs 112-138 reduce *)
Definition reduce (hard : ToolDecision) (impact : Impact) (reports : list JudgeOutput) :
    FirewallDecision :=
  if decide (decision hard ≠ Allow) then decision hard
  else
    let axes : gset JudgeKind := list_to_set (map judge reports) in
    if negb (length reports =? length all_judges) || negb (size axes =? length all_judges)
    then Deny
    else
      let denied := length (List.filter (λ r, bool_decide (judge_decision r = Deny)) reports) in
      if denied =? length reports then Deny
      else if bool_decide (impact = High) && (0 <? denied) then RequireHumanApproval
      else if 0 <? denied then Deny
      else if existsb (λ r, bool_decide (judge_decision r = RequireHumanApproval)) reports
      then RequireHumanApproval
      else Allow.

(** The [Debug] form of a decision and the serialized form of an impact. *)
Definition decision_debug (d : FirewallDecision) : string :=
  match d with
  | Allow => "Allow" | Deny => "Deny" | RequireHumanApproval => "RequireHumanApproval"
  end.
Definition impact_code (i : Impact) : string := match i with Low => "low" | High => "high" end.

Definition judge_rank (j : JudgeKind) : Z :=
  match j with TaskAlignment => 0 | PrivilegeScope => 1 | DestinationJudge => 2 | DataFlow => 3 end.
Definition cmp_evidence : JudgeKind * string → JudgeKind * string → comparison :=
  cmp_then (cmp_by (λ e, judge_rank (fst e)) Z.compare) (cmp_by snd String.compare).

(*| runtime/firewall.rs 307-330 ToolDecision::with_semantic_evidence *)
Definition with_semantic_evidence `{IntJson, Sha256} (d : ToolDecision) (impact : Impact)
    (reports : list JudgeOutput) (binding_identity : string) : ToolDecision :=
  if decide (decision d ≠ Allow) then d
  else
    let evidence := sort_by cmp_evidence
      (map (λ r, (judge r, decision_debug (judge_decision r))) reports) in
    mk_ToolDecision (reduce d impact reports) ReasonSemantic (argument_fingerprint (Object
      [("hard", VString (decision_identity d)); ("semantic", VString binding_identity);
       ("impact", VString (impact_code impact));
       ("evidence", Array (map (λ e, Array [VString (judge_id (fst e)); VString (snd e)]) evidence));
       ("implementation", VString SEMANTIC_FIREWALL_VERSION)])).

(** ** Admission *)

Section admission.
Context `{IntJson, Sha256}.

(** What the hard policy demands of a proposal, for the rule of its tool. *)
Record admitted (policy : FirewallPolicy) (goal : TrustedGoal) (p : ToolProposal)
    (rule : ToolRule) (i := intent p) : Prop := {
  (** Every part speaks the supported schema. *)
  adm_versions :
    Forall (λ v, v = FIREWALL_SCHEMA_VERSION)
      [fw_schema_version policy; goal_schema_version goal; proposal_schema_version p;
       intent_schema_version i; effect_schema_version (intent_effect i);
       target_schema_version (intent_target_version i)];
  adm_policy : token (fw_version policy) 128 = true ∧ "" ∉ forbidden_markers policy;
  (** It serves the trusted goal, with its own arguments. *)
  adm_goal : token (goal_id goal) 128 = true ∧ token (goal_version goal) 128 = true ∧
             intent_goal_id i = goal_id goal;
  adm_provenance :
    valid_hex_digest (source_digest (proposal_provenance p)) = true ∧
    arguments_digest_claim (proposal_provenance p) = arguments_digest p;
  (** The tool is registered in this version. *)
  adm_rule : fw_tools policy !! intent_tool_id i = Some rule ∧
             token (intent_tool_id i) 128 = true ∧ token (rule_version rule) 128 = true ∧
             rule_version rule = intent_tool_version i;
  (** Authority: what the rule names, within what the goal grants. *)
  adm_capabilities : intent_capabilities i = rule_capabilities rule ∧
                     rule_capabilities rule ⊆ goal_capabilities goal;
  adm_scope : token (intent_scope i) 256 = true ∧
              intent_scope i ∈ rule_scopes rule ∩ goal_scopes goal;
  adm_destination : token (intent_destination i) 256 = true ∧
                    intent_destination i ∈ rule_destinations rule ∩ goal_destinations goal;
  (** No secret anywhere in the proposal. *)
  adm_secrets : contains_secret policy (proposal_value p) = false ∧
                (∃ safe, sanitize_log (canonical_arguments p) = Ok safe) ∧
                contains_sensitive_key (arguments_value (proposal_arguments p)) = false;
  (** Exactly the registered arguments, each within its rule; the asserted
      scope, destination and resource are the ones they denote. *)
  adm_arguments :
    (str_len (canonical_arguments p) ≤ MAX_PROPOSAL_BYTES)%Z ∧
    dom (rule_arguments rule) = dom (proposal_arguments p) ∧
    (∀ name constraint argument,
       rule_arguments rule !! name = Some constraint →
       proposal_arguments p !! name = Some argument → accepts constraint argument = true) ∧
    resolve_binding (rule_scope rule) p = Some (intent_scope i) ∧
    resolve_binding (rule_destination rule) p = Some (intent_destination i) ∧
    resolve_binding (rule_resource rule) p = Some (intent_resource i);
  (** The effect is the registered one; only readers are low-risk. *)
  adm_effect : rule_effect rule = effect_class (intent_effect i) ∧
               (rule_admission rule = AdmitLowRisk →
                rule_effect rule = EffectNone ∨ rule_effect rule = EffectRead);
  (** The resource has one snapshot, at the version the intent was made for. *)
  adm_target :
    token (intent_resource i) 256 = true ∧ token (revision (intent_target_version i)) 256 = true ∧
    mk_TargetState (intent_scope i) (intent_destination i) (intent_resource i)
      (intent_target_version i) ∈ fw_targets policy ∧
    ∀ t, t ∈ fw_targets policy → target_scope t = intent_scope i →
      target_destination t = intent_destination i → target_resource t = intent_resource i →
      target_version t = intent_target_version i
}.

(** Names of one map that are in another of the same size are all of them. *)
Lemma same_names {A B} (m : gmap string A) (n : gmap string B) :
  size m = size n → (∀ k x, m !! k = Some x → is_Some (n !! k)) → dom m = dom n.
Proof.
  intros Hs Hin. apply set_subseteq_size_eq.
  - intros k [x Hx]%elem_of_dom. apply elem_of_dom. by eapply Hin.
  - by rewrite !size_dom, Hs.
Qed.

Lemma bad_arguments_false rule p :
  bad_arguments rule p = false ↔
  (str_len (canonical_arguments p) ≤ MAX_PROPOSAL_BYTES)%Z ∧
  dom (rule_arguments rule) = dom (proposal_arguments p) ∧
  (∀ name constraint argument,
     rule_arguments rule !! name = Some constraint →
     proposal_arguments p !! name = Some argument → accepts constraint argument = true) ∧
  resolve_binding (rule_scope rule) p = Some (intent_scope (intent p)) ∧
  resolve_binding (rule_destination rule) p = Some (intent_destination (intent p)) ∧
  resolve_binding (rule_resource rule) p = Some (intent_resource (intent p)).
Proof.
  unfold bad_arguments, resolves_to.
  rewrite !orb_false_iff, !negb_false_iff, !bool_decide_eq_true, Nat.eqb_eq, Z.ltb_ge.
  rewrite forallb_true_iff. split.
  - intros (((((Hl & Hs) & Ha) & Hsc) & Hd) & Hr).
    assert (Hin : ∀ k c, rule_arguments rule !! k = Some c →
      ∃ a, proposal_arguments p !! k = Some a ∧ accepts c a = true).
    { intros k c Hc. specialize (Ha (k, c) ltac:(by apply elem_of_btree_entries)). cbn in Ha.
      destruct (proposal_arguments p !! k) as [a|]; [by exists a|done]. }
    split_and!; try done.
    + apply same_names; [done|]. intros k c Hc. apply Hin in Hc as (a & -> & _). by exists a.
    + intros k c a Hc Hpa. apply Hin in Hc as (a' & Ha' & ?). congruence.
  - intros (Hl & Hd & Ha & Hsc & Hde & Hr). split_and!; try done.
    + by rewrite <-(size_dom (D := gset string) (rule_arguments rule)), Hd, size_dom.
    + intros [k c] Hc%elem_of_btree_entries. cbn.
      assert (Hk : k ∈ dom (proposal_arguments p)) by (rewrite <-Hd; by apply elem_of_dom).
      apply elem_of_dom in Hk as [a Ha']. rewrite Ha'. cbn. by eapply Ha.
Qed.

Lemma list_singleton_NoDup {A} (l : list A) x :
  NoDup l → l = [x] ↔ x ∈ l ∧ ∀ y, y ∈ l → y = x.
Proof.
  intros Hnd. split; [intros ->; split; [set_solver|by intros y ->%list_elem_of_singleton]|].
  intros [Hx Hall]. destruct l as [|y [|z l]]; [by apply elem_of_nil in Hx|..].
  - by rewrite (Hall y ltac:(set_solver)).
  - exfalso. apply NoDup_cons in Hnd as [Hy _]. apply Hy.
    rewrite (Hall y ltac:(set_solver)), (Hall z ltac:(set_solver)). set_solver.
Qed.

Lemma intent_targets_NoDup policy i : NoDup (intent_targets policy i).
Proof.
  unfold intent_targets. rewrite NoDup_ListNoDup. apply List.NoDup_filter. rewrite <-NoDup_ListNoDup.
  unfold sort_by. rewrite merge_sort_Permutation. apply NoDup_elements.
Qed.

Lemma elem_of_intent_targets policy i t :
  t ∈ intent_targets policy i ↔
  t ∈ fw_targets policy ∧ target_scope t = intent_scope i ∧
  target_destination t = intent_destination i ∧ target_resource t = intent_resource i.
Proof.
  unfold intent_targets. rewrite list_elem_of_In, filter_In, <-list_elem_of_In.
  unfold sort_by. rewrite merge_sort_Permutation, elem_of_elements.
  rewrite !andb_true_iff, !str_eqb_eq. tauto.
Qed.
End admission.

(** ** The decision is exact *)

Section decision.
Context `{IntJson, Sha256}.

Lemma versions_Ok l :
  existsb (λ v, negb (v =? FIREWALL_SCHEMA_VERSION)%Z) l = false ↔
  Forall (λ v, v = FIREWALL_SCHEMA_VERSION) l.
Proof.
  rewrite existsb_false_iff, Forall_forall. setoid_rewrite negb_false_iff.
  by setoid_rewrite Z.eqb_eq.
Qed.

Lemma no_empty_marker s : existsb str_is_empty (btree_elements s) = false ↔ "" ∉ s.
Proof.
  rewrite existsb_false_iff. setoid_rewrite elem_of_btree_elements.
  setoid_rewrite str_is_empty_false. split; [by intros Hall Hin; apply (Hall "")|].
  intros Hn x Hx ->. done.
Qed.

Lemma proposal_rule_Some policy i rule :
  proposal_rule policy i = Some rule ↔
  fw_tools policy !! intent_tool_id i = Some rule ∧ token (intent_tool_id i) 128 = true ∧
  token (rule_version rule) 128 = true ∧ rule_version rule = intent_tool_version i.
Proof.
  unfold proposal_rule. destruct (fw_tools policy !! _) as [r|]; cbn; [|naive_solver].
  split.
  - destruct (_ && _) eqn:E; [|done]. intros [= <-].
    rewrite !andb_true_iff, str_eqb_eq in E. destruct E as [[??]?]. done.
  - intros ([= <-] & -> & -> & Hv). by rewrite (proj2 (str_eqb_eq _ _) Hv).
Qed.

Lemma sanitized_false line :
  match sanitize_log line with Ok _ => false | Err _ => true end = false ↔
  ∃ safe, sanitize_log line = Ok safe.
Proof. destruct (sanitize_log line); naive_solver. Qed.

Lemma check_target_Ok policy p u (i := intent p) :
  match intent_targets policy i with
  | [target] =>
      if negb (token (intent_resource i) 256) ||
         negb (token (revision (intent_target_version i)) 256) ||
         negb (target_schema_version (target_version target) =? FIREWALL_SCHEMA_VERSION)%Z ||
         negb (bool_decide (target_version target = intent_target_version i))
      then Err ReasonStaleTarget else Ok tt
  | _ => Err ReasonStaleTarget
  end = Ok u ↔
  token (intent_resource i) 256 = true ∧ token (revision (intent_target_version i)) 256 = true ∧
  target_schema_version (intent_target_version i) = FIREWALL_SCHEMA_VERSION ∧
  intent_targets policy i =
    [mk_TargetState (intent_scope i) (intent_destination i) (intent_resource i)
       (intent_target_version i)].
Proof.
  destruct u. destruct (intent_targets policy i) as [|t [|]] eqn:E; [naive_solver| |naive_solver].
  rewrite guard_Ok, !orb_false_iff, !negb_false_iff, bool_decide_eq_true, Z.eqb_eq.
  assert (Ht : t ∈ intent_targets policy i) by (rewrite E; set_solver).
  apply elem_of_intent_targets in Ht as (_ & Hs & Hd & Hr). split.
  - intros ((((? & ?) & Hv) & Hver) & _). rewrite Hver in Hv. split_and!; try done.
    f_equal. destruct t. cbn in *. congruence.
  - intros (? & ? & ? & [= ->]). split_and!; done.
Qed.

Lemma check_rule_Ok policy goal p rule u (i := intent p) :
  check_rule policy goal p rule = Ok u ↔
  (intent_capabilities i = rule_capabilities rule ∧ rule_capabilities rule ⊆ goal_capabilities goal) ∧
  (token (intent_scope i) 256 = true ∧ intent_scope i ∈ rule_scopes rule ∩ goal_scopes goal) ∧
  (token (intent_destination i) 256 = true ∧
   intent_destination i ∈ rule_destinations rule ∩ goal_destinations goal) ∧
  (contains_secret policy (proposal_value p) = false ∧
   (∃ safe, sanitize_log (canonical_arguments p) = Ok safe) ∧
   contains_sensitive_key (arguments_value (proposal_arguments p)) = false) ∧
  bad_arguments rule p = false ∧
  (rule_effect rule = effect_class (intent_effect i) ∧
   (rule_admission rule = AdmitLowRisk → rule_effect rule = EffectNone ∨ rule_effect rule = EffectRead)) ∧
  token (intent_resource i) 256 = true ∧ token (revision (intent_target_version i)) 256 = true ∧
  target_schema_version (intent_target_version i) = FIREWALL_SCHEMA_VERSION ∧
  intent_targets policy i =
    [mk_TargetState (intent_scope i) (intent_destination i) (intent_resource i)
       (intent_target_version i)].
Proof.
  unfold check_rule. cbv zeta. rewrite !guard_Ok, check_target_Ok. fold i.
  rewrite !orb_false_iff, !negb_false_iff, !bool_decide_eq_true, sanitized_false.
  rewrite !elem_of_intersection.
  assert (Heff : bool_decide (rule_admission rule = AdmitLowRisk) &&
      negb (bool_decide (rule_effect rule = EffectNone) || bool_decide (rule_effect rule = EffectRead))
      = false ↔
    (rule_admission rule = AdmitLowRisk → rule_effect rule = EffectNone ∨ rule_effect rule = EffectRead)).
  { destruct (rule_admission rule), (rule_effect rule); cbn; naive_solver. }
  rewrite Heff. clear Heff. tauto.
Qed.

Lemma target_current policy i (t := mk_TargetState (intent_scope i) (intent_destination i)
    (intent_resource i) (intent_target_version i)) :
  intent_targets policy i = [t] ↔
  t ∈ fw_targets policy ∧
  ∀ t', t' ∈ fw_targets policy → target_scope t' = intent_scope i →
    target_destination t' = intent_destination i → target_resource t' = intent_resource i →
    target_version t' = intent_target_version i.
Proof.
  rewrite list_singleton_NoDup by apply intent_targets_NoDup.
  setoid_rewrite elem_of_intent_targets. split.
  - intros ((Ht & _) & Hall). split; [done|]. intros t' Ht' Hs Hd Hr.
    by rewrite (Hall t') by done.
  - intros (Ht & Hall). split; [done|]. intros t' (Ht' & Hs & Hd & Hr).
    specialize (Hall t' Ht' Hs Hd Hr). destruct t'. cbn in *. subst t. congruence.
Qed.

Lemma check_Ok policy goal p u :
  check policy goal p = Ok u ↔ ∃ rule, admitted policy goal p rule.
Proof.
  unfold check. cbv zeta. rewrite !guard_Ok, versions_Ok.
  rewrite !orb_false_iff, !negb_false_iff, no_empty_marker, !str_eqb_eq. split.
  - intros (Hv & Hp & [[Hg1 Hg2] Hg3] & Hpr & Hrule).
    destruct (proposal_rule policy (intent p)) as [rule|] eqn:Er; [|done].
    apply proposal_rule_Some in Er.
    apply check_rule_Ok in Hrule as (?&?&?&?&Hargs&?&?&?&?&Ht).
    exists rule. rewrite bad_arguments_false in Hargs. apply target_current in Ht as [??].
    by split.
  - intros (rule & [Hv Hp (Hg1&Hg2&Hg3) Hpr Hr Hc Hs Hd Hsec Ha He (Ht1&Ht2&Ht3&Ht4)]).
    split_and!; try done; [by destruct Hp..|by destruct Hpr|by destruct Hpr|].
    rewrite (proj2 (proposal_rule_Some policy (intent p) rule) Hr).
    apply check_rule_Ok. rewrite bad_arguments_false, target_current.
    assert (Hver : target_schema_version (intent_target_version (intent p)) = FIREWALL_SCHEMA_VERSION)
      by (rewrite !Forall_cons in Hv; tauto).
    clear Hv Hp Hpr Hr. tauto.
Qed.

Lemma admitted_tool policy goal p rule :
  admitted policy goal p rule → fw_tools policy !! intent_tool_id (intent p) = Some rule.
Proof. by intros [_ _ _ _ [? _]]. Qed.

(** The check itself never returns a reason of admission. *)
Lemma check_Err policy goal p r :
  check policy goal p = Err r → r ≠ ReasonLowRisk ∧ r ≠ ReasonHumanApproval.
Proof.
  unfold check. cbv zeta.
  repeat (apply (guard_Err_impl (λ r, r ≠ ReasonLowRisk ∧ r ≠ ReasonHumanApproval)); [done|]).
  destruct (proposal_rule policy (intent p)) as [rule|]; [|by intros [= <-]].
  unfold check_rule. cbv zeta.
  repeat (apply (guard_Err_impl (λ r, r ≠ ReasonLowRisk ∧ r ≠ ReasonHumanApproval)); [done|]).
  destruct (intent_targets policy (intent p)) as [|t [|]]; [by intros [= <-]| |by intros [= <-]].
  by apply (guard_Err_impl (λ r, r ≠ ReasonLowRisk ∧ r ≠ ReasonHumanApproval)).
Qed.

(** The hard policy is exact: a proposal is allowed without a human exactly
    when it meets every demand of [admitted] for a rule registered as low-risk,
    and left to a human exactly when it meets them for any other rule; in every
    other case it is denied, with the reason the check returns. *)
Theorem firewall_admission_exact policy goal p (d := evaluate policy goal p) :
  (decision d = Allow ↔ ∃ rule, admitted policy goal p rule ∧ rule_admission rule = AdmitLowRisk) ∧
  (decision d = RequireHumanApproval ↔
   ∃ rule, admitted policy goal p rule ∧ rule_admission rule = AdmitHumanApproval) ∧
  (decision d = Deny ↔ check policy goal p = Err (reason d)).
Proof.
  subst d. unfold evaluate. cbn [decision reason].
  destruct (check policy goal p) as [u|r] eqn:E.
  - apply check_Ok in E as (rule & Hadm).
    assert (Hrule : ∀ rule', admitted policy goal p rule' → rule' = rule).
    { intros rule' Hadm'. apply admitted_tool in Hadm, Hadm'. congruence. }
    rewrite (admitted_tool _ _ _ _ Hadm).
    split_and!; destruct (decide (rule_admission rule = AdmitLowRisk)) as [Hl|Hl]; split; try done.
    + by exists rule.
    + by intros (rule' & ->%Hrule & ?).
    + intros (rule' & ->%Hrule & Hh). congruence.
    + intros _. exists rule. split; [done|]. by destruct (rule_admission rule).
  - assert (Hno : ∀ rule, ¬ admitted policy goal p rule).
    { intros rule Hadm. rewrite (proj2 (check_Ok policy goal p tt)) in E by eauto. done. }
    assert (Hr : r ≠ ReasonLowRisk ∧ r ≠ ReasonHumanApproval).
    { by eapply check_Err. }
    destruct Hr as [Hr1 Hr2].
    split_and!; (split; [|by intros (rule & ?%Hno & _)]) || split; by destruct r.
Qed.
End decision.

(** ** Semantic evidence only restricts *)

(** One report from each judge. *)
Definition complete (reports : list JudgeOutput) : Prop := map judge reports ≡ₚ all_judges.

Lemma complete_axes reports :
  complete reports ↔
  length reports = length all_judges ∧
  size (list_to_set (map judge reports) : gset JudgeKind) = length all_judges.
Proof.
  assert (Hnd : NoDup all_judges) by by apply (bool_decide_unpack _); vm_compute.
  unfold complete. split.
  - intros Hp. rewrite <-(length_map judge). split; [by apply Permutation_length|].
    rewrite Hp. by vm_compute.
  - rewrite <-(length_map judge). intros [Hl Hs]. symmetry.
    apply submseteq_length_Permutation; [|by rewrite Hl].
    apply NoDup_submseteq; [done|]. intros j _.
    assert (Heq : list_to_set (map judge reports) = (list_to_set all_judges : gset JudgeKind)).
    { apply set_subseteq_size_eq; [|by rewrite Hs, size_list_to_set].
      intros k _. apply elem_of_list_to_set, elem_of_all_judges. }
    assert (Hj : j ∈ (list_to_set all_judges : gset JudgeKind))
      by apply elem_of_list_to_set, elem_of_all_judges.
    rewrite <-Heq in Hj. by apply elem_of_list_to_set in Hj.
Qed.

#[export] Instance cmp_evidence_exact : CmpExact cmp_evidence.
Proof.
  intros [j s] [k t] E. unfold cmp_evidence, cmp_then, cmp_by in E. rewrite lex_Eq in E.
  destruct E as [E1 E2]. cbn in *. apply cmp_exact in E1, E2. destruct j, k; simplify_eq; done.
Qed.


Section semantic.
Context `{IntJson, Sha256}.

Definition denies (r : JudgeOutput) : Prop := judge_decision r = Deny.

(** What the four reports say of an action the hard policy allows. *)
Definition verdict (impact : Impact) (reports : list JudgeOutput) (d : FirewallDecision) : Prop :=
  match d with
  | Allow => complete reports ∧ Forall (λ r, judge_decision r = Allow) reports
  | RequireHumanApproval =>
      complete reports ∧ ¬ Forall denies reports ∧
      (impact = High ∧ Exists denies reports ∨
       ¬ Exists denies reports ∧ Exists (λ r, judge_decision r = RequireHumanApproval) reports)
  | Deny =>
      ¬ complete reports ∨ Forall denies reports ∨ impact = Low ∧ Exists denies reports
  end.

Lemma denied_count reports :
  length (List.filter (λ r, bool_decide (judge_decision r = Deny)) reports) = length reports ↔
  Forall denies reports.
Proof.
  split.
  - induction reports as [|r l IH]; intros E; [constructor|]. cbn in E.
    pose proof (filter_length_le (λ r, bool_decide (judge_decision r = Deny)) l).
    case_bool_decide; cbn in E; [constructor; [done|apply IH; lia]|lia].
  - induction 1 as [|r l Hr _ IH]; cbn; [done|].
    rewrite bool_decide_eq_true_2 by done. cbn. by rewrite IH.
Qed.

Lemma denied_some reports :
  (0 <? length (List.filter (λ r, bool_decide (judge_decision r = Deny)) reports)) = true ↔
  Exists denies reports.
Proof.
  rewrite Nat.ltb_lt. induction reports as [|r l IH]; cbn.
  - split; [lia|]. by intros ?%Exists_nil.
  - rewrite Exists_cons, <-IH. unfold denies. case_bool_decide; cbn; [|naive_solver].
    split; [by left|lia].
Qed.

Lemma reduce_verdict d impact reports :
  decision d = Allow → verdict impact reports (reduce d impact reports).
Proof.
  intros Hd. unfold reduce. rewrite Hd. destruct (decide (Allow ≠ Allow)) as [|_]; [done|]. cbv zeta.
  pose proof (complete_axes reports) as Hc.
  destruct (Nat.eqb_spec (length reports) (length all_judges)) as [Hl|Hl];
    [|left; by intros [? _]%Hc].
  destruct (Nat.eqb_spec (size (list_to_set (map judge reports) : gset JudgeKind))
              (length all_judges)) as [Hs|Hs]; [|left; by intros [_ ?]%Hc].
  cbn [negb orb]. assert (Hcomp : complete reports) by by apply Hc.
  destruct (Nat.eqb_spec (length (List.filter (λ r, bool_decide (judge_decision r = Deny)) reports))
              (length reports)) as [Hall|Hall].
  { right; left. by apply denied_count. }
  rewrite denied_count in Hall.
  destruct (0 <? _) eqn:Hany.
  - apply denied_some in Hany. destruct impact; cbn; [by right; right|].
    split_and!; [done|done|by left].
  - assert (Hnone : ¬ Exists denies reports) by (intros ?%denied_some; congruence).
    rewrite andb_false_r.
    destruct (existsb _ reports) eqn:Hh.
    + apply existsb_true_iff in Hh as (r & Hin & Hr). apply bool_decide_eq_true in Hr.
      split_and!; [done|done|right]. split; [done|]. apply Exists_exists. by exists r.
    + split; [done|]. apply Forall_forall. intros r Hin. rewrite existsb_false_iff in Hh.
      specialize (Hh r Hin). rewrite bool_decide_eq_false in Hh.
      destruct (judge_decision r) eqn:Ej; [done| |done].
      exfalso. apply Hnone, Exists_exists. by exists r.
Qed.

Lemma Forall_Exists_absurd {A} (P Q : A → Prop) l :
  Forall P l → Exists Q l → (∀ x, P x → ¬ Q x) → False.
Proof.
  rewrite Forall_forall, Exists_exists. intros Hall (x & Hin & Hx) Hno.
  by apply (Hno x); [apply Hall|].
Qed.

Lemma complete_nonempty (P : JudgeOutput → Prop) reports :
  complete reports → Forall P reports → Exists P reports.
Proof.
  destruct reports as [|r l]; [by intros ?%Permutation_nil_l|].
  intros _ [Hr _]%Forall_cons. by apply Exists_cons; left.
Qed.

Lemma verdict_unique impact reports d e : verdict impact reports d → verdict impact reports e → d = e.
Proof.
  assert (Had : verdict impact reports Allow → verdict impact reports Deny → False).
  { intros [Hc Ha] [Hn|[Hall|[_ Hsome]]]; [done| |].
    - apply complete_nonempty in Hall; [|done].
      apply (Forall_Exists_absurd _ _ _ Ha Hall). unfold denies. congruence.
    - apply (Forall_Exists_absurd _ _ _ Ha Hsome). unfold denies. congruence. }
  assert (Har : verdict impact reports Allow → verdict impact reports RequireHumanApproval → False).
  { intros [Hc Ha] (_ & _ & [[_ Hsome]|[_ Hsome]]);
      apply (Forall_Exists_absurd _ _ _ Ha Hsome); unfold denies; congruence. }
  assert (Hdr : verdict impact reports Deny → verdict impact reports RequireHumanApproval → False).
  { intros Hd (Hc & Hna & Hr). destruct Hd as [|[|[-> Hsome]]]; [done|done|].
    destruct Hr as [[? _]|[? _]]; done. }
  destruct d, e; tauto || (intros; exfalso; auto).
Qed.

Lemma verdict_perm impact reports reports' d :
  reports ≡ₚ reports' → verdict impact reports d → verdict impact reports' d.
Proof. intros Hp. unfold verdict, complete. destruct d; by rewrite Hp. Qed.

(** Semantic evidence only restricts.  A decision of the hard policy that is
    not an allow is left as it is, identity included; an allow stays one exactly
    when the four judges have each reported once and all allow, goes to a human
    exactly for an incomplete denial of a high-impact action or a judge that asks
    for one, and is denied otherwise.  The outcome does not depend on the order
    of the reports. *)
Theorem semantic_evidence_restricts d impact reports binding
    (d' := with_semantic_evidence d impact reports binding) :
  (decision d ≠ Allow → d' = d) ∧
  (decision d = Allow → verdict impact reports (decision d')) ∧
  (∀ reports', reports ≡ₚ reports' → with_semantic_evidence d impact reports' binding = d').
Proof.
  subst d'. unfold with_semantic_evidence.
  destruct (decide (decision d ≠ Allow)) as [Hn|Hn]; [done|].
  assert (Hd : decision d = Allow) by (by destruct (decision d); [|destruct Hn..]).
  split_and!; [done|intros _; by apply reduce_verdict|].
  intros reports' Hp. f_equal.
  - apply (verdict_unique impact reports); [|by apply reduce_verdict].
    apply (verdict_perm _ reports'); [done|by apply reduce_verdict].
  - assert (Hs : ∀ f : JudgeOutput → JudgeKind * string,
      sort_by cmp_evidence (map f reports') = sort_by cmp_evidence (map f reports)).
    { intros f. by apply (sort_by_unique_exact _), Permutation_map. }
    by rewrite Hs.
Qed.
End semantic.

(** *** What the JSON of a proposal determines *)

Section json_inj.
Context `{IntJson} `{!JsonTextLaws, !Inj (=) (=) int_number}.

Lemma map_value_unique {A} (f : A → Value) m :
  (∀ x, unique_keys (f x)) → unique_keys (map_value f m).
Proof.
  intros Hf. unfold map_value. split.
  - rewrite map_map. cbn. change (NoDup (map fst (btree_entries m))). unfold btree_entries.
    rewrite sort_by_key_Permutation. apply (NoDup_fst_map_to_list m).
  - apply foldr_and_Forall, Forall_map, Forall_forall. intros e _. apply Hf.
Qed.

Lemma map_value_lookup {A} (f : A → Value) m m' k x :
  (∀ x, normalize (f x) = f x) →
  normalize (map_value f m) = normalize (map_value f m') → m !! k = Some x →
  ∃ y, m' !! k = Some y ∧ f x = f y.
Proof.
  intros Hf E Hx. unfold map_value in E. cbn in E. injection E as E. rewrite !map_map in E.
  cbn in E.
  assert (Hin : (k, f x) ∈ sort_by_key fst (map (λ e, (fst e, normalize (f (snd e)))) (btree_entries m))).
  { apply elem_of_sort_by_key, list_elem_of_fmap. exists (k, x). cbn. rewrite Hf.
    split; [done|]. by apply elem_of_btree_entries. }
  rewrite E in Hin. apply elem_of_sort_by_key, list_elem_of_fmap in Hin as ([k' y] & [= -> Hy] & Hm).
  apply elem_of_btree_entries in Hm. exists y. by rewrite Hy, Hf.
Qed.

Lemma map_value_inj {A} (f : A → Value) m m' :
  (∀ x, normalize (f x) = f x) → (∀ x y, f x = f y → x = y) →
  normalize (map_value f m) = normalize (map_value f m') → m = m'.
Proof.
  intros Hf Hinj E. apply map_eq. intros k. apply option_eq. intros x. split; intros Hx.
  - destruct (map_value_lookup f m m' k x Hf E Hx) as (y & Hy & ->%Hinj). done.
  - destruct (map_value_lookup f m' m k x Hf (eq_sym E) Hx) as (y & Hy & ->%Hinj). done.
Qed.

Lemma arguments_value_inj a b :
  normalize (arguments_value a) = normalize (arguments_value b) → a = b.
Proof.
  apply map_value_inj.
  - by intros [].
  - intros [] []; cbn; intros E; inversion E; subst; f_equal; by apply (inj int_number).
Qed.

Lemma capability_code_inj c d : capability_code c = capability_code d → c = d.
Proof. by destruct c, d. Qed.

Lemma capabilities_value_inj a b : capabilities_value a = capabilities_value b → a = b.
Proof.
  assert (Hgo : ∀ a b, capabilities_value a = capabilities_value b → a ⊆ b).
  { clear. intros a b E%jstrings_inj c Hc.
    assert (Hin : capability_code c ∈ map capability_code
        (List.filter (λ c, bool_decide (c ∈ a)) all_capabilities)).
    { apply list_elem_of_fmap. exists c. split; [done|].
      rewrite list_elem_of_In, filter_In, <-list_elem_of_In.
      split; [|by apply bool_decide_eq_true].
      apply (bool_decide_unpack (c ∈ all_capabilities)). by destruct c. }
    rewrite E in Hin. apply list_elem_of_fmap in Hin as (d & Hd & Hin).
    apply capability_code_inj in Hd as ->.
    rewrite list_elem_of_In, filter_In, <-list_elem_of_In in Hin.
    by apply proj2, bool_decide_eq_true in Hin. }
  intros E. apply (anti_symm (⊆)); by apply Hgo.
Qed.

Lemma normalize_jstrings l : normalize (jstrings l) = jstrings l.
Proof. unfold jstrings. cbn. f_equal. rewrite map_map. by apply map_ext. Qed.

Lemma capabilities_norm_inj a b :
  normalize (capabilities_value a) = normalize (capabilities_value b) → a = b.
Proof.
  unfold capabilities_value. rewrite !normalize_jstrings. apply capabilities_value_inj.
Qed.

Lemma capabilities_value_unique cs : unique_keys (capabilities_value cs).
Proof.
  unfold capabilities_value, jstrings. generalize (map capability_code
    (List.filter (λ c, bool_decide (c ∈ cs)) all_capabilities)). intros l. by induction l.
Qed.

(** Scalar fields keep the keys of an object unique. *)
Definition scalar (v : Value) : Prop := match v with Array _ | Object _ => False | _ => True end.
Lemma pair_unique k l v w : k ≠ l → scalar v → scalar w → unique_keys (Object [(k, v); (l, w)]).
Proof.
  intros Hkl Hv Hw. cbn. split_and!; [|by destruct v|by destruct w|done].
  constructor; [by intros ->%list_elem_of_singleton|apply NoDup_singleton].
Qed.

Lemma pair_fields k l v w v' w' :
  normalize (Object [(k, v); (l, w)]) = normalize (Object [(k, v'); (l, w')]) →
  k ≠ l → scalar v' → scalar w' → normalize v = normalize v' ∧ normalize w = normalize w'.
Proof.
  intros E Hkl Hv Hw. pose proof (pair_unique k l v' w' Hkl Hv Hw) as Hu.
  split; [apply (object_field_eq _ _ k _ _ Hu E)|apply (object_field_eq _ _ l _ _ Hu E)];
    by repeat first [left|right].
Qed.

Lemma intent_value_unique i : unique_keys (intent_value i).
Proof.
  unfold intent_value, version_value. split.
  - apply (bool_decide_unpack (NoDup ["schema_version"; "goal_id"; "tool_id"; "tool_version";
      "capabilities"; "scope"; "destination"; "resource"; "effect"; "target_version"])).
    by vm_compute.
  - rewrite foldr_and_Forall. repeat apply Forall_cons_2;
      cbn [snd]; lazymatch goal with
      | |- unique_keys (capabilities_value _) => apply capabilities_value_unique
      | |- unique_keys (Object _) => by apply pair_unique
      | |- Forall _ [] => apply Forall_nil_2
      | |- _ => exact I
      end.
Qed.

Lemma effect_code_inj c d : effect_code c = effect_code d → c = d.
Proof. by destruct c, d. Qed.

Lemma intent_value_inj i j : normalize (intent_value i) = normalize (intent_value j) → i = j.
Proof.
  intros E.
  assert (Hf : ∀ k v w, (k, v) ∈ (match intent_value i with Object o => o | _ => [] end) →
    (k, w) ∈ (match intent_value j with Object o => o | _ => [] end) → normalize v = normalize w).
  { intros k v w. apply object_field_eq; [apply (intent_value_unique j)|exact E]. }
  clear E.
  destruct i as [v g t tv cs s d r [ev ec] [ts rev]].
  destruct j as [v' g' t' tv' cs' s' d' r' [ev' ec'] [ts' rev']]. cbn [intent_value] in Hf.
  object_field Hf "schema_version". intros [= ->%(inj int_number)].
  object_field Hf "goal_id". intros [= ->]. object_field Hf "tool_id". intros [= ->].
  object_field Hf "tool_version". intros [= ->]. object_field Hf "scope". intros [= ->].
  object_field Hf "destination". intros [= ->]. object_field Hf "resource". intros [= ->].
  object_field Hf "capabilities". intros Ec%capabilities_norm_inj. cbn in Ec. subst cs'.
  object_field Hf "effect". intros Ee. object_field Hf "target_version". intros Et. clear Hf.
  apply pair_fields in Ee as [[= ->%(inj int_number)] [= ->%effect_code_inj]]; [|done..].
  by apply pair_fields in Et as [[= ->%(inj int_number)] [= ->]].
Qed.
End json_inj.
