(* ===== verification/EffectLedger.v ===== *)
(** * The effect ledger

    [workflow-runtime/src/effect_ledger.rs] and [effect_ledger/executor.rs]: the
    durable lifecycle of an approved side effect, its executor and the tool
    handler that drives it.

    The database is its two tables, [approvals] and the append-only
    [effect_history]; a transaction either commits or leaves them.  Whether
    SQLite serves a read or commits a write is part of the environment ([Io]),
    and so are the clock, the time spent in a call and the remote service (a
    state [W] with the three operations of the executor).  A stored state that
    [serde_json] does not decode is [None].  Opening the files, the lease and
    their permissions are not modelled: one ledger owns its tables. *)

From S2P Require Import Prelude Hashing.
From S2P Require Import Policy Text Json Approval Spec Trust Event Tool Firewall.

(*| runtime/effect_ledger.rs 35-41 ApprovalContext *)
Record ApprovalContext := mk_ApprovalContext {
  operation_id : string; workflow_lock : string; approver : string; expires_at_unix_ms : Z }.
#[export] Instance ApprovalContext_eq_dec : EqDecision ApprovalContext.
Proof. solve_decision. Defined.

(*| runtime/effect_ledger.rs 45-51 ApprovalRequest *)
Record ApprovalRequest := mk_ApprovalRequest {
  approval_digest : string; effect_key : string; context : ApprovalContext;
  proposal : ToolProposal; rule_digest : string }.

(*| runtime/effect_ledger.rs 113-121 EffectState *)
Inductive EffectState :=
| Proposed | Approved | Started | Committed | Verified | Failed | Indeterminate.
#[export] Instance EffectState_eq_dec : EqDecision EffectState.
Proof. solve_decision. Defined.

(*| runtime/effect_ledger.rs 139-150 LedgerError *)
Inductive LedgerError :=
| LedgerInvalidInput | Denied | ApprovalMismatch | ApprovalRequired | LedgerExpired
| LedgerMissing | Busy | Storage | Corrupt | ExecutorMismatch.

(*| runtime/effect_ledger.rs 126-135 EffectAuditReceipt *)
Record EffectAuditReceipt := mk_EffectAuditReceipt {
  audit_schema_version : Z; audit_effect_key : string; audit_approval_digest : string;
  audit_target_digest : string; audit_policy_digest : string; audit_workflow_lock : string;
  audit_executor_digest : string; audit_history : list EffectState }.

(** ** The tables *)

Record EffectLedger := mk_EffectLedger {
  approvals : gmap string string; effect_history : list (string * option EffectState) }.

(** A ledger opened on a new file. *)
Definition empty_ledger : EffectLedger := mk_EffectLedger ∅ [].

Record Io := mk_Io { read_ok : bool; write_ok : bool }.

(** [SELECT state FROM effect_history WHERE effect_key=?1 ORDER BY sequence]. *)
Definition rows (ledger : EffectLedger) (key : string) : list (option EffectState) :=
  map snd (List.filter (λ r, str_eqb (fst r) key) (effect_history ledger)).

Definition insert_row (key : string) (s : EffectState) (ledger : EffectLedger) : EffectLedger :=
  mk_EffectLedger (approvals ledger) (effect_history ledger ++ [(key, Some s)]).

(** ** Requests *)

Section bind.
Context `{IntJson, Sha256}.

(*| runtime/effect_ledger.rs 34-41 ApprovalContext *)
Definition context_value (c : ApprovalContext) : Value :=
  Object [("operation_id", VString (operation_id c)); ("workflow_lock", VString (workflow_lock c));
          ("approver", VString (approver c)); ("expires_at_unix_ms", jnum (expires_at_unix_ms c))].

(*| runtime/effect_ledger.rs 76-78 ApprovalRequest::bind *)
Definition effect_key_of (goal : TrustedGoal) (p : ToolProposal) (c : ApprovalContext) : string :=
  argument_fingerprint (Object
    [("domain", VString "effect-v1"); ("goal", VString (goal_id goal));
     ("operation", VString (operation_id c)); ("workflow_lock", VString (workflow_lock c));
     ("intent", intent_value (intent p)); ("arguments", arguments_value (proposal_arguments p))]).

(*| runtime/effect_ledger.rs 79-80 ApprovalRequest::bind *)
Definition approval_digest_of (hard_policy key : string) (c : ApprovalContext) : string :=
  argument_fingerprint (Object
    [("domain", VString "approval-v1"); ("hard_policy", VString hard_policy);
     ("effect_key", VString key); ("context", context_value c)]).

(*| runtime/effect_ledger.rs 55-95 ApprovalRequest::bind *)
Definition bind (goal : TrustedGoal) (policy : FirewallPolicy) (p : ToolProposal)
    (c : ApprovalContext) : result LedgerError ApprovalRequest :=
  if negb (token (operation_id c) 256) || negb (token (approver c) 128) ||
     (expires_at_unix_ms c =? 0)%Z || negb (str_len (workflow_lock c) =? 64)%Z ||
     negb (str_all is_lower_hex (workflow_lock c))
  then Err LedgerInvalidInput
  else
    let d := evaluate policy goal p in
    if decide (decision d = Deny) then Err Denied
    else
      let key := effect_key_of goal p c in
      match fw_tools policy !! intent_tool_id (intent p) with
      | None => Err Denied
      | Some rule =>
          Ok (mk_ApprovalRequest (approval_digest_of (decision_identity d) key c) key c p
                (argument_fingerprint (rule_value rule)))
      end.
End bind.

(** ** Reading *)

(*| runtime/effect_ledger.rs 268-279 EffectLedger::history *)
Definition lifecycle (a b : EffectState) : bool :=
  match a, b with
  | Proposed, Approved
  | Approved, (Started | Failed)
  | Started, (Committed | Failed | Indeterminate)
  | Indeterminate, (Committed | Failed)
  | Committed, (Verified | Failed) => true
  | _, _ => false
  end.

(** Every [windows(2)] is a step of the lifecycle. *)
Fixpoint path (l : list EffectState) : bool :=
  match l with
  | a :: ((b :: _) as l) => lifecycle a b && path l
  | _ => true
  end.

(*| runtime/effect_ledger.rs 292-308 EffectLedger::binding *)
Definition binding (io : Io) (req : ApprovalRequest) (ledger : EffectLedger) :
    result LedgerError (option string) :=
  if negb (read_ok io) then Err Storage
  else match approvals ledger !! effect_key req with
  | Some digest =>
      if negb (str_eqb digest (approval_digest req)) then Err ApprovalMismatch else Ok (Some digest)
  | None => Ok None
  end.

(*| runtime/effect_ledger.rs 259-284 EffectLedger::history *)
Definition history (io : Io) (req : ApprovalRequest) (ledger : EffectLedger) :
    result LedgerError (list EffectState) :=
  bound ← binding io req ledger;
  match bound with
  | None => Err LedgerMissing
  | Some _ =>
      states ← traverse (λ row, match row with Some s => Ok s | None => Err Corrupt end)
                 (rows ledger (effect_key req));
      if negb (bool_decide (head states = Some Proposed)) || negb (path states)
      then Err Corrupt else Ok states
  end.

(*| runtime/effect_ledger.rs 286-291 EffectLedger::state *)
Definition state (io : Io) (req : ApprovalRequest) (ledger : EffectLedger) :
    result LedgerError EffectState :=
  states ← history io req ledger;
  match last states with Some s => Ok s | None => Err Corrupt end.

(** ** Writing *)

(** A statement of its own, which SQLite commits or refuses. *)
(*| runtime/effect_ledger.rs 309-319 EffectLedger::append *)
Definition append_state (io : Io) (req : ApprovalRequest) (s : EffectState)
    (ledger : EffectLedger) : EffectLedger * result LedgerError EffectState :=
  if write_ok io then (insert_row (effect_key req) s ledger, Ok s) else (ledger, Err Storage).

(*| runtime/effect_ledger.rs 222-237 EffectLedger::propose *)
Definition propose (io : Io) (req : ApprovalRequest) (ledger : EffectLedger) :
    EffectLedger * result LedgerError EffectState :=
  match binding io req ledger with
  | Err e => (ledger, Err e)
  | Ok (Some _) => (ledger, state io req ledger)
  | Ok None =>
      if write_ok io
      then (insert_row (effect_key req) Proposed
              (mk_EffectLedger (<[effect_key req := approval_digest req]> (approvals ledger))
                 (effect_history ledger)), Ok Proposed)
      else (ledger, Err Storage)
  end.

(*| runtime/effect_ledger.rs 240-257 EffectLedger::approve *)
Definition approve (io : Io) (req : ApprovalRequest) (digest actor : string) (now_unix_ms : Z)
    (ledger : EffectLedger) : EffectLedger * result LedgerError EffectState :=
  if negb (str_eqb digest (approval_digest req)) || negb (str_eqb actor (approver (context req)))
  then (ledger, Err ApprovalMismatch)
  else if (expires_at_unix_ms (context req) <=? now_unix_ms)%Z then (ledger, Err LedgerExpired)
  else match state io req ledger with
  | Err e => (ledger, Err e)
  | Ok Proposed => append_state io req Approved ledger
  | Ok s => (ledger, Ok s)
  end.

(** ** Executors *)

(*| runtime/effect_ledger/executor.rs 12-16 RemoteObservation *)
Inductive RemoteObservation := ObservedAbsent | ObservedCommitted | ObservedUnknown.
(*| runtime/effect_ledger/executor.rs 20-25 ExecutionOutcome *)
Inductive ExecutionOutcome := ExecutionCommitted | ExecutionRejected | ExecutionUnknown.
(*| runtime/effect_ledger/executor.rs 28-32 Postcondition *)
Inductive Postcondition := Satisfied | Violated | PostUnknown.

(*| runtime/effect_ledger/executor.rs 41-45 EffectExecutor *)
Record EffectExecutor (W : Type) := mk_EffectExecutor {
  reconcile : ApprovalRequest → W → W * RemoteObservation;
  execute : ApprovalRequest → W → W * ExecutionOutcome;
  verify : ApprovalRequest → W → W * Postcondition }.
Arguments mk_EffectExecutor {W}.
Arguments reconcile {W}.
Arguments execute {W}.
Arguments verify {W}.

(*| runtime/effect_ledger/executor.rs 50-52 ExecutorRegistry *)
Definition ExecutorRegistry (W : Type) : Type := gmap (string * string) (string * EffectExecutor W).

(*| runtime/effect_ledger/executor.rs 58-76 ExecutorRegistry::register *)
Definition register `{IntJson, Sha256} {W : Type} (tool_id : string) (rule : ToolRule)
    (executor : EffectExecutor W) (registry : ExecutorRegistry W) :
    result LedgerError (ExecutorRegistry W) :=
  if negb (token tool_id 128) || negb (token (rule_version rule) 128) then Err LedgerInvalidInput
  else
    let key := (tool_id, rule_version rule) in
    match registry !! key with
    | Some _ => Err ExecutorMismatch
    | None => Ok (<[key := (argument_fingerprint (rule_value rule), executor)]> registry)
    end.

(*| runtime/effect_ledger/executor.rs 77-87 ExecutorRegistry::get *)
Definition registry_get {W : Type} (registry : ExecutorRegistry W) (req : ApprovalRequest) :
    result LedgerError (EffectExecutor W) :=
  let i := intent (proposal req) in
  match registry !! (intent_tool_id i, intent_tool_version i) with
  | Some (digest, executor) =>
      if str_eqb digest (rule_digest req) then Ok executor else Err ExecutorMismatch
  | None => Err ExecutorMismatch
  end.

(** ** One durable phase *)

Section advance.
Context {W : Type}.

(** [entered.elapsed()] in milliseconds, saturated, when it is read. *)
Record Turn := mk_Turn { now_unix_ms : Z; elapsed_ms : Z; turn_io : Io }.

(** The phase after [state], with the remote calls it takes. *)
(*| runtime/effect_ledger/executor.rs 112-152 EffectLedger::advance *)
Definition next_phase (turn : Turn) (executor : EffectExecutor W) (req : ApprovalRequest)
    (s : EffectState) (w : W) : W * EffectState :=
  match s with
  | Approved =>
      (w, if (expires_at_unix_ms (context req) <=? now_unix_ms turn)%Z then Failed else Started)
  | Started | Indeterminate =>
      match reconcile executor req w with
      | (w, ObservedCommitted) => (w, Committed)
      | (w, ObservedUnknown) => (w, Indeterminate)
      | (w, ObservedAbsent) =>
          if (expires_at_unix_ms (context req) <=?
              saturating_add (now_unix_ms turn) (elapsed_ms turn))%Z
          then (w, Indeterminate)
          else match execute executor req w with
          | (w, ExecutionCommitted) => (w, Committed)
          | (w, (ExecutionRejected | ExecutionUnknown)) => (w, Indeterminate)
          end
      end
  | Committed =>
      match verify executor req w with
      | (w, Satisfied) => (w, Verified)
      | (w, Violated) => (w, Failed)
      | (w, PostUnknown) => (w, Committed)
      end
  | s => (w, s)
  end.

(*| runtime/effect_ledger/executor.rs 97-158 EffectLedger::advance *)
Definition advance (turn : Turn) (registry : ExecutorRegistry W) (req : ApprovalRequest) :
    method (EffectLedger * W) LedgerError EffectState := λ '(ledger, w),
  match state (turn_io turn) req ledger with
  | Err e => ((ledger, w), Err e)
  | Ok s =>
      if bool_decide (s = Verified) || bool_decide (s = Failed) then ((ledger, w), Ok s)
      else if bool_decide (s = Proposed) then ((ledger, w), Err ApprovalRequired)
      else match registry_get registry req with
      | Err e => ((ledger, w), Err e)
      | Ok executor =>
          let '(w, next) := next_phase turn executor req s w in
          if bool_decide (s = next) then ((ledger, w), Ok s)
          else
            let '(ledger, r) := append_state (turn_io turn) req next ledger in
            ((ledger, w), r)
      end
  end.
End advance.

(** ** The tool handler *)

(*| runtime/effect_ledger.rs 324-330 DurableEffectHandler *)
Record DurableEffectHandler `{JsonText} (W : Type) := mk_DurableEffectHandler {
  handler_request : ApprovalRequest; handler_registry : ExecutorRegistry W;
  handler_registration : ToolRegistration }.
Arguments mk_DurableEffectHandler {_ W}.
Arguments handler_request {_ W}.
Arguments handler_registry {_ W}.
Arguments handler_registration {_ W}.

Section handler.
Context `{IntJson, Sha256} `{!EqDecision json_number} {W : Type}.

(*| runtime/effect_ledger.rs 334-352 DurableEffectHandler::new *)
Definition DurableEffectHandler_new (req : ApprovalRequest) (registry : ExecutorRegistry W)
    (registration : ToolRegistration) : result LedgerError (DurableEffectHandler W) :=
  if negb (str_eqb (name registration) (intent_tool_id (intent (proposal req)))) ||
     negb (str_eqb (tool_version (provenance registration))
             (intent_tool_version (intent (proposal req))))
  then Err ExecutorMismatch else Ok (mk_DurableEffectHandler req registry registration).

(*| runtime/effect_ledger.rs 375-389 DurableEffectHandler::bridge_error *)
Definition bridge_error (e : LedgerError) : ToolBridgeErrorKind :=
  match e with
  | LedgerInvalidInput => InvalidInput
  | ApprovalMismatch | ApprovalRequired | Denied | LedgerExpired | LedgerMissing => ApprovalDenied
  | Busy | Storage | Corrupt | ExecutorMismatch => HandlerFailed
  end.

(** [for _ in 0..n { if terminal { break } state = advance()? }]; the clock is
    read once a turn. *)
(*| runtime/effect_ledger.rs 459-466 DurableEffectHandler::execute *)
Fixpoint advance_up_to (turns : list Turn) (registry : ExecutorRegistry W) (req : ApprovalRequest)
    (s : EffectState) : method (EffectLedger * W) LedgerError EffectState :=
  match turns with
  | [] => mret s
  | turn :: turns =>
      if bool_decide (s = Verified) || bool_decide (s = Failed) then mret s
      else s ← advance turn registry req; advance_up_to turns registry req s
  end.

(** The handler's first read, then up to four turns. *)
(*| runtime/effect_ledger.rs 438-485 DurableEffectHandler::execute *)
Definition handler_execute (io : Io) (turns : nat → Turn) (h : DurableEffectHandler W)
    (arguments : Value) :
    method (EffectLedger * W) ToolBridgeErrorKind (ToolEnvelope Value) := λ '(ledger, w),
  let req := handler_request h in
  let expected := arguments_value (proposal_arguments (proposal req)) in
  if negb (bool_decide (arguments = expected)) then ((ledger, w), Err InvalidInput)
  else match state io req ledger with
  | Err e => ((ledger, w), Err (bridge_error e))
  | Ok s =>
      let '(sys, r) := advance_up_to (map turns (seq 0 4)) (handler_registry h) req s (ledger, w) in
      (sys, match map_err bridge_error r with
            | Err e => Err e
            | Ok Verified =>
                Ok (Success (Object [("effect_key", VString (effect_key req));
                                     ("state", VString "verified")])
                      (provenance (handler_registration h)) None None)
            | Ok Failed => Ok (Failure Internal (provenance (handler_registration h)))
            | Ok _ => Err HandlerFailed
            end)
  end.

(*| runtime/effect_ledger.rs 393-425 DurableEffectHandler::effect_audit *)
Definition effect_audit (io : Io) (h : DurableEffectHandler W) (fingerprint : string)
    (ledger : EffectLedger) : result ToolBridgeErrorKind (option EffectAuditReceipt) :=
  let req := handler_request h in
  if negb (str_eqb fingerprint
             (argument_fingerprint (arguments_value (proposal_arguments (proposal req)))))
  then Ok None
  else match history io req ledger with
  | Err LedgerMissing => Ok None
  | Err e => Err (bridge_error e)
  | Ok states =>
      Ok (Some (mk_EffectAuditReceipt 1 (effect_key req) (approval_digest req)
        (argument_fingerprint (Object [("domain", VString "effect-target-v1");
                                       ("intent", intent_value (intent (proposal req)))]))
        (rule_digest req) (workflow_lock (context req))
        (argument_fingerprint (VString (implementation_digest (handler_registration h))))
        states))
  end.
End handler.

(** ** What a request binds *)

Section binding.
Context `{IntJson, Sha256} `{!JsonTextLaws, !Inj (=) (=) int_number, !Inj (=) (=) sha256}.

Lemma request_Ok goal policy p c req :
  bind goal policy p c = Ok req →
  decision (evaluate policy goal p) ≠ Deny ∧
  (∃ rule, fw_tools policy !! intent_tool_id (intent p) = Some rule ∧
     rule_digest req = argument_fingerprint (rule_value rule)) ∧
  effect_key req = effect_key_of goal p c ∧ proposal req = p ∧ context req = c ∧
  approval_digest req =
    approval_digest_of (decision_identity (evaluate policy goal p)) (effect_key req) c.
Proof.
  unfold bind. destruct (_ || _); [done|]. case_decide; [done|].
  destruct (fw_tools policy !! _) as [rule|] eqn:Er; [|done]. intros [= <-]. cbn. by split_and!; eauto.
Qed.

Lemma effect_value_unique goal p c :
  unique_keys (Object
    [("domain", VString "effect-v1"); ("goal", VString (goal_id goal));
     ("operation", VString (operation_id c)); ("workflow_lock", VString (workflow_lock c));
     ("intent", intent_value (intent p)); ("arguments", arguments_value (proposal_arguments p))]).
Proof.
  split.
  - apply (bool_decide_unpack (NoDup ["domain"; "goal"; "operation"; "workflow_lock"; "intent";
      "arguments"])). by vm_compute.
  - rewrite foldr_and_Forall. repeat apply Forall_cons_2; try exact I; [..|apply Forall_nil_2].
    + apply intent_value_unique.
    + apply map_value_unique. by intros [].
Qed.

Lemma effect_key_inj goal goal' p p' c c' :
  effect_key_of goal p c = effect_key_of goal' p' c' →
  goal_id goal = goal_id goal' ∧ operation_id c = operation_id c' ∧
  workflow_lock c = workflow_lock c' ∧ intent p = intent p' ∧
  proposal_arguments p = proposal_arguments p'.
Proof.
  intros E%argument_fingerprint_inj; [|apply effect_value_unique..].
  assert (Hf : ∀ k v w, _ → _ → normalize v = normalize w) by
    (intros k v w; apply (object_field_eq _ _ k _ _ (effect_value_unique _ _ _) E)).
  object_field Hf "goal". intros [= ->]. object_field Hf "operation". intros [= ->].
  object_field Hf "workflow_lock". intros [= ->]. object_field Hf "intent". intros ->%intent_value_inj.
  object_field Hf "arguments". intros ->%arguments_value_inj. done.
Qed.

Lemma context_value_unique c : unique_keys (context_value c).
Proof.
  split; [|by repeat split].
  apply (bool_decide_unpack (NoDup ["operation_id"; "workflow_lock"; "approver";
    "expires_at_unix_ms"])). by vm_compute.
Qed.

Lemma context_value_inj c c' : normalize (context_value c) = normalize (context_value c') → c = c'.
Proof.
  intros E. assert (Hf : ∀ k v w, _ → _ → normalize v = normalize w) by
    (intros k v w; apply (object_field_eq _ _ k _ _ (context_value_unique _) E)).
  destruct c, c'. cbn in Hf. clear E. object_field Hf "operation_id". intros [= ->].
  object_field Hf "workflow_lock". intros [= ->]. object_field Hf "approver". intros [= ->].
  object_field Hf "expires_at_unix_ms". intros [= ->%(inj int_number)]. done.
Qed.

Lemma approval_value_unique i key c :
  unique_keys (Object [("domain", VString "approval-v1"); ("hard_policy", VString i);
    ("effect_key", VString key); ("context", context_value c)]).
Proof.
  split.
  - apply (bool_decide_unpack (NoDup ["domain"; "hard_policy"; "effect_key"; "context"])).
    by vm_compute.
  - rewrite foldr_and_Forall. repeat apply Forall_cons_2; try exact I; [|apply Forall_nil_2].
    apply context_value_unique.
Qed.

Lemma approval_digest_inj i i' key key' c c' :
  approval_digest_of i key c = approval_digest_of i' key' c' → i = i' ∧ key = key' ∧ c = c'.
Proof.
  intros E%argument_fingerprint_inj; [|apply approval_value_unique..].
  assert (Hf : ∀ k v w, _ → _ → normalize v = normalize w) by
    (intros k v w; apply (object_field_eq _ _ k _ _ (approval_value_unique _ _ _) E)).
  object_field Hf "hard_policy". intros [= ->]. object_field Hf "effect_key". intros [= ->].
  object_field Hf "context". by intros ->%context_value_inj.
Qed.

(** An approval binds the whole request.  With a collision-free hash, two
    requests the hard policy admits have the same effect key exactly when they
    are the same operation, for the same goal and workflow lock, with the same
    intent and arguments; they have the same approval digest exactly when in
    addition the policy decided alike and operation, lock, approver and expiry
    are the same.  A denied proposal has no request. *)
Theorem approval_binds_request goal goal' policy policy' p p' c c' req req' :
  bind goal policy p c = Ok req → bind goal' policy' p' c' = Ok req' →
  (effect_key req = effect_key req' ↔
     goal_id goal = goal_id goal' ∧ operation_id c = operation_id c' ∧
     workflow_lock c = workflow_lock c' ∧ intent p = intent p' ∧
     proposal_arguments p = proposal_arguments p') ∧
  (approval_digest req = approval_digest req' ↔
     effect_key req = effect_key req' ∧ c = c' ∧
     decision_identity (evaluate policy goal p) = decision_identity (evaluate policy' goal' p')) ∧
  decision (evaluate policy goal p) ≠ Deny.
Proof.
  intros (Hd & _ & Ek & _ & _ & Ea)%request_Ok (_ & _ & Ek' & _ & _ & Ea')%request_Ok. split_and!; [| |done].
  - rewrite Ek, Ek'. split; [apply effect_key_inj|]. intros (E1 & E2 & E3 & E4 & E5).
    unfold effect_key_of. by rewrite E1, E2, E3, E4, E5.
  - rewrite Ea, Ea'. split.
    + by intros (-> & -> & ->)%approval_digest_inj.
    + by intros (-> & -> & ->).
Qed.
End binding.

(** ** The history of an effect *)

(** An effect is known exactly when it is bound to an approval digest, and then
    its rows are decodable and walk the lifecycle from [Proposed]. *)
Definition ledger_wf (l : EffectLedger) : Prop :=
  ∀ key,
    match approvals l !! key with
    | None => rows l key = []
    | Some _ => ∃ states, rows l key = map Some states ∧ head states = Some Proposed ∧
                          path states = true
    end.

Lemma rows_insert key s l k :
  rows (insert_row key s l) k = rows l k ++ (if decide (key = k) then [Some s] else []).
Proof.
  unfold rows, insert_row. cbn [effect_history]. rewrite List.filter_app, map_app. f_equal. cbn.
  unfold str_eqb. case_decide; [by rewrite bool_decide_eq_true_2|by rewrite bool_decide_eq_false_2].
Qed.

Lemma path_snoc states s :
  path (states ++ [s]) = path states && from_option (λ a, lifecycle a s) true (last states).
Proof.
  induction states as [|a l IH]; [done|]. destruct l as [|b l]; [cbn; by rewrite andb_true_r|].
  cbn [app path] in *. rewrite IH. cbn [last]. by rewrite andb_assoc.
Qed.

Lemma traverse_rows states :
  traverse (λ row, match row with Some s => Ok s | None => Err Corrupt end) (map Some states) =
  Ok (E := LedgerError) (states : list EffectState).
Proof. induction states as [|s l IH]; [done|]. cbn. by rewrite IH. Qed.

(** Reading a well-formed ledger: a history is what the table holds, and no
    history is reported corrupt. *)
Lemma history_wf io req l :
  ledger_wf l →
  match history io req l with
  | Ok states =>
      read_ok io = true ∧ approvals l !! effect_key req = Some (approval_digest req) ∧
      rows l (effect_key req) = map Some states ∧ head states = Some Proposed ∧ path states = true
  | Err e => e ∈ [Storage; ApprovalMismatch; LedgerMissing]
  end.
Proof.
  intros Hwf. specialize (Hwf (effect_key req)). unfold history, binding.
  destruct (read_ok io); cbn; [|set_solver].
  destruct (approvals l !! effect_key req) as [digest|] eqn:Ed; cbn; [|set_solver].
  destruct (str_eqb digest (approval_digest req)) eqn:E; cbn; [|set_solver].
  apply str_eqb_eq in E as ->.
  destruct Hwf as (states & Hr & Hh & Hp). rewrite Hr, traverse_rows. cbn.
  rewrite bool_decide_eq_true_2, Hp by done. by cbn.
Qed.

Lemma state_wf io req l :
  ledger_wf l →
  match state io req l with
  | Ok s => ∃ states, history io req l = Ok states ∧ last states = Some s
  | Err e => e ∈ [Storage; ApprovalMismatch; LedgerMissing]
  end.
Proof.
  intros Hwf. pose proof (history_wf io req l Hwf) as Hh. unfold state.
  destruct (history io req l) as [states|e]; cbn; [|done].
  destruct Hh as (_ & _ & _ & Hhead & _).
  destruct (last states) as [s|] eqn:El; [by eauto|].
  apply last_None in El as ->. done.
Qed.

Lemma state_Ok io req l s :
  ledger_wf l → state io req l = Ok s →
  ∃ states, history io req l = Ok states ∧ last states = Some s ∧
    approvals l !! effect_key req = Some (approval_digest req) ∧
    rows l (effect_key req) = map Some states ∧ head states = Some Proposed ∧ path states = true.
Proof.
  intros Hwf E. pose proof (state_wf io req l Hwf) as Hs. rewrite E in Hs.
  destruct Hs as (states & Hh & Hl). pose proof (history_wf io req l Hwf) as Hw.
  rewrite Hh in Hw. exists states. naive_solver.
Qed.

(** Appending a step of the lifecycle keeps the ledger well formed. *)
Lemma insert_wf io req l s s' :
  ledger_wf l → state io req l = Ok s → lifecycle s s' = true →
  ledger_wf (insert_row (effect_key req) s' l).
Proof.
  intros Hwf E Hlc key. apply state_Ok in E as (states & _ & Hl & Ha & Hr & Hh & Hp); [|done].
  cbn [insert_row approvals]. rewrite rows_insert.
  destruct (decide (effect_key req = key)) as [<-|Hne]; [|rewrite app_nil_r; apply Hwf].
  rewrite Ha. exists (states ++ [s']). rewrite Hr, map_app. split_and!; [done| |].
  - destruct states; [done|]. exact Hh.
  - by rewrite path_snoc, Hp, Hl.
Qed.

Lemma propose_wf io req l : ledger_wf l → ledger_wf (propose io req l).1.
Proof.
  intros Hwf. unfold propose. destruct (binding io req l) as [[d|]|e] eqn:Eb; [done| |done].
  destruct (write_ok io); [|done]. intros key. cbn [fst]. rewrite rows_insert.
  cbn [insert_row approvals].
  unfold binding in Eb. destruct (read_ok io); cbn in Eb; [|done].
  destruct (approvals l !! effect_key req) as [d|] eqn:Ea; [by destruct (str_eqb _ _)|].
  specialize (Hwf key).
  destruct (decide (effect_key req = key)) as [<-|Hne].
  - rewrite lookup_insert_eq. rewrite Ea in Hwf. exists [Proposed].
    unfold rows in *. cbn. by rewrite Hwf.
  - rewrite lookup_insert_ne by done. rewrite app_nil_r. done.
Qed.

Lemma approve_wf io req digest actor now l : ledger_wf l → ledger_wf (approve io req digest actor now l).1.
Proof.
  intros Hwf. unfold approve. destruct (_ || _); [done|]. destruct (_ <=? _)%Z; [done|].
  destruct (state io req l) as [[]|e] eqn:E; try done. unfold append_state.
  destruct (write_ok io); [|done]. by eapply insert_wf.
Qed.

(** A phase that changes the state takes a step of the lifecycle. *)
Lemma next_phase_lifecycle {W} turn (executor : EffectExecutor W) req s w w' s' :
  next_phase turn executor req s w = (w', s') → s ≠ s' → lifecycle s s' = true.
Proof.
  destruct s; cbn [next_phase].
  - by intros [= <- <-].
  - destruct (_ <=? _)%Z; by intros [= <- <-].
  - destruct (reconcile executor req w) as [v []]; try (by intros [= <- <-]).
    destruct (_ <=? _)%Z; [by intros [= <- <-]|].
    destruct (execute executor req v) as [u []]; by intros [= <- <-].
  - destruct (verify executor req w) as [v []]; by intros [= <- <-].
  - by intros [= <- <-].
  - by intros [= <- <-].
  - destruct (reconcile executor req w) as [v []]; try (by intros [= <- <-]).
    destruct (_ <=? _)%Z; [by intros [= <- <-]|].
    destruct (execute executor req v) as [u []]; by intros [= <- <-].
Qed.

(** What one [advance] does. *)
Inductive advanced {W} (turn : Turn) (registry : ExecutorRegistry W) (req : ApprovalRequest)
    (l : EffectLedger) (w : W) : EffectLedger * W → result LedgerError EffectState → Prop :=
| adv_refused e : advanced turn registry req l w (l, w) (Err e)
| adv_terminal s :
    state (turn_io turn) req l = Ok s → s = Verified ∨ s = Failed →
    advanced turn registry req l w (l, w) (Ok s)
| adv_phase s executor w' s' l' r :
    state (turn_io turn) req l = Ok s → s ≠ Proposed → s ≠ Verified → s ≠ Failed →
    registry_get registry req = Ok executor →
    next_phase turn executor req s w = (w', s') →
    (s = s' ∧ l' = l ∧ r = Ok s ∨
     s ≠ s' ∧ append_state (turn_io turn) req s' l = (l', r)) →
    advanced turn registry req l w (l', w') r.

Lemma advance_advanced {W} turn (registry : ExecutorRegistry W) req l w sys r :
  advance turn registry req (l, w) = (sys, r) → advanced turn registry req l w sys r.
Proof.
  cbn [advance]. destruct (state (turn_io turn) req l) as [s|e] eqn:Es; [|intros [= <- <-]; constructor].
  destruct (bool_decide (s = Verified)) eqn:Hv.
  { apply bool_decide_eq_true in Hv. intros [= <- <-]. by apply adv_terminal; [|left]. }
  destruct (bool_decide (s = Failed)) eqn:Hf.
  { apply bool_decide_eq_true in Hf. intros [= <- <-]. by apply adv_terminal; [|right]. }
  destruct (bool_decide (s = Proposed)) eqn:Hp; cbn [orb]; [intros [= <- <-]; constructor|].
  rewrite bool_decide_eq_false in Hv, Hf, Hp.
  destruct (registry_get registry req) as [executor|e] eqn:Er; [|intros [= <- <-]; constructor].
  destruct (next_phase turn executor req s w) as [w' s'] eqn:En.
  destruct (bool_decide (s = s')) eqn:Hs.
  - apply bool_decide_eq_true in Hs. intros [= <- <-]. eapply adv_phase; eauto.
  - rewrite bool_decide_eq_false in Hs. destruct (append_state _ _ _ _) as [l' r'] eqn:Ea.
    intros [= <- <-]. eapply adv_phase; eauto.
Qed.

Lemma append_state_cases io req s l l' r :
  append_state io req s l = (l', r) →
  l' = insert_row (effect_key req) s l ∧ r = Ok s ∨ l' = l ∧ r = Err Storage.
Proof. unfold append_state. destruct (write_ok io); intros [= <- <-]; eauto. Qed.

Lemma advance_wf {W} turn (registry : ExecutorRegistry W) req l w sys r :
  ledger_wf l → advance turn registry req (l, w) = (sys, r) → ledger_wf sys.1.
Proof.
  intros Hwf E%advance_advanced. destruct E as [|?|s ex w' s' l' r Es _ _ _ _ En Ha]; [done..|].
  cbn. destruct Ha as [(_ & -> & _)|(Hne & Ha)]; [done|].
  apply append_state_cases in Ha as [(-> & _)|(-> & _)]; [|done].
  eapply insert_wf; [done|done|]. by eapply next_phase_lifecycle.
Qed.

(** ** Runs of the host

    Any sequence of proposals, approvals and advances, of any requests, with any
    answers of the database and the clock, over the registries [ok] accepts. *)

Section runs.
Context {W : Type} (ok : ExecutorRegistry W → Prop).

Inductive ledger_step : EffectLedger * W → EffectLedger * W → Prop :=
| step_propose io req l w : ledger_step (l, w) ((propose io req l).1, w)
| step_approve io req digest actor now l w :
    ledger_step (l, w) ((approve io req digest actor now l).1, w)
| step_advance turn registry req l w sys r :
    ok registry → advance turn registry req (l, w) = (sys, r) → ledger_step (l, w) sys.

Lemma step_wf sys sys' : ledger_step sys sys' → ledger_wf sys.1 → ledger_wf sys'.1.
Proof.
  intros [] Hwf; cbn in *; [by apply propose_wf|by apply approve_wf|by eapply advance_wf].
Qed.

Lemma empty_wf : ledger_wf empty_ledger.
Proof. intros key. done. Qed.

Lemma run_wf w sys : rtc ledger_step (empty_ledger, w) sys → ledger_wf sys.1.
Proof.
  intros Hrun. remember (empty_ledger, w) as init eqn:E. assert (ledger_wf init.1) as Hwf
    by (subst init; apply empty_wf). clear E.
  induction Hrun as [|x y z Hxy _ IH]; [done|]. apply IH. by eapply step_wf.
Qed.

(** The one row a step may add: a proposal, or the next state of the lifecycle. *)
Definition adds_row (l l' : EffectLedger) (key : string) (s : EffectState) : Prop :=
  (∀ k, rows l' k = rows l k ++ if decide (key = k) then [Some s] else []) ∧
  (rows l key = [] ∧ s = Proposed ∨
   ∃ states a, rows l key = map Some states ∧ last states = Some a ∧ lifecycle a s = true).

Lemma insert_adds_row io req l s s' :
  ledger_wf l → state io req l = Ok s → lifecycle s s' = true →
  adds_row l (insert_row (effect_key req) s' l) (effect_key req) s'.
Proof.
  intros Hwf (states & _ & Hl & _ & Hr & _)%state_Ok Hlc; [|done].
  split; [intros k; apply rows_insert|right]. by exists states, s.
Qed.

Lemma step_rows l w l' w' :
  ledger_wf l → ledger_step (l, w) (l', w') →
  (∀ k, rows l' k = rows l k) ∨ ∃ key s, adds_row l l' key s.
Proof.
  intros Hwf Hstep. inversion Hstep as [io req ? ? |io req digest actor now|turn registry req ? ? ? r _ E]; subst.
  - unfold propose. destruct (binding io req l) as [[d|]|e] eqn:Eb; [by left| |by left].
    destruct (write_ok io); [|by left]. right. exists (effect_key req), Proposed. split.
    + intros k. cbn [fst]. by rewrite rows_insert.
    + left. split; [|done]. unfold binding in Eb. destruct (read_ok io); cbn in Eb; [|done].
      specialize (Hwf (effect_key req)).
      destruct (approvals l !! effect_key req); [by destruct (str_eqb _ _)|done].
  - unfold approve. destruct (_ || _); [by left|]. destruct (_ <=? _)%Z; [by left|].
    destruct (state io req l) as [[]|e] eqn:E; try by left.
    unfold append_state. destruct (write_ok io); [|by left].
    right. exists (effect_key req), Approved. by eapply insert_adds_row.
  - apply advance_advanced in E. inversion E as [|?|s ex ? s' ? ? Es _ _ _ _ En Ha]; subst; [by left..|].
    destruct Ha as [(_ & -> & _)|(Hne & Ha)]; [by left|].
    apply append_state_cases in Ha as [(-> & _)|(-> & _)]; [|by left].
    right. exists (effect_key req), s'. eapply insert_adds_row; [done|done|].
    by eapply next_phase_lifecycle.
Qed.

(** The history of an effect is append-only and walks the lifecycle.  In
    every run a reading never finds it corrupt: it starts at [Proposed], takes
    only the steps of the lifecycle, no operation rewrites what is recorded, and
    nothing is recorded after [Verified] or [Failed]. *)
Theorem effect_history_lifecycle w0 l w l' w' :
  rtc ledger_step (empty_ledger, w0) (l, w) → ledger_step (l, w) (l', w') →
  (∀ io req, history io req l ≠ Err Corrupt) ∧
  (∀ io req states, history io req l = Ok states →
     head states = Some Proposed ∧ path states = true ∧
     rows l (effect_key req) = map Some states) ∧
  (∀ key, rows l key `prefix_of` rows l' key) ∧
  (∀ key s, last (rows l key) = Some (Some s) → s = Verified ∨ s = Failed →
     rows l' key = rows l key).
Proof.
  intros Hrun Hstep. apply run_wf in Hrun as Hwf. cbn in Hwf. split_and!.
  - intros io req E. pose proof (history_wf io req l Hwf) as Hh. rewrite E in Hh. set_solver.
  - intros io req states E. pose proof (history_wf io req l Hwf) as Hh. rewrite E in Hh. naive_solver.
  - intros key. destruct (step_rows l w l' w' Hwf Hstep) as [->|(k & s & -> & _)]; [done|].
    by apply prefix_app_r.
  - intros key s Hlast Hs. destruct (step_rows l w l' w' Hwf Hstep) as [->|(k & t & -> & Hadd)]; [done|].
    destruct (decide (k = key)) as [->|]; [|apply app_nil_r]. exfalso.
    destruct Hadd as [[Hr _]|(states & a & Hr & Hl & Hlc)]; rewrite Hr in Hlast; [done|].
    rewrite fmap_last, Hl in Hlast. injection Hlast as ->. by destruct Hs as [-> | ->].
Qed.
End runs.

(** ** When the remote service is called *)

Inductive remote_call :=
| CalledReconcile (o : RemoteObservation) | CalledExecute (o : ExecutionOutcome)
| CalledVerify (o : Postcondition).

(** The executor, with a log of its calls and their answers. *)
Definition logged {W} (e : EffectExecutor W) : EffectExecutor (W * list remote_call) :=
  mk_EffectExecutor
    (λ req '(w, log), let '(w, o) := reconcile e req w in ((w, log ++ [CalledReconcile o]), o))
    (λ req '(w, log), let '(w, o) := execute e req w in ((w, log ++ [CalledExecute o]), o))
    (λ req '(w, log), let '(w, o) := verify e req w in ((w, log ++ [CalledVerify o]), o)).
Definition logged_registry {W} (registry : ExecutorRegistry W) :
    ExecutorRegistry (W * list remote_call) :=
  (λ entry, (fst entry, logged (snd entry))) <$> registry.

Lemma logged_registry_get {W} (registry : ExecutorRegistry W) req executor :
  registry_get (logged_registry registry) req = Ok executor →
  ∃ e, registry_get registry req = Ok e ∧ executor = logged e.
Proof.
  unfold registry_get, logged_registry, ExecutorRegistry in *. rewrite lookup_fmap.
  destruct (registry !! _) as [[digest e]|]; cbn; [|done].
  destruct (str_eqb _ _); [|done]. intros [= <-]. by exists e.
Qed.

(** The calls a phase may make. *)
Inductive phase_calls (turn : Turn) (req : ApprovalRequest) : EffectState → list remote_call → Prop :=
| calls_none s : phase_calls turn req s []
| calls_reconcile s o : s = Started ∨ s = Indeterminate → phase_calls turn req s [CalledReconcile o]
| calls_execute s o :
    s = Started ∨ s = Indeterminate →
    (saturating_add (now_unix_ms turn) (elapsed_ms turn) < expires_at_unix_ms (context req))%Z →
    phase_calls turn req s [CalledReconcile ObservedAbsent; CalledExecute o]
| calls_verify o : phase_calls turn req Committed [CalledVerify o].

Lemma logged_phase {W} turn (e : EffectExecutor W) req s w w' log s' :
  next_phase turn (logged e) req s (w, []) = ((w', log), s') → phase_calls turn req s log.
Proof.
  assert (Hreq : s = Started ∨ s = Indeterminate →
    next_phase turn (logged e) req s (w, []) = ((w', log), s') → phase_calls turn req s log).
  { intros Hs. replace (next_phase turn (logged e) req s (w, [])) with
      (next_phase turn (logged e) req Started (w, [])) by (by destruct Hs as [-> | ->]).
    cbn. destruct (reconcile e req w) as [v []]; cbn; try (intros [= <- <- <-]; by constructor).
    destruct (_ <=? _)%Z eqn:El; [intros [= <- <- <-]; by constructor|].
    destruct (execute e req v) as [u []]; cbn; intros [= <- <- <-];
      (apply calls_execute; [done|by apply Z.leb_gt]). }
  destruct s; cbn [next_phase]; try (by intros [= <- <- <-]; constructor); try (by apply Hreq; auto).
  cbn. destruct (verify e req w) as [v []]; cbn; intros [= <- <- <-]; constructor.
Qed.

(** A history that has left [Proposed] passed through [Approved]. *)
Lemma path_approved states s :
  head states = Some Proposed → path states = true → last states = Some s → s ≠ Proposed →
  Approved ∈ states.
Proof.
  destruct states as [|a [|b l]]; [done| |].
  - intros [= ->] _ [= <-]. done.
  - intros [= ->] Hp _ _. cbn [path] in Hp. apply andb_prop in Hp as [Hp _].
    destruct b; try done. right. left.
Qed.

(** A side effect is dispatched only under its approval.  Whatever the remote
    service answers, an [advance] that calls [execute] was made for the request
    that is bound and approved in the ledger, through the executor registered
    for the rule it was admitted under, in a phase that allows it, right after
    the service reported the effect absent and before the approval expires, time
    spent included; a settled effect causes no call at all. *)
Theorem effect_dispatch_guarded {W} ok w0 (w : W) l turn registry req l' w' log r :
  rtc (ledger_step (W := W) ok) (empty_ledger, w0) (l, w) →
  advance turn (logged_registry registry) req (l, (w, [])) = ((l', (w', log)), r) →
  (∀ o, CalledExecute o ∈ log →
     log = [CalledReconcile ObservedAbsent; CalledExecute o] ∧
     approvals l !! effect_key req = Some (approval_digest req) ∧
     Some Approved ∈ rows l (effect_key req) ∧
     (last (rows l (effect_key req)) = Some (Some Started) ∨
      last (rows l (effect_key req)) = Some (Some Indeterminate)) ∧
     (saturating_add (now_unix_ms turn) (elapsed_ms turn) < expires_at_unix_ms (context req))%Z ∧
     is_Some (registry !! (intent_tool_id (intent (proposal req)),
                           intent_tool_version (intent (proposal req)))) ∧
     ∃ e, registry_get registry req = Ok e) ∧
  (∀ s, last (rows l (effect_key req)) = Some (Some s) → s = Verified ∨ s = Failed → log = []).
Proof.
  intros Hrun E. apply run_wf in Hrun as Hwf. cbn in Hwf. apply advance_advanced in E.
  inversion E as [|s Es Hs|s ex ? s' ? ? Es Hnp Hnv Hnf Hreg En _]; subst.
  - split; [by intros o ?%elem_of_nil|done].
  - split; [by intros o ?%elem_of_nil|done].
  - apply logged_registry_get in Hreg as (e & Hreg & ->).
    apply state_Ok in Es as (states & _ & Hl & Ha & Hr & Hh & Hp); [|done].
    assert (Hlast : last (rows l (effect_key req)) = Some (Some s)) by (by rewrite Hr, fmap_last, Hl).
    apply logged_phase in En. split.
    + intros o Ho. inversion En as [|? o' Hst|? o' Hst Hexp|]; subst.
      * by apply elem_of_nil in Ho.
      * by apply list_elem_of_singleton in Ho.
      * apply elem_of_cons in Ho as [|Ho%list_elem_of_singleton]; [done|]. injection Ho as ->.
        split_and!; [done|done| | |done| |by exists e].
        -- rewrite Hr. apply list_elem_of_fmap. exists Approved. split; [done|].
           eapply path_approved; [done..|]. by destruct Hst as [-> | ->].
        -- destruct Hst as [-> | ->]; auto.
        -- unfold registry_get in Hreg. by destruct (registry !! _).
      * by apply list_elem_of_singleton in Ho.
    + intros t Ht Hst. rewrite Hlast in Ht. injection Ht as <-. by destruct Hst.
Qed.


(** ** Exactly once *)

Section exactly_once.
Context {W : Type} (applied : W → string → nat).

(** An executor whose answers are true of the remote service: it changes only
    the effect it is asked for, once per [execute], and reports [Absent],
    [Committed] and [Satisfied] only of what it sees.  [Unknown] and [Rejected]
    claim nothing, and [execute] does not deduplicate. *)
Record honest (e : EffectExecutor W) : Prop := mk_honest {
  honest_reconcile req w w' o : reconcile e req w = (w', o) →
    (∀ k, applied w' k = applied w k) ∧
    match o with
    | ObservedAbsent => applied w (effect_key req) = 0
    | ObservedCommitted => 0 < applied w (effect_key req)
    | ObservedUnknown => True
    end;
  honest_execute req w w' o : execute e req w = (w', o) →
    (∀ k, k ≠ effect_key req → applied w' k = applied w k) ∧
    applied w (effect_key req) ≤ applied w' (effect_key req) ≤ S (applied w (effect_key req)) ∧
    (o = ExecutionCommitted → 0 < applied w' (effect_key req));
  honest_verify req w w' o : verify e req w = (w', o) →
    (∀ k, applied w' k = applied w k) ∧
    (o = Satisfied → 0 < applied w (effect_key req)) }.

Definition honest_registry (registry : ExecutorRegistry W) : Prop :=
  ∀ req e, registry_get registry req = Ok e → honest e.

(** No effect is applied twice, and one recorded as committed is applied. *)
Definition once (l : EffectLedger) (w : W) : Prop :=
  ∀ key, applied w key ≤ 1 ∧ (Some Committed ∈ rows l key → applied w key = 1).

Lemma next_phase_once turn e req s w w' s' :
  honest e → (∀ k, applied w k ≤ 1) → next_phase turn e req s w = (w', s') →
  (∀ k, applied w' k ≤ 1) ∧ (∀ k, applied w k ≤ applied w' k) ∧
  (s' = Committed → s ≠ Committed → applied w' (effect_key req) = 1).
Proof.
  intros He Hw E.
  assert (Hsame : w' = w ∨ (∃ o, reconcile e req w = (w', o)) ∨ (∃ o, verify e req w = (w', o)) →
    (∀ k, applied w' k ≤ 1) ∧ (∀ k, applied w k ≤ applied w' k)).
  { intros [-> |[[o Eo]|[o Eo]]]; [by auto|apply (honest_reconcile e He) in Eo as [Hk _]|
      apply (honest_verify e He) in Eo as [Hk _]]; split; intros k; by rewrite Hk. }
  assert (Hreq : s = Started ∨ s = Indeterminate → (∀ k, applied w' k ≤ 1) ∧
    (∀ k, applied w k ≤ applied w' k) ∧ (s' = Committed → applied w' (effect_key req) = 1)).
  { intros Hs. replace (next_phase turn e req s w) with (next_phase turn e req Started w) in E
      by (by destruct Hs as [-> | ->]).
    cbn in E. destruct (reconcile e req w) as [v o] eqn:Er.
    pose proof (honest_reconcile e He _ _ _ _ Er) as [Hk Ho].
    destruct o.
    - destruct (_ <=? _)%Z; [injection E as <- <-; destruct Hsame as [H1 H2]; by eauto|].
      destruct (execute e req v) as [u x] eqn:Ex.
      apply (honest_execute e He) in Ex as (Hk' & Hle & Hc).
      assert (w' = u ∧ (s' = Committed → x = ExecutionCommitted)) as [-> Hx]
        by (destruct x; injection E as <- <-; done).
      rewrite Hk in Hle. split_and!.
      + intros k. destruct (decide (k = effect_key req)) as [->|]; [lia|].
        rewrite Hk', Hk by done. apply Hw.
      + intros k. destruct (decide (k = effect_key req)) as [->|]; [lia|].
        by rewrite Hk', Hk.
      + intros ?%Hx%Hc. lia.
    - injection E as <- <-. destruct Hsame as [H1 H2]; [by eauto|]. split_and!; [done..|].
      intros _. specialize (Hw (effect_key req)). rewrite Hk. lia.
    - injection E as <- <-. destruct Hsame as [H1 H2]; by eauto. }
  destruct s; cbn [next_phase] in E;
    try (destruct Hreq as (? & ? & ?); [by auto|by split_and!; auto]);
    try (injection E as <- <-; destruct Hsame as [? ?]; [by auto|by split_and!; auto]).
  - injection E as <- Hs'. destruct Hsame as [? ?]; [by auto|]. split_and!; [done..|].
    intros ->. by destruct (_ <=? _)%Z.
  - destruct (verify e req w) as [v o] eqn:Ev.
    assert (w' = v) as -> by (by destruct o; injection E). destruct Hsame as [? ?]; [by eauto|].
    by split_and!.
Qed.

Lemma step_once l w l' w' :
  ledger_wf l → ledger_step honest_registry (l, w) (l', w') → once l w → once l' w'.
Proof.
  intros Hwf Hstep Ho.
  assert (Hadd : ∀ key s, s ≠ Committed →
    (∀ k, rows l' k = rows l k ++ if decide (key = k) then [Some s] else []) → w' = w → once l' w').
  { intros key s Hs Hr -> k. destruct (Ho k) as [H1 H2]. split; [done|]. rewrite Hr.
    intros [Hc|Hc]%elem_of_app; [auto|]. case_decide; [|by apply elem_of_nil in Hc].
    apply list_elem_of_singleton in Hc. congruence. }
  inversion Hstep as [io req ? ? |io req digest actor now|turn registry req ? ? ? r Hok E]; subst.
  - unfold propose in *. destruct (binding io req l) as [[d|]|e]; [done| |done].
    destruct (write_ok io); [|done]. eapply (Hadd _ Proposed); [done| |done].
    intros k. cbn [fst]. by rewrite rows_insert.
  - unfold approve in *. destruct (_ || _); [done|]. destruct (_ <=? _)%Z; [done|].
    destruct (state io req l) as [[]|e]; try done.
    unfold append_state in *. destruct (write_ok io); [|done].
    eapply (Hadd _ Approved); [done| |done]. intros k. apply rows_insert.
  - apply advance_advanced in E.
    inversion E as [|?|s ex ? s' ? ? Es _ _ _ Hreg En Ha]; subst; [done..|].
    apply Hok in Hreg. apply (next_phase_once _ _ _ _ _ _ _ Hreg) in En as (H1 & H2 & H3);
      [|intros k; apply Ho].
    assert (Hmono : ∀ k, Some Committed ∈ rows l k → applied w' k = 1).
    { intros k Hk. destruct (Ho k) as [_ Hc]. specialize (Hc Hk). specialize (H1 k).
      specialize (H2 k). lia. }
    destruct Ha as [(_ & -> & _)|(Hne & Ha)]; [intros k; split; auto|].
    apply append_state_cases in Ha as [(-> & _)|(-> & _)]; [|intros k; split; auto].
    intros k. split; [done|]. rewrite rows_insert. intros [Hc|Hc]%elem_of_app; [auto|].
    destruct (decide (effect_key req = k)) as [<-|]; [|by apply elem_of_nil in Hc].
    apply list_elem_of_singleton in Hc as [= <-]. auto.
Qed.

Lemma run_once w0 l w :
  (∀ k, applied w0 k = 0) → rtc (ledger_step honest_registry) (empty_ledger, w0) (l, w) →
  ledger_wf l ∧ once l w.
Proof.
  intros H0 Hrun.
  assert (Hgo : ∀ x y, rtc (ledger_step honest_registry) x y →
    ledger_wf x.1 ∧ once x.1 x.2 → ledger_wf y.1 ∧ once y.1 y.2).
  { clear. induction 1 as [|[l1 w1] [l2 w2] z Hxy _ IH]; [done|]. intros [Hwf Ho]. apply IH.
    split; [by apply (step_wf _ _ _ Hxy)|by apply (step_once l1 w1)]. }
  apply Hgo in Hrun; [done|]. split; [apply empty_wf|]. intros k. cbn. rewrite H0.
  split; [lia|]. by intros ?%elem_of_nil.
Qed.

(** A history that ends in [Verified] passed through [Committed]. *)
Lemma path_committed states :
  head states = Some Proposed → path states = true → last states = Some Verified →
  Committed ∈ states.
Proof.
  intros Hh Hp Hl. destruct states as [|x states _] using rev_ind; [done|].
  rewrite last_snoc in Hl. injection Hl as ->. rewrite path_snoc in Hp.
  apply andb_prop in Hp as [_ Hp]. apply elem_of_app. left.
  destruct (last states) as [a|] eqn:El; [|by apply last_None in El as ->].
  destruct a; try done. apply last_Some in El as [l ->]. apply elem_of_app. right.
  by apply list_elem_of_singleton.
Qed.

End exactly_once.

(** ** Completion *)

Section completion.
Context `{IntJson, Sha256} `{!EqDecision json_number} {W : Type} (applied : W → Prop).

(** A service that answers: the effect can be dispatched when it is absent, and
    it holds once it was. *)
Record cooperative (e : EffectExecutor W) (req : ApprovalRequest) : Prop := mk_cooperative {
  coop_reconcile w : ∃ w', reconcile e req w = (w', ObservedAbsent) ∨
                           reconcile e req w = (w', ObservedCommitted) ∧ applied w';
  coop_execute w : ∃ w', execute e req w = (w', ExecutionCommitted) ∧ applied w';
  coop_verify w : applied w → ∃ w', verify e req w = (w', Satisfied) }.

(** The database answers and the approval has not expired. *)
Definition healthy (req : ApprovalRequest) (turn : Turn) : Prop :=
  read_ok (turn_io turn) = true ∧ write_ok (turn_io turn) = true ∧
  (now_unix_ms turn < expires_at_unix_ms (context req))%Z ∧
  (saturating_add (now_unix_ms turn) (elapsed_ms turn) < expires_at_unix_ms (context req))%Z.

(** Turns left before [Verified]. *)
Definition remaining (s : EffectState) : nat :=
  match s with Approved => 3 | Started | Indeterminate => 2 | Committed => 1 | _ => 0 end.

Definition progressing (s : EffectState) : Prop :=
  s ∈ [Approved; Started; Indeterminate; Committed; Verified].

Lemma state_after_insert io req l s s' :
  ledger_wf l → state io req l = Ok s → lifecycle s s' = true → ∀ io', read_ok io' = true →
  state io' req (insert_row (effect_key req) s' l) = Ok s'.
Proof.
  intros Hwf E Hlc io' Hio. pose proof (insert_wf _ _ _ _ _ Hwf E Hlc) as Hwf'.
  pose proof (state_wf io' req _ Hwf') as Hs. pose proof (history_wf io' req _ Hwf') as Hh.
  apply state_Ok in E as (states & _ & Hl & Ha & Hr & Hhd & Hp); [|done].
  assert (Hrows : rows (insert_row (effect_key req) s' l) (effect_key req) =
                  map Some (states ++ [s'])).
  { rewrite rows_insert, Hr, map_app. by destruct (decide _). }
  assert (Hpath : path (states ++ [s']) = true) by (by rewrite path_snoc, Hp, Hl).
  unfold state, history, binding. rewrite Hio, Hrows, traverse_rows. cbn [negb insert_row approvals].
  rewrite Ha. unfold str_eqb. rewrite bool_decide_eq_true_2 by done. cbn.
  rewrite Hpath, bool_decide_eq_true_2 by (by destruct states). cbn. by rewrite last_snoc.
Qed.

Lemma next_phase_progress turn e req s w :
  healthy req turn → cooperative e req → (s = Committed → applied w) →
  progressing s → s ≠ Verified →
  ∃ w' s', next_phase turn e req s w = (w', s') ∧ s ≠ s' ∧ progressing s' ∧
    remaining s' < remaining s ∧ (s' = Committed → applied w').
Proof.
  intros (_ & _ & Hnow & Hexp) He Hw Hs Hv. unfold progressing in *.
  assert (Hreq : s = Started ∨ s = Indeterminate →
    ∃ w', next_phase turn e req s w = (w', Committed) ∧ applied w').
  { intros Hst. replace (next_phase turn e req s w) with (next_phase turn e req Started w)
      by (by destruct Hst as [-> | ->]).
    cbn. destruct (coop_reconcile e req He w) as [v [-> |[-> Hc]]]; [|by eauto].
    rewrite (proj2 (Z.leb_gt _ _)) by done.
    destruct (coop_execute e req He v) as [u [-> Hc]]. by eauto. }
  destruct s; try done; cbn [remaining].
  - exfalso. by repeat (apply elem_of_cons in Hs as [|Hs]; [done|]); apply elem_of_nil in Hs.
  - exists w, Started. cbn. rewrite (proj2 (Z.leb_gt _ _)) by done. split_and!; try done; [|lia].
    right. left.
  - destruct Hreq as (w' & E & Hc); [by auto|]. exists w', Committed.
    split_and!; try done; [by do 3 right; left|cbn; lia].
  - destruct (coop_verify e req He w) as [v Ev]; [by auto|]. exists v, Verified. cbn. rewrite Ev.
    split_and!; try done; [by do 4 right; left|lia].
  - exfalso. by repeat (apply elem_of_cons in Hs as [|Hs]; [done|]); apply elem_of_nil in Hs.
  - destruct Hreq as (w' & E & Hc); [by auto|]. exists w', Committed.
    split_and!; try done; [by do 3 right; left|cbn; lia].
Qed.

Lemma advance_progress turn registry e req s l w :
  healthy req turn → registry_get registry req = Ok e → cooperative e req →
  (s = Committed → applied w) → progressing s → s ≠ Verified →
  ledger_wf l → (∀ io, read_ok io = true → state io req l = Ok s) →
  ∃ l' w' s', advance turn registry req (l, w) = ((l', w'), Ok s') ∧ ledger_wf l' ∧
    (∀ io, read_ok io = true → state io req l' = Ok s') ∧ progressing s' ∧
    remaining s' < remaining s ∧ (s' = Committed → applied w').
Proof.
  intros Hturn Hreg He Hw Hs Hv Hwf Hst.
  destruct (next_phase_progress turn e req s w) as (w' & s' & En & Hne & Hp & Hr & Hc); [done..|].
  pose proof (next_phase_lifecycle _ _ _ _ _ _ _ En Hne) as Hlc.
  destruct Hturn as (Hread & Hwrite & _). pose proof (Hst _ Hread) as Est.
  exists (insert_row (effect_key req) s' l), w', s'. split_and!; [|by eapply insert_wf| |done..].
  - cbn [advance]. rewrite Est, Hreg, En. rewrite (bool_decide_eq_false_2 (s = s')) by done.
    rewrite (bool_decide_eq_false_2 (s = Verified)) by done.
    rewrite (bool_decide_eq_false_2 (s = Failed)), (bool_decide_eq_false_2 (s = Proposed))
      by (by intros ->; repeat (apply elem_of_cons in Hs as [|Hs]; [done|]); apply elem_of_nil in Hs).
    cbn. unfold append_state. by rewrite Hwrite.
  - by apply state_after_insert with (io := turn_io turn) (s := s).
Qed.

Lemma advance_up_to_verified turns registry e req s l w :
  Forall (healthy req) turns → registry_get registry req = Ok e → cooperative e req →
  (s = Committed → applied w) → progressing s → remaining s ≤ length turns →
  ledger_wf l → (∀ io, read_ok io = true → state io req l = Ok s) →
  ∃ l' w', advance_up_to turns registry req s (l, w) = ((l', w'), Ok Verified) ∧
    ∀ io, read_ok io = true → state io req l' = Ok Verified.
Proof.
  intros Hturns Hreg He. revert s l w.
  induction Hturns as [|turn turns Hturn _ IH]; intros s l w Hw Hs Hrem Hwf Hst.
  - assert (s = Verified) as ->.
    { by destruct s; cbn in Hrem; try lia;
        repeat (apply elem_of_cons in Hs as [|Hs]; [done|]); apply elem_of_nil in Hs. }
    by exists l, w.
  - cbn [advance_up_to]. destruct (decide (s = Verified)) as [->|Hv]; [by exists l, w|].
    rewrite (bool_decide_eq_false_2 (s = Verified)) by done.
    rewrite (bool_decide_eq_false_2 (s = Failed))
      by (by intros ->; repeat (apply elem_of_cons in Hs as [|Hs]; [done|]); apply elem_of_nil in Hs).
    destruct (advance_progress turn registry e req s l w)
      as (l' & w' & s' & E & Hwf' & Hst' & Hp' & Hr' & Hc'); [done..|].
    cbn [orb]. unfold mbind, method_bind. rewrite E. apply IH; [done..|cbn in Hrem; lia|done|done].
Qed.

(** C4. An approved effect completes.  From any reachable state that is approved
    and not failed, even one left in the middle by a crash, a single call of the
    tool handler with the approved arguments verifies the effect and returns
    success, provided the database answers, the approval has not expired and the
    service answers: the four turns of the handler suffice. *)
Theorem effect_completes ok (w0 w : W) l (h : DurableEffectHandler W) e io turns s :
  rtc (ledger_step ok) (empty_ledger, w0) (l, w) →
  read_ok io = true → state io (handler_request h) l = Ok s → s ≠ Proposed → s ≠ Failed →
  (s = Committed → applied w) →
  registry_get (handler_registry h) (handler_request h) = Ok e →
  cooperative e (handler_request h) →
  (∀ i, i < 4 → healthy (handler_request h) (turns i)) →
  ∃ l' w',
    handler_execute io turns h
      (arguments_value (proposal_arguments (proposal (handler_request h)))) (l, w) =
    ((l', w'),
     Ok (Success (Object [("effect_key", VString (effect_key (handler_request h)));
                          ("state", VString "verified")])
           (provenance (handler_registration h)) None None)) ∧
    state io (handler_request h) l' = Ok Verified.
Proof.
  intros Hrun Hio Est Hnp Hnf Hw Hreg He Hturns. apply run_wf in Hrun as Hwf. cbn in Hwf.
  assert (Hst : ∀ io', read_ok io' = true → state io' (handler_request h) l = Ok s).
  { intros io' Hio'. rewrite <- Est. unfold state, history, binding. by rewrite Hio, Hio'. }
  destruct (advance_up_to_verified (map turns (seq 0 4)) (handler_registry h) e
              (handler_request h) s l w) as (l' & w' & E & Hv); [|done..| | |done|done|].
  - apply Forall_map, Forall_seq. intros i Hi. apply Hturns. lia.
  - destruct s; try done; unfold progressing;
      by repeat (first [left|right]).
  - cbn. destruct s; cbn; lia.
  - exists l', w'. split; [|by apply Hv]. unfold handler_execute.
    rewrite bool_decide_eq_true_2, Est, E by done. done.
Qed.
End completion.

(** ** A concrete effect *)

#[local] Existing Instance ex_json_Z.
#[local] Instance ex_int : IntJson := λ z, z.
#[local] Instance ex_sha : Sha256 := λ s, s.
#[local] Instance ex_number_eq_dec : EqDecision (json_number (JsonText := ex_json_Z)) := Z.eq_dec.

Definition ex_rule : ToolRule :=
  mk_ToolRule "1" ∅ {["repo"]} {["api"]} EffectWrite AdmitHumanApproval ∅
    (BindLiteral "repo") (BindLiteral "api") (BindLiteral "issue").
Definition ex_target : TargetState := mk_TargetState "repo" "api" "issue" (mk_TargetVersion 1 "r1").
Definition ex_policy : FirewallPolicy :=
  mk_FirewallPolicy 1 "p1" {["close" := ex_rule]} {[ex_target]} ∅.
Definition ex_goal : TrustedGoal := mk_TrustedGoal 1 "g1" "1" ∅ {["repo"]} {["api"]}.
Definition ex_digest : string := string_of_list_ascii (replicate 64 "a"%char).
Definition ex_proposal : ToolProposal :=
  mk_ToolProposal 1
    (mk_ToolIntent 1 "g1" "close" "1" ∅ "repo" "api" "issue" (mk_SideEffect 1 EffectWrite)
       (mk_TargetVersion 1 "r1")) ∅
    (mk_ProposalProvenance ex_digest (argument_fingerprint (Object [])) UntrustedContent).
Definition ex_context (operation : string) : ApprovalContext :=
  mk_ApprovalContext operation ex_digest "alice" 1000.

Definition bound (operation : string) : result LedgerError ApprovalRequest :=
  bind ex_goal ex_policy ex_proposal (ex_context operation).

Lemma approval_binds_request_witness :
  match bound "op-1", bound "op-2" with
  | Ok r1, Ok r2 => effect_key r1 ≠ effect_key r2 ∧ approval_digest r1 ≠ approval_digest r2
  | _, _ => False
  end.
Proof.
  assert (Hnum : Inj (=) (=) (int_number (IntJson := ex_int))) by by intros ???.
  assert (Hsha : Inj (=) (=) (sha256 (Sha256 := ex_sha))) by by intros ???.
  assert (Hok : match bound "op-1", bound "op-2" with
                | Ok _, Ok _ => true | _, _ => false end = true) by by vm_compute.
  destruct (bound "op-1") as [r1|] eqn:E1; [|done]. destruct (bound "op-2") as [r2|] eqn:E2; [|done].
  destruct (approval_binds_request (H2 := ex_json_Z_laws) _ _ _ _ _ _ _ _ _ _ E1 E2)
    as (Hk & Hd & _).
  split; [by intros (_ & ? & _)%Hk|by intros (_ & ? & _)%Hd].
Defined.

(** A service that holds, for each effect, how often it was applied. *)
Definition ex_applied (w : gmap string nat) (key : string) : nat := default 0 (w !! key).
Definition ex_executor : EffectExecutor (gmap string nat) :=
  mk_EffectExecutor
    (λ req w, (w, if decide (ex_applied w (effect_key req) = 0) then ObservedAbsent
                  else ObservedCommitted))
    (λ req w, (<[effect_key req := S (ex_applied w (effect_key req))]> w, ExecutionCommitted))
    (λ req w, (w, if decide (ex_applied w (effect_key req) = 0) then Violated else Satisfied)).

Definition ex_request : ApprovalRequest :=
  mk_ApprovalRequest "digest" "key" (ex_context "op-1") ex_proposal "rule".
Definition ex_registry : ExecutorRegistry (gmap string nat) :=
  {[("close", "1") := ("rule", ex_executor)]}.
Definition ex_handler : DurableEffectHandler (gmap string nat) :=
  mk_DurableEffectHandler ex_request ex_registry
    (mk_ToolRegistration "close" (mk_ToolProvenance "close" "1") Null Null Null
       (mk_ToolFlags false false true) [] [] 1000 4096 false StableKey "implementation").

Definition ex_io : Io := mk_Io true true.
Definition ex_turn : Turn := mk_Turn 10 1 ex_io.

Lemma ex_get : registry_get ex_registry ex_request = Ok ex_executor.
Proof. done. Qed.

Lemma ex_honest : honest ex_applied ex_executor.
Proof.
  split; cbn.
  - intros req w w' o [= <- <-]. split; [done|]. case_decide; lia.
  - intros req w w' o [= <- <-]. unfold ex_applied. rewrite lookup_insert_eq. cbn.
    split_and!; [|lia..]. intros k Hk. by rewrite lookup_insert_ne.
  - intros req w w' o [= <- <-]. split; [done|]. case_decide; [done|lia].
Qed.

Lemma ex_cooperative : cooperative (λ w, 0 < ex_applied w "key") ex_executor ex_request.
Proof.
  split; intros w; cbn.
  - exists w. case_decide; [by left|right; split; [done|lia]].
  - eexists. split; [done|]. unfold ex_applied. rewrite lookup_insert_eq. cbn. lia.
  - intros Hw. exists w. rewrite decide_False by lia. done.
Qed.

Lemma ex_honest_registry : honest_registry ex_applied ex_registry.
Proof.
  intros req e. unfold registry_get, ex_registry, ExecutorRegistry.
  destruct (_ !! _) as [[d e']|] eqn:E; [|done].
  apply lookup_singleton_Some in E as [_ [= <- <-]]. destruct (str_eqb _ _); [|done].
  intros [= <-]. apply ex_honest.
Qed.

(** Proposed, approved and started; then dispatched, but the write of [Committed]
    is lost. *)
Definition ex_started : EffectLedger * gmap string nat :=
  let l := (propose ex_io ex_request empty_ledger).1 in
  let l := (approve ex_io ex_request "digest" "alice" 10 l).1 in
  (advance ex_turn ex_registry ex_request (l, ∅)).1.
Definition ex_system : EffectLedger * gmap string nat :=
  (advance (mk_Turn 20 1 (mk_Io true false)) ex_registry ex_request ex_started).1.

Definition ex_rows : EffectLedger :=
  mk_EffectLedger {["key" := "digest"]}
    [("key", Some Proposed); ("key", Some Approved); ("key", Some Started)].

Lemma ex_started_eq : ex_started = (ex_rows, ∅).
Proof. by vm_compute. Qed.
Lemma ex_system_eq : ex_system = (ex_rows, {["key" := 1]}).
Proof. by vm_compute. Qed.

Lemma advance_step turn l w :
  ledger_step (honest_registry ex_applied) (l, w) (advance turn ex_registry ex_request (l, w)).1.
Proof.
  destruct (advance turn ex_registry ex_request (l, w)) as [sys r] eqn:E.
  by eapply step_advance; [apply ex_honest_registry|].
Qed.

Lemma ex_run_started : rtc (ledger_step (honest_registry ex_applied)) (empty_ledger, ∅) ex_started.
Proof.
  unfold ex_started. eapply rtc_l; [apply (step_propose _ ex_io ex_request)|].
  eapply rtc_l; [apply (step_approve _ ex_io ex_request "digest" "alice" 10)|].
  eapply rtc_l; [apply advance_step|apply rtc_refl].
Qed.

Lemma ex_run : rtc (ledger_step (honest_registry ex_applied)) (empty_ledger, ∅) ex_system.
Proof.
  eapply rtc_r; [apply ex_run_started|]. unfold ex_system. destruct ex_started. apply advance_step.
Qed.


(** The handler finishes what the crash interrupted. *)
Lemma effect_completes_witness :
  ∃ l' w', handler_execute ex_io (λ _, ex_turn) ex_handler (Object []) ex_system =
    ((l', w'), Ok (Success (Object [("effect_key", VString "key"); ("state", VString "verified")])
                     (mk_ToolProvenance "close" "1") None None)) ∧
    state ex_io ex_request l' = Ok Verified.
Proof.
  pose proof ex_run as Hrun. rewrite ex_system_eq in *.
  apply (effect_completes (λ w, 0 < ex_applied w "key") _ _ _ _ ex_handler ex_executor ex_io
           (λ _, ex_turn) Started Hrun); try done.
  apply ex_cooperative.
Defined.

Lemma effect_history_lifecycle_witness :
  history ex_io ex_request ex_system.1 ≠ Err Corrupt.
Proof.
  pose proof ex_run as Hrun. destruct ex_system as [l w].
  apply (effect_history_lifecycle _ _ _ _ _ _ Hrun (step_propose _ ex_io ex_request l w)).
Defined.

Lemma effect_dispatch_guarded_witness :
  advance ex_turn (logged_registry ex_registry) ex_request (ex_rows, (∅, [])) =
    ((insert_row "key" Committed ex_rows,
      ({["key" := 1]}, [CalledReconcile ObservedAbsent; CalledExecute ExecutionCommitted])),
     Ok Committed) ∧
  Some Approved ∈ rows ex_rows "key".
Proof.
  pose proof ex_run_started as Hrun. rewrite ex_started_eq in Hrun.
  match goal with |- ?a ∧ _ => assert (E : a) by by vm_compute end. split; [exact E|].
  destruct (effect_dispatch_guarded _ _ _ _ _ _ _ _ _ _ _ Hrun E) as [Hd _].
  apply (Hd ExecutionCommitted). right. left.
Defined.
