(* ===== verification/Artifact.v ===== *)
(** * Artifact stores

    [workflow-runtime/src/artifact.rs] and [artifact/bounded_read.rs]: content
    that does not fit a tool result is kept in a store under the hexadecimal
    SHA-256 of its bytes and read back in bounded pages.  The trait is a class
    with its laws; the in-memory store and the filesystem store are instances.

    A directory is the map from the names in it to their bytes; what the
    operating system may refuse is part of the environment ([FsIo]).  The
    process-wide counter [NEXT_CAPABILITY] is the field [next_capability] of the
    shared state and is not modelled past [2^64]. *)

From stdpp Require Import pretty.
From S2P Require Import Prelude Hashing Json.

(** An identifier is its text. *)
Abbreviation ArtifactId := string (only parsing).

(*| runtime/artifact.rs 53-63 ArtifactId::parse *)
Definition ArtifactId_parse (value : string) : option ArtifactId :=
  if negb (str_len value =? 64)%Z || negb (str_all is_lower_hex value) then None else Some value.

(*| runtime/artifact.rs 73-76 PageRequest *)
Record PageRequest := mk_PageRequest { offset : Z; limit : Z }.

(*| runtime/artifact.rs 97-100 ArtifactPage *)
Record ArtifactPage := mk_ArtifactPage { page_bytes : string; page_next_offset : option Z }.

(*| runtime/artifact.rs 121-126 RetentionPolicy *)
Inductive RetentionPolicy := Retain | ExpiresAt (time : Z).

(*| runtime/artifact.rs 130-145 ArtifactErrorKind *)
Inductive ArtifactErrorKind :=
| EmptyContent | ContentTooLarge | PageOutOfBounds | ArtifactNotFound | ContentIdCollision
| ArtifactIo | ForeignStagedArtifact.
#[export] Instance ArtifactErrorKind_eq_dec : EqDecision ArtifactErrorKind.
Proof. solve_decision. Defined.

(*| runtime/artifact.rs 197-204 StagedState *)
Inductive StagedState := StagedMemory (bytes : string) | StagedFile (temporary : string).

(*| runtime/artifact.rs 191-195 StagedArtifact *)
Record StagedArtifact := mk_StagedArtifact {
  staged_id : ArtifactId; staged_state : StagedState; staged_capability : Z }.

(** [ArtifactId(encode_hex(&Sha256::digest(bytes)))]. *)
(*| runtime/artifact.rs 336-336 InMemoryArtifactStore::stage *)
Definition content_id `{Sha256} (bytes : string) : ArtifactId := encode_hex (sha256 bytes).

(** The names of artifacts are hexadecimal. *)
Definition visible (name : string) : Prop := str_all is_lower_hex name = true.

Lemma content_id_visible `{Sha256} bytes : visible (content_id bytes).
Proof. apply encode_hex_lower. Qed.

(** [bytes[start..end]]. *)
Definition slice (bytes : string) (start stop : Z) : string :=
  String.substring (Z.to_nat start) (Z.to_nat (stop - start)) bytes.

(** The page of some content. *)
(*| runtime/artifact.rs 388-411 InMemoryArtifactStore::read_page *)
Definition page_of (max_page_bytes : Z) (bytes : string) (request : PageRequest) :
    result ArtifactErrorKind ArtifactPage :=
  let content_len := str_len bytes in
  if (content_len <? offset request)%Z then Err PageOutOfBounds
  else
    let page_len := Z.min (Z.min (limit request) max_page_bytes) (content_len - offset request) in
    match checked_add (offset request) page_len with
    | None => Err PageOutOfBounds
    | Some end_offset =>
        Ok (mk_ArtifactPage (slice bytes (offset request) end_offset)
              (if (end_offset <? content_len)%Z then Some end_offset else None))
    end.

(** ** The trait *)

(*| runtime/artifact.rs 260-300 ArtifactStore *)
Class ArtifactStore (S : Type) := {
  put : string → method S ArtifactErrorKind ArtifactId;
  read_page : S → ArtifactId → PageRequest → result ArtifactErrorKind ArtifactPage;
  set_retention : ArtifactId → RetentionPolicy → method S ArtifactErrorKind unit;
  retention : S → ArtifactId → result ArtifactErrorKind RetentionPolicy
}.

(** What a store promises: an abstract state, the bytes under each identifier,
    that [put] extends by one content or leaves, and that pages are cut from. *)
Class ArtifactStoreLaws (S : Type) `{ArtifactStore S, Sha256} := {
  store_wf : S → Prop;
  stored : S → ArtifactId → option string;
  page_limit : S → Z;
  page_limit_positive s : store_wf s → (0 < page_limit s)%Z;
  stored_size s id bytes : store_wf s → stored s id = Some bytes → u64 (str_len bytes);
  put_law bytes s s' r :
    store_wf s → put bytes s = (s', r) →
    store_wf s' ∧
    match r with
    | Ok id => id = content_id bytes ∧ stored s' id = Some bytes ∧
               (stored s id = None ∨ stored s id = Some bytes) ∧
               ∀ i, i ≠ id → stored s' i = stored s i
    | Err _ => ∀ i, stored s' i = stored s i
    end;
  read_law s id request :
    store_wf s → visible id →
    read_page s id request =
    match stored s id with
    | None => Err ArtifactNotFound
    | Some bytes => page_of (page_limit s) bytes request
    end
}.

(** ** In memory *)

(*| runtime/artifact.rs 302-305 Entry *)
Record Entry := mk_Entry { entry_bytes : string; entry_retention : RetentionPolicy }.

(*| runtime/artifact.rs 308-313 InMemoryArtifactStore *)
Record InMemoryArtifactStore := mk_InMemory {
  entries : gmap ArtifactId Entry; max_content_bytes : Z; max_page_bytes : Z; capability : Z }.

Section memory.
Context `{Sha256}.

(*| runtime/artifact.rs 317-324 InMemoryArtifactStore::new *)
Definition InMemoryArtifactStore_new (max_content max_page next_capability : Z) :
    InMemoryArtifactStore := mk_InMemory ∅ max_content max_page next_capability.

(*| runtime/artifact.rs 328-352 InMemoryArtifactStore::stage *)
Definition memory_stage (bytes : string) (store : InMemoryArtifactStore) :
    result ArtifactErrorKind StagedArtifact :=
  if str_is_empty bytes then Err EmptyContent
  else if (max_content_bytes store <? str_len bytes)%Z then Err ContentTooLarge
  else
    let id := content_id bytes in
    match entries store !! id with
    | Some entry =>
        if str_eqb (entry_bytes entry) bytes
        then Ok (mk_StagedArtifact id (StagedMemory "") (capability store))
        else Err ContentIdCollision
    | None => Ok (mk_StagedArtifact id (StagedMemory bytes) (capability store))
    end.

(** [None] is the [unreachable!] of a staged file. *)
(*| runtime/artifact.rs 354-377 InMemoryArtifactStore::commit *)
Definition memory_commit (staged : StagedArtifact) (store : InMemoryArtifactStore) :
    option (InMemoryArtifactStore * result ArtifactErrorKind ArtifactId) :=
  if negb (staged_capability staged =? capability store)%Z
  then Some (store, Err ForeignStagedArtifact)
  else
    let id := staged_id staged in
    match staged_state staged with
    | StagedMemory bytes =>
        if str_is_empty bytes then Some (store, Ok id)
        else match entries store !! id with
        | Some entry =>
            if str_eqb (entry_bytes entry) bytes then Some (store, Ok id)
            else Some (store, Err ContentIdCollision)
        | None =>
            Some (mk_InMemory (<[id := mk_Entry bytes Retain]> (entries store))
                    (max_content_bytes store) (max_page_bytes store) (capability store), Ok id)
        end
    | StagedFile _ => None
    end.

(** [stage] then [commit]; the commit of what the store itself staged returns
    ([memory_put_returns]). *)
(*| runtime/artifact.rs 279-282 ArtifactStore::put *)
Definition memory_put (bytes : string) : method InMemoryArtifactStore ArtifactErrorKind ArtifactId :=
  λ store,
    match memory_stage bytes store with
    | Err e => (store, Err e)
    | Ok staged => default (store, Err ForeignStagedArtifact) (memory_commit staged store)
    end.

(*| runtime/artifact.rs 379-412 InMemoryArtifactStore::read_page *)
Definition memory_read_page (store : InMemoryArtifactStore) (id : ArtifactId)
    (request : PageRequest) : result ArtifactErrorKind ArtifactPage :=
  match entries store !! id with
  | None => Err ArtifactNotFound
  | Some entry => page_of (max_page_bytes store) (entry_bytes entry) request
  end.

(*| runtime/artifact.rs 414-425 InMemoryArtifactStore::set_retention *)
Definition memory_set_retention (id : ArtifactId) (policy : RetentionPolicy) :
    method InMemoryArtifactStore ArtifactErrorKind unit := λ store,
  match entries store !! id with
  | None => (store, Err ArtifactNotFound)
  | Some entry =>
      (mk_InMemory (<[id := mk_Entry (entry_bytes entry) policy]> (entries store))
         (max_content_bytes store) (max_page_bytes store) (capability store), Ok tt)
  end.

(*| runtime/artifact.rs 427-432 InMemoryArtifactStore::retention *)
Definition memory_retention (store : InMemoryArtifactStore) (id : ArtifactId) :
    result ArtifactErrorKind RetentionPolicy :=
  match entries store !! id with
  | None => Err ArtifactNotFound
  | Some entry => Ok (entry_retention entry)
  end.

#[export] Instance memory_store : ArtifactStore InMemoryArtifactStore := {
  put := memory_put; read_page := memory_read_page;
  set_retention := memory_set_retention; retention := memory_retention }.
End memory.

(** *** The in-memory store keeps its promise *)

Record memory_wf `{Sha256} (store : InMemoryArtifactStore) : Prop := mk_memory_wf {
  wf_page : (0 < max_page_bytes store)%Z;
  wf_content : u64 (max_content_bytes store);
  wf_entry id entry : entries store !! id = Some entry →
    id = content_id (entry_bytes entry) ∧ entry_bytes entry ≠ "" ∧
    (str_len (entry_bytes entry) ≤ max_content_bytes store)%Z }.

Section memory_laws.
Context `{Sha256}.

Lemma memory_new_wf max_content max_page next :
  (0 < max_page)%Z → u64 max_content → memory_wf (InMemoryArtifactStore_new max_content max_page next).
Proof. intros Hp Hc. split; [done|done|]. cbn. intros id entry E. by rewrite lookup_empty in E. Qed.

Lemma memory_stage_Ok bytes store staged :
  memory_stage bytes store = Ok staged →
  bytes ≠ "" ∧ (str_len bytes ≤ max_content_bytes store)%Z ∧
  staged_id staged = content_id bytes ∧ staged_capability staged = capability store ∧
  match entries store !! content_id bytes with
  | Some entry => entry_bytes entry = bytes ∧ staged_state staged = StagedMemory ""
  | None => staged_state staged = StagedMemory bytes
  end.
Proof.
  unfold memory_stage. destruct (str_is_empty bytes) eqn:Ee; [done|].
  destruct (Z.ltb_spec (max_content_bytes store) (str_len bytes)); [done|].
  apply str_is_empty_false in Ee.
  destruct (entries store !! content_id bytes) as [entry|] eqn:El.
  - destruct (str_eqb (entry_bytes entry) bytes) eqn:Eb; [|done]. apply str_eqb_eq in Eb.
    by intros [= <-].
  - by intros [= <-].
Qed.

(** What the store stages, it commits. *)
Lemma memory_put_returns bytes store staged :
  memory_stage bytes store = Ok staged →
  memory_commit staged store =
    Some (match entries store !! content_id bytes with
          | Some _ => store
          | None => mk_InMemory (<[content_id bytes := mk_Entry bytes Retain]> (entries store))
                      (max_content_bytes store) (max_page_bytes store) (capability store)
          end, Ok (content_id bytes)).
Proof.
  intros (Hne & _ & Hid & Hc & He)%memory_stage_Ok. unfold memory_commit. rewrite Hc, Hid, Z.eqb_refl.
  cbn [negb]. destruct (entries store !! content_id bytes) as [entry|].
  - destruct He as [_ ->]. done.
  - rewrite He. by apply str_is_empty_false in Hne as ->.
Qed.

Definition memory_stored (store : InMemoryArtifactStore) (id : ArtifactId) : option string :=
  entry_bytes <$> entries store !! id.

Lemma memory_put_law bytes s s' r :
  memory_wf s → memory_put bytes s = (s', r) →
  memory_wf s' ∧
  match r with
  | Ok id => id = content_id bytes ∧ memory_stored s' id = Some bytes ∧
             (memory_stored s id = None ∨ memory_stored s id = Some bytes) ∧
             ∀ i, i ≠ id → memory_stored s' i = memory_stored s i
  | Err _ => ∀ i, memory_stored s' i = memory_stored s i
  end.
Proof.
  intros Hwf E. unfold memory_put in E. destruct (memory_stage bytes s) as [staged|e] eqn:Es;
    [|by injection E as <- <-].
  rewrite (memory_put_returns bytes s staged Es) in E. cbn [default from_option id] in E.
  apply memory_stage_Ok in Es as (Hne & Hlen & _ & _ & He).
  destruct (entries s !! content_id bytes) as [entry|] eqn:El; injection E as <- <-.
  - destruct He as [He _]. unfold memory_stored. rewrite El. cbn. rewrite He. by split_and!; auto.
  - destruct Hwf as [H1 H2 H3]. split.
    + split; cbn; [done..|]. intros i x. destruct (decide (content_id bytes = i)) as [<-|Hi].
      * rewrite lookup_insert_eq. intros [= <-]. done.
      * rewrite lookup_insert_ne by done. apply H3.
    + unfold memory_stored. cbn. rewrite lookup_insert_eq, El. split_and!; auto.
      intros i Hi. by rewrite lookup_insert_ne by done.
Qed.

#[export, refine] Instance memory_laws : ArtifactStoreLaws InMemoryArtifactStore := {
  store_wf := memory_wf; stored := memory_stored; page_limit := max_page_bytes }.
Proof.
  - intros s [??]. done.
  - intros s id bytes [_ H2 H3]. unfold memory_stored. destruct (entries s !! id) as [x|] eqn:E; [|done].
    intros [= <-]. apply H3 in E as (_ & _ & E). unfold u64, str_len in *. lia.
  - apply memory_put_law.
  - intros s id request _ _. cbn. unfold memory_read_page, memory_stored.
    by destruct (entries s !! id).
Defined.
End memory_laws.

(** ** Staging *)

(** The staging half of the trait [ArtifactStore]; [discard] is the drop of a
    staged artifact that was not committed. *)
Class StagingStore (S : Type) := {
  Staged : Type;
  staged_name : Staged → ArtifactId;
  stage : string → method S ArtifactErrorKind Staged;
  commit : Staged → method S ArtifactErrorKind ArtifactId;
  discard : Staged → S → S
}.

(** What staging promises: nothing staged is visible, a token stands for its
    bytes until they are committed, and a commit that fails shows nothing. *)
Class StagingStoreLaws (S : Type) `{ArtifactStoreLaws S, !StagingStore S} := {
  pending : S → Staged → string → Prop;
  pending_name s t bytes : pending s t bytes → staged_name t = content_id bytes;
  stage_law bytes s s' r :
    store_wf s → stage bytes s = (s', r) →
    store_wf s' ∧ (∀ i, stored s' i = stored s i) ∧ (∀ t b, pending s t b → pending s' t b) ∧
    ∀ t, r = Ok t → pending s' t bytes;
  commit_law t bytes s s' r :
    store_wf s → pending s t bytes → commit t s = (s', r) →
    store_wf s' ∧ (∀ t' b, b ≠ bytes → pending s t' b → pending s' t' b) ∧
    match r with
    | Ok id => id = content_id bytes ∧ stored s' id = Some bytes ∧
               (stored s id = None ∨ stored s id = Some bytes) ∧
               ∀ i, i ≠ id → stored s' i = stored s i
    | Err _ => ∀ i, stored s' i = stored s i
    end;
  discard_law t s : store_wf s → store_wf (discard t s) ∧ ∀ i, stored (discard t s) i = stored s i
}.

(** *** Staging in memory *)

Section memory_staging.
Context `{Sha256}.

(** What the store itself staged it commits ([memory_pending]); the default
    stands for the [unreachable!] of a staged file. *)
#[export] Instance memory_staging : StagingStore InMemoryArtifactStore := {
  Staged := StagedArtifact;
  staged_name := staged_id;
  stage := λ bytes store, (store, memory_stage bytes store);
  commit := λ staged store, default (store, Err ForeignStagedArtifact) (memory_commit staged store);
  discard := λ _ store, store }.

(** A token of this store for [bytes]: it carries them, or they are there. *)
Record memory_pending (store : InMemoryArtifactStore) (t : StagedArtifact) (bytes : string) : Prop := {
  pending_own : staged_capability t = capability store;
  pending_id : staged_id t = content_id bytes;
  pending_nonempty : bytes ≠ "";
  pending_size : (str_len bytes ≤ max_content_bytes store)%Z;
  pending_state : staged_state t = StagedMemory bytes ∨
    staged_state t = StagedMemory "" ∧ memory_stored store (content_id bytes) = Some bytes
}.

Lemma memory_stage_pending bytes store t :
  memory_stage bytes store = Ok t → memory_pending store t bytes.
Proof.
  intros (Hne & Hlen & Hid & Hc & He)%memory_stage_Ok. split; try done. unfold memory_stored.
  destruct (entries store !! content_id bytes) as [e|]; [|by left]. destruct He as [<- He].
  by right.
Qed.

Lemma memory_commit_law t bytes s s' r :
  memory_wf s → memory_pending s t bytes → commit t s = (s', r) →
  memory_wf s' ∧ (∀ t' b, memory_pending s t' b → memory_pending s' t' b) ∧
  match r with
  | Ok id => id = content_id bytes ∧ memory_stored s' id = Some bytes ∧
             (memory_stored s id = None ∨ memory_stored s id = Some bytes) ∧
             ∀ i, i ≠ id → memory_stored s' i = memory_stored s i
  | Err _ => ∀ i, memory_stored s' i = memory_stored s i
  end.
Proof.
  intros Hwf [Hc Hid Hne Hlen Hst] E. cbn in E. unfold memory_commit in E.
  rewrite Hc, Z.eqb_refl, Hid in E. cbn [negb] in E. destruct Hst as [Hst|[Hst Hin]]; rewrite Hst in E.
  - rewrite (proj2 (str_is_empty_false bytes) Hne) in E. unfold memory_stored in *.
    destruct (entries s !! content_id bytes) as [e|] eqn:El.
    + destruct (str_eqb (entry_bytes e) bytes) eqn:Eb; cbn in E; injection E as <- <-; [|done].
      apply str_eqb_eq in Eb. rewrite El. cbn. rewrite Eb. split_and!; auto.
    + cbn in E. injection E as <- <-. pose proof Hwf as [Hp Hu Hent]. split_and!.
      * split; cbn; [done..|]. intros i x. destruct (decide (content_id bytes = i)) as [<-|Hi].
        -- rewrite lookup_insert_eq. intros [= <-]. done.
        -- rewrite lookup_insert_ne by done. apply Hent.
      * intros t' b [? ? ? ? Hs]. split; try done. destruct Hs as [Hs|[Hs Hb]]; [by left|right].
        split; [done|]. unfold memory_stored in *. cbn.
        destruct (decide (content_id bytes = content_id b)) as [Heq|Hn];
          [by rewrite <- Heq, El in Hb|by rewrite lookup_insert_ne].
      * done.
      * cbn. by rewrite lookup_insert_eq.
      * rewrite El. by left.
      * intros i Hi. cbn. by rewrite lookup_insert_ne by done.
  - cbn in E. injection E as <- <-. split_and!; auto.
Qed.

#[export, refine] Instance memory_staging_laws : StagingStoreLaws InMemoryArtifactStore := {
  pending := memory_pending }.
Proof.
  - intros s t bytes Hp. exact (pending_id _ _ _ Hp).
  - intros bytes s s' r Hwf [= <- <-]. split_and!; [done..|]. intros t. apply memory_stage_pending.
  - intros t bytes s s' r Hwf Hp E. destruct (memory_commit_law _ _ _ _ _ Hwf Hp E) as (? & Hk & ?).
    split_and!; [done| |done]. intros t' b _. apply Hk.
  - intros t s Hwf. done.
Defined.
End memory_staging.

(** ** Slices *)

Lemma substring_O n s : String.substring n 0 s = "".
Proof. revert n. induction s as [|c s IH]; intros [|n]; cbn; auto. Qed.

Lemma substring_app n m a b :
  String.substring n m (a +:+ b) =
  String.substring n (Nat.min m (String.length a - n)) a +:+
  String.substring (n - String.length a) (m - (String.length a - n)) b.
Proof.
  revert n m. induction a as [|c a IH]; intros n m.
  - cbn. rewrite Nat.sub_0_r, Nat.sub_0_l, Nat.min_0_r, Nat.sub_0_r. by destruct n.
  - destruct n as [|n].
    + destruct m as [|m].
      * change (String.substring 0 0 (String c a +:+ b)) with "".
        by rewrite Nat.min_0_l, (Nat.sub_0_l (String.length (String c a) - 0)), !substring_O.
      * cbn [String.substring String.length]. rewrite Nat.sub_0_r. cbn [Nat.min].
        specialize (IH 0 m). rewrite Nat.sub_0_r in IH.
        change (String.substring 0 (S m) (String c a +:+ b)) with
          (String c (String.substring 0 m (a +:+ b))). by rewrite IH.
    + cbn [String.length]. change (String.substring (S n) m (String c a +:+ b)) with
        (String.substring n m (a +:+ b)). by rewrite IH.
Qed.

Lemma slice_app a b i j :
  (0 ≤ i)%Z →
  slice (a +:+ b) i j =
  slice a i (Z.min j (str_len a)) +:+ slice b (Z.max 0 (i - str_len a)) (j - str_len a).
Proof.
  intros Hi. unfold slice, str_len. rewrite substring_app. f_equal; f_equal; lia.
Qed.

Lemma slice_empty a i j : (j ≤ i)%Z → slice a i j = "".
Proof. intros Hij. unfold slice. replace (Z.to_nat (j - i)) with 0 by lia. apply substring_O. Qed.

Lemma substring_all n s : String.length s ≤ n → String.substring 0 n s = s.
Proof.
  revert n. induction s as [|c s IH]; intros [|n]; cbn; try done; [lia|]. intros Hn. by rewrite IH by lia.
Qed.

Lemma slice_all s : slice s 0 (str_len s) = s.
Proof. unfold slice, str_len. apply substring_all. lia. Qed.

(** What [extend_from_slice] appended is the slice between the two lengths. *)
Lemma slice_middle a b c : slice (a +:+ b +:+ c) (str_len a) (str_len (a +:+ b)) = b.
Proof.
  rewrite str_len_app, slice_app by (unfold str_len; lia). rewrite slice_empty by lia.
  cbn [String.append]. rewrite slice_app by lia.
  replace (Z.max 0 (str_len a - str_len a)) with 0%Z by lia.
  replace (str_len a + str_len b - str_len a)%Z with (str_len b) by lia.
  rewrite Z.min_id, slice_all, slice_empty by (unfold str_len; lia). apply str_app_nil_r.
Qed.

(** ** Reading a content back

    A reader asks for one page after the other, each time at the offset the last
    one returned. *)

Section paging.
Context {S : Type} `{ArtifactStoreLaws S}.

Fixpoint read_from (fuel : nat) (store : S) (id : ArtifactId) (limit offset : Z) :
    result ArtifactErrorKind string :=
  match fuel with
  | O => Err PageOutOfBounds
  | Datatypes.S fuel =>
      page ← read_page store id (mk_PageRequest offset limit);
      match page_next_offset page with
      | None => Ok (page_bytes page)
      | Some next =>
          rest ← read_from fuel store id limit next; Ok (page_bytes page +:+ rest)
      end
  end.

Lemma substring_split i n m s :
  i + n ≤ String.length s →
  String.substring i n s +:+ String.substring (i + n) m s = String.substring i (n + m) s.
Proof.
  revert i n. induction s as [|c s IH]; intros [|i] n Hn; cbn in Hn.
  - assert (n = 0) as -> by lia. done.
  - lia.
  - destruct n as [|n]; [done|]. exact (f_equal (String c) (IH 0 n ltac:(cbn; lia))).
  - cbn. apply IH. lia.
Qed.

Lemma slice_split s a b c :
  (0 ≤ a ≤ b)%Z → (b ≤ c)%Z → (b ≤ str_len s)%Z → slice s a b +:+ slice s b c = slice s a c.
Proof.
  intros Ha Hc Hb. unfold slice, str_len in *.
  replace (Z.to_nat b) with (Z.to_nat a + Z.to_nat (b - a)) by lia.
  rewrite substring_split by lia. f_equal. lia.
Qed.

(** A page inside the content: at least one byte, and at most what is left. *)
Lemma page_of_inside m bytes off lim :
  (0 < m)%Z → (0 < lim)%Z → (0 ≤ off < str_len bytes)%Z → u64 (str_len bytes) →
  ∃ stop, (off < stop ≤ str_len bytes)%Z ∧
    page_of m bytes (mk_PageRequest off lim) =
    Ok (mk_ArtifactPage (slice bytes off stop)
          (if (stop <? str_len bytes)%Z then Some stop else None)) ∧
    (stop - off ≤ lim)%Z ∧ (stop - off ≤ m)%Z.
Proof.
  intros Hm Hl Ho Hu. unfold page_of. cbn [offset limit].
  destruct (Z.ltb_spec (str_len bytes) off); [lia|].
  set (n := Z.min (Z.min lim m) (str_len bytes - off)).
  exists (off + n)%Z. assert (1 ≤ n ≤ str_len bytes - off)%Z by (subst n; lia).
  destruct (checked_add off n) as [z|] eqn:E.
  - apply checked_add_Some in E as [-> _]. split_and!; [lia|lia|done|subst n; lia..].
  - apply checked_add_None in E. unfold u64 in Hu. unfold u64_max in E. lia.
Qed.

Lemma read_from_rest fuel store id limit offset bytes :
  store_wf store → visible id → stored store id = Some bytes → (0 < limit)%Z →
  (0 ≤ offset < str_len bytes)%Z → (str_len bytes - offset ≤ Z.of_nat fuel)%Z →
  read_from fuel store id limit offset = Ok (slice bytes offset (str_len bytes)).
Proof.
  intros Hwf Hv Hs Hl. revert offset. induction fuel as [|fuel IH]; intros offset Ho Hf; [lia|].
  cbn [read_from]. rewrite read_law, Hs by done.
  destruct (page_of_inside (page_limit store) bytes offset limit) as (stop & Hstop & -> & _);
    [by apply page_limit_positive|done..|by eapply stored_size|].
  cbn. destruct (Z.ltb_spec stop (str_len bytes)).
  - rewrite IH by lia. cbn. f_equal. apply slice_split; lia.
  - by replace stop with (str_len bytes) by lia.
Qed.

(** Stored content is read back whole.  After a successful [put] of non-empty
    bytes, reading pages of any positive size from offset 0, following the
    offsets the store returns, ends after at most one page per byte and yields
    exactly the bytes; the identifier is the digest of the bytes, and no [put]
    changes what any identifier already names. *)
Theorem artifact_pages_roundtrip bytes (s s' : S) id limit :
  store_wf s → bytes ≠ "" → put bytes s = (s', Ok id) → (0 < limit)%Z →
  id = content_id bytes ∧
  read_from (String.length bytes) s' id limit 0 = Ok bytes ∧
  ∀ i b, stored s i = Some b → stored s' i = Some b.
Proof.
  intros Hwf Hne E Hl. apply put_law in E as (Hwf' & Hid & Hs & Hold & Hrest); [|done].
  split_and!; [done| |].
  - rewrite (read_from_rest _ s' id limit 0 bytes);
      [by rewrite slice_all|done|subst id; apply content_id_visible|done|done| |].
    + destruct bytes; [done|]. unfold str_len. cbn. lia.
    + unfold str_len. lia.
  - intros i b Hi. destruct (decide (i = id)) as [->|]; [|by rewrite Hrest].
    destruct Hold as [Hn|Hn]; rewrite Hi in Hn; congruence.
Qed.
End paging.

(** ** On a filesystem *)

(** What the operating system answers: done, or refused with [NotFound] or
    another error. *)
Inductive fault := NoFault | FaultNotFound | FaultOther.
#[export] Instance fault_eq_dec : EqDecision fault.
Proof. solve_decision. Defined.

Record Directory := mk_Directory { files : gmap string string; next_capability : Z }.
Definition set_files (f : gmap string string) (d : Directory) : Directory :=
  mk_Directory f (next_capability d).

(*| runtime/artifact.rs 442-448 FilesystemArtifactStore *)
Record FilesystemArtifactStore := mk_Filesystem {
  fs_retention : gmap ArtifactId RetentionPolicy; fs_max_content_bytes : Z;
  fs_max_page_bytes : Z; fs_capability : Z }.

(** The faults of one [stage]: of the comparison read, of the exclusive create,
    of the write and sync; after a failed write, what is left of the file if it
    cannot be removed. *)
Record StageIo := mk_StageIo {
  read_fault : fault; create_fault : fault; write_fault : fault; residue : option string }.
(** The faults of one [commit]: of the link, of the two comparison reads, and
    whether the temporary name can be removed. *)
Record CommitIo := mk_CommitIo {
  link_fault : fault; existing_fault : fault; staged_fault : fault; unlink_ok : bool }.

(*| runtime/artifact.rs 523-529 FilesystemArtifactStore::storage_error *)
Definition storage_error (f : fault) : ArtifactErrorKind :=
  match f with FaultNotFound => ArtifactNotFound | _ => ArtifactIo end.

(** Everything read beyond the cap is an error, whatever the file grows to. *)
(*| runtime/artifact/bounded_read.rs 23-35 read_capped *)
Definition read_capped (cap : Z) (bytes : string) : result ArtifactErrorKind string :=
  if (cap <? str_len bytes)%Z then Err ContentTooLarge else Ok bytes.

(*| runtime/artifact/bounded_read.rs 6-21 read_file *)
Definition read_file (f : fault) (cap : Z) (file : option string) : result ArtifactErrorKind string :=
  match f with
  | NoFault => match file with None => Err ArtifactNotFound | Some bytes => read_capped cap bytes end
  | f => Err (storage_error f)
  end.

Section filesystem.
Context `{Sha256}.

(** [format!(".tmp-{}-{}", id, next_capability())]. *)
(*| runtime/artifact.rs 556-558 FilesystemArtifactStore::stage *)
Definition temporary_name (id : ArtifactId) (n : Z) : string :=
  ".tmp-" +:+ id +:+ "-" +:+ pretty n.

(** [Drop for StagedArtifact]: the temporary is removed if it can be. *)
(*| runtime/artifact.rs 252-256 StagedArtifact::drop *)
Definition drop_staged (removed : bool) (staged : StagedArtifact) (d : Directory) : Directory :=
  match staged_state staged with
  | StagedFile temporary => if removed then set_files (delete temporary (files d)) d else d
  | StagedMemory _ => d
  end.

(*| runtime/artifact.rs 533-573 FilesystemArtifactStore::stage *)
Definition fs_stage (io : StageIo) (bytes : string) (store : FilesystemArtifactStore)
    (d : Directory) : Directory * result ArtifactErrorKind StagedArtifact :=
  if str_is_empty bytes then (d, Err EmptyContent)
  else if (fs_max_content_bytes store <? str_len bytes)%Z then (d, Err ContentTooLarge)
  else
    let id := content_id bytes in
    let create :=
      let temporary := temporary_name id (next_capability d) in
      let d := mk_Directory (files d) (next_capability d + 1) in
      match create_fault io with
      | NoFault =>
          if is_some (files d !! temporary) then (d, Err ArtifactIo)
          else match write_fault io with
          | NoFault =>
              (set_files (<[temporary := bytes]> (files d)) d,
               Ok (mk_StagedArtifact id (StagedFile temporary) (fs_capability store)))
          | f =>
              (match residue io with
               | Some partial => set_files (<[temporary := partial]> (files d)) d
               | None => d
               end, Err (storage_error f))
          end
      | f => (d, Err (storage_error f))
      end in
    match read_file (read_fault io) (fs_max_content_bytes store) (files d !! id) with
    | Ok existing => if str_eqb existing bytes then create else (d, Err ContentIdCollision)
    | Err ArtifactNotFound => create
    | Err e => (d, Err e)
    end.

(** The token is consumed: on every failure its drop removes the temporary. *)
(*| runtime/artifact.rs 575-612 FilesystemArtifactStore::commit *)
Definition fs_commit (io : CommitIo) (staged : StagedArtifact) (store : FilesystemArtifactStore)
    (d : Directory) : Directory * FilesystemArtifactStore * result ArtifactErrorKind ArtifactId :=
  let failed e := (drop_staged (unlink_ok io) staged d, store, Err e) in
  if negb (staged_capability staged =? fs_capability store)%Z then failed ForeignStagedArtifact
  else
    let id := staged_id staged in
    let retained := mk_Filesystem
      (match fs_retention store !! id with
       | Some _ => fs_retention store
       | None => <[id := Retain]> (fs_retention store)
       end) (fs_max_content_bytes store) (fs_max_page_bytes store) (fs_capability store) in
    match staged_state staged with
    | StagedFile temporary =>
        match link_fault io with
        | NoFault =>
            match files d !! temporary, files d !! id with
            | None, _ => failed ArtifactNotFound
            | Some bytes, None =>
                let d := set_files (<[id := bytes]> (files d)) d in
                (drop_staged (unlink_ok io) staged d, retained, Ok id)
            | Some _, Some _ =>
                match read_file (existing_fault io) (fs_max_content_bytes store) (files d !! id) with
                | Err e => failed e
                | Ok existing =>
                    match read_file (staged_fault io) (fs_max_content_bytes store)
                            (files d !! temporary) with
                    | Err e => failed e
                    | Ok staged_bytes =>
                        if str_eqb existing staged_bytes
                        then (drop_staged (unlink_ok io) staged d, retained, Ok id)
                        else failed ContentIdCollision
                    end
                end
            end
        | f => failed (storage_error f)
        end
    | StagedMemory _ => (d, retained, Ok id)
    end.

(*| runtime/artifact.rs 501-503 FilesystemArtifactStore::remove_all *)
Definition fs_remove_all (d : Directory) : Directory := set_files ∅ d.

(*| runtime/artifact.rs 614-647 FilesystemArtifactStore::read_page *)
Definition fs_read_page (f : fault) (store : FilesystemArtifactStore) (d : Directory)
    (id : ArtifactId) (request : PageRequest) : result ArtifactErrorKind ArtifactPage :=
  bytes ← read_file f (fs_max_content_bytes store) (files d !! id);
  if negb (str_eqb (encode_hex (sha256 bytes)) id) then Err ContentIdCollision
  else page_of (fs_max_page_bytes store) bytes request.

(*| runtime/artifact.rs 649-662 FilesystemArtifactStore::set_retention *)
Definition fs_set_retention (f : fault) (id : ArtifactId) (policy : RetentionPolicy)
    (store : FilesystemArtifactStore) (d : Directory) :
    FilesystemArtifactStore * result ArtifactErrorKind unit :=
  match f with
  | NoFault =>
      match files d !! id with
      | Some _ => (mk_Filesystem (<[id := policy]> (fs_retention store)) (fs_max_content_bytes store)
                     (fs_max_page_bytes store) (fs_capability store), Ok tt)
      | None => (store, Err ArtifactNotFound)
      end
  | f => (store, Err (storage_error f))
  end.

(*| runtime/artifact.rs 664-676 FilesystemArtifactStore::retention *)
Definition fs_retention_of (f : fault) (id : ArtifactId) (store : FilesystemArtifactStore)
    (d : Directory) : result ArtifactErrorKind RetentionPolicy :=
  match f with
  | NoFault =>
      match files d !! id with
      | Some _ => match fs_retention store !! id with
                  | Some policy => Ok policy
                  | None => Err ArtifactNotFound
                  end
      | None => Err ArtifactNotFound
      end
  | f => Err (storage_error f)
  end.
End filesystem.

(** ** Publication

    Any number of stores share a directory.  Their steps interleave; a token is
    owned by whoever staged it until it is committed or dropped, and the counter
    may advance for other reasons. *)

Section publication.
Context `{Sha256}.

Definition publication : Type := Directory * list StagedArtifact.

Inductive publish : publication → publication → Prop :=
| publish_stage io bytes store d tokens d' r :
    fs_stage io bytes store d = (d', r) →
    publish (d, tokens) (d', match r with Ok staged => staged :: tokens | Err _ => tokens end)
| publish_commit io staged store d before after d' store' r :
    fs_commit io staged store d = (d', store', r) →
    publish (d, before ++ staged :: after) (d', before ++ after)
| publish_drop removed staged d before after :
    publish (d, before ++ staged :: after) (drop_staged removed staged d, before ++ after)
| publish_count n d tokens :
    (next_capability d ≤ n)%Z → publish (d, tokens) (mk_Directory (files d) n, tokens)
| publish_remove_all d tokens : publish (d, tokens) (fs_remove_all d, tokens).

Lemma temporary_not_visible id n : ¬ visible (temporary_name id n).
Proof. unfold visible, temporary_name, str_all. cbn. done. Qed.

Lemma temporary_name_inj id id' n n' :
  visible id → visible id' → temporary_name id n = temporary_name id' n' → n = n'.
Proof.
  unfold temporary_name. cbn [String.append]. intros Hi Hi' [= E].
  assert (Hd : ∀ (m : Z) c t, "-" +:+ pretty m = String c t → is_lower_hex c = false).
  { intros m c t E'. injection E' as <- _. done. }
  change (id +:+ ("-" +:+ pretty n) = id' +:+ ("-" +:+ pretty n')) in E.
  apply (span_unique is_lower_hex) in E as [_ E]; [|done|done|apply Hd|apply Hd].
  injection E as E. exact (inj (pretty (A := Z)) n n' E).
Qed.

Lemma StagedFile_inj a b : StagedFile a = StagedFile b → a = b.
Proof. by intros [= ->]. Qed.

(** The name of the temporary of a token, and its bytes if it is there. *)
Definition token_ok (d : Directory) (staged : StagedArtifact) : Prop :=
  ∃ n bytes, staged_id staged = content_id bytes ∧
    staged_state staged = StagedFile (temporary_name (staged_id staged) n) ∧
    (n < next_capability d)%Z ∧
    (files d !! temporary_name (staged_id staged) n = None ∨
     files d !! temporary_name (staged_id staged) n = Some bytes).

Record publication_wf (p : publication) : Prop := mk_publication_wf {
  wf_visible name bytes :
    files p.1 !! name = Some bytes → visible name → name = content_id bytes;
  wf_tokens : Forall (token_ok p.1) p.2;
  wf_distinct : NoDup (map staged_state p.2) }.

(** [d'] shows what [d] shows, at least. *)
Definition shows (d d' : Directory) : Prop :=
  ∀ name bytes, visible name → files d !! name = Some bytes → files d' !! name = Some bytes.
Definition shows_same (d d' : Directory) : Prop :=
  ∀ name, visible name → files d' !! name = files d !! name.

(** What a [stage] does to the directory: a fresh temporary, or nothing visible. *)
Lemma fs_stage_spec io bytes store d d' r :
  fs_stage io bytes store d = (d', r) →
  (next_capability d ≤ next_capability d')%Z ∧
  match r with
  | Ok staged =>
      let t := temporary_name (content_id bytes) (next_capability d) in
      staged_id staged = content_id bytes ∧ staged_state staged = StagedFile t ∧
      staged_capability staged = fs_capability store ∧ files d !! t = None ∧
      files d' = <[t := bytes]> (files d) ∧ next_capability d' = (next_capability d + 1)%Z ∧
      (str_len bytes ≤ fs_max_content_bytes store)%Z
  | Err _ => ∃ t, (t = temporary_name (content_id bytes) (next_capability d)) ∧
      (files d' = files d ∨ files d !! t = None ∧ ∃ partial, files d' = <[t := partial]> (files d))
  end.
Proof.
  intros E. unfold fs_stage in E.
  set (t := temporary_name (content_id bytes) (next_capability d)) in *.
  destruct (str_is_empty bytes); [injection E as <- <-; split; [lia|by exists t; auto]|].
  destruct (Z.ltb_spec (fs_max_content_bytes store) (str_len bytes));
    [injection E as <- <-; split; [lia|by exists t; auto]|].
  match type of E with context [match ?x with Ok _ => if _ then ?c else _ | _ => _ end] =>
    assert (Hc : ∀ y, c = y → y = (d', r) → (next_capability d ≤ next_capability d')%Z ∧
      match r with
      | Ok staged => staged_id staged = content_id bytes ∧ staged_state staged = StagedFile t ∧
          staged_capability staged = fs_capability store ∧ files d !! t = None ∧
          files d' = <[t := bytes]> (files d) ∧ next_capability d' = (next_capability d + 1)%Z ∧
          (str_len bytes ≤ fs_max_content_bytes store)%Z
      | Err _ => ∃ t', t' = t ∧ (files d' = files d ∨
          files d !! t' = None ∧ ∃ partial, files d' = <[t' := partial]> (files d))
      end)
  end.
  { intros y <- Ey. destruct (create_fault io); cbn in Ey;
      [|injection Ey as <- <-; cbn; split; [lia|by exists t; auto]..].
    destruct (files d !! t) as [b|] eqn:Et; cbn in Ey;
      [injection Ey as <- <-; cbn; split; [lia|by exists t; auto]|].
    destruct (write_fault io); cbn in Ey.
    - injection Ey as <- <-. cbn. split; [lia|]. by split_and!.
    - destruct (residue io) as [p|]; injection Ey as <- <-; cbn; (split; [lia|]);
        exists t; split; eauto.
    - destruct (residue io) as [p|]; injection Ey as <- <-; cbn; (split; [lia|]);
        exists t; split; eauto. }
  destruct (read_file _ _ _) as [existing|e].
  - destruct (str_eqb existing bytes); [by eapply Hc|].
    injection E as <- <-. split; [lia|by exists t; auto].
  - destruct e; try (by eapply Hc); injection E as <- <-; (split; [lia|by exists t; auto]).
Qed.

(** Removing or adding temporaries shows the same. *)
Lemma drop_same d d0 staged removed :
  token_ok d staged → shows_same d0 (drop_staged removed staged d0).
Proof.
  intros (n & b & _ & Hs & _) name Hv. unfold drop_staged. rewrite Hs.
  destruct removed; [|done]. cbn. apply lookup_delete_ne. intros <-. by eapply temporary_not_visible.
Qed.

Lemma drop_counter removed staged d :
  next_capability (drop_staged removed staged d) = next_capability d.
Proof. unfold drop_staged. by destruct (staged_state staged), removed. Qed.

(** What a [commit] does to the directory before its token is dropped. *)
Lemma fs_commit_spec io staged store d d' store' r :
  token_ok d staged → fs_commit io staged store d = (d', store', r) →
  ∃ d0, d' = drop_staged (unlink_ok io) staged d0 ∧ next_capability d0 = next_capability d ∧
    match r with
    | Err e => d0 = d ∧ (e = ForeignStagedArtifact ↔ staged_capability staged ≠ fs_capability store)
    | Ok id => id = staged_id staged ∧ staged_capability staged = fs_capability store ∧
        ∃ bytes t, staged_state staged = StagedFile t ∧ files d !! t = Some bytes ∧
          files d0 !! id = Some bytes ∧
          (d0 = d ∨ files d !! id = None ∧ d0 = set_files (<[id := bytes]> (files d)) d)
    end.
Proof.
  intros (n & b & Hid & Hs & _) E. unfold fs_commit in E.
  destruct (Z.eqb_spec (staged_capability staged) (fs_capability store)) as [Hc|Hc]; cbn [negb] in E.
  2: { injection E as <- <- <-. exists d. by split_and!. }
  rewrite Hs in E. set (t := temporary_name (staged_id staged) n) in *.
  assert (Hread : ∀ f x, read_file f (fs_max_content_bytes store) x ≠ Err ForeignStagedArtifact).
  { intros [] []; cbn; try done. unfold read_capped. by destruct (_ <? _)%Z. }
  destruct (link_fault io) eqn:Hl; [|by injection E as <- <- <-; exists d; split_and!..].
  destruct (files d !! t) as [bytes|] eqn:Et; [|by injection E as <- <- <-; exists d; split_and!].
  destruct (files d !! staged_id staged) as [old|] eqn:Eo.
  - destruct (read_file (existing_fault io) _ _) as [existing|e] eqn:E1.
    2: { injection E as <- <- <-. exists d. split_and!; try done. split; [|done].
         intros ->. by apply Hread in E1. }
    destruct (read_file (staged_fault io) _ _) as [staged_bytes|e] eqn:E2.
    2: { injection E as <- <- <-. exists d. split_and!; try done. split; [|done].
         intros ->. by apply Hread in E2. }
    destruct (str_eqb existing staged_bytes) eqn:Eb; injection E as <- <- <-; exists d; [|by split_and!].
    apply str_eqb_eq in Eb as <-.
    assert (old = bytes) as ->.
    { revert E1 E2. unfold read_file, read_capped.
      destruct (existing_fault io), (staged_fault io); try done.
      destruct (_ <? _)%Z; [done|]. intros [= ->]. destruct (_ <? _)%Z; [done|]. by intros [= ->]. }
    split_and!; try done. exists bytes, t. by split_and!; auto.
  - injection E as <- <- <-. exists (set_files (<[staged_id staged := bytes]> (files d)) d).
    split_and!; try done. exists bytes, t. cbn. rewrite lookup_insert_eq. by split_and!; auto.
Qed.

Lemma wf_shows d d' tokens tokens' :
  publication_wf (d, tokens) → shows_same d d' → Forall (token_ok d') tokens' →
  NoDup (map staged_state tokens') → publication_wf (d', tokens').
Proof.
  intros [Hv _ _] Hsame Ht Hn. split; [|done..]. intros name bytes E Hname. cbn in *.
  rewrite Hsame in E by done. by apply Hv.
Qed.

(** A token stays good while the names of others change. *)
Lemma token_ok_mono d d' staged :
  token_ok d staged → (next_capability d ≤ next_capability d')%Z →
  (∀ t, staged_state staged = StagedFile t →
     files d' !! t = None ∨ files d' !! t = files d !! t) → token_ok d' staged.
Proof.
  intros (n & b & Hid & Hs & Hn & Hb) Hle Hf. exists n, b. split_and!; [done..|lia|].
  destruct (Hf _ Hs) as [->| ->]; auto.
Qed.

Lemma token_ok_visible d staged : token_ok d staged → visible (staged_id staged).
Proof. intros (n & b & -> & _). apply content_id_visible. Qed.

(** A new temporary disturbs nobody. *)
Lemma stage_wf d d' bytes tokens added :
  let t := temporary_name (content_id bytes) (next_capability d) in
  publication_wf (d, tokens) → (next_capability d ≤ next_capability d')%Z →
  (files d' = files d ∨ ∃ content, files d' = <[t := content]> (files d)) →
  Forall (token_ok d') added → NoDup (map staged_state added) →
  (∀ staged, staged ∈ added → staged_state staged = StagedFile t) →
  publication_wf (d', added ++ tokens) ∧ shows_same d d'.
Proof.
  intros t Hwf Hle Hf Hadd Hnd Hst. pose proof Hwf as [_ Ht Hn]. cbn in Ht, Hn.
  rewrite Forall_forall in Ht.
  assert (Hsame : shows_same d d').
  { intros name Hv. destruct Hf as [->|[c ->]]; [done|]. apply lookup_insert_ne.
    intros <-. by eapply temporary_not_visible. }
  assert (Hfresh : ∀ x, x ∈ tokens → staged_state x ≠ StagedFile t).
  { intros x Hx E. destruct (Ht x Hx) as (n & b & Hid & Hs & Hlt & _). rewrite E in Hs.
    apply StagedFile_inj, temporary_name_inj in Hs; [lia|apply content_id_visible|].
    rewrite Hid. apply content_id_visible. }
  split; [|done]. apply (wf_shows d d' tokens); [done..| |].
  - apply Forall_app. split; [done|]. apply Forall_forall. intros x Hx.
    apply (token_ok_mono d); [by apply Ht|done|]. intros t' Et'. right.
    destruct Hf as [->|[c ->]]; [done|]. apply lookup_insert_ne. intros <-. by apply (Hfresh x).
  - rewrite map_app. apply NoDup_app. split_and!; [done| |done].
    intros st (x & -> & Hx)%list_elem_of_fmap (y & Ey & Hy)%list_elem_of_fmap.
    rewrite (Hst x Hx) in Ey. by apply (Hfresh y).
Qed.

(** Consuming a token disturbs no other. *)
Lemma consume_wf d d0 removed staged before after :
  publication_wf (d, before ++ staged :: after) →
  next_capability d0 = next_capability d →
  (∀ name, name ≠ staged_id staged → files d0 !! name = files d !! name) →
  (∀ bytes, files d0 !! staged_id staged = Some bytes → staged_id staged = content_id bytes) →
  publication_wf (drop_staged removed staged d0, before ++ after).
Proof.
  intros [Hv Ht Hn] Hcap Hsame Hid. cbn in Hv, Ht, Hn.
  assert (Hp : map staged_state (before ++ staged :: after) ≡ₚ
               staged_state staged :: map staged_state (before ++ after)).
  { rewrite <- (Permutation_middle before after staged). done. }
  rewrite Hp in Hn. apply NoDup_cons in Hn as [Hnew Hn].
  rewrite Forall_forall in Ht.
  assert (Hst : token_ok d staged) by (apply Ht; set_solver).
  assert (Hin : ∀ x, x ∈ before ++ after → x ∈ before ++ staged :: after) by set_solver.
  pose proof Hst as (n & b & _ & Hs & _).
  assert (Hdrop : ∀ name, StagedFile name ≠ staged_state staged →
    files (drop_staged removed staged d0) !! name = files d0 !! name).
  { intros name Hname. unfold drop_staged. rewrite Hs in *. destruct removed; [|done]. cbn.
    apply lookup_delete_ne. congruence. }
  assert (Hvis : ∀ name, visible name → StagedFile name ≠ staged_state staged).
  { rewrite Hs. intros name Hname [= ->]. by eapply temporary_not_visible. }
  split; [..|done]; cbn [fst snd].
  - intros name bytes E Hname. rewrite Hdrop in E by auto.
    destruct (decide (name = staged_id staged)) as [->|Hne]; [by apply Hid|].
    rewrite Hsame in E by done. by apply Hv.
  - apply Forall_forall. intros x Hx. apply (token_ok_mono d); [by apply Ht, Hin| |].
    + rewrite drop_counter. lia.
    + intros t Et. right. rewrite Hdrop.
      * apply Hsame. intros ->. destruct (Ht x (Hin x Hx)) as (n' & b' & _ & Hs' & _).
        rewrite Et in Hs'. apply StagedFile_inj in Hs'. apply (temporary_not_visible (staged_id x) n').
        rewrite <- Hs'. by eapply token_ok_visible.
      * intros E. apply Hnew. rewrite <- E, <- Et. apply list_elem_of_fmap. by exists x.
Qed.

Lemma commit_wf io staged store d before after d' store' r :
  publication_wf (d, before ++ staged :: after) → fs_commit io staged store d = (d', store', r) →
  publication_wf (d', before ++ after).
Proof.
  intros Hwf E. pose proof Hwf as [Hv Ht _]. cbn in Hv, Ht.
  assert (Hst : token_ok d staged).
  { rewrite Forall_forall in Ht. apply Ht. set_solver. }
  destruct (fs_commit_spec _ _ _ _ _ _ _ Hst E) as (d0 & -> & Hcap & Hr).
  apply (consume_wf d); [done|done|..].
  - intros name Hne. destruct r as [id|e]; [|by destruct Hr as [-> _]].
    destruct Hr as (-> & _ & bytes & t & _ & _ & _ & [-> |[_ ->]]); [done|].
    cbn. by apply lookup_insert_ne.
  - intros bytes Eb. destruct r as [id|e].
    2: { destruct Hr as [-> _]. apply Hv; [done|]. by eapply token_ok_visible. }
    destruct Hr as (-> & _ & content & t & Hs & Ht' & H0 & _). rewrite Eb in H0. injection H0 as <-.
    destruct Hst as (n & b & Hid & Hs' & _ & Hb). rewrite Hs in Hs'. injection Hs' as ->.
    destruct Hb as [Hb|Hb]; rewrite Ht' in Hb; congruence.
Qed.

Lemma publish_wf p p' : publish p p' → publication_wf p → publication_wf p'.
Proof.
  intros Hstep Hwf. destruct Hstep as [io bytes store d tokens d' r E|? ? ? ? ? ? ? ? ? E|
    removed staged d before after|n d tokens Hn|d tokens].
  - apply fs_stage_spec in E as [Hle Hr]. destruct r as [staged|e].
    + destruct Hr as (Hid & Hs & _ & _ & Hf & Hcap & _).
      apply (stage_wf d d' bytes tokens [staged]); [done|done|eauto|..].
      * apply Forall_singleton. exists (next_capability d), bytes. rewrite Hid.
        split_and!; [done|done|lia|]. right. rewrite Hf. apply lookup_insert_eq.
      * apply NoDup_singleton.
      * by intros x ->%list_elem_of_singleton.
    + destruct Hr as (t & -> & Hf).
      apply (stage_wf d d' bytes tokens []); [done|done|naive_solver|done|apply NoDup_nil_2|].
      by intros x ?%elem_of_nil.
  - by eapply commit_wf.
  - apply (consume_wf d); [done..|]. intros bytes Eb. destruct Hwf as [Hv Ht _]. cbn in *.
    apply Hv; [done|]. rewrite Forall_forall in Ht. eapply token_ok_visible, Ht. set_solver.
  - destruct Hwf as [Hv Ht Hnd]. split; cbn in *; [done| |done].
    eapply Forall_impl; [exact Ht|]. intros x Hx. eapply token_ok_mono; [done|done|]. by right.
  - destruct Hwf as [Hv Ht Hnd]. split; cbn in *; [by intros ???%lookup_empty_Some| |done].
    eapply Forall_impl; [exact Ht|]. intros x Hx. eapply token_ok_mono; [done|done|]. by left.
Qed.

Lemma fs_stage_shows io bytes store d d' r :
  fs_stage io bytes store d = (d', r) → shows_same d d'.
Proof.
  intros [_ Hr]%fs_stage_spec name Hv.
  assert (Hne : ∀ id n c, <[temporary_name id n := c]> (files d) !! name = files d !! name).
  { intros id n c. apply lookup_insert_ne. intros <-. by eapply temporary_not_visible. }
  destruct r as [staged|e].
  - destruct Hr as (_ & _ & _ & _ & -> & _). apply Hne.
  - destruct Hr as (t & -> & [->|(_ & c & ->)]); [done|apply Hne].
Qed.

(** The identifier names the bytes the token staged, which nothing else did. *)
Definition published (d d' : Directory) (staged : StagedArtifact) : Prop :=
  ∃ bytes t, staged_state staged = StagedFile t ∧ files d !! t = Some bytes ∧
    files d' !! staged_id staged = Some bytes ∧ staged_id staged = content_id bytes ∧
    (files d !! staged_id staged = None ∨ files d !! staged_id staged = Some bytes).

Lemma commit_shows d :
  (∀ name bytes, files d !! name = Some bytes → visible name → name = content_id bytes) →
  ∀ io staged store d' store' r,
  token_ok d staged → fs_commit io staged store d = (d', store', r) →
  (∀ name, visible name → name ≠ staged_id staged → files d' !! name = files d !! name) ∧
  match r with
  | Ok id => id = staged_id staged ∧ staged_capability staged = fs_capability store ∧
      published d d' staged ∧ shows d d'
  | Err e => shows_same d d' ∧
      (e = ForeignStagedArtifact ↔ staged_capability staged ≠ fs_capability store)
  end.
Proof.
  intros Hv io staged store d' store' r Hst E. pose proof (token_ok_visible _ _ Hst) as Hvid.
  destruct (fs_commit_spec _ _ _ _ _ _ _ Hst E) as (d0 & -> & _ & Hr).
  assert (Hdrop := drop_same d d0 staged (unlink_ok io) Hst). destruct r as [id|e].
  - destruct Hr as (-> & Hc & bytes & t & Hs & Ht & H0 & Hd0).
    assert (Hne : ∀ name, name ≠ staged_id staged → files d0 !! name = files d !! name).
    { intros name Hne. destruct Hd0 as [->|[_ ->]]; [done|]. by apply lookup_insert_ne. }
    assert (Hid : staged_id staged = content_id bytes).
    { destruct Hst as (n & b & Hid & Hs' & _ & Hb). rewrite Hs in Hs'. injection Hs' as ->.
      destruct Hb as [Hb|Hb]; rewrite Ht in Hb; congruence. }
    split; [intros name Hname Hn; by rewrite Hdrop, Hne|]. split_and!; [done|done| |].
    + exists bytes, t. rewrite Hdrop by done. split_and!; try done.
      destruct Hd0 as [->|[Hnone _]]; auto.
    + intros name b Hname Hb. rewrite Hdrop by done.
      destruct Hd0 as [->|[Hnone ->]]; [done|]. cbn. rewrite lookup_insert_ne; [done|].
      intros En. subst name. by pose proof (eq_trans (eq_sym Hnone) Hb).
  - destruct Hr as [-> Hr]. split; [intros name Hname _; by apply Hdrop|]. by split.
Qed.

(** C33. Publishing an artifact is atomic and never replaces one.  However the
    stores sharing a directory interleave and whatever the system refuses: the
    bytes under a visible name always have that name as their digest; only the
    removal of the whole store takes a visible name away or changes its bytes,
    and only a commit makes one visible.  A commit that returns the identifier
    has made the staged bytes visible under it, and no other name; one that
    fails has made nothing visible, and a token of another store always fails. *)
Theorem artifact_publication_atomic p p' :
  publication_wf p → rtc publish p p' →
  publication_wf p' ∧
  (∀ p'', publish p' p'' → shows p'.1 p''.1 ∨ p''.1 = fs_remove_all p'.1) ∧
  (∀ io bytes store, shows_same p'.1 (fs_stage io bytes store p'.1).1) ∧
  (∀ removed staged, staged ∈ p'.2 → shows_same p'.1 (drop_staged removed staged p'.1)) ∧
  (∀ io staged store d store' r,
     staged ∈ p'.2 → fs_commit io staged store p'.1 = (d, store', r) →
     match r with
     | Ok id => id = staged_id staged ∧ staged_capability staged = fs_capability store ∧
         published p'.1 d staged ∧
         ∀ name, visible name → name ≠ id → files d !! name = files p'.1 !! name
     | Err e => shows_same p'.1 d ∧
         (e = ForeignStagedArtifact ↔ staged_capability staged ≠ fs_capability store)
     end).
Proof.
  intros Hwf Hrun. assert (Hwf' : publication_wf p').
  { clear -Hwf Hrun. induction Hrun as [|x y z Hxy _ IH]; [done|]. by apply IH, (publish_wf x). }
  destruct p' as [d tokens]. pose proof Hwf' as [Hv Ht Hn]. cbn in Hv, Ht, Hn.
  assert (Htok : ∀ staged, staged ∈ tokens → token_ok d staged) by by apply Forall_forall.
  assert (Hcommit : ∀ io staged store d' store' r,
    token_ok d staged → fs_commit io staged store d = (d', store', r) →
    (∀ name, visible name → name ≠ staged_id staged → files d' !! name = files d !! name) ∧
    match r with
    | Ok id => id = staged_id staged ∧ staged_capability staged = fs_capability store ∧
        published d d' staged ∧ shows d d'
    | Err e => shows_same d d' ∧
        (e = ForeignStagedArtifact ↔ staged_capability staged ≠ fs_capability store)
    end) by apply commit_shows, Hv.
  split_and!; [done| | | |]; cbn [fst snd].
  - intros p'' Hstep. inversion Hstep as [io bytes store ? ? d' r E|? staged ? ? before after d' ? ? E|
      removed staged ? before after|n ? ? Hle|]; subst; cbn [fst].
    + left. apply fs_stage_shows in E. intros name b Hname. by rewrite E.
    + left. apply Hcommit in E as [Hne Hr]; [|apply Htok; set_solver].
      destruct r as [id|e]; [apply Hr|]. destruct Hr as [Hr _]. intros name b Hname. by rewrite Hr.
    + left. intros name b Hname. rewrite (drop_same d); [done|apply Htok; set_solver|done].
    + left. by intros name b _ Hb.
    + by right.
  - intros io bytes store. destruct (fs_stage io bytes store d) as [d' r] eqn:E.
    by apply fs_stage_shows in E.
  - intros removed staged Hin. by apply (drop_same d), Htok.
  - intros io staged store d' store' r Hin E. apply Hcommit in E as [Hne Hr]; [|by apply Htok].
    destruct r as [id|e]; [|done]. destruct Hr as (-> & Hc & Hb & _). by split_and!.
Qed.
End publication.

(** ** The filesystem store keeps its promise

    One store alone in its directory, where nothing fails. *)

Section filesystem_laws.
Context `{Sha256}.

Definition stage_done : StageIo := mk_StageIo NoFault NoFault NoFault None.
Definition commit_done : CommitIo := mk_CommitIo NoFault NoFault NoFault true.

(*| runtime/artifact.rs 279-282 ArtifactStore::put *)
Definition fs_put (bytes : string) :
    method (Directory * FilesystemArtifactStore) ArtifactErrorKind ArtifactId := λ '(d, store),
  match fs_stage stage_done bytes store d with
  | (d, Err e) => ((d, store), Err e)
  | (d, Ok staged) =>
      let '(d, store, r) := fs_commit commit_done staged store d in ((d, store), r)
  end.

#[export] Instance filesystem_store : ArtifactStore (Directory * FilesystemArtifactStore) := {
  put := fs_put;
  read_page '(d, store) := fs_read_page NoFault store d;
  set_retention id policy '(d, store) :=
    let '(store, r) := fs_set_retention NoFault id policy store d in ((d, store), r);
  retention '(d, store) id := fs_retention_of NoFault id store d }.

Record fs_wf (s : Directory * FilesystemArtifactStore) : Prop := mk_fs_wf {
  fs_wf_page : (0 < fs_max_page_bytes s.2)%Z;
  fs_wf_content : u64 (fs_max_content_bytes s.2);
  fs_wf_files name bytes : files s.1 !! name = Some bytes → visible name →
    name = content_id bytes ∧ (str_len bytes ≤ fs_max_content_bytes s.2)%Z }.

Definition fs_stored (s : Directory * FilesystemArtifactStore) (id : ArtifactId) : option string :=
  if bool_decide (visible id) then files s.1 !! id else None.

Lemma fs_stored_visible s id : visible id → fs_stored s id = files s.1 !! id.
Proof. intros Hv. unfold fs_stored. by rewrite bool_decide_eq_true_2. Qed.

Lemma fs_stored_same d d' store store' :
  shows_same d d' → ∀ i, fs_stored (d', store') i = fs_stored (d, store) i.
Proof. intros Hs i. unfold fs_stored. case_bool_decide; [|done]. by apply Hs. Qed.

Lemma fs_limits io staged store d d' store' r :
  fs_commit io staged store d = (d', store', r) →
  fs_max_page_bytes store' = fs_max_page_bytes store ∧
  fs_max_content_bytes store' = fs_max_content_bytes store.
Proof.
  unfold fs_commit. repeat case_match; by intros [= <- <- <-].
Qed.

Lemma fs_put_law bytes s s' r :
  fs_wf s → fs_put bytes s = (s', r) →
  fs_wf s' ∧
  match r with
  | Ok id => id = content_id bytes ∧ fs_stored s' id = Some bytes ∧
             (fs_stored s id = None ∨ fs_stored s id = Some bytes) ∧
             ∀ i, i ≠ id → fs_stored s' i = fs_stored s i
  | Err _ => ∀ i, fs_stored s' i = fs_stored s i
  end.
Proof.
  destruct s as [d store]. intros Hwf E. pose proof Hwf as [H1 H2 H3]. cbn in H1, H2, H3.
  cbn [fs_put] in E. destruct (fs_stage stage_done bytes store d) as [d1 [staged|e]] eqn:Es.
  2: { injection E as <- <-. apply fs_stage_shows in Es. split.
       - split; cbn; [done..|]. intros name b Hb Hv. rewrite Es in Hb by done. by apply H3.
       - by apply fs_stored_same. }
  pose proof (fs_stage_shows _ _ _ _ _ _ Es) as Hsame1.
  apply fs_stage_spec in Es as [_ (Hid & Hs & Hc & _ & Hf & Hcap & Hlen)].
  assert (Htok : token_ok d1 staged).
  { exists (next_capability d), bytes. rewrite Hid. split_and!; [done|done|lia|]. right. rewrite Hf.
    apply lookup_insert_eq. }
  destruct (fs_commit commit_done staged store d1) as [[d2 store2] r2] eqn:Ec.
  injection E as <- <-. destruct (fs_limits _ _ _ _ _ _ _ Ec) as [Hp Hm].
  assert (Hv1 : ∀ name b, files d1 !! name = Some b → visible name → name = content_id b).
  { intros name b Hb Hv. rewrite Hsame1 in Hb by done. by apply H3. }
  pose proof (commit_shows d1 Hv1 _ _ _ _ _ _ Htok Ec) as [Hne Hr].
  destruct r2 as [id|e].
  - destruct Hr as (-> & _ & (b & t & Ht & Hb & Hb2 & Hidb & Hold) & Hshow).
    assert (b = bytes) as ->.
    { rewrite Hs in Ht. apply StagedFile_inj in Ht as <-. rewrite Hf, lookup_insert_eq in Hb.
      by injection Hb. }
    pose proof (token_ok_visible _ _ Htok) as Hvis. rewrite Hsame1 in Hold by done. split.
    + split; cbn; [by rewrite Hp|by rewrite Hm|]. rewrite Hm. intros name b Hn Hv.
      destruct (decide (name = staged_id staged)) as [->|Hd].
      * rewrite Hb2 in Hn. by injection Hn as <-.
      * rewrite Hne, Hsame1 in Hn by done. by apply H3.
    + rewrite !fs_stored_visible by done. cbn [fst]. split_and!; try done.
      intros i Hi. unfold fs_stored. case_bool_decide; [|done]. cbn. by rewrite Hne, Hsame1.
  - destruct Hr as [Hsame2 _].
    assert (Hsame : shows_same d d2) by (intros name Hv; by rewrite Hsame2, Hsame1). split.
    + split; cbn; [by rewrite Hp|by rewrite Hm|]. rewrite Hm. intros name b Hn Hv.
      rewrite Hsame in Hn by done. by apply H3.
    + by apply fs_stored_same.
Qed.

#[export, refine] Instance filesystem_laws :
  ArtifactStoreLaws (Directory * FilesystemArtifactStore) := {
  store_wf := fs_wf; stored := fs_stored; page_limit s := fs_max_page_bytes s.2 }.
Proof.
  - by intros s [??].
  - intros s id bytes [_ H2 H3]. unfold fs_stored. case_bool_decide as Hv; [|done].
    intros Hb. apply H3 in Hb as [_ Hb]; [|done]. unfold u64, str_len in *. lia.
  - apply fs_put_law.
  - intros [d store] id request [H1 H2 H3] Hv. cbn [read_page filesystem_store].
    rewrite fs_stored_visible by done. unfold fs_read_page, read_file. cbn [fst snd].
    destruct (files d !! id) as [bytes|] eqn:E; [|done].
    apply H3 in E as [-> Hlen]; [|done]. unfold read_capped. cbn in Hlen.
    destruct (Z.ltb_spec (fs_max_content_bytes store) (str_len bytes)); [lia|]. cbn.
    unfold content_id, str_eqb. by rewrite bool_decide_eq_true_2.
Defined.
End filesystem_laws.

(** ** A concrete directory *)

#[local] Instance ex_sha : Sha256 := λ s, s.

Definition ex_store (capability : Z) : FilesystemArtifactStore := mk_Filesystem ∅ 100 3 capability.
Definition ex_directory : Directory := mk_Directory ∅ 7.

Lemma artifact_pages_roundtrip_witness :
  let s' := (put "hello world" (ex_directory, ex_store 1)).1 in
  read_from 11 s' (content_id "hello world") 100 0 = Ok "hello world" ∧
  read_page s' (content_id "hello world") (mk_PageRequest 0 100) =
    Ok (mk_ArtifactPage "hel" (Some 3%Z)).
Proof.
  assert (Hwf : store_wf (ex_directory, ex_store 1)).
  { split; cbn; [lia|done|]. by intros name bytes ?%lookup_empty_Some. }
  assert (E : (put "hello world" (ex_directory, ex_store 1)).2 = Ok (content_id "hello world"))
    by by vm_compute.
  destruct (put "hello world" (ex_directory, ex_store 1)) as [s' r] eqn:Ep. cbn in E. subst r.
  destruct (artifact_pages_roundtrip "hello world" _ _ _ 100 Hwf ltac:(done) Ep ltac:(lia))
    as (_ & Hr & _).
  split; [exact Hr|]. apply (f_equal fst) in Ep. cbn [fst] in Ep. subst s'. by vm_compute.
Defined.

(** Two stores stage the same bytes and one commits. *)
Definition ex_token (n : Z) (c : Z) : StagedArtifact :=
  mk_StagedArtifact (content_id "x") (StagedFile (temporary_name (content_id "x") n)) c.

Lemma artifact_publication_atomic_witness :
  ∃ d d2, rtc publish (ex_directory, []) (d, [ex_token 8 2; ex_token 7 1]) ∧
    (fs_commit commit_done (ex_token 8 2) (ex_store 2) d).1.1 = d2 ∧
    files d2 !! content_id "x" = Some "x" ∧
    (fs_commit commit_done (ex_token 7 1) (ex_store 2) d).2 = Err ForeignStagedArtifact.
Proof.
  destruct (fs_stage stage_done "x" (ex_store 1) ex_directory) as [d1 r1] eqn:E1.
  destruct (fs_stage stage_done "x" (ex_store 2) d1) as [d r2] eqn:E2.
  assert (r1 = Ok (ex_token 7 1)) as -> 
    by (apply (f_equal snd) in E1; cbn [snd] in E1; rewrite <- E1; by vm_compute).
  assert (r2 = Ok (ex_token 8 2)) as ->.
  { apply (f_equal fst) in E1. apply (f_equal snd) in E2. cbn [fst snd] in E1, E2.
    rewrite <- E2, <- E1. by vm_compute. }
  assert (Hrun : rtc publish (ex_directory, []) (d, [ex_token 8 2; ex_token 7 1])).
  { eapply rtc_l; [by eapply (publish_stage _ _ _ _ [])|].
    eapply rtc_l; [by eapply (publish_stage _ _ _ _ [_])|]. apply rtc_refl. }
  assert (Hwf : publication_wf (ex_directory, [])).
  { split; cbn; [by intros ???%lookup_empty_Some|done|apply NoDup_nil_2]. }
  destruct (artifact_publication_atomic _ _ Hwf Hrun) as (_ & _ & _ & _ & Hc).
  exists d, (fs_commit commit_done (ex_token 8 2) (ex_store 2) d).1.1. split_and!; [done|done|..].
  - destruct (fs_commit commit_done (ex_token 8 2) (ex_store 2) d) as [[d2 st] r] eqn:E.
    assert (Hr : r = Ok (content_id "x")).
    { apply (f_equal snd) in E. apply (f_equal fst) in E1, E2. cbn [fst snd] in E, E1, E2.
      rewrite <- E, <- E2, <- E1. by vm_compute. }
    subst r. apply Hc in E as (_ & _ & (b & t & Ht & Hb & Hd2 & Hid & _) & _); [|left].
    cbn [staged_id ex_token] in Hid, Hd2. apply (inj encode_hex) in Hid. cbn [fst].
    by rewrite Hd2, Hid.
  - destruct (fs_commit commit_done (ex_token 7 1) (ex_store 2) d) as [[d2 st] [id|e]] eqn:E; cbn [snd].
    + by apply Hc in E as (_ & ? & _); [|right; left].
    + apply Hc in E as [_ He]; [|right; left]. f_equal. by apply He.
Defined.
