(* ===== verification/NodeCache.v ===== *)
(** * The node-result cache

    [workflow-runtime/src/node_cache.rs]: results of workflow nodes memoized on
    the file system under a digest of everything they depend on.  A root
    directory holds temporaries and, in [entries], one file per key; nothing in
    a file is believed before it is verified.

    A directory is the map from the names in it to their bytes; what the
    operating system refuses, and what another process publishes in between, is
    in the environment record of each operation.  The directory [fsync]s are
    calls that may fail; their counter is a test seam.  The derived JSON of an
    entry is the class [Serde]. *)

From stdpp Require Import pretty.
From S2P Require Import Prelude Hashing Json Text Frame Serde Artifact.

(*| runtime/node_cache.rs 16-16 NODE_CACHE_SCHEMA_VERSION *)
Definition NODE_CACHE_SCHEMA_VERSION : Z := 1.

(*| runtime/node_cache.rs 22-31 NodeCacheKeyMaterial *)
Record NodeCacheKeyMaterial := mk_KeyMaterial {
  m_workflow_id : string; m_workflow_version : string; m_node_id : string;
  m_node_version : string; m_invocation_identity : string;
  m_input_artifact_hashes : list string; m_request_input_digest : string;
  m_policy_digest : string }.
#[export] Instance NodeCacheKeyMaterial_eq_dec : EqDecision NodeCacheKeyMaterial.
Proof. solve_decision. Defined.

(** The copies of the identities are the material with its hashes in order. *)
(*| runtime/node_cache.rs 35-45 NodeCacheKey *)
Record NodeCacheKey := mk_NodeCacheKey { digest : string; bound : NodeCacheKeyMaterial }.

(*| runtime/node_cache.rs 48-50 NodeCacheKeyError *)
Inductive NodeCacheKeyError := EmptyIdentity.
#[export] Instance NodeCacheKeyError_eq_dec : EqDecision NodeCacheKeyError.
Proof. solve_decision. Defined.

(** The fields of a [CacheProvenance] are those of the material it copies. *)
(*| runtime/node_cache.rs 54-63 CacheProvenance *)
Definition CacheProvenance : Type := NodeCacheKeyMaterial.

(*| runtime/node_cache.rs 67-73 NodeCacheInvalidationReason *)
Inductive NodeCacheInvalidationReason :=
| HashMismatch | SchemaMismatch | InvalidOutput | ExplicitInvalidate | CorruptEntry.
#[export] Instance NodeCacheInvalidationReason_eq_dec : EqDecision NodeCacheInvalidationReason.
Proof. solve_decision. Defined.

(*| runtime/node_cache.rs 77-80 NodeCacheOutcome *)
Inductive NodeCacheOutcome := Success | Negative (reason : NodeCacheInvalidationReason).
#[export] Instance NodeCacheOutcome_eq_dec : EqDecision NodeCacheOutcome.
Proof. solve_decision. Defined.

(*| runtime/node_cache.rs 101-105 CacheDisposition *)
Inductive CacheDisposition := Reused | Recorded | Reexecuted.
(*| runtime/node_cache.rs 264-270 CacheDisposition::as_str *)
Definition disposition_str (d : CacheDisposition) : string :=
  match d with Reused => "reused" | Recorded => "recorded" | Reexecuted => "reexecuted" end.

(*| runtime/node_cache.rs 120-124 NodeCacheErrorKind *)
Inductive NodeCacheErrorKind := InvalidIdentity | CacheIo | CacheCorrupt.
#[export] Instance NodeCacheErrorKind_eq_dec : EqDecision NodeCacheErrorKind.
Proof. solve_decision. Defined.

(*| runtime/node_cache.rs 108-110 NodeCacheRetention *)
Record NodeCacheRetention := mk_NodeCacheRetention { max_entries : option nat }.

(*| runtime/node_cache.rs 113-117 NodeCacheInspect *)
Record NodeCacheInspect := mk_NodeCacheInspect {
  entry_count : nat; negative_entries : nat; paths : list (string * string) }.

(** The names under the root that are not in [entries], and those in it. *)
Record CacheDir := mk_CacheDir { tmp_files : gmap string string; cached : gmap string string }.
Definition set_cached (f : gmap string string) (d : CacheDir) : CacheDir := mk_CacheDir (tmp_files d) f.
Definition set_tmp (f : gmap string string) (d : CacheDir) : CacheDir := mk_CacheDir f (cached d).

#[export] Instance CacheDir_eq_dec : EqDecision CacheDir.
Proof. solve_decision. Defined.

(** ** Keys *)

(*| runtime/node_cache.rs 627-634 key_digest_leaf *)
Definition key_digest_leaf (digest : string) : option string :=
  match strip_prefix "sha256:" digest with
  | None => None
  | Some hex =>
      if (str_len hex =? 64)%Z && str_all is_lower_hex hex then Some ("sha256-" +:+ hex) else None
  end.

(** [hashes.sort()]. *)
Definition sorted_hashes (m : NodeCacheKeyMaterial) : list string :=
  sort_by_key id (m_input_artifact_hashes m).

(*| runtime/node_cache.rs 154-165 NodeCacheKey::bind *)
Definition framed (m : NodeCacheKeyMaterial) : string :=
  String.concat newline
    [frame "WORKFLOW_ID" (m_workflow_id m); frame "WORKFLOW_VERSION" (m_workflow_version m);
     frame "NODE_ID" (m_node_id m); frame "NODE_VERSION" (m_node_version m);
     frame "INVOCATION_IDENTITY" (m_invocation_identity m);
     frame "INPUT_ARTIFACT_HASHES" (String.concat newline (sorted_hashes m));
     frame "REQUEST_INPUT_DIGEST" (m_request_input_digest m);
     frame "POLICY_DIGEST" (m_policy_digest m)].

Section cache.
Context `{JsonText, Sha256}.

(*| runtime/node_cache.rs 83-90 NodeCacheEntry *)
Record NodeCacheEntry := mk_NodeCacheEntry {
  schema_version : Z; key_digest : string; payload : Value; payload_sha256 : string;
  outcome : NodeCacheOutcome; provenance : CacheProvenance }.

(*| runtime/node_cache.rs 93-97 NodeCacheLookup *)
Inductive NodeCacheLookup :=
| Hit (entry : NodeCacheEntry) | Miss | Invalid (reason : NodeCacheInvalidationReason).

(*| runtime/node_cache.rs 613-617 payload_digest *)
Definition payload_digest (payload : Value) : string := digest_bytes (compact payload).

Definition with_hashes (hashes : list string) (m : NodeCacheKeyMaterial) : NodeCacheKeyMaterial :=
  mk_KeyMaterial (m_workflow_id m) (m_workflow_version m) (m_node_id m) (m_node_version m)
    (m_invocation_identity m) hashes (m_request_input_digest m) (m_policy_digest m).

(*| runtime/node_cache.rs 138-177 NodeCacheKey::bind *)
Definition bind (m : NodeCacheKeyMaterial) : result NodeCacheKeyError NodeCacheKey :=
  if existsb str_is_empty
       [m_workflow_id m; m_workflow_version m; m_node_id m; m_node_version m;
        m_invocation_identity m; m_request_input_digest m; m_policy_digest m]
  then Err EmptyIdentity
  else Ok (mk_NodeCacheKey (digest_bytes (framed m)) (with_hashes (sorted_hashes m) m)).

(*| runtime/node_cache.rs 189-200 CacheProvenance::from_key *)
Definition from_key (key : NodeCacheKey) : CacheProvenance := bound key.

(*| runtime/node_cache.rs 590-601 key_from_provenance *)
Definition key_from_provenance (p : CacheProvenance) : result NodeCacheKeyError NodeCacheKey := bind p.

(** ** Entries *)

(*| runtime/node_cache.rs 229-244 NodeCacheEntry::new *)
Definition NodeCacheEntry_new (key : NodeCacheKey) (payload : Value) (outcome : NodeCacheOutcome)
    (provenance : CacheProvenance) : NodeCacheEntry :=
  mk_NodeCacheEntry NODE_CACHE_SCHEMA_VERSION (digest key) payload (payload_digest payload) outcome
    provenance.
(*| runtime/node_cache.rs 208-214 NodeCacheEntry::success *)
Definition NodeCacheEntry_success (key : NodeCacheKey) (payload : Value) (p : CacheProvenance) :
    NodeCacheEntry := NodeCacheEntry_new key payload Success p.
(*| runtime/node_cache.rs 216-227 NodeCacheEntry::negative *)
Definition NodeCacheEntry_negative (key : NodeCacheKey) (reason : NodeCacheInvalidationReason)
    (p : CacheProvenance) : NodeCacheEntry := NodeCacheEntry_new key Null (Negative reason) p.

Context `{!Serde NodeCacheEntry}.

(*| runtime/node_cache.rs 546-588 verify_entry *)
Definition verify_entry (bytes : string) (expected_digest : option string) : NodeCacheLookup :=
  match from_text bytes with
  | None => Invalid CorruptEntry
  | Some entry =>
      if negb (schema_version entry =? NODE_CACHE_SCHEMA_VERSION)%Z then Invalid SchemaMismatch
      else if negb (str_eqb (payload_digest (payload entry)) (payload_sha256 entry))
      then Invalid HashMismatch
      else if negb (is_some (key_digest_leaf (key_digest entry))) then Invalid HashMismatch
      else match key_from_provenance (provenance entry) with
      | Err _ => Invalid HashMismatch
      | Ok reconstructed =>
          if negb (str_eqb (digest reconstructed) (key_digest entry)) then Invalid HashMismatch
          else if match expected_digest with
                  | Some digest => negb (str_eqb digest (key_digest entry))
                  | None => false
                  end
          then Invalid HashMismatch
          else Hit entry
      end
  end.

(** ** The cache *)

(** [entries_ok]: the metadata of [entries] can be read and say it is a
    directory and no symbolic link. *)
(*| runtime/node_cache.rs 603-611 verified_entries_dir *)
Definition verified_entries_dir (entries_ok : bool) : result NodeCacheErrorKind unit :=
  ensure entries_ok CacheIo.

(** [sync_ok]: the directory can be opened and synced. *)
(*| runtime/node_cache.rs 513-519 sync_dir *)
Definition sync_dir (sync_ok : bool) : result NodeCacheErrorKind unit := ensure sync_ok CacheIo.
(*| runtime/node_cache.rs 444-446 NodeResultCache::sync_entries *)
Definition sync_entries (entries_ok sync_ok : bool) : result NodeCacheErrorKind unit :=
  verified_entries_dir entries_ok;; sync_dir sync_ok.

Record OpenIo := mk_OpenIo {
  create_ok : bool; open_entries_ok : bool; sync_entries_ok : bool; sync_root_ok : bool;
  missing_root : bool; has_parent : bool; sync_parent_ok : bool }.
(*| runtime/node_cache.rs 521-526 sync_created_parent *)
Definition sync_created_parent (io : OpenIo) : result NodeCacheErrorKind unit :=
  if missing_root io && has_parent io then sync_dir (sync_parent_ok io) else Ok tt.
(*| runtime/node_cache.rs 311-321 NodeResultCache::open *)
Definition open (io : OpenIo) : result NodeCacheErrorKind unit :=
  ensure (create_ok io) CacheIo;;
  verified_entries_dir (open_entries_ok io);;
  sync_dir (sync_entries_ok io);;
  sync_dir (sync_root_ok io);;
  sync_created_parent io.

(*| runtime/node_cache.rs 434-438 NodeResultCache::path_for *)
Definition path_for (entries_ok : bool) (digest : string) : result NodeCacheErrorKind string :=
  match key_digest_leaf digest with
  | None => Err InvalidIdentity
  | Some leaf => verified_entries_dir entries_ok;; Ok leaf
  end.

(** One attempt to create a temporary: its random token, and whether creating
    and writing it are refused; what a failed write leaves of the file. *)
Record Attempt := mk_Attempt {
  token : string; attempt_fault : bool; write_ok : bool; residue : option string }.

Definition tmp_name (stem process token : string) : string :=
  ".tmp-" +:+ stem +:+ "-" +:+ process +:+ "-" +:+ token.

Fixpoint try_attempts (stem process bytes : string) (attempts : list Attempt) :
    method CacheDir NodeCacheErrorKind string := λ d,
  match attempts with
  | [] => (d, Err CacheIo)
  | a :: rest =>
      let tmp := tmp_name stem process (token a) in
      if is_some (tmp_files d !! tmp) then try_attempts stem process bytes rest d
      else if attempt_fault a then (d, Err CacheIo)
      else if write_ok a then (set_tmp (<[tmp := bytes]> (tmp_files d)) d, Ok tmp)
      else (match residue a with
            | Some partial => set_tmp (<[tmp := partial]> (tmp_files d)) d
            | None => d
            end, Err CacheIo)
  end.

Record PutIo := mk_PutIo {
  path_ok : bool; process_id : string; attempts : nat → Attempt;
  link_ok : bool; existing_ok : bool; remove_ok : bool; removed_dir_ok : bool; removed_sync_ok : bool;
  dir_ok : bool; sync_ok : bool;
  raced : option string; relink_ok : bool; winner_ok : bool; unlink_ok : bool }.

(*| runtime/node_cache.rs 448-480 NodeResultCache::create_tmp *)
Definition create_tmp (io : PutIo) (digest bytes : string) :
    method CacheDir NodeCacheErrorKind string := λ d,
  match key_digest_leaf digest with
  | None => (d, Err InvalidIdentity)
  | Some stem => try_attempts stem (process_id io) bytes (map (attempts io) (seq 0 8)) d
  end.

(** The second link, after a different entry was removed: another process may
    have published [raced] in between. *)
(*| runtime/node_cache.rs 494-507 NodeResultCache::publish *)
Definition publish_again (io : PutIo) (leaf bytes : string) :
    method CacheDir NodeCacheErrorKind unit := λ d,
  let d := match raced io with Some other => set_cached (<[leaf := other]> (cached d)) d | None => d end in
  match cached d !! leaf with
  | None =>
      if relink_ok io
      then (set_cached (<[leaf := bytes]> (cached d)) d, sync_entries (dir_ok io) (sync_ok io))
      else (d, Err CacheIo)
  | Some existing =>
      if negb (winner_ok io) then (d, Err CacheIo)
      else if str_eqb existing bytes then (d, sync_entries (dir_ok io) (sync_ok io))
      else (d, Err CacheCorrupt)
  end.

(*| runtime/node_cache.rs 482-510 NodeResultCache::publish *)
Definition publish (io : PutIo) (leaf bytes : string) : method CacheDir NodeCacheErrorKind unit := λ d,
  if negb (link_ok io) then (d, Err CacheIo)
  else match cached d !! leaf with
  | None => (set_cached (<[leaf := bytes]> (cached d)) d, sync_entries (dir_ok io) (sync_ok io))
  | Some existing =>
      if negb (existing_ok io) then (d, Err CacheIo)
      else if str_eqb existing bytes then (d, sync_entries (dir_ok io) (sync_ok io))
      else if negb (remove_ok io) then (d, Err CacheIo)
      else
        let d := set_cached (delete leaf (cached d)) d in
        match sync_entries (removed_dir_ok io) (removed_sync_ok io) with
        | Err e => (d, Err e)
        | Ok _ => publish_again io leaf bytes d
        end
  end.

(*| runtime/node_cache.rs 323-331 NodeResultCache::put *)
Definition put_entry (io : PutIo) (entry : NodeCacheEntry) : method CacheDir NodeCacheErrorKind unit := λ d,
  let bytes := to_text entry in
  match path_for (path_ok io) (key_digest entry) with
  | Err e => (d, Err e)
  | Ok leaf =>
      match create_tmp io (key_digest entry) bytes d with
      | (d, Err e) => (d, Err e)
      | (d, Ok tmp) =>
          let '(d, published) := publish io leaf bytes d in
          (if unlink_ok io then set_tmp (delete tmp (tmp_files d)) d else d, published)
      end
  end.

(*| runtime/node_cache.rs 333-343 NodeResultCache::lookup *)
Definition lookup_key (entries_ok : bool) (read : fault) (key : NodeCacheKey) (d : CacheDir) :
    result NodeCacheErrorKind NodeCacheLookup :=
  leaf ← path_for entries_ok (digest key);
  match read with
  | FaultNotFound => Ok Miss
  | FaultOther => Err CacheIo
  | NoFault =>
      match cached d !! leaf with
      | None => Ok Miss
      | Some bytes => Ok (verify_entry bytes (Some (digest key)))
      end
  end.

(** The names in the order of [read_dir], each with whether it can be read;
    [None] an entry that cannot be listed. *)
Record ListIo := mk_ListIo {
  list_entries_ok : bool; list_ok : bool; listing : list (option (string * bool)) }.

(*| runtime/node_cache.rs 350-364 NodeResultCache::inspect *)
Fixpoint inspect_files (d : CacheDir) (listing : list (option (string * bool))) :
    result NodeCacheErrorKind (list (NodeCacheEntry * string)) :=
  match listing with
  | [] => Ok []
  | None :: _ => Err CacheIo
  | Some (name, readable) :: rest =>
      found ← inspect_files d rest;
      match cached d !! name with
      | Some bytes =>
          if readable then
            match verify_entry bytes None with
            | Hit entry => Ok ((entry, name) :: found)
            | _ => Ok found
            end
          else Ok found
      | None => Ok found
      end
  end.

Definition is_negative (e : NodeCacheEntry) : bool :=
  match outcome e with Negative _ => true | Success => false end.

(*| runtime/node_cache.rs 345-372 NodeResultCache::inspect *)
Definition inspect (io : ListIo) (d : CacheDir) : result NodeCacheErrorKind NodeCacheInspect :=
  verified_entries_dir (list_entries_ok io);;
  ensure (list_ok io) CacheIo;;
  found ← inspect_files d (listing io);
  let paths := sort_by_key fst (map (λ '(e, name), (key_digest e, name)) found) in
  Ok (mk_NodeCacheInspect (length paths) (length (filter (λ f, is_negative (fst f)) found)) paths).

(*| runtime/node_cache.rs 292-297 NodeCacheInspect::entry_path *)
Definition entry_path (key : NodeCacheKey) (i : NodeCacheInspect) : option string :=
  snd <$> List.find (λ p, str_eqb (fst p) (digest key)) (paths i).

(*| runtime/node_cache.rs 374-384 NodeResultCache::invalidate *)
Definition invalidate (entries_ok : bool) (remove : fault) (dir_ok sync_ok : bool) (key : NodeCacheKey) :
    method CacheDir NodeCacheErrorKind unit := λ d,
  match path_for entries_ok (digest key) with
  | Err e => (d, Err e)
  | Ok leaf =>
      match remove with
      | FaultOther => (d, Err CacheIo)
      | FaultNotFound => (d, sync_entries dir_ok sync_ok)
      | NoFault => (set_cached (delete leaf (cached d)) d, sync_entries dir_ok sync_ok)
      end
  end.

Context `{!Serde (list NodeCacheEntry)}.

Fixpoint export_files (readable : string → bool) (d : CacheDir) (paths : list (string * string)) :
    result NodeCacheErrorKind (list NodeCacheEntry) :=
  match paths with
  | [] => Ok []
  | (_, name) :: rest =>
      match cached d !! name with
      | Some bytes =>
          if negb (readable name) then Err CacheIo
          else
            entries ← export_files readable d rest;
            match verify_entry bytes None with
            | Hit entry => Ok (entry :: entries)
            | _ => Ok entries
            end
      | None => Err CacheIo
      end
  end.

(*| runtime/node_cache.rs 386-396 NodeResultCache::export *)
Definition export (io : ListIo) (readable : string → bool) (d : CacheDir) :
    result NodeCacheErrorKind string :=
  i ← inspect io d;
  entries ← export_files readable d (paths i);
  Ok (to_text entries).

Fixpoint import_entries (io : nat → PutIo) (entries : list NodeCacheEntry) :
    method CacheDir NodeCacheErrorKind unit := λ d,
  match entries with
  | [] => (d, Ok tt)
  | entry :: rest =>
      match verify_entry (to_text entry) None with
      | Hit _ =>
          match put_entry (io (length rest)) entry d with
          | (d, Err e) => (d, Err e)
          | (d, Ok _) => import_entries io rest d
          end
      | _ => (d, Err CacheCorrupt)
      end
  end.

(*| runtime/node_cache.rs 398-416 NodeResultCache::import *)
Definition import (io : nat → PutIo) (bytes : string) : method CacheDir NodeCacheErrorKind nat := λ d,
  match from_text (A := list NodeCacheEntry) bytes with
  | None => (d, Err CacheCorrupt)
  | Some entries =>
      match import_entries io entries d with
      | (d, Err e) => (d, Err e)
      | (d, Ok _) => (d, Ok (length entries))
      end
  end.

Fixpoint gc_remove (removable : string → bool) (names : list string) :
    method CacheDir NodeCacheErrorKind unit := λ d,
  match names with
  | [] => (d, Ok tt)
  | name :: rest =>
      if removable name && is_some (cached d !! name)
      then gc_remove removable rest (set_cached (delete name (cached d)) d)
      else (d, Err CacheIo)
  end.

(*| runtime/node_cache.rs 418-432 NodeResultCache::gc *)
Definition gc (io : ListIo) (removable : string → bool) (dir_ok sync_ok : bool)
    (retention : NodeCacheRetention) : method CacheDir NodeCacheErrorKind nat := λ d,
  match max_entries retention with
  | None => (d, Ok 0)
  | Some max =>
      match inspect io d with
      | Err e => (d, Err e)
      | Ok i =>
          if (entry_count i <=? max)%nat then (d, Ok 0)
          else
            let dropped := entry_count i - max in
            match gc_remove removable (map snd (take dropped (paths i))) d with
            | (d, Err e) => (d, Err e)
            | (d, Ok _) => (d, sync_entries dir_ok sync_ok;; Ok dropped)
            end
      end
  end.
End cache.

(** ** The framed text of a key *)

#[local] Arguments String.append !_ _ /.

(** The scalars of the material, and its hashes as they are framed. *)
Definition identities (m : NodeCacheKeyMaterial) : NodeCacheKeyMaterial * string :=
  (mk_KeyMaterial (m_workflow_id m) (m_workflow_version m) (m_node_id m) (m_node_version m)
     (m_invocation_identity m) [] (m_request_input_digest m) (m_policy_digest m),
   String.concat newline (sorted_hashes m)).

Lemma framed_identities m m' : framed m = framed m' ↔ identities m = identities m'.
Proof.
  split.
  - unfold framed. cbn [String.concat]. intros E. do 7 apply frame_next in E as [? E].
    apply frame_end in E. unfold identities. congruence.
  - unfold identities. intros [= ????? Hd Hp Hh]. unfold framed. congruence.
Qed.

(** Hashes as they are meant: no line in them is empty. *)
Definition plain_hash (h : string) : Prop := h ≠ "" ∧ str_all (λ c, negb (Ascii.eqb c "010")) h = true.

Lemma join_lines_inj l k :
  Forall plain_hash l → Forall plain_hash k →
  String.concat newline l = String.concat newline k → l = k.
Proof.
  intros Hl. revert k. induction Hl as [|h l [Hh Hn] Hl IH]; intros k Hk.
  - destruct Hk as [|g k [Hg _] _]; [done|]. intros E. destruct g; [done|]. by destruct k.
  - destruct Hk as [|g k [Hg Hm] Hk].
    + intros E. destruct h; [done|]. by destruct l.
    + assert (Ej : ∀ (h : string) l, String.concat newline (h :: l) =
        h +:+ match l with [] => "" | _ => newline +:+ String.concat newline l end).
      { intros h' [|x l']; [|done]. cbn. by rewrite str_app_nil_r. }
      rewrite !Ej. intros E.
      apply (span_unique (λ c, negb (Ascii.eqb c "010"))) in E as [-> E]; [|done..| |].
      * f_equal. destruct l as [|x l], k as [|y k]; try done.
        apply str_app_inj_len in E as [_ E]; [|done]. by apply IH.
      * destruct l; [done|]. by intros c t [= <- _].
      * destruct k; [done|]. by intros c t [= <- _].
Qed.

Lemma identities_hashes m m' :
  identities m = identities m' → Forall plain_hash (m_input_artifact_hashes m) →
  Forall plain_hash (m_input_artifact_hashes m') →
  m_input_artifact_hashes m ≡ₚ m_input_artifact_hashes m'.
Proof.
  unfold identities. intros [= ????? Hd Hp Hh] Hm Hm'.
  apply join_lines_inj in Hh; [|unfold sorted_hashes; by rewrite sort_by_key_Permutation..].
  rewrite <- (sort_by_key_Permutation id (m_input_artifact_hashes m)).
  rewrite <- (sort_by_key_Permutation id (m_input_artifact_hashes m')).
  change (sorted_hashes m ≡ₚ sorted_hashes m'). by rewrite Hh.
Qed.

Lemma sorted_hashes_idemp m : sorted_hashes (with_hashes (sorted_hashes m) m) = sorted_hashes m.
Proof.
  unfold sorted_hashes. cbn. apply (sort_by_key_unique id).
  by rewrite sort_by_key_Permutation.
Qed.

Section properties.
Context `{JsonText, Sha256} `{!Serde NodeCacheEntry}.
Implicit Types (d : CacheDir) (e : NodeCacheEntry).

(** The written entry reads back. *)
Definition reads_back e : Prop := from_text (to_text e) = Some e.

Lemma bind_Ok_key m key :
  bind m = Ok key →
  key = mk_NodeCacheKey (digest_bytes (framed m)) (with_hashes (sorted_hashes m) m).
Proof. unfold bind. destruct (existsb _ _); [done|]. by intros [= <-]. Qed.

Lemma framed_sorted m : framed (with_hashes (sorted_hashes m) m) = framed m.
Proof.
  apply framed_identities. unfold identities. by rewrite sorted_hashes_idemp.
Qed.

(** The key that an entry's provenance reconstructs is the one it was bound to. *)
Lemma key_from_provenance_of m key :
  bind m = Ok key → ∃ key', key_from_provenance (from_key key) = Ok key' ∧ digest key' = digest key.
Proof.
  intros Hb. pose proof (bind_Ok_key m key Hb) as ->. unfold from_key, key_from_provenance. cbn [bound].
  unfold bind in *. cbn [with_hashes m_workflow_id m_workflow_version m_node_id m_node_version
    m_invocation_identity m_request_input_digest m_policy_digest]. destruct (existsb _ _); [done|].
  eexists. split; [done|]. cbn [digest]. by rewrite framed_sorted.
Qed.

Lemma leaf_Some digest leaf :
  key_digest_leaf digest = Some leaf →
  ∃ hex, digest = "sha256:" +:+ hex ∧ leaf = "sha256-" +:+ hex ∧ (str_len hex = 64)%Z ∧
         str_all is_lower_hex hex = true.
Proof.
  unfold key_digest_leaf. destruct (strip_prefix _ digest) as [hex|] eqn:E; [|done].
  apply strip_prefix_Some in E as ->. destruct (_ && _) eqn:Eb; [|done]. intros [= <-].
  apply andb_true_iff in Eb as [El%Z.eqb_eq Eh]. by exists hex.
Qed.

Lemma leaf_inj a b leaf : key_digest_leaf a = Some leaf → key_digest_leaf b = Some leaf → a = b.
Proof.
  intros (h & -> & -> & _)%leaf_Some (h' & -> & E & _)%leaf_Some.
  by apply str_app_inj_len in E as [_ ->].
Qed.

Lemma verify_entry_Hit bytes expected e :
  verify_entry bytes expected = Hit e ↔
  from_text bytes = Some e ∧ schema_version e = NODE_CACHE_SCHEMA_VERSION ∧
  payload_sha256 e = payload_digest (payload e) ∧ (∃ leaf, key_digest_leaf (key_digest e) = Some leaf) ∧
  (∃ key, key_from_provenance (provenance e) = Ok key ∧ digest key = key_digest e) ∧
  from_option (λ x, x = key_digest e) True expected.
Proof.
  unfold verify_entry. destruct (from_text bytes) as [x|]; [|naive_solver].
  destruct (Z.eqb_spec (schema_version x) NODE_CACHE_SCHEMA_VERSION) as [Ev|Ev]; cbn [negb]; [|naive_solver].
  destruct (str_eqb (payload_digest _) _) eqn:Ep; cbn [negb];
    [apply str_eqb_eq in Ep|apply bool_decide_eq_false in Ep; naive_solver].
  destruct (key_digest_leaf (key_digest x)) as [leaf|] eqn:El; cbn [is_some negb];
    [|split; [done|]; intros ([= ->] & _ & _ & [? E] & _); congruence].
  destruct (key_from_provenance _) as [key|] eqn:Ek;
    [|split; [done|]; intros ([= ->] & _ & _ & _ & (? & E & _) & _); congruence].
  destruct (str_eqb (digest key) _) eqn:Ed; cbn [negb];
    [apply str_eqb_eq in Ed
    |apply bool_decide_eq_false in Ed; split; [done|]; intros ([= ->] & _ & _ & _ & (? & E & ?) & _); congruence].
  destruct expected as [x'|]; cbn [from_option].
  - destruct (str_eqb x' _) eqn:Ex; cbn [negb].
    + apply str_eqb_eq in Ex. naive_solver.
    + apply bool_decide_eq_false in Ex. naive_solver.
  - naive_solver.
Qed.

(** An entry made for a key, with the key's own provenance, verifies. *)
Definition made_for (m : NodeCacheKeyMaterial) (key : NodeCacheKey) e : Prop :=
  bind m = Ok key ∧ ∃ payload outcome, e = NodeCacheEntry_new key payload outcome (from_key key).

Lemma made_verifies m key e leaf :
  made_for m key e → reads_back e → key_digest_leaf (digest key) = Some leaf →
  verify_entry (to_text e) (Some (digest key)) = Hit e.
Proof.
  intros [Hb (p & o & ->)] Hr Hl. apply verify_entry_Hit. cbn. split_and!; try done; [by exists leaf|].
  by eapply key_from_provenance_of.
Qed.

(** *** Putting *)

Lemma try_attempts_outcome stem process bytes l d d' r :
  try_attempts stem process bytes l d = (d', r) →
  cached d' = cached d ∧
  match r with
  | Ok tmp => tmp_files d !! tmp = None ∧ tmp_files d' = <[tmp := bytes]> (tmp_files d)
  | Err e => e = CacheIo ∧
      (Forall (λ a, residue a = None) l → tmp_files d' = tmp_files d)
  end.
Proof.
  revert d. induction l as [|a l IH]; intros d; cbn [try_attempts].
  - by intros [= <- <-].
  - destruct (tmp_files d !! tmp_name _ _ _) as [b|] eqn:Et; cbn [is_some].
    + intros E. apply IH in E as [Hc Hr]. split; [done|]. destruct r; [done|]. destruct Hr as [-> Hr].
      split; [done|]. intros [_ Hl]%Forall_cons. by apply Hr.
    + destruct (attempt_fault a); [by intros [= <- <-]|].
      destruct (write_ok a); [by intros [= <- <-]|].
      intros [= <- <-]. split; [by destruct (residue a)|]. split; [done|].
      intros [-> _]%Forall_cons. done.
Qed.

Lemma sync_entries_Ok a b u : sync_entries a b = Ok u → a = true ∧ b = true.
Proof. unfold sync_entries, verified_entries_dir, sync_dir. by destruct a, b. Qed.

(** Every other name keeps its bytes; this one has, after a success, the new
    bytes, and after a failure the old, the new, the raced ones or none. *)
Definition published (io : PutIo) (leaf bytes : string) d d' (r : result NodeCacheErrorKind unit) : Prop :=
  tmp_files d' = tmp_files d ∧ (∀ name, name ≠ leaf → cached d' !! name = cached d !! name) ∧
  match r with
  | Ok _ => cached d' !! leaf = Some bytes
  | Err _ => cached d' !! leaf = cached d !! leaf ∨ cached d' !! leaf = None ∨
             cached d' !! leaf = Some bytes ∨ (∃ x, raced io = Some x ∧ cached d' !! leaf = Some x)
  end.

Lemma publish_again_outcome io leaf bytes d d' r :
  publish_again io leaf bytes d = (d', r) →
  tmp_files d' = tmp_files d ∧ (∀ name, name ≠ leaf → cached d' !! name = cached d !! name) ∧
  match r with
  | Ok _ => cached d' !! leaf = Some bytes
  | Err _ => cached d' !! leaf = cached d !! leaf ∨ cached d' !! leaf = Some bytes ∨
             ∃ x, raced io = Some x ∧ cached d' !! leaf = Some x
  end.
Proof.
  intros E. unfold publish_again in E.
  destruct (raced io) as [x|] eqn:Er; cbv zeta in E.
  - assert (Hother : ∀ name, name ≠ leaf → cached (set_cached (<[leaf:=x]> (cached d)) d) !! name = cached d !! name).
    { intros name Hn. cbn. by apply lookup_insert_ne. }
    assert (Hleaf : cached (set_cached (<[leaf:=x]> (cached d)) d) !! leaf = Some x) by apply lookup_insert_eq.
    rewrite Hleaf in E.
    destruct (winner_ok io); cbn [negb] in E; [|injection E as <- <-; split_and!; [done..|]; eauto].
    destruct (str_eqb x bytes) eqn:Ex; injection E as <- <-; (split_and!; [done..|]); [|eauto].
    apply str_eqb_eq in Ex as <-. destruct (sync_entries _ _); eauto.
  - destruct (cached d !! leaf) as [existing|] eqn:El.
    + destruct (winner_ok io); cbn [negb] in E; [|injection E as <- <-; auto].
      destruct (str_eqb existing bytes) eqn:Ex; injection E as <- <-; (split_and!; [done..|]); [|auto].
      apply str_eqb_eq in Ex as <-. destruct (sync_entries _ _); auto.
    + destruct (relink_ok io); injection E as <- <-; [|auto]. cbn. split_and!; [done| |].
      * intros name Hn. by apply lookup_insert_ne.
      * rewrite lookup_insert_eq. destruct (sync_entries _ _); auto.
Qed.

Lemma cache_publish_outcome io leaf bytes d d' r :
  publish io leaf bytes d = (d', r) → published io leaf bytes d d' r.
Proof.
  intros E. unfold publish in E. unfold published.
  destruct (link_ok io); cbn [negb] in E; [|injection E as <- <-; auto].
  destruct (cached d !! leaf) as [existing|] eqn:El.
  - destruct (existing_ok io); cbn [negb] in E; [|injection E as <- <-; auto].
    destruct (str_eqb existing bytes) eqn:Ex.
    { injection E as <- <-. apply str_eqb_eq in Ex as <-. split_and!; [done..|].
      destruct (sync_entries _ _); auto. }
    destruct (remove_ok io); cbn [negb] in E; [|injection E as <- <-; auto].
    assert (Hd : ∀ name, name ≠ leaf → cached (set_cached (delete leaf (cached d)) d) !! name = cached d !! name).
    { intros name Hn. cbn. by apply lookup_delete_ne. }
    assert (Hl : cached (set_cached (delete leaf (cached d)) d) !! leaf = None) by apply lookup_delete_eq.
    destruct (sync_entries _ _) as [[]|e].
    + apply publish_again_outcome in E as (Ht & Ho & Hr). split; [done|]. split.
      * intros name Hn. by rewrite Ho, Hd.
      * destruct r; [done|]. rewrite Hl in Hr. destruct Hr as [?|[?|?]]; auto.
    + injection E as <- <-. split_and!; auto.
  - injection E as <- <-. cbn. split_and!; [done| |].
    + intros name Hn. by apply lookup_insert_ne.
    + rewrite lookup_insert_eq. destruct (sync_entries _ _); auto.
Qed.

Lemma put_entry_outcome io e d d' r :
  put_entry io e d = (d', r) →
  match key_digest_leaf (key_digest e) with
  | None => d' = d ∧ r = Err InvalidIdentity
  | Some leaf =>
      (∀ name, name ≠ leaf → cached d' !! name = cached d !! name) ∧
      match r with
      | Ok _ => cached d' !! leaf = Some (to_text e)
      | Err _ => cached d' !! leaf = cached d !! leaf ∨ cached d' !! leaf = None ∨
                 cached d' !! leaf = Some (to_text e) ∨
                 ∃ x, raced io = Some x ∧ cached d' !! leaf = Some x
      end ∧
      (unlink_ok io = true → (∀ n, residue (attempts io n) = None) → tmp_files d' = tmp_files d)
  end.
Proof.
  intros E. unfold put_entry, path_for, create_tmp in E.
  destruct (key_digest_leaf (key_digest e)) as [leaf|] eqn:El; [|by injection E as <- <-].
  unfold verified_entries_dir in E.
  destruct (path_ok io); cbn [ensure mbind result_bind] in E; [|injection E as <- <-; by auto].
  destruct (try_attempts _ _ _ _ d) as [d1 [tmp|x]] eqn:Et;
    apply try_attempts_outcome in Et as [Hc Ht].
  - destruct Ht as [Hfresh Ht]. destruct (publish io leaf (to_text e) d1) as [d2 p] eqn:Ep.
    apply cache_publish_outcome in Ep as (Htmp & Ho & Hp).
    assert (Hcd : cached d' = cached d2 ∧ r = p) by (destruct (unlink_ok io); by injection E as <- <-).
    destruct Hcd as [Hcd ->]. rewrite Hcd. split_and!.
    + intros name Hn. by rewrite Ho, Hc.
    + by rewrite <- Hc.
    + intros Hu _. rewrite Hu in E. injection E as <-. cbn. rewrite Htmp, Ht. by apply delete_insert_id.
  - destruct Ht as [-> Ht]. injection E as <- <-. rewrite Hc. split_and!; auto.
    intros _ Hr. apply Ht. apply Forall_forall. intros a Ha. apply list_elem_of_fmap in Ha as (n & -> & _). apply Hr.
Qed.

(** *** Listing *)

(** The entry in a file, if it verifies. *)
Definition hit_of d (name : string) : option NodeCacheEntry :=
  bytes ← cached d !! name; match verify_entry bytes None with Hit e => Some e | _ => None end.

Definition found_in d (names : list string) : list (NodeCacheEntry * string) :=
  omap (λ name, (λ e, (e, name)) <$> hit_of d name) names.

(** A listing that misses nothing and can read everything. *)
Definition lists (io : ListIo) d (names : list string) : Prop :=
  list_entries_ok io = true ∧ list_ok io = true ∧ listing io = map (λ n, Some (n, true)) names ∧
  NoDup names ∧ ∀ name, name ∈ names ↔ is_Some (cached d !! name).

Lemma elem_of_found d names e name :
  (e, name) ∈ found_in d names ↔ name ∈ names ∧ hit_of d name = Some e.
Proof.
  unfold found_in. rewrite list_elem_of_omap. split.
  - intros (n & Hn & E). destruct (hit_of d n) as [x|] eqn:Ex; [|done]. by injection E as -> ->.
  - intros [Hn Hh]. exists name. by rewrite Hh.
Qed.

Lemma found_names d names : NoDup names → NoDup (map snd (found_in d names)).
Proof.
  induction 1 as [|name names Hn Hnd IH]; cbn; [constructor|].
  destruct (hit_of d name) as [e|]; cbn; [|done]. constructor; [|done].
  intros ([x n] & -> & [Hin _]%elem_of_found)%list_elem_of_fmap. by apply Hn.
Qed.

Lemma found_entries d names :
  omap (hit_of d) (map snd (found_in d names)) = map fst (found_in d names).
Proof.
  induction names as [|name names IH]; [done|]. unfold found_in in *. cbn [omap list_omap].
  destruct (hit_of d name) as [e|] eqn:E; cbn [fmap option_fmap option_map]; [|done].
  cbn [map snd fst omap list_omap]. rewrite E. f_equal. exact IH.
Qed.

Definition path_of (f : NodeCacheEntry * string) : string * string := (key_digest (fst f), snd f).

Lemma inspect_full io d names :
  lists io d names →
  inspect io d = Ok (mk_NodeCacheInspect (length (found_in d names))
    (length (filter (λ f, is_negative (fst f)) (found_in d names)))
    (sort_by_key fst (map path_of (found_in d names)))).
Proof.
  intros (He & Hl & Hn & _). unfold inspect, verified_entries_dir. rewrite He, Hl, Hn. cbn [ensure mbind result_bind].
  assert (Hf : inspect_files d (map (λ n, Some (n, true)) names) = Ok (found_in d names)).
  { clear. induction names as [|n names IH]; [done|]. cbn [map inspect_files]. rewrite IH. cbn [mbind result_bind].
    unfold found_in, hit_of. cbn [omap list_omap]. destruct (cached d !! n) as [b|]; cbn; [|done].
    by destruct (verify_entry b None). }
  rewrite Hf. cbn [mbind result_bind].
  assert (Hm : map (λ '(e, name), (key_digest e, name)) (found_in d names) = map path_of (found_in d names)).
  { apply map_ext. by intros [e n]. }
  rewrite Hm. f_equal. f_equal. by rewrite sort_by_key_Permutation, length_map.
Qed.

Lemma gc_remove_outcome removable names d d' u :
  NoDup names → gc_remove removable names d = (d', Ok u) →
  tmp_files d' = tmp_files d ∧
  ∀ name, cached d' !! name = if decide (name ∈ names) then None else cached d !! name.
Proof.
  intros Hnd. revert d. induction Hnd as [|n names Hn Hnd IH]; intros d; cbn [gc_remove].
  - intros [= <-]. split; [done|]. intros name. by rewrite decide_False by apply not_elem_of_nil.
  - destruct (_ && _); [|done]. intros [Ht Hc]%IH. split; [done|]. intros name. rewrite Hc. cbn.
    destruct (decide (name = n)) as [->|Hne].
    + rewrite lookup_delete_eq, (decide_True (P := n ∈ n :: names)) by by left. by case_decide.
    + rewrite lookup_delete_ne by done.
      destruct (decide (name ∈ names)); [rewrite decide_True by by right|rewrite decide_False by set_solver]; done.
Qed.

(** *** Well-formed caches *)

(** Every entry is in the file its key names. *)
Definition cache_wf d : Prop := ∀ name e, hit_of d name = Some e → key_digest_leaf (key_digest e) = Some name.

Lemma hit_of_lookup d key leaf e :
  key_digest_leaf (digest key) = Some leaf →
  lookup_key true NoFault key d = Ok (Hit e) ↔ hit_of d leaf = Some e ∧ key_digest e = digest key.
Proof.
  intros Hl. unfold lookup_key, path_for, verified_entries_dir, hit_of. rewrite Hl. cbn [ensure mbind result_bind].
  destruct (cached d !! leaf) as [b|]; cbn [mbind option_bind]; [|naive_solver]. split.
  - intros [= E]. apply verify_entry_Hit in E as (Hf & Hv & Hp & Hk & Hd & He).
    assert (verify_entry b None = Hit e) as -> by by apply verify_entry_Hit. by split.
  - intros [E Hk]. destruct (verify_entry b None) as [x| |] eqn:Ev; [|done..]. injection E as ->. f_equal.
    apply verify_entry_Hit in Ev as (?&?&?&?&?&_). by apply verify_entry_Hit.
Qed.

Lemma hit_valid d name e : hit_of d name = Some e → reads_back e → verify_entry (to_text e) None = Hit e.
Proof.
  unfold hit_of. destruct (cached d !! name) as [b|]; cbn; [|done].
  destruct (verify_entry b None) as [x| |] eqn:Ev; [|done..]. intros [= ->] Hr.
  apply verify_entry_Hit in Ev as (_&?&?&?&?&_). by apply verify_entry_Hit.
Qed.

Context `{!Serde (list NodeCacheEntry)}.

Lemma export_files_found d paths entries :
  (∀ k name, (k, name) ∈ paths → is_Some (hit_of d name)) →
  export_files (λ _, true) d paths = Ok entries ↔ entries = omap (hit_of d) (map snd paths).
Proof.
  revert entries. induction paths as [|[k n] paths IH]; intros entries Hall; cbn [export_files map omap list_omap].
  { split; [by intros [= <-]|by intros ->]. }
  destruct (Hall k n) as [e He]; [by left|]. cbn [snd]. rewrite He. unfold hit_of in He.
  destruct (cached d !! n) as [b|]; cbn in He |- *; [|done].
  assert (Hrest : ∀ entries, export_files (λ _, true) d paths = Ok entries ↔ entries = omap (hit_of d) (map snd paths)).
  { intros es. apply IH. intros k' n' Hin. apply (Hall k'). by right. }
  pose proof (proj2 (Hrest _) eq_refl) as ->. cbn. destruct (verify_entry b None); [|done..].
  injection He as ->. split; [by intros [= <-]|by intros ->].
Qed.

Lemma import_entries_outcome io l d d' u :
  NoDup (map key_digest l) → (∀ e, e ∈ l → reads_back e) →
  import_entries io l d = (d', Ok u) →
  (∀ e, e ∈ l → ∃ leaf, key_digest_leaf (key_digest e) = Some leaf ∧ cached d' !! leaf = Some (to_text e)) ∧
  (∀ name, (∀ e, e ∈ l → key_digest_leaf (key_digest e) ≠ Some name) → cached d' !! name = cached d !! name).
Proof.
  revert d. induction l as [|x l IH]; intros d Hnd Hr; cbn [import_entries].
  - intros [= <-]. split; [set_solver|done].
  - cbn [map] in Hnd. apply NoDup_cons in Hnd as [Hx Hnd].
    destruct (verify_entry (to_text x) None) as [y| |] eqn:Ev; [|done..].
    destruct (put_entry _ x d) as [d1 [[]|e]] eqn:Ep; [|done]. intros E.
    apply put_entry_outcome in Ep. destruct (key_digest_leaf (key_digest x)) as [leaf|] eqn:El; [|by destruct Ep].
    destruct Ep as (Ho & Hl & _). apply IH in E as [Hin Hout]; [|done|intros e He; apply Hr; by right]. split.
    + intros e [->|He]%elem_of_cons; [|by apply Hin]. exists leaf. split; [done|]. rewrite Hout; [done|].
      intros e He Hle. apply Hx. rewrite (leaf_inj _ _ _ El Hle). by apply list_elem_of_fmap_2.
    + intros name Hn. rewrite Hout, Ho; [done| |].
      * intros ->. by apply (Hn x); [left|].
      * intros e He. apply Hn. by right.
Qed.

(** C22. A hit is for the key that was asked.  Whatever is in the directory, an
    entry is returned only if its payload has the recorded digest and its
    recorded provenance is bound to the very digest of the key; unless the hash
    collides on the two texts, every identity of that provenance - workflow,
    node, their versions, invocation, request, policy - is the one asked for, and
    so are the input hashes, when they are texts of one non-empty line. *)
Theorem node_cache_hit_binds m key entries_ok read d e :
  bind m = Ok key → lookup_key entries_ok read key d = Ok (Hit e) →
  key_digest e = digest key ∧ payload_sha256 e = payload_digest (payload e) ∧
  schema_version e = NODE_CACHE_SCHEMA_VERSION ∧
  sha256 (framed (provenance e)) = sha256 (framed m) ∧
  (no_collision (framed (provenance e)) (framed m) →
     identities (provenance e) = identities m ∧
     (Forall plain_hash (m_input_artifact_hashes (provenance e)) →
      Forall plain_hash (m_input_artifact_hashes m) →
      m_input_artifact_hashes (provenance e) ≡ₚ m_input_artifact_hashes m)).
Proof.
  intros Hb Hl. unfold lookup_key in Hl. apply bind_Ok in Hl as (leaf & _ & Hl).
  destruct read; [|done..]. destruct (cached d !! leaf) as [bytes|]; [|done]. injection Hl as Hl.
  apply verify_entry_Hit in Hl as (_ & Hv & Hp & _ & (key' & Hk & Hd) & Hkey). cbn in Hkey.
  apply bind_Ok_key in Hb as ->. apply bind_Ok_key in Hk as ->. cbn [digest] in *.
  rewrite <- Hkey in Hd. apply (proj1 (digest_bytes_eq _ _)) in Hd. split_and!; [done..|]. intros Hnc.
  apply Hnc, framed_identities in Hd. split; [done|]. by apply identities_hashes.
Qed.

(** A published entry is found.  [put] changes nothing but the file of the
    entry's key.  When it succeeds that file holds the entry - a lookup of the
    key returns it, if it was made for the key - and when it fails, at whatever
    call, the file holds what it held, nothing, the entry, or what another
    process published meanwhile, never a part of anything; the temporaries are
    those of before if they can be removed. *)
Theorem node_cache_put_outcome io e d d' r leaf :
  put_entry io e d = (d', r) → key_digest_leaf (key_digest e) = Some leaf →
  (∀ name, name ≠ leaf → cached d' !! name = cached d !! name) ∧
  match r with
  | Ok _ => cached d' !! leaf = Some (to_text e) ∧
      ∀ m key, made_for m key e → reads_back e → lookup_key true NoFault key d' = Ok (Hit e)
  | Err _ => cached d' !! leaf = cached d !! leaf ∨ cached d' !! leaf = None ∨
             cached d' !! leaf = Some (to_text e) ∨
             ∃ x, raced io = Some x ∧ cached d' !! leaf = Some x
  end ∧
  (unlink_ok io = true → (∀ n, residue (attempts io n) = None) → tmp_files d' = tmp_files d).
Proof.
  intros E Hl. apply put_entry_outcome in E. rewrite Hl in E. destruct E as (Ho & Hr & Ht).
  split; [done|]. split; [|done]. destruct r; [|done]. split; [done|].
  intros m key Hm Hb. assert (Hd : key_digest e = digest key) by by destruct Hm as [_ (? & ? & ->)].
  rewrite Hd in Hl. unfold lookup_key, path_for, verified_entries_dir. rewrite Hl.
  cbn [ensure mbind result_bind]. rewrite Hr. f_equal. by eapply made_verifies.
Qed.

Definition sorted_paths d names : list (string * string) :=
  sort_by_key fst (map path_of (found_in d names)).

Lemma sorted_paths_names d names : map snd (sorted_paths d names) ≡ₚ map snd (found_in d names).
Proof. unfold sorted_paths. by rewrite (Permutation_map snd (sort_by_key_Permutation fst _)), map_map. Qed.

Lemma lists_found io d names name :
  lists io d names → name ∈ map snd (sorted_paths d names) ↔ is_Some (hit_of d name).
Proof.
  intros Hl. rewrite sorted_paths_names, list_elem_of_fmap. split.
  - intros ([e x] & -> & [_ Hh]%elem_of_found). by eexists.
  - intros [e He]. exists (e, name). split; [done|]. apply elem_of_found. split; [|done].
    apply Hl. unfold hit_of in He. by destruct (cached d !! name).
Qed.

Lemma gc_outcome io removable dir_ok sync_ok retention d d' n names :
  lists io d names → gc io removable dir_ok sync_ok retention d = (d', Ok n) →
  n ≤ length (sorted_paths d names) ∧
  (∀ max, max_entries retention = Some max → n = length (sorted_paths d names) - max) ∧
  (max_entries retention = None → n = 0) ∧
  ∀ name, cached d' !! name =
    if decide (name ∈ map snd (take n (sorted_paths d names))) then None else cached d !! name.
Proof.
  intros Hlist E. set (found := sorted_paths d names).
  assert (Hlen : length found = length (found_in d names)).
  { unfold found, sorted_paths. by rewrite sort_by_key_Permutation, length_map. }
  assert (Hkeep : (∀ name, cached d !! name =
    if decide (name ∈ map snd (take 0 found)) then None else cached d !! name)).
  { intros name. by rewrite decide_False by apply not_elem_of_nil. }
  unfold gc in E. destruct (max_entries retention) as [max|].
  - rewrite (inspect_full io d names Hlist) in E. cbn [entry_count paths] in E.
    rewrite <- Hlen in E. fold (sorted_paths d names) found in E.
    destruct (Nat.leb_spec (length found) max).
    + injection E as <- <-. split_and!; [lia|intros ? [= <-]; lia|done|done].
    + destruct (gc_remove _ _ d) as [d1 [[]|x]] eqn:Eg; [|done].
      apply gc_remove_outcome in Eg as [_ Hc].
      2:{ rewrite <- firstn_map. apply (sublist_NoDup _ (map snd found)); [|apply sublist_take].
          unfold found. rewrite sorted_paths_names. apply found_names, Hlist. }
      destruct (sync_entries _ _); [|done]. injection E as <- <-.
      split_and!; [lia|by intros ? [= <-]|done|done].
  - injection E as <- <-. split_and!; [lia|done|done|done].
Qed.

(** What is listed after the first [n] were removed. *)
Lemma found_after d d' names names' n :
  (∃ io, lists io d names) → (∃ io, lists io d' names') →
  (∀ name, cached d' !! name =
    if decide (name ∈ map snd (take n (sorted_paths d names))) then None else cached d !! name) →
  map snd (found_in d' names') ≡ₚ map snd (drop n (sorted_paths d names)).
Proof.
  intros [io Hl] [io' Hl'] Hc. set (found := sorted_paths d names) in *.
  assert (Hnd : NoDup (map snd found)).
  { unfold found. rewrite sorted_paths_names. apply found_names, Hl. }
  apply NoDup_Permutation.
  - apply found_names, Hl'.
  - rewrite <- skipn_map. apply (sublist_NoDup _ (map snd found)); [done|apply sublist_drop].
  - intros name. rewrite <- sorted_paths_names, (lists_found io') by done.
    assert (Hdrop : name ∈ map snd (drop n found) ↔ name ∈ map snd found ∧ name ∉ map snd (take n found)).
    { rewrite <- (take_drop n found), map_app in Hnd at 1. apply NoDup_app in Hnd as (_ & Hdis & _).
      rewrite <- (take_drop n found) at 2. rewrite map_app, elem_of_app. naive_solver. }
    rewrite Hdrop. unfold found at 1. rewrite (lists_found io) by done. unfold hit_of. rewrite Hc.
    case_decide; [|naive_solver]. split; [by intros [? ?]|naive_solver].
Qed.

(** The entries collected are the first ones.  When [gc] succeeds under a
    complete listing it has removed exactly the files of the first entries in
    the order of their digests, as many as exceed the limit - so that afterwards
    at most [max_entries] remain - and kept every other file, those that do not
    verify included. *)
Theorem node_cache_gc_exact io removable dir_ok sync_ok retention d d' n names :
  lists io d names → gc io removable dir_ok sync_ok retention d = (d', Ok n) →
  let found := sorted_paths d names in
  (∀ max, max_entries retention = Some max → n = length found - max) ∧
  (max_entries retention = None → n = 0) ∧
  (∀ name, cached d' !! name =
     if decide (name ∈ map snd (take n found)) then None else cached d !! name) ∧
  ∀ io' names', lists io' d' names' →
    ∃ i, inspect io' d' = Ok i ∧ entry_count i = length found - n.
Proof.
  intros Hlist E found. destruct (gc_outcome _ _ _ _ _ _ _ _ _ Hlist E) as (Hn & Hmax & Hnone & Hc).
  split_and!; [done..|]. intros io' names' Hl'. eexists. split; [by apply inspect_full|]. cbn [entry_count].
  rewrite <- (length_map snd (found_in d' names')), <- (length_map snd found).
  rewrite (Permutation_length (found_after d d' names names' n (ex_intro (λ io, lists io d names) _ Hlist)
    (ex_intro (λ io, lists io d' names') _ Hl') Hc)).
  by rewrite <- skipn_map, length_drop.
Qed.

(** An exported cache is imported whole.  Importing what a well-formed cache
    exported under a complete listing makes every lookup that hit in the source
    hit with the same entry in the target, counts these entries, and leaves
    every other file of the target alone. *)
Theorem node_cache_export_import io names d text io' d0 d1 n :
  cache_wf d → lists io d names → (∀ name e, hit_of d name = Some e → reads_back e) →
  (∀ l : list NodeCacheEntry, from_text (to_text l) = Some l) →
  export io (λ _, true) d = Ok text → import io' text d0 = (d1, Ok n) →
  n = length (found_in d names) ∧
  (∀ m key e, bind m = Ok key → lookup_key true NoFault key d = Ok (Hit e) →
     lookup_key true NoFault key d1 = Ok (Hit e)) ∧
  (∀ name, hit_of d name = None → cached d1 !! name = cached d0 !! name).
Proof.
  intros Hwf Hlist Hback Hread Hexp Himp. unfold export in Hexp. rewrite (inspect_full io d names Hlist) in Hexp.
  apply bind_Ok in Hexp as (? & [= <-] & Hexp). cbn [paths] in Hexp.
  fold (sorted_paths d names) in Hexp. set (found := sorted_paths d names) in *.
  apply bind_Ok in Hexp as (entries & He & [= <-]).
  pose proof (sorted_paths_names d names : map snd found ≡ₚ _) as Hfound.
  apply export_files_found in He as ->.
  2:{ intros k name Hin. apply (lists_found io d names); [done|]. apply list_elem_of_fmap. by exists (k, name). }
  assert (Hp : omap (hit_of d) (map snd found) ≡ₚ map fst (found_in d names)).
  { rewrite Hfound. apply reflexive_eq, found_entries. }
  set (entries := omap (hit_of d) (map snd found)) in *.
  assert (Hin : ∀ e, e ∈ entries ↔ ∃ name, hit_of d name = Some e).
  { intros e. rewrite Hp, list_elem_of_fmap. split.
    - intros ([x name] & -> & [_ Hh]%elem_of_found). by exists name.
    - intros [name Hh]. exists (e, name). split; [done|]. apply elem_of_found. split; [|done].
      apply Hlist. unfold hit_of in Hh. by destruct (cached d !! name). }
  assert (Hnd : NoDup (map key_digest entries)).
  { rewrite Hp, map_map. assert (Hnn : NoDup (map snd (found_in d names))) by apply found_names, Hlist.
    apply (NoDup_fmap_1 key_digest_leaf). rewrite <- list_fmap_compose.
    replace (_ <$> found_in d names) with (Some <$> map snd (found_in d names)); [by apply NoDup_fmap_2; [apply _|]|].
    rewrite <- list_fmap_compose. apply list_fmap_ext. intros i [e name] Hi. cbn. symmetry. apply Hwf.
    by apply list_elem_of_lookup_2, elem_of_found in Hi as [_ ?]. }
  unfold import in Himp. rewrite Hread in Himp.
  destruct (import_entries io' entries d0) as [d2 [[]|x]] eqn:Ei; [|done]. injection Himp as <- <-.
  apply import_entries_outcome in Ei as [Hput Hrest]; [|done|intros e He; apply Hin in He as [name Hh]; by eapply Hback].
  split_and!.
  - rewrite Hp. by rewrite length_map.
  - intros m key e Hb Hl. destruct (key_digest_leaf (digest key)) as [leaf|] eqn:Eleaf;
      [|unfold lookup_key, path_for in Hl; by rewrite Eleaf in Hl].
    apply hit_of_lookup with (leaf := leaf) in Hl; [|done]. destruct Hl as [Hh Hk].
    apply hit_of_lookup with (leaf := leaf); [done|].
    assert (He : e ∈ entries) by (apply Hin; by exists leaf).
    destruct (Hput e He) as (leaf' & Hl' & Hc). rewrite Hk, Eleaf in Hl'. injection Hl' as <-.
    split; [|done]. unfold hit_of. rewrite Hc. cbn. by rewrite (hit_valid d leaf e Hh (Hback _ _ Hh)).
  - intros name Hno. apply Hrest. intros e He Hleaf. apply Hin in He as [name' Hh].
    pose proof (Hwf _ _ Hh) as Hl. rewrite Hl in Hleaf. injection Hleaf as ->. congruence.
Qed.
End properties.

(** Hashes of more than one line share a key with the lists of their lines. *)
Example node_cache_hash_lines m :
  framed (with_hashes ["a" +:+ newline +:+ "b"] m) = framed (with_hashes ["a"; "b"] m).
Proof. apply framed_identities. unfold identities. f_equal. Qed.

(** ** Example *)

Section example.
#[local] Existing Instance ex_json_Z.
#[local] Instance ex_number_eq : EqDecision (@json_number ex_json_Z) := Z.eq_dec.
#[local] Instance ex_number_codes : Countable (@json_number ex_json_Z) := Z_countable.
(** The last 32 bytes. *)
#[local] Instance ex_tail : Sha256 := λ s,
  let padded := "................................" +:+ s in
  String.substring (String.length padded - 32) 32 padded.

Definition reason_index (r : NodeCacheInvalidationReason) : nat :=
  match r with
  | HashMismatch => 0 | SchemaMismatch => 1 | InvalidOutput => 2 | ExplicitInvalidate => 3
  | CorruptEntry => 4
  end.
#[local] Instance ex_reason_countable : Countable NodeCacheInvalidationReason.
Proof.
  refine (inj_countable reason_index
    (λ n, [HashMismatch; SchemaMismatch; InvalidOutput; ExplicitInvalidate; CorruptEntry] !! n) _).
  by intros [].
Defined.
#[local] Instance ex_outcome_countable : Countable NodeCacheOutcome.
Proof.
  refine (inj_countable' (λ o, match o with Success => None | Negative r => Some r end)
    (λ o, match o with None => Success | Some r => Negative r end) _). by intros [].
Defined.
#[local] Instance ex_material_countable : Countable NodeCacheKeyMaterial.
Proof.
  refine (inj_countable' (λ m, ((m_workflow_id m, m_workflow_version m, m_node_id m, m_node_version m),
      (m_invocation_identity m, m_input_artifact_hashes m, m_request_input_digest m, m_policy_digest m)))
    (λ '((a, b, c, d), (e, f, g, h)), mk_KeyMaterial a b c d e f g h) _). by intros [].
Defined.
#[local] Instance ex_entry_eq_dec : EqDecision NodeCacheEntry.
Proof.
  assert (EqDecision Value) by apply Value_eq_dec.
  assert (EqDecision CacheProvenance) by apply NodeCacheKeyMaterial_eq_dec. solve_decision.
Defined.
#[local] Instance ex_entry_countable : Countable NodeCacheEntry.
Proof.
  assert (EqDecision Value) by apply Value_eq_dec.
  refine (inj_countable' (λ e, (schema_version e, key_digest e, payload e, payload_sha256 e, outcome e,
      (provenance e : NodeCacheKeyMaterial)))
    (λ '(a, b, c, d, e, f), mk_NodeCacheEntry a b c d e f) _). by intros [].
Defined.
#[local] Instance ex_entry_serde : Serde NodeCacheEntry := countable_serde _.

(** A list as the numerals of its entries, each followed by a comma. *)
Fixpoint split_commas (s : string) : list string :=
  match s with
  | EmptyString => []
  | String c rest =>
      if Ascii.eqb c "," then "" :: split_commas rest
      else match split_commas rest with t :: l => String c t :: l | [] => [String c ""] end
  end.
#[local] Instance ex_entries_serde : Serde (list NodeCacheEntry) := {
  to_text l := String.concat "" (map (λ e, to_text e +:+ ",") l);
  from_text s := mapM from_text (split_commas s) }.

Lemma split_commas_text p r : split_commas (binary_text p +:+ String "," r) = binary_text p :: split_commas r.
Proof. induction p as [p IH|p IH|]; cbn; [by rewrite IH..|done]. Qed.

Lemma ex_entries_read (l : list NodeCacheEntry) : from_text (to_text l) = Some l.
Proof.
  cbn [from_text to_text ex_entries_serde].
  assert (Hc : ∀ e l, String.concat "" (map (λ e : NodeCacheEntry, to_text e +:+ ",") (e :: l)) =
    to_text e +:+ String "," (String.concat "" (map (λ e, to_text e +:+ ",") l))).
  { intros e [|x k]; cbn [map String.concat]; by rewrite ?str_app_assoc, ?str_app_nil_r. }
  induction l as [|e l IH]; [done|]. rewrite Hc. change (to_text e) with (binary_text (encode e)).
  rewrite split_commas_text. cbn [mapM]. change (binary_text (encode e)) with (to_text e).
  pose proof (from_to (SerdeLaws := countable_serde_laws NodeCacheEntry) e) as He.
  change (from_text (to_text e) = Some e) in He. rewrite He. cbn [mbind option_bind].
  rewrite IH. done.
Qed.

Lemma ex_reads_back (e : NodeCacheEntry) : reads_back e.
Proof. exact (from_to (SerdeLaws := countable_serde_laws NodeCacheEntry) e). Qed.

Definition ex_material (node policy : string) : NodeCacheKeyMaterial :=
  mk_KeyMaterial "w" "1" node "1" "call" ["h2"; "h1"] "request" policy.
Definition ex_key (policy : string) : NodeCacheKey :=
  match bind (ex_material "n" policy) with Ok key => key | Err _ => mk_NodeCacheKey "" (ex_material "" "") end.
Definition ex_entry (policy : string) : NodeCacheEntry :=
  NodeCacheEntry_success (ex_key policy) Null (from_key (ex_key policy)).
Definition ex_put_io : PutIo :=
  mk_PutIo true "77" (λ n, mk_Attempt (pretty n) false true None) true true true true true true true
    None true true true.
Definition ex_empty : CacheDir := mk_CacheDir ∅ ∅.
Definition ex_one : CacheDir := fst (put_entry ex_put_io (ex_entry "p") ex_empty).
Definition ex_two : CacheDir := fst (put_entry ex_put_io (ex_entry "q") ex_one).
Definition ex_leaf (policy : string) : string := default "" (key_digest_leaf (digest (ex_key policy))).

Lemma ex_put_one : put_entry ex_put_io (ex_entry "p") ex_empty = (ex_one, Ok tt).
Proof. vm_compute. reflexivity. Qed.
Lemma ex_put_two : put_entry ex_put_io (ex_entry "q") ex_one = (ex_two, Ok tt).
Proof. vm_compute. reflexivity. Qed.
Lemma ex_bind policy : bind (ex_material "n" policy) = Ok (ex_key policy) ∨ policy = "".
Proof. destruct policy; [by right|by left]. Qed.
Lemma ex_leaf_p : key_digest_leaf (key_digest (ex_entry "p")) = Some (ex_leaf "p").
Proof. vm_compute. reflexivity. Qed.

Lemma node_cache_put_outcome_witness : lookup_key true NoFault (ex_key "p") ex_one = Ok (Hit (ex_entry "p")).
Proof.
  destruct (node_cache_put_outcome ex_put_io (ex_entry "p") ex_empty ex_one (Ok tt) (ex_leaf "p")
    ex_put_one ex_leaf_p) as (_ & [_ Hl] & _).
  apply (Hl (ex_material "n" "p")); [|exact (ex_reads_back _)]. split; [reflexivity|].
  exact (ex_intro _ Null (ex_intro _ Success eq_refl)).
Defined.

Lemma ex_hit : lookup_key true NoFault (ex_key "p") ex_two = Ok (Hit (ex_entry "p")).
Proof.
  apply (hit_of_lookup ex_two (ex_key "p") (ex_leaf "p")); [exact ex_leaf_p|].
  split; [|reflexivity]. unfold hit_of.
  assert (cached ex_two !! ex_leaf "p" = Some (to_text (ex_entry "p"))) as -> by (vm_compute; reflexivity).
  cbn [mbind option_bind]. assert (verify_entry (to_text (ex_entry "p")) None = Hit (ex_entry "p")) as ->.
  { apply verify_entry_Hit. split; [apply ex_reads_back|]. split_and!; try (vm_compute; reflexivity).
    - exists (ex_leaf "p"). exact ex_leaf_p.
    - exists (ex_key "p"). split; [vm_compute|]; reflexivity. }
  reflexivity.
Qed.

Lemma node_cache_hit_binds_witness : identities (provenance (ex_entry "p")) = identities (ex_material "n" "p").
Proof.
  destruct (node_cache_hit_binds (ex_material "n" "p") (ex_key "p") true NoFault ex_two (ex_entry "p")
    eq_refl ex_hit) as (_ & _ & _ & _ & Hb).
  assert (Hnc : no_collision (framed (provenance (ex_entry "p"))) (framed (ex_material "n" "p"))).
  { intros _. vm_compute. reflexivity. }
  exact (proj1 (Hb Hnc)).
Defined.

Definition ex_names : list string := [ex_leaf "q"; ex_leaf "p"].
Definition ex_list_io : ListIo := mk_ListIo true true (map (λ n, Some (n, true)) ex_names).
Definition ex_export : string :=
  match export ex_list_io (λ _, true) ex_two with Ok text => text | Err _ => "" end.
Definition ex_imported : CacheDir := fst (import (λ _, ex_put_io) ex_export ex_empty).

Lemma ex_dom : dom (cached ex_two) = list_to_set ex_names.
Proof. apply (bool_decide_unpack _). vm_compute. exact I. Qed.

Lemma ex_lists : lists ex_list_io ex_two ex_names.
Proof.
  split; [reflexivity|]. split; [reflexivity|]. split; [reflexivity|]. split.
  - apply (bool_decide_unpack _). vm_compute. exact I.
  - intros name. rewrite <- elem_of_dom, ex_dom. by rewrite elem_of_list_to_set.
Qed.

Lemma ex_wf : cache_wf ex_two.
Proof.
  intros name e He.
  assert (Hin : name ∈ ex_names).
  { apply ex_lists. unfold hit_of in He. by destruct (cached ex_two !! name). }
  assert (Hall : Forall (λ name, match hit_of ex_two name with
    | Some e => bool_decide (key_digest_leaf (key_digest e) = Some name) | None => true end = true) ex_names).
  { repeat constructor; vm_compute; reflexivity. }
  rewrite Forall_forall in Hall. specialize (Hall name Hin). rewrite He in Hall.
  by apply bool_decide_eq_true in Hall.
Qed.

Lemma ex_export_of : export ex_list_io (λ _, true) ex_two = Ok ex_export.
Proof. apply (bool_decide_unpack _). vm_compute. exact I. Qed.
Lemma ex_import_of : import (λ _, ex_put_io) ex_export ex_empty = (ex_imported, Ok 2).
Proof. apply (bool_decide_unpack _). vm_compute. exact I. Qed.

Lemma node_cache_export_import_witness :
  lookup_key true NoFault (ex_key "p") ex_imported = Ok (Hit (ex_entry "p")).
Proof.
  destruct (node_cache_export_import ex_list_io ex_names ex_two ex_export (λ _, ex_put_io) ex_empty
    ex_imported 2 ex_wf ex_lists (λ _ e _, ex_reads_back e)
    ex_entries_read ex_export_of ex_import_of)
    as (_ & Hl & _).
  exact (Hl (ex_material "n" "p") (ex_key "p") (ex_entry "p") eq_refl ex_hit).
Defined.

Definition ex_collected : CacheDir :=
  fst (gc ex_list_io (λ _, true) true true (mk_NodeCacheRetention (Some 1)) ex_two).
Lemma ex_gc_of :
  gc ex_list_io (λ _, true) true true (mk_NodeCacheRetention (Some 1)) ex_two = (ex_collected, Ok 1).
Proof. apply (bool_decide_unpack _). vm_compute. exact I. Qed.

Lemma node_cache_gc_exact_witness :
  cached ex_collected !! ex_leaf "p" = None ∧ is_some (cached ex_collected !! ex_leaf "q") = true.
Proof.
  destruct (node_cache_gc_exact ex_list_io (λ _, true) true true (mk_NodeCacheRetention (Some 1)) ex_two
    ex_collected 1 ex_names ex_lists ex_gc_of) as (_ & _ & Hc & _).
  rewrite (Hc (ex_leaf "p")), (Hc (ex_leaf "q")). split; vm_compute; reflexivity.
Defined.
End example.
