(* ===== verification/EffectJournal.v ===== *)
(** * The effect journal

    [workflow-runtime/src/effect_journal.rs]: idempotency records of the side
    effects of a run, in a SQLite database with one row per effect.  SQLite is
    modelled by the rows and by the outcome of every call, in an environment
    record; a transaction is applied as a whole or not at all, and an error at
    its commit leaves open which. *)

From S2P Require Import Prelude Hashing Json JsonRead Approval.

(*| runtime/effect_journal.rs 70-75 EffectJournalErrorKind *)
Inductive EffectJournalErrorKind := JournalUnavailable | JournalCorrupt.
#[export] Instance EffectJournalErrorKind_eq_dec : EqDecision EffectJournalErrorKind.
Proof. solve_decision. Defined.

Definition NUL : string := String "000" "".

(** The row of [kit_effect_journal_meta], and [kit_effects]. *)
Record Journal := mk_Journal { journal_version : option Z; effects : gmap string string }.
#[export] Instance Journal_eq_dec : EqDecision Journal.
Proof. solve_decision. Defined.

(** The outcome of one SQLite call: [None] when it succeeds, or whether it was
    refused because the database is busy or locked. *)
Definition fault : Type := option bool.
Inductive tx := Durable | Lost (applied : bool) (busy : bool).

Record OpenIo := mk_OpenIo {
  parent_secure : bool; path_secure : bool; connects : bool;
  pragma_fault : fault; begin_fault : fault; schema_fault : fault; query_fault : fault;
  open_tx : tx }.

(*| runtime/effect_journal.rs 253-261 initialization_error *)
Definition initialization_error (busy : bool) : EffectJournalErrorKind :=
  if busy then JournalUnavailable else JournalCorrupt.
Definition initialized (f : fault) : result EffectJournalErrorKind unit :=
  match f with None => Ok tt | Some busy => Err (initialization_error busy) end.

(** [parent_secure]: the parent is a directory and no link; [path_secure]: the
    path is absent or a regular file. *)
(*| runtime/effect_journal.rs 263-278 secure_path *)
Definition secure_path (io : OpenIo) : result EffectJournalErrorKind unit :=
  ensure (parent_secure io) JournalUnavailable;;
  ensure (path_secure io) JournalUnavailable.

(** [s] is the database, if the file exists. *)
(*| runtime/effect_journal.rs 122-164 EffectJournal::open *)
Definition open (io : OpenIo) : method (option Journal) EffectJournalErrorKind unit := λ s,
  match (secure_path io;; ensure (connects io) JournalUnavailable;;
         initialized (pragma_fault io);; initialized (begin_fault io);;
         initialized (schema_fault io);; initialized (query_fault io)) with
  | Err e => (s, Err e)
  | Ok _ =>
      let j := default (mk_Journal None ∅) s in
      let version := default 1%Z (journal_version j) in
      if negb (version =? 1)%Z then (s, Err JournalCorrupt)
      else
        let opened := Some (mk_Journal (Some version) (effects j)) in
        match open_tx io with
        | Durable => (opened, Ok tt)
        | Lost applied busy => (if applied then opened else s, Err (initialization_error busy))
        end
  end.

Section journal.
Context `{JsonText, !JsonRead, Sha256}.

(*| runtime/effect_journal.rs 34-51 EffectKey::from_argument_fingerprint *)
Definition EffectKey_from_argument_fingerprint (run_id node_id operation fingerprint : string) : string :=
  "sha256:" +:+ encode_hex (sha256
    (run_id +:+ NUL +:+ node_id +:+ NUL +:+ operation +:+ NUL +:+ fingerprint +:+ NUL)).

(*| runtime/effect_journal.rs 19-31 EffectKey::new *)
Definition EffectKey_new (run_id node_id operation : string) (arguments : Value) : string :=
  EffectKey_from_argument_fingerprint run_id node_id operation (argument_fingerprint arguments).

(*| runtime/effect_journal.rs 61-66 EffectCommit *)
Inductive EffectCommit := EffectCommitted | AlreadyCommitted (stored : Value).

(** The outcomes of one [commit]. *)
Record CommitIo := mk_CommitIo { begins : bool; inserts : bool; reads : bool; commit_tx : tx }.

(*| runtime/effect_journal.rs 172-211 EffectJournal::commit *)
Definition commit (io : CommitIo) (key : string) (v : Value) :
    method Journal EffectJournalErrorKind EffectCommit := λ j,
  if negb (begins io) || negb (inserts io) then (j, Err JournalUnavailable)
  else match effects j !! key with
  | None =>
      let inserted := mk_Journal (journal_version j) (<[key := compact v]> (effects j)) in
      match commit_tx io with
      | Durable => (inserted, Ok EffectCommitted)
      | Lost applied _ => (if applied then inserted else j, Err JournalUnavailable)
      end
  | Some stored =>
      (j, if negb (reads io) then Err JournalCorrupt
          else match commit_tx io with
          | Lost _ _ => Err JournalUnavailable
          | Durable =>
              match json_parse stored with
              | Some v => Ok (AlreadyCommitted v)
              | None => Err JournalCorrupt
              end
          end)
  end.

(*| runtime/effect_journal.rs 214-233 EffectJournal::load *)
Definition load (readable : bool) (key : string) (j : Journal) :
    result EffectJournalErrorKind (option Value) :=
  if negb readable then Err JournalCorrupt
  else match effects j !! key with
  | None => Ok None
  | Some stored =>
      match json_parse stored with Some v => Ok (Some v) | None => Err JournalCorrupt end
  end.

(** SQLite counts at most [i64::MAX] rows. *)
(*| runtime/effect_journal.rs 236-250 EffectJournal::committed_count *)
Definition committed_count (readable : bool) (j : Journal) : result EffectJournalErrorKind Z :=
  if negb readable then Err JournalCorrupt else Ok (Z.of_nat (size (effects j))).

(** ** Runs

    The attempts of any number of processes on one journal, in the order in
    which SQLite serialises them. *)

Record attempt := mk_attempt { at_io : CommitIo; at_key : string; at_value : Value }.

Fixpoint run_attempts (l : list attempt) (j : Journal) :
    Journal * list (result EffectJournalErrorKind EffectCommit) :=
  match l with
  | [] => (j, [])
  | a :: l =>
      let '(j, r) := commit (at_io a) (at_key a) (at_value a) j in
      let '(j, rs) := run_attempts l j in (j, r :: rs)
  end.

(** What one [commit] does. *)
Lemma journal_commit_spec io key v j j' r :
  commit io key v j = (j', r) →
  (j' = j ∨ effects j !! key = None ∧
            j' = mk_Journal (journal_version j) (<[key := compact v]> (effects j))) ∧
  match r with
  | Ok EffectCommitted => effects j !! key = None ∧ effects j' !! key = Some (compact v)
  | Ok (AlreadyCommitted w) => j' = j ∧ ∃ stored, effects j !! key = Some stored ∧ json_parse stored = Some w
  | Err _ => True
  end.
Proof.
  unfold commit. destruct (_ || _); [intros [= <- <-]; auto|].
  destruct (effects j !! key) as [stored|] eqn:E.
  - intros [= <- <-]. split; [by left|]. destruct (reads io); [|done]. cbn [negb].
    destruct (commit_tx io); [|done]. destruct (json_parse stored) eqn:Ep; [|done]. eauto.
  - destruct (commit_tx io) as [|applied b].
    + intros [= <- <-]. split; [by right|]. split; [done|]. cbn. apply lookup_insert_eq.
    + intros [= <- <-]. split; [|done]. destruct applied; auto.
Qed.

Lemma commit_keeps io key v j j' r k b :
  commit io key v j = (j', r) → effects j !! k = Some b → effects j' !! k = Some b.
Proof.
  intros [[->|[Hn ->]] _]%journal_commit_spec; [done|]. intros Hk. cbn.
  rewrite lookup_insert_ne; [done|]. intros ->. congruence.
Qed.

Lemma run_keeps l j j' rs k b :
  run_attempts l j = (j', rs) → effects j !! k = Some b → effects j' !! k = Some b.
Proof.
  revert j rs. induction l as [|a l IH]; intros j rs; cbn; [by intros [= <- <-]|].
  destruct (commit _ _ _ j) as [j1 r] eqn:Ec. destruct (run_attempts l j1) as [j2 rs'] eqn:Er.
  intros [= <- <-] Hb. eapply IH; [done|]. by eapply commit_keeps.
Qed.

(** The outcome of attempt [i] of a run: the journal it found and left. *)
Lemma run_nth l j j' rs i a r :
  run_attempts l j = (j', rs) → l !! i = Some a → rs !! i = Some r →
  ∃ j1 j2 rs1 rs2, run_attempts (take i l) j = (j1, rs1) ∧
    commit (at_io a) (at_key a) (at_value a) j1 = (j2, r) ∧ run_attempts (drop (S i) l) j2 = (j', rs2) ∧
    rs1 = take i rs ∧ rs2 = drop (S i) rs.
Proof.
  revert j rs i. induction l as [|x l IH]; intros j rs i; [done|]. cbn [run_attempts].
  destruct (commit _ _ _ j) as [j1 r1] eqn:Ec. destruct (run_attempts l j1) as [j2 rs1] eqn:Er.
  intros [= <- <-]. destruct i as [|i]; cbn.
  - intros [= ->] [= ->]. by exists j, j1, [], rs1.
  - intros Ha Hr. destruct (IH j1 rs1 i Er Ha Hr) as (j3 & j4 & r3 & r4 & H3 & H4 & H5 & -> & ->).
    exists j3, j4, (r1 :: take i rs1), (drop (S i) rs1). rewrite Ec, H3. done.
Qed.

Lemma commit_stored io key v j j' c :
  commit io key v j = (j', Ok c) → ∃ b, effects j' !! key = Some b.
Proof.
  intros [_ Hr]%journal_commit_spec. destruct c as [|w]; [by eexists; apply Hr|].
  destruct Hr as (-> & b & Hb & _). by exists b.
Qed.

Context `{!IntJson, !JsonReadLaws}.

(** A side effect is recorded once.  In any sequence of attempts, by any
    processes and with any failures of the database, a recorded result never
    changes; for each key at most one attempt is told that it committed, no
    attempt on the key before it was told anything but an error, and its result
    is the one recorded; and every attempt that is told the effect was committed
    already is given the recorded result, which after a commit is the value
    committed. *)
Theorem effect_journal_once l j j' rs i a :
  run_attempts l j = (j', rs) → l !! i = Some a →
  (∀ k b, effects j !! k = Some b → effects j' !! k = Some b) ∧
  (rs !! i = Some (Ok EffectCommitted) →
     effects j !! at_key a = None ∧ effects j' !! at_key a = Some (compact (at_value a)) ∧
     ∀ i' a' c, i' ≠ i → l !! i' = Some a' → at_key a' = at_key a → rs !! i' = Some (Ok c) →
       i < i' ∧ ∃ w, c = AlreadyCommitted w ∧ (sorted_json (at_value a) → w = at_value a)) ∧
  (∀ w, rs !! i = Some (Ok (AlreadyCommitted w)) →
     ∃ stored, effects j' !! at_key a = Some stored ∧ json_parse stored = Some w).
Proof.
  intros Hrun Ha. split_and!.
  - intros k b. by apply run_keeps with (1 := Hrun).
  - intros Hr. destruct (run_nth _ _ _ _ _ _ _ Hrun Ha Hr) as (j1 & j2 & r1 & r2 & R1 & R2 & R3 & -> & ->).
    apply journal_commit_spec in R2 as Hs. destruct Hs as [_ [Hnone Hsome]].
    assert (Hj : effects j !! at_key a = None).
    { destruct (effects j !! at_key a) as [b|] eqn:E; [|done].
      apply (run_keeps _ _ _ _ _ _ R1) in E. congruence. }
    assert (Hj' := run_keeps _ _ _ _ _ _ R3 Hsome).
    split_and!; [done..|]. intros i' a' c Hi Ha' Hk Hr'.
    destruct (run_nth _ _ _ _ _ _ _ Hrun Ha' Hr') as (k1 & k2 & q1 & q2 & G1 & G2 & G3 & -> & ->).
    destruct (decide (i < i')) as [Hlt|Hge].
    + split; [done|].
      assert (Hk1 : effects k1 !! at_key a = Some (compact (at_value a))).
      { assert (Ha1 : take i' l !! i = Some a) by by rewrite lookup_take_lt.
        assert (Hr1 : take i' rs !! i = Some (Ok EffectCommitted)) by by rewrite lookup_take_lt.
        destruct (run_nth _ _ _ _ _ _ _ G1 Ha1 Hr1) as (m1 & m2 & p1 & p2 & _ & M2 & M3 & _).
        apply journal_commit_spec in M2 as [_ [_ Hm]]. by apply (run_keeps _ _ _ _ _ _ M3). }
      apply journal_commit_spec in G2 as [_ Hc]. rewrite Hk in Hc. destruct c as [|w].
      * destruct Hc as [Hc _]. congruence.
      * exists w. split; [done|]. intros Hs. destruct Hc as (_ & stored & Hst & Hp).
        rewrite Hk1 in Hst. injection Hst as <-. rewrite parse_compact in Hp by done. by injection Hp.
    + assert (Hlt : i' < i) by lia. exfalso.
      assert (Ha1 : take i l !! i' = Some a') by by rewrite lookup_take_lt.
      assert (Hr1 : take i rs !! i' = Some (Ok c)) by by rewrite lookup_take_lt.
      destruct (run_nth _ _ _ _ _ _ _ R1 Ha1 Hr1) as (m1 & m2 & p1 & p2 & _ & M2 & M3 & _).
      apply commit_stored in M2 as [b Hb]. apply (run_keeps _ _ _ _ _ _ M3) in Hb. rewrite Hk in Hb. congruence.
  - intros w Hr. destruct (run_nth _ _ _ _ _ _ _ Hrun Ha Hr) as (j1 & j2 & r1 & r2 & R1 & R2 & R3 & -> & ->).
    apply journal_commit_spec in R2 as [_ (-> & stored & Hst & Hp)]. exists stored. split; [|done].
    by apply (run_keeps _ _ _ _ _ _ R3).
Qed.

(** Opening a journal keeps its effects, whatever fails. *)
Lemma open_keeps io s s' r :
  open io s = (s', r) →
  (s' = s ∨ ∃ j, s' = Some j ∧ effects j = effects (default (mk_Journal None ∅) s) ∧ journal_version j = Some 1%Z) ∧
  (r = Ok tt → ∃ j, s' = Some j ∧ journal_version j = Some 1%Z).
Proof.
  unfold open. destruct (mbind _ _); [|intros [= <- <-]; split; [by left|done]].
  destruct (Z.eqb_spec (default 1%Z (journal_version (default (mk_Journal None ∅) s))) 1) as [Hv|Hv];
    cbn [negb]; [|intros [= <- <-]; split; [by left|done]]. rewrite Hv.
  destruct (open_tx io) as [|applied busy]; intros [= <- <-].
  - split; [right|intros _]; by eexists.
  - split; [|done]. destruct applied; [right; by eexists|by left].
Qed.
End journal.

(** *** Keys *)

Section keys.
Context `{JsonText, !JsonTextLaws, Sha256, !Inj (=) (=) sha256}.

Definition no_nul (s : string) : Prop := str_all (λ c, negb (Ascii.eqb c "000")) s = true.

Lemma nul_ends a b r s : no_nul a → no_nul b → a +:+ NUL +:+ r = b +:+ NUL +:+ s → a = b ∧ r = s.
Proof.
  intros Ha Hb E. apply (span_unique (λ c, negb (Ascii.eqb c "000"))) in E as [-> E]; [|done|done|..].
  - split; [done|]. by injection E.
  - by intros c t [= <- _].
  - by intros c t [= <- _].
Qed.

Lemma fingerprint_no_nul v : no_nul (argument_fingerprint v).
Proof.
  unfold no_nul, argument_fingerprint. rewrite hex_encode_hex.
  pose proof (encode_hex_lower (sha256 (write_canonical_json v))) as Hl. unfold str_all in *. apply forallb_true_iff. intros c Hc.
  apply (proj1 (forallb_true_iff _ _)) with (x := c) in Hl; [|done].
  destruct (Ascii.eqb_spec c "000"); [by subst|done].
Qed.

(** The key of an effect names its run, node, operation and arguments: with a
    hash without collisions, and identifiers without NUL bytes, two effects have
    the same key only if they agree in all four. *)
Theorem effect_key_binds r n o v r' n' o' v' :
  no_nul r → no_nul n → no_nul o → no_nul r' → no_nul n' → no_nul o' → unique_keys v → unique_keys v' →
  EffectKey_new r n o v = EffectKey_new r' n' o' v' →
  r = r' ∧ n = n' ∧ o = o' ∧ normalize v = normalize v'.
Proof.
  intros Hr Hn Ho Hr' Hn' Ho' Hv Hv' E. unfold EffectKey_new, EffectKey_from_argument_fingerprint in E.
  cbn [String.append] in E. injection E as E. apply (inj encode_hex), (inj sha256) in E.
  apply nul_ends in E as [-> E]; [|done..]. apply nul_ends in E as [-> E]; [|done..].
  apply nul_ends in E as [-> E]; [|done..].
  assert (Ef : argument_fingerprint v +:+ NUL +:+ "" = argument_fingerprint v' +:+ NUL +:+ "").
  { by rewrite str_app_nil_r. }
  apply nul_ends in Ef as [Ef _]; [|apply fingerprint_no_nul..].
  split_and!; [done..|]. by apply argument_fingerprint_inj.
Qed.
End keys.

(** Without the condition on NUL bytes different effects share a key. *)
Example effect_key_collision `{JsonText, Sha256} fingerprint :
  EffectKey_from_argument_fingerprint ("r" +:+ NUL +:+ "n") "o" "p" fingerprint =
  EffectKey_from_argument_fingerprint "r" ("n" +:+ NUL +:+ "o") "p" fingerprint.
Proof. reflexivity. Qed.

(** ** Example *)

Section example.
#[local] Existing Instance ex_json_Z.
#[local] Existing Instance ex_json_Z_laws.
#[local] Existing Instance ex_integers.
#[local] Existing Instance ex_read.
#[local] Existing Instance ex_read_laws.
#[local] Instance ex_identity : Sha256 := λ s, s.
#[local] Instance ex_identity_inj : Inj (=) (=) (@sha256 ex_identity).
Proof. by intros x y. Qed.

Definition ex_io (t : tx) : CommitIo := mk_CommitIo true true true t.
Definition ex_attempts : list attempt :=
  [mk_attempt (ex_io (Lost false true)) "k" (Bool false);
   mk_attempt (ex_io Durable) "k" (Bool true);
   mk_attempt (ex_io Durable) "k" (Bool false)].
Definition ex_journal : Journal := mk_Journal (Some 1%Z) ∅.

Lemma effect_journal_once_witness :
  effects (fst (run_attempts ex_attempts ex_journal)) !! "k" = Some "true" ∧
  snd (run_attempts ex_attempts ex_journal) !! 2 = Some (Ok (AlreadyCommitted (Bool true))).
Proof.
  destruct (effect_journal_once ex_attempts ex_journal (fst (run_attempts ex_attempts ex_journal))
    (snd (run_attempts ex_attempts ex_journal)) 1 (mk_attempt (ex_io Durable) "k" (Bool true))
    (surjective_pairing _) eq_refl) as (_ & Hone & _).
  destruct (Hone eq_refl) as (_ & Hs & _). exact (conj Hs eq_refl).
Defined.

Lemma effect_key_binds_witness : EffectKey_new "r" "n" "o" Null ≠ EffectKey_new "r" "n" "p" Null.
Proof.
  intros E. destruct (effect_key_binds "r" "n" "o" Null "r" "n" "p" Null eq_refl eq_refl eq_refl eq_refl
    eq_refl eq_refl I I E) as (_ & _ & Ho & _). discriminate Ho.
Defined.
End example.
