(* ===== verification/TypedProtocol.v ===== *)
(** * The typed-output protocol

    [workflow-runtime/src/typed_protocol.rs]: compact envelopes that nodes and
    workflows exchange instead of prose - closed payloads made of reason codes
    and references into retained artifacts - with their strict reader, the
    admission of complete and small envelopes, the deterministic Markdown view,
    and the exchange of an envelope between two workflows through an artifact
    store.  [FirewallStamp]'s derived reader is the class [StampJson]. *)

From stdpp Require Import pretty.
From S2P Require Import Prelude Hashing Json Text JsonRead Session Firewall Artifact.

(*| runtime/typed_protocol.rs 15-15 TYPED_OUTPUT_SCHEMA_VERSION_V1 *)
Definition TYPED_OUTPUT_SCHEMA_VERSION_V1 : Z := 1.
Definition SHA256_PREFIX : string := "sha256:".

(*| runtime/typed_protocol.rs 29-42 TypedOutputError *)
Inductive TypedOutputError :=
| UnknownSchemaVersion | UnknownReasonCode | TruncatedOutput | RationaleNotEnabled | InvalidJson
| OverBudget.
#[export] Instance TypedOutputError_eq_dec : EqDecision TypedOutputError.
Proof. solve_decision. Defined.

(** ** Codes *)

(*| runtime/typed_protocol.rs 61-68 TypedNodeKind *)
Inductive TypedNodeKind :=
| KSentinel | KFirewall | KCompactState | KIssueCard | KDependency | KEscalation.
#[export] Instance TypedNodeKind_eq_dec : EqDecision TypedNodeKind.
Proof. solve_decision. Defined.

(** A table of codes, read in the order of its arms. *)
Definition parse_code {A : Type} (as_code : A → string) (all : list A) (code : string) :
    result TypedOutputError A :=
  match List.find (λ x, str_eqb (as_code x) code) all with
  | Some x => Ok x
  | None => Err UnknownReasonCode
  end.

(*| runtime/typed_protocol.rs 71-80 TypedNodeKind::as_str *)
Definition node_str (kind : TypedNodeKind) : string :=
  match kind with
  | KSentinel => "sentinel" | KFirewall => "firewall" | KCompactState => "compact_state"
  | KIssueCard => "issue_card" | KDependency => "dependency" | KEscalation => "escalation"
  end.
(*| runtime/typed_protocol.rs 82-92 TypedNodeKind::parse *)
Definition node_parse : string → result TypedOutputError TypedNodeKind :=
  parse_code node_str [KSentinel; KFirewall; KCompactState; KIssueCard; KDependency; KEscalation].

(*| runtime/typed_protocol.rs 97-103 SentinelVerdict *)
Inductive SentinelVerdict := Injection | Suspicious | UnsupportedLanguage | InvalidInput | Clean.
#[export] Instance SentinelVerdict_eq_dec : EqDecision SentinelVerdict.
Proof. solve_decision. Defined.
(*| runtime/typed_protocol.rs 107-115 SentinelVerdict::as_code *)
Definition verdict_code (v : SentinelVerdict) : string :=
  match v with
  | Injection => "inj" | Suspicious => "sus" | UnsupportedLanguage => "uns"
  | InvalidInput => "inv" | Clean => "cln"
  end.
(*| runtime/typed_protocol.rs 117-125 SentinelVerdict::label *)
Definition verdict_label (v : SentinelVerdict) : string :=
  match v with
  | Injection => "injection" | Suspicious => "suspicious"
  | UnsupportedLanguage => "unsupported language" | InvalidInput => "invalid input"
  | Clean => "clean"
  end.
(*| runtime/typed_protocol.rs 127-136 SentinelVerdict::parse *)
Definition verdict_parse : string → result TypedOutputError SentinelVerdict :=
  parse_code verdict_code [Injection; Suspicious; UnsupportedLanguage; InvalidInput; Clean].

(*| runtime/typed_protocol.rs 148-154 FirewallDecision::as_code *)
Definition decision_code (d : FirewallDecision) : string :=
  match d with Allow => "alw" | Deny => "den" | RequireHumanApproval => "rha" end.
(*| runtime/typed_protocol.rs 156-163 FirewallDecision::parse *)
Definition decision_parse : string → result TypedOutputError FirewallDecision :=
  parse_code decision_code [Allow; Deny; RequireHumanApproval].

(*| runtime/typed_protocol.rs 168-172 DependencyJudgment *)
Inductive DependencyJudgment := Blocks | DependsOn | Unrelated.
#[export] Instance DependencyJudgment_eq_dec : EqDecision DependencyJudgment.
Proof. solve_decision. Defined.
(*| runtime/typed_protocol.rs 175-181 DependencyJudgment::as_code *)
Definition judgment_code (j : DependencyJudgment) : string :=
  match j with Blocks => "blk" | DependsOn => "dep" | Unrelated => "unr" end.
(*| runtime/typed_protocol.rs 183-190 DependencyJudgment::parse *)
Definition judgment_parse : string → result TypedOutputError DependencyJudgment :=
  parse_code judgment_code [Blocks; DependsOn; Unrelated].

(*| runtime/typed_protocol.rs 195-198 EscalationTarget *)
Inductive EscalationTarget := Cloud | Hitl.
#[export] Instance EscalationTarget_eq_dec : EqDecision EscalationTarget.
Proof. solve_decision. Defined.
(*| runtime/typed_protocol.rs 201-206 EscalationTarget::as_code *)
Definition target_code (t : EscalationTarget) : string :=
  match t with Cloud => "cld" | Hitl => "hitl" end.
(*| runtime/typed_protocol.rs 208-214 EscalationTarget::parse *)
Definition target_parse : string → result TypedOutputError EscalationTarget :=
  parse_code target_code [Cloud; Hitl].

(*| runtime/typed_protocol.rs 217-222 parse_issue_status *)
Definition parse_issue_status : string → result TypedOutputError string :=
  parse_code id ["open"; "blocked"; "done"].
(*| runtime/typed_protocol.rs 224-229 parse_state_op *)
Definition parse_state_op : string → result TypedOutputError string :=
  parse_code id ["add"; "set"; "del"].

(** ** Payloads *)

(*| runtime/typed_protocol.rs 234-238 SourceSpan *)
Record SourceSpan := mk_SourceSpan { span_artifact : ArtifactId; span_start : Z; span_end : Z }.
#[export] Instance SourceSpan_eq_dec : EqDecision SourceSpan.
Proof. solve_decision. Defined.
(*| runtime/typed_protocol.rs 242-257 SourceSpan::new *)
Definition SourceSpan_new (artifact : string) (start stop : Z) :
    result TypedOutputError SourceSpan :=
  match ArtifactId_parse artifact with
  | None => Err InvalidJson
  | Some artifact => if (stop <=? start)%Z then Err InvalidJson else Ok (mk_SourceSpan artifact start stop)
  end.

(*| runtime/typed_protocol.rs 328-332 valid_sha256 *)
Definition valid_sha256 (value : string) : bool :=
  match strip_prefix SHA256_PREFIX value with
  | Some hex => is_some (ArtifactId_parse hex)
  | None => false
  end.

(*| runtime/typed_protocol.rs 286-289 ArtifactRef *)
Record ArtifactRef := mk_ArtifactRef { aref_id : ArtifactId; aref_sha256 : string }.
#[export] Instance ArtifactRef_eq_dec : EqDecision ArtifactRef.
Proof. solve_decision. Defined.
(*| runtime/typed_protocol.rs 293-307 ArtifactRef::new *)
Definition ArtifactRef_new (artifact sha256 : string) : result TypedOutputError ArtifactRef :=
  match ArtifactId_parse artifact with
  | None => Err InvalidJson
  | Some artifact =>
      if negb (valid_sha256 sha256) then Err InvalidJson else Ok (mk_ArtifactRef artifact sha256)
  end.

(*| runtime/typed_protocol.rs 336-339 Continuation *)
Record Continuation := mk_Continuation { cont_seq : Z; cont_token : string }.
#[export] Instance Continuation_eq_dec : EqDecision Continuation.
Proof. solve_decision. Defined.
(*| runtime/typed_protocol.rs 343-349 Continuation::new *)
Definition Continuation_new (seq : Z) (token : string) : result TypedOutputError Continuation :=
  if (seq =? 0)%Z || is_blank token then Err InvalidJson else Ok (mk_Continuation seq token).

(*| runtime/typed_protocol.rs 372-375 Completeness *)
Inductive Completeness := Complete | Truncated (continuation : Continuation).
#[export] Instance Completeness_eq_dec : EqDecision Completeness.
Proof. solve_decision. Defined.
(*| runtime/typed_protocol.rs 378-380 Completeness::is_truncated *)
Definition is_truncated (c : Completeness) : bool :=
  match c with Truncated _ => true | Complete => false end.

(*| runtime/firewall.rs 262-266 FirewallStamp *)
Record FirewallStamp := mk_FirewallStamp {
  stamp_schema_version : Z; stamp_reason : FirewallReason; stamp_identity : string }.
#[export] Instance FirewallStamp_eq_dec : EqDecision FirewallStamp.
Proof. solve_decision. Defined.
(*| runtime/firewall.rs 276-285 FirewallStamp::try_from *)
Definition stamp_try_from (wire : Z * FirewallReason * string) : option FirewallStamp :=
  let '(schema_version, reason, identity) := wire in
  if negb (schema_version =? FIREWALL_SCHEMA_VERSION)%Z || negb (valid_hex_digest identity)
  then None else Some (mk_FirewallStamp schema_version reason identity).

(*| runtime/typed_protocol.rs 416-420 SentinelEvidence *)
Record SentinelEvidence := mk_SentinelEvidence {
  ev_verdict : SentinelVerdict; ev_spans : list SourceSpan; ev_artifacts : list ArtifactRef }.
#[export] Instance SentinelEvidence_eq_dec : EqDecision SentinelEvidence.
Proof. solve_decision. Defined.
(*| runtime/typed_protocol.rs 452-456 FirewallRecord *)
Record FirewallRecord := mk_FirewallRecord {
  fr_decision : FirewallDecision; fr_artifacts : list ArtifactRef; fr_policy : option FirewallStamp }.
#[export] Instance FirewallRecord_eq_dec : EqDecision FirewallRecord.
Proof. solve_decision. Defined.
(*| runtime/typed_protocol.rs 476-480 CompactStateDelta *)
Record CompactStateDelta := mk_CompactStateDelta {
  cs_key : string; cs_op : string; cs_artifacts : list ArtifactRef }.
#[export] Instance CompactStateDelta_eq_dec : EqDecision CompactStateDelta.
Proof. solve_decision. Defined.
(*| runtime/typed_protocol.rs 505-509 IssueCard *)
Record IssueCard := mk_IssueCard { ic_id : string; ic_status : string; ic_spans : list SourceSpan }.
#[export] Instance IssueCard_eq_dec : EqDecision IssueCard.
Proof. solve_decision. Defined.
(*| runtime/typed_protocol.rs 534-539 DependencyRecord *)
Record DependencyRecord := mk_DependencyRecord {
  dep_from : string; dep_to : string; dep_judgment : DependencyJudgment;
  dep_artifacts : list ArtifactRef }.
#[export] Instance DependencyRecord_eq_dec : EqDecision DependencyRecord.
Proof. solve_decision. Defined.
(*| runtime/typed_protocol.rs 570-573 EscalationRecord *)
Record EscalationRecord := mk_EscalationRecord {
  esc_target : EscalationTarget; esc_artifacts : list ArtifactRef }.
#[export] Instance EscalationRecord_eq_dec : EqDecision EscalationRecord.
Proof. solve_decision. Defined.

(*| runtime/typed_protocol.rs 583-590 TypedPayload *)
Inductive TypedPayload :=
| PSentinel (evidence : SentinelEvidence)
| PFirewall (record : FirewallRecord)
| PCompactState (delta : CompactStateDelta)
| PIssueCard (card : IssueCard)
| PDependency (record : DependencyRecord)
| PEscalation (record : EscalationRecord).
#[export] Instance TypedPayload_eq_dec : EqDecision TypedPayload.
Proof. solve_decision. Defined.

(*| runtime/typed_protocol.rs 593-602 TypedPayload::kind *)
Definition payload_kind (p : TypedPayload) : TypedNodeKind :=
  match p with
  | PSentinel _ => KSentinel | PFirewall _ => KFirewall | PCompactState _ => KCompactState
  | PIssueCard _ => KIssueCard | PDependency _ => KDependency | PEscalation _ => KEscalation
  end.

(** The schema version has the one value [TYPED_OUTPUT_SCHEMA_VERSION_V1]. *)
(*| runtime/typed_protocol.rs 677-681 TypedOutput *)
Record TypedOutput := mk_TypedOutput {
  out_schema_version : Z; out_payload : TypedPayload; out_completeness : Completeness }.
#[export] Instance TypedOutput_eq_dec : EqDecision TypedOutput.
Proof. solve_decision. Defined.

Section protocol.
Context `{IntJson, !JsonRead}.

(** The fields of a [StampWire], if the value has them and no others. *)
Class StampJson := stamp_wire : Value → option (Z * FirewallReason * string).
Context `{!StampJson}.

(** ** Writing *)

(** Derived [Serialize]. *)
Definition span_value (s : SourceSpan) : Value :=
  jobject [("artifact_id", VString (span_artifact s)); ("start", jnum (span_start s));
           ("end", jnum (span_end s))].
Definition aref_value (a : ArtifactRef) : Value :=
  jobject [("artifact_id", VString (aref_id a)); ("sha256", VString (aref_sha256 a))].
Definition spans_value (l : list SourceSpan) : Value := Array (map span_value l).
Definition arefs_value (l : list ArtifactRef) : Value := Array (map aref_value l).
Definition stamp_value (s : FirewallStamp) : Value :=
  jobject [("schema_version", jnum (stamp_schema_version s));
           ("reason", VString (reason_code (stamp_reason s)));
           ("identity", VString (stamp_identity s))].

(*| runtime/typed_protocol.rs 396-411 Completeness::serialize *)
Definition completeness_value (c : Completeness) : Value :=
  match c with
  | Complete => VString "complete"
  | Truncated c =>
      jobject [("truncated", jobject [("seq", jnum (cont_seq c)); ("token", VString (cont_token c))])]
  end.

(*| runtime/typed_protocol.rs 604-668 TypedPayload::to_value *)
Definition payload_to_value (p : TypedPayload) : result TypedOutputError Value :=
  let object fields := jobject (("kind", VString (node_str (payload_kind p))) :: fields) in
  match p with
  | PSentinel e =>
      Ok (object [("verdict", VString (verdict_code (ev_verdict e)));
                  ("spans", spans_value (ev_spans e)); ("artifacts", arefs_value (ev_artifacts e))])
  | PFirewall r =>
      Ok (object ([("decision", VString (decision_code (fr_decision r)));
                   ("artifacts", arefs_value (fr_artifacts r))] ++
                  match fr_policy r with Some p => [("policy", stamp_value p)] | None => [] end))
  | PCompactState d =>
      _ ← parse_state_op (cs_op d);
      if is_blank (cs_key d) then Err InvalidJson
      else Ok (object [("key", VString (cs_key d)); ("op", VString (cs_op d));
                       ("artifacts", arefs_value (cs_artifacts d))])
  | PIssueCard c =>
      _ ← parse_issue_status (ic_status c);
      if is_blank (ic_id c) then Err InvalidJson
      else Ok (object [("id", VString (ic_id c)); ("status", VString (ic_status c));
                       ("spans", spans_value (ic_spans c))])
  | PDependency r =>
      if is_blank (dep_from r) || is_blank (dep_to r) then Err InvalidJson
      else Ok (object [("from", VString (dep_from r)); ("to", VString (dep_to r));
                       ("judgment", VString (judgment_code (dep_judgment r)));
                       ("artifacts", arefs_value (dep_artifacts r))])
  | PEscalation r =>
      Ok (object [("target", VString (target_code (esc_target r)));
                  ("artifacts", arefs_value (esc_artifacts r))])
  end.

(*| runtime/typed_protocol.rs 685-695 TypedOutput::new *)
Definition TypedOutput_new (p : TypedPayload) (c : Completeness) : result TypedOutputError TypedOutput :=
  payload_to_value p;; Ok (mk_TypedOutput TYPED_OUTPUT_SCHEMA_VERSION_V1 p c).

(*| runtime/typed_protocol.rs 718-734 TypedOutput::to_value *)
Definition output_to_value (o : TypedOutput) : result TypedOutputError Value :=
  payload ← payload_to_value (out_payload o);
  Ok (jobject [("schema_version", jnum (out_schema_version o));
               ("node", VString (node_str (payload_kind (out_payload o))));
               ("completeness", completeness_value (out_completeness o)); ("payload", payload)]).

(*| runtime/typed_protocol.rs 714-716 TypedOutput::to_json *)
Definition to_json (o : TypedOutput) : result TypedOutputError string :=
  compact <$> output_to_value o.

(** ** Reading *)

Definition ok_or {A : Type} (o : option A) : result TypedOutputError A :=
  match o with Some x => Ok x | None => Err InvalidJson end.

(*| runtime/typed_protocol.rs 783-788 require_keys *)
Definition require_keys (object : list (string * Value)) (keys : list string) :
    result TypedOutputError unit := ensure (exact_keys object keys) InvalidJson.

(*| runtime/typed_protocol.rs 790-798 string_field *)
Definition string_field (object : list (string * Value)) (key : string) :
    result TypedOutputError string := ok_or (object_get key object ≫= v_str).

Definition u64_field (object : list (string * Value)) (key : string) :
    result TypedOutputError Z := ok_or (object_get key object ≫= v_u64).

(*| runtime/typed_protocol.rs 800-820 parse_completeness *)
Definition parse_completeness (value : Value) : result TypedOutputError Completeness :=
  if match v_str value with Some s => str_eqb s "complete" | None => false end then Ok Complete
  else
    object ← ok_or (v_object value);
    require_keys object ["truncated"];;
    truncated ← ok_or (object_get "truncated" object);
    fields ← ok_or (v_object truncated);
    require_keys fields ["seq"; "token"];;
    seq ← u64_field fields "seq";
    if (2 ^ 32 <=? seq)%Z then Err InvalidJson
    else
      token ← string_field fields "token";
      Truncated <$> Continuation_new seq token.

(*| runtime/typed_protocol.rs 913-925 parse_spans *)
Definition parse_span (item : Value) : result TypedOutputError SourceSpan :=
  object ← ok_or (v_object item);
  require_keys object ["artifact_id"; "start"; "end"];;
  start ← u64_field object "start";
  stop ← u64_field object "end";
  artifact ← string_field object "artifact_id";
  SourceSpan_new artifact start stop.
(*| runtime/typed_protocol.rs 909-927 parse_spans *)
Definition parse_spans (value : Value) : result TypedOutputError (list SourceSpan) :=
  items ← ok_or (v_array value); traverse parse_span items.

(*| runtime/typed_protocol.rs 933-940 parse_artifacts *)
Definition parse_artifact (item : Value) : result TypedOutputError ArtifactRef :=
  object ← ok_or (v_object item);
  require_keys object ["artifact_id"; "sha256"];;
  artifact ← string_field object "artifact_id";
  sha256 ← string_field object "sha256";
  ArtifactRef_new artifact sha256.
(*| runtime/typed_protocol.rs 929-942 parse_artifacts *)
Definition parse_artifacts (value : Value) : result TypedOutputError (list ArtifactRef) :=
  items ← ok_or (v_array value); traverse parse_artifact items.

Definition parse_field {A : Type} (parse : Value → result TypedOutputError A)
    (object : list (string * Value)) (key : string) : result TypedOutputError A :=
  value ← ok_or (object_get key object); parse value.

(*| runtime/typed_protocol.rs 822-907 parse_payload *)
Definition parse_payload (value : Value) : result TypedOutputError TypedPayload :=
  object ← ok_or (v_object value);
  code ← string_field object "kind";
  kind ← node_parse code;
  match kind with
  | KSentinel =>
      require_keys object ["kind"; "verdict"; "spans"; "artifacts"];;
      code ← string_field object "verdict";
      verdict ← verdict_parse code;
      spans ← parse_field parse_spans object "spans";
      artifacts ← parse_field parse_artifacts object "artifacts";
      Ok (PSentinel (mk_SentinelEvidence verdict spans artifacts))
  | KFirewall =>
      policy ← match object_get "policy" object with
               | Some policy =>
                   require_keys object ["kind"; "decision"; "artifacts"; "policy"];;
                   Some <$> ok_or (stamp_wire policy ≫= stamp_try_from)
               | None => require_keys object ["kind"; "decision"; "artifacts"];; Ok None
               end;
      code ← string_field object "decision";
      decision ← decision_parse code;
      artifacts ← parse_field parse_artifacts object "artifacts";
      Ok (PFirewall (mk_FirewallRecord decision artifacts policy))
  | KCompactState =>
      require_keys object ["kind"; "key"; "op"; "artifacts"];;
      code ← string_field object "op";
      op ← parse_state_op code;
      key ← string_field object "key";
      artifacts ← parse_field parse_artifacts object "artifacts";
      Ok (PCompactState (mk_CompactStateDelta key op artifacts))
  | KIssueCard =>
      require_keys object ["kind"; "id"; "status"; "spans"];;
      code ← string_field object "status";
      status ← parse_issue_status code;
      id ← string_field object "id";
      spans ← parse_field parse_spans object "spans";
      Ok (PIssueCard (mk_IssueCard id status spans))
  | KDependency =>
      require_keys object ["kind"; "from"; "to"; "judgment"; "artifacts"];;
      from ← string_field object "from";
      to ← string_field object "to";
      code ← string_field object "judgment";
      judgment ← judgment_parse code;
      artifacts ← parse_field parse_artifacts object "artifacts";
      Ok (PDependency (mk_DependencyRecord from to judgment artifacts))
  | KEscalation =>
      require_keys object ["kind"; "target"; "artifacts"];;
      code ← string_field object "target";
      target ← target_parse code;
      artifacts ← parse_field parse_artifacts object "artifacts";
      Ok (PEscalation (mk_EscalationRecord target artifacts))
  end.

(*| runtime/typed_protocol.rs 754-781 parse_typed_value *)
Definition parse_typed_value (value : Value) : result TypedOutputError TypedOutput :=
  object ← ok_or (v_object value);
  if has_key "rationale" object then Err RationaleNotEnabled
  else
    version ← u64_field object "schema_version";
    if negb (version =? TYPED_OUTPUT_SCHEMA_VERSION_V1)%Z then Err UnknownSchemaVersion
    else
      require_keys object ["schema_version"; "node"; "completeness"; "payload"];;
      code ← string_field object "node";
      node ← node_parse code;
      completeness ← parse_field parse_completeness object "completeness";
      payload ← parse_field parse_payload object "payload";
      if negb (bool_decide (payload_kind payload = node)) then Err InvalidJson
      else TypedOutput_new payload completeness.

(*| runtime/typed_protocol.rs 749-752 parse_typed_output *)
Definition parse_typed_output (bytes : string) : result TypedOutputError TypedOutput :=
  value ← ok_or (json_parse bytes); parse_typed_value value.

(** ** Admission *)

(*| runtime/typed_protocol.rs 1035-1044 node_output_token_budget *)
Definition node_output_token_budget (kind : TypedNodeKind) : Z :=
  match kind with
  | KSentinel => 128 | KFirewall => 96 | KCompactState => 192
  | KIssueCard => 160 | KDependency => 96 | KEscalation => 80
  end.

(*| runtime/typed_protocol.rs 1047-1049 estimate_output_tokens *)
Definition estimate_output_tokens (text : string) : Z := (str_len text + 3) `div` 4.

(*| runtime/typed_protocol.rs 945-954 admit_for_reducer *)
Definition admit_for_reducer (o : TypedOutput) : result TypedOutputError TypedPayload :=
  if is_truncated (out_completeness o) then Err TruncatedOutput
  else
    json ← to_json o;
    if (node_output_token_budget (payload_kind (out_payload o)) <? estimate_output_tokens json)%Z
    then Err OverBudget else Ok (out_payload o).

(** ** Views *)

Definition is_ascii_punctuation (c : ascii) : bool :=
  byte_in 33 47 c || byte_in 58 64 c || byte_in 91 96 c || byte_in 123 126 c.

(** A byte of a multi-byte scalar is not punctuation. *)
(*| runtime/typed_protocol.rs 1018-1027 escape_markdown *)
Fixpoint escape_markdown (value : string) : string :=
  match value with
  | EmptyString => EmptyString
  | String c rest =>
      if is_ascii_punctuation c then String "\" (String c (escape_markdown rest))
      else String c (escape_markdown rest)
  end.

(*| runtime/typed_protocol.rs 998-1007 push_spans *)
Definition span_lines (spans : list SourceSpan) : list string :=
  map (λ s, "- span: " +:+ escape_markdown (span_artifact s) +:+ "#" +:+ pretty (span_start s)
              +:+ "-" +:+ pretty (span_end s)) spans.
(*| runtime/typed_protocol.rs 1009-1016 push_artifacts *)
Definition artifact_lines (artifacts : list ArtifactRef) : list string :=
  map (λ a, "- artifact: " +:+ escape_markdown (aref_id a)) artifacts.

(** [{:?}] of the derived [Debug]. *)
Definition reason_debug (r : FirewallReason) : string :=
  match r with
  | ReasonSchema => "Schema" | ReasonPolicy => "Policy" | ReasonProvenance => "Provenance"
  | ReasonGoal => "Goal" | ReasonTool => "Tool" | ReasonCapability => "Capability"
  | ReasonScope => "Scope" | ReasonDestination => "Destination" | ReasonArguments => "Arguments"
  | ReasonSecret => "Secret" | ReasonSideEffect => "SideEffect" | ReasonStaleTarget => "StaleTarget"
  | ReasonLowRisk => "LowRisk" | ReasonSemantic => "Semantic" | ReasonHumanApproval => "HumanApproval"
  end.

Definition newline : string := String "010" "".

(*| runtime/typed_protocol.rs 957-996 render_markdown *)
Definition render_markdown (o : TypedOutput) : string :=
  String.concat newline
    (["# " +:+ node_str (payload_kind (out_payload o))] ++
     match out_payload o with
     | PSentinel e =>
         ["- verdict: " +:+ verdict_code (ev_verdict e); "- label: " +:+ verdict_label (ev_verdict e)]
           ++ span_lines (ev_spans e) ++ artifact_lines (ev_artifacts e)
     | PFirewall r =>
         ["- decision: " +:+ decision_code (fr_decision r)] ++
         match fr_policy r with
         | Some policy => ["- reason: " +:+ reason_debug (stamp_reason policy);
                           "- identity: " +:+ stamp_identity policy]
         | None => []
         end ++ artifact_lines (fr_artifacts r)
     | PCompactState d => ["- op: " +:+ cs_op d] ++ artifact_lines (cs_artifacts d)
     | PIssueCard c => ["- status: " +:+ ic_status c] ++ span_lines (ic_spans c)
     | PDependency r =>
         ["- judgment: " +:+ judgment_code (dep_judgment r)] ++ artifact_lines (dep_artifacts r)
     | PEscalation r => ["- target: " +:+ target_code (esc_target r)] ++ artifact_lines (esc_artifacts r)
     end ++
     match out_completeness o with
     | Truncated c => ["- truncated: seq " +:+ pretty (cont_seq c)]
     | Complete => []
     end ++ [""]).

(** ** Exchange between workflows *)

(*| runtime/typed_protocol.rs 1053-1058 WorkflowExchange *)
Inductive WorkflowExchange := XCodeInvestigation | XGroundedAnswer | XMultiHop | XReview.
#[export] Instance WorkflowExchange_eq_dec : EqDecision WorkflowExchange.
Proof. solve_decision. Defined.

(*| runtime/typed_protocol.rs 1061-1068 WorkflowExchange::as_str *)
Definition exchange_str (x : WorkflowExchange) : string :=
  match x with
  | XCodeInvestigation => "code.investigation" | XGroundedAnswer => "grounded.answer"
  | XMultiHop => "multi.hop" | XReview => "review"
  end.
(*| runtime/typed_protocol.rs 1070-1078 WorkflowExchange::parse *)
Definition exchange_parse (id : string) : option WorkflowExchange :=
  List.find (λ x, str_eqb (exchange_str x) id) [XCodeInvestigation; XGroundedAnswer; XMultiHop; XReview].
(*| runtime/typed_protocol.rs 1080-1087 WorkflowExchange::successor *)
Definition successor (x : WorkflowExchange) : WorkflowExchange :=
  match x with
  | XCodeInvestigation => XGroundedAnswer | XGroundedAnswer => XMultiHop
  | XMultiHop => XReview | XReview => XCodeInvestigation
  end.

Definition EXCHANGE_WRAPPER : string :=
  "{'from':'code.investigation','to':'code.investigation','output':}".
(*| runtime/typed_protocol.rs 1166-1190 MAX_EXCHANGE_ENVELOPE_BYTES *)
Definition MAX_EXCHANGE_ENVELOPE_BYTES : Z :=
  node_output_token_budget KCompactState * 4 + str_len EXCHANGE_WRAPPER.

(*| runtime/typed_protocol.rs 1101-1117 WorkflowExchange::envelope_bytes *)
Definition envelope_bytes (from to : WorkflowExchange) (o : TypedOutput) :
    result TypedOutputError string :=
  admit_for_reducer o;;
  output ← output_to_value o;
  let bytes := compact (jobject [("from", VString (exchange_str from)); ("to", VString (exchange_str to));
                                 ("output", output)]) in
  if (MAX_EXCHANGE_ENVELOPE_BYTES <? str_len bytes)%Z then Err InvalidJson else Ok bytes.

(*| runtime/typed_protocol.rs 1090-1099 WorkflowExchange::encode_named_output *)
Definition encode_named_output (workflow_id : string) (json_bytes : string) :
    result TypedOutputError (option string) :=
  match exchange_parse workflow_id with
  | None => Ok None
  | Some from =>
      output ← parse_typed_output json_bytes;
      Some <$> envelope_bytes from (successor from) output
  end.

(*| runtime/typed_protocol.rs 1142-1161 WorkflowExchange::consume_bytes *)
Definition consume_bytes (self from : WorkflowExchange) (bytes : string) :
    result TypedOutputError TypedPayload :=
  value ← ok_or (json_parse bytes);
  object ← ok_or (v_object value);
  if has_key "rationale" object then Err RationaleNotEnabled
  else
    require_keys object ["from"; "to"; "output"];;
    from' ← string_field object "from";
    if negb (str_eqb from' (exchange_str from)) then Err InvalidJson
    else
      to' ← string_field object "to";
      if negb (str_eqb to' (exchange_str self)) then Err InvalidJson
      else
        output ← parse_field parse_typed_value object "output";
        admit_for_reducer output.

(** *** Through a store *)

Context `{!Sha256} {S : Type} `{!ArtifactStore S}.

(*| runtime/typed_protocol.rs 1120-1129 WorkflowExchange::publish *)
Definition publish (self to : WorkflowExchange) (o : TypedOutput) : method S TypedOutputError ArtifactId :=
  λ store,
    match envelope_bytes self to o with
    | Err e => (store, Err e)
    | Ok bytes => let '(store, r) := put bytes store in (store, map_err (λ _, InvalidJson) r)
    end.

(** [None]: not finished after [fuel] pages. *)
(*| runtime/typed_protocol.rs 1169-1190 read_exchange_bytes *)
Fixpoint read_exchange_from (fuel : nat) (store : S) (id : ArtifactId) (bytes : string) (offset : Z) :
    option (result TypedOutputError string) :=
  match fuel with
  | O => None
  | Datatypes.S fuel =>
      match read_page store id (mk_PageRequest offset 65536) with
      | Err _ => Some (Err InvalidJson)
      | Ok page =>
          let bytes := bytes +:+ page_bytes page in
          if (MAX_EXCHANGE_ENVELOPE_BYTES <? str_len bytes)%Z then Some (Err InvalidJson)
          else match page_next_offset page with
          | Some next =>
              if (offset <? next)%Z then read_exchange_from fuel store id bytes next
              else Some (Err InvalidJson)
          | None => Some (Ok bytes)
          end
      end
  end.

(*| runtime/typed_protocol.rs 1132-1140 WorkflowExchange::consume *)
Definition consume (fuel : nat) (self from : WorkflowExchange) (store : S) (id : ArtifactId) :
    option (result TypedOutputError TypedPayload) :=
  bytes ← read_exchange_from fuel store id "" 0;
  Some (bytes ← bytes; consume_bytes self from bytes).

(*| runtime/typed_protocol.rs 1194-1197 ResearchRationale *)
Record ResearchRationale := mk_ResearchRationale { output_digest : string; rationale_text : string }.
(*| runtime/typed_protocol.rs 1201-1209 ResearchRationale::store *)
Definition ResearchRationale_store (o : TypedOutput) (text : string) :
    result TypedOutputError ResearchRationale :=
  json ← to_json o;
  Ok (mk_ResearchRationale (SHA256_PREFIX +:+ encode_hex (sha256 json)) text).
End protocol.

(** ** What the reader accepts *)

Definition span_wf (s : SourceSpan) : Prop :=
  ArtifactId_parse (span_artifact s) = Some (span_artifact s) ∧ u64 (span_start s) ∧
  u64 (span_end s) ∧ (span_start s < span_end s)%Z.
Definition aref_wf (a : ArtifactRef) : Prop :=
  ArtifactId_parse (aref_id a) = Some (aref_id a) ∧ valid_sha256 (aref_sha256 a) = true.
Definition stamp_wf (s : FirewallStamp) : Prop :=
  stamp_schema_version s = FIREWALL_SCHEMA_VERSION ∧ valid_hex_digest (stamp_identity s) = true.
Definition completeness_wf (c : Completeness) : Prop :=
  match c with
  | Complete => True
  | Truncated c => (0 < cont_seq c < 2 ^ 32)%Z ∧ is_blank (cont_token c) = false
  end.
Definition payload_wf (p : TypedPayload) : Prop :=
  match p with
  | PSentinel e => Forall span_wf (ev_spans e) ∧ Forall aref_wf (ev_artifacts e)
  | PFirewall r => Forall aref_wf (fr_artifacts r) ∧ from_option stamp_wf True (fr_policy r)
  | PCompactState d => Forall aref_wf (cs_artifacts d) ∧ cs_op d ∈ ["add"; "set"; "del"] ∧
                       is_blank (cs_key d) = false
  | PIssueCard c => Forall span_wf (ic_spans c) ∧ ic_status c ∈ ["open"; "blocked"; "done"] ∧
                    is_blank (ic_id c) = false
  | PDependency r => Forall aref_wf (dep_artifacts r) ∧ is_blank (dep_from r) = false ∧
                     is_blank (dep_to r) = false
  | PEscalation r => Forall aref_wf (esc_artifacts r)
  end.
Definition output_wf (o : TypedOutput) : Prop :=
  out_schema_version o = TYPED_OUTPUT_SCHEMA_VERSION_V1 ∧ payload_wf (out_payload o) ∧
  completeness_wf (out_completeness o).

Lemma ArtifactId_parse_id v a : ArtifactId_parse v = Some a → a = v.
Proof. unfold ArtifactId_parse. destruct (_ || _); [done|]. by intros [= ->]. Qed.

Lemma SourceSpan_new_Ok a i j s :
  SourceSpan_new a i j = Ok s ↔
  s = mk_SourceSpan a i j ∧ ArtifactId_parse a = Some a ∧ (i < j)%Z.
Proof.
  unfold SourceSpan_new. destruct (ArtifactId_parse a) as [b|] eqn:E; [|naive_solver].
  apply ArtifactId_parse_id in E as ->. rewrite guard_Ok, Z.leb_gt. naive_solver.
Qed.

Lemma ArtifactRef_new_Ok a h r :
  ArtifactRef_new a h = Ok r ↔
  r = mk_ArtifactRef a h ∧ ArtifactId_parse a = Some a ∧ valid_sha256 h = true.
Proof.
  unfold ArtifactRef_new. destruct (ArtifactId_parse a) as [b|] eqn:E; [|naive_solver].
  apply ArtifactId_parse_id in E as ->. rewrite guard_Ok, negb_false_iff. naive_solver.
Qed.

Lemma parse_code_Ok {A} (as_code : A → string) all code x :
  NoDup (map as_code all) → parse_code as_code all code = Ok x ↔ x ∈ all ∧ as_code x = code.
Proof.
  intros Hnd. unfold parse_code. split.
  - destruct (List.find _ all) as [y|] eqn:E; [|done]. intros [= <-].
    apply find_Some_iff in E as [Hin Heq]. by apply str_eqb_eq in Heq.
  - intros [Hin <-]. induction all as [|y all IH]; [by apply elem_of_nil in Hin|]. cbn in *.
    apply NoDup_cons in Hnd as [Hnin Hnd].
    destruct (str_eqb (as_code y) (as_code x)) eqn:E.
    + apply str_eqb_eq in E. f_equal. apply elem_of_cons in Hin as [->|Hin]; [done|].
      destruct Hnin. rewrite E. apply list_elem_of_fmap. by exists x.
    + apply elem_of_cons in Hin as [->|Hin]; [|by apply IH]. by apply bool_decide_eq_false in E.
Qed.

Ltac keys_nodup := apply (bool_decide_unpack _); vm_compute; exact I.

Lemma Ok_inj {E A} (x y : A) : Ok (E := E) x = Ok y → x = y.
Proof. congruence. Qed.

Section reader.
Context `{JsonReadLaws} `{!StampJson}.

Lemma ok_or_Ok {A} (o : option A) x : ok_or o = Ok x ↔ o = Some x.
Proof. destruct o; cbn; naive_solver. Qed.

Lemma v_object_Some v o : v_object v = Some o ↔ v = Object o.
Proof. destruct v; cbn; naive_solver. Qed.
Lemma v_array_Some v l : v_array v = Some l ↔ v = Array l.
Proof. destruct v; cbn; naive_solver. Qed.

Lemma string_field_Ok o k s : string_field o k = Ok s ↔ object_get k o = Some (VString s).
Proof.
  unfold string_field. rewrite ok_or_Ok. destruct (object_get k o) as [v|]; cbn; [|naive_solver].
  destruct v; cbn; naive_solver.
Qed.

Lemma u64_field_Ok o k n : u64_field o k = Ok n ↔ object_get k o = Some (jnum n) ∧ u64 n.
Proof.
  unfold u64_field. rewrite ok_or_Ok. destruct (object_get k o) as [v|]; cbn; [|naive_solver].
  destruct v as [| |x| | |]; cbn; try naive_solver. unfold jnum. split.
  - by intros [Hn ->]%as_u64_Some.
  - intros [[= ->] Hn]. by apply as_u64_int.
Qed.

Lemma parse_field_Ok {A} (parse : Value → result TypedOutputError A) o k x :
  parse_field parse o k = Ok x ↔ ∃ v, object_get k o = Some v ∧ parse v = Ok x.
Proof. unfold parse_field. rewrite bind_Ok. by setoid_rewrite ok_or_Ok. Qed.

Lemma require_keys_Ok o ks u : require_keys o ks = Ok u ↔ exact_keys o ks = true.
Proof. unfold require_keys. by rewrite ensure_Ok. Qed.

(** An object has exactly the fields [l]. *)
Definition has_fields (o l : list (string * Value)) : Prop :=
  exact_keys o (map fst l) = true ∧ Forall (λ e, object_get (fst e) o = Some (snd e)) l.

Lemma has_fields_jobject o l :
  sorted_json (Object o) → NoDup (map fst l) → has_fields o l ↔ Object o = jobject l.
Proof.
  intros Hs Hnd. pose proof (sorted_object o Hs) as [Ho _]. unfold has_fields. split.
  - intros [Hk Hl]. apply exact_object; [done..| |].
    + apply exact_keys_spec in Hk; [|done..]. apply Permutation_length in Hk. by rewrite !length_map in Hk.
    + intros k v Hin. by apply (proj1 (Forall_forall _ _) Hl (k, v)).
  - intros [= ->]. split; [by apply exact_keys_jobject|]. apply Forall_forall. intros [k v] Hin. cbn.
    rewrite object_get_sorted by done. by apply object_get_elem.
Qed.

End reader.

(** Run the reader of a value that has the fields assumed. *)
Ltac read_step :=
  match goal with
  | |- mbind _ (ok_or (v_object (Object _))) = Ok _ => cbn [v_object ok_or mbind result_bind]
  | |- mbind _ (require_keys _ _) = Ok _ =>
      apply bind_Ok; exists tt; split; [by apply require_keys_Ok|]
  | |- mbind _ (string_field _ _) = Ok _ =>
      apply bind_Ok; eexists; split; [apply string_field_Ok; eassumption|]
  | |- mbind _ (u64_field _ _) = Ok _ =>
      apply bind_Ok; eexists; split; [apply u64_field_Ok; split; [eassumption|done]|]
  | |- mbind _ (parse_field _ _ _) = Ok _ =>
      apply bind_Ok; eexists; split; [apply parse_field_Ok; eexists; split; [eassumption|done]|]
  end.

(** Take apart a run of the reader. *)
Ltac unread E :=
  match type of E with
  | mbind _ (ok_or _) = Ok _ =>
      let o := fresh "o" in let Ho := fresh "Ho" in
      apply bind_Ok in E as (o & Ho%ok_or_Ok & E)
  | mbind _ (require_keys _ _) = Ok _ =>
      let Hk := fresh "Hk" in apply bind_Ok in E as ([] & Hk%require_keys_Ok & E)
  | mbind _ (string_field _ _) = Ok _ =>
      let s := fresh "s" in let Hs := fresh "Hs" in apply bind_Ok in E as (s & Hs%string_field_Ok & E)
  | mbind _ (u64_field _ _) = Ok _ =>
      let n := fresh "n" in let Hn := fresh "Hn" in let Hu := fresh "Hu" in
      apply bind_Ok in E as (n & [Hn Hu]%u64_field_Ok & E)
  | mbind _ (parse_field _ _ _) = Ok _ =>
      let x := fresh "x" in let w := fresh "w" in let Hw := fresh "Hw" in let Hp := fresh "Hp" in
      apply bind_Ok in E as (x & (w & Hw & Hp)%parse_field_Ok & E)
  end.

(** The object [v], assumed sorted by [Hs], is named and its fields are hypotheses. *)
Ltac with_fields Hs :=
  unfold jobject in Hs |- *;
  match type of Hs with
  | sorted_json (Object (sort_by_key fst ?l)) =>
      let o := fresh "o" in let Hf := fresh "Hf" in
      set (o := sort_by_key fst l) in *;
      assert (Hf : has_fields o l) by (apply has_fields_jobject; [done|keys_nodup|done]);
      let Hk := fresh "Hk" in let Hl := fresh "Hl" in
      destruct Hf as [Hk Hl]; cbn [map fst snd] in Hk, Hl; rewrite ?Forall_cons in Hl;
      cbn [fst snd] in Hl; destruct_and? Hl
  end.

(** A value is the object of the fields just read. *)
Ltac object_read :=
  apply has_fields_jobject; [done|keys_nodup|]; split; [done|]; by repeat constructor.

Section exact.
Context `{JsonReadLaws} `{!StampJson}.

Lemma parse_span_exact v s :
  sorted_json v → parse_span v = Ok s ↔ v = span_value s ∧ span_wf s.
Proof.
  intros Hs. split.
  - intros E. unfold parse_span in E. repeat unread E. apply v_object_Some in Ho as ->.
    apply SourceSpan_new_Ok in E as (-> & Ha & Hlt). split; [object_read|done].
  - intros [-> (Ha & Hi & Hj & Hlt)]. unfold span_value in *. with_fields Hs.
    unfold parse_span. repeat read_step. apply SourceSpan_new_Ok. by destruct s.
Qed.

Lemma parse_artifact_exact v a :
  sorted_json v → parse_artifact v = Ok a ↔ v = aref_value a ∧ aref_wf a.
Proof.
  intros Hs. split.
  - intros E. unfold parse_artifact in E. repeat unread E. apply v_object_Some in Ho as ->.
    apply ArtifactRef_new_Ok in E as (-> & Ha & Hh). split; [object_read|done].
  - intros [-> [Ha Hh]]. unfold aref_value in *. with_fields Hs.
    unfold parse_artifact. repeat read_step. apply ArtifactRef_new_Ok. by destruct a.
Qed.

(** An array of values that are each read exactly. *)
Lemma traverse_exact {A} (parse : Value → result TypedOutputError A) (value : A → Value)
    (wf : A → Prop) items l :
  (∀ v x, sorted_json v → parse v = Ok x ↔ v = value x ∧ wf x) → Forall sorted_json items →
  traverse parse items = Ok l ↔ items = map value l ∧ Forall wf l.
Proof.
  intros Hparse Hs. rewrite traverse_Ok. revert l. induction Hs as [|v items Hv Hs IH]; intros l.
  - split; [by inversion 1|]. intros [Hl _]. by destruct l; [constructor|].
  - split.
    + inversion 1 as [|? x ? l' Hx Hl]; subst. apply IH in Hl as [-> Hl].
      apply Hparse in Hx as [-> Hx]; [|done]. by repeat constructor.
    + destruct l as [|x l]; [by intros [? _]|]. intros [[= -> ->] [Hx Hl]%Forall_cons].
      constructor; [by apply Hparse|by apply IH].
Qed.

Lemma array_exact {A} (parse : Value → result TypedOutputError A) (value : A → Value)
    (wf : A → Prop) v l :
  (∀ v x, sorted_json v → parse v = Ok x ↔ v = value x ∧ wf x) → sorted_json v →
  (items ← ok_or (v_array v); traverse parse items) = Ok l ↔ v = Array (map value l) ∧ Forall wf l.
Proof.
  intros Hparse Hs. rewrite bind_Ok. setoid_rewrite ok_or_Ok. setoid_rewrite v_array_Some. split.
  - intros (items & -> & E). apply (traverse_exact parse value wf) in E as [-> Hl]; [done..|].
    apply Forall_forall. intros x Hx. by apply (sorted_element items).
  - intros [-> Hl]. eexists. split; [done|]. apply (traverse_exact parse value wf); [done| |done].
    apply Forall_forall. intros x Hx. by apply (sorted_element (map value l)).
Qed.

Lemma parse_spans_exact v l :
  sorted_json v → parse_spans v = Ok l ↔ v = spans_value l ∧ Forall span_wf l.
Proof. apply array_exact, parse_span_exact. Qed.
Lemma parse_artifacts_exact v l :
  sorted_json v → parse_artifacts v = Ok l ↔ v = arefs_value l ∧ Forall aref_wf l.
Proof. apply array_exact, parse_artifact_exact. Qed.

Lemma parse_completeness_exact v c :
  sorted_json v → parse_completeness v = Ok c ↔ v = completeness_value c ∧ completeness_wf c.
Proof.
  intros Hs. unfold parse_completeness. split.
  - intros E. destruct (match v_str v with Some s => str_eqb s "complete" | None => false end) eqn:Ec.
    + injection E as <-. destruct v; cbn in Ec; try done. by apply str_eqb_eq in Ec as ->.
    + repeat unread E. apply v_object_Some in Ho as ->, Ho1 as ->.
      apply guard_Ok in E as [Hn32 E]. unread E. destruct (Continuation_new n s) as [k|] eqn:Ek; [|done].
      injection E as <-. unfold Continuation_new in Ek. apply guard_Ok in Ek as [Hz [= <-]].
      apply orb_false_iff in Hz as [Hz Hb]. cbn. split.
      * assert (Ht : Object o1 = jobject [("seq", jnum n); ("token", VString s)]).
        { assert (sorted_json (Object o1)) by by eapply sorted_field. object_read. }
        rewrite <- Ht. object_read.
      * apply Z.leb_gt in Hn32. apply Z.eqb_neq in Hz. unfold u64 in Hu. split; [lia|done].
  - intros [-> Hwf]. destruct c as [|k]; [done|]. destruct Hwf as [Hseq Htok].
    unfold completeness_value in *. with_fields Hs.
    match goal with G : object_get "truncated" _ = Some _ |- _ => pose proof G as Ht end.
    apply (sorted_field o "truncated") in Ht as Hs'; [|done].
    cbn [v_str v_object ok_or mbind result_bind]. read_step. rewrite Ht. cbn [ok_or mbind result_bind].
    with_fields Hs'. cbn [v_object ok_or mbind result_bind]. read_step.
    apply bind_Ok. exists (cont_seq k). split; [apply u64_field_Ok; split; [done|unfold_u64; lia]|].
    apply guard_Ok. split; [apply Z.leb_gt; lia|]. read_step. unfold Continuation_new.
    rewrite Htok, orb_false_r. destruct (Z.eqb_spec (cont_seq k) 0); [lia|]. by destruct k.
Qed.

(** The object a payload is read from: what [to_value] writes, but for the
    policy stamp, whose derived reader also takes other forms. *)
Definition payload_reads (v : Value) (p : TypedPayload) : Prop :=
  match p with
  | PFirewall (mk_FirewallRecord decision artifacts (Some stamp)) =>
      ∃ w, stamp_wire w ≫= stamp_try_from = Some stamp ∧
        v = jobject [("kind", VString "firewall"); ("decision", VString (decision_code decision));
                     ("artifacts", arefs_value artifacts); ("policy", w)]
  | _ => payload_to_value p = Ok v
  end.

Lemma stamp_try_from_wf w s : stamp_try_from w = Some s → stamp_wf s.
Proof.
  destruct w as [[n r] i]. unfold stamp_try_from. destruct (_ || _) eqn:E; [done|]. intros [= <-].
  apply orb_false_iff in E as [En Ei]. rewrite negb_false_iff in *. apply Z.eqb_eq in En. done.
Qed.

Lemma code_bind {A B} (as_code : A → string) all code (k : A → result TypedOutputError B) p :
  NoDup (map as_code all) →
  (parse_code as_code all code ≫= k) = Ok p ↔ ∃ x, x ∈ all ∧ code = as_code x ∧ k x = Ok p.
Proof.
  intros Hnd. rewrite bind_Ok. setoid_rewrite parse_code_Ok; [|done].
  split; intros (x & Hx & Hk); exists x; naive_solver.
Qed.

(** The remaining steps of [unread] and [read_step]: codes and arrays. *)
Ltac unread_code E :=
  let x := fresh "x" in
  apply code_bind in E as (x & ? & -> & E); [|keys_nodup].
Ltac unread_arrays :=
  repeat match goal with
  | Hp : parse_artifacts ?w = Ok _ |- _ =>
      apply parse_artifacts_exact in Hp as [-> ?]; [|by eapply sorted_field]
  | Hp : parse_spans ?w = Ok _ |- _ =>
      apply parse_spans_exact in Hp as [-> ?]; [|by eapply sorted_field]
  end.

Lemma parse_payload_reads v p w :
  sorted_json v → parse_payload v = Ok p → payload_to_value p = Ok w →
  payload_reads v p ∧ payload_wf p.
Proof.
  intros Hs E Hw. unfold parse_payload in E. unread E. apply v_object_Some in Ho as ->. unread E.
  unfold node_parse in E. unread_code E. destruct x.
  - unread E. unread E. unfold verdict_parse in E. unread_code E. repeat unread E. injection E as <-.
    unread_arrays. split; [|done]. cbn. f_equal. symmetry. object_read.
  - destruct (object_get "policy" o) as [policy|] eqn:Hpol.
    + apply bind_Ok in E as (stamp & Est & E). unread Est.
      destruct (stamp_wire policy ≫= stamp_try_from) as [st|] eqn:Ew; [|done]. injection Est as <-.
      unread E. unfold decision_parse in E. unread_code E. repeat unread E. injection E as <-.
      unread_arrays. split.
      * exists policy. split; [done|]. object_read.
      * split; [done|]. apply bind_Some in Ew as (? & _ & Ew). by eapply stamp_try_from_wf.
    + apply bind_Ok in E as (stamp & Est & E). unread Est. injection Est as <-.
      unread E. unfold decision_parse in E. unread_code E. repeat unread E. injection E as <-.
      unread_arrays. split; [|done]. cbn. f_equal. symmetry. object_read.
  - unread E. unread E. unfold parse_state_op in E. unread_code E. repeat unread E. injection E as <-.
    unread_arrays. cbn in Hw. apply bind_Ok in Hw as (op & Hop & [Hb _]%guard_Ok). cbn in Hop.
    split; [|done]. cbn. rewrite Hop. cbn. rewrite Hb. f_equal. symmetry. object_read.
  - unread E. unread E. unfold parse_issue_status in E. unread_code E. repeat unread E. injection E as <-.
    unread_arrays. cbn in Hw. apply bind_Ok in Hw as (op & Hop & [Hb _]%guard_Ok). cbn in Hop.
    split; [|done]. cbn. rewrite Hop. cbn. rewrite Hb. f_equal. symmetry. object_read.
  - repeat unread E. unfold judgment_parse in E. unread_code E. repeat unread E. injection E as <-.
    unread_arrays. cbn in Hw. apply guard_Ok in Hw as [Hb _]. split.
    + cbn. rewrite Hb. f_equal. symmetry. object_read.
    + apply orb_false_iff in Hb. done.
  - unread E. unread E. unfold target_parse in E. unread_code E. repeat unread E. injection E as <-.
    unread_arrays. split; [|done]. cbn. f_equal. symmetry. object_read.
Qed.

Ltac read_code x :=
  apply code_bind; [keys_nodup|]; exists x; split; [|split; [reflexivity|]].
Ltac read_arrays Hs :=
  match goal with
  | |- mbind _ (parse_field parse_artifacts _ ?k) = Ok _ =>
      apply bind_Ok; eexists; split;
        [apply parse_field_Ok; eexists; split; [eassumption|];
         apply parse_artifacts_exact; [by eapply (sorted_field _ k)|by split]|]
  | |- mbind _ (parse_field parse_spans _ ?k) = Ok _ =>
      apply bind_Ok; eexists; split;
        [apply parse_field_Ok; eexists; split; [eassumption|];
         apply parse_spans_exact; [by eapply (sorted_field _ k)|by split]|]
  end.
Ltac read_all Hs := repeat first [read_arrays Hs|read_step].

Lemma payload_reads_parse v p :
  sorted_json v → payload_reads v p → payload_wf p → parse_payload v = Ok p.
Proof.
  intros Hs Hr Hwf. unfold parse_payload. destruct p as [e|r|d|c|r|r]; cbn in Hr, Hwf.
  - destruct Hwf as [Hsp Har]. injection Hr as <-. with_fields Hs.
    read_all Hs. read_code KSentinel; [set_solver|]. read_all Hs.
    read_code (ev_verdict e); [destruct (ev_verdict e); set_solver|]. read_all Hs. by destruct e.
  - destruct r as [decision artifacts policy]. destruct Hwf as [Har Hst]. cbn in Har, Hst.
    destruct policy as [stamp|].
    + destruct Hr as (w & Hw & ->). with_fields Hs. read_all Hs. read_code KFirewall; [set_solver|].
      match goal with G : object_get "policy" _ = _ |- _ => rewrite G end.
      apply bind_Ok. exists (Some stamp). split.
      { read_all Hs. by rewrite Hw. }
      read_all Hs. read_code decision; [destruct decision; set_solver|]. by read_all Hs.
    + injection Hr as <-. with_fields Hs. read_all Hs. read_code KFirewall; [set_solver|].
      assert (Hno : object_get "policy" o = None).
      { unfold o. rewrite object_get_sorted by keys_nodup. done. }
      rewrite Hno. apply bind_Ok. exists None. split; [by read_all Hs|].
      read_all Hs. read_code decision; [destruct decision; set_solver|]. by read_all Hs.
  - destruct Hwf as (Har & Hop & Hb). apply bind_Ok in Hr as (op & _ & Hr). rewrite Hb in Hr.
    injection Hr as <-. with_fields Hs. read_all Hs. read_code KCompactState; [set_solver|].
    read_all Hs. read_code (cs_op d); [done|]. read_all Hs. by destruct d.
  - destruct Hwf as (Hsp & Hst & Hb). apply bind_Ok in Hr as (st & _ & Hr). rewrite Hb in Hr.
    injection Hr as <-. with_fields Hs. read_all Hs. read_code KIssueCard; [set_solver|].
    read_all Hs. read_code (ic_status c); [done|]. read_all Hs. by destruct c.
  - destruct Hwf as (Har & Hf & Ht). rewrite Hf, Ht in Hr. injection Hr as <-. with_fields Hs.
    read_all Hs. read_code KDependency; [set_solver|]. read_all Hs.
    read_code (dep_judgment r); [destruct (dep_judgment r); set_solver|]. read_all Hs. by destruct r.
  - injection Hr as <-. with_fields Hs. read_all Hs. read_code KEscalation; [set_solver|].
    read_all Hs. read_code (esc_target r); [destruct (esc_target r); set_solver|]. read_all Hs.
    by destruct r.
Qed.

Lemma parse_code_in (all : list string) code :
  NoDup all → code ∈ all → parse_code id all code = Ok code.
Proof.
  intros Hnd Hin. apply parse_code_Ok; [|done].
  assert (Hid : map id all = all) by apply map_id. by rewrite Hid.
Qed.

(** *** What is written is sorted *)

Lemma string_sorted t : sorted_json (VString t).
Proof. done. Qed.
Lemma number_sorted n : sorted_json (jnum n).
Proof. done. Qed.
#[local] Hint Resolve string_sorted number_sorted : kit.

Ltac json_sorted :=
  apply jobject_sorted; [keys_nodup|]; repeat (apply Forall_cons; split); cbn [snd];
  eauto with kit.

Lemma span_sorted s : sorted_json (span_value s).
Proof. unfold span_value. json_sorted. Qed.
Lemma aref_sorted a : sorted_json (aref_value a).
Proof. unfold aref_value. json_sorted. Qed.
Lemma stamp_sorted s : sorted_json (stamp_value s).
Proof. unfold stamp_value. json_sorted. Qed.
Lemma map_sorted {A} (f : A → Value) l : (∀ x, sorted_json (f x)) → sorted_json (Array (map f l)).
Proof. intros Hf. apply array_sorted, Forall_map, Forall_forall. auto. Qed.
Lemma spans_sorted l : sorted_json (spans_value l).
Proof. apply map_sorted, span_sorted. Qed.
Lemma arefs_sorted l : sorted_json (arefs_value l).
Proof. apply map_sorted, aref_sorted. Qed.
#[local] Hint Resolve stamp_sorted spans_sorted arefs_sorted : kit.

Lemma completeness_sorted c : sorted_json (completeness_value c).
Proof.
  destruct c as [|c]; [done|]. unfold completeness_value.
  assert (sorted_json (jobject [("seq", jnum (cont_seq c)); ("token", VString (cont_token c))])) by json_sorted.
  json_sorted.
Qed.
#[local] Hint Resolve completeness_sorted : kit.

Lemma payload_sorted p v : payload_to_value p = Ok v → sorted_json v.
Proof.
  destruct p as [e|[d ar [st|]]|d|c|r|r]; cbn.
  - intros [= <-]. json_sorted.
  - intros [= <-]. json_sorted.
  - intros [= <-]. json_sorted.
  - intros (? & _ & [_ [= <-]]%guard_Ok)%bind_Ok. json_sorted.
  - intros (? & _ & [_ [= <-]]%guard_Ok)%bind_Ok. json_sorted.
  - intros [_ [= <-]]%guard_Ok. json_sorted.
  - intros [= <-]. json_sorted.
Qed.

Lemma output_sorted o v : output_to_value o = Ok v → sorted_json v.
Proof.
  intros (p & Hp & [= <-])%bind_Ok. apply payload_sorted in Hp. json_sorted.
Qed.

(** A well-formed payload is written. *)
Lemma payload_to_value_total p : payload_wf p → ∃ v, payload_to_value p = Ok v.
Proof.
  intros Hwf. destruct p as [e|r|d|c|r|r]; cbn in Hwf |- *; eauto.
  - destruct Hwf as (_ & Ho & ->).
    rewrite (parse_code_in ["add"; "set"; "del"]) by (keys_nodup || done). cbn. eauto.
  - destruct Hwf as (_ & Ho & ->).
    rewrite (parse_code_in ["open"; "blocked"; "done"]) by (keys_nodup || done). cbn. eauto.
  - destruct Hwf as (_ & -> & ->). cbn. eauto.
Qed.

(** What the derived reader of a stamp documents: it reads what was written. *)
Class StampJsonLaws : Prop := stamp_wire_value s :
  stamp_wire (stamp_value s) = Some (stamp_schema_version s, stamp_reason s, stamp_identity s).
Context `{!StampJsonLaws}.

Lemma payload_reads_own p v : payload_wf p → payload_to_value p = Ok v → payload_reads v p.
Proof.
  destruct p as [e|[d ar [st|]]|x|c|r|r]; try done. cbn. intros [_ [Hv Hd]] [= <-].
  exists (stamp_value st). split; [|done]. rewrite stamp_wire_value. destruct st as [n r i].
  cbn in *. subst n. by rewrite Hd.
Qed.

(** The document an output is read from. *)
Definition output_reads (v : Value) (o : TypedOutput) : Prop :=
  ∃ payload, payload_reads payload (out_payload o) ∧
    v = jobject [("schema_version", jnum (out_schema_version o));
                 ("node", VString (node_str (payload_kind (out_payload o))));
                 ("completeness", completeness_value (out_completeness o)); ("payload", payload)].

Lemma parse_typed_value_exact v o :
  sorted_json v → parse_typed_value v = Ok o ↔ output_wf o ∧ output_reads v o.
Proof.
  intros Hs. split.
  - intros E. unfold parse_typed_value in E. unread E. apply v_object_Some in Ho as ->.
    apply guard_Ok in E as [_ E]. unread E. apply guard_Ok in E as [Hv E]. apply negb_false_iff, Z.eqb_eq in Hv as ->.
    repeat unread E. unfold node_parse in E. unread_code E. repeat unread E.
    apply guard_Ok in E as [Hk' E]. apply negb_false_iff, bool_decide_eq_true in Hk' as <-.
    unfold TypedOutput_new in E. apply bind_Ok in E as (pv & Hpv & [= <-]).
    apply parse_completeness_exact in Hp as [-> Hc]; [|by eapply sorted_field].
    eapply parse_payload_reads in Hp0 as [Hr Hwf]; [|by eapply sorted_field|done].
    split; [done|]. exists w0. split; [done|]. object_read.
  - intros [(Hv & Hp & Hc) (pv & Hr & ->)]. destruct o as [n p c].
    cbn [out_schema_version out_payload out_completeness] in *. subst n. with_fields Hs.
    unfold parse_typed_value. read_step.
    assert (Hno : has_key "rationale" o = false).
    { apply not_true_iff_false. rewrite has_key_elem. unfold o. intros Hin.
      rewrite (Permutation_map (@fst string Value) (sort_by_key_Permutation fst _)) in Hin. cbn in Hin. set_solver. }
    rewrite Hno. read_step. cbn [negb Z.eqb]. apply guard_Ok. split; [done|].
    read_all Hs. read_code (payload_kind p); [destruct p; set_solver|].
    apply bind_Ok. exists c. split.
    { apply parse_field_Ok. eexists. split; [done|]. apply parse_completeness_exact; [|done].
      by eapply (sorted_field _ "completeness"). }
    apply bind_Ok. exists p. split.
    { apply parse_field_Ok. eexists. split; [done|]. apply payload_reads_parse; [|done..].
      by eapply (sorted_field _ "payload"). }
    rewrite bool_decide_eq_true_2 by done. cbn [negb]. unfold TypedOutput_new.
    destruct (payload_to_value_total p Hp) as [w ->]. done.
Qed.

Lemma to_json_total o : output_wf o → ∃ v, output_to_value o = Ok v ∧ to_json o = Ok (compact v).
Proof.
  intros (_ & Hp & _). unfold to_json, output_to_value.
  destruct (payload_to_value_total _ Hp) as [v ->]. cbn. eauto.
Qed.

Lemma output_reads_own o v : output_wf o → output_to_value o = Ok v → output_reads v o.
Proof.
  intros (_ & Hp & _) (pv & Hpv & [= <-])%bind_Ok. exists pv. split; [|done].
  by apply payload_reads_own.
Qed.

Lemma parse_own o v : output_wf o → output_to_value o = Ok v → parse_typed_value v = Ok o.
Proof.
  intros Hwf Hv. apply parse_typed_value_exact; [by eapply output_sorted|].
  split; [done|by apply output_reads_own].
Qed.


(** ** Exchange *)

(** [o] is complete and within the budget of its node. *)
Definition admitted_output (o : TypedOutput) : Prop :=
  out_completeness o = Complete ∧ ∃ v, output_to_value o = Ok v ∧
  (estimate_output_tokens (compact v) ≤ node_output_token_budget (payload_kind (out_payload o)))%Z.

Lemma admit_for_reducer_Ok o p :
  admit_for_reducer o = Ok p ↔ admitted_output o ∧ p = out_payload o.
Proof.
  unfold admit_for_reducer, admitted_output, to_json. destruct (out_completeness o); cbn; [|naive_solver].
  rewrite bind_Ok. split.
  - intros (text & Et & E). destruct (output_to_value o) as [v|]; [|done]. injection Et as <-.
    apply guard_Ok in E as [Hb [= <-]]. apply Z.ltb_ge in Hb. eauto.
  - intros [(_ & v & Hv & Hb) ->]. rewrite Hv. eexists. split; [done|].
    apply guard_Ok. split; [by apply Z.ltb_ge|done].
Qed.

Definition envelope (from to : WorkflowExchange) (output : Value) : Value :=
  jobject [("from", VString (exchange_str from)); ("to", VString (exchange_str to)); ("output", output)].

Lemma consume_bytes_Ok self from bytes p :
  consume_bytes self from bytes = Ok p ↔
  ∃ o v, json_parse bytes = Some (envelope from self v) ∧ output_reads v o ∧ output_wf o ∧
         admitted_output o ∧ p = out_payload o.
Proof.
  split.
  - intros E. unfold consume_bytes in E. apply bind_Ok in E as (w & Hw%ok_or_Ok & E).
    pose proof (parse_sorted _ _ Hw) as Hs.
    unread E. apply v_object_Some in Ho as ->. apply guard_Ok in E as [_ E].
    unread E. unread E. apply guard_Ok in E as [Hf E]. apply negb_false_iff, str_eqb_eq in Hf as ->.
    unread E. apply guard_Ok in E as [Ht E]. apply negb_false_iff, str_eqb_eq in Ht as ->.
    unread E. apply parse_typed_value_exact in Hp as [Hwf Hr]; [|by eapply sorted_field].
    apply admit_for_reducer_Ok in E as [Ha ->]. exists x, w. rewrite Hw. split_and!; [|done..].
    f_equal. unfold envelope. object_read.
  - intros (o & v & Hj & Hr & Hwf & Ha & ->). unfold consume_bytes. rewrite Hj.
    pose proof (parse_sorted _ _ Hj) as Hs. unfold envelope in *. with_fields Hs.
    cbn [ok_or mbind result_bind]. read_step.
    assert (Hno : has_key "rationale" o0 = false).
    { apply not_true_iff_false. rewrite has_key_elem. unfold o0. intros Hin.
      rewrite (Permutation_map (@fst string Value) (sort_by_key_Permutation fst _)) in Hin. cbn in Hin. set_solver. }
    rewrite Hno. read_step. read_step. apply guard_Ok. split; [by apply negb_false_iff, str_eqb_eq|].
    read_step. apply guard_Ok. split; [by apply negb_false_iff, str_eqb_eq|].
    apply bind_Ok. exists o. split; [|by apply admit_for_reducer_Ok].
    apply parse_field_Ok. eexists. split; [done|]. apply parse_typed_value_exact; [|done].
    by eapply (sorted_field _ "output").
Qed.

Lemma envelope_bytes_Ok from to o bytes :
  envelope_bytes from to o = Ok bytes ↔
  admitted_output o ∧ ∃ v, output_to_value o = Ok v ∧ bytes = compact (envelope from to v) ∧
    (str_len bytes ≤ MAX_EXCHANGE_ENVELOPE_BYTES)%Z.
Proof.
  unfold envelope_bytes. fold (envelope from to). rewrite bind_Ok. split.
  - intros (p & [Ha ->]%admit_for_reducer_Ok & (v & Hv & [Hb%Z.ltb_ge Eb]%guard_Ok)%bind_Ok).
    assert (bytes = compact (envelope from to v)) as -> by (symmetry; by apply Ok_inj in Eb).
    split; [done|]. by exists v.
  - intros [Ha (v & Hv & -> & Hb)]. eexists. rewrite admit_for_reducer_Ok. split; [done|].
    apply bind_Ok. exists v. split; [done|]. apply guard_Ok. split; [by apply Z.ltb_ge|done].
Qed.

Lemma envelope_sorted from to v : sorted_json v → sorted_json (envelope from to v).
Proof. intros Hv. unfold envelope. json_sorted. Qed.

(** An envelope that was made is consumed at its edge. *)
Lemma envelope_consumed from to o bytes :
  output_wf o → envelope_bytes from to o = Ok bytes → consume_bytes to from bytes = Ok (out_payload o).
Proof.
  intros Hwf [Ha (v & Hv & -> & _)]%envelope_bytes_Ok. apply consume_bytes_Ok. exists o, v.
  split_and!; [|by apply output_reads_own|done..]. apply parse_compact.
  by eapply envelope_sorted, output_sorted.
Qed.

(** *** Through a store that keeps its promise *)

Context `{!Sha256} {S : Type} `{!ArtifactStore S, !ArtifactStoreLaws S}.

(** Pages enough for every envelope that is accepted. *)
Definition envelope_pages : nat := Z.to_nat (MAX_EXCHANGE_ENVELOPE_BYTES + 2).

Lemma slice_start bytes n : (0 ≤ n ≤ str_len bytes)%Z → str_len (slice bytes 0 n) = n.
Proof.
  intros Hn. pose proof (slice_split bytes 0 n (str_len bytes) ltac:(lia) ltac:(lia) ltac:(lia)) as E.
  rewrite slice_all in E. unfold slice, str_len in *. rewrite substring_length by lia. lia.
Qed.

Lemma page_of_empty m lim :
  (0 < m)%Z → (0 < lim)%Z → page_of m "" (mk_PageRequest 0 lim) = Ok (mk_ArtifactPage "" None).
Proof.
  intros Hm Hl. unfold page_of. cbn [offset limit]. change (str_len "") with 0%Z.
  replace (Z.min (Z.min lim m) (0 - 0)) with 0%Z by lia. done.
Qed.

Lemma read_exchange_rest fuel store id bytes offset :
  store_wf store → visible id → stored store id = Some bytes →
  (offset = 0 ∨ 0 ≤ offset < str_len bytes)%Z → (offset ≤ MAX_EXCHANGE_ENVELOPE_BYTES)%Z →
  (MAX_EXCHANGE_ENVELOPE_BYTES + 1 - offset < Z.of_nat fuel)%Z →
  read_exchange_from fuel store id (slice bytes 0 offset) offset =
  Some (if (str_len bytes <=? MAX_EXCHANGE_ENVELOPE_BYTES)%Z then Ok bytes else Err InvalidJson).
Proof.
  intros Hwf Hv Hs. revert offset. induction fuel as [|fuel IH]; intros offset Ho Hm Hf; [lia|].
  cbn [read_exchange_from]. rewrite read_law, Hs by done.
  destruct (decide (str_len bytes = 0%Z)) as [Hz|Hz].
  { assert (offset = 0)%Z as -> by (unfold str_len in *; lia).
    assert (bytes = "") as -> by (destruct bytes; [done|]; unfold str_len in Hz; cbn in Hz; lia).
    rewrite page_of_empty by (done || by apply page_limit_positive). done. }
  assert (Hlen : (0 < str_len bytes)%Z) by (unfold str_len in *; lia).
  destruct (page_of_inside (page_limit store) bytes offset 65536) as (stop & Hstop & -> & _);
    [by apply page_limit_positive|lia|lia|by eapply stored_size|].
  cbn [page_bytes page_next_offset]. rewrite slice_split by lia.
  rewrite slice_start by lia. destruct (Z.ltb_spec MAX_EXCHANGE_ENVELOPE_BYTES stop).
  - destruct (Z.leb_spec (str_len bytes) MAX_EXCHANGE_ENVELOPE_BYTES); [lia|done].
  - destruct (Z.ltb_spec stop (str_len bytes)).
    + destruct (Z.ltb_spec offset stop); [|lia]. apply IH; lia.
    + assert (stop = str_len bytes) as -> by lia. rewrite slice_all.
      destruct (Z.leb_spec (str_len bytes) MAX_EXCHANGE_ENVELOPE_BYTES); [done|lia].
Qed.

Lemma consume_stored self from store id bytes :
  store_wf store → visible id → stored store id = Some bytes →
  consume envelope_pages self from store id =
  Some (if (str_len bytes <=? MAX_EXCHANGE_ENVELOPE_BYTES)%Z
        then consume_bytes self from bytes else Err InvalidJson).
Proof.
  intros Hwf Hv Hs. unfold consume.
  assert (Hm : (0 < MAX_EXCHANGE_ENVELOPE_BYTES)%Z) by by vm_compute.
  pose proof (read_exchange_rest envelope_pages store id bytes 0 Hwf Hv Hs ltac:(auto) ltac:(lia)
    ltac:(unfold envelope_pages; lia)) as E.
  assert (Hz : slice bytes 0 0 = "") by by destruct bytes. rewrite Hz in E. rewrite E. cbn.
  by destruct (str_len bytes <=? MAX_EXCHANGE_ENVELOPE_BYTES)%Z.
Qed.

End exact.

(** ** Example *)

Section example.
#[local] Existing Instance ex_json_Z.
#[local] Existing Instance ex_json_Z_laws.
#[local] Existing Instance ex_integers.
#[local] Existing Instance ex_read.
#[local] Existing Instance ex_read_laws.
#[local] Instance ex_hash64 : Sha256 := λ s,
  String.substring 0 32 (s +:+ "................................").

Definition all_reasons : list FirewallReason :=
  [ReasonSchema; ReasonPolicy; ReasonProvenance; ReasonGoal; ReasonTool; ReasonCapability;
   ReasonScope; ReasonDestination; ReasonArguments; ReasonSecret; ReasonSideEffect;
   ReasonStaleTarget; ReasonLowRisk; ReasonSemantic; ReasonHumanApproval].

#[local] Instance ex_stamps : StampJson := λ v,
  o ← v_object v;
  if negb (exact_keys o ["schema_version"; "reason"; "identity"]) then None
  else
    version ← object_get "schema_version" o ≫= (λ n, match n with Number z => Some (z : Z) | _ => None end);
    code ← object_get "reason" o ≫= v_str;
    reason ← List.find (λ r, str_eqb (reason_code r) code) all_reasons;
    identity ← object_get "identity" o ≫= v_str;
    Some (version, reason, identity).
#[local] Instance ex_stamps_laws : StampJsonLaws.
Proof.
  intros s. unfold stamp_wire, ex_stamps, stamp_value, jobject. cbn [v_object mbind option_bind].
  rewrite exact_keys_jobject by (keys_nodup || done). cbn [negb].
  rewrite !object_get_sorted by keys_nodup. cbn. by destruct s as [n [] i].
Qed.

Definition ex_digest64 : string :=
  "aaaaaaaaaaaaaaaaaaaaaaaaaaaaaaaaaaaaaaaaaaaaaaaaaaaaaaaaaaaaaaaa".
Definition ex_output : TypedOutput := mk_TypedOutput 1
  (PSentinel (mk_SentinelEvidence Suspicious [mk_SourceSpan ex_digest64 3 9] [])) Complete.
Definition ex_partial : TypedOutput := mk_TypedOutput 1 (out_payload ex_output)
  (Truncated (mk_Continuation 2 "more")).
Definition ex_memory : InMemoryArtifactStore := InMemoryArtifactStore_new 10000 100 0.

Lemma ex_output_wf : output_wf ex_output.
Proof.
  split; [done|]. split; [|done]. split; [|done]. apply Forall_cons. split; [|done].
  split_and!; by vm_compute.
Qed.


Definition ex_published : InMemoryArtifactStore * result TypedOutputError ArtifactId :=
  publish XReview XMultiHop ex_output ex_memory.
Definition ex_id : ArtifactId := match snd ex_published with Ok id => id | Err _ => "" end.

End example.
