(* ===== verification/PureTransform.v ===== *)
(** * Pure transforms

    [workflow-runtime/src/pure_transform.rs] and [execution.rs]: a bounded JSON
    transform by a WebAssembly module without host functions, and its execution
    in a run - identities checked, the controller asked before and after, the
    output staged and only then published.  The interpreter is third-party code:
    the class [Wasm].  The two times the run samples its clock are arguments. *)

From stdpp Require Import pretty.
From S2P Require Import Prelude Runtime Hashing Json JsonRead Text Policy Controller Session Firewall Artifact.
From S2P Require Import TypedProtocol.

Definition MAX_MEMORY_PAGES : Z := 64.
Definition WASM_PAGE_BYTES : Z := 64 * 1024.
(*| runtime/pure_transform.rs 43-43 PureTransformRequest::MAX_MODULE_BYTES *)
Definition MAX_MODULE_BYTES : Z := 1024 * 1024.
(*| runtime/pure_transform.rs 45-45 PureTransformRequest::MAX_JSON_BYTES *)
Definition MAX_JSON_BYTES : Z := 64 * 1024.
(*| runtime/pure_transform.rs 77-77 PureTransformBackend::MAX_FUEL *)
Definition MAX_FUEL : Z := 1000000.

(** The interpreter: decoding and validating a module with fuel metering,
    instantiating it without host definitions in a store of limited memory and
    fuel, its exported memory and its typed export [transform]. *)
Class Wasm := {
  WasmModule : Type;
  WasmInstance : Type;
  wasm_decode : string → option WasmModule;
  wasm_imports : WasmModule → bool;
  wasm_accepts_fuel : Z → bool;
  wasm_start : Z → Z → WasmModule → option WasmInstance;
  wasm_memory : WasmInstance → bool;
  wasm_write : WasmInstance → Z → string → option WasmInstance;
  wasm_transform : WasmInstance → bool;
  wasm_call : WasmInstance → Z → Z → option (WasmInstance * (Z * Z));
  wasm_read : WasmInstance → Z → Z → option string
}.

(** A read fills the buffer. *)
Class WasmLaws `{Wasm} : Prop :=
  wasm_read_length i pointer length bytes :
    wasm_read i pointer length = Some bytes → str_len bytes = length.

(*| runtime/pure_transform.rs 162-169 PureTransformRequestError *)
Inductive PureTransformRequestError := ModuleTooLarge | RequestInputTooLarge | JsonSerializationFailed.

(*| runtime/pure_transform.rs 186-215 PureTransformError *)
Inductive PureTransformError :=
| BackendCapabilitiesMissing (missing : list SandboxCapability)
| MissingModule | InvalidModule | UnsupportedImports | InstantiationFailed | MissingMemoryExport
| InvalidTransformExport | MemoryAccessFailed | FuelConfigurationFailed | TransformFailed
| InputTooLarge | InvalidOutputRange | OutputTooLarge | InvalidJsonOutput.

Section transform.
Context `{JsonText, !JsonRead, !Wasm}.

(*| runtime/pure_transform.rs 35-39 PureTransformRequest *)
Record PureTransformRequest := mk_PureTransformRequest {
  rq_module : string; rq_input : string; rq_requested : RequestedCapabilities }.

(** Serializing a [Value] to bytes does not fail. *)
(*| runtime/pure_transform.rs 48-67 PureTransformRequest::new *)
Definition PureTransformRequest_new (module : string) (input : Value) (requested : RequestedCapabilities) :
    result PureTransformRequestError PureTransformRequest :=
  if (MAX_MODULE_BYTES <? str_len module)%Z then Err ModuleTooLarge
  else
    let input := compact input in
    if (MAX_JSON_BYTES <? str_len input)%Z then Err RequestInputTooLarge
    else Ok (mk_PureTransformRequest module input requested).

Definition some_or {A : Type} (e : PureTransformError) (o : option A) : result PureTransformError A :=
  match o with Some x => Ok x | None => Err e end.

(** The backend has no host capabilities; a length up to [MAX_JSON_BYTES] is an
    [i32], and an [i32] that is not negative a [usize]. *)
(*| runtime/pure_transform.rs 87-151 PureTransformBackend::execute *)
Definition backend_execute (request : PureTransformRequest) : result PureTransformError Value :=
  map_err BackendCapabilitiesMissing (verify_sandbox_capabilities (rq_requested request) ∅);;
  if str_is_empty (rq_module request) then Err MissingModule
  else
    module ← some_or InvalidModule (wasm_decode (rq_module request));
    if wasm_imports module then Err UnsupportedImports
    else if negb (wasm_accepts_fuel MAX_FUEL) then Err FuelConfigurationFailed
    else
      instance ← some_or InstantiationFailed
        (wasm_start (MAX_MEMORY_PAGES * WASM_PAGE_BYTES) MAX_FUEL module);
      if negb (wasm_memory instance) then Err MissingMemoryExport
      else
        instance ← some_or MemoryAccessFailed (wasm_write instance 0 (rq_input request));
        if negb (wasm_transform instance) then Err InvalidTransformExport
        else if (2 ^ 31 <=? str_len (rq_input request))%Z then Err InputTooLarge
        else
          '(instance, (pointer, length)) ←
            some_or TransformFailed (wasm_call instance 0 (str_len (rq_input request)));
          if (pointer <? 0)%Z || (length <? 0)%Z then Err InvalidOutputRange
          else if (MAX_JSON_BYTES <? length)%Z then Err OutputTooLarge
          else
            output ← some_or MemoryAccessFailed (wasm_read instance pointer length);
            some_or InvalidJsonOutput (json_parse output).

(** ** Plans *)

Context `{!Sha256}.

(*| runtime/execution.rs 15-15 PURE_TRANSFORM_PLAN_VERSION_V1 *)
Definition PURE_TRANSFORM_PLAN_VERSION_V1 : Z := 1.
(*| runtime/execution.rs 17-17 PURE_TRANSFORM_BINDING_ID *)
Definition PURE_TRANSFORM_BINDING_ID : string := "pure-transform".
(*| runtime/execution.rs 19-19 PURE_TRANSFORM_BINDING_VERSION *)
Definition PURE_TRANSFORM_BINDING_VERSION : string := "1".

(*| runtime/execution.rs 304-313 PureTransformPlanError *)
Inductive PureTransformPlanError :=
| InvalidIdentity | PlanMissingModule | PlanDigestMismatch | PlanRequest (e : PureTransformRequestError).

(*| runtime/execution.rs 23-28 PureTransformBinding *)
Record PureTransformBinding := mk_PureTransformBinding {
  workflow_id : string; workflow_version : string; module_digest : string; module_bytes : string }.

(*| runtime/execution.rs 284-286 digest *)
Definition digest (bytes : string) : string := "sha256:" +:+ encode_hex (sha256 bytes).
(*| runtime/execution.rs 288-290 valid_identity *)
Definition valid_identity (value : string) : bool :=
  negb (str_is_empty value) && str_all (λ byte, negb (is_ascii_control byte)) value.
(*| runtime/execution.rs 292-300 valid_digest *)
Definition valid_digest (value : string) : bool :=
  match strip_prefix "sha256:" value with
  | Some hex => (str_len hex =? 64)%Z && str_all is_lower_hex hex
  | None => false
  end.

(*| runtime/execution.rs 44-72 PureTransformBinding::new *)
Definition PureTransformBinding_new (workflow_id workflow_version module_digest module : string) :
    result PureTransformPlanError PureTransformBinding :=
  if negb (valid_identity workflow_id) || negb (valid_identity workflow_version) ||
     negb (valid_digest module_digest)
  then Err InvalidIdentity
  else if str_is_empty module then Err PlanMissingModule
  else if negb (str_eqb module_digest (digest module)) then Err PlanDigestMismatch
  else Ok (mk_PureTransformBinding workflow_id workflow_version module_digest module).

(*| runtime/execution.rs 107-113 PureTransformPlanV1 *)
Record PureTransformPlanV1 := mk_PureTransformPlan {
  binding : PureTransformBinding; plan_input : Value; plan_requested : RequestedCapabilities;
  input_digest : string; input_bytes : Z }.

(*| runtime/execution.rs 134-150 PureTransformPlanV1::new *)
Definition PureTransformPlan_new (binding : PureTransformBinding) (input : Value)
    (requested : RequestedCapabilities) : result PureTransformPlanError PureTransformPlanV1 :=
  let serialized := compact input in
  map_err PlanRequest (PureTransformRequest_new (module_bytes binding) input requested);;
  Ok (mk_PureTransformPlan binding input requested (digest serialized) (str_len serialized)).

(*| runtime/execution.rs 158-167 PureTransformPlanV1::render *)
Definition render (plan : PureTransformPlanV1) : string :=
  String.concat newline
    ["plan_version=" +:+ pretty PURE_TRANSFORM_PLAN_VERSION_V1;
     "backend=" +:+ PURE_TRANSFORM_BINDING_ID;
     "binding_version=" +:+ PURE_TRANSFORM_BINDING_VERSION;
     "workflow_id=" +:+ workflow_id (binding plan);
     "workflow_version=" +:+ workflow_version (binding plan);
     "module_digest=" +:+ module_digest (binding plan);
     "input_digest=" +:+ input_digest plan;
     "input_bytes=" +:+ pretty (input_bytes plan);
     "artifact=sha256(serialized-json-output)"; "execution=not_started"; ""].

(** ** Execution *)

(*| runtime/execution.rs 343-367 PureTransformExecutionError *)
Inductive PureTransformExecutionError :=
| WorkdirRunMismatch
| ControllerRunMismatch
| ControllerTermination (termination : RunTermination)
| IdentityRejection (mismatch : PureTransformExecutionError) (termination : RunTermination)
| ExecutionRequest (e : PureTransformRequestError)
| Backend (e : PureTransformError)
| OutputSerialization
| EmptyOutput
| ExecutionArtifact (e : ArtifactErrorKind).

(*| runtime/execution.rs 277-282 failed *)
Definition failed (context : RunContext) (e : PureTransformExecutionError) :
    RunResult ArtifactId PureTransformExecutionError :=
  mk_RunResult (ctx_run_id context) (OutcomeFailed e).
(*| runtime/execution.rs 264-275 terminal_failure *)
Definition terminal_failure (context : RunContext) (t : RunTermination) :
    RunResult ArtifactId PureTransformExecutionError :=
  mk_RunResult (ctx_run_id context) (into_outcome (termination_cause t) (ControllerTermination t)).
(*| runtime/execution.rs 244-262 identity_failure *)
Definition identity_failure (context : RunContext) (controller : RunController)
    (mismatch : PureTransformExecutionError) : RunResult ArtifactId PureTransformExecutionError :=
  match into_rejection_termination controller with
  | Some t => mk_RunResult (ctx_run_id context)
                (into_outcome (termination_cause t) (IdentityRejection mismatch t))
  | None => failed context mismatch
  end.

Context `{!StampJson, !IntJson}.

(** What is published for the backend's output: a workflow of the exchange wraps
    a typed output in its envelope. *)
(*| runtime/execution.rs 209-221 PureTransformPlanV1::execute *)
Definition published_output (plan : PureTransformPlanV1) (output : Value) :
    result PureTransformExecutionError string :=
  let output := compact output in
  if str_is_empty output then Err EmptyOutput
  else match encode_named_output (workflow_id (binding plan)) output with
  | Ok (Some wrapped) => Ok wrapped
  | Ok None => Ok output
  | Err _ => Err OutputSerialization
  end.

(** The bytes to publish, before anything is staged. *)
(*| runtime/execution.rs 197-221 PureTransformPlanV1::execute *)
Definition produce (plan : PureTransformPlanV1) : result PureTransformExecutionError string :=
  request ← map_err ExecutionRequest
    (PureTransformRequest_new (module_bytes (binding plan)) (plan_input plan) (plan_requested plan));
  output ← map_err Backend (backend_execute request);
  published_output plan output.

Context {S : Type} `{!ArtifactStore S, !StagingStore S}.

(*| runtime/execution.rs 170-241 PureTransformPlanV1::execute *)
Definition execute (plan : PureTransformPlanV1) (context : RunContext) (controller : RunController)
    (elapsed1 elapsed2 : Z) (workdir_run : RunId) :
    S → S * RunResult ArtifactId PureTransformExecutionError := λ store,
  if negb (bool_decide (ctx_run_id context = workdir_run))
  then (store, identity_failure context controller WorkdirRunMismatch)
  else if negb (belongs_to controller context)
  then (store, identity_failure context controller ControllerRunMismatch)
  else match preflight_finish elapsed1 controller with
  | (_, Err t) => (store, terminal_failure context t)
  | (controller, Ok _) =>
      match produce plan with
      | Err e => (store, failed context e)
      | Ok output =>
          match stage output store with
          | (store, Err e) => (store, failed context (ExecutionArtifact e))
          | (store, Ok staged) =>
              match finish elapsed2 controller with
              | Err t => (discard staged store, terminal_failure context t)
              | Ok _ =>
                  match commit staged store with
                  | (store, Ok id) => (store, mk_RunResult (ctx_run_id context) (OutcomeCompleted id))
                  | (store, Err e) => (store, failed context (ExecutionArtifact e))
                  end
              end
          end
      end
  end.

(** ** What the execution guarantees *)

Lemma into_outcome_not_completed {T D : Type} (c : RunTerminalCause) (d : D) x :
  into_outcome c d ≠ OutcomeCompleted (T := T) x.
Proof. by destruct c. Qed.

Lemma some_or_Ok {A} e (o : option A) x : some_or e o = Ok x → o = Some x.
Proof. destruct o; cbn; congruence. Qed.

(** A boundary that the controller accepts: not stopped, no call open, time has
    not gone back and no deadline of the run has been reached. *)
Definition in_time (elapsed : Z) (c : RunController) : Prop :=
  terminal_cause c = None ∧ active_tool_call c = None ∧ (last_elapsed c ≤ elapsed)%Z ∧
  ∀ d k, (d, k) ∈ deadlines c → (elapsed < d)%Z.

Lemma preflight_finish_Ok elapsed c c' :
  preflight_finish elapsed c = (c', Ok tt) →
  in_time elapsed c ∧ c' = set_last_elapsed elapsed c.
Proof.
  intros E. destruct (controller_success_in_time (PreflightFinish elapsed) c c' E) as (Hl & _ & Hd).
  unfold preflight_finish, mbind, method_bind in E.
  destruct (terminal_cause c) eqn:Ht.
  { unfold check_boundary in E. by rewrite Ht in E. }
  rewrite (check_boundary_running _ _ Ht) in E. case_decide as Hlt.
  { by rewrite fail_with_running in E. }
  destruct (reached_timeout c elapsed); [by rewrite fail_with_running in E|].
  unfold gets in E. destruct (is_active (set_last_elapsed elapsed c)) eqn:Ha.
  { unfold fail_with, terminate in E. cbn in E. by rewrite Ht in E. }
  injection E as <-. unfold is_active in Ha. apply bool_decide_eq_false in Ha.
  rewrite <- eq_None_not_Some in Ha. by split; [split_and!|].
Qed.

(** A backend that succeeds was asked for no host capability, its module imports
    nothing, and its answer is the JSON read from at most [MAX_JSON_BYTES] of
    the guest's memory after one call on exactly the request's input. *)
Lemma backend_execute_Ok `{!WasmLaws} request v :
  backend_execute request = Ok v →
  capabilities (rq_requested request) = ∅ ∧
  ∃ m i i1 i2 pointer length output,
    wasm_decode (rq_module request) = Some m ∧ wasm_imports m = false ∧
    wasm_start (MAX_MEMORY_PAGES * WASM_PAGE_BYTES) MAX_FUEL m = Some i ∧
    wasm_write i 0 (rq_input request) = Some i1 ∧
    wasm_call i1 0 (str_len (rq_input request)) = Some (i2, (pointer, length)) ∧
    (0 ≤ pointer)%Z ∧ (0 ≤ length ≤ MAX_JSON_BYTES)%Z ∧
    wasm_read i2 pointer length = Some output ∧ str_len output = length ∧
    json_parse output = Some v.
Proof.
  unfold backend_execute, mbind, result_bind, map_err.
  destruct (verify_sandbox_capabilities (rq_requested request) ∅) eqn:Ev; [|done].
  assert (capabilities (rq_requested request) = ∅) as Hcap.
  { unfold verify_sandbox_capabilities in Ev. case_bool_decide as Hs; [|done].
    apply sorted_names_nil in Hs. set_solver. }
  destruct (str_is_empty _); [done|]. destruct (some_or _ (wasm_decode _)) as [m|] eqn:Em; [|done].
  destruct (wasm_imports m) eqn:Ei; [done|]. destruct (negb (wasm_accepts_fuel _)); [done|].
  destruct (some_or _ (wasm_start _ _ _)) as [i|] eqn:Es; [|done].
  destruct (negb (wasm_memory i)); [done|].
  destruct (some_or _ (wasm_write _ _ _)) as [i1|] eqn:Ew; [|done].
  destruct (negb (wasm_transform i1)); [done|]. destruct (2 ^ 31 <=? _)%Z; [done|].
  destruct (some_or _ (wasm_call _ _ _)) as [[i2 [pointer length]]|] eqn:Ec; [|done].
  destruct (pointer <? 0)%Z eqn:Hp; [done|]. destruct (length <? 0)%Z eqn:Hl; [done|]. cbn [orb].
  destruct (MAX_JSON_BYTES <? length)%Z eqn:Hm; [done|].
  destruct (some_or _ (wasm_read _ _ _)) as [output|] eqn:Er; [|done]. intros Ej.
  apply some_or_Ok in Em, Es, Ew, Ec, Er, Ej. split; [done|].
  exists m, i, i1, i2, pointer, length, output. split_and!; try done; try lia.
  by apply (wasm_read_length _ _ _ _ Er).
Qed.

(** Neither completed nor anything visible changed. *)
Definition unpublished `{!ArtifactStoreLaws S, !StagingStoreLaws S} (s s' : S)
    (r : RunResult ArtifactId PureTransformExecutionError) : Prop :=
  store_wf s' ∧ (∀ i, stored s' i = stored s i) ∧ ∀ id, result_outcome r ≠ OutcomeCompleted id.

Lemma identity_failure_unpublished `{!ArtifactStoreLaws S, !StagingStoreLaws S} (s : S) context controller mismatch :
  store_wf s →
  result_run_id (identity_failure context controller mismatch) = ctx_run_id context ∧
  unpublished s s (identity_failure context controller mismatch).
Proof.
  intros Hwf. unfold identity_failure. destruct (into_rejection_termination controller); [|done].
  split; [done|]. split_and!; [done..|]. intros i. apply into_outcome_not_completed.
Qed.

Lemma execute_cases `{!ArtifactStoreLaws S, !StagingStoreLaws S} plan context controller e1 e2 workdir_run s s' r :
  store_wf s → execute plan context controller e1 e2 workdir_run s = (s', r) →
  result_run_id r = ctx_run_id context ∧
  (unpublished s s' r ∨
   ∃ c1 c2 output s1 staged id,
     ctx_run_id context = workdir_run ∧ belongs_to controller context = true ∧
     preflight_finish e1 controller = (c1, Ok tt) ∧ preflight_finish e2 c1 = (c2, Ok tt) ∧
     produce plan = Ok output ∧ stage output s = (s1, Ok staged) ∧
     commit staged s1 = (s', Ok id) ∧ result_outcome r = OutcomeCompleted id).
Proof.
  intros Hwf. unfold execute.
  destruct (bool_decide _) eqn:Hw; cbn [negb];
    [apply bool_decide_eq_true in Hw|intros [= <- <-]; by destruct (identity_failure_unpublished s context controller WorkdirRunMismatch Hwf); eauto].
  destruct (belongs_to _ _) eqn:Hb; cbn [negb];
    [|intros [= <- <-]; by destruct (identity_failure_unpublished s context controller ControllerRunMismatch Hwf); eauto].
  destruct (preflight_finish e1 controller) as [c1 [[]|t]] eqn:Hf;
    [|intros [= <- <-]; split; [done|]; left; split_and!; [done..|]; intros ?; apply into_outcome_not_completed].
  destruct (produce plan) as [output|e] eqn:Hp; [|intros [= <- <-]; split; [done|]; by left].
  destruct (stage output s) as [s1 staged] eqn:Hst.
  destruct (stage_law output s s1 staged Hwf Hst) as (Hwf1 & Hv1 & _ & Hpend).
  destruct staged as [staged|e]; [|intros [= <- <-]; split; [done|]; by left].
  unfold finish. destruct (preflight_finish e2 c1) as [c2 [[]|t]] eqn:Hf2; cbn [snd].
  2:{ intros [= <- <-]. split; [done|]. left. destruct (discard_law staged s1 Hwf1) as [? Hd].
      split_and!; [done| |intros ?; apply into_outcome_not_completed]. intros i. by rewrite Hd. }
  destruct (commit staged s1) as [s2 [id|e]] eqn:Hc.
  2:{ destruct (commit_law _ _ _ _ _ Hwf1 (Hpend _ eq_refl) Hc) as (? & _ & Hsame).
      intros [= <- <-]. split; [done|]. left. split_and!; [done| |done]. intros i. by rewrite Hsame. }
  intros [= <- <-]. split; [done|]. right. by exists c1, c2, output, s1, staged, id.
Qed.

Lemma produce_Ok plan output :
  produce plan = Ok output →
  ∃ v, backend_execute (mk_PureTransformRequest (module_bytes (binding plan))
         (compact (plan_input plan)) (plan_requested plan)) = Ok v ∧ published_output plan v = Ok output.
Proof.
  unfold produce, PureTransformRequest_new, mbind, result_bind, map_err.
  destruct (MAX_MODULE_BYTES <? _)%Z; [done|]. destruct (MAX_JSON_BYTES <? _)%Z; [done|].
  destruct (backend_execute _) as [v|]; [|done]. by exists v.
Qed.

(** C21. A transform is published only inside its run and its limits.  Executing
    a plan reports the run's id, and either it completes - then the working
    directory and the controller are of this run, the controller accepted the
    boundary before and after the transform (not stopped, no tool call open, no
    deadline reached at either time), the backend ran the bound module on the
    plan's input without any host capability, and exactly the produced bytes
    became visible under their content id - or nothing visible changed. *)
Theorem pure_transform_publication `{!ArtifactStoreLaws S, !StagingStoreLaws S, !WasmLaws} plan context controller e1 e2
    workdir_run s s' r :
  store_wf s → execute plan context controller e1 e2 workdir_run s = (s', r) →
  store_wf s' ∧ result_run_id r = ctx_run_id context ∧
  ((∀ id, result_outcome r ≠ OutcomeCompleted id) → ∀ i, stored s' i = stored s i) ∧
  ∀ id, result_outcome r = OutcomeCompleted id →
    ctx_run_id context = workdir_run ∧ run_id controller = workdir_run ∧
    limits controller = ctx_limits context ∧ in_time e1 controller ∧
    in_time e2 (set_last_elapsed e1 controller) ∧ capabilities (plan_requested plan) = ∅ ∧
    ∃ v bytes,
      backend_execute (mk_PureTransformRequest (module_bytes (binding plan))
        (compact (plan_input plan)) (plan_requested plan)) = Ok v ∧
      published_output plan v = Ok bytes ∧ id = content_id bytes ∧ stored s' id = Some bytes ∧
      ∀ i, i ≠ id → stored s' i = stored s i.
Proof.
  intros Hwf E. destruct (execute_cases _ _ _ _ _ _ _ _ _ Hwf E) as [Hid [(Hwf' & Hsame & Hn)|
    (c1 & c2 & output & s1 & staged & id & Hw & Hb & Hf1 & Hf2 & Hp & Hst & Hc & Ho)]].
  { split_and!; [done..|]. intros id Hid'. by apply Hn in Hid'. }
  destruct (stage_law output s s1 _ Hwf Hst) as (Hwf1 & Hv1 & _ & Hpend).
  destruct (commit_law _ _ _ _ _ Hwf1 (Hpend _ eq_refl) Hc) as (Hwf2 & _ & -> & Hin & _ & Hsame).
  apply preflight_finish_Ok in Hf1 as [Ht1 ->], Hf2 as [Ht2 _].
  apply produce_Ok in Hp as (v & Hbk & Hpub).
  unfold belongs_to in Hb. apply andb_true_iff in Hb as [Hr%bool_decide_eq_true Hl%bool_decide_eq_true].
  split_and!; [done..|by intros Hn; apply Hn in Ho|]. intros id [= <-]%(eq_trans (eq_sym Ho)).
  split_and!; try done; [congruence|exact (proj1 (backend_execute_Ok _ _ Hbk))|].
  exists v, output. split_and!; [done..|]. intros i Hi. by rewrite Hsame, Hv1.
Qed.
End transform.

(** ** Example

    An interpreter whose only module returns its input. *)

Section example.
#[local] Existing Instance ex_json_Z.
#[local] Existing Instance ex_integers.
#[local] Existing Instance ex_read.
#[local] Existing Instance ex_hash64.
#[local] Existing Instance ex_stamps.

#[local] Instance ex_wasm : Wasm := {
  WasmModule := unit;
  WasmInstance := string;
  wasm_decode m := if str_eqb m "echo" then Some tt else None;
  wasm_imports _ := false;
  wasm_accepts_fuel _ := true;
  wasm_start _ _ _ := Some "";
  wasm_memory _ := true;
  wasm_write memory offset bytes := Some bytes;
  wasm_transform _ := true;
  wasm_call memory pointer length := Some (memory, (pointer, length));
  wasm_read memory pointer length :=
    let bytes := slice memory pointer (pointer + length) in
    if (str_len bytes =? length)%Z then Some bytes else None
}.
#[local] Instance ex_wasm_laws : WasmLaws.
Proof.
  intros i p n bytes. cbn [wasm_read ex_wasm].
  destruct (str_len (slice i p (p + n)) =? n)%Z eqn:E; [|done]. intros [= <-]. lia.
Qed.

Definition ex_plan : PureTransformPlanV1 :=
  mk_PureTransformPlan (mk_PureTransformBinding "echo" "1" (digest "echo") "echo")
    (VString "text") (RequestedCapabilities_new []) (digest (compact (VString "text")))
    (str_len (compact (VString "text"))).
Definition ex_controller : RunController := RunController_new demo_context.
Definition ex_executed :=
  execute ex_plan demo_context ex_controller 5 9 (mk_RunId "run") ex_memory.

Example ex_executed_outcome :
  result_outcome (snd ex_executed) = OutcomeCompleted (content_id (compact (VString "text"))) ∧
  result_outcome (snd (execute ex_plan demo_context ex_controller 5 (duration_millis 600) (mk_RunId "run") ex_memory)) =
    OutcomeTimedOut IdleTime (ControllerTermination (mk_RunTermination (TimedOut IdleTime) None demo_context)).
Proof. split; by vm_compute. Qed.

Lemma pure_transform_publication_witness :
  result_outcome (snd ex_executed) = OutcomeCompleted (content_id (compact (VString "text"))) ∧
  memory_stored (fst ex_executed) (content_id (compact (VString "text"))) =
    Some (compact (VString "text")).
Proof.
  assert (Ho : result_outcome (snd ex_executed) = OutcomeCompleted (content_id (compact (VString "text"))))
    by by vm_compute.
  split; [exact Ho|].
  assert (Hwf : store_wf (S := InMemoryArtifactStore) ex_memory) by by apply memory_new_wf.
  destruct (pure_transform_publication ex_plan demo_context ex_controller 5 9 (mk_RunId "run")
    ex_memory (fst ex_executed) (snd ex_executed) Hwf (surjective_pairing ex_executed))
    as (_ & _ & _ & Hdone).
  destruct (Hdone _ Ho) as (_ & _ & _ & _ & _ & _ & v & bytes & Hb & Hp & _ & Hs & _).
  assert (Hv : Ok (E := PureTransformError) (VString "text") = Ok v)
    by (transitivity (backend_execute (mk_PureTransformRequest (module_bytes (binding ex_plan))
          (compact (plan_input ex_plan)) (plan_requested ex_plan))); [by vm_compute|exact Hb]).
  apply Ok_inj in Hv. subst v.
  assert (Hbytes : Ok (E := PureTransformExecutionError) (compact (VString "text")) = Ok bytes)
    by (transitivity (published_output ex_plan (VString "text")); [by vm_compute|exact Hp]).
  apply Ok_inj in Hbytes. subst bytes. exact Hs.
Defined.
End example.
