(* ===== verification/Exchange.v ===== *)
(** * Exchange of compact state

    [workflow-runtime/src/compact_state.rs]: a compact-state delta is published
    as a content-addressed artifact together with a typed envelope that names
    it, consumed by verifying both and applying the delta, and cited sources are
    read back in verified pages.  The loops over the pages of an artifact take
    fuel and return [None] when it runs out, which [read_artifact_ends] and
    [verify_artifact_ends] exclude. *)

From S2P Require Import Prelude Hashing Json Text JsonRead Session Firewall Artifact Ir.
From S2P Require Import Serde CompactState TypedProtocol.

(*| runtime/compact_state.rs 17-17 COMPACT_STATE_KEY *)
Definition COMPACT_STATE_KEY : string := "compact_state".
(*| runtime/compact_state.rs 19-19 COMPACT_STATE_OPERATION *)
Definition COMPACT_STATE_OPERATION : string := "add".

(*| runtime/compact_state.rs 22-29 WorkflowExchange::from *)
Definition exchange_of (endpoint : IrCompactStateEndpoint) : WorkflowExchange :=
  match endpoint with
  | IrCodeInvestigation => XCodeInvestigation | IrGroundedAnswer => XGroundedAnswer
  | IrMultiHop => XMultiHop | IrReview => XReview
  end.

Definition PAGE_LIMIT : Z := 65536.
(*| runtime/compact_state.rs 36-36 MAX_EXCHANGE_BYTES *)
Definition MAX_EXCHANGE_BYTES : Z := 192 * 4 + 256.
Definition MAX_DELTA_BYTES : Z := 4 * 1024 * 1024.

(** The one publication phase, [PostDeltaCommit], is left out. *)
(*| runtime/compact_state.rs 48-51 CompactStatePartialPublication *)
Record CompactStatePartialPublication := mk_Partial { partial_delta_artifact : ArtifactId }.
#[export] Instance Partial_eq_dec : EqDecision CompactStatePartialPublication.
Proof. solve_decision. Defined.

(*| runtime/compact_state.rs 77-106 CompactStateExchangeError *)
Inductive CompactStateExchangeError :=
| XArtifact
| PartialPublication (partial : CompactStatePartialPublication)
| InvalidEnvelope | InvalidStateDelta | DigestMismatch | LengthMismatch | MissingSource
| SourceBinding | InvalidSpan | PageProgress | WrongKey | WrongOperation | WrongPayload | Oversized.
#[export] Instance CompactStateExchangeError_eq_dec : EqDecision CompactStateExchangeError.
Proof. solve_decision. Defined.

(*| runtime/compact_state.rs 145-149 CompactStateReceipt *)
Record CompactStateReceipt := mk_Receipt {
  delta_artifact : ArtifactId; envelope_artifact : ArtifactId; receipt_byte_len : Z }.
#[export] Instance CompactStateReceipt_eq_dec : EqDecision CompactStateReceipt.
Proof. solve_decision. Defined.

(*| runtime/compact_state.rs 181-184 SourcePage *)
Record SourcePage := mk_SourcePage { source_bytes : string; source_next_offset : option Z }.
#[export] Instance SourcePage_eq_dec : EqDecision SourcePage.
Proof. solve_decision. Defined.

(*| runtime/compact_state.rs 410-417 map_typed_error *)
Definition map_typed_error (e : TypedOutputError) : CompactStateExchangeError :=
  match e with TruncatedOutput | OverBudget => Oversized | _ => InvalidEnvelope end.

Section exchange.
Context `{IntJson, !JsonRead, !StampJson, !Sha256, !DeltaJson}.
Context {S : Type} `{!ArtifactStore S, !StagingStore S}.

(*| runtime/compact_state.rs 419-421 content_id *)
Definition checked_content_id (bytes : string) : option ArtifactId :=
  ArtifactId_parse (encode_hex (sha256 bytes)).

(** ** Publishing *)

(** The envelope of the delta [id]. *)
(*| runtime/compact_state.rs 240-250 publish_compact_state_delta *)
Definition delta_output (id : ArtifactId) : result CompactStateExchangeError TypedOutput :=
  artifact_ref ← map_err (λ _, InvalidEnvelope) (ArtifactRef_new id (SHA256_PREFIX +:+ id));
  map_err (λ _, InvalidEnvelope)
    (TypedOutput_new (PCompactState
       (mk_CompactStateDelta COMPACT_STATE_KEY COMPACT_STATE_OPERATION [artifact_ref])) Complete).

(** The two commits; the tokens are consumed or dropped. *)
(*| runtime/compact_state.rs 260-287 publish_compact_state_delta *)
Definition commit_both (expected expected_envelope : ArtifactId) (delta_staged envelope_staged : Staged)
    (byte_len : Z) : method S CompactStateExchangeError CompactStateReceipt := λ store,
  match commit delta_staged store with
  | (store, Err _) => (discard envelope_staged store, Err XArtifact)
  | (store, Ok artifact) =>
      if negb (str_eqb artifact expected)
      then (discard envelope_staged store, Err (PartialPublication (mk_Partial expected)))
      else match commit envelope_staged store with
      | (store, Err _) => (store, Err (PartialPublication (mk_Partial artifact)))
      | (store, Ok envelope) =>
          if negb (str_eqb envelope expected_envelope)
          then (store, Err (PartialPublication (mk_Partial artifact)))
          else (store, Ok (mk_Receipt artifact envelope byte_len))
      end
  end.

(*| runtime/compact_state.rs 218-288 publish_compact_state_delta *)
Definition publish_compact_state_delta (from to : WorkflowExchange) (delta : StateDelta) :
    method S CompactStateExchangeError CompactStateReceipt := λ store,
  match apply empty_state delta with
  | Err _ => (store, Err InvalidStateDelta)
  | Ok _ =>
      let bytes := delta_text delta in
      if str_is_empty bytes || (MAX_DELTA_BYTES <? str_len bytes)%Z then (store, Err Oversized)
      else match checked_content_id bytes with
      | None => (store, Err DigestMismatch)
      | Some expected =>
          match delta_output expected with
          | Err e => (store, Err e)
          | Ok output =>
              match stage bytes store with
              | (store, Err _) => (store, Err XArtifact)
              | (store, Ok delta_staged) =>
                  match map_err map_typed_error (envelope_bytes from to output) with
                  | Err e => (discard delta_staged store, Err e)
                  | Ok envelope =>
                      match checked_content_id envelope with
                      | None => (discard delta_staged store, Err DigestMismatch)
                      | Some expected_envelope =>
                          match stage envelope store with
                          | (store, Err _) => (discard delta_staged store, Err XArtifact)
                          | (store, Ok envelope_staged) =>
                              commit_both expected expected_envelope delta_staged envelope_staged
                                (str_len bytes) store
                          end
                      end
                  end
              end
          end
      end
  end.

(** ** Reading a whole artifact *)

(*| runtime/compact_state.rs 423-464 read_artifact *)
Fixpoint read_artifact_from (fuel : nat) (store : S) (id : ArtifactId) (max_bytes : Z)
    (bytes : string) (offset : Z) : option (result CompactStateExchangeError string) :=
  match fuel with
  | O => None
  | Datatypes.S fuel =>
      match read_page store id (mk_PageRequest offset PAGE_LIMIT) with
      | Err _ => Some (Err XArtifact)
      | Ok page =>
          let page_len := str_len (page_bytes page) in
          if (page_len =? 0)%Z || (PAGE_LIMIT <? page_len)%Z then Some (Err PageProgress)
          else if (max_bytes <? str_len bytes + page_len)%Z then Some (Err Oversized)
          else
            let bytes := bytes +:+ page_bytes page in
            match checked_add offset page_len with
            | None => Some (Err PageProgress)
            | Some expected_next =>
                match page_next_offset page with
                | Some next =>
                    if (next =? expected_next)%Z && (offset <? next)%Z
                    then read_artifact_from fuel store id max_bytes bytes next
                    else Some (Err PageProgress)
                | None =>
                    if bool_decide (checked_content_id bytes = Some id) then Some (Ok bytes)
                    else Some (Err DigestMismatch)
                end
            end
      end
  end.

Definition read_artifact (fuel : nat) (store : S) (id : ArtifactId) (max_bytes : Z) :
    option (result CompactStateExchangeError string) :=
  read_artifact_from fuel store id max_bytes "" 0.

(** ** Consuming *)

Definition field {A : Type} (read : Value → option A) (object : list (string * Value)) (key : string) :
    result CompactStateExchangeError A :=
  match object_get key object ≫= read with Some x => Ok x | None => Err InvalidEnvelope end.

(*| runtime/compact_state.rs 585-596 exact_object *)
Definition exact_object (value : Value) (keys : list string) :
    result CompactStateExchangeError (list (string * Value)) :=
  match v_object value with
  | None => Err InvalidEnvelope
  | Some object => if exact_keys object keys then Ok object else Err InvalidEnvelope
  end.

(*| runtime/compact_state.rs 531-583 extract_compact_state_ref *)
Definition extract_compact_state_ref (envelope : string) :
    result CompactStateExchangeError (string * string * ArtifactId) :=
  root ← match json_parse envelope with Some root => Ok root | None => Err InvalidEnvelope end;
  root ← exact_object root ["from"; "to"; "output"];
  output ← field Some root "output";
  output ← exact_object output ["schema_version"; "node"; "completeness"; "payload"];
  payload ← field Some output "payload";
  payload ← exact_object payload ["kind"; "key"; "op"; "artifacts"];
  if negb (bool_decide (object_get "kind" payload ≫= v_str = Some "compact_state"))
  then Err WrongPayload
  else
    key ← field v_str payload "key";
    op ← field v_str payload "op";
    artifacts ← field v_array payload "artifacts";
    match artifacts with
    | [artifact] =>
        artifact ← exact_object artifact ["artifact_id"; "sha256"];
        id ← field v_str artifact "artifact_id";
        match ArtifactId_parse id with
        | None => Err InvalidEnvelope
        | Some id =>
            digest ← field v_str artifact "sha256";
            if negb (str_eqb digest (SHA256_PREFIX +:+ id)) then Err DigestMismatch
            else Ok (key, op, id)
        end
    | _ => Err InvalidEnvelope
    end.

Definition is_compact_state (p : TypedPayload) : bool :=
  match p with PCompactState _ => true | _ => false end.

(** [None]: a read did not finish. *)
(*| runtime/compact_state.rs 291-337 consume_compact_state_delta *)
Definition consume_compact_state_delta (fuel : nat) (store : S) (from to : WorkflowExchange)
    (envelope_artifact : ArtifactId) (expected_key expected_op : string) :
    CompactState → option (CompactState * result CompactStateExchangeError CompactStateReceipt) :=
  λ state,
  let failed e := Some (state, Err e) in
  r ← read_artifact fuel store envelope_artifact MAX_EXCHANGE_BYTES;
  match r with
  | Err e => failed e
  | Ok envelope =>
      match map_err map_typed_error (consume_bytes to from envelope) with
      | Err e => failed e
      | Ok payload =>
          if negb (is_compact_state payload) then failed WrongPayload
          else match extract_compact_state_ref envelope with
          | Err e => failed e
          | Ok (key, op, delta_artifact) =>
              if negb (str_eqb key expected_key) then failed WrongKey
              else if negb (str_eqb op expected_op) then failed WrongOperation
              else
                r ← read_artifact fuel store delta_artifact MAX_DELTA_BYTES;
                match r with
                | Err e => failed e
                | Ok delta_bytes =>
                    match read_delta delta_bytes with
                    | None => failed InvalidStateDelta
                    | Some delta =>
                        if negb (str_eqb (delta_text delta) delta_bytes) then failed InvalidStateDelta
                        else match apply state delta with
                        | Err _ => failed InvalidStateDelta
                        | Ok next =>
                            Some (next, Ok (mk_Receipt delta_artifact envelope_artifact
                                              (str_len delta_bytes)))
                        end
                    end
                end
          end
      end
  end.

(** ** Reading a cited source *)

(*| runtime/compact_state.rs 466-529 verify_artifact *)
Fixpoint verify_from (fuel : nat) (store : S) (id : ArtifactId)
    (expected_len retain_start retain_end : Z) (hashed retained : string) (offset length : Z) :
    option (result CompactStateExchangeError string) :=
  match fuel with
  | O => None
  | Datatypes.S fuel =>
      match read_page store id (mk_PageRequest offset PAGE_LIMIT) with
      | Err _ => Some (Err XArtifact)
      | Ok page =>
          let page_len := str_len (page_bytes page) in
          if (page_len =? 0)%Z then Some (Err PageProgress)
          else if (PAGE_LIMIT <? page_len)%Z then Some (Err PageProgress)
          else match checked_add length page_len with
          | None => Some (Err LengthMismatch)
          | Some length =>
              if (expected_len <? length)%Z then Some (Err LengthMismatch)
              else
                let hashed := hashed +:+ page_bytes page in
                match checked_add offset page_len with
                | None => Some (Err PageProgress)
                | Some expected_next =>
                    let overlap_start := Z.max retain_start offset in
                    let overlap_end := Z.min retain_end expected_next in
                    let retained :=
                      if (overlap_start <? overlap_end)%Z
                      then retained +:+ slice (page_bytes page) (overlap_start - offset) (overlap_end - offset)
                      else retained in
                    match page_next_offset page with
                    | Some next =>
                        if (next =? expected_next)%Z && (offset <? next)%Z
                        then verify_from fuel store id expected_len retain_start retain_end
                               hashed retained next length
                        else Some (Err PageProgress)
                    | None =>
                        if negb (length =? expected_len)%Z then Some (Err LengthMismatch)
                        else if negb (str_eqb (encode_hex (sha256 hashed)) id)
                        then Some (Err DigestMismatch)
                        else if negb (str_len retained =? retain_end - retain_start)%Z
                        then Some (Err LengthMismatch)
                        else Some (Ok retained)
                    end
                end
          end
      end
  end.

Definition verify_artifact (fuel : nat) (store : S) (id : ArtifactId)
    (expected_len retain_start retain_end : Z) : option (result CompactStateExchangeError string) :=
  if (retain_end <? retain_start)%Z || (expected_len <? retain_end)%Z then Some (Err InvalidSpan)
  else verify_from fuel store id expected_len retain_start retain_end "" "" 0 0.

(** The [checked_sub] of the span cannot fail: the end is after the start. *)
(*| runtime/compact_state.rs 340-408 read_source_ref_page *)
Definition read_source_ref_page (fuel : nat) (store : S) (index : SourceIndex) (r : SourceRef)
    (relative_offset limit : Z) : option (result CompactStateExchangeError SourcePage) :=
  match index !! ref_source r with
  | None => Some (Err MissingSource)
  | Some record =>
      if is_blank (ref_source r) || (ref_end r <=? ref_start r)%Z || (byte_len record <? ref_end r)%Z
      then Some (Err InvalidSpan)
      else if negb (str_eqb (ref_artifact_id r) (record_artifact_id record))
      then Some (Err SourceBinding)
      else match ArtifactId_parse (record_artifact_id record), ArtifactId_parse (ref_artifact_id r) with
      | None, _ | _, None => Some (Err SourceBinding)
      | Some id, Some _ =>
          let span_len := (ref_end r - ref_start r)%Z in
          if (span_len <? relative_offset)%Z then Some (Err InvalidSpan)
          else match checked_add (ref_start r) relative_offset with
          | None => Some (Err InvalidSpan)
          | Some absolute_offset =>
              if (relative_offset =? span_len)%Z then
                r ← verify_artifact fuel store id (byte_len record) absolute_offset absolute_offset;
                Some (r;; Ok (mk_SourcePage "" None))
              else
                let request_limit := Z.min limit (span_len - relative_offset) in
                match checked_add absolute_offset request_limit with
                | None => Some (Err InvalidSpan)
                | Some requested_end =>
                    bytes ← verify_artifact fuel store id (byte_len record) absolute_offset requested_end;
                    Some (
                      bytes ← bytes;
                      match checked_add absolute_offset (str_len bytes) with
                      | None => Err PageProgress
                      | Some expected_next =>
                          Ok (mk_SourcePage bytes
                                (if (expected_next <? ref_end r)%Z
                                 then Some (expected_next - ref_start r)%Z else None))
                      end)
                end
          end
      end
  end.
End exchange.

(** ** Slices *)

Lemma slice_len a i j : (0 ≤ i ≤ j)%Z → (j ≤ str_len a)%Z → str_len (slice a i j) = (j - i)%Z.
Proof. intros Hi Hj. unfold slice, str_len in *. rewrite substring_length by lia. lia. Qed.

(** A retained range grows by its part of the next page. *)
Lemma slice_page hashed p i j :
  (0 ≤ i ≤ j)%Z →
  slice (hashed +:+ p) i (Z.min j (str_len hashed + str_len p)) =
  let s := Z.max i (str_len hashed) in let e := Z.min j (str_len hashed + str_len p) in
  let kept := slice hashed i (Z.min j (str_len hashed)) in
  if (s <? e)%Z then kept +:+ slice p (s - str_len hashed) (e - str_len hashed) else kept.
Proof.
  intros Hij. cbv zeta. rewrite slice_app by lia.
  assert (Hp : (0 ≤ str_len p)%Z) by (unfold str_len; lia).
  replace (Z.min (Z.min j (str_len hashed + str_len p)) (str_len hashed)) with (Z.min j (str_len hashed)) by lia.
  replace (Z.max i (str_len hashed) - str_len hashed)%Z with (Z.max 0 (i - str_len hashed)) by lia.
  destruct (Z.ltb_spec (Z.max i (str_len hashed)) (Z.min j (str_len hashed + str_len p))); [done|].
  rewrite (slice_empty p) by lia. apply str_app_nil_r.
Qed.

Section paging.
Context `{IntJson, !JsonRead, !StampJson, !Sha256, !DeltaJson}.
Context {S : Type} `{!ArtifactStore S}.

Lemma str_len_nonneg s : (0 ≤ str_len s)%Z.
Proof. unfold str_len. lia. Qed.
#[local] Hint Resolve str_len_nonneg : core.

Lemma checked_content_id_Some bytes id :
  checked_content_id bytes = Some id → id = content_id bytes.
Proof. intros Hid%ArtifactId_parse_id. done. Qed.

(** Reading an artifact ends, whatever the store answers. *)
Lemma read_artifact_ends fuel store id max bytes offset :
  (max - str_len bytes < Z.of_nat fuel)%Z → (str_len bytes ≤ max)%Z →
  ∃ r, read_artifact_from fuel store id max bytes offset = Some r.
Proof.
  revert bytes offset. induction fuel as [|fuel IH]; intros bytes offset Hf Hm; [lia|].
  cbn [read_artifact_from]. destruct (read_page _ _ _) as [page|]; [|eauto].
  destruct (Z.eqb_spec (str_len (page_bytes page)) 0); [eauto|]. cbn [orb].
  destruct (PAGE_LIMIT <? str_len (page_bytes page))%Z; [eauto|].
  destruct (Z.ltb_spec max (str_len bytes + str_len (page_bytes page))); [eauto|].
  destruct (checked_add _ _); [|eauto]. destruct (page_next_offset page); [|case_bool_decide; eauto].
  destruct (_ && _); [|eauto]. pose proof (str_len_nonneg (page_bytes page)).
  apply IH; rewrite str_len_app; lia.
Qed.

Lemma read_artifact_sound fuel store id max bytes offset content :
  read_artifact_from fuel store id max bytes offset = Some (Ok content) →
  checked_content_id content = Some id ∧ (str_len content ≤ max)%Z.
Proof.
  revert bytes offset. induction fuel as [|fuel IH]; intros bytes offset; [done|].
  cbn [read_artifact_from]. destruct (read_page _ _ _) as [page|]; [|done].
  destruct (_ || _); [done|].
  destruct (Z.ltb_spec max (str_len bytes + str_len (page_bytes page))); [done|].
  destruct (checked_add _ _); [|done]. destruct (page_next_offset page).
  - destruct (_ && _); [|done]. apply IH.
  - case_bool_decide as Hid; [|done]. intros [= <-]. rewrite str_len_app. split; [done|lia].
Qed.

(** So does the verification of a source. *)
Lemma verify_from_ends fuel store id len rs re hashed retained offset n :
  (len - n < Z.of_nat fuel)%Z → (n ≤ len)%Z →
  ∃ r, verify_from fuel store id len rs re hashed retained offset n = Some r.
Proof.
  revert hashed retained offset n. induction fuel as [|fuel IH]; intros hashed retained offset n Hf Hn; [lia|].
  cbn [verify_from]. destruct (read_page _ _ _) as [page|]; [|eauto].
  destruct (Z.eqb_spec (str_len (page_bytes page)) 0); [eauto|].
  destruct (PAGE_LIMIT <? str_len (page_bytes page))%Z; [eauto|].
  destruct (checked_add n _) as [n'|] eqn:En; [|eauto]. apply checked_add_Some in En as [-> _].
  destruct (Z.ltb_spec len (n + str_len (page_bytes page))); [eauto|].
  destruct (checked_add offset _); [|eauto]. destruct (page_next_offset page).
  - destruct (_ && _); [|eauto]. pose proof (str_len_nonneg (page_bytes page)). apply IH; lia.
  - destruct (negb _); [eauto|]. destruct (negb _); [eauto|]. destruct (negb _); eauto.
Qed.

(** What is verified is the range of a content with the digest and the length. *)
Lemma verify_from_sound fuel store id len rs re hashed retained offset n bytes :
  (0 ≤ rs ≤ re)%Z → str_len hashed = offset → n = offset →
  retained = slice hashed rs (Z.min re (str_len hashed)) →
  verify_from fuel store id len rs re hashed retained offset n = Some (Ok bytes) →
  ∃ content, encode_hex (sha256 content) = id ∧ str_len content = len ∧
    bytes = slice content rs (Z.min re len) ∧ str_len bytes = (re - rs)%Z.
Proof.
  intros Hr. revert hashed retained offset n.
  induction fuel as [|fuel IH]; intros hashed retained offset n Ho -> Hret; [done|].
  cbn [verify_from]. destruct (read_page _ _ _) as [page|]; [|done].
  destruct (_ =? 0)%Z; [done|]. destruct (PAGE_LIMIT <? _)%Z; [done|].
  destruct (checked_add offset _) as [n'|] eqn:En; [|done]. apply checked_add_Some in En as [-> _].
  destruct (_ <? _)%Z; [done|].
  pose proof (slice_page hashed (page_bytes page) rs re Hr) as Hslice. cbv zeta in Hslice.
  rewrite <- Hret, Ho in Hslice. rewrite <- Hslice. clear Hslice.
  replace (offset + str_len (page_bytes page))%Z with (str_len (hashed +:+ page_bytes page))
    by (rewrite str_len_app; lia).
  destruct (page_next_offset page) as [next|].
  - destruct (next =? _)%Z eqn:Enext; [|done]. apply Z.eqb_eq in Enext as ->.
    destruct (_ <? _)%Z; [|done]. cbn [andb]. by apply IH.
  - destruct (Z.eqb_spec (str_len (hashed +:+ page_bytes page)) len) as [Hlen|]; [|done]. cbn [negb].
    destruct (str_eqb _ id) eqn:Eid; [|done]. apply str_eqb_eq in Eid. cbn [negb].
    match goal with |- context [negb (?a =? ?b)%Z] => destruct (Z.eqb_spec a b) as [Hn|]; [|done] end.
    intros [= <-]. exists (hashed +:+ page_bytes page). rewrite Hlen in *. done.
Qed.

(** *** A store that keeps its promise *)

Context `{!ArtifactStoreLaws S}.

(** The page read at [offset]: non-empty, within the limit, followed by the rest. *)
Lemma honest_page store id content offset :
  store_wf store → visible id → stored store id = Some content → (0 ≤ offset < str_len content)%Z →
  ∃ stop, (offset < stop ≤ str_len content)%Z ∧ (stop - offset ≤ PAGE_LIMIT)%Z ∧
    read_page store id (mk_PageRequest offset PAGE_LIMIT) =
      Ok (mk_ArtifactPage (slice content offset stop)
            (if (stop <? str_len content)%Z then Some stop else None)) ∧
    str_len (slice content offset stop) = (stop - offset)%Z ∧
    checked_add offset (stop - offset) = Some stop.
Proof.
  intros Hwf Hv Hs Ho. pose proof (stored_size _ _ _ Hwf Hs) as Hu.
  destruct (page_of_inside (page_limit store) content offset PAGE_LIMIT) as (stop & Hstop & Hp & Hl & _);
    [by apply page_limit_positive|done|done|done|].
  exists stop. rewrite read_law, Hs, Hp by done. rewrite slice_len by lia. split_and!; try done; try lia.
  apply checked_add_Some. unfold u64, u64_max in *. lia.
Qed.

Lemma read_artifact_honest fuel store id max content offset :
  store_wf store → visible id → stored store id = Some content →
  checked_content_id content = Some id → (str_len content ≤ max)%Z →
  (0 ≤ offset < str_len content)%Z → (str_len content - offset < Z.of_nat fuel)%Z →
  read_artifact_from fuel store id max (slice content 0 offset) offset = Some (Ok content).
Proof.
  intros Hwf Hv Hs Hid Hmax. revert offset. induction fuel as [|fuel IH]; intros offset Ho Hf; [lia|].
  destruct (honest_page store id content offset) as (stop & Hstop & Hlim & Hp & Hlen & Hadd); [done..|].
  cbn [read_artifact_from]. rewrite Hp. cbn [page_bytes page_next_offset]. rewrite Hlen, Hadd.
  destruct (Z.eqb_spec (stop - offset) 0); [lia|]. cbn [orb].
  destruct (Z.ltb_spec PAGE_LIMIT (stop - offset)); [lia|].
  rewrite (slice_len content 0 offset) by lia.
  destruct (Z.ltb_spec max (offset - 0 + (stop - offset))); [lia|].
  rewrite slice_split by lia. destruct (Z.ltb_spec stop (str_len content)).
  - rewrite Z.eqb_refl. destruct (Z.ltb_spec offset stop); [|lia]. apply IH; lia.
  - assert (stop = str_len content) as -> by lia. rewrite slice_all. by rewrite bool_decide_eq_true_2.
Qed.

Lemma verify_from_honest fuel store id rs re content offset :
  store_wf store → visible id → stored store id = Some content →
  encode_hex (sha256 content) = id → (0 ≤ rs ≤ re)%Z → (re ≤ str_len content)%Z →
  (0 ≤ offset < str_len content)%Z → (str_len content - offset < Z.of_nat fuel)%Z →
  verify_from fuel store id (str_len content) rs re (slice content 0 offset)
    (slice (slice content 0 offset) rs (Z.min re offset)) offset offset = Some (Ok (slice content rs re)).
Proof.
  intros Hwf Hv Hs Hid Hr Hre. revert offset. induction fuel as [|fuel IH]; intros offset Ho Hf; [lia|].
  destruct (honest_page store id content offset) as (stop & Hstop & Hlim & Hp & Hlen & Hadd); [done..|].
  assert (Hpre : str_len (slice content 0 offset) = offset) by (rewrite slice_len by lia; lia).
  pose proof (slice_page (slice content 0 offset) (slice content offset stop) rs re Hr) as Hslice.
  cbv zeta in Hslice. rewrite Hpre, Hlen, slice_split in Hslice by lia.
  replace (offset + (stop - offset))%Z with stop in Hslice by lia.
  cbn [verify_from]. rewrite Hp. cbn [page_bytes page_next_offset]. rewrite Hlen, Hadd.
  destruct (Z.eqb_spec (stop - offset) 0); [lia|].
  destruct (Z.ltb_spec PAGE_LIMIT (stop - offset)); [lia|].
  destruct (Z.ltb_spec (str_len content) stop); [lia|].
  rewrite <- Hslice, slice_split by lia. destruct (Z.ltb_spec stop (str_len content)).
  - rewrite Z.eqb_refl. destruct (Z.ltb_spec offset stop); [|lia]. apply IH; lia.
  - assert (stop = str_len content) as -> by lia. rewrite slice_all, Z.eqb_refl. cbn [negb].
    rewrite (Z.min_l re) by lia. rewrite Hid, (proj2 (str_eqb_eq id id)) by done. cbn [negb].
    rewrite slice_len, Z.eqb_refl by lia. done.
Qed.

Lemma read_artifact_stored fuel store id max content :
  store_wf store → stored store id = Some content → checked_content_id content = Some id →
  (0 < str_len content ≤ max)%Z → (str_len content < Z.of_nat fuel)%Z →
  read_artifact fuel store id max = Some (Ok content).
Proof.
  intros Hwf Hs Hid Hl Hf. apply checked_content_id_Some in Hid as Hc.
  assert (Hz : slice content 0 0 = "") by by apply slice_empty.
  unfold read_artifact. rewrite <- Hz. apply read_artifact_honest; [done| |done..|lia|lia|lia].
  subst id. apply content_id_visible.
Qed.

Lemma verify_artifact_ends fuel store id len rs re :
  (0 ≤ len < Z.of_nat fuel)%Z → ∃ r, verify_artifact fuel store id len rs re = Some r.
Proof.
  intros Hl. unfold verify_artifact. destruct (_ || _); [eauto|]. apply verify_from_ends; lia.
Qed.

Lemma verify_artifact_sound fuel store id len rs re bytes :
  (0 ≤ rs)%Z → verify_artifact fuel store id len rs re = Some (Ok bytes) →
  (rs ≤ re ≤ len)%Z ∧ ∃ content, encode_hex (sha256 content) = id ∧ str_len content = len ∧
    bytes = slice content rs re ∧ str_len bytes = (re - rs)%Z.
Proof.
  intros Hrs. unfold verify_artifact.
  destruct (Z.ltb_spec re rs); [done|]. destruct (Z.ltb_spec len re); [done|]. cbn [orb].
  intros E. apply verify_from_sound in E as (content & Hid & Hlen & Hb & Hn); [|lia|done|done|].
  - split; [lia|]. exists content. rewrite Z.min_l in Hb by lia. done.
  - symmetry. apply slice_empty. change (str_len "") with 0%Z. lia.
Qed.

Lemma verify_artifact_honest fuel store id rs re content :
  store_wf store → stored store id = Some content → checked_content_id content = Some id →
  (0 ≤ rs ≤ re)%Z → (re ≤ str_len content)%Z → (0 < str_len content < Z.of_nat fuel)%Z →
  verify_artifact fuel store id (str_len content) rs re = Some (Ok (slice content rs re)).
Proof.
  intros Hwf Hs Hid Hr Hre Hl. apply checked_content_id_Some in Hid. unfold verify_artifact.
  destruct (Z.ltb_spec re rs); [lia|]. destruct (Z.ltb_spec (str_len content) re); [lia|]. cbn [orb].
  pose proof (verify_from_honest fuel store id rs re content 0 Hwf) as Hv.
  rewrite (slice_empty content 0 0), (slice_empty "" rs (Z.min re 0)) in Hv by lia.
  apply Hv; [|done|by subst id|done|done|lia|lia]. subst id. apply content_id_visible.
Qed.

(** ** Cited sources *)

(** The range of the page at [offset], and what follows it in the citation. *)
Definition page_end (r : SourceRef) (offset limit : Z) : Z :=
  Z.min (ref_start r + offset + limit) (ref_end r).

(** C11. A page of a cited source is verified evidence, whatever the store
    answers: reading ends, and a page that is returned is the requested part of
    the cited range of a content whose digest and length are the indexed ones,
    with the offset at which the citation goes on.  A store that holds such a
    content returns exactly that page for every offset inside the citation. *)
Theorem source_page_verified fuel store index r offset limit record :
  index !! ref_source r = Some record → u64 (ref_start r) → u64 (ref_end r) → u64 (byte_len record) →
  (0 ≤ offset)%Z → (0 < limit)%Z → (byte_len record < Z.of_nat fuel)%Z →
  let stop := page_end r offset limit in
  let next := if (stop <? ref_end r)%Z then Some (stop - ref_start r)%Z else None in
  (∃ result, read_source_ref_page fuel store index r offset limit = Some result ∧
     ∀ page, result = Ok page → ∃ content,
       encode_hex (sha256 content) = ref_artifact_id r ∧ str_len content = byte_len record ∧
       (ref_start r + offset ≤ ref_end r ≤ byte_len record)%Z ∧
       page = mk_SourcePage (slice content (ref_start r + offset) stop) next) ∧
  (∀ content, store_wf store → stored store (ref_artifact_id r) = Some content →
     checked_content_id content = Some (ref_artifact_id r) → ref_ok index r →
     str_len content = byte_len record → (ref_start r + offset ≤ ref_end r)%Z →
     read_source_ref_page fuel store index r offset limit =
       Some (Ok (mk_SourcePage (slice content (ref_start r + offset) stop) next))).
Proof.
  intros Hrec Hus Hue Hub Ho Hlim Hf stop next. unfold read_source_ref_page. rewrite Hrec.
  assert (Hadd : ∀ a b, (0 ≤ a)%Z → (a + b ≤ ref_end r)%Z → checked_add a b = Some (a + b)%Z).
  { intros a b Ha Hb. apply checked_add_Some. unfold u64, u64_max in *. lia. }
  unfold u64 in Hus, Hub. split.
  - destruct (is_blank _ || _ || _)%Z eqn:Eb; [by eexists|].
    rewrite !orb_false_iff, Z.leb_gt, Z.ltb_ge in Eb. destruct Eb as [[_ Hse] Heb].
    destruct (str_eqb _ _) eqn:Ea; [|by eexists]. apply str_eqb_eq in Ea. cbn [negb]. rewrite <- Ea.
    destruct (ArtifactId_parse (ref_artifact_id r)) as [id|] eqn:Eid; [|by eexists].
    apply ArtifactId_parse_id in Eid as ->.
    destruct (Z.ltb_spec (ref_end r - ref_start r) offset); [by eexists|].
    rewrite Hadd by lia. destruct (Z.eqb_spec offset (ref_end r - ref_start r)) as [Heq|Hneq].
    + destruct (verify_artifact_ends fuel store (ref_artifact_id r) (byte_len record)
        (ref_start r + offset) (ref_start r + offset)) as [[bytes|e] Ev]; [lia| |rewrite Ev; by eexists].
      rewrite Ev. eexists. split; [done|]. intros page [= <-].
      apply verify_artifact_sound in Ev as (_ & content & Hid & Hlen & _); [|lia].
      exists content. split_and!; [done..|lia|lia|]. unfold next, stop, page_end.
      rewrite Z.min_r, Z.ltb_irrefl, slice_empty by lia. done.
    + assert (Hstop : (ref_start r + offset + Z.min limit (ref_end r - ref_start r - offset) = stop)%Z)
        by (unfold stop, page_end; lia).
      rewrite Hadd, Hstop by lia.
      destruct (verify_artifact_ends fuel store (ref_artifact_id r) (byte_len record)
        (ref_start r + offset) stop) as [[bytes|e] Ev]; [lia| |rewrite Ev; by eexists].
      rewrite Ev. eexists. split; [done|]. intros page Hpage. cbn in Hpage.
      apply verify_artifact_sound in Ev as (Hr & content & Hid & Hlen & -> & Hn); [|lia].
      rewrite Hn, Hadd in Hpage by (unfold stop, page_end in *; lia).
      replace (ref_start r + offset + (stop - (ref_start r + offset)))%Z with stop in Hpage by lia.
      injection Hpage as <-. exists content. by split_and!; [..|lia|lia|].
  - intros content Hwf Hs Hid (Hb & rec & Hrec' & Ha & Hse) Hlen Hoff.
    rewrite Hrec in Hrec'. injection Hrec' as <-. rewrite Hb. cbn [orb].
    destruct (Z.leb_spec (ref_end r) (ref_start r)); [lia|].
    destruct (Z.ltb_spec (byte_len record) (ref_end r)); [lia|]. cbn [orb].
    rewrite (proj2 (str_eqb_eq _ _) Ha), <- Ha. cbn [negb].
    assert (Hp : ArtifactId_parse (ref_artifact_id r) = Some (ref_artifact_id r)).
    { pose proof (checked_content_id_Some _ _ Hid) as Hc. unfold checked_content_id in Hid.
      by rewrite Hc at 1. }
    rewrite Hp. destruct (Z.ltb_spec (ref_end r - ref_start r) offset); [lia|]. rewrite Hadd by lia.
    destruct (Z.eqb_spec offset (ref_end r - ref_start r)) as [Heq|Hneq].
    + rewrite <- Hlen, (verify_artifact_honest _ _ _ _ _ content) by (done || lia). cbn.
      unfold next, stop, page_end. rewrite Z.min_r, Z.ltb_irrefl, slice_empty by lia. done.
    + assert (Hstop : (ref_start r + offset + Z.min limit (ref_end r - ref_start r - offset) = stop)%Z)
        by (unfold stop, page_end; lia).
      rewrite Hadd, Hstop by lia.
      rewrite <- Hlen, (verify_artifact_honest _ _ _ _ _ content)
        by (done || unfold stop, page_end; lia). cbn.
      rewrite slice_len, Hadd by (unfold stop, page_end; lia).
      by replace (ref_start r + offset + (stop - (ref_start r + offset)))%Z with stop by lia.
Qed.
End paging.

(** ** Publishing and consuming *)

(** A delta and an envelope are different documents: a delta has the keys of
    [StateDelta], an envelope those of an exchange. *)
Class DeltaDocuments `{IntJson, !JsonRead, !DeltaJson} : Prop := delta_no_envelope d from to v :
  delta_text d ≠ compact (envelope from to v).

Section publishing.
Context `{JsonReadLaws} `{!StampJson, !StampJsonLaws, !Sha256, !DeltaJson, !DeltaJsonLaws, !DeltaDocuments}.
Context {S : Type} `{!ArtifactStore S, !ArtifactStoreLaws S, !StagingStore S, !StagingStoreLaws S}.

(** The envelope's output for the delta artifact [id]. *)
Definition delta_envelope_output (id : ArtifactId) : TypedOutput :=
  mk_TypedOutput TYPED_OUTPUT_SCHEMA_VERSION_V1
    (PCompactState (mk_CompactStateDelta COMPACT_STATE_KEY COMPACT_STATE_OPERATION
       [mk_ArtifactRef id (SHA256_PREFIX +:+ id)])) Complete.

Lemma strip_prefix_app p s : strip_prefix p (p +:+ s) = Some s.
Proof. by apply strip_prefix_Some. Qed.

Lemma delta_output_Ok id :
  ArtifactId_parse id = Some id →
  delta_output id = Ok (delta_envelope_output id) ∧ output_wf (delta_envelope_output id).
Proof.
  intros Hid. unfold delta_output, ArtifactRef_new. rewrite Hid.
  assert (Hv : valid_sha256 (SHA256_PREFIX +:+ id) = true).
  { unfold valid_sha256. by rewrite strip_prefix_app, Hid. }
  rewrite Hv. cbn. split; [done|]. split; [done|]. split; [|done]. split; [by repeat constructor|].
  split; [set_solver|done].
Qed.

Lemma checked_content_id_parse bytes id :
  checked_content_id bytes = Some id → id = content_id bytes ∧ ArtifactId_parse id = Some id.
Proof.
  intros Hid. apply checked_content_id_Some in Hid as Hc. split; [done|].
  unfold checked_content_id in Hid. unfold content_id in Hc. by rewrite <- Hc in Hid.
Qed.

Lemma exact_object_Ok o keys : exact_keys o keys = true → exact_object (Object o) keys = Ok o.
Proof. intros Hk. cbn. by rewrite Hk. Qed.

Lemma field_Ok {A} (read : Value → option A) o k v x :
  object_get k o = Some v → read v = Some x → field read o k = Ok x.
Proof. unfold field. by intros -> Hx; cbn; rewrite Hx. Qed.

(** Run the extraction on a value that has the fields assumed. *)
Ltac extract_step :=
  match goal with
  | |- mbind _ (exact_object (Object _) _) = Ok _ =>
      apply bind_Ok; eexists; split; [by apply exact_object_Ok|]
  | |- mbind _ (field _ _ _) = Ok _ =>
      apply bind_Ok; eexists; split; [eapply field_Ok; [eassumption|reflexivity]|]
  end.

(** The reference the consumer extracts is the one the publisher put in. *)
Lemma extract_published from to id v envelope :
  ArtifactId_parse id = Some id → output_to_value (delta_envelope_output id) = Ok v →
  json_parse envelope = Some (TypedProtocol.envelope from to v) →
  extract_compact_state_ref envelope = Ok (COMPACT_STATE_KEY, COMPACT_STATE_OPERATION, id).
Proof.
  intros Hid Hv Hj. pose proof (parse_sorted _ _ Hj) as Hs.
  unfold extract_compact_state_ref. rewrite Hj. cbn [mbind result_bind].
  apply bind_Ok in Hv as (payload & Hp & Ev). apply Ok_inj in Ev as <-.
  cbn [out_payload delta_envelope_output payload_to_value cs_op cs_key cs_artifacts] in Hp.
  apply bind_Ok in Hp as (op & _ & [_ Ep]%guard_Ok). apply Ok_inj in Ep as <-.
  unfold TypedProtocol.envelope in *. with_fields Hs. do 2 extract_step.
  match goal with G : object_get "output" _ = Some _ |- _ => apply sorted_field in G as Hs1; [|done] end.
  with_fields Hs1. do 2 extract_step.
  match goal with G : object_get "payload" _ = Some _ |- _ => apply sorted_field in G as Hs2; [|done] end.
  with_fields Hs2. extract_step.
  match goal with G : object_get "kind" _ = Some _ |- _ => rewrite G end.
  cbn [mbind option_bind v_str payload_kind node_str].
  apply guard_Ok. split; [by rewrite bool_decide_eq_true_2|]. do 3 extract_step.
  match goal with G : object_get "artifacts" _ = Some _ |- _ => apply sorted_field in G as Hs3; [|done] end.
  unfold arefs_value in *. cbn [map] in *. eapply sorted_element in Hs3; [|by left].
  unfold aref_value in *. with_fields Hs3. do 2 extract_step. cbn [aref_id aref_sha256] in *.
  rewrite Hid. extract_step.
  apply guard_Ok. split; [|done]. by apply negb_false_iff, str_eqb_eq.
Qed.

(** ** Publishing *)

Definition is_partial (e : CompactStateExchangeError) : bool :=
  match e with PartialPublication _ => true | _ => false end.

(** What a publication of [text] leaves behind, by its result. *)
Definition publication_left (text : string) (store store' : S)
    (r : result CompactStateExchangeError CompactStateReceipt) : Prop :=
  match r with
  | Ok receipt =>
      delta_artifact receipt = content_id text ∧ receipt_byte_len receipt = str_len text ∧
      stored store' (delta_artifact receipt) = Some text ∧
      ∃ envelope, envelope_artifact receipt = content_id envelope ∧
        stored store' (envelope_artifact receipt) = Some envelope
  | Err (PartialPublication p) =>
      partial_delta_artifact p = content_id text ∧ stored store' (content_id text) = Some text ∧
      ∀ i, i ≠ content_id text → stored store' i = stored store i
  | Err _ => ∀ i, stored store' i = stored store i
  end.

Lemma commit_both_left text envelope delta_staged envelope_staged n store store' r :
  store_wf store → text ≠ envelope →
  pending store delta_staged text → pending store envelope_staged envelope →
  commit_both (content_id text) (content_id envelope) delta_staged envelope_staged n store = (store', r) →
  store_wf store' ∧
  match r with
  | Ok receipt => receipt = mk_Receipt (content_id text) (content_id envelope) n ∧
      stored store' (content_id text) = Some text ∧
      stored store' (content_id envelope) = Some envelope ∧
      ∀ i, i ≠ content_id text → i ≠ content_id envelope → stored store' i = stored store i
  | Err (PartialPublication p) =>
      p = mk_Partial (content_id text) ∧ stored store' (content_id text) = Some text ∧
      ∀ i, i ≠ content_id text → stored store' i = stored store i
  | Err e => e = XArtifact ∧ ∀ i, stored store' i = stored store i
  end.
Proof.
  intros Hwf Hne Hd He E. unfold commit_both in E.
  destruct (commit delta_staged store) as [s1 [id|e]] eqn:E1.
  - destruct (commit_law _ _ _ _ _ Hwf Hd E1) as (Hwf1 & Hkeep & -> & Hs1 & Hold1 & Hrest1).
    apply Hkeep in He; [|done]. rewrite (proj2 (str_eqb_eq _ _) eq_refl) in E. cbn [negb] in E.
    destruct (commit envelope_staged s1) as [s2 [id2|e2]] eqn:E2.
    + destruct (commit_law _ _ _ _ _ Hwf1 He E2) as (Hwf2 & _ & -> & Hs2 & Hold2 & Hrest2).
      rewrite (proj2 (str_eqb_eq _ _) eq_refl) in E. cbn [negb] in E. injection E as <- <-.
      split; [done|]. split_and!; [done| |done|].
      * destruct (decide (content_id text = content_id envelope)) as [Heq|Hneq];
          [|by rewrite Hrest2]. rewrite <- Heq, Hs1 in Hold2. destruct Hold2; congruence.
      * intros i Hi1 Hi2. by rewrite Hrest2, Hrest1.
    + destruct (commit_law _ _ _ _ _ Hwf1 He E2) as (Hwf2 & _ & Hsame).
      injection E as <- <-. split; [done|]. split_and!; [done|by rewrite Hsame|].
      intros i Hi. by rewrite Hsame, Hrest1.
  - destruct (commit_law _ _ _ _ _ Hwf Hd E1) as (Hwf1 & _ & Hsame). injection E as <- <-.
    destruct (discard_law envelope_staged s1 Hwf1) as [Hwf2 Hd2]. split; [done|].
    split; [done|]. intros i. by rewrite Hd2, Hsame.
Qed.

(** What a successful publication stored. *)
Record published (from to : WorkflowExchange) (delta : StateDelta) (store : S)
    (receipt : CompactStateReceipt) (envelope : string) : Prop := {
  pub_applies : ∃ next, try_from delta = Ok next;
  pub_delta : checked_content_id (delta_text delta) = Some (delta_artifact receipt);
  pub_size : (0 < str_len (delta_text delta) ≤ MAX_DELTA_BYTES)%Z;
  pub_envelope : envelope_bytes from to (delta_envelope_output (delta_artifact receipt)) = Ok envelope;
  pub_id : checked_content_id envelope = Some (envelope_artifact receipt);
  pub_len : receipt_byte_len receipt = str_len (delta_text delta);
  pub_stored : stored store (delta_artifact receipt) = Some (delta_text delta);
  pub_stored_envelope : stored store (envelope_artifact receipt) = Some envelope
}.

Lemma publish_outcome from to delta store store' r :
  store_wf store → publish_compact_state_delta from to delta store = (store', r) →
  store_wf store' ∧ publication_left (delta_text delta) store store' r ∧
  ∀ receipt, r = Ok receipt → ∃ envelope, published from to delta store' receipt envelope.
Proof.
  intros Hwf E. unfold publish_compact_state_delta in E.
  assert (Hsame : ∀ store' e, is_partial e = false → store_wf store' →
    (∀ i, stored store' i = stored store i) →
    store_wf store' ∧ publication_left (delta_text delta) store store' (Err e) ∧
    ∀ receipt, Err e = Ok receipt → ∃ envelope, published from to delta store' receipt envelope).
  { intros s' e He Hs' Hi. split; [done|]. split; [by destruct e|done]. }
  destruct (apply empty_state delta) as [next|e] eqn:Ea; [|injection E as <- <-; by apply Hsame].
  destruct (str_is_empty _ || _) eqn:Esize; [injection E as <- <-; by apply Hsame|].
  apply orb_false_iff in Esize as [Hne%str_is_empty_false Hmax%Z.ltb_ge].
  destruct (checked_content_id (delta_text delta)) as [id|] eqn:Eid; [|injection E as <- <-; by apply Hsame].
  destruct (checked_content_id_parse _ _ Eid) as [Hc Hp].
  destruct (delta_output_Ok id Hp) as [Ho Hout]. rewrite Ho in E.
  destruct (stage (delta_text delta) store) as [s1 [t1|e]] eqn:E1;
    destruct (stage_law _ _ _ _ Hwf E1) as (Hwf1 & Hi1 & _ & Ht1);
    [|injection E as <- <-; by apply Hsame].
  specialize (Ht1 t1 eq_refl).
  assert (Hdrop : ∀ e s', is_partial e = false → store_wf s' → (∀ i, stored s' i = stored store i) →
    store_wf (discard t1 s') ∧ publication_left (delta_text delta) store (discard t1 s') (Err e) ∧
    ∀ receipt, Err e = Ok receipt → ∃ envelope, published from to delta (discard t1 s') receipt envelope).
  { intros e s' He Hs' Hi. destruct (discard_law t1 s' Hs') as [Hw Hd].
    apply Hsame; [done|done|]. intros i. by rewrite Hd. }
  destruct (envelope_bytes from to (delta_envelope_output id)) as [envelope|e] eqn:Ee; cbn [map_err] in E;
    [|injection E as <- <-; apply Hdrop; [by destruct e|done..]].
  destruct (checked_content_id envelope) as [eid|] eqn:Eeid; [|injection E as <- <-; by apply Hdrop].
  destruct (stage envelope s1) as [s2 [t2|e]] eqn:E2;
    destruct (stage_law _ _ _ _ Hwf1 E2) as (Hwf2 & Hi2 & Hkeep & Ht2);
    [|injection E as <- <-; apply Hdrop; [done..|]; intros i; by rewrite Hi2].
  specialize (Ht2 t2 eq_refl). apply Hkeep in Ht1. subst id.
  pose proof (proj1 (checked_content_id_parse _ _ Eeid)) as ->.
  assert (Hdiff : delta_text delta ≠ envelope).
  { apply envelope_bytes_Ok in Ee as (_ & v & _ & -> & _). apply delta_no_envelope. }
  pose proof (commit_both_left _ _ _ _ _ _ _ _ Hwf2 Hdiff Ht1 Ht2 E) as [Hw Hr].
  split; [done|]. destruct r as [receipt|e].
  - destruct Hr as (-> & Hs & Hse & _). split.
    + split_and!; [done..|]. by exists envelope.
    + intros receipt [= <-]. exists envelope. split; try done; [by exists next|].
      cbn. split; [|done]. destruct (delta_text delta); [done|]. unfold str_len. cbn. lia.
  - split; [|done]. destruct e; try (destruct Hr as [Hx Hr]; try discriminate; intros i; by rewrite Hr, Hi2, Hi1).
    destruct Hr as (-> & Hs & Hr). split_and!; [done|done|]. intros i Hi. by rewrite Hr, Hi2, Hi1.
Qed.

End publishing.

(** ** Example *)

Section example.
#[local] Existing Instance ex_json_Z.
#[local] Existing Instance ex_json_Z_laws.
#[local] Existing Instance ex_integers.
#[local] Existing Instance ex_read.
#[local] Existing Instance ex_read_laws.
#[local] Existing Instance ex_hash64.
#[local] Existing Instance ex_stamps.
#[local] Existing Instance ex_stamps_laws.

(** The numeral of the delta's code, after a one; a zero stands for [ex_first]. *)
#[local] Instance ex_short : DeltaJson := {
  delta_text d := if decide (d = ex_first) then "0" else String "1" (delta_text (DeltaJson := ex_deltas) d);
  decode_wire s :=
    match s with
    | String "1" rest => decode_wire (DeltaJson := ex_deltas) rest
    | _ => Some (mk_StateDeltaWire (delta_sources ex_first) false (delta_entries ex_first))
    end }.
#[local] Instance ex_short_laws : DeltaJsonLaws.
Proof.
  intros d. cbn [delta_text decode_wire ex_short]. case_decide as Hd; [by rewrite Hd|].
  apply (decode_text (DeltaJsonLaws := ex_deltas_laws)).
Qed.

(** Neither starts an object. *)
#[local] Instance ex_documents : DeltaDocuments.
Proof.
  intros d from to v. unfold TypedProtocol.envelope, jobject. cbn [delta_text ex_short compact].
  by case_decide.
Qed.

Definition ex_source_text : string := "0123456789".
Definition ex_source : ArtifactId := content_id ex_source_text.
Definition ex_index : SourceIndex := {["log" := mk_SourceRecord ex_source 10]}.
Definition ex_ref : SourceRef := mk_SourceRef "log" ex_source 2 9.
(** Pages of four bytes. *)
Definition ex_store0 : InMemoryArtifactStore := InMemoryArtifactStore_new 10000 4 0.
Definition ex_store : InMemoryArtifactStore := fst (put ex_source_text ex_store0).

Lemma ex_store_wf : memory_wf ex_store.
Proof.
  assert (Hwf0 : memory_wf ex_store0) by by apply memory_new_wf.
  exact (proj1 (memory_put_law ex_source_text ex_store0 ex_store (Ok ex_source) Hwf0
    ltac:(vm_compute; reflexivity))).
Qed.

Lemma source_page_verified_witness :
  read_source_ref_page 11 ex_store ex_index ex_ref 3 3 = Some (Ok (mk_SourcePage "567" (Some 6%Z))) ∧
  read_source_ref_page 11 ex_store ex_index ex_ref 6 3 = Some (Ok (mk_SourcePage "8" None)).
Proof.
  assert (Hs : u64 (ref_start ex_ref)) by by vm_compute.
  assert (He : u64 (ref_end ex_ref)) by by vm_compute.
  assert (Hb : u64 (byte_len (mk_SourceRecord ex_source 10))) by by vm_compute.
  assert (Hok : ref_ok ex_index ex_ref).
  { split; [by vm_compute|]. exists (mk_SourceRecord ex_source 10). by vm_compute. }
  split.
  - exact (proj2 (source_page_verified 11 ex_store ex_index ex_ref 3 3 (mk_SourceRecord ex_source 10)
      eq_refl Hs He Hb ltac:(lia) ltac:(lia) ltac:(vm_compute; reflexivity))
      ex_source_text ex_store_wf ltac:(vm_compute; reflexivity) ltac:(vm_compute; reflexivity) Hok
      eq_refl ltac:(vm_compute; discriminate)).
  - exact (proj2 (source_page_verified 11 ex_store ex_index ex_ref 6 3 (mk_SourceRecord ex_source 10)
      eq_refl Hs He Hb ltac:(lia) ltac:(lia) ltac:(vm_compute; reflexivity))
      ex_source_text ex_store_wf ltac:(vm_compute; reflexivity) ltac:(vm_compute; reflexivity) Hok
      eq_refl ltac:(vm_compute; discriminate)).
Defined.

Definition ex_delta_store : InMemoryArtifactStore := InMemoryArtifactStore_new 100000 500 0.
Definition ex_publication :
    InMemoryArtifactStore * result CompactStateExchangeError CompactStateReceipt :=
  publish_compact_state_delta XReview XMultiHop ex_first ex_delta_store.
Definition ex_receipt : CompactStateReceipt :=
  match snd ex_publication with Ok r => r | Err _ => mk_Receipt "" "" 0 end.

Lemma ex_publication_Ok :
  publish_compact_state_delta XReview XMultiHop ex_first ex_delta_store = (fst ex_publication, Ok ex_receipt).
Proof. vm_compute. reflexivity. Qed.

Definition ok_state (r : result StateError CompactState) : CompactState :=
  match r with Ok s => s | Err _ => empty_state end.
Definition ex_state : CompactState := ok_state (try_from ex_second).
Definition ex_next : CompactState := ok_state (apply ex_state ex_first).

Lemma ex_next_of : apply ex_state ex_first = Ok ex_next.
Proof. apply (bool_decide_unpack _). vm_compute. exact I. Qed.

End example.
