(* ===== verification/Bridge.v ===== *)
(** * The tool bridge

    [workflow-runtime/src/bridge.rs] with [RunSandbox::child] of
    [sandbox_execution.rs]: the capability intersection and the dispatch of an
    authorized call to its handler.

    A handler runs in a thread of its own, which sends one result on a channel.
    [worker] records what such a thread was started with; the list of the
    threads started is part of the state.  What the environment decides of one call is
    [InvokeEnv]: whether the thread can be spawned, and what [execute] of the
    handler returns before the timeout, if it does.  A channel whose sender is
    gone reads like one that timed out: [recv_timeout] fails and the entry
    stays.  JSON Schema validation is third-party code ([JsonSchema]). *)

From S2P Require Import Prelude Runtime Hashing Json Text Approval Policy Tool Artifact.

(** ** Sandboxes *)

(*| runtime/sandbox_execution.rs 256-269 SandboxExecutionError *)
Inductive SandboxExecutionError :=
| WorkdirRunMismatch | InvalidCommand | InvalidScriptPath | SandboxCapabilityDenied
| OutputLimitExceeded | ExecutionFailed.

(** The authority of a sandbox; its workdir and backend are not modelled. *)
(*| runtime/sandbox_execution.rs 65-70 RunSandbox *)
Record RunSandbox := mk_RunSandbox { sandbox_authority : gset SandboxCapability }.

(*| runtime/sandbox_execution.rs 123-135 RunSandbox::child *)
Definition child (capabilities : list SandboxCapability) (sandbox : RunSandbox) :
    result SandboxExecutionError (gset SandboxCapability) :=
  let capabilities := list_to_set (C := gset SandboxCapability) capabilities in
  if negb (bool_decide (capabilities ⊆ sandbox_authority sandbox)) then Err SandboxCapabilityDenied
  else Ok capabilities.

(*| runtime/sandbox_execution.rs 183-198 ChildSandbox::child *)
Definition child_child (capabilities : list SandboxCapability) (parent : gset SandboxCapability) :
    result SandboxExecutionError (gset SandboxCapability) :=
  let capabilities := list_to_set (C := gset SandboxCapability) capabilities in
  if existsb (λ c, negb (bool_decide (c ∈ parent))) (elements capabilities)
  then Err SandboxCapabilityDenied else Ok capabilities.

(** ** The capability intersection *)

(*| runtime/bridge.rs 240-243 EffectiveToolCapabilities *)
Record EffectiveToolCapabilities := mk_EffectiveToolCapabilities {
  effective_tool : string; effective_capabilities : list SandboxCapability }.

(*| runtime/bridge.rs 258-265 CapabilityIntersectionError *)
Inductive CapabilityIntersectionError := ToolNotAllowed | IntersectionDenied | ScopeDenied.

(*| runtime/bridge.rs 283-291 CapabilityIntersection *)
Record CapabilityIntersection := mk_CapabilityIntersection {
  runtime_capabilities : gset SandboxCapability; sandbox_capabilities : gset SandboxCapability;
  workflow_tools : gset string; skill_tools : gset string; caller_scopes : gset string;
  tenant_tools : gset string; role_tools : gset string }.

(*| runtime/bridge.rs 316-318 CapabilityIntersection::empty *)
Definition CapabilityIntersection_empty : CapabilityIntersection :=
  mk_CapabilityIntersection ∅ ∅ ∅ ∅ ∅ ∅ ∅.

(*| runtime/bridge.rs 295-313 CapabilityIntersection::new *)
Definition CapabilityIntersection_new (runtime : list SandboxCapability)
    (workflow skill scopes tenant role : list string) (sandbox : list SandboxCapability) :
    CapabilityIntersection :=
  mk_CapabilityIntersection (list_to_set runtime) (list_to_set sandbox) (list_to_set workflow)
    (list_to_set skill) (list_to_set scopes) (list_to_set tenant) (list_to_set role).

(*| runtime/bridge.rs 321-336 CapabilityIntersection::all_for_tool *)
Definition all_for_tool (name : string) (capabilities : list SandboxCapability) :
    CapabilityIntersection :=
  CapabilityIntersection_new capabilities [name] [name] [] [name] [name] capabilities.

Section authorize.
Context `{JsonText}.

(*| runtime/bridge.rs 390-423 CapabilityIntersection::authorize *)
Definition authorize_tool (a : CapabilityIntersection) (registration : ToolRegistration) :
    result CapabilityIntersectionError EffectiveToolCapabilities :=
  let name := name registration in
  if negb (bool_decide (name ∈ workflow_tools a)) || negb (bool_decide (name ∈ skill_tools a)) ||
     negb (bool_decide (name ∈ tenant_tools a)) || negb (bool_decide (name ∈ role_tools a))
  then Err ToolNotAllowed
  else if existsb (λ scope, negb (bool_decide (scope ∈ caller_scopes a)))
            (required_scopes registration)
  then Err ScopeDenied
  else if existsb (λ c, negb (bool_decide (c ∈ runtime_capabilities a)) ||
                        negb (bool_decide (c ∈ sandbox_capabilities a)))
            (required_capabilities registration)
  then Err IntersectionDenied
  else Ok (mk_EffectiveToolCapabilities name (required_capabilities registration)).

(*| runtime/bridge.rs 425-436 CapabilityIntersection::authorize_capabilities *)
Definition authorize_capabilities (a : CapabilityIntersection)
    (capabilities : list SandboxCapability) : result ToolBridgeErrorKind unit :=
  if existsb (λ c, negb (bool_decide (c ∈ runtime_capabilities a)) ||
                   negb (bool_decide (c ∈ sandbox_capabilities a))) capabilities
  then Err SandboxDenied else Ok tt.
End authorize.

(** ** Handlers and the bridge *)

(*| runtime/bridge.rs 79-86 ToolCallContext *)
Record ToolCallContext := mk_ToolCallContext {
  context_call_id : string; context_actor : string; context_fingerprint : string;
  context_idempotency_key : string; context_implementation_digest : string;
  context_deadline : Z }.

(** What a handler declares of a call, before it executes. *)
(*| runtime/bridge.rs 131-175 ToolHandler *)
Record ToolHandler `{JsonText} := mk_ToolHandler {
  handler_capabilities : Value → result ToolBridgeErrorKind (list SandboxCapability);
  requires_approval : Value → result ToolBridgeErrorKind bool }.
Arguments mk_ToolHandler {_}.

(*| runtime/bridge.rs 512-515 RegisteredTool *)
Record RegisteredTool `{JsonText} := mk_RegisteredTool {
  registration : ToolRegistration; tool_handler : ToolHandler }.
Arguments mk_RegisteredTool {_}.

(** A started thread: what its closure captured. *)
(*| runtime/bridge.rs 717-729 ToolBridge::invoke *)
Record worker `{JsonText} := mk_worker {
  worker_tool : RegisteredTool; worker_capabilities : list SandboxCapability;
  worker_context : ToolCallContext; worker_arguments : Value }.
Arguments mk_worker {_}.

(*| runtime/bridge.rs 527-532 ToolBridge *)
Record ToolBridge `{JsonText} := mk_ToolBridge {
  bridge_sandbox : RunSandbox; tools : gmap string RegisteredTool;
  idempotent_results : gmap string (ToolEnvelope Value); in_flight : gmap string worker }.
Arguments mk_ToolBridge {_}.

Record InvokeEnv `{JsonText} := mk_InvokeEnv {
  spawn_ok : bool;
  delivered : option (result ToolBridgeErrorKind (ToolEnvelope Value)) }.
Arguments mk_InvokeEnv {_}.

(** [jsonschema::validator_for(schema)] and [validator.is_valid(value)]. *)
Class JsonSchema `{JsonText} := validator_for : Value → option (Value → bool).

(** ** Results *)

Section bridge.
Context `{IntJson, Sha256} `{!JsonSchema} {A : Type} `{!ArtifactStore A}.

Definition failure_code (f : ToolFailure) : string :=
  match f with
  | InvalidInputFailure => "invalid_input" | NotFound => "not_found"
  | Unavailable => "unavailable" | Internal => "internal"
  end.

Definition provenance_value (p : ToolProvenance) : Value :=
  Object [("tool_id", VString (tool_id p)); ("tool_version", VString (tool_version p))].

(** The serialized form, in the order of the fields. *)
(*| runtime/tool.rs 48-76 ToolEnvelope *)
Definition envelope_value (e : ToolEnvelope Value) : Value :=
  match e with
  | Success payload p next_offset artifact_id =>
      Object ([("status", VString "success"); ("payload", payload);
               ("provenance", provenance_value p)] ++
              from_option (λ o, [("next_offset", jnum o)]) [] next_offset ++
              from_option (λ a, [("artifact_id", VString a)]) [] artifact_id)
  | Empty p => Object [("status", VString "empty"); ("provenance", provenance_value p)]
  | Failure f p => Object [("status", VString "failure"); ("failure", VString (failure_code f));
                           ("provenance", provenance_value p)]
  end.

(** [serde_json::to_vec]. *)
Definition envelope_bytes (e : ToolEnvelope Value) : string := compact (envelope_value e).

(*| runtime/bridge.rs 829-842 validate_output_against_schema *)
Definition validate_output_against_schema (e : ToolEnvelope Value) (schema : Value) :
    result ToolBridgeErrorKind unit :=
  match validator_for schema with
  | None => Err HandlerFailed
  | Some is_valid => if is_valid (normalize (envelope_value e)) then Ok tt else Err HandlerFailed
  end.

(*| runtime/bridge.rs 812-817 validate_output *)
Definition validate_output (e : ToolEnvelope Value) (r : ToolRegistration) :
    result ToolBridgeErrorKind unit := validate_output_against_schema e (output_schema r).

(*| runtime/bridge.rs 819-827 validate_handler_output *)
Definition validate_handler_output (e : ToolEnvelope Value) (r : ToolRegistration) :
    result ToolBridgeErrorKind unit :=
  if is_some (envelope_artifact_id e) || is_some (envelope_next_offset e) then Err HandlerFailed
  else validate_output_against_schema e (handler_output_schema r).

(** The page that keeps [preview_len] bytes inline. *)
(*| runtime/bridge.rs 866-870 bound_output *)
Definition paged (e : ToolEnvelope Value) (bytes artifact_id : string) (preview_len : Z) :
    ToolEnvelope Value :=
  with_artifact artifact_id (Some preview_len)
    (map_payload (λ _, Object [("preview", VString (from_utf8_lossy (slice bytes 0 preview_len)))]) e).

(** The loop; [None] when it has not ended within the fuel. *)
(*| runtime/bridge.rs 865-879 bound_output *)
Fixpoint shrink (fuel : nat) (e : ToolEnvelope Value) (bytes artifact_id : string)
    (limit preview_len : Z) : option (result ToolBridgeErrorKind (ToolEnvelope Value)) :=
  match fuel with
  | O => None
  | S fuel =>
      let candidate := paged e bytes artifact_id preview_len in
      let candidate_len := str_len (envelope_bytes candidate) in
      if (candidate_len <=? limit)%Z then Some (Ok candidate)
      else if (preview_len =? 0)%Z then Some (Err OutputTooLarge)
      else shrink fuel e bytes artifact_id limit
             (Z.max 0 (preview_len - Z.max (candidate_len - limit) 1))
  end.

(** The preview shrinks at every turn ([shrink_ends]). *)
(*| runtime/bridge.rs 844-880 bound_output *)
Definition bound_output (e : ToolEnvelope Value) (r : ToolRegistration) :
    method A ToolBridgeErrorKind (ToolEnvelope Value) := λ artifacts,
  let bytes := envelope_bytes e in
  let limit := inline_output_limit_bytes r in
  if (str_len bytes <=? limit)%Z then (artifacts, Ok e)
  else if negb (paging r) then (artifacts, Err OutputTooLarge)
  else match put bytes artifacts with
  | (artifacts, Err _) => (artifacts, Err ArtifactFailed)
  | (artifacts, Ok artifact_id) =>
      let preview_len := Z.min (str_len bytes) limit in
      (artifacts, default (Err OutputTooLarge)
                    (shrink (S (Z.to_nat preview_len)) e bytes artifact_id limit preview_len))
  end.

(** ** Registration *)

(*| runtime/bridge.rs 536-543 ToolBridge::new *)
Definition ToolBridge_new (sandbox : RunSandbox) : ToolBridge := mk_ToolBridge sandbox ∅ ∅ ∅.

(*| runtime/bridge.rs 591-607 ToolBridge::register_shared *)
Definition register_shared (r : ToolRegistration) (h : ToolHandler) :
    method ToolBridge ToolBridgeErrorKind unit := λ b,
  if is_some (tools b !! name r) then (b, Err DuplicateTool)
  else (mk_ToolBridge (bridge_sandbox b) (<[name r := mk_RegisteredTool r h]> (tools b))
          (idempotent_results b) (in_flight b), Ok tt).

(*| runtime/bridge.rs 555-574 ToolBridge::select *)
Definition select (names : list string) (b : ToolBridge) : result ToolBridgeErrorKind ToolBridge :=
  selected ← traverse (λ name, match tools b !! name with
                               | Some tool => Ok (name, tool)
                               | None => Err UnknownTool
                               end) names;
  Ok (mk_ToolBridge (bridge_sandbox b)
        (foldl (λ m e, <[fst e := snd e]> m) ∅ selected) ∅ ∅).

(*| runtime/bridge.rs 610-612 ToolBridge::registration *)
Definition bridge_registration (b : ToolBridge) (name : string) : option ToolRegistration :=
  registration <$> tools b !! name.

(*| runtime/bridge.rs 615-617 ToolBridge::tool_names *)
Definition bridge_tool_names (b : ToolBridge) : list string :=
  sort_by_key id (map fst (map_to_list (tools b))).

(*| runtime/bridge.rs 620-631 ToolBridge::read_artifact_page *)
Definition read_artifact_page (artifacts : A) (handle : string) (request : PageRequest) :
    result ToolBridgeErrorKind ArtifactPage :=
  match ArtifactId_parse handle with
  | None => Err ArtifactFailed
  | Some id => match read_page artifacts id request with
               | Ok page => Ok page
               | Err _ => Err ArtifactFailed
               end
  end.

(** ** Dispatch *)

(*| runtime/bridge.rs 634-660 ToolBridge::preflight *)
Definition preflight (b : ToolBridge) (tool : string) (arguments : Value)
    (authority : CapabilityIntersection) : result ToolBridgeErrorKind EffectiveToolCapabilities :=
  match tools b !! tool with
  | None => Err UnknownTool
  | Some registered =>
      let r := registration registered in
      match authorize_tool authority r with
      | Err _ => Err BridgeCapabilityDenied
      | Ok effective =>
          if negb (read_only (flags r)) && negb (bool_decide (idempotency r = StableKey))
          then Err IdempotencyRequired
          else match validator_for (input_schema r) with
          | None => Err InvalidInput
          | Some is_valid => if is_valid arguments then Ok effective else Err InvalidInput
          end
      end
  end.

(** [sha256(tool 0 actor 0 call 0 fingerprint)] in hexadecimal. *)
(*| runtime/bridge.rs 791-810 stable_idempotency_key *)
Definition stable_idempotency_key (tool_name actor call_id fingerprint : string) : string :=
  let nul := string_of_list_ascii [ascii_of_nat 0] in
  hex (sha256 (tool_name +:+ nul +:+ actor +:+ nul +:+ call_id +:+ nul +:+ fingerprint)).

(** The tool of an authorized call, the capabilities of its child sandbox, and
    whether it has an effect. *)
(*| runtime/bridge.rs 671-697 ToolBridge::invoke *)
Definition authorize_call (b : ToolBridge) (call : ToolCall) (authority : CapabilityIntersection)
    (approvals : option ApprovalLedger) (now : Z) :
    result ToolBridgeErrorKind (RegisteredTool * list SandboxCapability * bool) :=
  effective ← preflight b (call_name call) (call_arguments call) authority;
  match tools b !! call_name call with
  | None => Err UnknownTool
  | Some registered =>
      let r := registration registered in
      let handler := tool_handler registered in
      extra ← handler_capabilities handler (call_arguments call);
      let capabilities :=
        dedup (sort_by_key as_str (effective_capabilities effective ++ extra)) in
      _ ← authorize_capabilities authority capabilities;
      effectful ← (if negb (read_only (flags r)) then Ok true
                   else requires_approval handler (call_arguments call));
      if (effectful : bool) then
        match approvals with
        | None => Err ApprovalDenied
        | Some ledger =>
            match authorize ledger (call_name call) (call_id call) (call_arguments call)
                    (call_actor call) now with
            | Ok _ => Ok (registered, capabilities, true)
            | Err _ => Err ApprovalDenied
            end
        end
      else Ok (registered, capabilities, false)
  end.

(** [now.saturating_add(Duration::from_millis(timeout_ms))]. *)
Definition call_deadline (now : Z) (r : ToolRegistration) : Z :=
  Z.min (now + duration_millis (timeout_ms r)) duration_max.

(*| runtime/bridge.rs 699-712 ToolBridge::invoke *)
Definition call_context (call : ToolCall) (r : ToolRegistration) (now : Z) : ToolCallContext :=
  let fingerprint := argument_fingerprint (call_arguments call) in
  mk_ToolCallContext (call_id call) (call_actor call) fingerprint
    (stable_idempotency_key (call_name call) (call_actor call) (call_id call) fingerprint)
    (implementation_digest r) (call_deadline now r).

(** What a thread sends: [execute] is reached only through a child sandbox. *)
(*| runtime/bridge.rs 725-729 ToolBridge::invoke *)
Definition thread_result (b : ToolBridge) (w : worker)
    (executed : result ToolBridgeErrorKind (ToolEnvelope Value)) :
    result ToolBridgeErrorKind (ToolEnvelope Value) :=
  match child (worker_capabilities w) (bridge_sandbox b) with
  | Ok _ => executed
  | Err _ => Err SandboxDenied
  end.

(** [recv_timeout] on the channel of a thread. *)
Definition receive (b : ToolBridge) (w : worker) (env : InvokeEnv) :
    result ToolBridgeErrorKind (ToolEnvelope Value) :=
  match delivered env with
  | Some executed => thread_result b w executed
  | None => Err HandlerFailed
  end.

(** The checks of a received result, and its bounding. *)
(*| runtime/bridge.rs 735-743 ToolBridge::invoke *)
Definition accept_result (e : ToolEnvelope Value) (r : ToolRegistration) :
    method A ToolBridgeErrorKind (ToolEnvelope Value) := λ artifacts,
  if negb (bool_decide (envelope_provenance e = provenance r)) then (artifacts, Err ProvenanceMismatch)
  else match validate_handler_output e r with
  | Err k => (artifacts, Err k)
  | Ok _ =>
      match bound_output e r artifacts with
      | (artifacts, Err k) => (artifacts, Err k)
      | (artifacts, Ok e) =>
          match validate_output e r with
          | Err k => (artifacts, Err k)
          | Ok _ => (artifacts, Ok e)
          end
      end
  end.

Definition set_in_flight (f : gmap string worker) (b : ToolBridge) : ToolBridge :=
  mk_ToolBridge (bridge_sandbox b) (tools b) (idempotent_results b) f.
Definition set_results (f : gmap string (ToolEnvelope Value)) (b : ToolBridge) : ToolBridge :=
  mk_ToolBridge (bridge_sandbox b) (tools b) f (in_flight b).

(** The bridge, the artifact store and the threads started so far. *)
Definition system : Type := ToolBridge * A * list worker.

(** The entry stays unless a result was received. *)
(*| runtime/bridge.rs 773-788 ToolBridge::wait_for_in_flight *)
Definition wait_for_in_flight (key : string) (w : worker) (env : InvokeEnv) (b : ToolBridge) :
    ToolBridge * result ToolBridgeErrorKind (ToolEnvelope Value) :=
  match delivered env with
  | Some _ => (set_in_flight (delete key (in_flight b)) b, receive b w env)
  | None => (b, Err HandlerFailed)
  end.

(*| runtime/bridge.rs 713-748 ToolBridge::invoke *)
Definition invoke_effectful (env : InvokeEnv) (w : worker) : method system ToolBridgeErrorKind
    (ToolEnvelope Value) := λ '(b, artifacts, started),
  let key := context_idempotency_key (worker_context w) in
  let r := registration (worker_tool w) in
  match idempotent_results b !! key with
  | Some e => ((b, artifacts, started), Ok e)
  | None =>
      let wait (w : worker) (b : ToolBridge) (started : list worker) :=
        match wait_for_in_flight key w env b with
        | (b, Err k) => ((b, artifacts, started), Err k)
        | (b, Ok e) =>
            match accept_result e r artifacts with
            | (artifacts, Err k) => ((b, artifacts, started), Err k)
            | (artifacts, Ok e) =>
                ((set_results (<[key := e]> (idempotent_results b)) b, artifacts, started), Ok e)
            end
        end in
      match in_flight b !! key with
      | Some running => wait running b started
      | None =>
          if spawn_ok env
          then wait w (set_in_flight (<[key := w]> (in_flight b)) b) (started ++ [w])
          else ((b, artifacts, started), Err HandlerFailed)
      end
  end.

(*| runtime/bridge.rs 749-771 ToolBridge::invoke *)
Definition invoke_read_only (env : InvokeEnv) (w : worker) : method system ToolBridgeErrorKind
    (ToolEnvelope Value) := λ '(b, artifacts, started),
  if negb (spawn_ok env) then ((b, artifacts, started), Err HandlerFailed)
  else match receive b w env with
  | Err k => ((b, artifacts, started ++ [w]), Err k)
  | Ok e =>
      let '(artifacts, result) := accept_result e (registration (worker_tool w)) artifacts in
      ((b, artifacts, started ++ [w]), result)
  end.

(*| runtime/bridge.rs 663-771 ToolBridge::invoke *)
Definition invoke (env : InvokeEnv) (call : ToolCall) (authority : CapabilityIntersection)
    (approvals : option ApprovalLedger) (now : Z) :
    method system ToolBridgeErrorKind (ToolEnvelope Value) := λ '(b, artifacts, started),
  match authorize_call b call authority approvals now with
  | Err k => ((b, artifacts, started), Err k)
  | Ok (registered, capabilities, effectful) =>
      let w := mk_worker registered capabilities (call_context call (registration registered) now)
                 (call_arguments call) in
      (if effectful then invoke_effectful env w else invoke_read_only env w) (b, artifacts, started)
  end.
End bridge.

(** ** Bounding an output *)

Section bounding.
Context `{IntJson, Sha256} `{!JsonSchema} {A : Type} `{!ArtifactStore A}.

(** What an output within the limit looks like. *)
Definition page_of_output (e e' : ToolEnvelope Value) (bytes id : string) : Prop :=
  ∃ n, (0 ≤ n ≤ str_len bytes)%Z ∧ e' = paged e bytes id n.

(** The fuel of [shrink]: the preview length falls at every turn. *)
Lemma shrink_ends fuel e bytes id limit n :
  (0 ≤ n ≤ str_len bytes)%Z → (n < Z.of_nat fuel)%Z →
  match shrink fuel e bytes id limit n with
  | None => False
  | Some (Ok e') => page_of_output e e' bytes id ∧ (str_len (envelope_bytes e') ≤ limit)%Z
  | Some (Err k) => k = OutputTooLarge ∧ (limit < str_len (envelope_bytes (paged e bytes id 0)))%Z
  end.
Proof.
  revert n. induction fuel as [|fuel IH]; intros n Hn Hf; [lia|]. cbn [shrink].
  destruct (Z.leb_spec (str_len (envelope_bytes (paged e bytes id n))) limit).
  { split; [by exists n|done]. }
  destruct (Z.eqb_spec n 0) as [->|Hn0]; [done|].
  assert (0 ≤ Z.max 0 (n - Z.max (str_len (envelope_bytes (paged e bytes id n)) - limit) 1) < n)%Z
    by lia.
  apply IH; lia.
Qed.

(** The output of a tool is bounded.  What the bridge returns is within the
    inline limit of its registration: the result itself if it fits, otherwise,
    where paging is on, a preview of a prefix of its serialized form with the
    handle of the stored artifact and the offset where the rest begins.  The loop
    that shrinks the preview always ends; it gives up exactly when even an empty
    preview is too large. *)
Theorem bound_output_exact (e : ToolEnvelope Value) (r : ToolRegistration) (s : A) :
  (0 < inline_output_limit_bytes r)%Z →
  let bytes := envelope_bytes e in
  let limit := inline_output_limit_bytes r in
  match bound_output e r s with
  | (s', Ok e') =>
      (str_len (envelope_bytes e') ≤ limit)%Z ∧
      (e' = e ∧ s' = s ∧ (str_len bytes ≤ limit)%Z ∨
       (limit < str_len bytes)%Z ∧ paging r = true ∧
       ∃ id, put bytes s = (s', Ok id) ∧ page_of_output e e' bytes id)
  | (s', Err k) =>
      (limit < str_len bytes)%Z ∧
      (k = OutputTooLarge ∧ paging r = false ∧ s' = s ∨
       paging r = true ∧ k = ArtifactFailed ∧ (∃ err, put bytes s = (s', Err err)) ∨
       paging r = true ∧ k = OutputTooLarge ∧
       ∃ id, put bytes s = (s', Ok id) ∧ (limit < str_len (envelope_bytes (paged e bytes id 0)))%Z)
  end.
Proof.
  intros Hl bytes limit. unfold bound_output. fold bytes. fold limit.
  destruct (Z.leb_spec (str_len bytes) limit) as [Hle|Hgt]; [split; auto|].
  destruct (paging r) eqn:Hp; cbn [negb]; [|by split; auto].
  destruct (put bytes s) as [s' [id|err]] eqn:Eput; [|split; [done|right; left; split_and!; [done..|by exists err]]].
  set (n := Z.min (str_len bytes) limit).
  pose proof (shrink_ends (S (Z.to_nat n)) e bytes id limit n) as Hs.
  destruct (shrink _ _ _ _ _ _) as [[e'|k]|]; cbn.
  - destruct Hs as [Hpage Hlim]; [lia|lia|]. split; [done|]. right. split_and!; [done..|by exists id].
  - destruct Hs as [-> Hs]; [lia|lia|]. split; [done|]. right. right.
    split_and!; [done..|by exists id].
  - exfalso. apply Hs; lia.
Qed.

(** Nothing of a tool's output is lost by paging.  When a bounded result
    carries an artifact handle, reading the pages of that artifact gives back
    the whole serialized result, however the store keeps it. *)
Theorem paged_output_recoverable `{!ArtifactStoreLaws A} (e e' : ToolEnvelope Value)
    (r : ToolRegistration) (s s' : A) limit id :
  store_wf s → (0 < inline_output_limit_bytes r)%Z → (0 < limit)%Z →
  envelope_artifact_id e = None →
  bound_output e r s = (s', Ok e') → envelope_artifact_id e' = Some id →
  read_from (String.length (envelope_bytes e)) s' id limit 0 = Ok (envelope_bytes e).
Proof.
  intros Hwf Hr Hl He E Hid. unfold bound_output in E.
  destruct (Z.leb_spec (str_len (envelope_bytes e)) (inline_output_limit_bytes r)) as [Hle|Hgt].
  { injection E as <- <-. congruence. }
  destruct (paging r); cbn [negb] in E; [|done].
  destruct (put (envelope_bytes e) s) as [s1 [aid|err]] eqn:Eput; [|done].
  cbn [fst snd] in E. set (n := Z.min _ _) in E.
  pose proof (shrink_ends (S (Z.to_nat n)) e (envelope_bytes e) aid (inline_output_limit_bytes r) n) as Hs.
  destruct (shrink _ _ _ _ _ _) as [[e2|k]|]; cbn in E; [|done..]. injection E as <- <-.
  destruct Hs as [(m & _ & ->) _]; [subst n; unfold str_len; lia..|].
  apply put_law in Eput as (Hwf' & Haid & Hst & _); [|done].
  assert (Hne : envelope_bytes e ≠ "") by (by destruct e as [? ? [] []| |]).
  assert (id = aid) as ->.
  { destruct e; cbn in Hid; [by injection Hid|done..]. }
  rewrite (read_from_rest _ s1 aid limit 0 (envelope_bytes e)); [by rewrite slice_all|..]; try done.
  - rewrite Haid. apply content_id_visible.
  - destruct (envelope_bytes e); [done|]. unfold str_len. cbn. lia.
  - unfold str_len. lia.
Qed.
End bounding.

(** ** Authorization *)

Section authorization.
Context `{IntJson, Sha256} `{!JsonSchema} {A : Type} `{!ArtifactStore A}.

(** What the bridge requires of a call before its handler may run. *)
Record authorized (b : ToolBridge) (call : ToolCall) (a : CapabilityIntersection)
    (approvals : option ApprovalLedger) (now : Z) (tool : RegisteredTool)
    (capabilities : list SandboxCapability) (effectful : bool) : Prop := mk_authorized {
  auth_tool : tools b !! call_name call = Some tool;
  auth_layers : let n := name (registration tool) in
    n ∈ workflow_tools a ∧ n ∈ skill_tools a ∧ n ∈ tenant_tools a ∧ n ∈ role_tools a;
  auth_scopes scope : scope ∈ required_scopes (registration tool) → scope ∈ caller_scopes a;
  auth_stable : read_only (flags (registration tool)) = true ∨
    idempotency (registration tool) = StableKey;
  auth_input : ∃ is_valid, validator_for (input_schema (registration tool)) = Some is_valid ∧
    is_valid (call_arguments call) = true;
  auth_capabilities : ∃ extra,
    handler_capabilities (tool_handler tool) (call_arguments call) = Ok extra ∧
    capabilities = dedup (sort_by_key as_str (required_capabilities (registration tool) ++ extra));
  auth_granted c : c ∈ capabilities → c ∈ runtime_capabilities a ∧ c ∈ sandbox_capabilities a;
  auth_effectful :
    if effectful
    then (read_only (flags (registration tool)) = false ∨
          requires_approval (tool_handler tool) (call_arguments call) = Ok true) ∧
         ∃ ledger, approvals = Some ledger ∧
           authorize ledger (call_name call) (call_id call) (call_arguments call)
             (call_actor call) now = Ok ApprovalGranted
    else read_only (flags (registration tool)) = true ∧
         requires_approval (tool_handler tool) (call_arguments call) = Ok false }.

Lemma granted_existsb a l :
  existsb (λ c, negb (bool_decide (c ∈ runtime_capabilities a)) ||
                negb (bool_decide (c ∈ sandbox_capabilities a))) l = false ↔
  ∀ c, c ∈ l → c ∈ runtime_capabilities a ∧ c ∈ sandbox_capabilities a.
Proof.
  rewrite existsb_false_iff. setoid_rewrite orb_false_iff. setoid_rewrite negb_false_iff.
  by setoid_rewrite bool_decide_eq_true.
Qed.

Lemma authorize_tool_Ok a r eff :
  authorize_tool a r = Ok eff ↔
  eff = mk_EffectiveToolCapabilities (name r) (required_capabilities r) ∧
  (name r ∈ workflow_tools a ∧ name r ∈ skill_tools a ∧ name r ∈ tenant_tools a ∧
   name r ∈ role_tools a) ∧
  (∀ scope, scope ∈ required_scopes r → scope ∈ caller_scopes a) ∧
  (∀ c, c ∈ required_capabilities r → c ∈ runtime_capabilities a ∧ c ∈ sandbox_capabilities a).
Proof.
  unfold authorize_tool. rewrite !guard_Ok, granted_existsb, existsb_false_iff, !orb_false_iff,
    !negb_false_iff, !bool_decide_eq_true.
  setoid_rewrite negb_false_iff. setoid_rewrite bool_decide_eq_true.
  split; [intros ((((? & ?) & ?) & ?) & ? & ? & [= <-])|intros (-> & (? & ? & ? & ?) & ? & ?)];
    by split_and!.
Qed.

Lemma preflight_Ok b tool arguments a eff :
  preflight b tool arguments a = Ok eff ↔
  ∃ registered, tools b !! tool = Some registered ∧
    let r := registration registered in
    authorize_tool a r = Ok eff ∧ (read_only (flags r) = true ∨ idempotency r = StableKey) ∧
    ∃ is_valid, validator_for (input_schema r) = Some is_valid ∧ is_valid arguments = true.
Proof.
  unfold preflight. destruct (tools b !! tool) as [registered|]; [|naive_solver].
  split.
  - intros E. exists registered. split; [done|]. cbn zeta in *.
    destruct (authorize_tool a (registration registered)) as [eff'|]; [|done].
    destruct (negb _ && negb _) eqn:Es; [done|].
    destruct (validator_for _) as [is_valid|]; [|done].
    destruct (is_valid arguments) eqn:Ev; [|done]. injection E as <-.
    split; [done|]. split; [|by exists is_valid].
    apply andb_false_iff in Es as [Es|Es]; apply negb_false_iff in Es; [by left|].
    apply bool_decide_eq_true in Es. by right.
  - intros (registered' & [= <-] & Ea & Hs & is_valid & Ev & Hv). rewrite Ea.
    assert (negb (read_only (flags (registration registered))) &&
            negb (bool_decide (idempotency (registration registered) = StableKey)) = false) as ->.
    { apply andb_false_iff. destruct Hs as [->| ->]; [by left|right]. by rewrite bool_decide_eq_true_2. }
    by rewrite Ev, Hv.
Qed.

Lemma authorize_call_authorized b call a approvals now tool capabilities effectful :
  authorize_call b call a approvals now = Ok (tool, capabilities, effectful) ↔
  authorized b call a approvals now tool capabilities effectful.
Proof.
  unfold authorize_call. rewrite bind_Ok. setoid_rewrite preflight_Ok. split.
  - intros (eff & (registered & Ht & Ha & Hst & Hin) & E). rewrite Ht in E.
    apply authorize_tool_Ok in Ha as (-> & Hl & Hsc & _). cbn [effective_capabilities] in E.
    apply bind_Ok in E as (extra & Hex & E). apply bind_Ok in E as ([] & Hg & E).
    apply bind_Ok in E as (eff & Heff & E).
    unfold authorize_capabilities in Hg. destruct (existsb _ _) eqn:Hgr; [done|].
    rewrite granted_existsb in Hgr.
    assert (He : tool = registered ∧
      capabilities = dedup (sort_by_key as_str (required_capabilities (registration registered) ++ extra)) ∧
      effectful = eff ∧
      (eff = true → ∃ ledger, approvals = Some ledger ∧
        authorize ledger (call_name call) (call_id call) (call_arguments call)
          (call_actor call) now = Ok ApprovalGranted)).
    { destruct eff; [|by injection E as <- <- <-].
      destruct approvals as [ledger|]; [|done].
      destruct (authorize ledger _ _ _ _ _) as [[]|] eqn:Eau; [|done].
      injection E as <- <- <-. split_and!; [done..|]. intros _. by exists ledger. }
    destruct He as (-> & -> & -> & Hap). split; [done..|by exists extra|done|].
    { destruct (read_only (flags (registration registered))) eqn:Ero; cbn in Heff.
      - destruct eff; [|done]. split; [by right|by apply Hap].
      - injection Heff as <-. split; [by left|by apply Hap]. }
  - intros [Ht Hl Hsc Hst Hin (extra & Hex & ->) Hg Heff].
    exists (mk_EffectiveToolCapabilities (name (registration tool))
              (required_capabilities (registration tool))). split.
    + exists tool. split; [done|]. split; [|done]. apply authorize_tool_Ok.
      split; [done|]. split; [exact Hl|]. split; [done|].
      intros c Hc. apply Hg, elem_of_dedup, elem_of_sort_by_key, elem_of_app. by left.
    + rewrite Ht, Hex. cbn [effective_capabilities]. unfold mbind, result_bind.
      unfold authorize_capabilities. apply granted_existsb in Hg. rewrite Hg.
      destruct effectful.
      * destruct Heff as [Hro (ledger & -> & Hau)]. rewrite Hau.
        destruct (read_only (flags (registration tool))); cbn; [|done].
        destruct Hro as [|Hro]; [done|]. by rewrite Hro.
      * destruct Heff as [Hro Hra]. by rewrite Hro, Hra.
Qed.

(** A call is dispatched exactly when every layer allows it: the tool is
    registered and named by the workflow, the skill, the tenant and the role, the
    caller has its scopes, the runtime and the sandbox both grant every capability
    the registration and the handler ask for, its arguments satisfy its schema, a
    tool with effects declares a stable key, and an effect (declared by the tool or
    by the handler for these arguments) is approved for exactly this call. *)
Theorem bridge_authorization_exact b call a approvals now tool capabilities effectful :
  authorize_call b call a approvals now = Ok (tool, capabilities, effectful) ↔
  authorized b call a approvals now tool capabilities effectful.
Proof.
  apply authorize_call_authorized.
Qed.
End authorization.

(** ** Runs of a bridge *)

Section runs.
Context `{IntJson, Sha256} `{!JsonSchema} {A : Type} `{!ArtifactStore A}.
Implicit Types (b : ToolBridge) (art : A) (started : list worker).

Definition call_key (call : ToolCall) : string :=
  stable_idempotency_key (call_name call) (call_actor call) (call_id call)
    (argument_fingerprint (call_arguments call)).

Definition worker_key (w : worker) : string := context_idempotency_key (worker_context w).

(** The thread executes a call with an effect. *)
Definition effectful_worker (w : worker) : bool :=
  negb (read_only (flags (registration (worker_tool w)))) ||
  match requires_approval (tool_handler (worker_tool w)) (worker_arguments w) with
  | Ok true => true
  | _ => false
  end.

(** The thread an authorized call starts. *)
Definition call_worker (call : ToolCall) (tool : RegisteredTool)
    (capabilities : list SandboxCapability) (now : Z) : worker :=
  mk_worker tool capabilities (call_context call (registration tool) now) (call_arguments call).

(** What one invocation does to the bridge. *)
Inductive invoked (env : InvokeEnv) (call : ToolCall) (a : CapabilityIntersection)
    (approvals : option ApprovalLedger) (now : Z) b art started :
    system (A := A) → result ToolBridgeErrorKind (ToolEnvelope Value) → Prop :=
| inv_refused k :
    authorize_call b call a approvals now = Err k →
    invoked env call a approvals now b art started (b, art, started) (Err k)
| inv_unspawned tool caps eff k :
    authorize_call b call a approvals now = Ok (tool, caps, eff) → spawn_ok env = false →
    (eff = true → idempotent_results b !! call_key call = None ∧
                  in_flight b !! call_key call = None) →
    invoked env call a approvals now b art started (b, art, started) (Err k)
| inv_read_only tool caps art' r :
    authorize_call b call a approvals now = Ok (tool, caps, false) →
    invoked env call a approvals now b art started
      (b, art', started ++ [call_worker call tool caps now]) r
| inv_replayed tool caps e :
    authorize_call b call a approvals now = Ok (tool, caps, true) →
    idempotent_results b !! call_key call = Some e →
    invoked env call a approvals now b art started (b, art, started) (Ok e)
| inv_waited tool caps b0 started' running art' b' r :
    authorize_call b call a approvals now = Ok (tool, caps, true) →
    idempotent_results b !! call_key call = None →
    (in_flight b !! call_key call = Some running ∧ b0 = b ∧ started' = started ∨
     in_flight b !! call_key call = None ∧ spawn_ok env = true ∧
       running = call_worker call tool caps now ∧ started' = started ++ [running] ∧
       b0 = set_in_flight (<[call_key call := running]> (in_flight b)) b) →
    match delivered env with
    | None => b' = b0 ∧ r = Err HandlerFailed
    | Some _ =>
        let b1 := set_in_flight (delete (call_key call) (in_flight b0)) b0 in
        match r with
        | Ok e => b' = set_results (<[call_key call := e]> (idempotent_results b)) b1
        | Err _ => b' = b1
        end
    end →
    invoked env call a approvals now b art started (b', art', started') r.

Lemma invoke_invoked env call a approvals now b art started sys r :
  invoke env call a approvals now (b, art, started) = (sys, r) →
  invoked env call a approvals now b art started sys r.
Proof.
  cbn [invoke]. destruct (authorize_call b call a approvals now) as [[[tool caps] eff]|k] eqn:Ea;
    [|intros [= <- <-]; by constructor].
  destruct eff.
  - unfold invoke_effectful. cbn [worker_context registration worker_tool].
    change (context_idempotency_key _) with (call_key call).
    destruct (idempotent_results b !! call_key call) as [e|] eqn:Er;
      [intros [= <- <-]; by eapply inv_replayed|].
    assert (Hwait : ∀ b0 started' running,
      idempotent_results b0 = idempotent_results b →
      (in_flight b !! call_key call = Some running ∧ b0 = b ∧ started' = started ∨
       in_flight b !! call_key call = None ∧ spawn_ok env = true ∧
         running = call_worker call tool caps now ∧ started' = started ++ [running] ∧
         b0 = set_in_flight (<[call_key call := running]> (in_flight b)) b) →
      match wait_for_in_flight (call_key call) running env b0 with
      | (b, Err k) => ((b, art, started'), Err k)
      | (b, Ok e) =>
          match accept_result e (registration tool) art with
          | (artifacts, Err k) => ((b, artifacts, started'), Err k)
          | (artifacts, Ok e) =>
              ((set_results (<[call_key call:=e]> (idempotent_results b)) b, artifacts, started'), Ok e)
          end
      end = (sys, r) → invoked env call a approvals now b art started sys r).
    { intros b0 started' running Hres Hrun. unfold wait_for_in_flight.
      destruct (delivered env) as [d|] eqn:Ed.
      - destruct (receive b0 running env) as [e|k]; [|intros [= <- <-]; eapply inv_waited; try done;
          by rewrite Ed].
        destruct (accept_result e _ art) as [art' [e'|k]]; intros [= <- <-];
          (eapply inv_waited; try done); rewrite Ed; [|done]. cbn. by rewrite Hres.
      - intros [= <- <-]. eapply inv_waited; try done. by rewrite Ed. }
    destruct (in_flight b !! call_key call) as [running|] eqn:Ef.
    + apply Hwait; [done|]. by left.
    + destruct (spawn_ok env) eqn:Es.
      * apply Hwait; [done|]. by right.
      * intros [= <- <-]. by eapply inv_unspawned.
  - unfold invoke_read_only. destruct (spawn_ok env) eqn:Es; cbn [negb].
    + destruct (receive b _ env) as [e|k]; [|intros [= <- <-]; by eapply inv_read_only].
      destruct (accept_result e _ art) as [art' r']. intros [= <- <-]. by eapply inv_read_only.
    + intros [= <- <-]. by eapply inv_unspawned.
Qed.

Lemma authorized_worker call a approvals now b tool caps eff :
  authorize_call b call a approvals now = Ok (tool, caps, eff) →
  authorized b call a approvals now tool caps eff ∧
  effectful_worker (call_worker call tool caps now) = eff ∧
  (∀ granted, child caps (bridge_sandbox b) = Ok granted →
     ∀ c, c ∈ granted → c ∈ sandbox_authority (bridge_sandbox b) ∧
          c ∈ runtime_capabilities a ∧ c ∈ sandbox_capabilities a) ∧
  (approvals = None → eff = false).
Proof.
  intros Ha%authorize_call_authorized. split; [done|]. destruct Ha as [_ _ _ _ _ _ Hg He].
  split_and!.
  - unfold effectful_worker. cbn. destruct eff.
    + destruct He as [[->| ->] _]; [done|apply orb_true_r].
    + by destruct He as [-> ->].
  - intros granted. unfold child. destruct (bool_decide _) eqn:Eb; cbn [negb]; [|done].
    apply bool_decide_eq_true in Eb. intros [= <-] c Hc. split; [by apply Eb|].
    apply Hg. by apply elem_of_list_to_set in Hc.
  - intros ->. destruct eff; [|done]. by destruct He as [_ (ledger & ? & _)].
Qed.

Lemma invoke_dispatch env call a approvals now b art started b' art' started' r :
  invoke env call a approvals now (b, art, started) = ((b', art', started'), r) →
  tools b' = tools b ∧ bridge_sandbox b' = bridge_sandbox b ∧
  (started' = started ∨
   ∃ tool capabilities effectful,
     authorized b call a approvals now tool capabilities effectful ∧
     started' = started ++ [call_worker call tool capabilities now] ∧
     effectful_worker (call_worker call tool capabilities now) = effectful ∧
     (∀ granted, child capabilities (bridge_sandbox b) = Ok granted →
        ∀ c, c ∈ granted → c ∈ sandbox_authority (bridge_sandbox b) ∧
             c ∈ runtime_capabilities a ∧ c ∈ sandbox_capabilities a) ∧
     (approvals = None → effectful = false)) ∧
  (∀ e, r = Ok e → ∃ tool capabilities effectful,
     authorized b call a approvals now tool capabilities effectful).
Proof.
  intros E%invoke_invoked.
  assert (Hw : ∀ tool caps eff, authorize_call b call a approvals now = Ok (tool, caps, eff) →
    authorized b call a approvals now tool caps eff ∧
    effectful_worker (call_worker call tool caps now) = eff ∧
    (∀ granted, child caps (bridge_sandbox b) = Ok granted →
       ∀ c, c ∈ granted → c ∈ sandbox_authority (bridge_sandbox b) ∧
            c ∈ runtime_capabilities a ∧ c ∈ sandbox_capabilities a) ∧
    (approvals = None → eff = false)) by apply authorized_worker.
  inversion E as [k Ea|tool caps eff k Ea|tool caps ? ? Ea|tool caps e Ea|
    tool caps b0 st running ? ? ? Ea _ Hrun Hd]; subst.
  - split_and!; [done..|by left|done].
  - split_and!; [done..|by left|done].
  - split_and!; [done..|right; by destruct (Hw _ _ _ Ea) as (? & ? & ? & ?); exists tool, caps, false|].
    intros e ->. destruct (Hw _ _ _ Ea) as [Hau _]. by exists tool, caps, false.
  - destruct (Hw _ _ _ Ea) as [Hau _]. split_and!; [done..|by left|]. intros ??. by exists tool, caps, true.
  - destruct (Hw _ _ _ Ea) as (Hau & He & Hc & Hn).
    assert (Hb0 : tools b0 = tools b ∧ bridge_sandbox b0 = bridge_sandbox b).
    { by destruct Hrun as [(_ & -> & _)|(_ & _ & _ & _ & ->)]. }
    assert (Hb' : tools b' = tools b0 ∧ bridge_sandbox b' = bridge_sandbox b0).
    { destruct (delivered env); [destruct r; by rewrite Hd|]. by destruct Hd as [-> _]. }
    destruct Hb0 as [H1' H2'], Hb' as [H3' H4']. split_and!; [congruence..| |].
    + destruct Hrun as [(_ & _ & ->)|(_ & _ & -> & -> & _)]; [by left|right].
      exists tool, caps, true. by split_and!.
    + intros ??. by exists tool, caps, true.
Qed.

(** Without an approval ledger the records of effects stay as they are. *)
Lemma invoke_unapproved env call a now b art started b' art' started' r :
  invoke env call a None now (b, art, started) = ((b', art', started'), r) →
  b' = b ∧ (started' = started ∨ ∃ tool capabilities,
    authorized b call a None now tool capabilities false ∧
    started' = started ++ [call_worker call tool capabilities now]).
Proof.
  intros E%invoke_invoked.
  assert (Hno : ∀ tool caps, authorize_call b call a None now ≠ Ok (tool, caps, true)).
  { intros tool caps [_ _ _ _ _ _ _ [_ (l & ? & _)]]%authorize_call_authorized. done. }
  inversion E as [k Ea|tool caps eff k Ea|tool caps ? ? Ea|tool caps e Ea|tool caps b0 st running ? ? ? Ea];
    subst; try (by destruct (Hno tool caps)); (split; [done|]); [by left|by left|right].
  exists tool, caps. split; [|done]. by apply authorize_call_authorized.
Qed.

(** C28. A handler runs only for an authorized call.  One invocation starts at most
    one thread.  If it starts one, the call was authorized by every layer, the
    thread executes that call (its arguments, its fingerprint and key, the
    registered implementation), and its child sandbox asks for exactly the
    authorized capabilities, all of them granted by the runtime and sandbox
    layers; without an approval ledger no thread with an effect is started.  Any
    result, even a replayed one, is returned only to an authorized call. *)
Theorem bridge_dispatch_authorized env call a approvals now b art started b' art' started' r :
  invoke env call a approvals now (b, art, started) = ((b', art', started'), r) →
  tools b' = tools b ∧ bridge_sandbox b' = bridge_sandbox b ∧
  (started' = started ∨
   ∃ tool capabilities effectful,
     authorized b call a approvals now tool capabilities effectful ∧
     started' = started ++ [call_worker call tool capabilities now] ∧
     effectful_worker (call_worker call tool capabilities now) = effectful ∧
     (∀ granted, child capabilities (bridge_sandbox b) = Ok granted →
        ∀ c, c ∈ granted → c ∈ sandbox_authority (bridge_sandbox b) ∧
             c ∈ runtime_capabilities a ∧ c ∈ sandbox_capabilities a) ∧
     (approvals = None → effectful = false)) ∧
  (∀ e, r = Ok e → ∃ tool capabilities effectful,
     authorized b call a approvals now tool capabilities effectful).
Proof. apply invoke_dispatch. Qed.

(** *** Exactly once, as long as the result is accepted *)

Definition is_err {E X} (r : result E X) : bool := match r with Err _ => true | Ok _ => false end.

(** The invocation received the result of a call with an effect and did not
    accept it: the handler failed, or its output was refused. *)
Definition rejects (env : InvokeEnv) (call : ToolCall) (a : CapabilityIntersection)
    (approvals : option ApprovalLedger) (now : Z) b
    (r : result ToolBridgeErrorKind (ToolEnvelope Value)) : bool :=
  match authorize_call b call a approvals now with
  | Ok (_, _, true) =>
      is_some (delivered env) && is_err r && (spawn_ok env || is_some (in_flight b !! call_key call))
  | _ => false
  end.

(** A bridge and the keys of the results it rejected, in order. *)
Inductive bridge_run : list string → system (A := A) → Prop :=
| run_new sandbox art : bridge_run [] (ToolBridge_new sandbox, art, [])
| run_register rejected r h b art started b' res :
    bridge_run rejected (b, art, started) → register_shared r h b = (b', res) →
    bridge_run rejected (b', art, started)
| run_invoke rejected env call a approvals now b art started sys r :
    bridge_run rejected (b, art, started) →
    invoke env call a approvals now (b, art, started) = (sys, r) →
    bridge_run (if rejects env call a approvals now b r then rejected ++ [call_key call] else rejected)
      sys.

Definition count_key (key : string) (l : list string) : nat :=
  length (List.filter (λ k, str_eqb k key) l).

(** How often a call with an effect was executed under a key. *)
Definition executions (key : string) started : nat :=
  length (List.filter (λ w, effectful_worker w && str_eqb (worker_key w) key) started).

Definition present {X} (o : option X) : nat := match o with Some _ => 1 | None => 0 end.

Definition once b started rejected (key : string) : Prop :=
  executions key started =
    count_key key rejected + present (in_flight b !! key) + present (idempotent_results b !! key) ∧
  (is_Some (idempotent_results b !! key) → in_flight b !! key = None).

Lemma executions_snoc key started w :
  executions key (started ++ [w]) =
  executions key started + (if effectful_worker w && str_eqb (worker_key w) key then 1 else 0).
Proof.
  unfold executions. rewrite List.filter_app, length_app. cbn. by destruct (_ && _).
Qed.

Lemma count_key_snoc key l k :
  count_key key (l ++ [k]) = count_key key l + (if str_eqb k key then 1 else 0).
Proof. unfold count_key. rewrite List.filter_app, length_app. cbn. by destruct (str_eqb k key). Qed.

Lemma rejects_unstarted env call a approvals now b r :
  (∀ tool caps, authorize_call b call a approvals now = Ok (tool, caps, true) →
     delivered env = None ∨ is_err r = false ∨
     spawn_ok env = false ∧ in_flight b !! call_key call = None) →
  rejects env call a approvals now b r = false.
Proof.
  intros Hr. unfold rejects.
  destruct (authorize_call b call a approvals now) as [[[tool caps] []]|]; [|done..].
  destruct (Hr tool caps eq_refl) as [-> |[-> |[-> ->]]]; [done|by rewrite andb_false_r|].
  by rewrite andb_false_r.
Qed.

Lemma once_invoked env call a approvals now b art started b' art' started' r rejected key :
  invoked env call a approvals now b art started (b', art', started') r →
  once b started rejected key →
  once b' started'
    (if rejects env call a approvals now b r then rejected ++ [call_key call] else rejected) key.
Proof.
  intros Hinv Ho. inversion Hinv as [k Ea|tool caps eff k Ea Hsp Hn|tool caps ? ? Ea|tool caps e Ea Hres|
    tool caps b0 st running ? ? ? Ea Hres Hrun Hd]; subst.
  - rewrite rejects_unstarted; [done|]. congruence.
  - rewrite rejects_unstarted; [done|]. intros tool' caps' E. rewrite E in Ea. injection Ea as <- <- <-.
    right. right. split; [done|]. by apply Hn.
  - rewrite rejects_unstarted; [|congruence]. unfold once. rewrite executions_snoc.
    destruct (authorized_worker _ _ _ _ _ _ _ _ Ea) as (_ & -> & _). by rewrite Nat.add_0_r.
  - rewrite rejects_unstarted; [done|]. auto.
  - destruct (authorized_worker _ _ _ _ _ _ _ _ Ea) as (_ & Heff & _).
    assert (Hrej : rejects env call a approvals now b r = is_some (delivered env) && is_err r).
    { unfold rejects. rewrite Ea. destruct Hrun as [(-> & _)|(_ & -> & _)];
        by rewrite ?orb_true_r, ?andb_true_r. }
    rewrite Hrej. clear Hrej. destruct Ho as [Hex Hres'].
    (* the state when the wait begins *)
    assert (Hbegin : executions key started' =
        count_key key rejected + present (in_flight b0 !! key) + present (idempotent_results b !! key) ∧
      idempotent_results b0 = idempotent_results b ∧
      (call_key call = key → in_flight b0 !! key ≠ None) ∧
      (is_Some (idempotent_results b !! key) → in_flight b0 !! key = None)).
    { destruct Hrun as [(Hf & -> & ->)|(Hf & Hs & -> & -> & ->)].
      - split_and!; [done|done| |done]. intros <-. by rewrite Hf.
      - rewrite executions_snoc, Heff. cbn [andb in_flight set_in_flight idempotent_results].
        change (worker_key _) with (call_key call).
        destruct (str_eqb (call_key call) key) eqn:Ek.
        + apply str_eqb_eq in Ek as <-. rewrite lookup_insert_eq. cbn [present].
          rewrite Hf in Hex. cbn [present] in Hex. rewrite Hres. rewrite Hres in Hex.
          split_and!; [lia|done|done|]. by intros [? ?].
        + assert (call_key call ≠ key) by (intros E; apply str_eqb_eq in E; congruence).
          rewrite lookup_insert_ne by done. split_and!; [lia|done|done|done]. }
    clear Hrun Hex Hres'. destruct Hbegin as (Hex & Hr0 & Hin & Hboth).
    destruct (delivered env) as [d|]; cbn [is_some andb].
    + destruct (decide (call_key call = key)) as [<-|Hne].
      * rewrite Hres in Hex. specialize (Hin eq_refl).
        destruct (in_flight b0 !! call_key call) as [x|]; [|done]. cbn [present] in Hex.
        destruct r as [e|k]; rewrite Hd; unfold once;
          cbn [set_results set_in_flight in_flight idempotent_results is_err];
          rewrite ?Hr0, lookup_delete_eq.
        -- rewrite lookup_insert_eq. cbn [present]. split; [lia|done].
        -- rewrite count_key_snoc, Hres. unfold str_eqb. rewrite bool_decide_eq_true_2 by done.
           cbn [present]. split; [lia|done].
      * destruct r as [e|k]; rewrite Hd; unfold once;
          cbn [set_results set_in_flight in_flight idempotent_results is_err];
          rewrite ?Hr0, lookup_delete_ne by done.
        -- rewrite lookup_insert_ne by done. by split.
        -- rewrite count_key_snoc. unfold str_eqb. rewrite bool_decide_eq_false_2 by done.
           split; [lia|done].
    + destruct Hd as [-> ->]. unfold once. rewrite Hr0. by split.
Qed.

(** C27. A side effect is executed once per accepted result.  In every run of a
    bridge, for every key, the executions of calls with an effect are the results
    it rejected (the handler failed or its output was refused), plus one if a
    thread is running, plus one if a result was accepted, never both: so no
    effect starts while the same call is running, and after a result is accepted
    every later authorized call with the key gets that result and starts nothing.
    An effect is repeated only after its result was rejected. *)
Theorem bridge_effect_once rejected b art started key :
  bridge_run rejected (b, art, started) →
  executions key started =
    count_key key rejected + present (in_flight b !! key) + present (idempotent_results b !! key) ∧
  executions key started ≤ S (count_key key rejected) ∧
  (∀ env call a approvals now tool caps e,
     call_key call = key → authorize_call b call a approvals now = Ok (tool, caps, true) →
     idempotent_results b !! key = Some e →
     invoke env call a approvals now (b, art, started) = ((b, art, started), Ok e)).
Proof.
  intros Hrun.
  assert (Ho : once b started rejected key).
  { remember (b, art, started) as s eqn:Es. revert b art started Es.
    induction Hrun as [sandbox art0|rejected r h b0 art0 started0 b1 res Hrun IH E|
      rejected env call a approvals now b0 art0 started0 sys r Hrun IH E]; intros b art started Es.
    - injection Es as <- <- <-. split; [done|]. by intros [? ?].
    - injection Es as <- <- <-. specialize (IH _ _ _ eq_refl). unfold register_shared in E.
      destruct (is_some _); by injection E as <- <-.
    - subst sys. apply invoke_invoked in E. eapply once_invoked; [done|]. by eapply IH. }
  destruct Ho as [Hex Hboth]. split_and!; [done| |].
  - destruct (idempotent_results b !! key) as [e|].
    + rewrite Hboth in Hex by done. cbn in Hex. lia.
    + cbn in Hex. destruct (in_flight b !! key); cbn in Hex; lia.
  - intros env call a approvals now tool caps e <- Ea He. cbn [invoke]. rewrite Ea.
    unfold invoke_effectful. cbn [worker_context registration worker_tool].
    change (context_idempotency_key _) with (call_key call). by rewrite He.
Qed.
End runs.

(** ** One key for two calls *)

(** The idempotency key does not bind the actor to the call: it joins its fields
    with NUL bytes, and neither the actor nor the call identifier is checked for
    one, so two calls of different actors can share a key; once the first has a
    result, the second, although it was approved for itself, gets that result and
    is never executed. *)
Theorem idempotency_key_collision `{IntJson, Sha256} `{!JsonSchema} {A : Type} `{!ArtifactStore A}
    (a c d : string) (tool : string) (arguments : Value) (nul := String (ascii_of_nat 0)) :
  let mine := mk_ToolCall tool (c +:+ nul d) a arguments in
  let yours := mk_ToolCall tool d (a +:+ nul c) arguments in
  call_key mine = call_key yours ∧
  ∀ env authority approvals now b (art : A) started registered caps e,
    idempotent_results b !! call_key mine = Some e →
    authorize_call b yours authority approvals now = Ok (registered, caps, true) →
    invoke env yours authority approvals now (b, art, started) = ((b, art, started), Ok e).
Proof.
  intros mine yours.
  assert (Hk : call_key mine = call_key yours).
  { unfold call_key, stable_idempotency_key. cbn. do 2 f_equal. rewrite !str_app_assoc. done. }
  split; [done|]. intros env authority approvals now b art started registered caps e He Ha.
  cbn [invoke]. rewrite Ha. unfold invoke_effectful. cbn [worker_context registration worker_tool].
  change (context_idempotency_key _) with (call_key yours). by rewrite <- Hk, He.
Qed.

(** ** A concrete bridge *)

#[local] Existing Instance ex_json_Z.
#[local] Instance ex_int : IntJson := λ z, z.
#[local] Instance ex_sha : Sha256 := λ s, String.substring 0 20 s.
#[local] Instance ex_schema : JsonSchema := λ _, Some (λ _, true).

Definition ex_provenance : ToolProvenance := mk_ToolProvenance "issue.close" "1".
Definition ex_registration (limit : Z) (paging : bool) : ToolRegistration :=
  mk_ToolRegistration "close" ex_provenance Null Null Null (mk_ToolFlags false false true) [Network]
    [] 1000 limit paging StableKey "digest".
Definition ex_handler : ToolHandler := mk_ToolHandler (λ _, Ok []) (λ _, Ok false).
Definition ex_sandbox : RunSandbox := mk_RunSandbox {[Network]}.
Definition ex_authority : CapabilityIntersection := all_for_tool "close" [Network].
Definition ex_call : ToolCall := mk_ToolCall "close" "c1" "alice" Null.
Definition ex_ledger : ApprovalLedger := grant ApprovalLedger_new "close" "c1" Null "alice" (10 ^ 12).
Definition ex_artifacts : InMemoryArtifactStore := InMemoryArtifactStore_new 1000 1000 1.
Definition ex_large : ToolEnvelope Value := Success (VString "0123456789") ex_provenance None None.

Lemma bound_output_exact_witness :
  (bound_output ex_large (ex_registration 400 true) ex_artifacts).2 = Ok ex_large ∧
  match (bound_output (A := InMemoryArtifactStore) ex_large (ex_registration 10 false) ex_artifacts) with
  | (s', Err k) => k = OutputTooLarge ∧ s' = ex_artifacts
  | _ => False
  end.
Proof.
  split; [by vm_compute|].
  pose proof (bound_output_exact ex_large (ex_registration 10 false) ex_artifacts eq_refl) as Hb.
  assert (Hok : match (bound_output ex_large (ex_registration 10 false) ex_artifacts).2 with
                | Ok _ => False | Err _ => True end) by by vm_compute.
  destruct (bound_output ex_large (ex_registration 10 false) ex_artifacts) as [s' [e|k]]; [done|].
  by destruct Hb as [_ [(-> & _ & ->)|[(? & _)|(? & _)]]].
Defined.

Definition ex_long : ToolEnvelope Value :=
  Success (VString (string_of_list_ascii (replicate 400 "x"%char))) ex_provenance None None.

Lemma paged_output_recoverable_witness :
  match bound_output ex_long (ex_registration 900 true) ex_artifacts with
  | (s', Ok e') =>
      (str_len (envelope_bytes e') ≤ 900)%Z ∧
      ∃ id, envelope_artifact_id e' = Some id ∧
        read_from (String.length (envelope_bytes ex_long)) s' id 64 0 = Ok (envelope_bytes ex_long)
  | _ => False
  end.
Proof.
  assert (Hok : match (bound_output ex_long (ex_registration 900 true) ex_artifacts).2 with
    | Ok e => is_some (envelope_artifact_id e) && (str_len (envelope_bytes e) <=? 900)%Z
    | Err _ => false end = true) by by vm_compute.
  assert (Hwf : store_wf ex_artifacts) by (apply memory_new_wf; unfold u64, u64_modulus; lia).
  destruct (bound_output ex_long (ex_registration 900 true) ex_artifacts) as [s' [e'|k]] eqn:E; [|done].
  cbn [snd] in Hok. apply andb_prop in Hok as [Hid Hlen]. split; [by apply Z.leb_le|].
  destruct (envelope_artifact_id e') as [id|] eqn:Ei; [|done]. exists id. split; [done|].
  by apply (paged_output_recoverable ex_long e' (ex_registration 900 true) ex_artifacts s' 64 id Hwf).
Defined.

Definition ex_bridge : ToolBridge :=
  (register_shared (ex_registration 2000 false) ex_handler (ToolBridge_new ex_sandbox)).1.
Definition ex_invoke (delivered : option (result ToolBridgeErrorKind (ToolEnvelope Value)))
    (s : system (A := InMemoryArtifactStore)) :
    system (A := InMemoryArtifactStore) * result ToolBridgeErrorKind (ToolEnvelope Value) :=
  invoke (mk_InvokeEnv true delivered) ex_call ex_authority (Some ex_ledger) 5 s.

Definition ex_answer (r : result ToolBridgeErrorKind (ToolEnvelope Value)) :
    option ToolBridgeErrorKind := match r with Ok _ => None | Err k => Some k end.

Lemma bridge_dispatch_authorized_witness :
  ∃ b art w r, ex_invoke (Some (Ok ex_large)) (ex_bridge, ex_artifacts, []) = ((b, art, [w]), r) ∧
    ex_answer r = None ∧ ∃ tool capabilities effectful,
      authorized ex_bridge ex_call ex_authority (Some ex_ledger) 5 tool capabilities effectful.
Proof.
  assert (Hok : match ex_invoke (Some (Ok ex_large)) (ex_bridge, ex_artifacts, []) with
    | ((_, _, [w]), Ok _) => true | _ => false end = true) by by vm_compute.
  destruct (ex_invoke _ _) as [[[b art] started] r] eqn:E. destruct started as [|w [|]]; [done| |done].
  destruct r as [e|k]; [|done]. exists b, art, w, (Ok e). split; [done|]. split; [done|].
  by destruct (bridge_dispatch_authorized _ _ _ _ _ _ _ _ _ _ _ _ E) as (_ & _ & _ & Hr); apply (Hr e).
Defined.

(** The first result is refused for its provenance, the second is accepted, the
    third invocation replays it: two executions, one rejection. *)
Definition ex_wrong : ToolEnvelope Value := Empty (mk_ToolProvenance "other" "1").

Definition ex_system (answers : list (ToolEnvelope Value)) : system (A := InMemoryArtifactStore) :=
  foldl (λ s e, (ex_invoke (Some (Ok e)) s).1) (ex_bridge, ex_artifacts, []) answers.

(** The keys rejected while the answers arrive. *)
Fixpoint ex_rejected (answers : list (ToolEnvelope Value)) (s : system (A := InMemoryArtifactStore))
    (rejected : list string) : list string :=
  match answers with
  | [] => rejected
  | e :: answers =>
      let '(s', r) := ex_invoke (Some (Ok e)) s in
      ex_rejected answers s'
        (if rejects (mk_InvokeEnv true (Some (Ok e))) ex_call ex_authority (Some ex_ledger) 5 s.1.1 r
         then rejected ++ [call_key ex_call] else rejected)
  end.

Lemma ex_bridge_run answers s rejected :
  bridge_run rejected s →
  bridge_run (ex_rejected answers s rejected) (foldl (λ s e, (ex_invoke (Some (Ok e)) s).1) s answers).
Proof.
  revert s rejected. induction answers as [|e answers IH]; intros s rejected Hs; [done|].
  cbn [ex_rejected foldl]. destruct (ex_invoke (Some (Ok e)) s) as [s' r] eqn:E. cbn [fst].
  apply IH. destruct s as [[b art] started]. by eapply run_invoke.
Qed.

Lemma bridge_effect_once_witness :
  executions (call_key ex_call) (ex_system [ex_wrong; ex_large; ex_large]).2 = 2 ∧
  executions (call_key ex_call) (ex_system [ex_large; ex_large]).2 ≤ 1.
Proof.
  assert (Hnew : bridge_run [] (ex_bridge, ex_artifacts, [])).
  { eapply run_register; [apply (run_new ex_sandbox ex_artifacts)|]. apply surjective_pairing. }
  split.
  - pose proof (ex_bridge_run [ex_wrong; ex_large; ex_large] _ _ Hnew) as Hrun. fold (ex_system [ex_wrong; ex_large; ex_large]) in Hrun.
    assert (Hc : count_key (call_key ex_call)
      (ex_rejected [ex_wrong; ex_large; ex_large] (ex_bridge, ex_artifacts, []) []) = 1) by by vm_compute.
    assert (Hr : present (idempotent_results (ex_system [ex_wrong; ex_large; ex_large]).1.1 !! call_key ex_call) +
                 present (in_flight (ex_system [ex_wrong; ex_large; ex_large]).1.1 !! call_key ex_call) = 1)
      by by vm_compute.
    destruct (ex_system [ex_wrong; ex_large; ex_large]) as [[b art] started].
    destruct (bridge_effect_once _ _ _ _ (call_key ex_call) Hrun) as [He _]. cbn [fst snd] in *. lia.
  - pose proof (ex_bridge_run [ex_large; ex_large] _ _ Hnew) as Hrun. fold (ex_system [ex_large; ex_large]) in Hrun.
    assert (Hc : count_key (call_key ex_call)
      (ex_rejected [ex_large; ex_large] (ex_bridge, ex_artifacts, []) []) = 0) by by vm_compute.
    destruct (ex_system [ex_large; ex_large]) as [[b art] started].
    destruct (bridge_effect_once _ _ _ _ (call_key ex_call) Hrun) as (_ & He & _). cbn [fst snd] in *. lia.
Defined.
