(* ===== verification/ReviewTools.v ===== *)
(** * The review loop over the tool bridge

    [ReviewerExecutionBoundary] of [workflow-review/src/review_loop.rs] owns a
    [ToolBridge], an in-memory artifact store and one capability intersection,
    and calls the bridge without an approval ledger.  Here that boundary is an
    instance of the interface the loop was verified against ([Tool.Bridge]), and
    the two models are composed.  The answers of the environment to the calls,
    and the time elapsed at each, are the stream [environment]. *)

From S2P Require Import Prelude Runtime Hashing Json Policy Approval Tool Artifact Bridge.
From S2P Require Import Session Review ReviewLoop.

Section boundary.
Context `{IntJson, Sha256} `{!JsonSchema}.
Variable capabilities : CapabilityIntersection.
Variable environment : nat → InvokeEnv * Z.

(*| review/review_loop.rs 126-132 ReviewerExecutionBoundary *)
Record Boundary := mk_Boundary {
  boundary_system : system (A := InMemoryArtifactStore); boundary_turn : nat }.

Definition boundary_bridge (b : Boundary) : ToolBridge := (boundary_system b).1.1.
Definition boundary_started (b : Boundary) : list worker := (boundary_system b).2.

(*| review/review_loop.rs 178-198 ReviewerExecutionBoundary::new *)
Definition boundary_new (bridge : ToolBridge) (next_capability : Z) : Boundary :=
  mk_Boundary (bridge, InMemoryArtifactStore_new (64 * 1024) (64 * 1024) next_capability, []) 0.

(*| review/review_loop.rs 224-230 ReviewerExecutionBoundary::invoke *)
Definition boundary_dispatch (b : Boundary) (call : ToolCall) :
    Boundary * called (result ToolBridgeErrorKind (ToolEnvelope Value)) :=
  let '(env, elapsed) := environment (boundary_turn b) in
  let '(sys, r) := invoke env call capabilities None elapsed (boundary_system b) in
  (mk_Boundary sys (S (boundary_turn b)), Returned r).

#[export] Instance reviewer_boundary : Tool.Bridge Boundary := {
  tool_names b := bridge_tool_names (boundary_bridge b);
  registered_read_only b name :=
    from_option (λ r, read_only (flags r)) false (bridge_registration (boundary_bridge b) name);
  Tool.dispatch := boundary_dispatch }.

(** A thread the reviewer may start: it executes a call without an effect, of a
    tool every layer names, with capabilities that the runtime and the sandbox
    layers both grant. *)
Record permitted (w : worker) : Prop := mk_permitted {
  permitted_effect : effectful_worker w = false;
  permitted_layers : let n := name (registration (worker_tool w)) in
    n ∈ workflow_tools capabilities ∧ n ∈ skill_tools capabilities ∧
    n ∈ tenant_tools capabilities ∧ n ∈ role_tools capabilities;
  permitted_capabilities c : c ∈ worker_capabilities w →
    c ∈ runtime_capabilities capabilities ∧ c ∈ sandbox_capabilities capabilities }.

(** The bridge is as it was and only permitted threads were started. *)
Definition restrained (b b' : Boundary) : Prop :=
  boundary_bridge b' = boundary_bridge b ∧
  ∃ new, boundary_started b' = boundary_started b ++ new ∧ Forall permitted new.

#[export] Instance restrained_preorder : PreOrder restrained.
Proof.
  split.
  - intros b. split; [done|]. exists []. by rewrite app_nil_r.
  - intros b1 b2 b3 [E1 (n1 & S1 & F1)] [E2 (n2 & S2 & F2)]. split; [congruence|].
    exists (n1 ++ n2). rewrite S2, S1, app_assoc. split; [done|]. by apply Forall_app.
Qed.

Lemma dispatch_restrained b call :
  restrained b (fst (boundary_dispatch b call)) ∧
  (zlength (boundary_started (fst (boundary_dispatch b call))) ≤ zlength (boundary_started b) + 1)%Z.
Proof.
  unfold boundary_dispatch. destruct (environment (boundary_turn b)) as [env elapsed].
  destruct b as [[[bridge art] started] turn]. cbn [boundary_system].
  destruct (invoke env call capabilities None elapsed (bridge, art, started))
    as [[[bridge' art'] started'] r] eqn:E.
  apply invoke_unapproved in E as [-> Hs]. cbn.
  destruct Hs as [-> |(tool & caps & Ha & ->)].
  - split; [|lia]. split; [done|]. exists []. by rewrite app_nil_r.
  - pose proof Ha as [_ Hl _ _ _ _ Hg _]. split.
    + split; [done|]. eexists. split; [done|]. apply Forall_singleton. split; [|done|done].
      by apply authorize_call_authorized, authorized_worker in Ha as (_ & ? & _).
    + unfold zlength, boundary_started. cbn. rewrite length_app. cbn. lia.
Qed.

Context {W E : Type} (config : ReviewLoopConfig).
Context (producer : callback (W := W) (E := E) CandidateArtifact).
Context (validator : CandidateArtifact → callback (W := W) (E := E) ValidationReport).
Context (reviewer : ReviewerRequest → callback (W := W) (E := E) ReviewerResponse).
Context (reviser : RevisionRequest → callback (W := W) (E := E) RevisionResponse).

(** C29. A review causes no effect.  Whatever the callbacks do with the tools they
    are handed, over the real bridge and any behaviour of its handlers, a run of
    the review loop starts only threads without an effect, of tools and with
    capabilities that every layer of the boundary's intersection allows, at most
    as many as the tool budget, and leaves the bridge's records of effects as
    they were. *)
Theorem review_causes_no_effect entropy (b : Boundary) (w : W) :
  config_wf config →
  let st := fst (fst (run_bounded_review_loop config producer validator reviewer reviser entropy b w)) in
  boundary_bridge (bridge st) = boundary_bridge b ∧
  ∃ new, boundary_started (bridge st) = boundary_started b ++ new ∧ Forall permitted new ∧
    (zlength new ≤ consumed (tool_budget st) ≤ max_tool_calls config)%Z.
Proof.
  intros Hwf. destruct (run_bounded_review_loop _ _ _ _ _ entropy b w) as [[st w'] e] eqn:Hr.
  assert (0 ≤ max_model_turns config)%Z by apply Hwf.
  assert (Hcount : counts_dispatches (λ b, zlength (boundary_started b)))
    by (intros b' call; apply dispatch_restrained).
  assert (Hkeeps : ∀ b call, restrained b (fst (dispatch b call)))
    by (intros b' call; apply dispatch_restrained).
  eapply (run_ok config producer validator reviewer reviser _ Hwf Hcount restrained Hkeeps) in Hr;
    [|done..].
  destruct Hr as (((Hr0 & Hc0 & Hbud) & _ & Hd & Hk) & _). destruct Hk as [Hb (new & Hn & Hp)]. cbn.
  split; [done|]. exists new. split_and!; [done|done| |].
  - rewrite Hn in Hd. unfold zlength in *. rewrite length_app in Hd. lia.
  - lia.
Qed.
End boundary.

(** ** A concrete review

    The reviewer of the example of [ReviewLoop] over a bridge with a tool that
    reads and one that writes. *)

#[local] Existing Instance ex_json.
#[local] Existing Instance ReviewLoop.ex_sha.
#[local] Instance ex_int : IntJson := λ z, (z =? 0)%Z.
#[local] Instance ex_schema : JsonSchema := λ _, Some (λ _, true).

Definition ex_tool (name : string) (reads : bool) : ToolRegistration :=
  mk_ToolRegistration name (mk_ToolProvenance "registry.read" "1") Null Null Null
    (mk_ToolFlags reads true true) [FilesystemRead] [] 1000 4096 false StableKey "digest".
Definition ex_handler : ToolHandler := mk_ToolHandler (λ _, Ok []) (λ _, Ok false).
Definition ex_host : ToolBridge :=
  let b := ToolBridge_new (mk_RunSandbox {[FilesystemRead]}) in
  let b := (register_shared (ex_tool "read" true) ex_handler b).1 in
  (register_shared (ex_tool "write" false) ex_handler b).1.
Definition ex_capabilities : CapabilityIntersection :=
  CapabilityIntersection_new [FilesystemRead] ["read"; "write"] ["read"; "write"] []
    ["read"; "write"] ["read"; "write"] [FilesystemRead].
Definition ex_environment : nat → InvokeEnv * Z := λ _, (mk_InvokeEnv true (Some (Ok ex_envelope)), 0%Z).
#[local] Instance ex_boundary : Tool.Bridge Boundary := reviewer_boundary ex_capabilities ex_environment.

Definition ex_review : Store * nat * exit :=
  run_bounded_review_loop (B := Boundary) ex_config ex_producer ex_validator ex_reviewer ex_reviser
    ex_entropy (boundary_new ex_host 1) 0.

Lemma review_causes_no_effect_witness :
  length (boundary_started (bridge ex_review.1.1)) = 2 ∧
  ∃ new, boundary_started (bridge ex_review.1.1) = [] ++ new ∧ Forall (permitted ex_capabilities) new.
Proof.
  split; [by vm_compute|].
  destruct (review_causes_no_effect ex_capabilities ex_environment ex_config ex_producer ex_validator
    ex_reviewer ex_reviser ex_entropy (boundary_new ex_host 1) 0 ex_config_wf)
    as (_ & new & Hn & Hp & _).
  exists new. by split.
Defined.
