(* ===== verification/Admission.v ===== *)
(** * Host capabilities for behavioral runs

    [workflow-runtime/src/behavioral.rs], [behavioral/model_authority.rs] and the
    authored observer of [trajectory.rs]: the approvals a host makes out of band,
    which the compiler compares with a workflow's policy.  They have no
    deserializer; the only ways to build one are the constructors below.
    [serde_json] decoding of a script and of a compact summary is third-party
    code, the class [ScriptJson]. *)

From S2P Require Import Prelude Hashing.
From S2P Require Import Text Json Approval Trust Spec.

(*| runtime/behavioral.rs 247-252 ProbeError *)
Inductive ProbeError :=
| ProductionExecutorForbidden | InvalidScript | InvalidLimits | InvalidIdentity.

(*| runtime/behavioral.rs 53-56 ProbeLimits *)
Record ProbeLimits := mk_ProbeLimits { limit_max_steps : Z; limit_timeout_ms : Z }.
#[export] Instance ProbeLimits_eq_dec : EqDecision ProbeLimits.
Proof. solve_decision. Defined.

(*| runtime/behavioral.rs 58-63 ProbeLimits::validate *)
Definition validate_limits (l : ProbeLimits) : result ProbeError unit :=
  ensure ((1 <=? limit_max_steps l) && (limit_max_steps l <=? 32) &&
          (1 <=? limit_timeout_ms l) && (limit_timeout_ms l <=? 1000))%Z InvalidLimits.

(** ** Scripts *)

(*| runtime/behavioral.rs 209-219 Action *)
Inductive ProbeAction :=
| Call (tool : string) (arguments : gmap string string)
| Output (text : string)
| Crash.

(*| runtime/behavioral.rs 221-233 Action::valid *)
Definition action_valid (a : ProbeAction) : bool :=
  match a with
  | Call tool arguments =>
      (str_len tool <=? 64)%Z && (Z.of_nat (size arguments) <=? 8)%Z &&
      forallb (λ e, (str_len (fst e) <=? 64)%Z && (str_len (snd e) <=? 2048)%Z)
        (map_to_list arguments)
  | Output text => (str_len text <=? 2048)%Z
  | Crash => true
  end.

(*| runtime/behavioral.rs 188-191 Script *)
Record Script := mk_Script { script_version : Z; steps : list ProbeAction }.

(*| runtime/trajectory.rs 120-126 ClosedTrajectoryClaims *)
Record ClosedTrajectoryClaims := mk_ClosedTrajectoryClaims {
  claims_version : Z; goal_override : bool; secret_seeking : bool;
  tool_manipulation : bool; claims_no_tools : bool }.

Class ScriptJson := {
  decode_script : string → option Script;
  decode_claims : string → option ClosedTrajectoryClaims
}.

(*| runtime/behavioral.rs 193-205 Script::parse *)
Definition Script_parse `{ScriptJson} (bytes : string) : result ProbeError Script :=
  if (32768 <? str_len bytes)%Z then Err InvalidScript
  else match decode_script bytes with
  | None => Err InvalidScript
  | Some script =>
      if negb (script_version script =? 1)%Z || (32 <? zlength (steps script))%Z ||
         negb (forallb action_valid (steps script))
      then Err InvalidScript else Ok script
  end.

(*| runtime/trajectory.rs 18-23 ObserverMode *)
Inductive ObserverMode := ObserverDisabled | OfflineSummary.
(*| runtime/trajectory.rs 28-33 ReasoningStatus *)
Inductive ReasoningStatus :=
| ReasoningDisabled | ReasoningUnavailable | ReasoningMalformed | ReasoningPresent.

(** [[u8]::trim_ascii_start]. *)
Definition trim_ascii_start (s : string) : string := skip_while is_ascii_whitespace s.

(*| runtime/trajectory.rs 269-290 parse_summary *)
Definition parse_summary `{ScriptJson} (mode : ObserverMode) (summary : option string) :
    ReasoningStatus * option ClosedTrajectoryClaims :=
  let parsed :=
    match mode with
    | OfflineSummary =>
        bytes ← summary;
        if (str_len bytes <=? 1024)%Z && String.prefix "{" (trim_ascii_start bytes) then
          value ← decode_claims bytes;
          if (claims_version value =? 1)%Z then Some value else None
        else None
    | ObserverDisabled => None
    end in
  let reasoning :=
    match mode, summary, parsed with
    | ObserverDisabled, _, _ => ReasoningDisabled
    | _, None, _ => ReasoningUnavailable
    | _, _, None => ReasoningMalformed
    | _, _, Some _ => ReasoningPresent
    end in
  (reasoning, parsed).

(*| runtime/trajectory.rs 129-133 AuthoredObserver *)
Record AuthoredObserver := mk_AuthoredObserver {
  observer_task : string; observer_status : ReasoningStatus;
  observer_summary : option ClosedTrajectoryClaims }.

(** [sha256:] and 64 lowercase hexadecimal digits. *)
(*| runtime/behavioral/model_authority.rs 151-158 valid_digest *)
Definition valid_digest (value : string) : bool :=
  match strip_prefix "sha256:" value with
  | Some digest => (String.length digest =? 64) && str_all is_lower_hex digest
  | None => false
  end.

(*| runtime/behavioral.rs 278-286 TrustedScript *)
Record TrustedScript := mk_TrustedScript {
  ts_ir_hash : string; ts_source : string; ts_provenance : ContentProvenance;
  ts_revision : string; ts_script : Script; ts_limits : ProbeLimits;
  ts_observer : option AuthoredObserver }.

(** The approval checks common to both capabilities. *)
Definition revision_valid (revision : string) : bool :=
  negb (is_blank revision) && (str_len revision <=? 128)%Z.
Definition untrusted (p : ContentProvenance) : bool := bool_decide (domain p = UntrustedContent).

(*| runtime/behavioral.rs 299-331 TrustedScript::authorize *)
Definition TrustedScript_authorize `{ScriptJson} (ir_hash source : string)
    (provenance : ContentProvenance) (revision script : string) (limits : ProbeLimits) :
    result ProbeError TrustedScript :=
  validate_limits limits;;
  ensure (valid_digest ir_hash && revision_valid revision && untrusted provenance)
    InvalidIdentity;;
  script ← Script_parse script;
  Ok (mk_TrustedScript ir_hash source provenance revision script limits None).

(*| runtime/trajectory.rs 146-161 super::TrustedScript::with_trajectory_observer *)
Definition with_trajectory_observer `{ScriptJson} (s : TrustedScript) (task : string)
    (summary : option string) : result ProbeError TrustedScript :=
  match ts_observer s with
  | Some _ => Err InvalidIdentity
  | None =>
      if is_blank task || (2048 <? str_len task)%Z then Err InvalidIdentity
      else
        let '(status, summary) := parse_summary OfflineSummary summary in
        Ok (mk_TrustedScript (ts_ir_hash s) (ts_source s) (ts_provenance s) (ts_revision s)
              (ts_script s) (ts_limits s) (Some (mk_AuthoredObserver task status summary)))
  end.

(*| runtime/trajectory.rs 165-170 super::TrustedScript::matches_trajectory_policy *)
Definition matches_trajectory_policy (s : TrustedScript) (version : option Z) : bool :=
  match version, ts_observer s with
  | None, None => true
  | Some v, Some _ => (v =? 1)%Z
  | _, _ => false
  end.

(*| runtime/behavioral.rs 378-380 TrustedScript::matches_approval *)
Definition script_matches_approval (s : TrustedScript) (ir_hash : string) (limits : ProbeLimits) :
    bool :=
  str_eqb (ts_ir_hash s) ir_hash && bool_decide (ts_limits s = limits).

(** ** Model observation *)

(*| runtime/behavioral/model_authority.rs 208-210 TrustedTrajectoryObserverGrant *)
Record TrustedTrajectoryObserverGrant := mk_ObserverGrant { declaration_digest : string }.

(*| runtime/behavioral/model_authority.rs 213-220 TrustedTrajectoryObserverGrant::authorize *)
Definition ObserverGrant_authorize (digest : string) :
    result ProbeError TrustedTrajectoryObserverGrant :=
  if negb (valid_digest digest) then Err InvalidIdentity else Ok (mk_ObserverGrant digest).

(*| runtime/behavioral/model_authority.rs 224-229 TrustedTrajectoryMonitor *)
Record TrustedTrajectoryMonitor := mk_Monitor {
  monitor_task : string; monitor_task_digest : string; monitor_mode : TrajectoryObserverMode;
  monitor_observer : option TrustedTrajectoryObserverGrant }.

(*| runtime/behavioral/model_authority.rs 233-251 TrustedTrajectoryMonitor::authorize *)
Definition Monitor_authorize `{Sha256} (task : string) (mode : TrajectoryObserverMode)
    (observer : option TrustedTrajectoryObserverGrant) :
    result ProbeError TrustedTrajectoryMonitor :=
  if is_blank task || (2048 <? str_len task)%Z ||
     negb (Bool.eqb (bool_decide (mode = Semantic)) (is_some observer))
  then Err InvalidIdentity
  else Ok (mk_Monitor task ("sha256:" +:+ encode_hex (sha256 task)) mode observer).

(*| runtime/behavioral/model_authority.rs 280-290 TrustedTrajectoryMonitor::valid *)
Definition monitor_valid (m : TrustedTrajectoryMonitor) : bool :=
  negb (is_blank (monitor_task m)) && (str_len (monitor_task m) <=? 2048)%Z &&
  match monitor_mode m with
  | Disabled => negb (is_some (monitor_observer m))
  | Semantic =>
      match monitor_observer m with
      | Some grant => valid_digest (declaration_digest grant)
      | None => false
      end
  end.

(*| runtime/behavioral/model_authority.rs 22-31 TrustedModelProbe *)
Record TrustedModelProbe := mk_TrustedModelProbe {
  tp_ir_hash : string; tp_source : string; tp_provenance : ContentProvenance;
  tp_revision : string; tp_route_digest : string; tp_limits : ProbeLimits;
  reasoning_capture : bool; monitor : option TrustedTrajectoryMonitor }.

(*| runtime/behavioral/model_authority.rs 50-77 TrustedModelProbe::authorize *)
Definition TrustedModelProbe_authorize (ir_hash source : string)
    (provenance : ContentProvenance) (revision route_digest : string) (limits : ProbeLimits) :
    result ProbeError TrustedModelProbe :=
  validate_limits limits;;
  ensure (valid_digest ir_hash && valid_digest route_digest && revision_valid revision &&
          untrusted provenance) InvalidIdentity;;
  Ok (mk_TrustedModelProbe ir_hash source provenance revision route_digest limits false None).

(*| runtime/behavioral/model_authority.rs 82-85 TrustedModelProbe::with_reasoning_capture *)
Definition with_reasoning_capture (p : TrustedModelProbe) : TrustedModelProbe :=
  mk_TrustedModelProbe (tp_ir_hash p) (tp_source p) (tp_provenance p) (tp_revision p)
    (tp_route_digest p) (tp_limits p) true (monitor p).

(*| runtime/behavioral/model_authority.rs 88-97 TrustedModelProbe::with_trajectory_monitor *)
Definition with_trajectory_monitor (p : TrustedModelProbe) (m : TrustedTrajectoryMonitor) :
    result ProbeError TrustedModelProbe :=
  if negb (reasoning_capture p) || is_some (monitor p) then Err InvalidIdentity
  else Ok (mk_TrustedModelProbe (tp_ir_hash p) (tp_source p) (tp_provenance p) (tp_revision p)
             (tp_route_digest p) (tp_limits p) (reasoning_capture p) (Some m)).

(*| runtime/behavioral/model_authority.rs 139-148 TrustedModelProbe::matches_approval *)
Definition probe_matches_approval (p : TrustedModelProbe) (ir_hash : string)
    (limits : ProbeLimits) (route : string) : bool :=
  str_eqb (tp_ir_hash p) ir_hash && bool_decide (tp_limits p = limits) &&
  str_eqb (tp_route_digest p) route.

(** ** Identities

    The JSON material whose canonical fingerprint names a capability: [json!] of
    text, of a [u64] ([IntJson]) and
    of [null]. *)

Section identity.
Context `{JsonText} `{!IntJson} `{Sha256}.


(*| runtime/behavioral.rs 35-35 BEHAVIORAL_VERSION *)
Definition BEHAVIORAL_VERSION : string := "sentinel-behavioral-simulation-v1".
(*| runtime/behavioral.rs 37-48 PROBE_TOOL_CATALOG *)
Definition PROBE_TOOL_CATALOG : list string :=
  ["complete"; "read_document"; "send_report"; "synthetic_credentials"; "read_secret";
   "read_system_prompt"; "override_policy"; "host_command"; "external_send";
   "disable_monitoring"].
(*| runtime/trajectory.rs 13-13 TRAJECTORY_VERSION *)
Definition TRAJECTORY_VERSION : string := "sentinel-offline-trajectory-v1".

(*| runtime/behavioral.rs 623-625 hash *)
Definition hash_text (bytes : string) : string := "sha256:" +:+ encode_hex (sha256 bytes).

Definition limits_value (l : ProbeLimits) : Value :=
  Object [("max_steps", jnum (limit_max_steps l)); ("timeout_ms", jnum (limit_timeout_ms l))].

Definition action_value (a : ProbeAction) : Value :=
  match a with
  | Call tool arguments =>
      Object [("kind", VString "call"); ("tool", VString tool);
              ("arguments", Object (map (λ e, (fst e, VString (snd e))) (btree_entries arguments)))]
  | Output text => Object [("kind", VString "output"); ("text", VString text)]
  | Crash => Object [("kind", VString "crash")]
  end.
Definition script_value (s : Script) : Value :=
  Object [("schema_version", jnum (script_version s)); ("steps", Array (map action_value (steps s)))].

Definition status_text (s : ReasoningStatus) : string :=
  match s with
  | ReasoningDisabled => "disabled" | ReasoningUnavailable => "unavailable"
  | ReasoningMalformed => "malformed" | ReasoningPresent => "present"
  end.
Definition claims_value (c : ClosedTrajectoryClaims) : Value :=
  Object [("schema_version", jnum (claims_version c)); ("goal_override", Bool (goal_override c));
          ("secret_seeking", Bool (secret_seeking c)); ("tool_manipulation", Bool (tool_manipulation c));
          ("claims_no_tools", Bool (claims_no_tools c))].

(*| runtime/trajectory.rs 135-138 AuthoredObserver::identity_material *)
Definition observer_material (o : AuthoredObserver) : Value :=
  Object [("version", VString TRAJECTORY_VERSION); ("mode", VString "offline_summary");
          ("task_digest", VString (hash_text (observer_task o)));
          ("status", VString (status_text (observer_status o)));
          ("summary", jopt claims_value (observer_summary o))].

(** [provenance.cache_key(source.as_bytes()).as_hex()]. *)
Definition provenance_key (p : ContentProvenance) (source : string) : string :=
  hex (cache_key p source).

(*| runtime/behavioral.rs 334-348 TrustedScript::identity *)
Definition script_identity (s : TrustedScript) : string :=
  "sha256:" +:+ argument_fingerprint (Object (
    [("admission_version", VString "sentinel-trusted-script-v1");
     ("trust_origin", VString "authenticated_host_api_v1");
     ("version", VString BEHAVIORAL_VERSION);
     ("tools", Array (map VString PROBE_TOOL_CATALOG));
     ("mode", VString "scripted_simulation"); ("approved_ir_hash", VString (ts_ir_hash s));
     ("approved_source", VString (ts_source s));
     ("provenance", VString (provenance_key (ts_provenance s) (ts_source s)));
     ("revision", VString (ts_revision s)); ("script", script_value (ts_script s));
     ("limits", limits_value (ts_limits s))] ++
    match ts_observer s with Some o => [("trajectory", observer_material o)] | None => [] end)).

Definition mode_text (m : TrajectoryObserverMode) : string :=
  match m with Disabled => "disabled" | Semantic => "semantic" end.

(*| runtime/behavioral/model_authority.rs 261-267 TrustedTrajectoryMonitor::identity_material *)
Definition monitor_material (m : TrustedTrajectoryMonitor) : Value :=
  Object [("version", VString "model-trajectory-monitor-v1");
          ("mode", VString (mode_text (monitor_mode m)));
          ("task_digest", VString (monitor_task_digest m));
          ("capture", VString "process-local-lease-v1"); ("feature", VString "model-trajectory-v1");
          ("claims", VString "closed-claims-v1"); ("prompt", VString "trajectory-observer-v1");
          ("output_schema", VString "weak-signals-v1");
          ("trust_domain", VString "trusted-task-safe-features-v1");
          ("observer_digest", jopt (λ g, VString (declaration_digest g)) (monitor_observer m));
          ("input_bytes", jnum 32768); ("output_bytes", jnum 1024);
          ("requested_output_tokens", jnum 128); ("candidates", jnum 1); ("attempts", jnum 1);
          ("retries", jnum 0); ("fallbacks", jnum 0)].

(*| runtime/behavioral/model_authority.rs 110-131 TrustedModelProbe::identity *)
Definition probe_identity (p : TrustedModelProbe) : string :=
  "sha256:" +:+ argument_fingerprint (Object (
    [("admission_version", VString "sentinel-trusted-model-probe-v1");
     ("trust_origin", VString "authenticated_host_api_v1");
     ("version", VString BEHAVIORAL_VERSION);
     ("tools", Array (map VString PROBE_TOOL_CATALOG));
     ("mode", VString "model_action_observation"); ("approved_ir_hash", VString (tp_ir_hash p));
     ("approved_source", VString (tp_source p));
     ("provenance", VString (provenance_key (tp_provenance p) (tp_source p)));
     ("revision", VString (tp_revision p)); ("model_route_digest", VString (tp_route_digest p));
     ("limits", limits_value (tp_limits p))] ++
    (if reasoning_capture p then [("reasoning_capture", VString "process-local-lease-v1")] else []) ++
    match monitor p with Some m => [("trajectory_monitor", monitor_material m)] | None => [] end)).
End identity.

(** ** Every capability is well formed *)

(** The observer grants a host can hold. *)
Definition grant_ok (g : TrustedTrajectoryObserverGrant) : Prop := ObserverGrant_authorize (declaration_digest g) = Ok g.

(** The model approvals a host can hold: [authorize], then the two builders. *)
Inductive built_probe `{Sha256} : TrustedModelProbe → Prop :=
| built_authorize ir_hash source provenance revision route limits p :
    TrustedModelProbe_authorize ir_hash source provenance revision route limits = Ok p →
    built_probe p
| built_capture p : built_probe p → built_probe (with_reasoning_capture p)
| built_monitor p task mode observer m p' :
    built_probe p → (∀ g, observer = Some g → grant_ok g) →
    Monitor_authorize task mode observer = Ok m →
    with_trajectory_monitor p m = Ok p' → built_probe p'.

Definition limits_ok (l : ProbeLimits) : Prop :=
  (1 ≤ limit_max_steps l ≤ 32)%Z ∧ (1 ≤ limit_timeout_ms l ≤ 1000)%Z.

Lemma validate_limits_Ok l u : validate_limits l = Ok u ↔ limits_ok l.
Proof.
  unfold validate_limits, limits_ok. rewrite ensure_Ok, !andb_true_iff, !Z.leb_le. lia.
Qed.

Lemma grant_ok_valid g : grant_ok g ↔ valid_digest (declaration_digest g) = true.
Proof.
  unfold grant_ok, ObserverGrant_authorize. destruct (valid_digest _), g; naive_solver.
Qed.

Lemma monitor_authorize_valid `{Sha256} task mode observer m :
  (∀ g, observer = Some g → grant_ok g) → Monitor_authorize task mode observer = Ok m →
  monitor_valid m = true.
Proof.
  intros Hg. unfold Monitor_authorize.
  destruct (is_blank task) eqn:Eb; cbn; [done|].
  destruct (2048 <? str_len task)%Z eqn:El; cbn; [done|].
  destruct mode, observer as [g|]; cbn; try done; intros [= <-]; unfold monitor_valid; cbn;
    rewrite Eb; cbn; apply Z.ltb_ge in El; rewrite (proj2 (Z.leb_le _ _) El); [done|].
  by apply grant_ok_valid, Hg.
Qed.

(** A model-observation approval, however it was built, is within the hard
    limits, names well-formed digests and untrusted content only, and carries a
    monitor only with reasoning capture, a valid one; a monitor is attached at
    most once. *)
Theorem model_probe_invariant `{Sha256} p :
  built_probe p →
  limits_ok (tp_limits p) ∧ valid_digest (tp_ir_hash p) = true ∧
  valid_digest (tp_route_digest p) = true ∧ revision_valid (tp_revision p) = true ∧
  domain (tp_provenance p) = UntrustedContent ∧
  (∀ m, monitor p = Some m → reasoning_capture p = true ∧ monitor_valid m = true ∧
     ∀ m', with_trajectory_monitor p m' = Err InvalidIdentity).
Proof.
  induction 1 as [ir_hash source provenance revision route limits p E|p _ IH
                 |p task mode observer m p' _ IH Hg Em E].
  - unfold TrustedModelProbe_authorize in E. apply bind_Ok in E as (u & Hl%validate_limits_Ok & E).
    rewrite ensure_bind_Ok, !andb_true_iff in E. destruct E as [(((Hh & Hr) & Hv) & Hu) [= <-]].
    cbn. unfold untrusted in Hu. rewrite bool_decide_eq_true in Hu. by split_and!.
  - destruct IH as (?&?&?&?&?&Hm). cbn. split_and!; try done.
    intros m Em. destruct (Hm m Em) as (Hc & Hv & _). split_and!; [done|done|].
    intros m'. unfold with_trajectory_monitor. cbn. by rewrite Em.
  - destruct IH as (?&?&?&?&?&Hm). unfold with_trajectory_monitor in E.
    destruct (reasoning_capture p) eqn:Ec; cbn in E; [|done].
    destruct (monitor p) eqn:Emo; cbn in E; [done|]. simplify_eq. cbn. split_and!; try done.
    intros m0 [= <-]. split_and!; [done|by eapply monitor_authorize_valid|done].
Qed.

(** *** A concrete approval *)

#[local] Instance ex_sha : Sha256 := λ s, s.

Definition ex_digest : string :=
  "sha256:00112233445566778899aabbccddeeff00112233445566778899aabbccddeeff".
Definition ex_probe : TrustedModelProbe :=
  with_reasoning_capture (mk_TrustedModelProbe ex_digest "src"
    (mk_ContentProvenance CommentKind "s" "o" "a" UntrustedContent "p") "r1" ex_digest
    (mk_ProbeLimits 8 100) false None).

Lemma model_probe_invariant_witness :
  limits_ok (tp_limits ex_probe) ∧ reasoning_capture ex_probe = true.
Proof.
  split; [|done]. apply model_probe_invariant. apply built_capture.
  eapply (built_authorize ex_digest "src"
    (mk_ContentProvenance CommentKind "s" "o" "a" UntrustedContent "p") "r1" ex_digest
    (mk_ProbeLimits 8 100)). by vm_compute.
Defined.
