(* ===== verification/Compile.v ===== *)
(** * The compiler

    [workflow-compiler/src/lib.rs] and [behavioral.rs]: from a parsed
    specification to a plan, by way of the node bindings, the graph, the state
    and the behavioral admission.  A predicate registry is an interface: it
    resolves a predicate by its exact identifier and version. *)

From S2P Require Import Prelude Hashing.
From S2P Require Import Text Json Order Spec Wire Ir Graph Trust Admission.

(** ** Registries *)

(*| compiler/registry.rs 26-30 RegistryEntry *)
Record RegistryEntry := mk_RegistryEntry { entry_id : string; entry_version : string }.

(*| compiler/registry.rs 7-20 RegistryCategory *)
Inductive RegistryCategory :=
| RegistryModel | RegistryTool | RegistryNode | RegistryValidator | RegistryPredicate | RegistrySkill.

(*| compiler/registry.rs 60-64 RegistryNotFound *)
Record RegistryNotFound := mk_RegistryNotFound {
  missing_category : RegistryCategory; missing_id : string; missing_version : string }.

(*| compiler/registry.rs 160-170 PredicateRegistry *)
Class PredicateRegistry := resolve : string → string → result RegistryNotFound RegistryEntry.

(** What the trait promises: only an exact match resolves. *)
Class PredicateRegistryLaws `{PredicateRegistry} : Prop := {
  resolve_exact id version e :
    resolve id version = Ok e → e = mk_RegistryEntry id version;
  resolve_missing id version e :
    resolve id version = Err e → e = mk_RegistryNotFound RegistryPredicate id version
}.

(*| compiler/registry.rs 193-212 BuiltinPredicateRegistry::resolve *)
Definition builtin_resolve (id version : string) : result RegistryNotFound RegistryEntry :=
  if str_eqb id "coverage.decision@v1" && str_eqb version "1.0.0"
  then Ok (mk_RegistryEntry "coverage.decision@v1" "1.0.0")
  else if str_eqb id "review.verdict@v1" && str_eqb version "1.0.0"
  then Ok (mk_RegistryEntry "review.verdict@v1" "1.0.0")
  else if str_eqb id "grounding.verdict@v1" && str_eqb version "1.0.0"
  then Ok (mk_RegistryEntry "grounding.verdict@v1" "1.0.0")
  else Err (mk_RegistryNotFound RegistryPredicate id version).
Definition BuiltinPredicateRegistry : PredicateRegistry := builtin_resolve.

#[export] Instance builtin_laws : @PredicateRegistryLaws BuiltinPredicateRegistry.
Proof.
  split; intros id version e; unfold resolve, BuiltinPredicateRegistry, builtin_resolve, str_eqb;
    repeat case_bool_decide; cbn; naive_solver.
Qed.

(** ** Errors and plans *)

(*| compiler/lib.rs 262-275 BindingValidationError *)
Inductive BindingValidationError :=
| InvalidPlacement | ReviewerTool | ReservedSkillTool | InvalidUntrustedTextPreparation
| InvalidSentinelScript | InvalidSentinelModelProbe.

(*| compiler/lib.rs 65-78 CompileError *)
Inductive CompileError (D : Type) :=
| ParseError (error : SpecError D)
| GraphError (error : GraphValidationError)
| StateError (error : StateValidationError)
| BindingError (error : BindingValidationError)
| PredicateRegistryRequired
| RegistryError (error : RegistryNotFound).
Arguments ParseError {D} error.
Arguments GraphError {D} error.
Arguments StateError {D} error.
Arguments BindingError {D} error.
Arguments PredicateRegistryRequired {D}.
Arguments RegistryError {D} error.

(*| compiler/lib.rs 114-119 CompiledPlan *)
Record CompiledPlan := mk_CompiledPlan {
  plan_ir : WorkflowIr; registry_binding_count : Z;
  sentinel_script_identity : option string; sentinel_model_probe_identity : option string }.

(** ** Node checks *)

Section compile.
Context {D : Type}.
Implicit Types (spec : WorkflowSpec) (node : Node).

(*| compiler/lib.rs 366-382 validate_approval_nodes *)
Definition validate_approval_nodes spec : result (CompileError D) unit :=
  for_each (λ node,
    let invalid_timeout :=
      if decide (node_kind node = Approval)
      then match timeout_ms node with None => true | Some timeout => (timeout =? 0)%Z end
      else is_some (timeout_ms node) in
    if invalid_timeout then Err (GraphError (InvalidIdentifier "nodes[].timeout_ms")) else Ok tt)
    (nodes spec).

(*| compiler/lib.rs 300-314 validate_node_bindings *)
Definition bad_preparation spec node : bool :=
  match untrusted_text node with
  | None => false
  | Some policy =>
      negb (preparation_version policy =? 1)%Z ||
      match behavioral policy with
      | Some b => negb ((behavioral_version b =? 1) || (behavioral_version b =? 2))%Z
      | None => false
      end ||
      (65536 <? max_input_bytes policy)%Z || negb (bool_decide (node_kind node = Terminal)) ||
      negb (length (nodes spec) =? 1) || negb (is_nil (edges spec)) || negb (is_nil (routes spec))
  end.

(*| compiler/lib.rs 315-335 validate_node_bindings *)
Definition bad_firewall spec node : bool :=
  match firewall node with
  | None => false
  | Some contract =>
      negb (bool_decide (node_kind node = Validator)) ||
      negb (str_eqb (node_id node) (entry (workflow spec))) ||
      negb (firewall_version contract =? 1)%Z ||
      negb (str_len (firewall_identity contract) =? 64)%Z ||
      negb (str_all is_lower_hex (firewall_identity contract)) ||
      existsb (λ e, str_eqb (edge_to e) (node_id node)) (edges spec) ||
      existsb (λ r, existsb (λ c, str_eqb (case_target c) (node_id node)) (cases r) ||
                    bool_decide (route_default r = Some (node_id node))) (routes spec)
  end.

(*| compiler/lib.rs 336-345 validate_node_bindings *)
Definition bad_placement node : bool :=
  negb (bool_decide (node_kind node = Agent)) &&
  (is_some (model node) || negb (is_nil (tools node)) || negb (is_nil (skills node)) ||
   is_some (agent_contract node)).

(*| compiler/lib.rs 346-352 validate_node_bindings *)
Definition reviewer_with_tools node : bool :=
  match model node with
  | Some m => bool_decide (model_role m = ReviewerRole)
  | None => false
  end && (negb (is_nil (tools node)) || negb (is_nil (skills node))).

(*| compiler/lib.rs 298-364 validate_node_bindings *)
Definition validate_node_bindings spec : result (CompileError D) unit :=
  for_each (λ node,
    if bad_preparation spec node then Err (BindingError InvalidUntrustedTextPreparation)
    else if bad_firewall spec node then Err (BindingError InvalidPlacement)
    else if bad_placement node then Err (BindingError InvalidPlacement)
    else if reviewer_with_tools node then Err (BindingError ReviewerTool)
    else if existsb (λ t, is_reserved_skill_tool_name (tool_ref_id t)) (tools node)
    then Err (BindingError ReservedSkillTool)
    else Ok tt)
    (nodes spec).

(** ** Behavioral admission *)

(*| compiler/behavioral.rs 8-11 BehavioralAdmission *)
Inductive BehavioralAdmission :=
| AdmitScript (script : TrustedScript)
| AdmitModel (probe : TrustedModelProbe) (route : string).

Context `{Sha256}.

(** The workflow-lock spelling of the content identity. *)
Definition ir_hash (ir : WorkflowIr) : string :=
  "sha256:" +:+ encode_hex (canonical_ir_hash ir).

Definition policy_limits (policy : BehavioralPolicy) : ProbeLimits :=
  mk_ProbeLimits (max_steps policy) (behavioral_timeout_ms policy).

(*| compiler/behavioral.rs 44-50 validate_admission *)
Definition script_admitted (ir : WorkflowIr) (policy : BehavioralPolicy) (script : TrustedScript) :
    bool :=
  (behavioral_version policy =? 1)%Z &&
  match trajectory policy with Some p => negb (is_some (observer_mode p)) | None => true end &&
  matches_trajectory_policy script (trajectory_version <$> trajectory policy) &&
  script_matches_approval script (ir_hash ir) (policy_limits policy).

(*| compiler/behavioral.rs 51-75 validate_admission *)
Definition model_admitted (ir : WorkflowIr) (policy : BehavioralPolicy)
    (probe : TrustedModelProbe) (route : string) : bool :=
  (behavioral_version policy =? 2)%Z &&
  match trajectory policy with
  | None => negb (reasoning_capture probe) && negb (is_some (monitor probe))
  | Some p =>
      if (trajectory_version p =? 2)%Z then
        reasoning_capture probe && negb (is_some (monitor probe)) &&
        negb (is_some (observer_mode p))
      else if (trajectory_version p =? 3)%Z then
        reasoning_capture probe &&
        match monitor probe with
        | Some m => monitor_valid m && bool_decide (observer_mode p = Some (monitor_mode m))
        | None => false
        end
      else false
  end &&
  probe_matches_approval probe (ir_hash ir) (policy_limits policy) route.

(** The first behavioral policy of the workflow. *)
Definition behavioral_policy (ir : WorkflowIr) : option BehavioralPolicy :=
  find_map behavioral_of (ir_nodes ir).

(*| compiler/behavioral.rs 13-84 validate_admission *)
Definition validate_admission (ir : WorkflowIr) (admission : option BehavioralAdmission) :
    result (CompileError D) unit :=
  let policy := behavioral_policy ir in
  let invalid :=
    if match admission with Some (AdmitModel _ _) => true | _ => false end ||
       match policy with Some p => (behavioral_version p =? 2)%Z | None => false end
    then InvalidSentinelModelProbe else InvalidSentinelScript in
  let admitted :=
    match policy, admission with
    | None, None => true
    | Some policy, Some (AdmitScript script) => script_admitted ir policy script
    | Some policy, Some (AdmitModel probe route) => model_admitted ir policy probe route
    | _, _ => false
    end in
  if negb admitted then Err (BindingError invalid) else Ok tt.

(** ** The pipeline *)

(*| compiler/lib.rs 247-258 validated_ir *)
Definition validated_ir spec (admission : option BehavioralAdmission) :
    result (CompileError D) WorkflowIr :=
  validate_approval_nodes spec;;
  validate_node_bindings spec;;
  let ir := lower spec in
  map_err GraphError (validate_graph ir);;
  map_err StateError (validate_state ir);;
  validate_admission ir admission;;
  Ok ir.

(*| compiler/lib.rs 215-226 compile_without_predicates *)
Definition compile_without_predicates spec : result (CompileError D) CompiledPlan :=
  ir ← validated_ir spec None;
  if negb (is_nil (ir_routes ir)) then Err PredicateRegistryRequired
  else Ok (mk_CompiledPlan ir 0 None None).

(*| compiler/lib.rs 228-245 compile_with_predicates *)
Definition compile_with_predicates `{PredicateRegistry} spec :
    result (CompileError D) CompiledPlan :=
  ir ← validated_ir spec None;
  for_each (λ route,
    map_err RegistryError
      (resolve (irp_id (irp_predicate route)) (irp_version (irp_predicate route)));; Ok tt)
    (ir_routes ir);;
  Ok (mk_CompiledPlan ir (zlength (ir_routes ir)) None None).

(*| compiler/lib.rs 145-151 compile_str *)
Definition compile_str (decode : string → result D RawWorkflowSpec) (toml : string) :
    result (CompileError D) CompiledPlan :=
  spec ← map_err ParseError (parse_str decode toml);
  compile_without_predicates spec.

(*| compiler/lib.rs 154-161 compile_str_with_predicates *)
Definition compile_str_with_predicates `{PredicateRegistry}
    (decode : string → result D RawWorkflowSpec) (toml : string) :
    result (CompileError D) CompiledPlan :=
  spec ← map_err ParseError (parse_str decode toml);
  compile_with_predicates spec.

Context `{JsonText} `{!IntJson}.

(*| compiler/lib.rs 182-193 compile_spec_with_sentinel_script *)
Definition compile_spec_with_sentinel_script spec (script : TrustedScript) :
    result (CompileError D) CompiledPlan :=
  ir ← validated_ir spec (Some (AdmitScript script));
  Ok (mk_CompiledPlan ir 0 (Some (script_identity script)) None).

(*| compiler/lib.rs 198-213 compile_spec_with_sentinel_model_probe *)
Definition compile_spec_with_sentinel_model_probe spec (probe : TrustedModelProbe)
    (model_route_digest : string) : result (CompileError D) CompiledPlan :=
  ir ← validated_ir spec (Some (AdmitModel probe model_route_digest));
  Ok (mk_CompiledPlan ir 0 None (Some (probe_identity probe))).
End compile.

(** ** What is compiled *)

Section compiled.
Context {D : Type} `{Sha256}.
Implicit Types (spec : WorkflowSpec) (node : Node).

(** A timeout is present, and positive, exactly on the approval nodes. *)
Definition approvals_valid spec : Prop :=
  ∀ node, node ∈ nodes spec →
    match timeout_ms node with
    | Some timeout => node_kind node = Approval ∧ timeout ≠ 0%Z
    | None => node_kind node ≠ Approval
    end.

Lemma validate_approval_nodes_Ok spec u :
  validate_approval_nodes (D := D) spec = Ok u ↔ approvals_valid spec.
Proof.
  unfold validate_approval_nodes. rewrite for_each_Ok. unfold approvals_valid.
  split; intros Hall node Hn; specialize (Hall node Hn); cbn in *;
    destruct (timeout_ms node) as [t|]; cbn in *; case_decide; try done.
  - destruct (Z.eqb_spec t 0); done.
  - destruct (Z.eqb_spec t 0); naive_solver.
  - naive_solver.
Qed.

(** The rules of [validate_node_bindings], node by node. *)
Record bindings_valid spec node : Prop := {
  (** Preparation: a workflow of one terminal, within bounds. *)
  binding_preparation policy :
    untrusted_text node = Some policy →
    preparation_version policy = 1%Z ∧ (max_input_bytes policy ≤ 65536)%Z ∧
    (∀ b, behavioral policy = Some b → behavioral_version b = 1%Z ∨ behavioral_version b = 2%Z) ∧
    nodes spec = [node] ∧ node_kind node = Terminal ∧ edges spec = [] ∧ routes spec = [];
  (** A firewall: a validator at the entry, never re-entered. *)
  binding_firewall contract :
    firewall node = Some contract →
    node_kind node = Validator ∧ node_id node = entry (workflow spec) ∧
    firewall_version contract = 1%Z ∧ str_len (firewall_identity contract) = 64%Z ∧
    str_all is_lower_hex (firewall_identity contract) = true ∧
    (∀ e, e ∈ edges spec → edge_to e ≠ node_id node) ∧
    (∀ r, r ∈ routes spec → route_default r ≠ Some (node_id node) ∧
       ∀ c, c ∈ cases r → case_target c ≠ node_id node);
  (** Models, tools, Skills and contracts: on agents only. *)
  binding_placement :
    node_kind node ≠ Agent →
    model node = None ∧ tools node = [] ∧ skills node = [] ∧ agent_contract node = None;
  (** A reviewer owns neither tools nor Skills. *)
  binding_reviewer m :
    model node = Some m → model_role m = ReviewerRole → tools node = [] ∧ skills node = [];
  (** No static tool has the name of a Skill runtime tool. *)
  binding_reserved t : t ∈ tools node → is_reserved_skill_tool_name (tool_ref_id t) = false
}.

Lemma bad_preparation_false spec node :
  node ∈ nodes spec →
  bad_preparation spec node = false ↔
  ∀ policy, untrusted_text node = Some policy →
    preparation_version policy = 1%Z ∧ (max_input_bytes policy ≤ 65536)%Z ∧
    (∀ b, behavioral policy = Some b → behavioral_version b = 1%Z ∨ behavioral_version b = 2%Z) ∧
    nodes spec = [node] ∧ node_kind node = Terminal ∧ edges spec = [] ∧ routes spec = [].
Proof.
  intros Hin. unfold bad_preparation. destruct (untrusted_text node) as [p|]; [|naive_solver].
  rewrite !orb_false_iff, !negb_false_iff, bool_decide_eq_true.
  assert (Hone : (length (nodes spec) =? 1) = true ↔ nodes spec = [node]).
  { rewrite Nat.eqb_eq. split; [|by intros ->]. destruct (nodes spec) as [|x [|]]; [done| |done].
    apply list_elem_of_singleton in Hin as ->. done. }
  rewrite Hone, Z.eqb_eq, Z.ltb_ge.
  assert (Hb : match behavioral p with
               | Some b => negb ((behavioral_version b =? 1) || (behavioral_version b =? 2))%Z
               | None => false end = false ↔
          ∀ b, behavioral p = Some b → behavioral_version b = 1%Z ∨ behavioral_version b = 2%Z).
  { destruct (behavioral p) as [b|]; [|naive_solver].
    rewrite negb_false_iff, orb_true_iff, !Z.eqb_eq. naive_solver. }
  rewrite Hb. clear Hb Hone.
  assert (Hnil : ∀ A (l : list A), is_nil l = true ↔ l = []) by (intros A []; naive_solver).
  rewrite !Hnil. split; [|naive_solver].
  intros ((((((?&?)&?)&?)&?)&?)&?) policy [= <-]. done.
Qed.

Lemma bad_firewall_false spec node :
  bad_firewall spec node = false ↔
  ∀ contract, firewall node = Some contract →
    node_kind node = Validator ∧ node_id node = entry (workflow spec) ∧
    firewall_version contract = 1%Z ∧ str_len (firewall_identity contract) = 64%Z ∧
    str_all is_lower_hex (firewall_identity contract) = true ∧
    (∀ e, e ∈ edges spec → edge_to e ≠ node_id node) ∧
    (∀ r, r ∈ routes spec → route_default r ≠ Some (node_id node) ∧
       ∀ c, c ∈ cases r → case_target c ≠ node_id node).
Proof.
  unfold bad_firewall. destruct (firewall node) as [f|]; [|naive_solver].
  rewrite !orb_false_iff, !negb_false_iff, bool_decide_eq_true, str_eqb_eq, !Z.eqb_eq.
  rewrite !existsb_false_iff. setoid_rewrite orb_false_iff. setoid_rewrite existsb_false_iff.
  unfold str_eqb. setoid_rewrite bool_decide_eq_false. split.
  - intros ((((((?&?)&?)&?)&?)&?)&Hr) contract [= <-]. split_and!; try done;
      intros r Hin; by destruct (Hr r Hin).
  - intros Hall. destruct (Hall f eq_refl) as (?&?&?&?&?&?&Hr). split_and!; try done;
      intros r Hin; by destruct (Hr r Hin).
Qed.

Lemma bad_placement_false node :
  bad_placement node = false ↔
  (node_kind node ≠ Agent →
   model node = None ∧ tools node = [] ∧ skills node = [] ∧ agent_contract node = None).
Proof.
  unfold bad_placement. rewrite andb_false_iff, negb_false_iff, bool_decide_eq_true.
  rewrite !orb_false_iff, !negb_false_iff.
  destruct (decide (node_kind node = Agent)) as [->|Hk]; [naive_solver|].
  destruct (model node), (tools node), (skills node), (agent_contract node); naive_solver.
Qed.

Lemma reviewer_with_tools_false node :
  reviewer_with_tools node = false ↔
  ∀ m, model node = Some m → model_role m = ReviewerRole → tools node = [] ∧ skills node = [].
Proof.
  unfold reviewer_with_tools. rewrite andb_false_iff, orb_false_iff, !negb_false_iff.
  destruct (model node) as [m|]; [|naive_solver]. rewrite bool_decide_eq_false.
  destruct (tools node), (skills node), (decide (model_role m = ReviewerRole)); naive_solver.
Qed.

Lemma validate_node_bindings_Ok spec u :
  validate_node_bindings (D := D) spec = Ok u ↔
  ∀ node, node ∈ nodes spec → bindings_valid spec node.
Proof.
  destruct u. unfold validate_node_bindings. rewrite for_each_Ok.
  apply forall_proper. intros node. split; intros Hall Hn; specialize (Hall Hn).
  - destruct (bad_preparation spec node) eqn:H1; [done|].
    destruct (bad_firewall spec node) eqn:H2; [done|].
    destruct (bad_placement node) eqn:H3; [done|].
    destruct (reviewer_with_tools node) eqn:H4; [done|].
    destruct (existsb _ _) eqn:H5; [done|].
    split; [by apply bad_preparation_false|by apply bad_firewall_false|by apply bad_placement_false
           |by apply reviewer_with_tools_false|by apply existsb_false_iff].
  - destruct Hall as [H1 H2 H3 H4 H5].
    rewrite (proj2 (bad_preparation_false spec node Hn) H1),
      (proj2 (bad_firewall_false spec node) H2), (proj2 (bad_placement_false node) H3),
      (proj2 (reviewer_with_tools_false node) H4), (proj2 (existsb_false_iff _ _) H5). done.
Qed.

(** What every check but the admission accepts. *)
Record spec_valid spec : Prop := {
  valid_approvals : approvals_valid spec;
  valid_bindings node : node ∈ nodes spec → bindings_valid spec node;
  valid_lowered_graph : valid_graph (lower spec);
  valid_lowered_state : valid_state (lower spec)
}.

Lemma validated_ir_Ok spec admission ir :
  validated_ir (D := D) spec admission = Ok ir ↔
  spec_valid spec ∧ ir = lower spec ∧
  validate_admission (D := D) (lower spec) admission = Ok tt.
Proof.
  unfold validated_ir. cbv zeta.
  split.
  - intros ([] & Ha & ([] & Hb & ([] & Hg & ([] & Hs & ([] & Hd & [= <-])%bind_Ok)%bind_Ok)%bind_Ok)%bind_Ok)%bind_Ok.
    apply map_err_Ok in Hg, Hs. split; [|done].
    split; [by eapply validate_approval_nodes_Ok|by eapply validate_node_bindings_Ok
           |by apply validate_graph_Ok, Hg; apply lower_sorted|by apply validate_state_Ok].
  - intros ([Ha Hb Hg Hs] & -> & Hd).
    rewrite (proj2 (validate_approval_nodes_Ok spec tt) Ha),
      (proj2 (validate_node_bindings_Ok spec tt) Hb). cbn.
    rewrite (proj2 (validate_graph_Ok _ (lower_sorted spec)) Hg),
      (proj2 (validate_state_Ok _) Hs). cbn. by rewrite Hd.
Qed.

Lemma admission_None ir :
  validate_admission (D := D) ir None = Ok tt ↔ behavioral_policy ir = None.
Proof.
  unfold validate_admission. destruct (behavioral_policy ir); [by destruct (_ || _)|done].
Qed.
End compiled.

(** ** What a plan says *)

(** C36. Compilation without predicates is exact: it yields a plan exactly for
    the specifications whose approvals, node bindings, lowered graph and state
    are valid, that ask for no behavioral admission and branch on no predicate;
    the plan is the lowered workflow, with no registry binding and no capability
    identity. *)
Theorem compile_exact {D} `{Sha256} spec plan :
  compile_without_predicates (D := D) spec = Ok plan ↔
  spec_valid spec ∧ behavioral_policy (lower spec) = None ∧ ir_routes (lower spec) = [] ∧
  plan = mk_CompiledPlan (lower spec) 0 None None.
Proof.
  unfold compile_without_predicates. rewrite bind_Ok. setoid_rewrite validated_ir_Ok.
  setoid_rewrite admission_None. split.
  - intros (ir & (Hv & -> & Hb) & E). destruct (ir_routes (lower spec)); [|done].
    by simplify_eq/=.
  - intros (Hv & Hb & Hr & ->). exists (lower spec). by rewrite Hr.
Qed.

(** Compilation with a registry that resolves by exact match: it yields a
    plan exactly when the other checks pass and every predicate reference is
    registered under its exact identifier and version, which the plan counts. *)
Theorem compile_with_predicates_exact {D} `{Sha256} `{PredicateRegistryLaws} spec plan :
  compile_with_predicates (D := D) spec = Ok plan ↔
  spec_valid spec ∧ behavioral_policy (lower spec) = None ∧
  (∀ route (p := irp_predicate route), route ∈ ir_routes (lower spec) →
     resolve (irp_id p) (irp_version p) = Ok (mk_RegistryEntry (irp_id p) (irp_version p))) ∧
  plan = mk_CompiledPlan (lower spec) (zlength (ir_routes (lower spec))) None None.
Proof.
  assert (Hres : ∀ id version,
    (map_err RegistryError (resolve id version);; Ok tt : result (CompileError D) unit) = Ok tt ↔
    resolve id version = Ok (mk_RegistryEntry id version)).
  { intros id version. destruct (resolve id version) as [e|e] eqn:E; [|done].
    apply resolve_exact in E as ->. done. }
  unfold compile_with_predicates. rewrite bind_Ok. setoid_rewrite validated_ir_Ok.
  setoid_rewrite admission_None. setoid_rewrite for_each_bind_Ok. setoid_rewrite Hres.
  split.
  - intros (ir & (Hv & -> & Hb) & Hr & [= <-]). done.
  - intros (Hv & Hb & Hr & ->). by exists (lower spec).
Qed.

(** A capability approves the IR it names. *)
Definition approved_hash (admission : BehavioralAdmission) : string :=
  match admission with AdmitScript s => ts_ir_hash s | AdmitModel p _ => tp_ir_hash p end.
Definition approved_limits (admission : BehavioralAdmission) : ProbeLimits :=
  match admission with AdmitScript s => ts_limits s | AdmitModel p _ => tp_limits p end.

Section admitted.
Context {D : Type} `{Sha256}.

Lemma validate_admission_Some ir admission :
  validate_admission (D := D) ir (Some admission) = Ok tt →
  ∃ policy, behavioral_policy ir = Some policy ∧
    ir_hash ir = approved_hash admission ∧ policy_limits policy = approved_limits admission ∧
    match trajectory policy with
    | Some t => is_Some (observer_mode t) → trajectory_version t = 3%Z
    | None => True
    end.
Proof.
  unfold validate_admission.
  destruct (behavioral_policy ir) as [p|]; [|by destruct admission].
  intros E. exists p. split; [done|].
  destruct admission as [s|m route]; cbn in E.
  - destruct (script_admitted ir p s) eqn:Es; [|by destruct (_ =? _)%Z].
    unfold script_admitted, script_matches_approval in Es.
    rewrite !andb_true_iff, str_eqb_eq, bool_decide_eq_true in Es.
    destruct Es as (((_ & Ht) & _) & Hh & Hl). split_and!; [done|done|].
    destruct (trajectory p) as [t|]; [|done]. intros [? Eo]. by rewrite Eo in Ht.
  - destruct (model_admitted ir p m route) eqn:Es; [|done].
    unfold model_admitted, probe_matches_approval in Es.
    rewrite !andb_true_iff, !str_eqb_eq, bool_decide_eq_true in Es.
    destruct Es as ((_ & Ht) & (Hh & Hl) & _). split_and!; [done|done|].
    destruct (trajectory p) as [t|]; [|done]. intros [? Eo].
    destruct (Z.eqb_spec (trajectory_version t) 2) as [|_].
    { rewrite Eo, !andb_false_r in Ht. done. }
    by destruct (Z.eqb_spec (trajectory_version t) 3).
Qed.

Lemma behavioral_policy_Some ir policy :
  behavioral_policy ir = Some policy → ∃ n, n ∈ ir_nodes ir ∧ behavioral_of n = Some policy.
Proof.
  unfold behavioral_policy. induction (ir_nodes ir) as [|n l IH]; cbn; [done|].
  destruct (behavioral_of n) eqn:E; [|intros Hp; destruct (IH Hp) as (m & ? & ?); exists m; set_solver].
  intros [= ->]. exists n. set_solver.
Qed.

(** An admitted workflow has one node, so its policy is the one examined. *)
Lemma admitted_normal spec admission ir :
  validated_ir (D := D) spec (Some admission) = Ok ir → ir_normal ir.
Proof.
  intros ([_ Hb _ _] & -> & Ha)%validated_ir_Ok.
  apply validate_admission_Some in Ha as (policy & Hp & _ & _ & Ht).
  apply behavioral_policy_Some in Hp as (n & Hn & Hbe).
  unfold lower in Hn. cbn in Hn. unfold sort_by in Hn. rewrite merge_sort_Permutation in Hn.
  apply list_elem_of_fmap in Hn as (node & -> & Hnode).
  unfold behavioral_of in Hbe. cbn in Hbe.
  destruct (untrusted_text node) as [u|] eqn:Hu; [|done].
  destruct (Hb node Hnode) as [Hprep _ _ _ _].
  destruct (Hprep u Hu) as (_ & _ & _ & Hone & Hk & _ & _).
  unfold ir_normal, lower. cbn. rewrite Hone. cbn.
  constructor; [|constructor]. split.
  { cbn. rewrite Hk. done. }
  unfold trajectory_of, behavioral_of. cbn. rewrite Hu. cbn. cbn in Hbe. rewrite Hbe. cbn.
  destruct (trajectory policy) as [t|]; [|done]. cbn. intros Hv.
  destruct (observer_mode t); [|done]. exfalso. apply Hv, Ht. done.
Qed.
End admitted.

Lemma ir_hash_inj `{Sha256, !Inj (=) (=) sha256} a b :
  ir_hash a = ir_hash b → encode_canonical a = encode_canonical b.
Proof.
  unfold ir_hash, canonical_ir_hash. intros E%(inj (String.append _)).
  apply (inj encode_hex), (inj sha256) in E. by apply string_of_list_ascii_inj.
Qed.

(** A behavioral capability is bound to one workflow: the limits it approves
    are those of the workflow's policy, and, with a collision-free hash, two
    specifications (of one wire layout) that one capability admits lower to the
    same IR. *)
Theorem admission_binds_workflow {D} `{Sha256, !Inj (=) (=) sha256} admission s t a b :
  validated_ir (D := D) s (Some admission) = Ok a →
  validated_ir (D := D) t (Some admission) = Ok b →
  (∃ policy, behavioral_policy a = Some policy ∧ policy_limits policy = approved_limits admission) ∧
  (ir_fits a → ir_fits b → layout a = layout b → a = b).
Proof.
  intros Ea Eb. pose proof (admitted_normal _ _ _ Ea) as Hna.
  pose proof (admitted_normal _ _ _ Eb) as Hnb.
  apply validated_ir_Ok in Ea as (_ & -> & Ha), Eb as (_ & -> & Hb).
  apply validate_admission_Some in Ha as (p & Hp & Hha & Hla & _).
  apply validate_admission_Some in Hb as (q & _ & Hhb & _ & _).
  split; [by exists p|]. intros Hfa Hfb Hl.
  apply encode_canonical_inj; try done. apply ir_hash_inj. congruence.
Qed.

(** *** Concrete workflows *)

#[local] Instance ex_sha : Sha256 := λ s, s.

Definition ex_bare (id : string) (kind : NodeKind) : Node :=
  mk_Node id kind None None false [] None [] [] None None None.
Definition ex_routed : WorkflowSpec :=
  mk_WorkflowSpec (mk_Workflow "demo" "1" "start" [])
    [ex_bare "start" Agent; ex_bare "done" Terminal] []
    [mk_PredicateRoute "start" (mk_PredicateReference "review.verdict@v1" "1.0.0")
       [mk_RouteCase "accept" "done"] None] None None [].

Lemma compile_with_predicates_exact_witness :
  resolve (PredicateRegistry := BuiltinPredicateRegistry) "review.verdict@v1" "1.0.0" =
  Ok (mk_RegistryEntry "review.verdict@v1" "1.0.0").
Proof.
  assert (E : compile_with_predicates (D := unit) (H0 := BuiltinPredicateRegistry) ex_routed =
              Ok (mk_CompiledPlan (lower ex_routed) 1 None None)) by by vm_compute.
  apply compile_with_predicates_exact in E as (_ & _ & Hr & _).
  apply (Hr (lower_route (mk_PredicateRoute "start"
    (mk_PredicateReference "review.verdict@v1" "1.0.0") [mk_RouteCase "accept" "done"] None))).
  apply list_elem_of_here.
Defined.

(** A workflow that asks for a scripted behavioral run, and an approval of it. *)
Definition ex_prepared (version : string) : WorkflowSpec :=
  mk_WorkflowSpec (mk_Workflow "probe" version "only" [])
    [mk_Node "only" Terminal None None false [] None [] [] None
       (Some (mk_UntrustedTextPreparation 1 100 true false false
                (Some (mk_BehavioralPolicy 1 4 100 None)))) None]
    [] [] None None [].
Definition ex_script : TrustedScript :=
  mk_TrustedScript (ir_hash (lower (ex_prepared "1"))) "src"
    (mk_ContentProvenance CommentKind "s" "o" "a" UntrustedContent "p") "r1"
    (mk_Script 1 [Crash]) (mk_ProbeLimits 4 100) None.

Lemma admission_binds_workflow_witness :
  validated_ir (D := unit) (ex_prepared "1") (Some (AdmitScript ex_script)) =
    Ok (lower (ex_prepared "1")) ∧
  validated_ir (D := unit) (ex_prepared "2") (Some (AdmitScript ex_script)) ≠
    Ok (lower (ex_prepared "2")).
Proof.
  assert (E : validated_ir (D := unit) (ex_prepared "1") (Some (AdmitScript ex_script)) =
    Ok (lower (ex_prepared "1"))) by by vm_compute.
  split; [exact E|]. intros E2.
  assert (Hinj : Inj (=) (=) (@sha256 ex_sha)) by by intros ???.
  destruct (admission_binds_workflow (AdmitScript ex_script) _ _ _ _ E E2) as [_ Heq].
  assert (Hne : lower (ex_prepared "1") ≠ lower (ex_prepared "2")) by by vm_compute.
  apply Hne, Heq; [by apply (bool_decide_unpack _); vm_compute..|by vm_compute].
Defined.

(** ** Two workflows with one identity

    The state, the exchange and the resources are written without a tag, so a
    resource list can spell a state declaration. *)

(** The eight bytes of a small length. *)
Definition len8 (n : Z) : string := string_of_list_ascii (be_bytes 8 n).

Definition forged_path : string :=
  len8 1 +:+ "1" +:+ len8 0 +:+ len8 1 +:+ len8 127.
Definition forged_digest : string :=
  len8 1 +:+ "s" +:+ len8 1 +:+ "1" +:+ string_of_list_ascii [byte_of 0].
Definition forged_key : string :=
  len8 0 +:+ String.concat "" (map (λ p, len8 1 +:+ p +:+ len8 0) ["2"; "3"; "4"; "5"; "6"; "7"])
  +:+ len8 1 +:+ "8" +:+ len8 19.

Definition twin (state : option StateSpec) (resources : list ResourceReference) : WorkflowSpec :=
  mk_WorkflowSpec (mk_Workflow "demo" "1" "start" [])
    [mk_Node "start" Action None None true [] None [] [] None None None; ex_bare "done" Terminal]
    [mk_Edge "start" "done"] [] state None resources.
Definition twin_resources : WorkflowSpec :=
  twin None (mk_ResourceReference forged_path "" ::
    map (λ p, mk_ResourceReference p "") ["2"; "3"; "4"; "5"; "6"; "7"] ++
    [mk_ResourceReference "8" forged_digest]).
Definition twin_state : WorkflowSpec :=
  twin (Some (mk_StateSpec (len8 33) "1" [] [mk_StateKey forged_key "s" "1" None])) [].

(** The content identity does not separate a workflow with resources from one
    with a state declaration: [twin_resources] and [twin_state] both compile, to
    different IRs whose canonical bytes, hence whose hash under any hash
    function, are the same. *)
Theorem canonical_hash_collision {D} `{Sha256} :
  ∃ a b, compile_without_predicates (D := D) twin_resources = Ok a ∧
         compile_without_predicates (D := D) twin_state = Ok b ∧
         plan_ir a ≠ plan_ir b ∧
         canonical_ir_hash (plan_ir a) = canonical_ir_hash (plan_ir b).
Proof.
  exists (mk_CompiledPlan (lower twin_resources) 0 None None),
    (mk_CompiledPlan (lower twin_state) 0 None None).
  split_and!; [by vm_compute..|done|].
  assert (E : encode_canonical (lower twin_resources) = encode_canonical (lower twin_state))
    by by vm_compute.
  unfold canonical_ir_hash. cbn [plan_ir]. by rewrite E.
Qed.
