(* ===== verification/GraphBuilder.v ===== *)
(** * Building a graph from registries

    [workflow-compiler/src/graph_builder.rs]: the source graph is validated as
    the compiler does, and every predicate and every binding the caller names is
    resolved by the registry of its category.  The six registries are traits:
    the parameter [registries].  Implementations are not retained. *)

From S2P Require Import Prelude Hashing Order Spec Ir Graph Trust Admission Compile.

(*| compiler/graph_builder.rs 12-16 RegistryBinding *)
Record RegistryBinding := mk_RegistryBinding {
  rb_category : RegistryCategory; rb_id : string; rb_version : string }.

(*| compiler/graph_builder.rs 57-63 RegistryIdentityDrift *)
Record RegistryIdentityDrift := mk_RegistryIdentityDrift {
  drift_category : RegistryCategory; requested_id : string; requested_version : string;
  resolved_id : string; resolved_version : string }.

Section build.
Context {D : Type} `{Sha256}.

(*| compiler/graph_builder.rs 46-53 GraphBuildError *)
Inductive GraphBuildError :=
| BuildCompile (error : CompileError D)
| BuildRegistry (error : RegistryNotFound)
| IdentityDrift (error : RegistryIdentityDrift).

Context (registries : RegistryCategory → string → string → result RegistryNotFound RegistryEntry).

(*| compiler/graph_builder.rs 235-247 GraphBuilder::check_identity *)
Definition check_identity (category : RegistryCategory) (binding : RegistryBinding)
    (r : result RegistryNotFound RegistryEntry) : result GraphBuildError unit :=
  entry ← map_err BuildRegistry r;
  if negb (str_eqb (entry_id entry) (rb_id binding)) || negb (str_eqb (entry_version entry) (rb_version binding))
  then Err (IdentityDrift (mk_RegistryIdentityDrift category (rb_id binding) (rb_version binding)
              (entry_id entry) (entry_version entry)))
  else Ok tt.

(*| compiler/graph_builder.rs 200-233 GraphBuilder::resolve *)
Definition resolve_binding (binding : RegistryBinding) : result GraphBuildError unit :=
  check_identity (rb_category binding) binding
    (registries (rb_category binding) (rb_id binding) (rb_version binding)).

(*| compiler/graph_builder.rs 162-198 GraphBuilder::build *)
Definition build (spec : WorkflowSpec) (bindings : list RegistryBinding) : result GraphBuildError CompiledPlan :=
  ir ← map_err BuildCompile (validated_ir spec None);
  for_each (λ route,
    check_identity RegistryPredicate
      (mk_RegistryBinding RegistryPredicate (irp_id (irp_predicate route)) (irp_version (irp_predicate route)))
      (registries RegistryPredicate (irp_id (irp_predicate route)) (irp_version (irp_predicate route))))
    (ir_routes ir);;
  for_each resolve_binding bindings;;
  Ok (mk_CompiledPlan ir (zlength (ir_routes ir) + zlength bindings) None None).

(** The registry of the category returns exactly the named identity. *)
Definition resolves (category : RegistryCategory) (id version : string) : Prop :=
  registries category id version = Ok (mk_RegistryEntry id version).

Lemma check_identity_Ok category b u :
  check_identity category b (registries category (rb_id b) (rb_version b)) = Ok u ↔
  resolves category (rb_id b) (rb_version b).
Proof.
  unfold check_identity, resolves. rewrite bind_Ok. setoid_rewrite map_err_Ok. setoid_rewrite guard_Ok.
  setoid_rewrite orb_false_iff. setoid_rewrite negb_false_iff. setoid_rewrite str_eqb_eq. destruct u. split.
  - intros ([i v] & E & [Hi Hv] & _). cbn in *. by subst.
  - intros E. by eexists.
Qed.

(** A graph is built exactly when the compiler accepts it and every name in
    it is resolved to itself: the plan is the one of the validated IR, counts the
    routes' predicates and the caller's bindings, and carries no Sentinel
    identity; a registry that answers with another identity is never accepted. *)
Theorem graph_build_exact spec bindings plan :
  build spec bindings = Ok plan ↔
  ∃ ir, validated_ir (D := D) spec None = Ok ir ∧
    (∀ r, r ∈ ir_routes ir →
       resolves RegistryPredicate (irp_id (irp_predicate r)) (irp_version (irp_predicate r))) ∧
    (∀ b, b ∈ bindings → resolves (rb_category b) (rb_id b) (rb_version b)) ∧
    plan = mk_CompiledPlan ir (zlength (ir_routes ir) + zlength bindings) None None.
Proof.
  unfold build. rewrite bind_Ok. setoid_rewrite map_err_Ok. setoid_rewrite for_each_bind_Ok.
  setoid_rewrite for_each_bind_Ok. split.
  - intros (ir & Hir & Hroutes & Hb & [= <-]). exists ir. split; [done|]. split; [|split; [|done]].
    + intros r Hr. exact (proj1 (check_identity_Ok RegistryPredicate
        (mk_RegistryBinding RegistryPredicate _ _) tt) (Hroutes r Hr)).
    + intros b Hin. exact (proj1 (check_identity_Ok _ b tt) (Hb b Hin)).
  - intros (ir & Hir & Hroutes & Hb & ->). exists ir. split; [done|]. split; [|split; [|done]].
    + intros r Hr. exact (proj2 (check_identity_Ok RegistryPredicate
        (mk_RegistryBinding RegistryPredicate _ _) tt) (Hroutes r Hr)).
    + intros b Hin. exact (proj2 (check_identity_Ok _ b tt) (Hb b Hin)).
Qed.
End build.
