(* ===== verification/Lock.v ===== *)
(** * Workflow locks

    [workflow-compiler/src/lock.rs]: the immutable identity of a compiled plan
    and its migration from the legacy document.  TOML is third-party code: the
    decoded document is a parameter. *)

From S2P Require Import Prelude Hashing Order Spec Wire Ir Graph Trust Admission Compile.

(*| compiler/lock.rs 10-18 WorkflowLock *)
Record WorkflowLock := mk_WorkflowLock {
  lock_version : Z; canonical_ir_wire_version : Z; ir_schema_version : Z; lock_workflow_id : string;
  lock_workflow_version : string; lock_ir_hash : string; semantic_resource_hashes : list string }.
#[export] Instance WorkflowLock_eq_dec : EqDecision WorkflowLock.
Proof. solve_decision. Defined.

(*| compiler/lock.rs 22-29 LegacyWorkflowLock *)
Record LegacyWorkflowLock := mk_LegacyWorkflowLock {
  legacy_version : Z; legacy_workflow_id : string; legacy_workflow_version : string;
  legacy_ir_hash : string; legacy_hashes : list string }.

(*| compiler/lock.rs 137-145 WorkflowLockError *)
Inductive WorkflowLockError (T : Type) :=
| UnsupportedSemanticResources (registry_binding_count : Z)
| LockSerialization (error : T).
Arguments UnsupportedSemanticResources {T} registry_binding_count.
Arguments LockSerialization {T} error.

(*| compiler/lock.rs 149-164 WorkflowLockMigrationError *)
Inductive WorkflowLockMigrationError (D T : Type) :=
| MigrationDecode (error : D)
| UnsupportedSourceSchema (found : Z)
| IdentityMismatch (field : string)
| CurrentLock (error : WorkflowLockError T).
Arguments MigrationDecode {D T} error.
Arguments UnsupportedSourceSchema {D T} found.
Arguments IdentityMismatch {D T} field.
Arguments CurrentLock {D T} error.

Section lock.
Context `{Sha256} {D T : Type}.

(*| compiler/lock.rs 33-59 WorkflowLock::try_from_plan *)
Definition try_from_plan (plan : CompiledPlan) : result (WorkflowLockError T) WorkflowLock :=
  let ir := plan_ir plan in
  Ok (mk_WorkflowLock 1 (canonical_wire_version ir) IR_SCHEMA_VERSION_V1 (ir_workflow_id ir)
        (ir_workflow_version ir) ("sha256:" +:+ encode_hex (canonical_ir_hash ir))
        (map irr_sha256 (ir_resources ir))).

(** [for (field, matches) in fields { if !matches { return Err(field) } }]. *)
Definition first_mismatch (fields : list (string * bool)) : option string :=
  fst <$> List.find (λ f, negb (snd f)) fields.

(*| compiler/lock.rs 62-92 WorkflowLock::migrate_from_toml *)
Definition migrate_from_toml (decode : string → result D LegacyWorkflowLock) (document : string)
    (plan : CompiledPlan) : result (WorkflowLockMigrationError D T) WorkflowLock :=
  legacy ← map_err MigrationDecode (decode document);
  if negb (legacy_version legacy =? 0)%Z then Err (UnsupportedSourceSchema (legacy_version legacy))
  else
    current ← map_err CurrentLock (try_from_plan plan);
    match first_mismatch
      [("workflow_id", str_eqb (legacy_workflow_id legacy) (lock_workflow_id current));
       ("workflow_version", str_eqb (legacy_workflow_version legacy) (lock_workflow_version current));
       ("ir_hash", str_eqb (legacy_ir_hash legacy) (lock_ir_hash current));
       ("semantic_resource_hashes",
        bool_decide (legacy_hashes legacy = semantic_resource_hashes current))] with
    | Some field => Err (IdentityMismatch field)
    | None => Ok current
    end.

Lemma first_mismatch_None fields :
  first_mismatch fields = None ↔ Forall (λ f, snd f = true) fields.
Proof.
  unfold first_mismatch. induction fields as [|[f b] l IH]; cbn; [by split|].
  destruct b; cbn; [by rewrite Forall_cons, IH; intuition|]. split; [done|]. by intros [[=] _]%Forall_cons.
Qed.

(** A lock identifies what was compiled, and migration only renews it.  Two
    plans have the same lock only if their IRs have the same canonical bytes,
    unless the hash collides on the two.  A legacy document migrates to exactly
    the lock of the plan, and only if it decodes with version zero and all four
    identities it records are the plan's. *)
Theorem workflow_lock_identifies decode document plan plan' lock :
  (try_from_plan plan = try_from_plan plan' →
   (sha256 (string_of_list_ascii (encode_canonical (plan_ir plan))) =
      sha256 (string_of_list_ascii (encode_canonical (plan_ir plan'))) →
    encode_canonical (plan_ir plan) = encode_canonical (plan_ir plan')) →
   encode_canonical (plan_ir plan) = encode_canonical (plan_ir plan')) ∧
  (migrate_from_toml decode document plan = Ok lock ↔
   try_from_plan plan = Ok lock ∧
   decode document = Ok (mk_LegacyWorkflowLock 0 (lock_workflow_id lock) (lock_workflow_version lock)
                           (lock_ir_hash lock) (semantic_resource_hashes lock))).
Proof.
  split.
  - intros E Hnc. apply Hnc. unfold try_from_plan in E. injection E as _ _ _ E _.
    by apply (inj encode_hex) in E.
  - unfold migrate_from_toml. rewrite bind_Ok. setoid_rewrite map_err_Ok. setoid_rewrite guard_Ok.
    setoid_rewrite bind_Ok. setoid_rewrite map_err_Ok. setoid_rewrite negb_false_iff. setoid_rewrite Z.eqb_eq.
    split.
    + intros (legacy & Hd & Hv & current & Hc & E). destruct (first_mismatch _) eqn:Em; [done|].
      injection E as <-. split; [done|]. apply first_mismatch_None in Em.
      rewrite !Forall_cons in Em. cbn [snd] in Em. rewrite !str_eqb_eq, bool_decide_eq_true in Em.
      destruct legacy. cbn in *. destruct Em as (E1 & E2 & E3 & E4 & _). subst. exact Hd.
    + intros [Hc Hd]. eexists. split; [exact Hd|]. split; [done|]. exists lock. split; [done|].
      rewrite (proj2 (first_mismatch_None _)); [done|].
      by repeat constructor; cbn; rewrite ?str_eqb_eq, ?bool_decide_eq_true.
Qed.
End lock.
