(* ===== verification/SecurityAudit.v ===== *)
(** * Dependency audit

    [workflow-compiler/src/security_audit.rs]: one policy against one lock file.
    TOML is third-party code: the decoders of the two documents are parameters. *)

From S2P Require Import Prelude.

(*| compiler/security_audit.rs 13-20 AuditDisposition *)
Inductive AuditDisposition := AuditClean | AuditCritical | AuditBoundaryMiss.

(*| compiler/security_audit.rs 24-30 AuditReport *)
Record AuditReport := mk_AuditReport {
  disposition : AuditDisposition; critical_count : nat; package_count : nat;
  report_policy_len : Z; report_lock_len : Z }.

(*| compiler/security_audit.rs 69-74 AuditError *)
Record AuditError := mk_AuditError {
  error_kind : AuditDisposition; error_code : string; error_policy_len : Z; error_lock_len : Z }.
(*| compiler/security_audit.rs 77-84 AuditError::boundary *)
Definition boundary (policy_len lock_len : Z) : AuditError :=
  mk_AuditError AuditBoundaryMiss "workflow.audit.boundary_miss" policy_len lock_len.

(*| compiler/security_audit.rs 125-130 LicensePolicyWire *)
Record LicensePolicyWire := mk_LicensePolicyWire { allow : option (list string); license_deny : list string }.
(*| compiler/security_audit.rs 134-137 BanPolicyWire *)
Record BanPolicyWire := mk_BanPolicyWire { ban_deny : list string }.
(*| compiler/security_audit.rs 149-154 UnmaintainedAction *)
Inductive UnmaintainedAction := UnmaintainedAll | UnmaintainedDeny.
(*| compiler/security_audit.rs 157-160 DenyAction *)
Inductive DenyAction := ActionDeny.
(*| compiler/security_audit.rs 141-146 AdvisoryPolicyWire *)
Record AdvisoryPolicyWire := mk_AdvisoryPolicyWire {
  unmaintained_action : option UnmaintainedAction; yanked_action : option DenyAction }.
(*| compiler/security_audit.rs 111-121 AuditPolicyWire *)
Record AuditPolicyWire := mk_AuditPolicyWire {
  schema_version : option Z; denied_crates : list string; licenses : option LicensePolicyWire;
  bans : option BanPolicyWire; advisories : option AdvisoryPolicyWire }.

(*| compiler/security_audit.rs 169-179 LockPackage *)
Record LockPackage := mk_LockPackage {
  name : string; license : option string; advisory_severity : option string;
  unmaintained : bool; yanked : bool }.

(** The BTree sets are only asked for membership. *)
Definition in_list (l : list string) (x : string) : bool := existsb (str_eqb x) l.

(*| compiler/security_audit.rs 249-251 audit_dependencies *)
Definition is_compound (license : string) : bool :=
  str_contains license " OR " || str_contains license " AND " || str_contains license " WITH ".

(*| compiler/security_audit.rs 207-214 audit_dependencies *)
Definition denied (policy : AuditPolicyWire) : list string :=
  denied_crates policy ++ match bans policy with Some b => ban_deny b | None => [] end.
(*| compiler/security_audit.rs 215-225 audit_dependencies *)
Definition denied_licenses (policy : AuditPolicyWire) : list string :=
  match licenses policy with Some l => license_deny l | None => [] end.
(*| compiler/security_audit.rs 226-230 audit_dependencies *)
Definition allowed_licenses (policy : AuditPolicyWire) : option (list string) :=
  licenses policy ≫= allow.

(** What is found on one package, each once. *)
(*| compiler/security_audit.rs 244-264 audit_dependencies *)
Definition findings (policy : AuditPolicyWire) (package : LockPackage) : list bool :=
  [in_list (denied policy) (name package);
   match license package with
   | Some l => in_list (denied_licenses policy) l || (negb (is_nil (denied_licenses policy)) && is_compound l)
   | None => false
   end;
   match allowed_licenses policy with
   | Some allowed =>
       match license package with
       | Some l => negb (in_list allowed l) || is_compound l
       | None => true
       end
   | None => false
   end;
   is_some (advisory_severity package);
   match advisories policy with Some a => is_some (unmaintained_action a) | None => false end && unmaintained package;
   match advisories policy with Some a => is_some (yanked_action a) | None => false end && yanked package].

Definition count_findings (policy : AuditPolicyWire) (package : LockPackage) : nat :=
  list_sum (map Nat.b2n (findings policy package)).

Section audit.
Context (decode_policy : string → option AuditPolicyWire) (decode_lock : string → option (list LockPackage)).

(*| compiler/security_audit.rs 194-200 audit_dependencies *)
Definition policy_rejected (policy : AuditPolicyWire) : bool :=
  match schema_version policy with
  | Some version => negb (version =? 1)%Z
  | None => negb (is_some (licenses policy)) && negb (is_some (bans policy)) && negb (is_some (advisories policy))
  end.

(*| compiler/security_audit.rs 185-279 audit_dependencies *)
Definition audit_dependencies (policy lock : string) : result AuditError AuditReport :=
  let missed := boundary (str_len policy) (str_len lock) in
  if str_is_empty policy || str_is_empty lock then Err missed
  else match decode_policy policy with
  | None => Err missed
  | Some parsed =>
      if policy_rejected parsed then Err missed
      else match decode_lock lock with
      | None => Err missed
      | Some packages =>
          let critical_count := list_sum (map (count_findings parsed) packages) in
          Ok (mk_AuditReport (if (critical_count =? 0)%nat then AuditClean else AuditCritical)
                critical_count (length packages) (str_len policy) (str_len lock))
      end
  end.

(** Nothing in the policy forbids the package. *)
Record package_clean (policy : AuditPolicyWire) (p : LockPackage) : Prop := {
  clean_name : (name p ∉ denied_crates policy) ∧ (∀ b, bans policy = Some b → name p ∉ ban_deny b);
  clean_denied l d :
    licenses policy = Some d → license p = Some l →
    (l ∉ license_deny d) ∧ (license_deny d ≠ [] → is_compound l = false);
  clean_allowed d allowed :
    licenses policy = Some d → allow d = Some allowed →
    ∃ l, license p = Some l ∧ l ∈ allowed ∧ is_compound l = false;
  clean_advisory : advisory_severity p = None;
  clean_maintained a : advisories policy = Some a → unmaintained_action a ≠ None → unmaintained p = false;
  clean_yanked a : advisories policy = Some a → yanked_action a ≠ None → yanked p = false
}.

Lemma in_list_elem l x : in_list l x = true ↔ x ∈ l.
Proof.
  unfold in_list. rewrite existsb_true_iff. setoid_rewrite str_eqb_eq. naive_solver.
Qed.
Lemma in_list_false l x : in_list l x = false ↔ x ∉ l.
Proof. rewrite <- in_list_elem. by destruct (in_list l x). Qed.

Lemma list_sum_zero l : list_sum l = 0 ↔ Forall (λ n, n = 0) l.
Proof.
  induction l as [|n l IH]; [by split|]. rewrite Forall_cons, <- IH.
  change (list_sum (n :: l)) with (n + list_sum l). lia.
Qed.

Lemma count_zero policy p : count_findings policy p = 0 ↔ Forall (λ b, b = false) (findings policy p).
Proof.
  unfold count_findings. rewrite list_sum_zero, Forall_map. apply Forall_iff. by intros [].
Qed.

Lemma count_findings_clean policy p : count_findings policy p = 0 ↔ package_clean policy p.
Proof.
  rewrite count_zero. unfold findings. rewrite !Forall_cons, Forall_nil. split.
  - intros (Hn & Hd & Ha & Hs & Hu & Hy & _). apply in_list_false in Hn. unfold denied in Hn. split.
    + split; [set_solver|]. intros b Hb. rewrite Hb in Hn. set_solver.
    + intros l d El Ep. unfold denied_licenses in Hd. rewrite El, Ep in Hd.
      apply orb_false_iff in Hd as [Hd Hc]. split; [by apply in_list_false|]. intros Hne.
      destruct (license_deny d); done.
    + intros d allowed El Ed. unfold allowed_licenses in Ha. rewrite El in Ha. cbn in Ha. rewrite Ed in Ha.
      destruct (license p) as [l|]; [|done]. apply orb_false_iff in Ha as [Hin Hc]. exists l.
      split_and!; [done| |done]. apply in_list_elem. by apply negb_false_iff.
    + by destruct (advisory_severity p).
    + intros a Ea Hne. rewrite Ea in Hu. by destruct (unmaintained_action a).
    + intros a Ea Hne. rewrite Ea in Hy. by destruct (yanked_action a).
  - intros [[Hn Hb] Hd Ha Hs Hu Hy]. split_and!; try done.
    + apply in_list_false. unfold denied. destruct (bans policy); set_solver.
    + destruct (license p) as [l|] eqn:El; [|done]. unfold denied_licenses.
      destruct (licenses policy) as [d|] eqn:Ed; [|done].
      destruct (Hd l d eq_refl eq_refl) as [Hin Hc]. rewrite (proj2 (in_list_false _ _) Hin). cbn.
      destruct (license_deny d); [done|]. by rewrite Hc.
    + unfold allowed_licenses. destruct (licenses policy) as [d|] eqn:Ed; [|done]. cbn.
      destruct (allow d) as [allowed|] eqn:Ea; [|done].
      destruct (Ha d allowed eq_refl Ea) as (l & El & Hin & Hc). rewrite El, Hc, orb_false_r.
      apply negb_false_iff. by apply in_list_elem.
    + by rewrite Hs.
    + destruct (advisories policy) as [a|] eqn:Ea; [|done]. specialize (Hu a eq_refl).
      destruct (unmaintained_action a); cbn; [by apply Hu|done].
    + destruct (advisories policy) as [a|] eqn:Ea; [|done]. specialize (Hy a eq_refl).
      destruct (yanked_action a); cbn; [by apply Hy|done].
Qed.

(** An audit is clean exactly when nothing is forbidden.  A report is made
    exactly when both documents are there and decode and the policy states a
    supported version or at least one section; it is clean if and only if every
    package is free of denied names, denied, unlisted and compound licenses,
    advisories, and what the policy says about unmaintained and yanked packages;
    it is critical otherwise, never a boundary miss, and every error is one. *)
Theorem security_audit_exact policy lock :
  match audit_dependencies policy lock with
  | Ok report =>
      ∃ parsed packages, policy ≠ "" ∧ lock ≠ "" ∧ decode_policy policy = Some parsed ∧
        decode_lock lock = Some packages ∧ policy_rejected parsed = false ∧
        (disposition report = AuditClean ↔ ∀ p, p ∈ packages → package_clean parsed p) ∧
        (disposition report = AuditCritical ↔ 0 < critical_count report) ∧
        disposition report ≠ AuditBoundaryMiss ∧ package_count report = length packages
  | Err e => error_kind e = AuditBoundaryMiss ∧
      (policy = "" ∨ lock = "" ∨ decode_policy policy = None ∨ decode_lock lock = None ∨
       ∃ parsed, decode_policy policy = Some parsed ∧ policy_rejected parsed = true)
  end.
Proof.
  unfold audit_dependencies. destruct (str_is_empty policy || str_is_empty lock) eqn:Ee.
  { split; [done|]. apply orb_true_iff in Ee as [E|E]; apply str_is_empty_true in E; auto. }
  apply orb_false_iff in Ee as [Hp%str_is_empty_false Hl%str_is_empty_false].
  destruct (decode_policy policy) as [parsed|] eqn:Ed; [|by split; auto].
  destruct (policy_rejected parsed) eqn:Er; [split; [done|]; do 4 right; by exists parsed|].
  destruct (decode_lock lock) as [packages|] eqn:El; [|by split; auto].
  exists parsed, packages. cbn [disposition critical_count package_count].
  set (n := list_sum _).
  assert (Hn : n = 0 ↔ ∀ p, p ∈ packages → package_clean parsed p).
  { unfold n. rewrite list_sum_zero, Forall_map, Forall_forall. cbn.
    split; intros Hall p Hin; specialize (Hall p Hin); by apply count_findings_clean. }
  split_and!; try done.
  - rewrite <- Hn. destruct (Nat.eqb_spec n 0); by split.
  - destruct (Nat.eqb_spec n 0); (split; [done|lia]) || split; (done || lia).
  - by destruct (Nat.eqb_spec n 0).
Qed.
End audit.
