(* ===== verification/Diagnostics.v ===== *)
(** * Diagnostics

    [workflow-compiler/src/diagnostics.rs]: producer errors are projected to
    stable diagnostics and rendered without control characters.  The location of
    a TOML error is third-party code: the parameter [decode_location], its field
    path and byte span.  Serde's JSON is not modelled. *)

From stdpp Require Import pretty.
From S2P Require Import Prelude Hashing Json Text Order Spec Ir Graph Trust Admission Compile Lock.

#[local] Arguments String.append !_ _ /.

(*| compiler/diagnostics.rs 11-11 DIAGNOSTIC_VERSION *)
Definition DIAGNOSTIC_VERSION : Z := 1.

(*| compiler/diagnostics.rs 158-171 DiagnosticProjectionError *)
Inductive DiagnosticProjectionError :=
| IntegerOverflow | ReversedSpan | DuplicateOccurrences | EmptyCycle | DuplicateCycleMember | UnsortedCycle.

(*| compiler/diagnostics.rs 180-183 DiagnosticSpan *)
Record DiagnosticSpan := mk_DiagnosticSpan { span_start : Z; span_end : Z }.
(*| compiler/diagnostics.rs 174-177 DiagnosticLocation *)
Record DiagnosticLocation := mk_DiagnosticLocation { field_path : string; span : option DiagnosticSpan }.

(*| compiler/diagnostics.rs 187-222 DiagnosticDetails *)
Inductive DiagnosticDetails :=
| DetailsEmpty
| DetailsRunFailed (category : string)
| DetailsInvalidIdentifier (field_path : string)
| DetailsUnsupportedSchemaVersion (found : Z)
| DetailsDuplicateNodeId (node_id : string) (occurrences : Z)
| DetailsMissingEntryNode (entry_node_id : string)
| DetailsDanglingEdge (from to missing : string)
| DetailsUnreachableNode (node_id : string)
| DetailsCycle (node_ids : list string)
| DetailsCannotReachTerminal (node_id : string)
| DetailsUnsupportedSemanticResources (registry_binding_count : Z).

(*| compiler/diagnostics.rs 15-21 Diagnostic *)
Record Diagnostic := mk_Diagnostic {
  diagnostic_version : Z; code : string; message : string;
  location : option DiagnosticLocation; details : DiagnosticDetails }.

(** A diagnostic without a location. *)
Definition fixed (code message : string) (details : DiagnosticDetails) : Diagnostic :=
  mk_Diagnostic DIAGNOSTIC_VERSION code message None details.

(*| compiler/diagnostics.rs 25-33 Diagnostic::invalid_cli_arguments *)
Definition invalid_cli_arguments : Diagnostic := fixed "workflow.cli.invalid_arguments" "invalid command-line arguments" DetailsEmpty.
(*| compiler/diagnostics.rs 36-44 Diagnostic::stdout_write_failed *)
Definition stdout_write_failed : Diagnostic := fixed "workflow.cli.stdout_write_failed" "failed to write command output" DetailsEmpty.
(*| compiler/diagnostics.rs 47-55 Diagnostic::run_unsupported_input *)
Definition run_unsupported_input : Diagnostic := fixed "workflow.run.unsupported_input" "workflow run input is not supported" DetailsEmpty.
(*| compiler/diagnostics.rs 74-82 Diagnostic::skill_manifest_invalid *)
Definition skill_manifest_invalid : Diagnostic := fixed "skill.cli.invalid_manifest" "Skill manifest validation failed" DetailsEmpty.
(*| compiler/diagnostics.rs 85-93 Diagnostic::skill_script_invalid *)
Definition skill_script_invalid : Diagnostic := fixed "skill.cli.invalid_script" "Skill script validation failed" DetailsEmpty.
(*| compiler/diagnostics.rs 96-104 Diagnostic::cli_boundary_miss *)
Definition cli_boundary_miss : Diagnostic := fixed "workflow.cli.boundary_miss" "command fixture missed a typed boundary" DetailsEmpty.
(*| compiler/diagnostics.rs 107-115 Diagnostic::eval_boundary_miss *)
Definition eval_boundary_miss : Diagnostic := fixed "eval.boundary_miss" "eval boundary miss" DetailsEmpty.
(*| compiler/diagnostics.rs 118-126 Diagnostic::replay_invalid *)
Definition replay_invalid : Diagnostic := fixed "workflow.cli.replay_invalid" "replay bundle is invalid" DetailsEmpty.
(*| compiler/diagnostics.rs 129-137 Diagnostic::audit_critical *)
Definition audit_critical : Diagnostic := fixed "workflow.audit.critical" "unresolved critical dependency findings" DetailsEmpty.
(*| compiler/diagnostics.rs 140-148 Diagnostic::audit_boundary_miss *)
Definition audit_boundary_miss : Diagnostic := fixed "workflow.audit.boundary_miss" "audit policy or lock fixture missed a typed boundary" DetailsEmpty.
(*| compiler/diagnostics.rs 63-71 Diagnostic::run_failed_with_category *)
Definition run_failed_with_category (category : string) : Diagnostic :=
  fixed "workflow.run.failed" "workflow run failed" (DetailsRunFailed category).
(*| compiler/diagnostics.rs 58-60 Diagnostic::run_failed *)
Definition run_failed : Diagnostic := run_failed_with_category "fail_closed".

(** ** Projection *)

(*| compiler/diagnostics.rs 560-562 stable_integer *)
Definition stable_integer (value : Z) : result DiagnosticProjectionError Z :=
  if (value <? 2 ^ 64)%Z then Ok value else Err IntegerOverflow.

(*| compiler/diagnostics.rs 537-558 project_location *)
Definition project_location (field : string) (span : option (Z * Z)) :
    result DiagnosticProjectionError DiagnosticLocation :=
  match span with
  | None => Ok (mk_DiagnosticLocation field None)
  | Some (a, b) =>
      if (b <? a)%Z then Err ReversedSpan
      else
        start ← stable_integer a;
        stop ← stable_integer b;
        Ok (mk_DiagnosticLocation field (Some (mk_DiagnosticSpan start stop)))
  end.

(** [ids.windows(2).any(|pair| p(pair[0], pair[1]))]. *)
Fixpoint any_window {A : Type} (p : A → A → bool) (l : list A) : bool :=
  match l with
  | x :: ((y :: _) as l) => p x y || any_window p l
  | _ => false
  end.

(** [a >= b] on bytes. *)
Definition str_ge (a b : string) : bool := match String.compare a b with Lt => false | _ => true end.

(*| compiler/diagnostics.rs 282-419 Diagnostic::try_from *)
Definition graph_projection (error : GraphValidationError) :
    result DiagnosticProjectionError (string * string * DiagnosticDetails) :=
  match error with
  | InvalidIdentifier field_path =>
      Ok ("workflow.graph.invalid_identifier", "invalid identifier", DetailsInvalidIdentifier field_path)
  | DuplicateNodeId node_id occurrences =>
      if (occurrences <? 2)%nat then Err DuplicateOccurrences
      else
        n ← stable_integer (Z.of_nat occurrences);
        Ok ("workflow.graph.duplicate_node_id", "duplicate node ID", DetailsDuplicateNodeId node_id n)
  | MissingEntryNode entry_node_id =>
      Ok ("workflow.graph.missing_entry_node", "missing entry node", DetailsMissingEntryNode entry_node_id)
  | DanglingEdge from to missing =>
      Ok ("workflow.graph.dangling_edge", "dangling edge",
          DetailsDanglingEdge from to
            match missing with Origin => "origin" | Destination => "destination" | Both => "both" end)
  | EmptyRouteCases => Ok ("workflow.graph.empty_route_cases", "predicate route has no cases", DetailsEmpty)
  | DuplicateRouteOrigin =>
      Ok ("workflow.graph.duplicate_route_origin", "duplicate predicate route origin", DetailsEmpty)
  | MixedRouteAndEdgeOrigin =>
      Ok ("workflow.graph.mixed_route_and_edge_origin",
          "predicate route origin also has an unconditional edge", DetailsEmpty)
  | DanglingRoute => Ok ("workflow.graph.dangling_route", "dangling predicate route", DetailsEmpty)
  | UnreachableNode node_id =>
      Ok ("workflow.graph.unreachable_node", "unreachable node", DetailsUnreachableNode node_id)
  | NoReachableTerminal => Ok ("workflow.graph.no_reachable_terminal", "no reachable terminal", DetailsEmpty)
  | Cycle node_ids =>
      if is_nil node_ids then Err EmptyCycle
      else if negb (size (list_to_set node_ids : gset string) =? length node_ids)%nat then Err DuplicateCycleMember
      else if any_window str_ge node_ids then Err UnsortedCycle
      else Ok ("workflow.graph.cycle", "cycle", DetailsCycle node_ids)
  | UnboundedCycle node_ids =>
      if is_nil node_ids then Err EmptyCycle
      else if any_window str_eqb node_ids then Err DuplicateCycleMember
      else if any_window str_ge node_ids then Err UnsortedCycle
      else Ok ("workflow.graph.unbounded_cycle", "unbounded cycle", DetailsCycle node_ids)
  | NonIdempotentCycleNode node_id =>
      Ok ("workflow.graph.non_idempotent_cycle_node", "non-idempotent cycle node", DetailsUnreachableNode node_id)
  | CannotReachTerminal node_id =>
      Ok ("workflow.graph.cannot_reach_terminal", "cannot reach terminal", DetailsCannotReachTerminal node_id)
  end.
(*| compiler/diagnostics.rs 280-427 Diagnostic::try_from *)
Definition graph_diagnostic (error : GraphValidationError) : result DiagnosticProjectionError Diagnostic :=
  '(code, message, details) ← graph_projection error; Ok (fixed code message details).

(*| compiler/diagnostics.rs 433-470 Diagnostic::try_from *)
Definition state_diagnostic (error : StateValidationError) : result DiagnosticProjectionError Diagnostic :=
  Ok match error with
  | InvalidStateIdentifier field_path =>
      fixed "workflow.state.invalid_identifier" "invalid state identifier" (DetailsInvalidIdentifier field_path)
  | Graph.UnsupportedSchemaVersion _ =>
      fixed "workflow.state.unsupported_schema" "unsupported state schema version" DetailsEmpty
  | MissingRequiredKey _ =>
      fixed "workflow.state.missing_required_key" "missing required state key" DetailsEmpty
  | InvalidHandleShape _ => fixed "workflow.state.invalid_handle" "invalid state handle shape" DetailsEmpty
  | UndeclaredAgentStateKey _ =>
      fixed "workflow.state.undeclared_agent_key" "agent node references undeclared state" DetailsEmpty
  end.

Definition invalid_binding : Diagnostic := fixed "workflow.node.invalid_binding" "invalid node binding" DetailsEmpty.

Section errors.
Context {D : Type} (decode_location : D → string * option (Z * Z)).

(** Reading the file and its encoding are errors of other entry points. *)
(*| compiler/diagnostics.rs 227-274 Diagnostic::try_from *)
Definition spec_diagnostic (error : SpecError D) : result DiagnosticProjectionError Diagnostic :=
  match error with
  | InvalidNodeBinding => Ok invalid_binding
  | Decode e =>
      let '(field, span) := decode_location e in
      location ← project_location field span;
      Ok (mk_Diagnostic DIAGNOSTIC_VERSION "workflow.source.decode_failed" "failed to decode workflow source"
            (Some location) DetailsEmpty)
  | Spec.UnsupportedSchemaVersion found =>
      location ← project_location "schema_version" None;
      Ok (mk_Diagnostic DIAGNOSTIC_VERSION "workflow.schema.unsupported_version"
            "unsupported workflow schema version" (Some location) (DetailsUnsupportedSchemaVersion found))
  end.

(*| compiler/diagnostics.rs 476-503 Diagnostic::try_from *)
Definition compile_diagnostic (error : CompileError D) : result DiagnosticProjectionError Diagnostic :=
  match error with
  | ParseError error => spec_diagnostic error
  | GraphError error => graph_diagnostic error
  | StateError error => state_diagnostic error
  | BindingError _ => Ok invalid_binding
  | PredicateRegistryRequired =>
      Ok (fixed "workflow.registry.predicate_registry_required" "predicate registry is required" DetailsEmpty)
  | RegistryError _ => Ok (fixed "workflow.registry.entry_not_found" "registry entry not found" DetailsEmpty)
  end.
End errors.

(*| compiler/diagnostics.rs 509-534 Diagnostic::try_from *)
Definition lock_diagnostic {T : Type} (error : WorkflowLockError T) : result DiagnosticProjectionError Diagnostic :=
  match error with
  | UnsupportedSemanticResources n =>
      n ← stable_integer n;
      Ok (fixed "workflow.lock.unsupported_semantic_resources" "workflow lock cannot represent semantic resources"
            (DetailsUnsupportedSemanticResources n))
  | LockSerialization _ =>
      Ok (fixed "workflow.lock.serialization_failed" "failed to serialize workflow lock" DetailsEmpty)
  end.

(** ** Rendering

    The texts are valid UTF-8; a scalar is matched by its bytes. *)

(** U+0000..U+001F and U+007F; U+0080..U+009F and U+061C; U+200E, U+200F,
    U+2028, U+2029, U+202A..U+202E and U+2066..U+2069. *)
(*| compiler/diagnostics.rs 677-687 is_unsafe_human_control *)
Definition unsafe1 (a : ascii) : bool := byte_in 0 31 a || byte_eq 127 a.
(*| compiler/diagnostics.rs 677-687 is_unsafe_human_control *)
Definition unsafe2 (a b : ascii) : bool := byte_eq 194 a && byte_in 128 159 b || byte_eq 216 a && byte_eq 156 b.
(*| compiler/diagnostics.rs 677-687 is_unsafe_human_control *)
Definition unsafe3 (a b c : ascii) : bool :=
  byte_eq 226 a && (byte_eq 128 b && (byte_in 142 143 c || byte_in 168 169 c || byte_in 170 174 c) ||
                    byte_eq 129 b && byte_in 166 169 c).

(** [\u{xxxx}] for a scalar below 0x10000. *)
Definition escaped (scalar : N) : string :=
  "\u{" +:+ encode_hex (String (ascii_of_N (scalar / 256)%N) (String (ascii_of_N (scalar mod 256)%N) "")) +:+ "}".
Definition scalar2 (a b : ascii) : N := ((byte_N a - 192) * 64 + (byte_N b - 128))%N.
Definition scalar3 (a b c : ascii) : N := ((byte_N a - 224) * 4096 + (byte_N b - 128) * 64 + (byte_N c - 128))%N.

(*| compiler/diagnostics.rs 660-675 write_quoted *)
Fixpoint quoted_body (s : string) : string :=
  match s with
  | EmptyString => ""
  | String a rest =>
      if Ascii.eqb a Json.quote then String "\" (String Json.quote (quoted_body rest))
      else if Ascii.eqb a "\" then String "\" (String "\" (quoted_body rest))
      else if byte_eq 10 a then String "\" (String "n" (quoted_body rest))
      else if byte_eq 13 a then String "\" (String "r" (quoted_body rest))
      else if unsafe1 a then escaped (byte_N a) +:+ quoted_body rest
      else match rest with
      | EmptyString => String a ""
      | String b rest' =>
          if unsafe2 a b then escaped (scalar2 a b) +:+ quoted_body rest'
          else match rest' with
          | EmptyString => String a (quoted_body rest)
          | String c rest'' =>
              if unsafe3 a b c then escaped (scalar3 a b c) +:+ quoted_body rest''
              else String a (quoted_body rest)
          end
      end
  end.
(*| compiler/diagnostics.rs 660-675 write_quoted *)
Definition quoted (s : string) : string := String Json.quote (quoted_body s +:+ String Json.quote "").

(*| compiler/diagnostics.rs 589-591 DiagnosticSpan::fmt *)
Definition render_span (s : DiagnosticSpan) : string :=
  "{start=" +:+ pretty (span_start s) +:+ ", end=" +:+ pretty (span_end s) +:+ "}".
(*| compiler/diagnostics.rs 576-585 DiagnosticLocation::fmt *)
Definition render_location (l : DiagnosticLocation) : string :=
  "{field_path=" +:+ quoted (field_path l) +:+ ", span=" +:+
  match span l with Some s => render_span s | None => "null" end +:+ "}".

(*| compiler/diagnostics.rs 595-657 DiagnosticDetails::fmt *)
Definition render_details (d : DiagnosticDetails) : string :=
  match d with
  | DetailsEmpty => "{}"
  | DetailsRunFailed category => "{category=" +:+ quoted category +:+ "}"
  | DetailsInvalidIdentifier field_path => "{field_path=" +:+ quoted field_path +:+ "}"
  | DetailsUnsupportedSchemaVersion found => "{found=" +:+ pretty found +:+ "}"
  | DetailsDuplicateNodeId node_id occurrences =>
      "{node_id=" +:+ quoted node_id +:+ ", occurrences=" +:+ pretty occurrences +:+ "}"
  | DetailsMissingEntryNode entry_node_id => "{entry_node_id=" +:+ quoted entry_node_id +:+ "}"
  | DetailsDanglingEdge from to missing =>
      "{from=" +:+ quoted from +:+ ", to=" +:+ quoted to +:+ ", missing=" +:+ quoted missing +:+ "}"
  | DetailsUnreachableNode node_id | DetailsCannotReachTerminal node_id => "{node_id=" +:+ quoted node_id +:+ "}"
  | DetailsUnsupportedSemanticResources n => "{registry_binding_count=" +:+ pretty n +:+ "}"
  | DetailsCycle node_ids => "{node_ids=[" +:+ String.concat ", " (map quoted node_ids) +:+ "]}"
  end.

(*| compiler/diagnostics.rs 565-572 Diagnostic::fmt *)
Definition render (d : Diagnostic) : string :=
  "[" +:+ code d +:+ "] " +:+ message d +:+ " location=" +:+
  match location d with Some l => render_location l | None => "null" end +:+
  " details=" +:+ render_details (details d).

(*| compiler/diagnostics.rs 690-695 GraphValidationError::fmt *)
Definition render_graph_error (error : GraphValidationError) : string :=
  match graph_diagnostic error with Ok d => render d | Err _ => "invalid workflow graph diagnostic" end.

(** ** Projection never fails on what the compiler reports *)

Lemma any_window_false {A} (R : relation A) (p : A → A → bool) l :
  StronglySorted R l → (∀ x y, R x y → p x y = false) → any_window p l = false.
Proof.
  intros Hs Hp. induction Hs as [|x l Hs IH Hx]; [done|]. destruct l as [|y l]; [done|].
  change (p x y || any_window p (y :: l) = false). rewrite IH. apply Forall_cons in Hx as [Hx _].
  by rewrite Hp.
Qed.

Lemma str_ge_strict a b : String.compare a b = Lt → str_ge a b = false ∧ str_eqb a b = false.
Proof.
  intros E. unfold str_ge. rewrite E. split; [done|]. apply bool_decide_eq_false. intros ->.
  pose proof (String.compare_antisym b b) as Ha. by rewrite E in Ha.
Qed.

Lemma length_filter_le {A} (f : A → bool) l : length (List.filter f l) ≤ length l.
Proof. induction l as [|x l IH]; cbn; [done|]. destruct (f x); cbn; lia. Qed.

Lemma graph_diagnostic_total spec e :
  (zlength (ir_nodes (lower spec)) < 2 ^ 64)%Z →
  validate_graph (lower spec) = Err e → ∃ d, graph_diagnostic e = Ok d.
Proof.
  intros Hlen He. apply validate_graph_defect in He. unfold graph_diagnostic.
  destruct e; try done; try (by eexists); cbn [graph_projection].
  - destruct He as [Hk ->]. rewrite (proj2 (Nat.ltb_ge _ _) Hk). unfold stable_integer.
    pose proof (length_filter_le (str_eqb node_id) (ir_ids (lower spec))) as Hl.
    unfold ir_ids in Hl at 2. rewrite length_map in Hl. unfold zlength in Hlen.
    assert ((Z.of_nat (length (List.filter (str_eqb node_id) (ir_ids (lower spec)))) <? 2 ^ 64)%Z = true) as -> by lia.
    by eexists.
  - destruct He as [(id & Hid & _ & Hc) [Hs _]].
    assert (Hin : id ∈ node_ids) by (apply Hc; split_and!; [done|apply rtc_refl..]).
    destruct node_ids as [|x l]; [by apply elem_of_nil in Hin|]. cbn [is_nil].
    rewrite (any_window_false _ str_eqb _ Hs) by (intros; by apply str_ge_strict).
    rewrite (any_window_false _ str_ge _ Hs) by (intros; by apply str_ge_strict). by eexists.
Qed.

(** ** Nothing rendered controls a terminal *)

(** No unsafe scalar starts at any byte. *)
Definition safe_at (a : ascii) (s : string) : bool :=
  negb (unsafe1 a) &&
  match s with
  | EmptyString => true
  | String b s => negb (unsafe2 a b) && match s with EmptyString => true | String c _ => negb (unsafe3 a b c) end
  end.
Fixpoint printable (s : string) : bool :=
  match s with EmptyString => true | String a s => safe_at a s && printable s end.

Definition plain (a : ascii) : bool := byte_in 32 126 a.

Lemma byte_lt c : (byte_N c < 256)%N.
Proof. apply (N_ascii_bounded c). Qed.

Lemma plain_range a : plain a = true → (32 <= byte_N a <= 126)%N.
Proof. unfold plain, byte_in. rewrite andb_true_iff, !N.leb_le. done. Qed.

Lemma byte_eq_false n a : (126 < n)%N → plain a = true → byte_eq n a = false.
Proof. intros Hn Ha%plain_range. apply N.eqb_neq. lia. Qed.

Lemma plain_safe a s : plain a = true → safe_at a s = true.
Proof.
  intros Ha. unfold safe_at, unsafe1, unsafe2, unsafe3. rewrite !(byte_eq_false _ a) by done.
  unfold byte_in. apply plain_range in Ha. rewrite (proj2 (N.leb_gt (byte_N a) 31)) by lia.
  rewrite andb_false_r. by destruct s as [|b [|c s]].
Qed.

Lemma printable_plain p s : str_all plain p = true → printable (p +:+ s) = printable s.
Proof.
  induction p as [|a p IH]; [done|]. cbn. intros [Ha Hp]%andb_true_iff. by rewrite plain_safe, IH.
Qed.

Lemma str_all_mono (p q : ascii → bool) s : (∀ c, p c = true → q c = true) → str_all p s = true → str_all q s = true.
Proof.
  intros Hpq. unfold str_all. rewrite !forallb_forall. eauto.
Qed.

Lemma hex_plain s : str_all plain (encode_hex s) = true.
Proof.
  apply (str_all_mono is_lower_hex); [|apply encode_hex_lower]. intros c. unfold is_lower_hex, is_ascii_digit, plain, byte_in.
  rewrite !orb_true_iff, !andb_true_iff, !N.leb_le. lia.
Qed.

Lemma str_all_app p a b : str_all p (a +:+ b) = str_all p a && str_all p b.
Proof. unfold str_all. induction a as [|c a IH]; [done|]. cbn. by rewrite IH, andb_assoc. Qed.

Lemma escaped_plain n : str_all plain (escaped n) = true.
Proof. unfold escaped. rewrite !str_all_app, hex_plain. done. Qed.

Lemma pretty_plain (n : Z) : str_all plain (pretty n) = true.
Proof.
  assert (Hd : ∀ k : N, str_all plain (pretty k) = true).
  { intros k. apply (str_all_mono is_ascii_digit); [|apply pretty_digits]. intros c.
    unfold is_ascii_digit, plain, byte_in. rewrite !andb_true_iff, !N.leb_le. lia. }
  destruct n as [|n|n]; [done|apply (Hd (N.pos n))|]. change (pretty (Z.neg n)) with ("-" +:+ pretty (N.pos n)).
  by rewrite str_all_app, Hd.
Qed.

(** What a rendered text starts with: the next byte itself, or an escape. *)
Definition copies (s t : string) : Prop :=
  match t with
  | EmptyString => s = ""
  | String x t => x = "\"%char ∨ ∃ s', s = String x s' ∧ t = quoted_body s'
  end.

Lemma quoted_body_copies s : copies s (quoted_body s).
Proof.
  destruct s as [|a rest]; [done|]. cbn [quoted_body].
  repeat (case_match; [by left|]). destruct rest as [|b rest]; [right; eexists; split; reflexivity|].
  case_match; [by left|]. destruct rest as [|c rest]; [right; eexists; split; reflexivity|].
  case_match; [by left|right; eexists; split; reflexivity].
Qed.

(** A byte that the loop copies starts nothing unsafe in what is rendered. *)
Lemma copied_safe a rest :
  unsafe1 a = false →
  match rest with
  | EmptyString => True
  | String b s => unsafe2 a b = false ∧ match s with EmptyString => True | String c _ => unsafe3 a b c = false end
  end →
  safe_at a (quoted_body rest) = true.
Proof.
  intros H1 H2. unfold safe_at. rewrite H1. cbn [negb andb].
  pose proof (quoted_body_copies rest) as Hc. destruct (quoted_body rest) as [|x t]; [done|].
  destruct Hc as [->|(s' & -> & ->)].
  { assert (H3 : unsafe2 a "\" = false) by (unfold unsafe2; cbn; by rewrite !andb_false_r).
    assert (H4 : ∀ c, unsafe3 a "\" c = false) by (intros c; unfold unsafe3; cbn; by rewrite !andb_false_r).
    rewrite H3. cbn. destruct t; [done|]. by rewrite H4. }
  destruct H2 as [H2 H3]. rewrite H2. cbn [negb andb].
  pose proof (quoted_body_copies s') as Hc. destruct (quoted_body s') as [|y t]; [done|].
  destruct Hc as [->|(s'' & -> & ->)]; [|by rewrite H3].
  unfold unsafe3. cbn. by rewrite !andb_false_r.
Qed.

Lemma quoted_body_printable n s : String.length s ≤ n → printable (quoted_body s) = true.
Proof.
  revert s. induction n as [|n IH]; intros [|a rest] Hn; try done; cbn in Hn; [lia|]. cbn [quoted_body].
  assert (Hrest : printable (quoted_body rest) = true) by (apply IH; lia).
  assert (Htwo : ∀ x y, plain x = true → plain y = true → printable (String x (String y (quoted_body rest))) = true).
  { intros x y Hx Hy. cbn [printable]. by rewrite !plain_safe, Hrest. }
  repeat (case_match; [by apply Htwo|]).
  case_match eqn:E1; [by rewrite printable_plain by apply escaped_plain|].
  destruct rest as [|b rest]; [cbn; unfold safe_at; by rewrite E1|].
  case_match eqn:E2; [rewrite printable_plain by apply escaped_plain; apply IH; cbn in Hn; lia|].
  destruct rest as [|c rest].
  { cbn [printable]. rewrite Hrest, copied_safe; done. }
  case_match eqn:E3; [rewrite printable_plain by apply escaped_plain; apply IH; cbn in Hn; lia|].
  cbn [printable]. rewrite Hrest, copied_safe; done.
Qed.

Definition starts_plain (s : string) : Prop :=
  match s with EmptyString => True | String x _ => plain x = true end.

Lemma unsafe_plain a b c : plain b = true → unsafe2 a b = false ∧ unsafe3 a b c = false.
Proof.
  intros Hb. unfold unsafe2, unsafe3. rewrite !(byte_eq_false _ b) by done. apply plain_range in Hb. unfold byte_in.
  rewrite (proj2 (N.leb_gt 128 (byte_N b))) by lia. by rewrite !andb_false_r.
Qed.
Lemma unsafe3_plain a b c : plain c = true → unsafe3 a b c = false.
Proof.
  intros Hc. unfold unsafe3. apply plain_range in Hc. unfold byte_in.
  rewrite (proj2 (N.leb_gt 142 (byte_N c))), (proj2 (N.leb_gt 168 (byte_N c))), (proj2 (N.leb_gt 170 (byte_N c))),
    (proj2 (N.leb_gt 166 (byte_N c))) by lia.
  cbn. by rewrite !andb_false_r.
Qed.

Lemma safe_at_app a s t : starts_plain t → safe_at a (s +:+ t) = safe_at a s.
Proof.
  unfold safe_at. intros Ht. destruct s as [|b [|c s]]; cbn; [|destruct t as [|x t]; [done|]|done].
  - destruct t as [|x t]; [done|]. cbn in Ht. f_equal. rewrite (proj1 (unsafe_plain a x "000"%char Ht)).
    destruct t as [|y t]; [done|]. by rewrite (proj2 (unsafe_plain a x y Ht)).
  - by rewrite unsafe3_plain.
Qed.

Lemma printable_app s t : starts_plain t → printable (s +:+ t) = printable s && printable t.
Proof.
  intros Ht. induction s as [|a s IH]; [done|]. cbn. by rewrite safe_at_app, IH, andb_assoc.
Qed.

Lemma quoted_printable s t : starts_plain t → printable (quoted s +:+ t) = printable t.
Proof.
  intros Ht. unfold quoted. change (String Json.quote ?x +:+ t) with (String Json.quote (x +:+ t)).
  cbn [printable]. rewrite plain_safe by done. rewrite str_app_assoc, printable_app by done.
  rewrite (quoted_body_printable (String.length s)) by done. cbn. by rewrite plain_safe.
Qed.

Lemma concat_printable ids t :
  starts_plain t → printable (String.concat ", " (map quoted ids) +:+ t) = printable t.
Proof.
  intros Ht. induction ids as [|x ids IH]; [done|]. destruct ids as [|y ids].
  - by apply quoted_printable.
  - change (String.concat ", " (map quoted (x :: y :: ids))) with
      (quoted x +:+ ", " +:+ String.concat ", " (map quoted (y :: ids))).
    rewrite !str_app_assoc, quoted_printable by done. rewrite printable_plain by done. exact IH.
Qed.

Ltac printable_tac :=
  repeat first
    [ done
    | rewrite quoted_printable by done
    | rewrite concat_printable by done
    | rewrite printable_plain by (done || apply pretty_plain) ].

Lemma render_location_printable l t :
  starts_plain t → printable (render_location l +:+ t) = printable t.
Proof.
  intros Ht. unfold render_location. rewrite !str_app_assoc. rewrite printable_plain by done.
  rewrite quoted_printable by done. destruct (span l) as [sp|]; unfold render_span; rewrite ?str_app_assoc; printable_tac.
Qed.

Lemma render_details_printable d : printable (render_details d) = true.
Proof. destruct d; cbn [render_details]; printable_tac. Qed.

(** A diagnostic of the compiler: its code and message are fixed ASCII texts. *)
Lemma render_printable d :
  str_all plain (code d) = true → str_all plain (message d) = true → printable (render d) = true.
Proof.
  intros Hc Hm. unfold render. rewrite printable_plain by done. rewrite printable_plain by done.
  rewrite printable_plain by done. rewrite printable_plain by done. rewrite printable_plain by done.
  destruct (location d) as [l|].
  - rewrite render_location_printable by done. rewrite printable_plain by done. apply render_details_printable.
  - rewrite printable_plain by done. rewrite printable_plain by done. apply render_details_printable.
Qed.

Section diagnostics.
Context {D : Type} (decode_location : D → string * option (Z * Z)).
(** A TOML error is located in the text: a span in order, of machine words. *)
Hypothesis Hlocation : ∀ e field a b, decode_location e = (field, Some (a, b)) → (0 ≤ a ≤ b)%Z ∧ (b < 2 ^ 64)%Z.

Lemma compile_diagnostic_plain (e : CompileError D) d :
  compile_diagnostic decode_location e = Ok d → str_all plain (code d) = true ∧ str_all plain (message d) = true.
Proof.
  destruct e as [e|e|e|e| |e]; cbn [compile_diagnostic]; try (by intros [= <-]).
  - destruct e as [e| |]; cbn [spec_diagnostic]; [|by intros [= <-]..].
    destruct (decode_location e) as [field span]. intros (l & _ & [= <-])%bind_Ok. done.
  - unfold graph_diagnostic. intros ([[c m] dt] & E & [= <-])%bind_Ok. cbn [fixed code message].
    destruct e; cbn [graph_projection] in E; repeat (case_match; [done|]);
      try (by injection E as <- <- _).
    by apply bind_Ok in E as (n & _ & [= <- <- _]).
  - destruct e; by intros [= <-].
Qed.

Lemma spec_diagnostic_total (e : SpecError D) : ∃ d, spec_diagnostic decode_location e = Ok d.
Proof.
  destruct e as [e| |]; cbn [spec_diagnostic]; [|by eexists..].
  destruct (decode_location e) as [field [[a b]|]] eqn:E; [|by eexists].
  specialize (Hlocation e field a b E). cbn [project_location].
  rewrite (proj2 (Z.ltb_ge b a)) by lia. unfold stable_integer.
  rewrite (proj2 (Z.ltb_lt a (2 ^ 64))), (proj2 (Z.ltb_lt b (2 ^ 64))) by lia. by eexists.
Qed.

Context `{Sha256}.

Lemma parsed_nodes decode toml spec raw :
  decode toml = Ok raw → parse_str (D := D) decode toml = Ok spec →
  length (ir_nodes (lower spec)) = length (raw_nodes raw).
Proof.
  unfold parse_str. intros -> E. cbn [map_err mbind result_bind] in E.
  destruct (existsb _ _ || _); [done|]. destruct (negb _); [done|].
  apply bind_Ok in E as (ns & Hns%traverse_Ok & [= <-]). apply Forall2_length in Hns. rewrite Hns.
  unfold lower. cbn [ir_nodes nodes]. unfold sort_by. by rewrite (Permutation_length (merge_sort_Permutation _ _)), length_map.
Qed.

(** Every error of the compiler has a diagnostic that is safe to print.
    Whatever error compiling a document returns - from TOML, the bindings, the
    graph, the state or the admission - is projected to a diagnostic: its cycles
    are sorted and without repetition, its repeated names occur at least twice,
    its integers fit; and the rendered text has no control character anywhere, so
    authored identifiers cannot break the line or reorder what a terminal shows. *)
Theorem compile_diagnostic_printable decode toml e :
  (∀ raw, decode toml = Ok raw → (zlength (raw_nodes raw) < 2 ^ 64)%Z) →
  compile_str decode toml = Err e →
  ∃ d, compile_diagnostic decode_location e = Ok d ∧ printable (render d) = true.
Proof.
  intros Hlen E.
  assert (Hd : ∃ d, compile_diagnostic decode_location e = Ok d).
  { unfold compile_str in E. apply bind_Err in E as [(e' & _ & ->)%map_err_Err|(spec & Hs & E)].
    { apply spec_diagnostic_total. }
    unfold compile_without_predicates in E. apply bind_Err in E as [E|(ir & _ & E)].
    2:{ destruct (negb _); [|done]. injection E as <-. by eexists. }
    unfold validated_ir in E. apply bind_Err in E as [E|(u & _ & E)].
    { unfold validate_approval_nodes in E. apply for_each_Err in E as (n & _ & E). cbn zeta in E.
      destruct (if decide _ then _ else _); [|done]. injection E as <-. by eexists. }
    apply bind_Err in E as [E|(u' & _ & E)].
    { unfold validate_node_bindings in E. apply for_each_Err in E as (n & _ & E).
      repeat (case_match; [injection E as <-; by eexists|]). done. }
    cbv zeta in E. apply bind_Err in E as [(g & Hg & ->)%map_err_Err|(u2 & _ & E)].
    { apply (graph_diagnostic_total spec); [|done]. apply map_err_Ok in Hs. pose proof Hs as Hp.
      unfold parse_str in Hp. apply bind_Ok in Hp as (raw & Hraw & _). apply map_err_Ok in Hraw.
      unfold zlength. rewrite (parsed_nodes decode toml spec raw Hraw); [exact (Hlen raw Hraw)|done]. }
    apply bind_Err in E as [(g & _ & ->)%map_err_Err|(u3 & _ & E)]; [by eexists|].
    apply bind_Err in E as [E|(u4 & _ & E)]; [|done]. unfold validate_admission in E.
    destruct (negb _); [|done]. injection E as <-. by eexists. }
  destruct Hd as [d Hd]. exists d. split; [done|].
  destruct (compile_diagnostic_plain e d Hd) as [Hc Hm]. by apply render_printable.
Qed.
End diagnostics.

(** ** Example *)

Section example.
#[local] Instance ex_diag_hash : Sha256 := λ s, s.

Definition ex_raw : RawWorkflowSpec :=
  mk_RawWorkflowSpec 2 (workflow (ex_spec "1")) [] [] [] None None [].
Definition ex_bad_name : string := "a" +:+ String "010" (string_of_list_ascii (map ascii_of_nat [226; 128; 174])) +:+ "b".

Example ex_quoted : quoted ex_bad_name = String Json.quote ("a\n\u{202e}b" +:+ String Json.quote "").
Proof. reflexivity. Qed.

Lemma compile_diagnostic_printable_witness :
  ∃ d, compile_diagnostic (D := unit) (λ _, ("", None)) (ParseError (Spec.UnsupportedSchemaVersion 2)) = Ok d ∧
    printable (render d) = true.
Proof.
  refine (compile_diagnostic_printable (λ _ : unit, ("", None)) _ (λ _, Ok ex_raw) "" _ _ _).
  - intros e field a b E. discriminate E.
  - intros raw [= <-]. vm_compute. reflexivity.
  - vm_compute. reflexivity.
Defined.
End example.
