(* ===== verification/LoopState.v ===== *)
(** * The state of one node's model loop

    The data of [workflow-adk/src/execution.rs]: the calls a model made, the
    conversation, the counters and the accounts of one node, the projection of
    a call that may be written to disk, and the checks a stored state passes
    before a run resumes from it ([valid_loop_state]), with the invocation
    owner of [execution/isolated.rs] and the completion bindings of
    [execution/tool_audit.rs].  The contents of a conversation are the [adk]
    library's: [AdkContent] names what the code uses of them. *)

From S2P Require Import Prelude.
From S2P Require Import Hashing.
From S2P Require Import Runtime.
From S2P Require Import Json.
From S2P Require Import Approval.
From S2P Require Import EffectLedger.
From S2P Require Import Event.
From S2P Require Import Serde.
From coqutil Require Export Datatypes.RecordSetters.
Export DoubleBraceUpdate.

#[export] Instance EffectAuditReceipt_eq_dec : EqDecision EffectAuditReceipt.
Proof. solve_decision. Defined.

(** ** Content *)

(** [adk_rust]: the payload of a tool response, the parts the loop does not
    look into (and the text they may carry). *)
Class AdkContent `{JsonText} := {
  FunctionResponseData : Type;
  from_tool_result : string → Value → FunctionResponseData;
  response_value : FunctionResponseData → Value;
  OpaquePart : Type;
  opaque_text : OpaquePart → option string
}.

Inductive Part `{AdkContent} :=
| Text (text : string)
| FunctionCall (name : string) (args : Value) (id : option string) (thought_signature : option string)
| FunctionResponse (function_response : FunctionResponseData) (id : option string)
| OtherPart (part : OpaquePart).

Record Content `{AdkContent} := mk_Content { role : string; parts : list Part }.
Arguments mk_Content {_ _} role parts.
Arguments role {_ _} _.
Arguments parts {_ _} _.

(** The derived decoders of the three skill tools' arguments
    ([workflow-runtime/src/tool.rs] 12-45, all with [deny_unknown_fields]) and
    of a terminal model answer, and [Value::as_u64]. *)
Class ToolInputs `{JsonText} := {
  activate_input : Value → option string;
  read_input : Value → option (string * string * Z * Z);
  script_input : Value → option (string * string * Value);
  model_finish : string → option Value;
  number_u64 : json_number → option Z
}.

Section content.
Context `{AdkContent, !ToolInputs}.

Definition get (key : string) (v : Value) : option Value :=
  match v with Object o => object_get key o | _ => None end.
Definition as_str (v : Value) : option string := match v with VString s => Some s | _ => None end.
Definition as_u64 (v : Value) : option Z := match v with Number n => number_u64 n | _ => None end.
Definition is_object (v : Value) : bool := match v with Object _ => true | _ => false end.
Definition is_string (v : Value) : bool := match v with VString _ => true | _ => false end.

Definition part_text (p : Part) : option string :=
  match p with Text t => Some t | OtherPart p => opaque_text p | _ => None end.
Definition is_call (p : Part) : bool := match p with FunctionCall _ _ _ _ => true | _ => false end.

(*| adk/lib.rs 1792-1799 model_text *)
Definition model_text (content : Content) : option string :=
  match omap part_text (parts content) with
  | [] => None
  | first :: rest => Some (foldl String.append first rest)
  end.

(** [str::trim] on ASCII white space; the other Unicode white space is not
    modelled. *)
Definition is_space (c : ascii) : bool :=
  ((byte_N c =? 32) || ((9 <=? byte_N c) && (byte_N c <=? 13)))%N.
Definition blank (text : string) : bool := str_all is_space text.

Definition has_call (content : Content) : bool := existsb is_call (parts content).

(*| adk/execution.rs 1048-1068 admitted_finish *)
Definition admitted_finish (content : Content) : result unit (option Value) :=
  if negb (str_eqb (role content) "assistant") && negb (str_eqb (role content) "model")
  then Err tt
  else
    let text := match model_text content with
                | Some text => if blank text then None else Some text
                | None => None
                end in
    match has_call content, text with
    | true, None => Ok None
    | false, Some text =>
        match model_finish text with
        | Some output => Ok (Some output)
        | None => Err tt
        end
    | _, _ => Err tt
    end.

(** A content that ends a model iteration: it calls tools or finishes. *)
Definition is_iteration (content : Content) : bool :=
  has_call content || match admitted_finish content with Ok (Some _) => true | _ => false end.
End content.

(** ** Calls *)

Section calls.
Context `{AdkContent, !ToolInputs, Sha256} `{!EqDecision json_number}.

(*| adk/execution.rs 154-166 PendingCall *)
Record PendingCall := mk_PendingCall {
  call_id : string;
  call_name : string;
  call_args : Value;
  call_fingerprint : string;
  model_iteration : Z;
  admission_ordinal : Z;
  call_response : option Value;
  call_effect : option EffectAuditReceipt
}.

#[export] Instance PendingCall_eq_dec : EqDecision PendingCall.
Proof. solve_decision. Defined.

(*| adk/execution.rs 170-173 CompletedCall *)
Inductive CompletedCall := Skill (call : PendingCall) | Ordinary (call : PendingCall).

#[export] Instance CompletedCall_eq_dec : EqDecision CompletedCall.
Proof. solve_decision. Defined.

(*| adk/execution.rs 176-180 CompletedCall::call *)
Definition completed_call (c : CompletedCall) : PendingCall :=
  match c with Skill call | Ordinary call => call end.

(*| adk/execution.rs 182-186 CompletedCall::call_mut *)
Definition update_call (f : PendingCall → PendingCall) (c : CompletedCall) : CompletedCall :=
  match c with Skill call => Skill (f call) | Ordinary call => Ordinary (f call) end.

Definition is_skill_tool (name : string) : bool :=
  existsb (str_eqb name) ["activate_skill"; "read_skill_resource"; "run_skill_script"].

Definition invalid_args : Value := Object [("invalid", Bool true)].

(** [json!] builds a sorted map. *)
Context `{!IntJson}.

(*| adk/execution.rs 876-919 durable_pending_args *)
Definition durable_pending_args (call : PendingCall) : option Value :=
  if str_eqb (call_name call) "activate_skill" then
    match activate_input (call_args call) with
    | Some skill_id => Some (Object [("skill_id", VString skill_id)])
    | None => Some invalid_args
    end
  else if str_eqb (call_name call) "read_skill_resource" then
    match read_input (call_args call) with
    | Some (skill_id, resource_id, offset, limit) =>
        Some (Object [("limit", jnum limit); ("offset", jnum offset);
                      ("resource_id", VString resource_id); ("skill_id", VString skill_id)])
    | None => Some invalid_args
    end
  else if str_eqb (call_name call) "run_skill_script" then
    match script_input (call_args call) with
    | Some (skill_id, script_id, _) =>
        Some (Object [("argument_fingerprint", VString (call_fingerprint call));
                      ("script_id", VString script_id); ("skill_id", VString skill_id)])
    | None =>
        match call_args call with
        | Object args =>
            if (zlength args =? 3)%Z
               && match object_get "skill_id" args with Some v => is_string v | None => false end
               && match object_get "script_id" args with Some v => is_string v | None => false end
               && bool_decide (object_get "argument_fingerprint" args =
                               Some (VString (call_fingerprint call)))
            then Some (call_args call) else Some invalid_args
        | _ => Some invalid_args
        end
    end
  else if negb (str_is_empty (call_name call)) then
    Some (Object [("argument_fingerprint", VString (call_fingerprint call))])
  else None.

(*| adk/execution.rs 921-929 is_redacted_ordinary_pending *)
Definition is_redacted_ordinary_pending (call : PendingCall) : bool :=
  negb (is_skill_tool (call_name call)) &&
  match call_args call with
  | Object args =>
      (zlength args =? 1)%Z &&
      bool_decide (object_get "argument_fingerprint" args =
                   Some (VString (call_fingerprint call)))
  | _ => false
  end.

(*| adk/execution.rs 931-938 is_redacted_script_pending *)
Definition is_redacted_script_pending (call : PendingCall) : bool :=
  str_eqb (call_name call) "run_skill_script" &&
  bool_decide (get "argument_fingerprint" (call_args call) ≫= as_str =
               Some (call_fingerprint call)).

Definition durable_args_kept (call : PendingCall) : bool :=
  bool_decide (durable_pending_args call = Some (call_args call)).
Definition fingerprint_of_args (call : PendingCall) : bool :=
  str_eqb (argument_fingerprint (call_args call)) (call_fingerprint call).

(*| adk/execution.rs 940-944 valid_completed_skill_call *)
Definition valid_completed_skill_call (call : PendingCall) : bool :=
  durable_args_kept call && (is_redacted_script_pending call || fingerprint_of_args call).

(*| adk/execution.rs 946-948 valid_completed_ordinary_call *)
Definition valid_completed_ordinary_call (call : PendingCall) : bool :=
  durable_args_kept call && is_redacted_ordinary_pending call.

(*| adk/execution.rs 1004-1015 tool_response_content *)
Definition tool_response_content (call : PendingCall) (response : Value) : Content :=
  mk_Content "function"
    [FunctionResponse (from_tool_result (call_name call) response) (Some (call_id call))].

(*| adk/execution.rs 1017-1027 tool_call_content *)
Definition tool_call_content (call : PendingCall) : Content :=
  mk_Content "model" [FunctionCall (call_name call) (call_args call) (Some (call_id call)) None].

(*| adk/execution.rs 1029-1033 skill_page_byte_len *)
Definition skill_page_byte_len (response : Value) : option Z :=
  (get "payload" response ≫= get "page_byte_len") ≫= as_u64.

(** ** Effect provenance of a completion *)

(** [EffectAudits]: the advisory receipt of each invocation, by tool name, tool
    version and argument fingerprint. *)
Definition EffectAudits : Type := gmap (string * string * string) (option EffectAuditReceipt).

(*| adk/execution/effect_audit.rs 81-118 EffectAudits::completed *)
Definition completed (audits : EffectAudits) (call : PendingCall) (response : Value) :
    CompletedCall :=
  let version := (get "provenance" response ≫= get "tool_version") ≫= as_str in
  let effect := v ← version; mjoin (audits !! (call_name call, v, call_fingerprint call)) in
  let call := mk_PendingCall (call_id call) (call_name call) (call_args call)
                (call_fingerprint call) (model_iteration call) (admission_ordinal call)
                (Some response) effect in
  if is_skill_tool (call_name call) then Skill call else Ordinary call.

(** ** The state *)

(*| adk/execution/isolated.rs 7-11 Invocation *)
Record Invocation := mk_Invocation {
  step : Z; conversation_start : nat; model_iteration_start : Z }.

(*| adk/shared_session.rs 21-27 Turn *)
Record Turn := mk_Turn {
  turn_node : string; turn_step : Z; turn_ordinal : Z; turn_input : Content; turn_output : Value }.

(*| adk/execution/shared.rs 11-16 Prepared *)
Record Prepared := mk_Prepared {
  prepared_step : Z; prepared_ordinal : Z; prepared_input : Content; history_digest : string }.

(*| adk/execution.rs 111-150 LoopState *)
Record LoopState := mk_LoopState {
  invocation : option Invocation;
  shared_turns : list Turn;
  shared_pending : option Prepared;
  model_iterations : Z;
  total_tool_calls : Z;
  tool_output_bytes : Z;
  tool_calls : gmap string Z;
  seen_ids : gset string;
  seen_calls : gset (string * string);
  conversation : list Content;
  conversation_reconstructed : bool;
  previous_response_id : option string;
  pending_calls : list PendingCall;
  completed_calls : list CompletedCall;
  completion_event_ids : gmap string string;
  completion_event_outputs : gmap string Value;
  finish_admitted : bool;
  finished_output : option Value;
  finish_successor : option Value;
  activated_skills : gset string;
  skill_resource_read_bytes : gmap string Z;
  skill_resource_read_reservations : gmap string Z
}.

Definition LoopState_default : LoopState :=
  mk_LoopState None [] None 0 0 0 ∅ ∅ ∅ [] false None [] [] ∅ ∅ false None None ∅ ∅ ∅.

(*| adk/execution/isolated.rs 184-189 current_call *)
Definition current_call (state : LoopState) (call : PendingCall) : bool :=
  match invocation state with
  | None => true
  | Some owner => (model_iteration_start owner <? model_iteration call)%Z
  end.

(** ** The checks of a stored state *)

Definition SKILL_RESOURCE_READ_LIMIT : Z := 64 * 1024.

(*| adk/execution/isolated.rs 13-39 valid_invocation *)
Definition valid_invocation (state : LoopState) : bool :=
  match invocation state with
  | None => true
  | Some owner =>
      (model_iteration_start owner <=? model_iterations state)%Z
      && (negb (finish_admitted state) || (model_iteration_start owner <? model_iterations state)%Z)
      && forallb (current_call state) (pending_calls state)
      && (is_nil (conversation state)
          || ((conversation_start owner <=? length (conversation state))%nat
              && (zlength (List.filter is_iteration
                             (firstn (conversation_start owner) (conversation state)))
                  =? model_iteration_start owner)%Z))
  end.

(** [u8::is_ascii_hexdigit]. *)
Definition is_hexdigit (c : ascii) : bool :=
  (is_ascii_digit c || ((97 <=? byte_N c) && (byte_N c <=? 102))
                    || ((65 <=? byte_N c) && (byte_N c <=? 70)))%N.
Definition valid_token (token : string) : bool :=
  (str_len token =? 36)%Z &&
  str_all (λ c, is_hexdigit c || Ascii.eqb c "-") token.

(*| adk/execution/tool_audit.rs 80-105 valid_bindings *)
Definition valid_bindings (state : LoopState) : bool :=
  bool_decide (dom (completion_event_ids state) = dom (completion_event_outputs state)) &&
  bool_decide (map_Forall (λ call_id' token,
    existsb (λ c, str_eqb (call_id (completed_call c)) call_id' &&
                  bool_decide ((completion_event_outputs state !! call_id' ≫= get "tool_name")
                                 ≫= as_str = Some (call_name (completed_call c))))
      (completed_calls state) = true ∧ valid_token token = true) (completion_event_ids state)) &&
  bool_decide (NoDup (btree_values (completion_event_ids state))).

(** One reservation of [valid_skill_resource_read_accounting]. *)
Definition account (state : LoopState) (pending_bytes : option (gmap string Z))
    (reservation : string * Z) : option (gmap string Z) :=
  m ← pending_bytes;
  call ← List.find (λ call, str_eqb (call_name call) "read_skill_resource"
                            && str_eqb (call_fingerprint call) (fst reservation))
           (pending_calls state);
  '(skill_id, _, _, _) ← read_input (call_args call);
  total ← checked_add (default 0 (m !! skill_id))%Z (snd reservation);
  Some (<[skill_id := total]> m).

(*| adk/execution.rs 950-987 valid_skill_resource_read_accounting *)
Definition valid_skill_resource_read_accounting (state : LoopState) : bool :=
  if bool_decide (map_Forall (λ skill bytes,
       skill ≠ "" ∧ (bytes ≤ SKILL_RESOURCE_READ_LIMIT)%Z) (skill_resource_read_bytes state))
  then match foldl (account state) (Some ∅)
               (sort_by_key fst (map_to_list (skill_resource_read_reservations state))) with
       | None => false
       | Some pending_bytes =>
           bool_decide (map_Forall (λ skill bytes, 
             (0 < bytes)%Z ∧ (bytes ≤ default 0 (skill_resource_read_bytes state !! skill))%Z)
             pending_bytes)
       end
  else false.

(*| adk/execution.rs 1070-1089 valid_terminal_state *)
Definition valid_terminal_state (state : LoopState) : bool :=
  match finished_output state, finish_successor state, finish_admitted state with
  | None, None, false => true
  | Some output, Some successor, true =>
      bool_decide (output = successor) && is_nil (pending_calls state) &&
      match last (conversation state) with
      | None => false
      | Some content =>
          match admitted_finish content with
          | Ok (Some finish) => bool_decide (finish = output)
          | _ => false
          end
      end
  | _, _, _ => false
  end.

(** What replaying the conversation finds. *)
Record replay := mk_replay {
  calls : list PendingCall;
  r_seen_ids : gset string;
  r_seen_calls : gset (string * string);
  r_tool_calls : gmap string Z;
  completed_ids : gset string;
  r_tool_output_bytes : Z;
  r_model_iterations : Z
}.

Definition no_replay : replay := mk_replay [] ∅ ∅ ∅ ∅ 0 0.

(*| adk/execution.rs 1177-1238 valid_loop_state *)
Definition replay_part (r : replay) (part : Part) : option replay :=
  match part with
  | FunctionCall name args (Some id) _ =>
      if str_is_empty id || negb (is_object args) then None
      else
        let fingerprint := argument_fingerprint args in
        if bool_decide (id ∈ r_seen_ids r) || bool_decide ((name, fingerprint) ∈ r_seen_calls r)
        then None
        else
          let seen_ids := {[id]} ∪ r_seen_ids r in
          count ← checked_add (default 0 (r_tool_calls r !! name))%Z 1;
          Some (mk_replay
            (calls r ++ [mk_PendingCall id name args fingerprint (r_model_iterations r)
                           (Z.of_nat (size seen_ids)) None None])
            seen_ids ({[(name, fingerprint)]} ∪ r_seen_calls r)
            (<[name := count]> (r_tool_calls r)) (completed_ids r) (r_tool_output_bytes r)
            (r_model_iterations r))
  | FunctionCall _ _ None _ => None
  | FunctionResponse function_response (Some id) =>
      if str_is_empty id then None
      else if negb (bool_decide (id ∈ r_seen_ids r)) || bool_decide (id ∈ completed_ids r) then None
      else
        total ← checked_add (r_tool_output_bytes r)
                  (str_len (compact (response_value function_response)));
        Some (mk_replay (calls r) (r_seen_ids r) (r_seen_calls r) (r_tool_calls r)
                ({[id]} ∪ completed_ids r) total (r_model_iterations r))
  | FunctionResponse _ None => None
  | _ => Some r
  end.

(*| adk/execution.rs 1165-1176 valid_loop_state *)
Definition replay_content (r : replay) (content : Content) : option replay :=
  r ← (if is_iteration content then
         next ← checked_add (r_model_iterations r) 1;
         Some (mk_replay (calls r) (r_seen_ids r) (r_seen_calls r) (r_tool_calls r)
                 (completed_ids r) (r_tool_output_bytes r) next)
       else Some r);
  foldl (λ r part, r ≫= λ r, replay_part r part) (Some r) (parts content).

Definition replay_all (r : option replay) (conversation : list Content) : option replay :=
  foldl (λ r content, r ≫= λ r, replay_content r content) r conversation.

(** The comparison of a pending call with the replayed one: everything but
    [response] and [effect]. *)
Definition same_pending (actual expected : PendingCall) : bool :=
  str_eqb (call_id actual) (call_id expected) &&
  str_eqb (call_name actual) (call_name expected) &&
  bool_decide (call_args actual = call_args expected) &&
  str_eqb (call_fingerprint actual) (call_fingerprint expected) &&
  (model_iteration actual =? model_iteration expected)%Z &&
  (admission_ordinal actual =? admission_ordinal expected)%Z.

Fixpoint all2 {A B : Type} (p : A → B → bool) (l : list A) (k : list B) : bool :=
  match l, k with
  | [], [] => true
  | x :: l, y :: k => p x y && all2 p l k
  | _, _ => false
  end.

Definition not_completed (r : replay) (call : PendingCall) : bool :=
  negb (bool_decide (call_id call ∈ completed_ids r)).

(*| adk/execution.rs 1240-1277 valid_loop_state *)
Definition matches_replay (state : LoopState) (r : replay) : bool :=
  (model_iterations state =? r_model_iterations r)%Z &&
  (total_tool_calls state =? Z.of_nat (size (r_seen_ids r)))%Z &&
  bool_decide (tool_calls state = r_tool_calls r) &&
  bool_decide (seen_ids state = r_seen_ids r) &&
  bool_decide (seen_calls state = r_seen_calls r) &&
  all2 same_pending (pending_calls state) (List.filter (not_completed r) (calls r)) &&
  (tool_output_bytes state =? r_tool_output_bytes r)%Z &&
  bool_decide (map_Forall (λ skill bytes, skill ≠ "" ∧ (bytes ≤ SKILL_RESOURCE_READ_LIMIT)%Z)
                 (skill_resource_read_bytes state)).

(** [try_fold(0, checked_add)]. *)
Definition checked_sum (l : list Z) : option Z :=
  foldl (λ total n, total ≫= λ total, checked_add total n) (Some 0%Z) l.

(*| adk/execution.rs 1098-1156 valid_loop_state *)
Definition valid_redacted_state (state : LoopState) : bool :=
  match checked_sum (btree_values (tool_calls state)) with
  | None => false
  | Some tool_call_total =>
      let disposed := pending_calls state ++ map completed_call (completed_calls state) in
      let disposed_ids : gset string := list_to_set (map call_id disposed) in
      let disposed_calls : gset (string * string) :=
        list_to_set (map (λ call, (call_name call, call_fingerprint call)) disposed) in
      let admission_ordinals : gset Z := list_to_set (map admission_ordinal disposed) in
      negb (is_some (finished_output state)) &&
      Bool.eqb (finish_admitted state) (is_some (finish_successor state)) &&
      (negb (finish_admitted state) ||
       ((0 <? model_iterations state)%Z && is_nil (pending_calls state))) &&
      forallb (λ call, durable_args_kept call &&
                       (is_redacted_ordinary_pending call || fingerprint_of_args call))
        (pending_calls state) &&
      forallb (λ c, match c with
                    | Skill call => valid_completed_skill_call call
                    | Ordinary call => valid_completed_ordinary_call call
                    end) (completed_calls state) &&
      (total_tool_calls state =? tool_call_total)%Z &&
      (size admission_ordinals =? length disposed)%nat &&
      bool_decide (admission_ordinals = list_to_set (seqZ 1 (zlength disposed))) &&
      forallb (λ call, (0 <? model_iteration call)%Z &&
                       (model_iteration call <=? model_iterations state)%Z) disposed &&
      (length disposed =? size disposed_ids)%nat &&
      bool_decide (disposed_ids = seen_ids state) &&
      bool_decide (disposed_calls = seen_calls state) &&
      (total_tool_calls state =? Z.of_nat (size (seen_ids state)))%Z &&
      (total_tool_calls state =? Z.of_nat (size (seen_calls state)))%Z &&
      bool_decide (map_Forall (λ name count, name ≠ "" ∧ (0 < count)%Z) (tool_calls state)) &&
      bool_decide (set_Forall (λ id, id ≠ "") (seen_ids state)) &&
      bool_decide (set_Forall (λ call, fst call ≠ "" ∧ snd call ≠ "") (seen_calls state))
  end.

(*| adk/execution.rs 1091-1278 valid_loop_state *)
Definition valid_loop_state (state : LoopState) : bool :=
  if negb (valid_invocation state) || negb (valid_bindings state)
     || negb (valid_skill_resource_read_accounting state)
  then false
  else if is_nil (conversation state) then valid_redacted_state state
  else if negb (valid_terminal_state state) then false
  else match replay_all (Some no_replay) (conversation state) with
       | None => false
       | Some r => matches_replay state r
       end.
End calls.

(** ** Codes of the stored types

    Every stored type is countable when the types of the libraries are, so that
    the laws of its codec are satisfiable ([countable_serde]). *)

Section codes.
Context `{AdkContent} `{Countable json_number} `{Countable FunctionResponseData}.
Context `{Countable OpaquePart}.

#[export] Instance EffectState_countable : Countable EffectState.
Proof.
  refine (inj_countable'
    (λ s, match s with
          | Proposed => 0 | Approved => 1 | Started => 2 | Committed => 3 | Verified => 4
          | Failed => 5 | Indeterminate => 6 end)
    (λ n, match n with
          | 0 => Proposed | 1 => Approved | 2 => Started | 3 => Committed | 4 => Verified
          | 5 => Failed | _ => Indeterminate end) _).
  by intros [].
Defined.

#[export] Instance EffectAuditReceipt_countable : Countable EffectAuditReceipt.
Proof.
  refine (inj_countable'
    (λ r, ((audit_schema_version r, audit_effect_key r, audit_approval_digest r,
            audit_target_digest r),
           (audit_policy_digest r, audit_workflow_lock r, audit_executor_digest r, audit_history r)))
    (λ '((a, b, c, d), (e, f, g, h)), mk_EffectAuditReceipt a b c d e f g h) _).
  by intros [].
Defined.

#[export] Instance PendingCall_countable : Countable PendingCall.
Proof.
  refine (inj_countable'
    (λ c, ((call_id c, call_name c, call_args c, call_fingerprint c),
           (model_iteration c, admission_ordinal c, call_response c, call_effect c)))
    (λ '((a, b, c, d), (e, f, g, h)), mk_PendingCall a b c d e f g h) _).
  by intros [].
Defined.

#[export] Instance CompletedCall_countable : Countable CompletedCall.
Proof.
  refine (inj_countable'
    (λ c, match c with Skill p => inl p | Ordinary p => inr p end)
    (λ c, match c with inl p => Skill p | inr p => Ordinary p end) _).
  by intros [].
Defined.

#[export] Instance Part_eq_dec : EqDecision Part.
Proof. solve_decision. Defined.
#[export] Instance Part_countable : Countable Part.
Proof.
  refine (inj_countable'
    (λ p, match p with
          | Text t => inl (inl t)
          | FunctionCall n a i s => inl (inr (n, a, (i, s)))
          | FunctionResponse r i => inr (inl (r, i))
          | OtherPart p => inr (inr p)
          end)
    (λ p, match p with
          | inl (inl t) => Text t
          | inl (inr (n, a, (i, s))) => FunctionCall n a i s
          | inr (inl (r, i)) => FunctionResponse r i
          | inr (inr p) => OtherPart p
          end) _).
  by intros [].
Defined.

#[export] Instance Content_eq_dec : EqDecision Content.
Proof. solve_decision. Defined.
#[export] Instance Content_countable : Countable Content.
Proof.
  refine (inj_countable' (λ c, (role c, parts c)) (λ '(a, b), mk_Content a b) _). by intros [].
Defined.

#[export] Instance Invocation_eq_dec : EqDecision Invocation.
Proof. solve_decision. Defined.
#[export] Instance Invocation_countable : Countable Invocation.
Proof.
  refine (inj_countable' (λ i, (step i, conversation_start i, model_iteration_start i))
    (λ '(a, b, c), mk_Invocation a b c) _). by intros [].
Defined.

#[export] Instance Turn_eq_dec : EqDecision Turn.
Proof. solve_decision. Defined.
#[export] Instance Turn_countable : Countable Turn.
Proof.
  refine (inj_countable'
    (λ t, (turn_node t, turn_step t, turn_ordinal t, (turn_input t, turn_output t)))
    (λ '(a, b, c, (d, e)), mk_Turn a b c d e) _). by intros [].
Defined.

#[export] Instance Prepared_eq_dec : EqDecision Prepared.
Proof. solve_decision. Defined.
#[export] Instance Prepared_countable : Countable Prepared.
Proof.
  refine (inj_countable'
    (λ p, ((prepared_step p, prepared_ordinal p), (prepared_input p, history_digest p)))
    (λ '((a, b), (c, d)), mk_Prepared a b c d) _). by intros [].
Defined.

#[export] Instance LoopState_eq_dec : EqDecision LoopState.
Proof. solve_decision. Defined.
#[export] Instance LoopState_countable : Countable LoopState.
Proof.
  refine (inj_countable'
    (λ s, ((((invocation s, shared_turns s), (shared_pending s, model_iterations s)),
            ((total_tool_calls s, tool_output_bytes s), (tool_calls s, seen_ids s))),
           (((seen_calls s, conversation s), (conversation_reconstructed s, previous_response_id s)),
            ((pending_calls s, completed_calls s),
             (completion_event_ids s, completion_event_outputs s))),
           (((finish_admitted s, finished_output s), (finish_successor s, activated_skills s)),
            (skill_resource_read_bytes s, skill_resource_read_reservations s))))
    (λ '((((f1, f2), (f3, f4)), ((f5, f6), (f7, f8))),
         (((f9, f10), (f11, f12)), ((f13, f14), (f15, f16))),
         (((f17, f18), (f19, f20)), (f21, f22))),
       mk_LoopState f1 f2 f3 f4 f5 f6 f7 f8 f9 f10 f11 f12 f13 f14 f15 f16 f17 f18 f19 f20 f21 f22)
    _).
  by intros [].
Defined.
End codes.

(** ** Concrete libraries, for the examples *)

Definition ex_int : @IntJson ex_json_Z := λ z : Z, z.
#[export] Instance ex_number_eq_dec : EqDecision (@json_number ex_json_Z) := Z.eq_dec.
#[export] Instance ex_number_countable : Countable (@json_number ex_json_Z) := Z_countable.

Definition ex_content : @AdkContent ex_json_Z := {|
  FunctionResponseData := @Value ex_json_Z;
  from_tool_result _ v := v;
  response_value v := v;
  OpaquePart := unit;
  opaque_text _ := None
|}.
#[export] Instance ex_response_eq_dec : EqDecision (@FunctionResponseData _ ex_content) :=
  @Value_eq_dec ex_json_Z _.
#[export] Instance ex_response_countable : Countable (@FunctionResponseData _ ex_content) :=
  @Value_countable ex_json_Z _ _ _.
#[export] Instance ex_opaque_eq_dec : EqDecision (@OpaquePart _ ex_content) := unit_eq_dec.
#[export] Instance ex_opaque_countable : Countable (@OpaquePart _ ex_content) := unit_countable.

Definition ex_inputs : @ToolInputs ex_json_Z := {|
  activate_input v :=
    match v with
    | Object [(k, VString s)] => if str_eqb k "skill_id" then Some s else None
    | _ => None
    end;
  read_input (v : @Value ex_json_Z) :=
    match v with
    | Object [(k1, Number l); (k2, Number o); (k3, VString r); (k4, VString s)] =>
        if str_eqb k1 "limit" && str_eqb k2 "offset" && str_eqb k3 "resource_id"
           && str_eqb k4 "skill_id" then Some (s, r, (o : Z), (l : Z)) else None
    | _ => None
    end;
  script_input v :=
    match v with
    | Object [(k1, i); (k2, VString p); (k3, VString s)] =>
        if str_eqb k1 "input" && str_eqb k2 "script_id" && str_eqb k3 "skill_id"
        then Some (s, p, i) else None
    | _ => None
    end;
  model_finish text := if str_is_empty text then None else Some (VString text);
  number_u64 (n : Z) := if bool_decide (0 ≤ n ≤ u64_max)%Z then Some n else None
|}.
