(* ===== verification/LoopLedger.v ===== *)
(** * The loop ledger of a run

    [LoopLedgerStore] of [workflow-adk/src/execution.rs]: the loop state of
    every node in memory, its projection on disk next to the run's checkpoint,
    and the two-file commit that keeps them recoverable; with the completion
    bindings of [execution/tool_audit.rs] and the projection of tool results of
    [events.rs].  A file system or SQLite call's outcome is a field of
    [PersistEnv]; a crash leaves the disk as a failing call at the same point
    does. *)

From S2P Require Import Prelude.
From S2P Require Import Hashing.
From S2P Require Import Runtime.
From S2P Require Import Json.
From S2P Require Import Approval.
From S2P Require Import EffectLedger.
From S2P Require Import Event.
From S2P Require Import Serde.
From S2P Require Import Checkpoint.
From S2P Require Import LoopState.

Definition MAX_STATE_BYTES : Z := 1024 * 1024.
Definition LOOP_LEDGER_DIGEST_KEY : string := "kit_loop_ledger_digest_v1".

(*| adk/execution.rs 4484-4517 ExecutionErrorKind *)
Inductive ExecutionErrorKind :=
| InvalidProfile | MissingBinding | AmbiguousBinding | MismatchedBinding | ImplementationBinding
| SandboxDenied | Compile | Workdir | Model | Credential | Unreachable | Timeout | Tool
| MalformedTool | UnknownTool | NonProgress | InvalidOutput | VisitBound | Adk
| AuthorizationDenied | ModelIterationsLimit | TotalToolCallsLimit | ToolCallsPerToolLimit
| ToolOutputBytesLimit | WallTimeLimit | IdleTimeLimit | ToolTimeLimit | Cancelled | Persistence
| RunNotFound | IncompatibleManifest | InvalidRunState.

#[export] Instance ExecutionErrorKind_eq_dec : EqDecision ExecutionErrorKind.
Proof. solve_decision. Defined.

(** ** The public projection of a tool result *)

Section project.
Context `{AdkContent, !ToolInputs, Sha256, !IntJson}.

(** [serde_json::Map]: a sorted map; [remove] and [insert]. *)
Definition object_remove (key : string) (o : list (string * Value)) : list (string * Value) :=
  List.filter (λ e, negb (str_eqb (fst e) key)) o.
Definition object_insert (key : string) (v : Value) (o : list (string * Value)) :
    list (string * Value) :=
  sort_by_key fst ((key, v) :: object_remove key o).

(** The entries of [o] under [fields]. *)
Definition select_fields (fields : list string) (o : list (string * Value)) :
    list (string * Value) :=
  sort_by_key fst (omap (λ field, (λ v, (field, v)) <$> object_get field o) fields).

(*| adk/events.rs 690-697 trusted_skill_tool_name *)
Definition trusted_skill_tool_name (result : Value) : option string :=
  tool_name ← get "tool_name" result ≫= as_str;
  response ← get "response" result;
  provenance ← get "provenance" response;
  if is_skill_tool tool_name then
    tool_id ← get "tool_id" provenance ≫= as_str;
    if str_eqb tool_id "skill.runtime" then
      tool_version ← get "tool_version" provenance ≫= as_str;
      if str_eqb tool_version "1" then Some tool_name else None
    else None
  else None.

Definition safe_fields (tool_name : string) : list string :=
  if str_eqb tool_name "activate_skill" then ["skill_id"; "version"; "instructions_ref"]
  else if str_eqb tool_name "read_skill_resource" then
    ["resource_id"; "result_ref"; "byte_len"; "page_byte_len"; "next_offset"]
  else [].

(** The items of an array under [name], each reduced to [fields]. *)
Definition safe_items (name : string) (fields : list string) (response safe : list (string * Value)) :
    list (string * Value) :=
  match object_get name response with
  | Some (Array items) =>
      object_insert name (Array (omap (λ item,
        match item with Object o => Some (Object (select_fields fields o)) | _ => None end) items))
        safe
  | _ => safe
  end.

(*| adk/events.rs 615-664 redact_skill_tool_results *)
Definition safe_response (tool_name : string) (response : Value) : list (string * Value) :=
  match default response (get "payload" response) with
  | Object response =>
      let safe := select_fields (safe_fields tool_name) response in
      if str_eqb tool_name "activate_skill" then
        safe_items "scripts" ["id"; "sha256"; "runtime"; "capabilities"] response
          (safe_items "resources" ["id"; "sha256"] response
             (object_insert "activated" (Bool true) safe))
      else safe
  | _ => []
  end.

(*| adk/events.rs 578-688 redact_skill_tool_results *)
Definition redact_skill_tool_result (result : Value) : option Value :=
  match trusted_skill_tool_name result, result with
  | None, _ => Some result
  | Some tool_name, Object o =>
      response ← object_get "response" o;
      let o := object_remove "response" o in
      let safe := safe_response tool_name response in
      let o := match safe with
               | [] => o
               | _ => object_insert "response"
                        (if is_some (get "payload" response) then Object [("payload", Object safe)]
                         else Object safe) o
               end in
      Some (Object (object_insert "response_bytes" (jnum (str_len (compact response)))
        (object_insert "response_digest" (VString (redacted_json_digest response)) o)))
  | Some _, _ => None
  end.

(*| adk/events/tool_audit.rs 21-23 project_tool_results *)
Definition project_tool_results (output : Value) : option Value :=
  match redact_json_value output with
  | Array results => Array <$> mapM redact_skill_tool_result results
  | output => Some output
  end.
End project.

(** ** The store *)

Section ledger.
Context `{AdkContent, !ToolInputs, Sha256} `{!EqDecision json_number} `{!IntJson}.
Context `{!Serde Value, !Serde CheckpointManifestV1, !Serde (list string)}.

Abbreviation Nodes := (gmap string LoopState).
Abbreviation AdkState := (gmap string Value).

(*| adk/execution.rs 191-197 LoopLedgerV1 *)
Record LoopLedgerV1 := mk_Ledger {
  ledger_schema_version : Z;
  ledger_identity : string;
  nodes : Nodes;
  checkpoint_nodes : option Nodes
}.

Context `{!Serde LoopLedgerV1, !Serde (Z * Nodes), !Serde AdkState}.

(*| adk/execution.rs 199-212 LoopLedgerStore *)
Record LoopLedgerStore := mk_LoopLedgerStore {
  checkpoint_identity : string;
  checkpoint_manifest : CheckpointManifestV1;
  run_id : RunId;
  persist_raw_loop_state : bool;
  effect_audits : EffectAudits;
  live_nodes : Nodes;
  durable_nodes : Nodes;
  tool_audit_ids : gmap (string * string) (string * string);
  replaying_skill_resource_reads : gset (string * string)
}.

(** The run directory: the ledger file and what the checkpoint store keeps. *)
Record Disk := mk_Disk { ledger_file : option string; storage : Storage }.

(** How a [write_atomic] ends: with an error, the file may already have been
    replaced (the directory's [sync_all] failed). *)
Inductive write :=
| Written
| NotWritten (renamed : bool).

(** The outcomes of one persist, and the identifiers [Event::new] draws. *)
Record PersistEnv := mk_PersistEnv {
  artifacts_synced : bool;
  fresh_id : nat → string;
  open_ledger : OpenEnv;
  load_ledger : option CheckpointErrorKind;
  ledger_readable : bool;
  ledger_write : write;
  open_checkpoint : OpenEnv;
  load_checkpoint : option CheckpointErrorKind;
  checkpoint_tx : tx
}.

(*| adk/execution.rs 7012-7022 bounded_read *)
Definition bounded_read (readable : bool) (file : option string) :
    result ExecutionErrorKind string :=
  match file with
  | Some bytes =>
      if (MAX_STATE_BYTES <? str_len bytes)%Z || negb readable then Err InvalidRunState
      else Ok bytes
  | None => Err InvalidRunState
  end.

(*| adk/execution.rs 7085-7092 write_json *)
Definition write_json (w : write) (l : LoopLedgerV1) : method Disk ExecutionErrorKind unit := λ d,
  let bytes := to_text l in
  if (MAX_STATE_BYTES <? str_len bytes)%Z then (d, Err Persistence)
  else match w with
  | Written => (mk_Disk (Some bytes) (storage d), Ok tt)
  | NotWritten renamed => (if renamed then mk_Disk (Some bytes) (storage d) else d, Err Persistence)
  end.

(** A checkpoint-store call: [map_err(|_| Persistence)?]. *)
Definition on_storage {A : Type} (m : method Storage CheckpointErrorKind A) :
    method Disk ExecutionErrorKind A := λ d,
  match m (storage d) with
  | (s, r) => (mk_Disk (ledger_file d) s, map_err (λ _, Persistence) r)
  end.

Definition load (fault : option CheckpointErrorKind) (rid : RunId) :
    method Disk ExecutionErrorKind (option DurableCheckpointV1) :=
  on_storage (λ s, (s, load_latest fault rid s)).

(*| adk/execution.rs 989-993 loop_ledger_digest *)
Definition loop_ledger_digest (nodes : Nodes) : string :=
  "sha256:" +:+ encode_hex (sha256 (to_text (4%Z, nodes))).

(*| adk/execution.rs 995-1002 checkpoint_ledger_digest *)
Definition checkpoint_ledger_digest (state : string) : result ExecutionErrorKind string :=
  match from_text (A := AdkState) state with
  | None => Err InvalidRunState
  | Some state =>
      match state !! LOOP_LEDGER_DIGEST_KEY ≫= as_str with
      | None => Err InvalidRunState
      | Some digest => Ok digest
      end
  end.

(*| adk/execution.rs 762-771 LoopLedgerStore::bind_digest *)
Definition bind_digest (nodes : Nodes) (state : AdkState) : AdkState :=
  <[LOOP_LEDGER_DIGEST_KEY := VString (loop_ledger_digest nodes)]> state.

(** ** Completion bindings *)

(*| adk/execution/tool_audit.rs 6-12 same_admission *)
Definition same_admission (left right : PendingCall) : bool :=
  str_eqb (call_id left) (call_id right) && str_eqb (call_name left) (call_name right) &&
  str_eqb (call_fingerprint left) (call_fingerprint right) &&
  (admission_ordinal left =? admission_ordinal right)%Z &&
  (model_iteration left =? model_iteration right)%Z.

Definition bindings : Type := nat * gmap string string * gmap string Value.

(*| adk/execution/tool_audit.rs 22-53 prepare *)
Definition prepare_call (fresh : nat → string) (prior : option LoopState) (b : bindings)
    (c : CompletedCall) : option bindings :=
  let '(n, ids, outputs) := b in
  let call := completed_call c in
  let recorded prior := existsb (λ entry, same_admission (completed_call entry) call)
                          (completed_calls prior) in
  match match prior with Some prior => if recorded prior then Some prior else None | None => None end with
  | Some prior =>
      match completion_event_ids prior !! call_id call,
            completion_event_outputs prior !! call_id call with
      | Some id, Some output =>
          Some (n, <[call_id call := id]> ids, <[call_id call := output]> outputs)
      | _, _ => Some b
      end
  | None =>
      response ← call_response call;
      projected ← project_tool_results
                    (Array [Object [("response", response); ("tool_name", VString (call_name call))]]);
      output ← (match projected with Array items => last items | _ => None end);
      Some (S n, <[call_id call := fresh n]> ids, <[call_id call := output]> outputs)
  end.

Definition prepare_state (fresh : nat → string) (prior : option LoopState) (n : nat)
    (state : LoopState) : option (nat * LoopState) :=
  '(n, ids, outputs) ← foldl (λ b c, b ≫= λ b, prepare_call fresh prior b c)
                         (Some (n, ∅, ∅)) (completed_calls state);
  Some (n, state {{ completion_event_ids := ids; completion_event_outputs := outputs }}).

(*| adk/execution/tool_audit.rs 14-59 prepare *)
Definition prepare (fresh : nat → string) (committed : Nodes) (nodes : Nodes) : option Nodes :=
  snd <$> foldl (λ acc '(node, state),
      '(n, prepared) ← acc;
      '(n, state) ← prepare_state fresh (committed !! node) n state;
      Some (n, <[node := state]> prepared))
    (Some (O, ∅)) (sort_by_key fst (map_to_list nodes)).

(*| adk/execution/tool_audit.rs 107-113 unique_tokens *)
Definition unique_tokens (nodes : Nodes) : bool :=
  bool_decide (NoDup (concat (map (λ state, btree_values (completion_event_ids state))
                                (btree_values nodes)))).

(*| adk/execution/tool_audit.rs 115-132 identities *)
Definition identities (nodes : Nodes) : gmap (string * string) (string * string) :=
  list_to_map (rev (concat (map (λ '(node, state),
    omap (λ c, let call := completed_call c in
               (λ token, ((node, call_id call), (call_name call, token))) <$>
                 completion_event_ids state !! call_id call) (completed_calls state))
    (sort_by_key fst (map_to_list nodes))))).

(** ** Projection for the disk *)

(** [durable_pending_args(call).expect(..)]: the calls were checked. *)
Definition redact_call (call : PendingCall) : PendingCall :=
  call {{ call_args := default (call_args call) (durable_pending_args call) }}.

Definition redact_completed (call : PendingCall) : PendingCall :=
  let call := redact_call call in
  if is_skill_tool (call_name call) then call {{ call_response := None }} else call.

(*| adk/execution.rs 602-620 LoopLedgerStore::persist_generation *)
Definition redact_state (state : LoopState) : LoopState :=
  state {{ conversation := []; finished_output := None;
           pending_calls ::= map redact_call;
           completed_calls ::= map (update_call redact_completed) }}.

Definition redacted (raw : bool) (nodes : Nodes) : Nodes :=
  if raw then nodes else redact_state <$> nodes.

Definition unredactable (nodes : Nodes) : bool :=
  bool_decide (¬ map_Forall (λ _ state,
    forallb (λ call, is_some (durable_pending_args call)) (pending_calls state) = true) nodes).

(** ** Persisting *)

(*| adk/execution.rs 696-726 LoopLedgerStore::persist_ledger *)
Definition persist_ledger (w : write) (identity : string) (raw : bool) (nodes : Nodes) :
    method Disk ExecutionErrorKind unit :=
  write_json w (mk_Ledger 7 identity (redacted raw nodes) None).

(*| adk/execution.rs 672-689 LoopLedgerStore::persist_ledger_with_checkpoint_generation *)
Definition checkpoint_generation (ledger : LoopLedgerV1) (state : string) : option Nodes :=
  match checkpoint_ledger_digest state with
  | Ok digest =>
      List.find (λ generation, str_eqb (loop_ledger_digest generation) digest)
        (nodes ledger :: match checkpoint_nodes ledger with Some g => [g] | None => [] end)
  | Err _ => if bool_decide (nodes ledger = ∅) then Some ∅ else None
  end.

(*| adk/execution.rs 657-694 LoopLedgerStore::persist_ledger_with_checkpoint_generation *)
Definition persist_ledger_with_checkpoint_generation (env : PersistEnv) (st : LoopLedgerStore)
    (nodes : Nodes) : method Disk ExecutionErrorKind unit :=
  _ ← on_storage (open (open_ledger env) (checkpoint_manifest st));
  latest ← load (load_ledger env) (run_id st);
  match latest with
  | None => throw Persistence
  | Some checkpoint =>
      file ← gets ledger_file;
      match bounded_read (ledger_readable env) file with
      | Err e => throw e
      | Ok bytes =>
          match from_text bytes with
          | None => throw Persistence
          | Some ledger =>
              match checkpoint_generation ledger (dc_state checkpoint) with
              | None => throw Persistence
              | Some generation =>
                  write_json (ledger_write env)
                    (mk_Ledger 7 (checkpoint_identity st) nodes (Some generation))
              end
          end
      end
  end.

(** The checkpoint [c] with the digest of [nodes] bound to its state. *)
Definition rebind (st : LoopLedgerStore) (nodes : Nodes) (c : DurableCheckpointV1) :
    result ExecutionErrorKind DurableCheckpointV1 :=
  match from_text (A := AdkState) (dc_state c) with
  | None => Err Persistence
  | Some state =>
      map_err (λ _, Persistence)
        (DurableCheckpointV1_new (run_id st) (node_id c) (event_sequence c)
           (to_text (bind_digest nodes state)) (artifact_refs c))
  end.

(*| adk/execution.rs 728-752 LoopLedgerStore::sync_checkpoint *)
Definition sync_checkpoint (env : PersistEnv) (st : LoopLedgerStore) (nodes : Nodes) :
    method Disk ExecutionErrorKind unit :=
  store ← on_storage (open (open_checkpoint env) (checkpoint_manifest st));
  latest ← load (load_checkpoint env) (run_id st);
  match latest with
  | None => throw Persistence
  | Some checkpoint =>
      match rebind st nodes checkpoint with
      | Err e => throw e
      | Ok checkpoint => on_storage (save_checkpoint (checkpoint_tx env) store checkpoint)
      end
  end.

(*| adk/execution.rs 624-639 LoopLedgerStore::persist_generation *)
Definition save_frontier (env : PersistEnv) (st : LoopLedgerStore) (nodes : Nodes)
    (frontier : DurableCheckpointV1) : method Disk ExecutionErrorKind unit :=
  match rebind st nodes frontier with
  | Err e => throw e
  | Ok checkpoint =>
      store ← on_storage (open (open_checkpoint env) (checkpoint_manifest st));
      on_storage (save_checkpoint (checkpoint_tx env) store checkpoint)
  end.

Definition system : Type := LoopLedgerStore * Disk.

(** The two durable generations: the ledger, then the checkpoint. *)
Definition commit_generation (env : PersistEnv) (st : LoopLedgerStore) (durable : Nodes)
    (frontier : option DurableCheckpointV1) : method Disk ExecutionErrorKind unit :=
  persist_ledger_with_checkpoint_generation env st durable;;
  match frontier with
  | Some frontier => save_frontier env st durable frontier
  | None => sync_checkpoint env st durable
  end.

(*| adk/execution.rs 574-655 LoopLedgerStore::persist_generation *)
Definition persist_generation (env : PersistEnv) (nodes : Nodes)
    (frontier : option DurableCheckpointV1) : method system ExecutionErrorKind unit := λ '(st, d),
  let raw := persist_raw_loop_state st in
  if negb raw && unredactable nodes then ((st, d), Err Persistence)
  else if negb (artifacts_synced env) then ((st, d), Err Persistence)
  else match prepare (fresh_id env) (durable_nodes st) nodes with
  | None => ((st, d), Err InvalidRunState)
  | Some prepared =>
      let durable := redacted raw prepared in
      match commit_generation env st durable frontier d with
      | (d, Err e) => ((st, d), Err e)
      | (d, Ok _) =>
          ((st {{ durable_nodes := durable; tool_audit_ids := identities durable }}, d), Ok tt)
      end
  end.

(** [*nodes = f(nodes)] under the lock, then [persist_locked]. *)
Definition set_nodes (nodes : Nodes) : method system ExecutionErrorKind unit :=
  modify (λ '(st, d), (st {{ live_nodes := nodes }}, d)).

(*| adk/execution.rs 570-572 LoopLedgerStore::persist_locked *)
Definition persist_locked (env : PersistEnv) : method system ExecutionErrorKind unit :=
  nodes ← gets (λ s, live_nodes (fst s));
  persist_generation env nodes None.

Definition update_nodes (env : PersistEnv) (nodes : Nodes) : method system ExecutionErrorKind unit :=
  set_nodes nodes;; persist_locked env.

(*| adk/execution.rs 215-239 LoopLedgerStore::create *)
Definition create (w : write) (identity : string) (m : CheckpointManifestV1) (rid : RunId)
    (raw : bool) (audits : EffectAudits) : method Disk ExecutionErrorKind LoopLedgerStore :=
  persist_ledger w identity raw ∅;;
  mret (mk_LoopLedgerStore identity m rid raw audits ∅ ∅ ∅ ∅).

(** The owner's transcript is not on disk: its segment starts over. *)
Definition forget_transcript (state : LoopState) : LoopState :=
  state {{ invocation ::= fmap (λ owner, mk_Invocation (step owner) 0 (model_iteration_start owner)) }}.

(*| adk/execution.rs 252-266 LoopLedgerStore::open *)
Definition select_generation (ledger : LoopLedgerV1) (digest : string) :
    result ExecutionErrorKind Nodes :=
  if str_eqb digest (loop_ledger_digest (nodes ledger)) then Ok (nodes ledger)
  else match checkpoint_nodes ledger with
  | Some g => if str_eqb digest (loop_ledger_digest g) then Ok g else Err InvalidRunState
  | None => Err InvalidRunState
  end.

Definition all_valid (nodes : Nodes) : bool :=
  bool_decide (map_Forall (λ _ state, valid_loop_state state = true) nodes).

(*| adk/execution.rs 241-294 LoopLedgerStore::open *)
Definition reopen (readable : bool) (identity : string) (m : CheckpointManifestV1) (rid : RunId)
    (digest : string) (raw : bool) (audits : EffectAudits) (d : Disk) :
    result ExecutionErrorKind LoopLedgerStore :=
  bytes ← bounded_read readable (ledger_file d);
  match from_text bytes with
  | None => Err InvalidRunState
  | Some ledger =>
      if negb (ledger_schema_version ledger =? 7)%Z || negb (str_eqb (ledger_identity ledger) identity)
      then Err InvalidRunState
      else
        nodes ← select_generation ledger digest;
        if negb (all_valid nodes) || negb (unique_tokens nodes) then Err InvalidRunState
        else
          let live := if raw then nodes else forget_transcript <$> nodes in
          Ok (mk_LoopLedgerStore identity m rid raw audits live nodes (identities live) ∅)
  end.
End ledger.
