(* ===== verification/LoopRecovery.v ===== *)
(** * Crash recovery of the loop ledger

    A persist of [LoopLedger] writes two files, the ledger and then the
    checkpoint that carries the ledger's digest.  Whatever fails or stops on
    the way, the run resumes from one of the two generations: the one it held
    before, or the new one. *)

From S2P Require Import Prelude.
From S2P Require Import Hashing.
From S2P Require Import Runtime.
From S2P Require Import Json.
From S2P Require Import Event.
From S2P Require Import Serde.
From S2P Require Import Checkpoint.
From S2P Require Import LoopState.
From S2P Require Import LoopLedger.

#[local] Arguments load_latest : simpl never.
#[local] Arguments open : simpl never.
#[local] Arguments bind_digest : simpl never.
#[local] Arguments checkpoint_ledger_digest : simpl never.

Section recovery.
Context `{AdkContent, !ToolInputs, Sha256} `{!EqDecision json_number} `{!IntJson}.
Context `{!Serde Value, !Serde CheckpointManifestV1, !Serde (list string)}.

Abbreviation Nodes := (gmap string LoopState).
Abbreviation AdkState := (gmap string Value).

(** A state without its [#[serde(skip)]] field. *)
Definition kept_state (state : LoopState) : LoopState :=
  state {{ conversation_reconstructed := false }}.
Definition kept_nodes (nodes : Nodes) : Nodes := kept_state <$> nodes.
Definition kept_pair (p : Z * Nodes) : Z * Nodes := (fst p, kept_nodes (snd p)).
Definition kept_ledger (l : LoopLedgerV1) : LoopLedgerV1 :=
  mk_Ledger (ledger_schema_version l) (ledger_identity l) (kept_nodes (nodes l))
    (kept_nodes <$> checkpoint_nodes l).

Context `{!Serde LoopLedgerV1, !Serde (Z * Nodes), !Serde AdkState}.
Context `{!SerdeLaws LoopLedgerV1 kept_ledger, !SerdeLaws (Z * Nodes) kept_pair}.
Context `{!SerdeLaws AdkState id, !SerdeLaws CheckpointManifestV1 id, !SerdeLaws (list string) id}.
Context `{!Inj (=) (=) sha256}.
Implicit Types (st : LoopLedgerStore) (d : Disk) (g : Nodes).

(** ** Digests *)

Lemma digest_kept g : loop_ledger_digest (kept_nodes g) = loop_ledger_digest g.
Proof.
  unfold loop_ledger_digest. do 3 f_equal. exact (to_kept (kept := kept_pair) (4%Z, g)).
Qed.

Lemma digest_inj g g' : loop_ledger_digest g = loop_ledger_digest g' → kept_nodes g = kept_nodes g'.
Proof.
  unfold loop_ledger_digest. intros [= E]. apply (inj encode_hex), (inj sha256) in E.
  apply (to_text_inj (kept := kept_pair)) in E. by injection E.
Qed.

Lemma checkpoint_digest_bound g (state : AdkState) :
  checkpoint_ledger_digest (to_text (bind_digest g state)) = Ok (loop_ledger_digest g).
Proof.
  unfold checkpoint_ledger_digest. rewrite (from_to (kept := id)). unfold bind_digest, id.
  by rewrite lookup_insert_eq.
Qed.

(** The checks of a stored state do not read the skipped field. *)
Lemma valid_kept state : valid_loop_state (kept_state state) = valid_loop_state state.
Proof. by destruct state. Qed.

Lemma all_valid_kept g : all_valid (kept_nodes g) = all_valid g.
Proof.
  apply bool_decide_ext. unfold kept_nodes. rewrite map_Forall_fmap.
  split; intros Hv k state Hk; pose proof (Hv k state Hk) as Hs.
  - by rewrite <- valid_kept.
  - unfold compose. by rewrite valid_kept.
Qed.

Lemma btree_values_fmap {A B} (f : A → B) (m : gmap string A) :
  btree_values (f <$> m) = map f (btree_values m).
Proof.
  unfold btree_values, btree_entries. rewrite map_to_list_fmap.
  rewrite (sort_entries_map f (map_to_list m)) by apply NoDup_fst_map_to_list.
  by rewrite !map_map.
Qed.

Lemma unique_kept g : unique_tokens (kept_nodes g) = unique_tokens g.
Proof.
  unfold unique_tokens, kept_nodes. rewrite btree_values_fmap, map_map. reflexivity.
Qed.

(** ** What the disk holds *)

Definition generations (l : LoopLedgerV1) : list Nodes :=
  nodes l :: match checkpoint_nodes l with Some g => [g] | None => [] end.

(** The run's checkpoint binds digest [δ], and a generation of the ledger file
    has it. *)
Definition holds st d (δ : string) : Prop :=
  bound_to (checkpoint_manifest st) (storage d) ∧
  ∃ c l, load_latest None (run_id st) (storage d) = Ok (Some c) ∧
    checkpoint_ledger_digest (dc_state c) = Ok δ ∧
    ledger_file d = Some (to_text l) ∧ (str_len (to_text l) ≤ MAX_STATE_BYTES)%Z ∧
    ledger_schema_version l = 7%Z ∧ ledger_identity l = checkpoint_identity st ∧
    ∃ g, g ∈ generations l ∧ loop_ledger_digest g = δ.

(** What a resumed process loads: the run's checkpoint, the digest it binds and
    the generation of the ledger that has it. *)
Definition resume st (readable : bool) d : result ExecutionErrorKind LoopLedgerStore :=
  match load_latest None (run_id st) (storage d) with
  | Ok (Some c) =>
      digest ← checkpoint_ledger_digest (dc_state c);
      reopen readable (checkpoint_identity st) (checkpoint_manifest st) (run_id st) digest
        (persist_raw_loop_state st) (effect_audits st) d
  | _ => Err InvalidRunState
  end.

Lemma select_generation_kept l g :
  g ∈ generations l →
  ∃ g', select_generation (kept_ledger l) (loop_ledger_digest g) = Ok g' ∧ g' = kept_nodes g.
Proof.
  intros Hg. unfold select_generation. cbn. rewrite digest_kept.
  destruct (str_eqb (loop_ledger_digest g) _) eqn:E.
  { apply str_eqb_eq, digest_inj in E. eauto. }
  destruct (checkpoint_nodes l) as [g1|] eqn:Hc; cbn.
  - unfold generations in Hg. rewrite Hc in Hg.
    apply elem_of_cons in Hg as [->|Hg%list_elem_of_singleton].
    + rewrite (proj2 (str_eqb_eq _ _) eq_refl) in E. done.
    + subst g1. rewrite digest_kept, (proj2 (str_eqb_eq _ _) eq_refl). eauto.
  - unfold generations in Hg. rewrite Hc in Hg. apply list_elem_of_singleton in Hg as ->.
    by rewrite (proj2 (str_eqb_eq _ _) eq_refl) in E.
Qed.

(** A disk that holds a valid generation resumes from it. *)
Lemma resume_holds st d g :
  holds st d (loop_ledger_digest g) → all_valid g = true → unique_tokens g = true →
  ∃ st', resume st true d = Ok st' ∧ durable_nodes st' = kept_nodes g ∧
    live_nodes st' = (if persist_raw_loop_state st then kept_nodes g
                      else forget_transcript <$> kept_nodes g).
Proof.
  intros (_ & c & l & Hl & Hd & Hf & Hlen & Hv & Hid & g0 & Hg0 & Heq) Hvalid Huniq.
  destruct (select_generation_kept l g0 Hg0) as (g1 & Hsel & ->).
  rewrite Heq in Hsel. apply digest_inj in Heq. rewrite Heq in Hsel.
  unfold resume, reopen. rewrite Hl, Hd. cbn. rewrite Hf. cbn.
  assert ((MAX_STATE_BYTES <? str_len (to_text l))%Z = false) as -> by by apply Z.ltb_ge.
  cbn. rewrite (from_to (kept := kept_ledger)). cbn. rewrite Hv, Hid.
  rewrite (proj2 (str_eqb_eq _ _) eq_refl). cbn. rewrite Hsel. cbn.
  rewrite all_valid_kept, unique_kept, Hvalid, Huniq. cbn. eexists. split; [done|].
  by destruct (persist_raw_loop_state st).
Qed.

(** ** The two writes *)

Lemma on_storage_run {A} (m : method Storage CheckpointErrorKind A) d d' r :
  on_storage m d = (d', r) →
  ledger_file d' = ledger_file d ∧ ∃ r', m (storage d) = (storage d', r') ∧
    r = map_err (λ _, Persistence) r'.
Proof. unfold on_storage. destruct (m (storage d)) as [s r']. intros [= <- <-]. eauto. Qed.

Lemma load_run fault rid d :
  load fault rid d = (d, map_err (λ _, Persistence) (load_latest fault rid (storage d))).
Proof. by destruct d. Qed.

Lemma open_bound env (m : CheckpointManifestV1) (s s' : Storage) r :
  open env m s = (s', r) → bound_to m s → bound_to m s'.
Proof. intros [Hb _]%open_spec Hbound. by apply (Hb m). Qed.

(** The first write: it leaves the checkpoint alone, and either the ledger file
    too, or replaces it by a ledger of the new generation and of one that the
    checkpoint binds. *)
Definition first_write st g d d' (r : result ExecutionErrorKind unit) : Prop :=
  bound_to (checkpoint_manifest st) (storage d') ∧
  (∀ rid, stored (storage d') rid = stored (storage d) rid) ∧
  (ledger_file d' = ledger_file d ∧ r ≠ Ok tt ∨
   ∃ c bytes l0 g0, load_latest None (run_id st) (storage d) = Ok (Some c) ∧
     ledger_file d = Some bytes ∧ from_text bytes = Some l0 ∧
     checkpoint_generation l0 (dc_state c) = Some g0 ∧
     let l := mk_Ledger 7 (checkpoint_identity st) g (Some g0) in
     ledger_file d' = Some (to_text l) ∧ (str_len (to_text l) ≤ MAX_STATE_BYTES)%Z).

Lemma load_same fault (s s' : Storage) rid c :
  (∀ rid, stored s' rid = stored s rid) → run_id_str rid ≠ "" →
  load_latest fault rid s' = Ok c → load_latest None rid s = Ok c.
Proof.
  intros Hs Hne El. rewrite load_latest_stored, <- Hs, <- load_latest_stored by done.
  unfold load_latest in El |- *. by destruct fault.
Qed.

Lemma write_ledger_spec env st g d d' r :
  persist_ledger_with_checkpoint_generation env st g d = (d', r) →
  bound_to (checkpoint_manifest st) (storage d) → run_id_str (run_id st) ≠ "" →
  first_write st g d d' r.
Proof.
  intros E Hb Hne. unfold persist_ledger_with_checkpoint_generation in E.
  unfold mbind, method_bind in E.
  destruct (on_storage _ d) as [d1 r1] eqn:E1. apply on_storage_run in E1 as (Hf1 & r1' & E1 & ->).
  pose proof (open_bound _ _ _ _ _ E1 Hb) as Hb1.
  assert (Hs1 : ∀ rid, stored (storage d1) rid = stored (storage d) rid)
    by (intros rid; by apply (open_stored _ _ _ _ _ _ E1)).
  assert (Hkeep : ∀ e, (d1, Err e) = (d', r) → first_write st g d d' r).
  { intros e [= <- <-]. split_and!; [done|done|]. by left. }
  destruct r1' as [store|e]; cbn [map_err] in E; [|by apply Hkeep in E].
  rewrite load_run in E.
  destruct (load_latest (load_ledger env) (run_id st) (storage d1)) as [[c|]|e] eqn:El; cbn in E;
    [|by apply Hkeep in E..].
  apply (load_same _ _ _ _ _ Hs1 Hne) in El.
  unfold gets in E. cbn in E.
  destruct (bounded_read (ledger_readable env) (ledger_file d1)) as [bytes|e] eqn:Er;
    [|by apply Hkeep in E].
  unfold bounded_read in Er. destruct (ledger_file d1) as [bytes'|] eqn:Hfile; [|done].
  apply guard_Ok in Er as [_ [= ->]].
  destruct (from_text bytes) as [l0|] eqn:Et; [|by apply Hkeep in E].
  destruct (checkpoint_generation l0 (dc_state c)) as [g0|] eqn:Eg; [|by apply Hkeep in E].
  unfold write_json in E. cbv zeta in E. set (l := mk_Ledger 7 (checkpoint_identity st) g (Some g0)) in E.
  destruct (Z.ltb_spec MAX_STATE_BYTES (str_len (to_text l))) as [|Hlen]; [by apply Hkeep in E|].
  assert (Hnew : ∀ r0, (mk_Disk (Some (to_text l)) (storage d1), r0) = (d', r) →
    first_write st g d d' r).
  { intros r0 [= <- <-]. split_and!; [done|done|]. right. by exists c, bytes, l0, g0. }
  destruct (ledger_write env) as [|[]];
    [by apply Hnew in E|by apply Hnew in E|by apply Hkeep in E].
Qed.

(** The second write, on its own: the ledger file stays, and the checkpoint is
    the one the run had or the new one. *)
Definition second_write st g d d' (r : result ExecutionErrorKind unit) : Prop :=
  bound_to (checkpoint_manifest st) (storage d') ∧ ledger_file d' = ledger_file d ∧
  (load_latest None (run_id st) (storage d') = load_latest None (run_id st) (storage d) ∧ r ≠ Ok tt ∨
   ∃ c, load_latest None (run_id st) (storage d') = Ok (Some c) ∧
     checkpoint_ledger_digest (dc_state c) = Ok (loop_ledger_digest g)).

Lemma rebind_Ok st g c c' :
  rebind st g c = Ok c' →
  (∃ state : AdkState, c' = mk_DurableCheckpoint (run_id st) (node_id c) (event_sequence c)
     (to_text (bind_digest g state)) (artifact_refs c)) ∧ admissible_state (dc_state c').
Proof.
  unfold rebind. destruct (from_text (dc_state c)) as [state|]; [|done].
  rewrite map_err_Ok, DurableCheckpointV1_new_Ok. intros [-> Ha]. eauto.
Qed.

Lemma save_spec t st g c0 c d d' r :
  rebind st g c0 = Ok c → (0 ≤ event_sequence c0)%Z →
  on_storage (save_checkpoint t (mk_Store (checkpoint_manifest st) false) c) d = (d', r) →
  bound_to (checkpoint_manifest st) (storage d) → run_id_str (run_id st) ≠ "" →
  second_write st g d d' r.
Proof.
  intros [[state ->] Ha]%rebind_Ok Hseq (Hf & r' & E & ->)%on_storage_run Hb Hne.
  pose proof (save_bound _ _ _ _ _ _ E Hb) as Hb'.
  split_and!; [done|done|].
  apply save_checkpoint_spec in E as [_ [[Heq Hr]|(_ & _ & _ & _ & _ & _ & Hst)]]; cbn in *.
  - left. rewrite Heq. split; [done|]. by destruct r' as [[]|].
  - right. set (c := mk_DurableCheckpoint _ _ _ _ _) in Hst. exists c.
    split; [|apply checkpoint_digest_bound].
    apply (load_row c); [|done..]. cbn. rewrite Hst. by rewrite decide_True.
Qed.

Lemma open_run env st d d' r :
  on_storage (open env (checkpoint_manifest st)) d = (d', r) →
  bound_to (checkpoint_manifest st) (storage d) → run_id_str (run_id st) ≠ "" →
  bound_to (checkpoint_manifest st) (storage d') ∧ ledger_file d' = ledger_file d ∧
  load_latest None (run_id st) (storage d') = load_latest None (run_id st) (storage d) ∧
  (∀ store, r = Ok store → store = mk_Store (checkpoint_manifest st) false).
Proof.
  intros (Hf & r' & E & ->)%on_storage_run Hb Hne. split_and!.
  - by eapply open_bound.
  - done.
  - rewrite !load_latest_stored by done. by rewrite (open_stored _ _ _ _ _ _ E).
  - intros store. rewrite map_err_Ok. intros ->. by eapply open_store.
Qed.

Lemma load_latest_sequence fault rid (s : Storage) c :
  load_latest fault rid s = Ok (Some c) → (0 ≤ event_sequence c)%Z.
Proof.
  unfold load_latest. destruct fault; [done|]. cbn.
  destruct (database s) as [db|]; [|done].
  destruct (checkpoints db !! run_id_str rid) as [row|]; [|done].
  rewrite bind_Ok. intros (rid' & _ & Hr). apply guard_Ok in Hr as [[_ Hs]%orb_false_iff Hr].
  apply Z.ltb_ge in Hs. destruct (from_text (row_refs row)); [|done].
  destruct (DurableCheckpointV1_new _ _ _ _ _) as [c'|] eqn:Ec; [|done].
  apply DurableCheckpointV1_new_Ok in Ec as [-> _]. cbn in Hr. by injection Hr as <-.
Qed.

Lemma second_write_fails st g d d' e :
  bound_to (checkpoint_manifest st) (storage d') → ledger_file d' = ledger_file d →
  load_latest None (run_id st) (storage d') = load_latest None (run_id st) (storage d) →
  second_write st g d d' (Err e).
Proof. intros. split_and!; [done..|by left]. Qed.

Lemma second_write_trans st g d d1 d' r :
  ledger_file d1 = ledger_file d →
  load_latest None (run_id st) (storage d1) = load_latest None (run_id st) (storage d) →
  second_write st g d1 d' r → second_write st g d d' r.
Proof. intros Hf Hl (Hb & Hf' & H'). rewrite Hf in Hf'. rewrite Hl in H'. by split_and!. Qed.

Lemma sync_checkpoint_spec env st g d d' r :
  sync_checkpoint env st g d = (d', r) →
  bound_to (checkpoint_manifest st) (storage d) → run_id_str (run_id st) ≠ "" →
  second_write st g d d' r.
Proof.
  intros E Hb Hne. unfold sync_checkpoint, mbind, method_bind in E.
  destruct (on_storage _ d) as [d1 r1] eqn:E1.
  apply open_run in E1 as (Hb1 & Hf1 & Hl1 & Hstore); [|done..].
  destruct r1 as [store|e]; [|injection E as <- <-; by apply second_write_fails].
  rewrite (Hstore _ eq_refl), load_run in E.
  destruct (load_latest (load_checkpoint env) (run_id st) (storage d1)) as [[c|]|e] eqn:El;
    cbn in E; [|injection E as <- <-; by apply second_write_fails..].
  apply load_latest_sequence in El.
  destruct (rebind st g c) as [c'|e] eqn:Er; [|injection E as <- <-; by apply second_write_fails].
  apply (second_write_trans st g d d1); [done..|]. by eapply save_spec.
Qed.

Lemma save_frontier_spec env st g c d d' r :
  save_frontier env st g c d = (d', r) → (0 ≤ event_sequence c)%Z →
  bound_to (checkpoint_manifest st) (storage d) → run_id_str (run_id st) ≠ "" →
  second_write st g d d' r.
Proof.
  intros E Hseq Hb Hne. unfold save_frontier, mbind, method_bind in E.
  destruct (rebind st g c) as [c'|e] eqn:Er; [|injection E as <- <-; by apply second_write_fails].
  destruct (on_storage (open _ _) d) as [d1 r1] eqn:E1.
  apply open_run in E1 as (Hb1 & Hf1 & Hl1 & Hstore); [|done..].
  destruct r1 as [store|e]; [|injection E as <- <-; by apply second_write_fails].
  rewrite (Hstore _ eq_refl) in E.
  apply (second_write_trans st g d d1); [done..|]. by eapply save_spec.
Qed.

(** ** Recovery *)

Lemma checkpoint_generation_digest l state g δ :
  checkpoint_generation l state = Some g → checkpoint_ledger_digest state = Ok δ →
  loop_ledger_digest g = δ.
Proof.
  unfold checkpoint_generation. intros E Hd. rewrite Hd in E.
  by apply find_Some_iff in E as [_ E%str_eqb_eq].
Qed.

Lemma commit_spec env st g δ frontier d d' r :
  commit_generation env st g frontier d = (d', r) →
  holds st d δ → run_id_str (run_id st) ≠ "" →
  (∀ c, frontier = Some c → (0 ≤ event_sequence c)%Z) →
  (r = Ok tt → holds st d' (loop_ledger_digest g)) ∧
  (holds st d' δ ∨ holds st d' (loop_ledger_digest g)).
Proof.
  intros E Hh Hne Hseq. unfold commit_generation, mbind, method_bind in E.
  destruct (persist_ledger_with_checkpoint_generation env st g d) as [d1 r1] eqn:E1.
  pose proof Hh as (Hb & c & l & Hl & Hd & Hf & Hlen & Hv & Hid & Hgen).
  apply write_ledger_spec in E1 as (Hb1 & Hs1 & Hw); [|done..].
  assert (Hl1 : load_latest None (run_id st) (storage d1) = Ok (Some c))
    by (by rewrite load_latest_stored, Hs1, <- load_latest_stored).
  assert (Hold : holds st d1 δ ∧ (r1 = Ok tt → ∃ l1, ledger_file d1 = Some (to_text l1) ∧
    (str_len (to_text l1) ≤ MAX_STATE_BYTES)%Z ∧ ledger_schema_version l1 = 7%Z ∧
    ledger_identity l1 = checkpoint_identity st ∧ g ∈ generations l1)).
  { destruct Hw as [[Hf1 Hr1]|(c' & bytes & l0 & g0 & Hl0 & _ & _ & Hgen0 & Hf1 & Hlen1)].
    - split; [|done]. split; [done|]. exists c, l. by rewrite Hf1.
    - rewrite Hl in Hl0. injection Hl0 as <-.
      apply (checkpoint_generation_digest _ _ _ _ Hgen0) in Hd as Hg0. split.
      + split; [done|]. eexists c, _. split_and!; [done|done|exact Hf1|done..|].
        exists g0. split; [|done]. unfold generations. cbn. set_solver.
      + intros _. eexists. split_and!; [exact Hf1|done..|].
        unfold generations. cbn. set_solver. }
  destruct Hold as [Hold Hnew]. destruct r1 as [[]|e]; [|injection E as <- <-; by split; [|left]].
  destruct (Hnew eq_refl) as (l1 & Hf1 & Hlen1 & Hv1 & Hid1 & Hg1).
  assert (Hsec : second_write st g d1 d' r).
  { destruct frontier as [c'|]; [eapply save_frontier_spec|eapply sync_checkpoint_spec]; eauto. }
  destruct Hsec as (Hb2 & Hf2 & [[Hl2 Hr2]|(c2 & Hl2 & Hd2)]).
  - split; [done|]. left. destruct Hold as (_ & c' & l' & Hl' & Hrest).
    split; [done|]. exists c', l'. rewrite Hl2, Hf2. by split.
  - assert (holds st d' (loop_ledger_digest g)) as Hgoal; [|by split; [|right]].
    split; [done|]. exists c2, l1. rewrite Hf2. split_and!; [done..|]. by exists g.
Qed.

End recovery.

(** ** Example *)

Section example.
#[local] Existing Instance ex_json_Z.
#[local] Existing Instance ex_int.
#[local] Existing Instance ex_content.
#[local] Existing Instance ex_inputs.
#[local] Existing Instance ex_value_serde.
#[local] Existing Instance ex_manifest_serde.
#[local] Existing Instance ex_manifest_laws.
#[local] Existing Instance ex_strings_serde.
#[local] Existing Instance ex_strings_laws.
#[local] Instance ex_sha : Sha256 := λ s, s.
#[local] Instance ex_sha_inj : Inj (=) (=) ex_sha.
Proof. by intros x y. Qed.

#[local] Instance ex_ledger_eq_dec : EqDecision LoopLedgerV1.
Proof. solve_decision. Defined.
#[local] Instance ex_ledger_countable : Countable LoopLedgerV1.
Proof.
  refine (inj_countable'
    (λ l, ((ledger_schema_version l, ledger_identity l), (nodes l, checkpoint_nodes l)))
    (λ '((a, b), (c, d)), mk_Ledger a b c d) _). by intros [].
Defined.

Lemma kept_nodes_kept (g : gmap string LoopState) : kept_nodes (kept_nodes g) = kept_nodes g.
Proof. unfold kept_nodes. rewrite <- map_fmap_compose. by apply map_fmap_ext. Qed.
Lemma kept_pair_kept (p : Z * gmap string LoopState) : kept_pair (kept_pair p) = kept_pair p.
Proof. destruct p. unfold kept_pair. cbn [fst snd]. by rewrite kept_nodes_kept. Qed.
Lemma kept_ledger_kept l : kept_ledger (kept_ledger l) = kept_ledger l.
Proof.
  destruct l as [v i g [c|]]; unfold kept_ledger; cbn [fmap option_fmap option_map
    ledger_schema_version ledger_identity nodes checkpoint_nodes]; by rewrite !kept_nodes_kept.
Qed.

#[local] Instance ex_ledger_serde : Serde LoopLedgerV1 := countable_serde_kept _ kept_ledger.
#[local] Instance ex_ledger_laws : SerdeLaws LoopLedgerV1 kept_ledger :=
  countable_serde_kept_laws _ _ kept_ledger_kept.
#[local] Instance ex_pair_serde : Serde (Z * gmap string LoopState) :=
  countable_serde_kept _ kept_pair.
#[local] Instance ex_pair_laws : SerdeLaws (Z * gmap string LoopState) kept_pair :=
  countable_serde_kept_laws _ _ kept_pair_kept.
#[local] Instance ex_state_serde : Serde (gmap string Value) := countable_serde _.
#[local] Instance ex_state_laws : SerdeLaws (gmap string Value) id := countable_serde_laws _.

Definition ex_nodes : gmap string LoopState := {["node" := LoopState_default]}.
Definition ex_first : DurableCheckpointV1 :=
  mk_DurableCheckpoint (mk_RunId "run") "node" 0 (to_text (bind_digest ∅ ∅)) [].
Definition ex_disk : Disk := mk_Disk
  (Some (to_text (mk_Ledger 7 "id" ∅ None)))
  (fst (save_checkpoint Checkpoint.Committed (mk_Store ex_manifest false) ex_first ex_opened)).
Definition ex_store : LoopLedgerStore :=
  mk_LoopLedgerStore "id" ex_manifest (mk_RunId "run") true ∅ ∅ ∅ ∅ ∅.
(** The crash: the ledger file is replaced, the checkpoint is not. *)
Definition ex_crash (t : tx) : PersistEnv :=
  mk_PersistEnv true (λ _, "") ex_open None true Written ex_open None t.

Lemma ex_holds : holds ex_store ex_disk (loop_ledger_digest ∅).
Proof.
  split.
  - assert (Ho : open ex_open ex_manifest empty_storage =
      (ex_opened, Ok (mk_Store ex_manifest false))) by by vm_compute.
    apply open_spec in Ho as [_ Hu].
    destruct (Hu (conj eq_refl eq_refl)) as [[_ Hno]|Hb]; [by destruct (Hno _ eq_refl)|].
    by apply (save_bound Checkpoint.Committed ex_manifest ex_first ex_opened _ (Ok tt));
      [vm_compute|].
  - exists ex_first, (mk_Ledger 7 "id" ∅ None). split_and!; [by vm_compute..|].
    exists ∅. split; [|done]. by left.
Qed.

Lemma ex_prepared t : prepare (fresh_id (ex_crash t)) ∅ ex_nodes = Some ex_nodes.
Proof. apply (bool_decide_unpack _). vm_compute. exact I. Qed.

Lemma ex_kept : kept_nodes ex_nodes = ex_nodes.
Proof. apply (bool_decide_unpack _). vm_compute. exact I. Qed.

End example.
