(* ===== verification/LoopController.v ===== *)
(** * The model loop of a node

    The rest of [LoopLedgerStore] and the [LoopController] of
    [workflow-adk/src/execution.rs]: the callbacks around a model call and a
    tool call, the run-wide limits they check against every node's counters,
    the account of skill resources, and what a resumed run replays; with the
    frontier ownership of [execution/isolated.rs].  Controllers, the ledger,
    the terminal cause, the cancellation flag and the progress clock are shared
    by the run ([Run]); a mutex is never poisoned, and the test-only crash
    barriers are left out. *)

From S2P Require Import Prelude.
From S2P Require Import Hashing.
From S2P Require Import Runtime.
From S2P Require Import Json.
From S2P Require Import Approval.
From S2P Require Import EffectLedger.
From S2P Require Import Event.
From S2P Require Import Serde.
From S2P Require Import Checkpoint.
From S2P Require Import LoopState.
From S2P Require Import LoopLedger.

(** ** Lists *)

(** [position(p)] followed by [remove(index)]. *)
Fixpoint take_first {A : Type} (p : A → bool) (l : list A) : option (A * list A) :=
  match l with
  | [] => None
  | x :: l => if p x then Some (x, l) else prod_map id (cons x) <$> take_first p l
  end.

(** The first element on which [f] is defined is replaced. *)
Fixpoint modify_first {A : Type} (f : A → option A) (l : list A) : option (list A) :=
  match l with
  | [] => None
  | x :: l => match f x with Some y => Some (y :: l) | None => cons x <$> modify_first f l end
  end.

Section controller.
Context `{AdkContent, !ToolInputs, Sha256} `{!EqDecision json_number} `{!IntJson}.
Context `{!Serde Value, !Serde CheckpointManifestV1, !Serde (list string)}.
Context `{!Serde LoopLedgerV1, !Serde (Z * gmap string LoopState), !Serde (gmap string Value)}.

Abbreviation Nodes := (gmap string LoopState).

(** ** The ledger's operations *)

Definition ledger_op (A : Type) : Type := method system ExecutionErrorKind A.
Definition live : ledger_op Nodes := gets (λ s, live_nodes (fst s)).

(*| adk/execution.rs 296-301 LoopLedgerStore::snapshot *)
Definition snapshot (node : string) (st : LoopLedgerStore) : LoopState :=
  default LoopState_default (live_nodes st !! node).

(** [nodes.iter().map(|(name, state)| if name == node { candidate } else { state })]:
    a node that is not in the map does not count. *)
Definition with_candidate (node : string) (candidate : LoopState) (nodes : Nodes) : Nodes :=
  match nodes !! node with Some _ => <[node := candidate]> nodes | None => nodes end.

Definition saturating_sum (l : list Z) : Z := foldl saturating_add 0%Z l.

Definition add_counts (per_tool : gmap string Z) (state : LoopState) : gmap string Z :=
  foldl (λ per_tool '(tool, count),
    <[tool := saturating_add (default 0 (per_tool !! tool))%Z count]> per_tool)
    per_tool (map_to_list (tool_calls state)).

(** The run's total of [f], and its calls of each tool. *)
Definition run_total (f : LoopState → Z) (nodes : Nodes) : Z :=
  saturating_sum (map f (btree_values nodes)).
Definition per_tool_calls (nodes : Nodes) : gmap string Z :=
  foldl add_counts ∅ (btree_values nodes).

(*| adk/execution.rs 312-350 LoopLedgerStore::tool_call_limit *)
Definition tool_call_limit (env : PersistEnv) (node : string) (candidate : LoopState)
    (limits : RunLimits) : ledger_op (option ExecutionErrorKind) :=
  nodes ← live;
  let states := with_candidate node candidate nodes in
  if (max_tool_calls limits <? run_total total_tool_calls states)%Z
  then mret (Some TotalToolCallsLimit)
  else if bool_decide (¬ map_Forall (λ _ count, (count ≤ max_calls_per_tool limits)%Z)
                           (per_tool_calls states))
  then mret (Some ToolCallsPerToolLimit)
  else update_nodes env (<[node := candidate]> nodes);; mret None.

(*| adk/execution.rs 352-374 LoopLedgerStore::output_byte_limit *)
Definition output_byte_limit (env : PersistEnv) (node : string) (candidate : LoopState)
    (limit : Z) : ledger_op bool :=
  nodes ← live;
  if (limit <? run_total tool_output_bytes (with_candidate node candidate nodes))%Z
  then mret true
  else update_nodes env (<[node := candidate]> nodes);; mret false.

(*| adk/execution.rs 376-383 LoopLedgerStore::replace *)
Definition replace (env : PersistEnv) (node : string) (state : LoopState) : ledger_op unit :=
  nodes ← live;
  update_nodes env (<[node := state]> nodes).

(*| adk/execution.rs 393-408 LoopLedgerStore::pending_calls *)
Definition run_pending_calls (st : LoopLedgerStore) : list (string * PendingCall) :=
  concat (map (λ '(node, state), map (pair node) (pending_calls state))
            (btree_entries (live_nodes st))).

(*| adk/execution.rs 410-428 LoopLedgerStore::completed_calls *)
Definition run_completed_calls (st : LoopLedgerStore) : list (string * CompletedCall) :=
  concat (map (λ '(node, state),
    if negb (finish_admitted state) &&
       (negb (is_some (invocation state)) || negb (persist_raw_loop_state st))
    then map (pair node)
           (List.filter (λ c, current_call state (completed_call c)) (completed_calls state))
    else []) (btree_entries (live_nodes st))).

(** [sort_by_key(|call| call.admission_ordinal)]: stable. *)
Definition ordinal_le (a b : PendingCall) : Prop := (admission_ordinal a ≤ admission_ordinal b)%Z.
#[export] Instance ordinal_le_dec : RelDecision ordinal_le.
Proof. intros a b. apply Z.le_dec. Defined.

(*| adk/execution.rs 430-473 LoopLedgerStore::restore_completed_turn *)
Definition restore_completed_turn (node : string) (turn : list (CompletedCall * Value)) :
    ledger_op unit :=
  nodes ← live;
  match nodes !! node with
  | None => throw InvalidRunState
  | Some state =>
      if existsb (λ c, negb (bool_decide (fst c ∈ completed_calls state))) turn
      then throw InvalidRunState
      else match turn with
      | [] => throw InvalidRunState
      | (first, _) :: _ =>
          let iteration := model_iteration (completed_call first) in
          let admitted := merge_sort ordinal_le
            (map (λ c, completed_call (fst c)) turn ++
             List.filter (λ call, (model_iteration call =? iteration)%Z) (pending_calls state)) in
          set_nodes (<[node := state {{
            conversation ::= λ conversation, conversation ++ map tool_call_content admitted ++
              map (λ c, tool_response_content (completed_call (fst c)) (snd c)) turn;
            conversation_reconstructed := true }}]> nodes)
      end
  end.

(** Some content already carries the call. *)
Definition call_admitted (id : string) (conversation : list Content) : bool :=
  existsb (λ content, existsb (λ part,
    match part with FunctionCall _ _ (Some id') _ => str_eqb id' id | _ => false end)
    (parts content)) conversation.

(** The account of a completed resource read: [Err] is the early return. *)
Definition settle_read (call : PendingCall) (response : Value) (state : LoopState) :
    result ExecutionErrorKind LoopState :=
  match read_input (call_args call), skill_page_byte_len response with
  | Some (skill_id, _, _, _), Some page_bytes =>
      if (default 0 (skill_resource_read_bytes state !! skill_id) <? page_bytes)%Z
      then Err InvalidRunState
      else Ok (state {{ skill_resource_read_reservations ::= delete (call_fingerprint call) }})
  | _, _ => Err InvalidRunState
  end.

(*| adk/execution.rs 475-568 LoopLedgerStore::complete_pending *)
Definition complete_pending (env : PersistEnv) (node : string) (call : PendingCall)
    (response : Value) (max_output_bytes : Z) : ledger_op unit :=
  nodes ← live;
  audits ← gets (λ s, effect_audits (fst s));
  let others := run_total tool_output_bytes (delete node nodes) in
  match nodes !! node with
  | None => throw InvalidRunState
  | Some state =>
      let total := saturating_add (tool_output_bytes state) (str_len (compact response)) in
      if (max_output_bytes <? saturating_add others total)%Z then throw ToolOutputBytesLimit
      else match take_first (λ pending,
          str_eqb (call_id pending) (call_id call) &&
          str_eqb (call_name pending) (call_name call) &&
          str_eqb (call_fingerprint pending) (call_fingerprint call)) (pending_calls state) with
      | None => throw InvalidRunState
      | Some (call, rest) =>
          let is_read := str_eqb (call_name call) "read_skill_resource" in
          if is_read && negb (bool_decide (
               is_some (skill_page_byte_len response) = true ∧
               skill_resource_read_reservations state !! call_fingerprint call =
                 skill_page_byte_len response))
          then throw InvalidRunState
          else
            let state := state {{
              pending_calls := rest; tool_output_bytes := total;
              completed_calls ::= λ l, l ++ [completed audits call response];
              conversation ::= λ l,
                if call_admitted (call_id call) l then l else l ++ [tool_call_content call] }} in
            match (if is_read then settle_read call response state else Ok state) with
            | Err e => set_nodes (<[node := state]> nodes);; throw e
            | Ok state =>
                update_nodes env (<[node := state {{
                  conversation ::= λ l, l ++ [tool_response_content call response] }}]> nodes)
            end
      end
  end.

(*| adk/execution.rs 773-784 LoopLedgerStore::activate_skill *)
Definition activate_skill (env : PersistEnv) (node skill : string) : ledger_op unit :=
  nodes ← live;
  let state := default LoopState_default (nodes !! node) in
  update_nodes env (<[node := state {{ activated_skills ::= λ s, {[skill]} ∪ s }}]> nodes).

(*| adk/execution.rs 786-795 LoopLedgerStore::is_skill_activated *)
Definition is_skill_activated (node skill : string) (st : LoopLedgerStore) : bool :=
  match live_nodes st !! node with
  | Some state => bool_decide (skill ∈ activated_skills state)
  | None => false
  end.

(*| adk/execution.rs 797-854 LoopLedgerStore::reserve_skill_resource_read *)
Definition reserve_skill_resource_read (env : PersistEnv) (node skill fingerprint : string)
    (page_bytes : Z) : ledger_op Z :=
  nodes ← live;
  replaying ← gets (λ s, replaying_skill_resource_reads (fst s));
  match nodes !! node with
  | None => throw InvalidRunState
  | Some state =>
      let read := default 0%Z (skill_resource_read_bytes state !! skill) in
      if bool_decide ((node, fingerprint) ∈ replaying) then mret read
      else match skill_resource_read_reservations state !! fingerprint with
      | Some reserved => if (reserved =? page_bytes)%Z then mret read else throw InvalidRunState
      | None =>
          match checked_add read page_bytes with
          | None => throw Tool
          | Some total =>
              if (SKILL_RESOURCE_READ_LIMIT <? total)%Z then throw Tool
              else
                update_nodes env (<[node := state {{
                  skill_resource_read_bytes ::= insert skill total;
                  skill_resource_read_reservations ::= insert fingerprint page_bytes }}]> nodes);;
                mret total
          end
      end
  end.

(*| adk/execution.rs 856-873 LoopLedgerStore::set_replaying_skill_resource_read *)
Definition set_replaying_skill_resource_read (node fingerprint : string) (replaying : bool)
    (st : LoopLedgerStore) : LoopLedgerStore :=
  st {{ replaying_skill_resource_reads ::= λ reads,
          if replaying then {[(node, fingerprint)]} ∪ reads else reads ∖ {[(node, fingerprint)]} }}.

(** *** Graph frontiers *)

(** One pending node of [admit_frontier]. *)
Definition own_frontier (checkpoint_step : Z) (state : LoopState) :
    result ExecutionErrorKind LoopState :=
  if match invocation state with Some owner => (step owner =? checkpoint_step)%Z | None => false end
  then Ok state
  else if is_some (shared_pending state) || negb (is_nil (pending_calls state))
          || (is_some (invocation state) && negb (finish_admitted state))
  then Err InvalidRunState
  else Ok (state {{
    invocation := Some (mk_Invocation checkpoint_step (length (conversation state))
                          (model_iterations state));
    previous_response_id := None; finish_admitted := false; finished_output := None;
    finish_successor := None }}).

(*| adk/execution/isolated.rs 92-121 LoopLedgerStore::admit_frontier *)
Fixpoint own_frontiers (checkpoint_step : Z) (isolated : gset string) (pending : list string)
    (nodes : Nodes) : result ExecutionErrorKind Nodes :=
  match pending with
  | [] => Ok nodes
  | node :: pending =>
      if bool_decide (node ∈ isolated) then
        state ← own_frontier checkpoint_step (default LoopState_default (nodes !! node));
        own_frontiers checkpoint_step isolated pending (<[node := state]> nodes)
      else own_frontiers checkpoint_step isolated pending nodes
  end.

(** The events are written and the checkpoint is built before the generation is
    persisted: [durable] is that checkpoint, [None] when one of them failed. *)
(*| adk/execution/isolated.rs 80-143 LoopLedgerStore::admit_frontier *)
Definition admit_frontier (env : PersistEnv) (checkpoint_step : Z) (pending_nodes : list string)
    (isolated : gset string) (durable : option DurableCheckpointV1) : ledger_op unit :=
  nodes ← live;
  match own_frontiers checkpoint_step isolated pending_nodes nodes with
  | Err e => throw e
  | Ok next =>
      match durable with
      | None => throw Persistence
      | Some checkpoint => persist_generation env next (Some checkpoint);; set_nodes next
      end
  end.

(** ** The run *)

Record Run := mk_Run {
  ledger : LoopLedgerStore;
  disk : Disk;
  controllers : gmap string LoopState;
  terminal : option ExecutionErrorKind;
  cancellation : bool;
  last_progress : Z
}.

Abbreviation AdkError := string.
Definition run_op (A : Type) : Type := method Run AdkError A.

(** A ledger operation from a callback. *)
Definition on_ledger {A : Type} (op : ledger_op A) : method Run ExecutionErrorKind A := λ run,
  match op (ledger run, disk run) with
  | ((st, d), r) => (run {{ ledger := st; disk := d }}, r)
  end.

(*| adk/execution.rs 1361-1369 record_terminal *)
Definition record_terminal (kind : ExecutionErrorKind) (terminal : option ExecutionErrorKind) :
    option ExecutionErrorKind :=
  match terminal with
  | None => Some kind
  | Some Tool => if bool_decide (kind = ToolTimeLimit) then Some kind else terminal
  | _ => terminal
  end.

(*| adk/execution.rs 1392-1396 LoopController::fail *)
Definition fail {A : Type} (kind : ExecutionErrorKind) (marker : AdkError) : run_op A := λ run,
  (run {{ terminal ::= record_terminal kind; cancellation := true }}, Err marker).

Definition fail_if (b : bool) (kind : ExecutionErrorKind) (marker : AdkError) : run_op unit :=
  if b then fail kind marker else mret tt.

(** [o.ok_or_else(|| self.fail(kind, marker))?]. *)
Definition or_fail {A : Type} (o : option A) (kind : ExecutionErrorKind) (marker : AdkError) :
    run_op A :=
  match o with Some x => mret x | None => fail kind marker end.

(** [.map_err(|_| self.fail(Persistence, "loop ledger unavailable"))?]. *)
Definition persisted {A : Type} (op : ledger_op A) : run_op A := λ run,
  match on_ledger op run with
  | (run, Ok x) => (run, Ok x)
  | (run, Err _) => fail Persistence "loop ledger unavailable" run
  end.

Section node.
Variable limits : RunLimits.
Variable node : string.

(** The controller's own copy of the node's state. *)
Definition own : run_op LoopState :=
  gets (λ run, default LoopState_default (controllers run !! node)).
Definition set_own (state : LoopState) : run_op unit :=
  modify (λ run, run {{ controllers ::= insert node state }}).

(*| adk/execution.rs 1372-1390 LoopController::new *)
Definition controller_new : run_op unit :=
  modify (λ run, run {{ controllers ::= insert node (snapshot node (ledger run)) }}).

(*| adk/execution/isolated.rs 147-167 LoopController::enter_isolated *)
Definition enter_isolated : run_op (option Value) :=
  state ← gets (λ run, snapshot node (ledger run));
  if negb (is_some (invocation state)) then fail InvalidRunState "workflow.loop.invalid_state"
  else set_own state;; mret (finish_successor state).

(** [adk_rust::LlmRequest]: what the callback reads and writes. *)
Record LlmRequest := mk_LlmRequest {
  contents : list Content; request_previous_response_id : option string }.

(*| adk/execution/isolated.rs 191-209 prepare_request *)
Definition prepare_request (owner : Invocation) (state : LoopState) (request : LlmRequest) :
    option (LoopState * LlmRequest * bool) :=
  let start := conversation_start owner in
  let old := conversation state in
  if (length old <? start)%nat then None
  else
    let changed := conversation_reconstructed state || (length old =? start)%nat in
    let state :=
      if conversation_reconstructed state then
        state {{ conversation := firstn start old ++ contents request ++ skipn start old;
                 conversation_reconstructed := false }}
      else if (length old =? start)%nat then
        state {{ conversation := old ++ contents request }}
      else state in
    Some (state, mk_LlmRequest (skipn start (conversation state)) (previous_response_id state),
          changed).

(*| adk/execution.rs 1398-1450 LoopController::before_model *)
Definition before_model (env : PersistEnv) (request : LlmRequest) : run_op LlmRequest :=
  cancelled ← gets cancellation;
  fail_if cancelled Cancelled "workflow.loop.cancelled";;
  state ← own;
  fail_if (max_model_turns limits <=? model_iterations state)%Z
    ModelIterationsLimit "workflow.loop.limit.model_iterations";;
  match invocation state with
  | Some owner =>
      '(state, request, changed) ←
        or_fail (prepare_request owner state request) InvalidRunState "workflow.loop.invalid_state";
      set_own state;;
      (if (changed : bool) then persisted (replace env node state) else mret tt);;
      mret request
  | None =>
      if is_nil (conversation state) then
        let state := state {{ conversation := contents request }} in
        set_own state;;
        persisted (replace env node state);;
        mret request
      else
        let state :=
          if conversation_reconstructed state then
            state {{ conversation ::= λ l, contents request ++ l;
                     conversation_reconstructed := false }}
          else state in
        set_own state;;
        mret (mk_LlmRequest (conversation state) (previous_response_id state))
  end.

(** [adk_rust::LlmResponse]: what the callback reads. *)
Record LlmResponse := mk_LlmResponse {
  response_content : option Content; interaction_id : option string }.

(*| adk/execution.rs 1482-1523 LoopController::observe_model *)
Definition admit_part (allowed : gset string) (next : run_op LoopState) (part : Part) :
    run_op LoopState :=
  next ← next;
  match part with
  | FunctionCall name args id _ =>
      match id with
      | None => throw "model call missing ID"
      | Some id =>
          if str_is_empty id then throw "model call missing ID"
          else
            fail_if (negb (bool_decide (name ∈ allowed))) UnknownTool "model.call.unknown_tool";;
            fail_if (negb (is_object args)) MalformedTool "model.call.malformed_tool";;
            let fingerprint := argument_fingerprint args in
            fail_if (bool_decide (id ∈ seen_ids next)
                     || bool_decide ((name, fingerprint) ∈ seen_calls next))
              NonProgress "workflow.loop.non_progress";;
            let total := saturating_add (total_tool_calls next) 1 in
            mret (next {{
              seen_ids ::= λ s, {[id]} ∪ s;
              seen_calls ::= λ s, {[(name, fingerprint)]} ∪ s;
              total_tool_calls := total;
              tool_calls ::= λ m, <[name := u64_add (default 0 (m !! name))%Z 1]> m;
              pending_calls ::= λ l, l ++ [mk_PendingCall id name args fingerprint
                (u64_add (model_iterations next) 1) total None None] }})
      end
  | _ => mret next
  end.

(*| adk/execution.rs 1524-1529 LoopController::observe_model *)
Definition admit_response (content : Content) (finish : option Value) (interaction : option string)
    (next : LoopState) : LoopState :=
  next {{ finish_admitted := is_some finish; finish_successor := finish; finished_output := finish;
          model_iterations := u64_add (model_iterations next) 1;
          conversation ::= λ l, l ++ [content]; previous_response_id := interaction }}.

Definition limit_marker (kind : ExecutionErrorKind) : AdkError :=
  match kind with
  | TotalToolCallsLimit => "workflow.loop.limit.total_tool_calls"
  | _ => "workflow.loop.limit.per_tool_calls"
  end.

(** [now] is the instant of the callback, in milliseconds. *)
(*| adk/execution.rs 1452-1557 LoopController::observe_model *)
Definition observe_model (env : PersistEnv) (now : Z) (response : LlmResponse)
    (allowed : gset string) : run_op unit :=
  content ← or_fail (response_content response) InvalidOutput "workflow.node.invalid_output";
  progress ← gets last_progress;
  fail_if (max_idle_time_ms limits <=? now - progress)%Z IdleTimeLimit "workflow.loop.timeout.idle";;
  match admitted_finish content with
  | Err _ => fail InvalidOutput "workflow.node.invalid_output"
  | Ok finish =>
      state ← own;
      next ← foldl (admit_part allowed) (mret state) (parts content);
      let next := admit_response content finish (interaction_id response) next in
      limit ← persisted (tool_call_limit env node next limits);
      match limit with
      | Some kind => fail kind (limit_marker kind)
      | None => set_own next;; modify (λ run, run {{ last_progress := now }})
      end
  end.

(** [adk_rust::CallbackContext]: the outcome (success and duration in
    milliseconds), the tool and its input. *)
Record ToolContext := mk_ToolContext {
  tool_outcome : option (bool * Z); tool_name : option string; tool_input : option Value }.

(** The admitted call of the conversation, searched from the end. *)
Definition part_call (id : string) (part : Part) : option (string * Value) :=
  match part with
  | FunctionCall name args (Some id') _ => if str_eqb id' id then Some (name, args) else None
  | _ => None
  end.
Definition find_call (id : string) (conversation : list Content) : option (string * Value) :=
  head (omap (part_call id) (concat (map (λ c, rev (parts c)) (rev conversation)))).

Definition set_call_args (id : string) (args : Value) (part : Part) : option Part :=
  match part with
  | FunctionCall name _ (Some id') signature =>
      if str_eqb id' id then Some (FunctionCall name args (Some id') signature) else None
  | _ => None
  end.
Definition project_call (id : string) (args : Value) (conversation : list Content) : list Content :=
  match modify_first (λ content,
    (λ ps, mk_Content (role content) (rev ps)) <$>
      modify_first (set_call_args id args) (rev (parts content))) (rev conversation) with
  | Some l => rev l
  | None => conversation
  end.

Definition TOOL_FAILED : AdkError := "tool.bridge.failed".

(*| adk/execution.rs 1610-1632 LoopController::observe_tool *)
Definition account_skill_tool (call : PendingCall) (input response : Value) (next : LoopState) :
    run_op LoopState :=
  if str_eqb (call_name call) "activate_skill" then
    skill_id ← or_fail (activate_input input) Tool TOOL_FAILED;
    mret (next {{ activated_skills ::= λ s, {[skill_id]} ∪ s }})
  else if str_eqb (call_name call) "read_skill_resource" then
    _ ← or_fail (read_input input) Tool TOOL_FAILED;
    page_bytes ← or_fail (skill_page_byte_len response) Tool TOOL_FAILED;
    saved ← gets (λ run, snapshot node (ledger run));
    fail_if (negb (bool_decide (skill_resource_read_reservations saved !! call_fingerprint call
                                = Some page_bytes))) Tool TOOL_FAILED;;
    mret (next {{
      skill_resource_read_bytes := skill_resource_read_bytes saved;
      skill_resource_read_reservations :=
        delete (call_fingerprint call) (skill_resource_read_reservations saved) }})
  else mret next.

(*| adk/execution.rs 1633-1657 LoopController::observe_tool *)
Definition project_admitted (raw : bool) (call : PendingCall) (next : LoopState) :
    run_op LoopState :=
  if raw then mret next
  else
    projected ← or_fail (durable_pending_args call) Tool TOOL_FAILED;
    '(admitted_name, admitted_args) ←
      or_fail (find_call (call_id call) (conversation next)) Tool TOOL_FAILED;
    fail_if (negb (str_eqb admitted_name (call_name call))
             || negb (str_eqb (argument_fingerprint admitted_args) (call_fingerprint call)))
      Tool TOOL_FAILED;;
    mret (next {{ conversation ::= project_call (call_id call) projected }}).

(*| adk/execution.rs 1559-1689 LoopController::observe_tool *)
Definition observe_tool (env : PersistEnv) (context : ToolContext) (response : Value) :
    run_op unit :=
  fail_if (match tool_outcome context with
           | Some (_, duration) => (max_tool_time_ms limits <=? duration)%Z
           | None => false
           end) ToolTimeLimit "workflow.loop.timeout.tool";;
  cancelled ← gets cancellation;
  fail_if cancelled Cancelled "workflow.loop.cancelled";;
  outcome ← or_fail (tool_outcome context) Tool TOOL_FAILED;
  fail_if (negb (fst outcome)) Tool TOOL_FAILED;;
  state ← own;
  let next := state {{ tool_output_bytes :=
    saturating_add (tool_output_bytes state) (str_len (compact response)) }} in
  name ← or_fail (tool_name context) Tool TOOL_FAILED;
  input ← or_fail (tool_input context) Tool TOOL_FAILED;
  let fingerprint := argument_fingerprint input in
  '(call, rest) ← or_fail (take_first (λ call,
      str_eqb (call_name call) name && str_eqb (call_fingerprint call) fingerprint)
      (pending_calls next)) Tool TOOL_FAILED;
  next ← account_skill_tool call input response (next {{ pending_calls := rest }});
  raw ← gets (λ run, persist_raw_loop_state (ledger run));
  next ← project_admitted raw call next;
  audits ← gets (λ run, effect_audits (ledger run));
  let next := next {{
    completed_calls ::= λ l, l ++ [completed audits call response];
    conversation ::= λ l, l ++ [tool_response_content call response] }} in
  over ← persisted (output_byte_limit env node next (max_tool_output_bytes limits));
  fail_if over ToolOutputBytesLimit "workflow.loop.limit.tool_output_bytes";;
  set_own next.
End node.
End controller.
