(* ===== verification/LoopLimits.v ===== *)
(** * The run-wide limits of the model loops

    Every node counts its own tool calls and tool output; the limits are the
    run's.  Whatever the nodes' callbacks, the replay of a resumed run and the
    skill tools do, in any order, and whatever fails, the totals over all nodes
    stay within the limits. *)

From S2P Require Import Prelude.
From S2P Require Import Hashing.
From S2P Require Import Runtime.
From S2P Require Import Json.
From S2P Require Import Approval.
From S2P Require Import Event.
From S2P Require Import Serde.
From S2P Require Import Checkpoint.
From S2P Require Import LoopState.
From S2P Require Import LoopLedger.
From S2P Require Import LoopController.

(** ** Sums over a map *)

Section sums.
Context {A : Type}.
Implicit Types (f : A → Z) (m : gmap string A).

Definition total f m : Z := foldr Z.add 0%Z (map (λ e, f (snd e)) (map_to_list m)).

#[export] Instance Zsum_Proper : Proper ((≡ₚ) ==> (=)) (foldr Z.add 0%Z).
Proof. induction 1; cbn; lia. Qed.

Lemma total_empty f : total f ∅ = 0%Z.
Proof. unfold total. by rewrite map_to_list_empty. Qed.

Lemma total_insert_new f m k x : m !! k = None → total f (<[k := x]> m) = (f x + total f m)%Z.
Proof. intros Hk. unfold total. by rewrite map_to_list_insert. Qed.

Lemma total_delete f m k x : m !! k = Some x → total f m = (f x + total f (delete k m))%Z.
Proof.
  intros Hk. rewrite <- (total_insert_new f (delete k m) k x) by apply lookup_delete_eq.
  by rewrite insert_delete_id.
Qed.

Lemma total_insert f m k x :
  total f (<[k := x]> m) = (total f (delete k m) + f x)%Z.
Proof. rewrite <- (insert_delete_eq m k x), total_insert_new by apply lookup_delete_eq. lia. Qed.

Lemma total_nonneg f m : map_Forall (λ _ x, 0 ≤ f x)%Z m → (0 ≤ total f m)%Z.
Proof.
  induction m as [|k x m Hk IH] using map_ind; [by rewrite total_empty|].
  rewrite map_Forall_insert, total_insert_new by done. intros [Hx Hm]. specialize (IH Hm). lia.
Qed.

Lemma total_lookup f m k x :
  map_Forall (λ _ x, 0 ≤ f x)%Z m → m !! k = Some x → (f x ≤ total f m)%Z.
Proof.
  intros Hm Hk. rewrite (total_delete _ _ _ _ Hk).
  enough (0 ≤ total f (delete k m))%Z by lia. apply total_nonneg. by apply map_Forall_delete.
Qed.

(** Replacing an entry by one that counts no more. *)
Lemma total_insert_le f m k x :
  (f x ≤ match m !! k with Some y => f y | None => 0 end)%Z →
  (total f (<[k := x]> m) ≤ total f m)%Z.
Proof.
  rewrite total_insert. destruct (m !! k) as [y|] eqn:Hk.
  - rewrite (total_delete f m k y) by done. lia.
  - rewrite delete_id by done. lia.
Qed.

Lemma total_Permutation f m l :
  l ≡ₚ map snd (map_to_list m) → foldr Z.add 0%Z (map f l) = total f m.
Proof. intros ->. unfold total. by rewrite map_map. Qed.

(** *** Saturation *)

Lemma saturating_add_nonneg a b : (0 ≤ a → 0 ≤ b → 0 ≤ saturating_add a b)%Z.
Proof. unfold saturating_add. unfold_u64. lia. Qed.

Lemma saturating_foldl l acc :
  (0 ≤ acc)%Z → Forall (λ x, 0 ≤ x)%Z l →
  foldl saturating_add (Z.min acc u64_max) l = Z.min (acc + foldr Z.add 0%Z l) u64_max.
Proof.
  intros Hacc Hl. revert acc Hacc. induction Hl as [|x l Hx _ IH]; intros acc Hacc; cbn.
  - by rewrite Z.add_0_r.
  - assert (saturating_add (Z.min acc u64_max) x = Z.min (acc + x) u64_max) as ->
      by (unfold saturating_add; lia).
    rewrite IH by lia. f_equal. lia.
Qed.

Lemma saturating_sum_min l :
  Forall (λ x, 0 ≤ x)%Z l → saturating_sum l = Z.min (foldr Z.add 0%Z l) u64_max.
Proof.
  intros Hl. unfold saturating_sum. change 0%Z with (Z.min 0 u64_max) at 1.
  by rewrite saturating_foldl.
Qed.
End sums.

Section limits.
Context `{AdkContent, !ToolInputs, Sha256} `{!EqDecision json_number} `{!IntJson}.
Context `{!Serde Value, !Serde CheckpointManifestV1, !Serde (list string)}.
Context `{!Serde LoopLedgerV1, !Serde (Z * gmap string LoopState), !Serde (gmap string Value)}.

Abbreviation Nodes := (gmap string LoopState).
Implicit Types (state : LoopState) (nodes : Nodes) (run : Run).

(** ** What the limits count *)

Inductive counter := Calls | OutputBytes | CallsOf (tool : string).

Definition count (k : counter) (state : LoopState) : Z :=
  match k with
  | Calls => total_tool_calls state
  | OutputBytes => tool_output_bytes state
  | CallsOf tool => default 0%Z (tool_calls state !! tool)
  end.

Definition limit (limits : RunLimits) (k : counter) : Z :=
  match k with
  | Calls => max_tool_calls limits
  | OutputBytes => max_tool_output_bytes limits
  | CallsOf _ => max_calls_per_tool limits
  end.

(** A state's counters: no negative count, no tool called more often than all
    tools together, and every account of read bytes within the limit. *)
Record counted state : Prop := {
  counted_nonneg k : (0 ≤ count k state)%Z;
  counted_tool tool : (count (CallsOf tool) state ≤ total_tool_calls state)%Z;
  counted_reads skill n : skill_resource_read_bytes state !! skill = Some n →
    (n ≤ SKILL_RESOURCE_READ_LIMIT)%Z
}.

Lemma counted_default : counted LoopState_default.
Proof.
  split; [intros []|intros tool|intros skill n]; cbn; rewrite ?lookup_empty; cbn; (lia || done).
Qed.

(** Two states with the same counters and accounts. *)
Definition same_counts state state' : Prop :=
  total_tool_calls state' = total_tool_calls state ∧
  tool_output_bytes state' = tool_output_bytes state ∧ tool_calls state' = tool_calls state ∧
  skill_resource_read_bytes state' = skill_resource_read_bytes state.

Lemma same_counts_count state state' k : same_counts state state' → count k state' = count k state.
Proof. intros (Ht & Hb & Hc & _). destruct k; cbn; by rewrite ?Hc. Qed.

Lemma counted_same state state' : same_counts state state' → counted state → counted state'.
Proof.
  intros Hs [Hn Ht Hr]. split.
  - intros k. by rewrite (same_counts_count _ _ _ Hs).
  - intros tool. rewrite (same_counts_count _ _ _ Hs). destruct Hs as (-> & _). apply Ht.
  - destruct Hs as (_ & _ & _ & ->). apply Hr.
Qed.

Definition all_counted nodes : Prop := map_Forall (λ _ state, counted state) nodes.

(** ** What the checks compute *)

Lemma btree_values_Permutation nodes : btree_values nodes ≡ₚ map snd (map_to_list nodes).
Proof. unfold btree_values, btree_entries. by rewrite sort_by_key_Permutation. Qed.

Lemma Forall_btree_values (P : LoopState → Prop) nodes :
  map_Forall (λ _ state, P state) nodes → Forall P (btree_values nodes).
Proof.
  intros Hm. rewrite btree_values_Permutation, Forall_forall. intros state Hs.
  apply list_elem_of_fmap in Hs as ([k s] & -> & Hk%elem_of_map_to_list). by apply (Hm k).
Qed.

Definition nonneg nodes : Prop := map_Forall (λ _ state, ∀ k, 0 ≤ count k state)%Z nodes.

Lemma all_counted_counts nodes : all_counted nodes → nonneg nodes.
Proof. intros Hc n state Hn. apply (Hc n state Hn). Qed.

Lemma run_total_min k nodes :
  nonneg nodes → run_total (count k) nodes = Z.min (total (count k) nodes) u64_max.
Proof.
  intros Hc. unfold run_total. rewrite saturating_sum_min.
  - by rewrite (total_Permutation _ nodes) by apply btree_values_Permutation.
  - apply Forall_map, Forall_btree_values. intros n state Hn. apply (Hc n state Hn).
Qed.

(** Adding the counts of one state. *)
Lemma add_counts_lookup per_tool state tool :
  (∀ k, 0 ≤ count k state)%Z → (∀ t, 0 ≤ default 0%Z (per_tool !! t) ≤ u64_max)%Z →
  default 0%Z (add_counts per_tool state !! tool) =
    Z.min (default 0%Z (per_tool !! tool) + count (CallsOf tool) state) u64_max.
Proof.
  intros Hc Hp. unfold add_counts. cbn [count].
  assert (Hgen : ∀ l (acc : gmap string Z), NoDup (map fst l) →
    (∀ t c, (t, c) ∈ l → 0 ≤ c)%Z → (∀ t, 0 ≤ default 0%Z (acc !! t) ≤ u64_max)%Z →
    default 0%Z (foldl (λ acc '(t, c), <[t := saturating_add (default 0%Z (acc !! t))%Z c]> acc) acc l
                   !! tool) =
      Z.min (default 0%Z (acc !! tool) + default 0%Z ((list_to_map l : gmap string Z) !! tool)) u64_max).
  { induction l as [|[t c] l IH]; intros acc Hnd Hl Hacc; cbn.
    - rewrite lookup_empty. cbn. specialize (Hacc tool). lia.
    - cbn in Hnd. apply NoDup_cons in Hnd as [Ht Hnd].
      assert (0 ≤ c)%Z by (apply (Hl t); left).
      rewrite IH; [|done| |].
      + destruct (decide (t = tool)) as [->|Hne].
        * rewrite !lookup_insert_eq. cbn. specialize (Hacc tool).
          rewrite not_elem_of_list_to_map_1 by done. cbn. unfold saturating_add. lia.
        * by rewrite !lookup_insert_ne.
      + intros t' c' Hin. apply (Hl t'). by right.
      + intros t'. destruct (decide (t = t')) as [->|Hne].
        * rewrite lookup_insert_eq. cbn. specialize (Hacc t'). unfold saturating_add.
          unfold_u64. lia.
        * by rewrite lookup_insert_ne. }
  rewrite Hgen; [|apply NoDup_fst_map_to_list| |done].
  - by rewrite list_to_map_to_list.
  - intros t c Hin%elem_of_map_to_list. pose proof (Hc (CallsOf t)) as Hn.
    cbn in Hn. by rewrite Hin in Hn.
Qed.

Lemma per_tool_calls_lookup nodes tool :
  nonneg nodes →
  default 0%Z (per_tool_calls nodes !! tool) =
    Z.min (total (count (CallsOf tool)) nodes) u64_max.
Proof.
  intros Hc. unfold per_tool_calls.
  rewrite <- (total_Permutation (count (CallsOf tool)) nodes (btree_values nodes)) by apply btree_values_Permutation.
  pose proof (Forall_btree_values _ _ Hc) as Hf. revert Hf.
  assert (Hgen : ∀ l (acc : gmap string Z) (sum : string → Z), Forall (λ state, ∀ k, 0 ≤ count k state)%Z l →
    (∀ t, 0 ≤ sum t)%Z → (∀ t, default 0%Z (acc !! t) = Z.min (sum t) u64_max) →
    default 0%Z (foldl add_counts acc l !! tool) =
      Z.min (sum tool + foldr Z.add 0%Z (map (count (CallsOf tool)) l)) u64_max).
  { induction l as [|state l IH]; intros acc sum Hl Hsum Hacc; cbn.
    - by rewrite Hacc, Z.add_0_r.
    - apply Forall_cons in Hl as [Hs Hl].
      assert (Hb : ∀ t, (0 ≤ default 0%Z (acc !! t) ≤ u64_max)%Z).
      { intros t. rewrite Hacc. specialize (Hsum t). unfold_u64. lia. }
      rewrite (IH _ (λ t, sum t + count (CallsOf t) state)%Z Hl).
      + unfold count. f_equal. lia.
      + intros t. pose proof (Hs (CallsOf t)). specialize (Hsum t). lia.
      + intros t. rewrite add_counts_lookup by done. rewrite Hacc.
        pose proof (Hs (CallsOf t)). specialize (Hsum t). lia. }
  intros Hf. by rewrite (Hgen _ ∅ (λ _, 0%Z)).
Qed.

(** ** The invariant *)

#[local] Arguments count : simpl never.

Variable limits : RunLimits.
Hypothesis limits_small : ∀ k, (limit limits k < u64_max)%Z.

Definition within nodes : Prop := ∀ k, (total (count k) nodes ≤ limit limits k)%Z.

(** The ledger's states [L] are within the limits, and a controller's copy in
    [C] counts no more than the ledger does for its node. *)
Record limited (L C : Nodes) : Prop := {
  limited_live : all_counted L;
  limited_own : all_counted C;
  limited_within : within L;
  limited_dominated n c k : C !! n = Some c →
    (count k c ≤ count k (default LoopState_default (L !! n)))%Z
}.

Lemma count_default k : count k LoopState_default = 0%Z.
Proof. destruct k; unfold count; cbn; by rewrite ?lookup_empty. Qed.

(** The copy of a node, the default one when it has none. *)
Lemma limited_copy L C n :
  limited L C → counted (default LoopState_default (C !! n)) ∧
  ∀ k, (count k (default LoopState_default (C !! n)) ≤
        count k (default LoopState_default (L !! n)))%Z.
Proof.
  intros [HL HC _ Hd]. destruct (C !! n) as [c|] eqn:Hc; cbn.
  - split; [by apply (HC n)|]. intros k. by apply Hd.
  - split; [apply counted_default|]. intros k. rewrite count_default.
    destruct (L !! n) as [s|] eqn:Hs; cbn; [apply (HL n s Hs)|by rewrite count_default].
Qed.

(** A new state of a node in the ledger. *)
Lemma limited_store L C n s :
  limited L C → counted s → within (<[n := s]> L) →
  (∀ c k, C !! n = Some c → count k c ≤ count k s)%Z → limited (<[n := s]> L) C.
Proof.
  intros [HL HC Hw Hd] Hs Hin Hcopy. split; [by apply map_Forall_insert_2|done|done|].
  intros n' c k Hc. destruct (decide (n = n')) as [->|Hne].
  - rewrite lookup_insert_eq. by apply Hcopy.
  - rewrite lookup_insert_ne by done. by apply Hd.
Qed.

(** A new copy of a node that counts no more than the ledger. *)
Lemma limited_copied L C n c :
  limited L C → counted c →
  (∀ k, count k c ≤ count k (default LoopState_default (L !! n)))%Z → limited L (<[n := c]> C).
Proof.
  intros [HL HC Hw Hd] Hs Hle. split; [done|by apply map_Forall_insert_2|done|].
  intros n' c' k. destruct (decide (n = n')) as [->|Hne].
  - rewrite lookup_insert_eq. intros [= <-]. apply Hle.
  - rewrite lookup_insert_ne by done. apply Hd.
Qed.

(** Storing what counts no more keeps the totals. *)
Lemma within_le L n s k :
  within L → (count k s ≤ count k (default LoopState_default (L !! n)))%Z →
  (total (count k) (<[n := s]> L) ≤ limit limits k)%Z.
Proof.
  intros Hw Hle. etrans; [|apply Hw]. apply total_insert_le.
  destruct (L !! n); cbn in Hle; [done|]. by rewrite count_default in Hle.
Qed.

(** ** Ledger operations *)

(** Persisting leaves the states in memory alone. *)
Lemma persist_generation_live env nodes frontier s s' r :
  persist_generation env nodes frontier s = (s', r) →
  live_nodes (fst s') = live_nodes (fst s).
Proof.
  destruct s as [st d]. unfold persist_generation. intros E.
  repeat case_match; simplify_eq; done.
Qed.

Lemma update_nodes_live env nodes s s' r :
  update_nodes env nodes s = (s', r) → live_nodes (fst s') = nodes.
Proof.
  destruct s as [st d]. intros E.
  exact (persist_generation_live env nodes None (st {{ live_nodes := nodes }}, d) s' r E).
Qed.

(** [op] keeps the invariant for the controllers' copies [C], whatever its
    outcome. *)
Definition keeps {A : Type} (C : Nodes) (op : ledger_op A) : Prop :=
  ∀ s s' r, limited (live_nodes (fst s)) C → op s = (s', r) → limited (live_nodes (fst s')) C.

(** A node's state is stored with the same counts. *)
Lemma limited_same L C n s s' :
  limited L C → s = default LoopState_default (L !! n) → same_counts s s' →
  limited (<[n := s']> L) C.
Proof.
  intros Hl -> Hs. set (s := default LoopState_default (L !! n)) in *.
  assert (counted s) as Hcs.
  { subst s. destruct (L !! n) as [s|] eqn:E; cbn; [|apply counted_default].
    by apply (limited_live _ _ Hl n). }
  apply limited_store; [done|by apply (counted_same s)| |].
  - intros k. apply within_le; [apply Hl|]. by rewrite (same_counts_count s s').
  - intros c k Hc. rewrite (same_counts_count s s') by done. by apply (limited_dominated _ _ Hl).
Qed.

Lemma keeps_same env C n s' s0 s1 r :
  limited (live_nodes (fst s0)) C →
  same_counts (default LoopState_default (live_nodes (fst s0) !! n)) s' →
  update_nodes env (<[n := s']> (live_nodes (fst s0))) s0 = (s1, r) →
  limited (live_nodes (fst s1)) C.
Proof. intros Hl Hs ->%update_nodes_live. by eapply limited_same. Qed.

Lemma same_counts_refl s : same_counts s s.
Proof. done. Qed.

(** The result of an operation that first reads the live states. *)
Ltac ledger_run E :=
  unfold live, gets, mbind, method_bind in E; cbn beta iota in E.

Lemma activate_skill_keeps env node skill C : keeps C (activate_skill env node skill).
Proof.
  intros s s' r Hl E. unfold activate_skill in E. ledger_run E.
  by eapply keeps_same in E.
Qed.

Lemma replace_keeps env node state C s s' r :
  limited (live_nodes (fst s)) C → counted state →
  (∀ k, count k state ≤ count k (default LoopState_default (live_nodes (fst s) !! node)))%Z →
  (∀ c k, C !! node = Some c → count k c ≤ count k state)%Z →
  replace env node state s = (s', r) → limited (live_nodes (fst s')) C.
Proof.
  intros Hl Hc Hle Hcopy E. unfold replace in E. ledger_run E. apply update_nodes_live in E.
  rewrite E. apply limited_store; [done..| |done]. intros k. apply within_le; [apply Hl|done].
Qed.

Lemma restore_completed_turn_keeps node turn C : keeps C (restore_completed_turn node turn).
Proof.
  intros s s' r Hl E. unfold restore_completed_turn in E. ledger_run E.
  destruct (live_nodes (fst s) !! node) as [state|] eqn:Hn; [|by injection E as <- <-].
  case_match; [by injection E as <- <-|]. destruct turn as [|[first v] turn]; [by injection E as <- <-|].
  destruct s as [st d]. injection E as <- <-. cbn in *.
  eapply limited_same; [done|by rewrite Hn|done].
Qed.

Lemma reserve_keeps env node skill fingerprint page_bytes C :
  keeps C (reserve_skill_resource_read env node skill fingerprint page_bytes).
Proof.
  intros s s' r Hl E. unfold reserve_skill_resource_read in E. ledger_run E.
  destruct (live_nodes (fst s) !! node) as [state|] eqn:Hn; [|by injection E as <- <-].
  case_match; [by injection E as <- <-|].
  destruct (_ !! fingerprint); [case_match; by injection E as <- <-|].
  destruct (checked_add _ _) as [n|]; [|by injection E as <- <-].
  case_match eqn:Hlimit; [by injection E as <- <-|]. apply Z.ltb_ge in Hlimit.
  set (state' := state {{ skill_resource_read_bytes ::= _; skill_resource_read_reservations ::= _ }}) in E.
  destruct (update_nodes _ _ _) as [s1 r1] eqn:Eu.
  apply update_nodes_live in Eu.
  assert (Hgoal : limited (live_nodes (fst s1)) C).
  { assert (Hc : ∀ k, count k state' = count k state) by (by intros []).
    pose proof (limited_live _ _ Hl node state Hn) as [Hs1 Hs2 Hs3].
    rewrite Eu. apply limited_store; [done| | |].
    - split.
      + intros k. rewrite Hc. apply Hs1.
      + intros tool. rewrite Hc. apply Hs2.
      + intros skill' m. cbn. rewrite lookup_insert_Some. intros [[_ <-]|[_ Hm]]; [done|].
        by apply (Hs3 skill').
    - intros k. apply within_le; [apply Hl|]. by rewrite Hc, Hn.
    - intros c k Hk. rewrite Hc. pose proof (limited_dominated _ _ Hl _ _ k Hk) as Hd.
      by rewrite Hn in Hd. }
  destruct r1; by injection E as <- <-.
Qed.

Lemma own_frontiers_limited step isolated pending C L L' :
  limited L C → own_frontiers step isolated pending L = Ok L' → limited L' C.
Proof.
  revert L. induction pending as [|n pending IH]; intros L Hl; cbn; [by intros [= <-]|].
  case_bool_decide; [|by apply IH]. rewrite bind_Ok. intros (s & Hs & HL').
  eapply IH; [|exact HL']. eapply limited_same; [done|done|].
  unfold own_frontier in Hs. repeat case_match; by simplify_eq.
Qed.

Lemma admit_frontier_keeps env step pending isolated durable C :
  keeps C (admit_frontier env step pending isolated durable).
Proof.
  intros s s' r Hl E. unfold admit_frontier in E. ledger_run E.
  destruct (own_frontiers _ _ _ _) as [next|] eqn:Ho; [|by injection E as <- <-].
  destruct durable as [c|]; [|by injection E as <- <-].
  destruct (persist_generation _ _ _ _) as [s1 r1] eqn:Ep.
  apply persist_generation_live in Ep. destruct r1; [|injection E as <- <-; by rewrite Ep].
  unfold set_nodes, modify in E. destruct s1 as [st d]. injection E as <- <-.
  by eapply own_frontiers_limited.
Qed.

Lemma complete_pending_keeps env node call response C :
  keeps C (complete_pending env node call response (max_tool_output_bytes limits)).
Proof.
  intros s s' r Hl E. unfold complete_pending in E. ledger_run E.
  destruct (live_nodes (fst s) !! node) as [state|] eqn:Hn; [|by injection E as <- <-].
  case_match eqn:Hlimit; [by injection E as <- <-|]. apply Z.ltb_ge in Hlimit.
  destruct (take_first _ _) as [[pending rest]|]; [|by injection E as <- <-].
  case_match eqn:Hread; [by injection E as <- <-|].
  set (n := saturating_add (tool_output_bytes state) (str_len (compact response))) in *.
  pose proof (limited_live _ _ Hl node state Hn) as Hcs.
  assert (Hgoal : ∀ state', total_tool_calls state' = total_tool_calls state →
    tool_calls state' = tool_calls state → tool_output_bytes state' = n →
    skill_resource_read_bytes state' = skill_resource_read_bytes state →
    limited (<[node := state']> (live_nodes (fst s))) C).
  { intros state' Ht Hc Hb Hr.
    assert (Hbytes : (tool_output_bytes state ≤ n)%Z).
    { subst n. pose proof (counted_nonneg _ Hcs OutputBytes) as Hnn. cbn in Hnn.
      assert (tool_output_bytes state ≤ u64_max)%Z.
      { etrans; [|apply Z.lt_le_incl, (limits_small OutputBytes)].
        etrans; [|apply (limited_within _ _ Hl OutputBytes)].
        apply (total_lookup (count OutputBytes) _ node state); [|done].
        intros n' x Hx. apply (limited_live _ _ Hl n' x Hx). }
      unfold saturating_add, str_len. lia. }
    assert (Hk : ∀ k, (count k state ≤ count k state')%Z).
    { intros []; unfold count; rewrite ?Ht, ?Hc, ?Hb; lia. }
    apply limited_store; [done| | |].
    - destruct Hcs as [Hc1 Hc2 Hc3]. split.
      + intros k. specialize (Hc1 k). specialize (Hk k). lia.
      + intros tool. unfold count. rewrite Ht, Hc. apply Hc2.
      + by rewrite Hr.
    - intros k. destruct k as [| |tool].
      + apply within_le; [apply Hl|]. unfold count. by rewrite Ht, Hn.
      + rewrite total_insert. unfold count at 2. rewrite Hb.
        change tool_output_bytes with (count OutputBytes) in Hlimit at 1.
        rewrite run_total_min in Hlimit.
        * pose proof (limits_small OutputBytes) as Hs. cbn [limit] in *.
          pose proof (counted_nonneg _ Hcs OutputBytes) as Hnn. unfold count in Hnn.
          unfold saturating_add in Hlimit. lia.
        * intros n' x [_ Hx]%lookup_delete_Some. apply (limited_live _ _ Hl n' x Hx).
      + apply within_le; [apply Hl|]. unfold count. by rewrite Hc, Hn.
    - intros c k Hc'. etrans; [|apply Hk].
      pose proof (limited_dominated _ _ Hl _ _ k Hc') as Hd. by rewrite Hn in Hd. }
  match type of E with context [settle_read pending response ?x] => set (state1 := x) in E end.
  assert (Hst1 : total_tool_calls state1 = total_tool_calls state ∧
    tool_calls state1 = tool_calls state ∧ tool_output_bytes state1 = n ∧
    skill_resource_read_bytes state1 = skill_resource_read_bytes state) by done.
  assert (Hst2 : ∀ state2, settle_read pending response state1 = Ok state2 →
    total_tool_calls state2 = total_tool_calls state ∧
    tool_calls state2 = tool_calls state ∧ tool_output_bytes state2 = n ∧
    skill_resource_read_bytes state2 = skill_resource_read_bytes state).
  { unfold settle_read. intros state2. repeat case_match; by intros [= <-]. }
  destruct (if str_eqb (call_name pending) "read_skill_resource" then _ else _) as [state2|e] eqn:Es.
  - apply update_nodes_live in E. rewrite E.
    destruct (str_eqb (call_name pending) "read_skill_resource").
    + apply Hst2 in Es as (? & ? & ? & ?). by apply Hgoal.
    + injection Es as <-. destruct Hst1 as (? & ? & ? & ?). by apply Hgoal.
  - destruct s as [st d]. injection E as <- <-. destruct Hst1 as (? & ? & ? & ?). by apply Hgoal.
Qed.
(** ** Callbacks *)

Definition live_of run : Nodes := live_nodes (ledger run).
Definition lim run : Prop := limited (live_of run) (controllers run).

(** [m] keeps the invariant, whatever its outcome. *)
Definition calm {A : Type} (m : run_op A) (run : Run) : Prop :=
  wp m (λ _ run', lim run') (λ _ run', lim run') run.

Lemma lim_fail run kind :
  lim run → lim (run {{ terminal ::= record_terminal kind; cancellation := true }}).
Proof. done. Qed.

Lemma calm_fail {A} run kind marker : lim run → calm (A := A) (fail kind marker) run.
Proof. by intros Hl%(lim_fail _ kind). Qed.

Lemma wp_fail_if (b : bool) kind marker (Q : unit → Run → Prop) (R : string → Run → Prop) run :
  (b = false → Q tt run) →
  R marker (run {{ terminal ::= record_terminal kind; cancellation := true }}) →
  wp (fail_if b kind marker) Q R run.
Proof. destruct b; cbn; auto. Qed.

Lemma wp_or_fail {A} (o : option A) kind marker (Q : A → Run → Prop) (R : string → Run → Prop) run :
  (∀ x, o = Some x → Q x run) →
  R marker (run {{ terminal ::= record_terminal kind; cancellation := true }}) →
  wp (or_fail o kind marker) Q R run.
Proof. destruct o; cbn; auto. Qed.

(** A ledger operation that keeps the invariant for the run's controllers. *)
Lemma wp_persisted {A} (op : ledger_op A) (Q : A → Run → Prop) run :
  (∀ s' r, op (ledger run, disk run) = (s', r) →
     let run' := run {{ ledger := fst s'; disk := snd s' }} in
     lim run' ∧ ∀ x, r = Ok x → Q x run') →
  wp (persisted op) Q (λ _ run', lim run') run.
Proof.
  intros Hop. unfold wp, persisted, on_ledger. destruct (op _) as [[st d] r] eqn:E.
  destruct (Hop _ _ eq_refl) as [Hl Hq]. destruct r; [by apply Hq|]. exact Hl.
Qed.

Lemma calm_persisted {A} (op : ledger_op A) run :
  lim run → (∀ C, keeps C op) → calm (persisted op) run.
Proof.
  intros Hl Hop. apply wp_persisted. intros s' r E. cbn.
  assert (limited (live_nodes (fst s')) (controllers run)) by exact (Hop (controllers run) (ledger run, disk run) s' r Hl E).
  by split.
Qed.

Lemma snapshot_live run node :
  snapshot node (ledger run) = default LoopState_default (live_of run !! node).
Proof. done. Qed.

Lemma counted_snapshot run node : lim run → counted (snapshot node (ledger run)).
Proof.
  intros Hl. rewrite snapshot_live. destruct (live_of run !! node) as [s|] eqn:E; cbn;
    [by apply (limited_live _ _ Hl node)|apply counted_default].
Qed.

Lemma calm_new node run : lim run → calm (controller_new node) run.
Proof.
  intros Hl. apply wp_modify. unfold lim, live_of. cbn.
  apply limited_copied; [done|by apply counted_snapshot|done].
Qed.

Lemma calm_set_own node c run :
  lim run → counted c → (∀ k, count k c ≤ count k (snapshot node (ledger run)))%Z →
  lim (run {{ controllers ::= insert node c }}).
Proof. intros Hl Hc Hle. by apply limited_copied. Qed.

Lemma calm_enter node run : lim run → calm (enter_isolated node) run.
Proof.
  intros Hl. unfold enter_isolated, calm. apply wp_bind, wp_gets, wp_if; [by intros _; apply calm_fail|].
  intros _. apply wp_bind, wp_modify, wp_ret. apply calm_set_own; [done|by apply counted_snapshot|done].
Qed.

(** Storing the controller's new copy in the ledger. *)
Lemma calm_replace env node c run :
  lim run → counted c → (∀ k, count k c ≤ count k (snapshot node (ledger run)))%Z →
  controllers run !! node = Some c → calm (persisted (replace env node c)) run.
Proof.
  intros Hl Hc Hle Hown. apply wp_persisted. intros s' r E. cbn.
  assert (limited (live_nodes (fst s')) (controllers run)); [|by split].
  eapply (replace_keeps env node c _ (ledger run, disk run)); [done|done|done| |exact E].
  intros c' k Hc'. rewrite Hown in Hc'. by injection Hc' as <-.
Qed.

Lemma calm_before_model node env request run : lim run → calm (before_model limits node env request) run.
Proof.
  intros Hl. unfold before_model, calm. apply wp_bind, wp_gets, wp_bind, wp_fail_if; [|done]. intros _.
  apply wp_bind, wp_gets.
  set (c := default LoopState_default (controllers run !! node)).
  destruct (limited_copy _ _ node Hl) as [Hc Hle]. fold c in Hc, Hle.
  apply wp_bind, wp_fail_if; [intros _|done].
  assert (Hset : ∀ c', same_counts c c' → lim (run {{ controllers ::= insert node c' }}) ∧ counted c' ∧
    ∀ k, (count k c' ≤ count k (snapshot node (ledger run)))%Z).
  { intros c' Hs. assert (Hle' : ∀ k, (count k c' ≤ count k (snapshot node (ledger run)))%Z)
      by (intros k; by rewrite (same_counts_count c c')).
    assert (counted c') by by apply (counted_same c). split; [by apply calm_set_own|done]. }
  assert (Hrep : ∀ c', same_counts c c' →
    calm (persisted (replace env node c')) (run {{ controllers ::= insert node c' }})).
  { intros c' Hs. destruct (Hset c' Hs) as (Hl' & Hc' & Hle').
    apply calm_replace; [done..|]. cbn. by rewrite lookup_insert_eq. }
  destruct (invocation c) as [owner|].
  - apply wp_bind, wp_or_fail; [|done]. intros [[c' request'] changed] Hp.
    assert (Hs : same_counts c c') by (unfold prepare_request in Hp; repeat case_match; by simplify_eq).
    apply wp_bind, wp_modify, wp_bind. destruct changed.
    + eapply wp_mono; [| |by apply Hrep]; [|done]. by intros [] run' Hl'.
    + apply wp_ret, wp_ret. by apply Hset.
  - apply wp_if.
    + intros _. apply wp_bind, wp_modify, wp_bind.
      eapply wp_mono; [| |by apply Hrep]; [|done]. by intros [] run' Hl'.
    + intros _. apply wp_bind, wp_modify, wp_ret. apply Hset. by case_match.
Qed.
(** *** Admission *)

(** [next] is [base] after some admissions. *)
Record grown base next : Prop := {
  grown_bytes : tool_output_bytes next = tool_output_bytes base;
  grown_reads : skill_resource_read_bytes next = skill_resource_read_bytes base;
  grown_nonneg k : (0 ≤ count k next)%Z;
  grown_total : (total_tool_calls next < u64_max → total_tool_calls base ≤ total_tool_calls next)%Z;
  grown_tools tool : (total_tool_calls next < u64_max →
    count (CallsOf tool) base ≤ count (CallsOf tool) next ≤
    count (CallsOf tool) base + (total_tool_calls next - total_tool_calls base))%Z
}.

Lemma grown_refl base : counted base → grown base base.
Proof. intros [Hn Ht Hr]. split; [done|done|done|lia|intros tool; lia]. Qed.

Lemma grown_admit base next next' name :
  counted base → grown base next →
  total_tool_calls next' = saturating_add (total_tool_calls next) 1 →
  tool_calls next' = <[name := u64_add (default 0%Z (tool_calls next !! name)) 1]> (tool_calls next) →
  tool_output_bytes next' = tool_output_bytes next →
  skill_resource_read_bytes next' = skill_resource_read_bytes next → grown base next'.
Proof.
  intros Hb [Hby Hrd Hn Ht Htools] Ht' Hc' Hby' Hrd'.
  pose proof (Hn Calls) as Hn0. unfold count in Hn0.
  assert (Hone : (total_tool_calls next' < u64_max →
    total_tool_calls next' = total_tool_calls next + 1 ∧ total_tool_calls next < u64_max)%Z)
    by (rewrite Ht'; unfold saturating_add; lia).
  assert (Hadd : ∀ a, (0 ≤ u64_add a 1)%Z) by (intros a; apply Z.mod_pos_bound; unfold_u64; lia).
  split.
  - by rewrite Hby'.
  - by rewrite Hrd'.
  - intros [| |tool]; unfold count.
    + rewrite Ht'. by apply saturating_add_nonneg.
    + rewrite Hby'. apply (Hn OutputBytes).
    + rewrite Hc'. destruct (decide (name = tool)) as [->|Hne].
      * rewrite lookup_insert_eq. apply Hadd.
      * rewrite lookup_insert_ne by done. apply (Hn (CallsOf tool)).
  - intros Hlt. destruct (Hone Hlt) as [-> Hlt']. specialize (Ht Hlt'). lia.
  - intros tool Hlt. destruct (Hone Hlt) as [Heq Hlt']. specialize (Htools tool Hlt').
    specialize (Ht Hlt'). pose proof (counted_tool _ Hb tool) as Hle.
    unfold count in *. rewrite Heq, Hc'. destruct (decide (name = tool)) as [->|Hne].
    + pose proof (Hn (CallsOf tool)) as Hnt. unfold count in Hnt.
      assert (∀ z : Z, default 0%Z (Some z) = z) as Hd by done.
      rewrite lookup_insert_eq, Hd, u64_add_small; unfold_u64; lia.
    + rewrite lookup_insert_ne by done. lia.
Qed.

Definition view run : Nodes * Nodes := (live_of run, controllers run).

Lemma wp_admit_part allowed part base next V run :
  counted base → grown base next → view run = V →
  wp (admit_part allowed (mret next) part) (λ next' run', grown base next' ∧ view run' = V)
    (λ _ run', view run' = V) run.
Proof.
  intros Hb Hg Hv. unfold admit_part. apply wp_bind, wp_ret.
  destruct part as [|name args [id|] sig| |]; try (by apply wp_ret); try (by apply wp_throw).
  apply wp_if; [by intros _; apply wp_throw|]. intros _.
  apply wp_bind, wp_fail_if; [intros _|done]. apply wp_bind, wp_fail_if; [intros _|done].
  apply wp_bind, wp_fail_if; [intros _|done]. apply wp_ret. split; [|done].
  by eapply (grown_admit base next _ name).
Qed.

Lemma wp_admit allowed ps base (m : run_op LoopState) V run :
  counted base →
  wp m (λ next run', grown base next ∧ view run' = V) (λ _ run', view run' = V) run →
  wp (foldl (admit_part allowed) m ps) (λ next run', grown base next ∧ view run' = V)
    (λ _ run', view run' = V) run.
Proof.
  intros Hb. revert m. induction ps as [|part ps IH]; intros m Hm; [done|]. cbn. apply IH.
  assert (Hbind : admit_part allowed m part = m ≫= λ next, admit_part allowed (mret next) part) by done.
  rewrite Hbind. apply wp_bind. eapply wp_mono; [| |exact Hm]; [|done].
  intros next run' [Hg Hv]. by apply wp_admit_part.
Qed.

(** The candidate of a node the ledger has: when the limits admit it, it is
    stored, and it is within them. *)
Lemma tool_call_limit_spec env node base next C s s' r :
  limited (live_nodes (fst s)) C → is_Some (live_nodes (fst s) !! node) →
  counted base → (∀ k, count k base ≤ count k (default LoopState_default (live_nodes (fst s) !! node)))%Z →
  grown base next → (∀ c k, C !! node = Some c → count k c ≤ count k base)%Z →
  tool_call_limit env node next limits s = (s', r) →
  limited (live_nodes (fst s')) C ∧
  (r = Ok None → live_nodes (fst s') !! node = Some next ∧ counted next).
Proof.
  intros Hl [x Hx] Hb Hle Hg Hcopy E. unfold tool_call_limit in E. ledger_run E.
  unfold with_candidate in E. rewrite Hx in E. set (L' := <[node := next]> (live_nodes (fst s))) in E.
  assert (Hn : nonneg L').
  { apply map_Forall_insert_2; [apply Hg|]. apply all_counted_counts, Hl. }
  change total_tool_calls with (count Calls) in E at 1.
  rewrite run_total_min in E by done.
  destruct (Z.ltb_spec (max_tool_calls limits) (Z.min (total (count Calls) L') u64_max)) as [|Htot].
  { injection E as <- <-. by split. }
  pose proof (limits_small Calls) as Hsmall. cbn [limit] in Hsmall.
  assert (Hcalls : (total (count Calls) L' ≤ max_tool_calls limits)%Z) by lia.
  case_bool_decide as Htools; [injection E as <- <-; by split|].
  destruct (update_nodes env L' s) as [s1 r1] eqn:Eu. apply update_nodes_live in Eu.
  assert (Hlt : (total_tool_calls next < u64_max)%Z).
  { assert (count Calls next ≤ total (count Calls) L')%Z; [|unfold count in *; lia].
    apply (total_lookup (count Calls) L' node); [|by apply lookup_insert_eq].
    intros n y Hy. apply (Hn n y Hy). }
  assert (Hcn : counted next).
  { split; [apply Hg| |].
    - intros tool. pose proof (grown_tools _ _ Hg tool Hlt). pose proof (counted_tool _ Hb tool). lia.
    - rewrite (grown_reads _ _ Hg). apply Hb. }
  assert (Hgoal : limited L' C).
  { apply limited_store; [done..| |].
    - intros [| |tool].
      + exact Hcalls.
      + apply within_le; [apply Hl|]. specialize (Hle OutputBytes). unfold count in Hle |- *.
        by rewrite (grown_bytes _ _ Hg).
      + fold L'. cbn [limit]. pose proof (limits_small (CallsOf tool)) as Hs. cbn [limit] in Hs.
        enough (Z.min (total (count (CallsOf tool)) L') u64_max ≤ max_calls_per_tool limits)%Z by lia.
        rewrite <- per_tool_calls_lookup by done.
        destruct (per_tool_calls L' !! tool) as [n|] eqn:Et; cbn; [by apply (Htools tool)|].
        pose proof (per_tool_calls_lookup L' tool Hn) as Hz. rewrite Et in Hz. cbn in Hz.
        destruct (decide (0 ≤ max_calls_per_tool limits)%Z); [done|].
        pose proof (limited_within _ _ Hl (CallsOf tool)) as Hw. cbn [limit] in Hw.
        assert (0 ≤ total (count (CallsOf tool)) (live_nodes (fst s)))%Z; [|lia].
        apply total_nonneg. intros n' y Hy. apply (limited_live _ _ Hl n' y Hy).
    - intros c k Hc. etrans; [by apply Hcopy|]. destruct k as [| |tool].
      + pose proof (grown_total _ _ Hg Hlt). by unfold count.
      + unfold count. by rewrite (grown_bytes _ _ Hg).
      + by apply (grown_tools _ _ Hg tool). }
  destruct r1 as [[]|e]; cbn in E; injection E as <- <-; rewrite Eu.
  - split; [done|]. intros _. split; [by apply lookup_insert_eq|done].
  - by split.
Qed.
Lemma grown_same base next next' : same_counts next next' → grown base next → grown base next'.
Proof.
  intros Hs [Hby Hrd Hn Ht Htools]. pose proof Hs as (Et & Eb & Ec & Er). split.
  - by rewrite Eb.
  - by rewrite Er.
  - intros k. by rewrite (same_counts_count next next').
  - by rewrite Et.
  - intros tool. rewrite (same_counts_count next next'), Et by done. apply Htools.
Qed.

Lemma calm_observe_model node env now response allowed run :
  lim run → is_Some (live_of run !! node) →
  calm (observe_model limits node env now response allowed) run.
Proof.
  intros Hl Hin. unfold observe_model, calm. apply wp_bind, wp_or_fail; [|done]. intros content _.
  apply wp_bind, wp_gets, wp_bind, wp_fail_if; [intros _|done].
  destruct (admitted_finish content) as [finish|]; [|by apply calm_fail].
  apply wp_bind, wp_gets.
  set (base := default LoopState_default (controllers run !! node)).
  destruct (limited_copy _ _ node Hl) as [Hb Hle]. fold base in Hb, Hle.
  apply wp_bind. eapply wp_mono; [| |apply (wp_admit allowed _ base _ (view run)); [done|]].
  3: { apply wp_ret. by split; [apply grown_refl|]. }
  2: { intros e run' Hv. unfold lim. by injection Hv as -> ->. }
  intros next run' [Hg Hv]. injection Hv as Hv1 Hv2.
  assert (Hl' : lim run') by (unfold lim; by rewrite Hv1, Hv2).
  assert (Hg' : grown base (admit_response content finish (interaction_id response) next))
    by by apply (grown_same base next).
  set (next' := admit_response _ _ _ next) in *.
  apply wp_bind, wp_persisted. intros s' r E.
  apply (tool_call_limit_spec env node base next' (controllers run')) in E as [Hlim Hok];
    [|done|by rewrite <- Hv1 in Hin|done| |done|].
  - cbn zeta. split; [done|]. intros [kind|] ->; [by apply calm_fail|].
    destruct (Hok eq_refl) as [Hlook Hcn]. apply wp_bind, wp_modify, wp_modify.
    apply (limited_copied _ _ node next' Hlim Hcn). intros k. unfold live_of. cbn.
    by rewrite Hlook.
  - intros k. rewrite <- Hv1 in Hle. apply Hle.
  - intros c k Hc. rewrite Hv2 in Hc. subst base. by rewrite Hc.
Qed.

(** [next] is [base] after one tool result of [n] bytes. *)
Record settled base next (n : Z) : Prop := {
  settled_calls : total_tool_calls next = total_tool_calls base;
  settled_tools : tool_calls next = tool_calls base;
  settled_bytes : tool_output_bytes next = saturating_add (tool_output_bytes base) n;
  settled_reads skill m :
    skill_resource_read_bytes next !! skill = Some m → (m ≤ SKILL_RESOURCE_READ_LIMIT)%Z
}.

Lemma settled_counted base next n : (0 ≤ n)%Z → counted base → settled base next n → counted next.
Proof.
  intros Hn [Hnn Ht Hr] [Hc Hto Hby Hrd]. split; [| |done].
  - intros [| |tool]; unfold count; rewrite ?Hc, ?Hby, ?Hto.
    + apply (Hnn Calls).
    + apply saturating_add_nonneg; [apply (Hnn OutputBytes)|done].
    + apply (Hnn (CallsOf tool)).
  - intros tool. unfold count. rewrite Hc, Hto. apply Ht.
Qed.

Lemma output_byte_limit_spec env node base next n C s s' r :
  limited (live_nodes (fst s)) C → is_Some (live_nodes (fst s) !! node) → (0 ≤ n)%Z →
  counted base → (∀ k, count k base ≤ count k (default LoopState_default (live_nodes (fst s) !! node)))%Z →
  settled base next n → (∀ c k, C !! node = Some c → count k c ≤ count k base)%Z →
  output_byte_limit env node next (max_tool_output_bytes limits) s = (s', r) →
  limited (live_nodes (fst s')) C ∧ (r = Ok false → live_nodes (fst s') !! node = Some next).
Proof.
  intros Hl [x Hx] Hn Hb Hle Hg Hcopy E. unfold output_byte_limit in E. ledger_run E.
  unfold with_candidate in E. rewrite Hx in E. set (L' := <[node := next]> (live_nodes (fst s))) in E.
  pose proof (settled_counted _ _ _ Hn Hb Hg) as Hcn.
  assert (HnL : nonneg L').
  { apply map_Forall_insert_2; [apply Hcn|]. apply all_counted_counts, Hl. }
  change tool_output_bytes with (count OutputBytes) in E at 1.
  rewrite run_total_min in E by done.
  destruct (Z.ltb_spec (max_tool_output_bytes limits)
              (Z.min (total (count OutputBytes) L') u64_max)) as [|Htot].
  { injection E as <- <-. by split. }
  pose proof (limits_small OutputBytes) as Hsmall. cbn [limit] in Hsmall.
  assert (Hbytes : (total (count OutputBytes) L' ≤ max_tool_output_bytes limits)%Z) by lia.
  assert (Hlt : (count OutputBytes next < u64_max)%Z).
  { assert (count OutputBytes next ≤ total (count OutputBytes) L')%Z; [|lia].
    apply (total_lookup (count OutputBytes) L' node); [|by apply lookup_insert_eq].
    intros m y Hy. apply (HnL m y Hy). }
  destruct Hg as [Hc Hto Hby Hrd].
  assert (Hgoal : limited L' C).
  { apply limited_store; [done..| |].
    - intros [| |tool]; [| |].
      + apply within_le; [apply Hl|]. specialize (Hle Calls). unfold count in Hle |- *. by rewrite Hc.
      + exact Hbytes.
      + apply within_le; [apply Hl|]. specialize (Hle (CallsOf tool)).
        unfold count in Hle |- *. by rewrite Hto.
    - intros c k Hk. etrans; [by apply Hcopy|].
      destruct k as [| |tool]; unfold count in *; rewrite ?Hc, ?Hto; [done| |done].
      rewrite Hby in Hlt |- *. unfold saturating_add in Hlt |- *. lia. }
  destruct (update_nodes env L' s) as [s1 r1] eqn:Eu. apply update_nodes_live in Eu.
  destruct r1 as [[]|e]; cbn in E; injection E as <- <-; rewrite Eu.
  - split; [done|]. intros _. by apply lookup_insert_eq.
  - by split.
Qed.

Lemma wp_account_skill_tool node call input response base next n run :
  lim run → settled base next n →
  wp (account_skill_tool node call input response next)
    (λ next' run', settled base next' n ∧ view run' = view run) (λ _ run', view run' = view run) run.
Proof.
  intros Hl [Hc Hto Hby Hrd]. unfold account_skill_tool. apply wp_if; [|intros _; apply wp_if].
  - intros _. apply wp_bind, wp_or_fail; [|done]. intros skill _. by apply wp_ret.
  - intros _. apply wp_bind, wp_or_fail; [|done]. intros _ _. apply wp_bind, wp_or_fail; [|done].
    intros page _. apply wp_bind, wp_gets, wp_bind, wp_fail_if; [intros _|done]. apply wp_ret.
    split; [|done]. split; [done..|]. cbn. apply (counted_snapshot run node Hl).
  - intros _. by apply wp_ret.
Qed.

Lemma wp_project_admitted raw call base next n run :
  settled base next n →
  wp (project_admitted raw call next)
    (λ next' run', settled base next' n ∧ view run' = view run) (λ _ run', view run' = view run) run.
Proof.
  intros [Hc Hto Hby Hrd]. unfold project_admitted. apply wp_if; [by intros _; apply wp_ret|].
  intros _. apply wp_bind, wp_or_fail; [|done]. intros projected _.
  apply wp_bind, wp_or_fail; [|done]. intros [name args] _.
  apply wp_bind, wp_fail_if; [intros _|done]. by apply wp_ret.
Qed.

Lemma lim_view run run' : view run' = view run → lim run → lim run'.
Proof. unfold lim. by intros [= -> ->]. Qed.

Lemma calm_observe_tool node env context response run :
  lim run → is_Some (live_of run !! node) → calm (observe_tool limits node env context response) run.
Proof.
  intros Hl Hin. unfold observe_tool, calm.
  apply wp_bind, wp_fail_if; [intros _|done]. apply wp_bind, wp_gets, wp_bind, wp_fail_if; [intros _|done].
  apply wp_bind, wp_or_fail; [|done]. intros outcome _. apply wp_bind, wp_fail_if; [intros _|done].
  apply wp_bind, wp_gets.
  set (base := default LoopState_default (controllers run !! node)).
  destruct (limited_copy _ _ node Hl) as [Hb Hle]. fold base in Hb, Hle.
  apply wp_bind, wp_or_fail; [|done]. intros name _. apply wp_bind, wp_or_fail; [|done]. intros input _.
  apply wp_bind, wp_or_fail; [|done]. intros [call rest] _. apply wp_bind.
  set (n := str_len (compact response)). assert (Hn : (0 ≤ n)%Z) by (subst n; unfold str_len; lia).
  eapply wp_mono; [| |apply (wp_account_skill_tool node call input response base _ n); [done|]].
  3: { split; [done..|]. apply Hb. }
  2: { intros e run' Hv. by apply (lim_view run). }
  intros next run1 [Hs1 Hv1]. apply wp_bind, wp_gets, wp_bind.
  eapply wp_mono; [| |by apply (wp_project_admitted _ call base next n)].
  2: { intros e run' Hv. apply (lim_view run); [|done]. by rewrite Hv. }
  intros next' run2 [Hs2 Hv2]. apply wp_bind, wp_gets. rewrite Hv1 in Hv2.
  assert (Hl2 : lim run2) by by apply (lim_view run).
  injection Hv2 as Hv2 Hv3.
  match goal with |- context [output_byte_limit env node ?x] => set (next2 := x) end.
  assert (Hs3 : settled base next2 n) by (by destruct Hs2).
  apply wp_bind, wp_persisted. intros s' r E.
  apply (output_byte_limit_spec env node base next2 n (controllers run2)) in E as [Hlim Hok];
    [|done|by rewrite <- Hv2 in Hin|done|done| |done|].
  - cbn zeta. split; [done|]. intros over ->. apply wp_bind, wp_fail_if; [intros ->|done].
    apply wp_modify. apply (limited_copied _ _ node next2 Hlim); [by eapply settled_counted|].
    intros k. unfold live_of. cbn. by rewrite (Hok eq_refl).
  - intros k. rewrite <- Hv2 in Hle. apply Hle.
  - intros c k Hc. rewrite Hv3 in Hc. subst base. by rewrite Hc.
Qed.
(** ** Runs *)

(** One operation on the run, with any outcome of its calls to the outside: a
    callback of a node's controller, the replay of a resumed run, a skill tool,
    or a new graph frontier.  A model answer and a tool result are observed for
    a node of the ledger: [before_model] puts it there. *)
Inductive run_step : Run → Run → Prop :=
| step_new node run : run_step run (fst (controller_new node run))
| step_enter node run : run_step run (fst (enter_isolated node run))
| step_before_model node env request run :
    run_step run (fst (before_model limits node env request run))
| step_observe_model node env now response allowed run :
    is_Some (live_of run !! node) →
    run_step run (fst (observe_model limits node env now response allowed run))
| step_observe_tool node env context response run :
    is_Some (live_of run !! node) →
    run_step run (fst (observe_tool limits node env context response run))
| step_complete_pending env node call response run :
    run_step run (fst (on_ledger
      (complete_pending env node call response (max_tool_output_bytes limits)) run))
| step_restore_turn node turn run :
    run_step run (fst (on_ledger (restore_completed_turn node turn) run))
| step_activate_skill env node skill run :
    run_step run (fst (on_ledger (activate_skill env node skill) run))
| step_reserve env node skill fingerprint page_bytes run :
    run_step run (fst (on_ledger
      (reserve_skill_resource_read env node skill fingerprint page_bytes) run))
| step_replaying node fingerprint replaying run :
    run_step run (run {{ ledger ::=
      set_replaying_skill_resource_read node fingerprint replaying }})
| step_admit_frontier env frontier_step pending isolated durable run :
    run_step run (fst (on_ledger (admit_frontier env frontier_step pending isolated durable) run)).

Lemma calm_fst {A} (m : run_op A) run : calm m run → lim (fst (m run)).
Proof. unfold calm, wp. by destruct (m run) as [run' [x|e]]. Qed.

Lemma keeps_fst {A} (op : ledger_op A) run :
  (∀ C, keeps C op) → lim run → lim (fst (on_ledger op run)).
Proof.
  intros Hop Hl. unfold on_ledger. destruct (op (ledger run, disk run)) as [[st d] r] eqn:E.
  exact (Hop (controllers run) (ledger run, disk run) (st, d) r Hl E).
Qed.

Lemma run_step_lim run run' : run_step run run' → lim run → lim run'.
Proof.
  intros Hstep Hl. destruct Hstep.
  - by apply calm_fst, calm_new.
  - by apply calm_fst, calm_enter.
  - by apply calm_fst, calm_before_model.
  - by apply calm_fst, calm_observe_model.
  - by apply calm_fst, calm_observe_tool.
  - apply keeps_fst; [|done]. intros C. apply complete_pending_keeps.
  - apply keeps_fst; [|done]. intros C. apply restore_completed_turn_keeps.
  - apply keeps_fst; [|done]. intros C. apply activate_skill_keeps.
  - apply keeps_fst; [|done]. intros C. apply reserve_keeps.
  - done.
  - apply keeps_fst; [|done]. intros C. apply admit_frontier_keeps.
Qed.

Lemma run_steps_lim run run' : rtc run_step run run' → lim run → lim run'.
Proof. induction 1; eauto using run_step_lim. Qed.

Lemma fresh_lim run :
  RunLimits_wf limits → live_of run = ∅ → controllers run = ∅ → lim run.
Proof.
  intros (Hm & Hc & Ht & _ & _ & _ & Ho) HL HC. unfold lim. rewrite HL, HC.
  split; [apply map_Forall_empty..| |].
  - intros k. rewrite total_empty. unfold nonzero_u64 in *. destruct k; cbn; lia.
  - intros n c k. by rewrite lookup_empty.
Qed.

End limits.

(** ** Example *)

Section example.
#[local] Existing Instance ex_json_Z.
#[local] Existing Instance ex_int.
#[local] Existing Instance ex_content.
#[local] Existing Instance ex_inputs.
#[local] Existing Instance ex_value_serde.
#[local] Existing Instance ex_manifest_serde.
#[local] Existing Instance ex_strings_serde.
#[local] Instance ex_sha : Sha256 := λ s, s.
(** A disk on which nothing reads back: every persist fails. *)
#[local] Instance ex_ledger_serde : Serde LoopLedgerV1 := {| to_text _ := ""; from_text _ := None |}.
#[local] Instance ex_pair_serde : Serde (Z * gmap string LoopState) :=
  {| to_text _ := ""; from_text _ := None |}.
#[local] Instance ex_state_serde : Serde (gmap string Value) := {| to_text _ := ""; from_text _ := None |}.

Definition ex_limits : RunLimits := mk_RunLimits 4 2 1 1000 1000 1000 100.
Definition ex_env : PersistEnv :=
  mk_PersistEnv true (λ _, "") ex_open None true Written ex_open None Checkpoint.Committed.
Definition ex_run : Run := mk_Run
  (mk_LoopLedgerStore "id" ex_manifest (mk_RunId "run") true ∅ ∅ ∅ ∅ ∅) (mk_Disk None ex_opened)
  ∅ None false 0.
Definition ex_answer (id : string) : LlmResponse := mk_LlmResponse
  (Some (mk_Content "model" [FunctionCall "search" (Object []) (Some id) None])) None.
Definition ex_request : LlmRequest := mk_LlmRequest [mk_Content "user" [Text "go"]] None.

Definition ex_started : Run := fst (before_model ex_limits "node" ex_env ex_request ex_run).
Definition ex_called : Run :=
  fst (observe_model ex_limits "node" ex_env 5 (ex_answer "1") {["search"]} ex_started).

End example.
