(* ===== verification/Llm.v ===== *)
(** * The language-model interface

    The types of [adk_rust] that the model layer of [workflow-adk/src] builds,
    reads and passes on: requests, responses, contents and errors.  They are
    third-party; a record has the fields the code touches, and [AdkLlm] names
    what it carries without looking inside.  Floating-point numbers are their
    bit patterns. *)

From S2P Require Import Prelude Json.

(** [f32::is_finite] and [f64::is_finite] on the bits: an exponent field that
    is not all ones. *)
Definition f32_is_finite (bits : Z) : bool := negb (Z.land (Z.shiftr bits 23) 255 =? 255)%Z.
Definition f64_is_finite (bits : Z) : bool := negb (Z.land (Z.shiftr bits 52) 2047 =? 2047)%Z.
(** [x >= 0.0] for a finite [f64]: the sign bit is clear, or it is [-0.0]. *)
Definition f64_nonnegative (bits : Z) : bool := negb (Z.testbit bits 63) || (bits =? 2 ^ 63)%Z.

(** The parts of a content that are passed on unread, the fields of a request
    that nothing here reads, the retry hint of an error. *)
Class AdkLlm `{JsonText} := {
  OtherContent : Type;
  RequestRest : Type;
  RetryHint : Type
}.

Section llm.
Context `{AdkLlm}.

Inductive Part :=
| Text (text : string)
| Thinking (thinking : string)
| FunctionCall (name : string) (args : Value) (id thought_signature : option string)
| FunctionResponse (name : string) (response : Value)
| OtherPart (part : OtherContent).

Record Content := mk_Content { role : string; parts : list Part }.

(** [GenerateContentConfig]. *)
Record GenerateConfig := mk_GenerateConfig {
  temperature : option Z; top_p : option Z; top_k : option Z;
  frequency_penalty : option Z; presence_penalty : option Z;
  max_output_tokens : option Z; seed : option Z;
  response_schema : option Value; extensions : gmap string Value }.
(** [Default::default()]. *)
Definition default_config : GenerateConfig :=
  mk_GenerateConfig None None None None None None None None ∅.

Record LlmRequest := mk_LlmRequest {
  model : string; contents : list Content; config : option GenerateConfig;
  tools : gmap string Value; request_rest : RequestRest }.
Definition set_config (c : GenerateConfig) (r : LlmRequest) : LlmRequest :=
  mk_LlmRequest (model r) (contents r) (Some c) (tools r) (request_rest r).

Inductive FinishReason := Stop | MaxTokens | Safety | Recitation | OtherReason.
#[export] Instance FinishReason_eq_dec : EqDecision FinishReason.
Proof. solve_decision. Defined.

Record UsageMetadata := mk_UsageMetadata { provider_usage : option Value; cost : option Z }.

Record LlmResponse := mk_LlmResponse {
  content : option Content; usage_metadata : option UsageMetadata;
  finish_reason : option FinishReason; partial : bool; turn_complete : bool;
  interrupted : bool; error_code : option string; error_message : option string;
  provider_metadata : option Value }.
Definition set_usage (u : option UsageMetadata) (r : LlmResponse) : LlmResponse :=
  mk_LlmResponse (content r) u (finish_reason r) (partial r) (turn_complete r) (interrupted r)
    (error_code r) (error_message r) (provider_metadata r).
Definition set_metadata (m : option Value) (r : LlmResponse) : LlmResponse :=
  mk_LlmResponse (content r) (usage_metadata r) (finish_reason r) (partial r) (turn_complete r)
    (interrupted r) (error_code r) (error_message r) m.
Definition set_content (c : option Content) (r : LlmResponse) : LlmResponse :=
  mk_LlmResponse c (usage_metadata r) (finish_reason r) (partial r) (turn_complete r)
    (interrupted r) (error_code r) (error_message r) (provider_metadata r).

Inductive ErrorComponent := ModelComponent | AgentComponent | OtherComponent (n : nat).
Inductive ErrorCategory :=
| InvalidInput | RateLimited | Unavailable | TimeoutCategory | Internal | OtherCategory (n : nat).
#[export] Instance ErrorComponent_eq_dec : EqDecision ErrorComponent.
Proof. solve_decision. Defined.
#[export] Instance ErrorCategory_eq_dec : EqDecision ErrorCategory.
Proof. solve_decision. Defined.

Record AdkError := mk_AdkError {
  component : ErrorComponent; category : ErrorCategory; code : string;
  retry : RetryHint; upstream_status_code : option Z }.

Definition set_retry (hint : RetryHint) (e : AdkError) : AdkError :=
  mk_AdkError (component e) (category e) (code e) hint (upstream_status_code e).
Definition set_status (status : option Z) (e : AdkError) : AdkError :=
  mk_AdkError (component e) (category e) (code e) (retry e) status.
End llm.

(** The constructors and the query of the library that the code calls:
    [LlmResponse::new], [AdkError::new] (whose message is its code everywhere
    here), [AdkError::agent], [AdkError::model], [AdkError::timeout] and
    [AdkError::is_rate_limited]. *)
Class AdkNew `{AdkLlm} := {
  response_new : Content → LlmResponse;
  error_new : ErrorComponent → ErrorCategory → string → AdkError;
  agent_error : string → AdkError;
  model_error : string → AdkError;
  timeout_error : ErrorComponent → string → AdkError;
  is_rate_limited : AdkError → bool
}.

Class AdkNewLaws `{AdkNew} : Prop := {
  response_content c : content (response_new c) = Some c;
  error_component c k s : component (error_new c k s) = c;
  error_category c k s : category (error_new c k s) = k;
  error_code_of c k s : code (error_new c k s) = s;
  timeout_category c s : category (timeout_error c s) = TimeoutCategory;
  rate_limited e : is_rate_limited e = true ↔ category e = RateLimited
}.

(** An instance with nothing inside the opaque parts. *)
Definition ex_adk_llm `{JsonText} : AdkLlm := {|
  OtherContent := unit; RequestRest := unit; RetryHint := bool |}.
Definition ex_adk_new `{JsonText} : AdkNew (H0 := ex_adk_llm) := {|
  response_new c := mk_LlmResponse (Some c) None (Some Stop) false true false None None None;
  error_new c k s := @mk_AdkError _ ex_adk_llm c k s false None;
  model_error s := @mk_AdkError _ ex_adk_llm ModelComponent Internal s false None;
  agent_error s := @mk_AdkError _ ex_adk_llm AgentComponent Internal s false None;
  timeout_error c s := @mk_AdkError _ ex_adk_llm c TimeoutCategory s true None;
  is_rate_limited e := bool_decide (category e = RateLimited) |}.
Lemma ex_adk_new_laws `{JsonText} : AdkNewLaws (H1 := ex_adk_new).
Proof. split; try done. intros e. apply bool_decide_eq_true. Qed.
