(* ===== verification/ModelProfiles.v ===== *)
(** * Model profiles

    [workflow-adk/src/model_profiles.rs]: the identities and policies of the
    models a host may call, the registry of them with its worker and reviewer,
    the resolution of credentials, and the binding of a profile to a provider
    client.  A binding's shared cells - the queue of a fake model and the count
    of retries - are the [BindingState] that the operations of [ModelCalls.v]
    thread.  The process environment, the secret provider, the URL parser and
    the provider client are third-party: arguments and classes. *)

From S2P Require Import Prelude Json JsonRead JsonMap Text Llm.

(*| adk/model_profiles.rs 33-36 ModelRole *)
Inductive ModelRole := Worker | Reviewer.
#[export] Instance ModelRole_eq_dec : EqDecision ModelRole.
Proof. solve_decision. Defined.

(*| adk/model_profiles.rs 40-43 ModelProfileIdentity *)
Record ModelProfileIdentity := mk_Identity { name : string; version : string }.
#[export] Instance ModelProfileIdentity_eq_dec : EqDecision ModelProfileIdentity.
Proof. solve_decision. Defined.
#[export] Instance ModelProfileIdentity_countable : Countable ModelProfileIdentity.
Proof.
  apply (inj_countable' (λ i, (name i, version i)) (λ p, mk_Identity p.1 p.2)). by intros [].
Defined.

(*| adk/model_profiles.rs 59-61 ModelProfileIdentity::resume_identity *)
Definition resume_identity (i : ModelProfileIdentity) : string :=
  "model-profile-v1:" +:+ name i +:+ ":" +:+ version i.

(*| adk/model_profiles.rs 66-74 SamplingConfig *)
Record SamplingConfig := mk_SamplingConfig {
  s_temperature : option Z; s_top_p : option Z; s_top_k : option Z;
  s_frequency_penalty : option Z; s_presence_penalty : option Z;
  s_max_output_tokens : option Z; s_seed : option Z }.
Definition default_sampling : SamplingConfig := mk_SamplingConfig None None None None None None None.

(*| adk/model_profiles.rs 173-176 CredentialHandle *)
Inductive CredentialHandle := Environment (variable : string) | SecretProviderHandle (secret : string).
#[export] Instance CredentialHandle_eq_dec : EqDecision CredentialHandle.
Proof. solve_decision. Defined.
(*| adk/model_profiles.rs 188-192 CredentialHandle::handle *)
Definition handle (h : CredentialHandle) : string :=
  match h with Environment v | SecretProviderHandle v => v end.

(*| adk/model_profiles.rs 215-218 CredentialErrorKind *)
Inductive CredentialErrorKind := MissingCredential | CredentialProvider.
#[export] Instance CredentialErrorKind_eq_dec : EqDecision CredentialErrorKind.
Proof. solve_decision. Defined.

(** A secret provider's two resolvers; the one for routes rejects unless the
    host implements it. *)
(*| adk/model_profiles.rs 249-265 SecretProvider *)
Record SecretProvider := mk_SecretProvider {
  secret : string → result CredentialErrorKind string;
  secret_for_route : string → result CredentialErrorKind string }.
(*| adk/model_profiles.rs 257-264 SecretProvider::resolve_for_route *)
Definition default_for_route (handle : string) : result CredentialErrorKind string := Err CredentialProvider.

(*| adk/model_profiles.rs 268-270 CredentialBroker *)
Record CredentialBroker := mk_CredentialBroker { provider_of_secrets : option SecretProvider }.

(** [env]: the variables of the process that are set to UTF-8 text. *)
(*| adk/model_profiles.rs 301-312 CredentialBroker::resolve *)
Definition resolve (env : string → option string) (broker : CredentialBroker) (h : CredentialHandle) :
    result CredentialErrorKind string :=
  match h with
  | Environment name => from_option Ok (Err MissingCredential) (env name)
  | SecretProviderHandle name =>
      match provider_of_secrets broker with
      | None => Err MissingCredential
      | Some p => secret p name
      end
  end.
(*| adk/model_profiles.rs 286-300 CredentialBroker::resolve_for_route *)
Definition resolve_for_route (env : string → option string) (broker : CredentialBroker)
    (h : CredentialHandle) : result CredentialErrorKind string :=
  match h with
  | Environment _ => resolve env broker h
  | SecretProviderHandle name =>
      match provider_of_secrets broker with
      | None => Err MissingCredential
      | Some p => secret_for_route p name
      end
  end.

(*| adk/model_profiles.rs 548-553 OpenAiCompatibleAuth *)
Inductive OpenAiCompatibleAuth := Credential (handle : CredentialHandle) | NoAuth.
#[export] Instance OpenAiCompatibleAuth_eq_dec : EqDecision OpenAiCompatibleAuth.
Proof. solve_decision. Defined.

(*| adk/model_profiles.rs 1296-1305 ModelProfileErrorKind *)
Inductive ModelProfileErrorKind :=
| InvalidProfile | DuplicateProfile | MissingProfile | CredentialError | InvalidRequest
| Provider | RetryableProvider | Timeout.
#[export] Instance ModelProfileErrorKind_eq_dec : EqDecision ModelProfileErrorKind.
Proof. solve_decision. Defined.

(*| adk/model_profiles.rs 1308-1312 ModelProfileError *)
Record ModelProfileError := mk_ModelProfileError {
  error_kind : ModelProfileErrorKind; error_profile : option ModelProfileIdentity;
  error_status : option Z }.
(*| adk/model_profiles.rs 1315-1321 ModelProfileError::invalid *)
Definition profile_error (kind : ModelProfileErrorKind) : ModelProfileError :=
  mk_ModelProfileError kind None None.
(*| adk/model_profiles.rs 1358-1364 ModelProfileError::timeout_for *)
Definition timeout_for (profile : ModelProfileIdentity) : ModelProfileError :=
  mk_ModelProfileError Timeout (Some profile) None.

(*| adk/model_profiles.rs 910-916 ModelBindingIdentity *)
Record ModelBindingIdentity := mk_BindingIdentity {
  profile : ModelProfileIdentity; requested_model : string; resolved_model : string;
  provider : string; tokenizer : string }.
#[export] Instance ModelBindingIdentity_eq_dec : EqDecision ModelBindingIdentity.
Proof. solve_decision. Defined.

(** [url::Url::parse]: the user name and the password of a valid URL. *)
Class UrlParse := url_parse : string → option (string * option string).

(** The configuration of an [adk_rust] OpenAI-compatible client, whether the
    library accepts it, and the name the client gives its model. *)
Record OpenAiConfig := mk_OpenAiConfig {
  api_key : string; config_model : string; provider_name : string; config_url : string;
  no_auth : bool; schema_strict : bool; client_retries : bool; max_response_bytes : option Z }.
Class OpenAiClient := {
  openai_accepts : OpenAiConfig → bool;
  openai_name : OpenAiConfig → string
}.

Section profiles.
Context `{AdkNew, !UrlParse, !OpenAiClient}.

(*| adk/model_profiles.rs 109-115 ModelRuntimeConfig *)
Record ModelRuntimeConfig := mk_Runtime {
  timeout_ms : Z; sampling : SamplingConfig; tool_parser : option string;
  tool_template : option string; provider_extensions : gmap string Value }.

(*| adk/model_profiles.rs 118-126 ModelRuntimeConfig::default *)
Definition default_runtime : ModelRuntimeConfig := mk_Runtime 30000 default_sampling None None ∅.
(*| adk/model_profiles.rs 130-133 ModelRuntimeConfig::with_timeout *)
Definition with_timeout (millis : Z) (r : ModelRuntimeConfig) : ModelRuntimeConfig :=
  mk_Runtime (Z.min millis u64_max) (sampling r) (tool_parser r) (tool_template r) (provider_extensions r).
(*| adk/model_profiles.rs 137-140 ModelRuntimeConfig::with_sampling *)
Definition with_sampling (update : SamplingConfig → SamplingConfig) (r : ModelRuntimeConfig) :
    ModelRuntimeConfig :=
  mk_Runtime (timeout_ms r) (update (sampling r)) (tool_parser r) (tool_template r) (provider_extensions r).
(*| adk/model_profiles.rs 141-144 ModelRuntimeConfig::with_tool_parser *)
Definition with_tool_parser (parser : string) (r : ModelRuntimeConfig) : ModelRuntimeConfig :=
  mk_Runtime (timeout_ms r) (sampling r) (Some parser) (tool_template r) (provider_extensions r).
(*| adk/model_profiles.rs 145-148 ModelRuntimeConfig::with_tool_template *)
Definition with_tool_template (template : string) (r : ModelRuntimeConfig) : ModelRuntimeConfig :=
  mk_Runtime (timeout_ms r) (sampling r) (tool_parser r) (Some template) (provider_extensions r).
(*| adk/model_profiles.rs 149-156 ModelRuntimeConfig::with_provider_extension *)
Definition with_provider_extension (namespace : string) (v : Value) (r : ModelRuntimeConfig) :
    ModelRuntimeConfig :=
  mk_Runtime (timeout_ms r) (sampling r) (tool_parser r) (tool_template r)
    (<[namespace := v]> (provider_extensions r)).

(*| adk/model_profiles.rs 325-336 FakeModelProfile *)
Record FakeModelProfile := mk_Fake {
  fake_identity : ModelProfileIdentity; fake_model : string; responses : list Value;
  fake_runtime : ModelRuntimeConfig; fake_tokenizer : option string; response_delay : Z;
  fake_resolved_model : option string }.
(*| adk/model_profiles.rs 491-513 FakeModelProfile::new *)
Definition FakeModelProfile_new (name version model : string) (responses : list string) : FakeModelProfile :=
  mk_Fake (mk_Identity name version) model (map VString responses) default_runtime None 0 None.
(*| adk/model_profiles.rs 527-543 FakeModelProfile::from_values *)
Definition from_values (name version model : string) (responses : list Value) (delay_ms : Z) :
    FakeModelProfile :=
  mk_Fake (mk_Identity name version) model responses default_runtime None delay_ms None.

(*| adk/model_profiles.rs 558-567 OpenAiCompatibleProfile *)
Record OpenAiCompatibleProfile := mk_OpenAi {
  openai_identity : ModelProfileIdentity; openai_provider : string; openai_model : string;
  base_url : string; auth : OpenAiCompatibleAuth; openai_runtime : ModelRuntimeConfig;
  openai_tokenizer : option string }.
(*| adk/model_profiles.rs 586-601 OpenAiCompatibleProfile::new_no_auth *)
Definition new_no_auth (name version model base_url : string) : OpenAiCompatibleProfile :=
  mk_OpenAi (mk_Identity name version) "openai-compatible" model base_url NoAuth default_runtime None.
(*| adk/model_profiles.rs 571-581 OpenAiCompatibleProfile::new *)
Definition OpenAiCompatibleProfile_new (name version model base_url : string)
    (credential : CredentialHandle) : OpenAiCompatibleProfile :=
  let p := new_no_auth name version model base_url in
  mk_OpenAi (openai_identity p) (openai_provider p) (openai_model p) base_url (Credential credential)
    (openai_runtime p) (openai_tokenizer p).

(*| adk/model_profiles.rs 621-624 ModelProfile *)
Inductive ModelProfile :=
| Fake (p : FakeModelProfile) | OpenAiCompatible (p : OpenAiCompatibleProfile).

(*| adk/model_profiles.rs 638-643 ModelProfile::identity *)
Definition identity (p : ModelProfile) : ModelProfileIdentity :=
  match p with Fake p => fake_identity p | OpenAiCompatible p => openai_identity p end.
(*| adk/model_profiles.rs 644-649 ModelProfile::runtime *)
Definition runtime (p : ModelProfile) : ModelRuntimeConfig :=
  match p with Fake p => fake_runtime p | OpenAiCompatible p => openai_runtime p end.
Definition set_runtime (r : ModelRuntimeConfig) (p : ModelProfile) : ModelProfile :=
  match p with
  | Fake p => Fake (mk_Fake (fake_identity p) (fake_model p) (responses p) r (fake_tokenizer p)
      (response_delay p) (fake_resolved_model p))
  | OpenAiCompatible p => OpenAiCompatible (mk_OpenAi (openai_identity p) (openai_provider p)
      (openai_model p) (base_url p) (auth p) r (openai_tokenizer p))
  end.

(** ** Validation *)

Definition scripted (response : Value) : bool :=
  match response with VString _ | Object _ => true | _ => false end.

(*| adk/model_profiles.rs 667-679 ModelProfile::validate *)
Definition auth_valid (p : OpenAiCompatibleProfile) : bool :=
  match auth p with
  | NoAuth =>
      match url_parse (base_url p) with
      | Some (username, password) => str_is_empty username && negb (is_some password)
      | None => false
      end
  | Credential h => negb (is_blank (handle h))
  end.

(*| adk/model_profiles.rs 684-689 ModelProfile::validate *)
Definition endpoint_valid (url : string) : bool :=
  is_some (strip_prefix "http://" url) || is_some (strip_prefix "https://" url).

(*| adk/model_profiles.rs 690-702 ModelProfile::validate *)
Definition sampling_finite (s : SamplingConfig) : bool :=
  forallb (from_option f32_is_finite true)
    [s_temperature s; s_top_p s; s_frequency_penalty s; s_presence_penalty s].

(*| adk/model_profiles.rs 650-704 ModelProfile::validate *)
Definition validate (p : ModelProfile) : result ModelProfileError unit :=
  let invalid := profile_error InvalidProfile in
  ensure (negb (str_is_empty (name (identity p)) || str_is_empty (version (identity p)))) invalid;;
  '(model, url) ← match p with
    | Fake p => ensure (forallb scripted (responses p)) invalid;; Ok (fake_model p, None)
    | OpenAiCompatible p => ensure (auth_valid p) invalid;; Ok (openai_model p, Some (base_url p))
    end;
  ensure (negb (str_is_empty model) && from_option endpoint_valid true url) invalid;;
  ensure (sampling_finite (sampling (runtime p))) invalid.

(** ** The registry *)

(*| adk/model_profiles.rs 709-713 ModelProfileRegistry *)
Record ModelProfileRegistry := mk_Registry {
  profiles : gmap ModelProfileIdentity ModelProfile;
  worker : option ModelProfileIdentity; reviewer : option ModelProfileIdentity }.
(*| adk/model_profiles.rs 716-718 ModelProfileRegistry::new *)
Definition ModelProfileRegistry_new : ModelProfileRegistry := mk_Registry ∅ None None.

(*| adk/model_profiles.rs 719-728 ModelProfileRegistry::register *)
Definition register (p : ModelProfile) : method ModelProfileRegistry ModelProfileError unit := λ r,
  match validate p with
  | Err e => (r, Err e)
  | Ok _ =>
      if is_some (profiles r !! identity p) then (r, Err (profile_error DuplicateProfile))
      else (mk_Registry (<[identity p := p]> (profiles r)) (worker r) (reviewer r), Ok tt)
  end.

Definition set_role_field (role : ModelRole) (i : ModelProfileIdentity) (r : ModelProfileRegistry) :
    ModelProfileRegistry :=
  match role with
  | Worker => mk_Registry (profiles r) (Some i) (reviewer r)
  | Reviewer => mk_Registry (profiles r) (worker r) (Some i)
  end.

(** [register_worker] and [register_reviewer]; [with_worker] and
    [with_reviewer] are the same steps on an owned registry. *)
(*| adk/model_profiles.rs 749-758 ModelProfileRegistry::register_worker *)
Definition register_role (role : ModelRole) (p : ModelProfile) :
    method ModelProfileRegistry ModelProfileError unit := λ r,
  match register p r with
  | (r, Err e) => (r, Err e)
  | (r, Ok _) => (set_role_field role (identity p) r, Ok tt)
  end.

(*| adk/model_profiles.rs 769-782 ModelProfileRegistry::set_role *)
Definition set_role (role : ModelRole) (i : ModelProfileIdentity) :
    method ModelProfileRegistry ModelProfileError unit := λ r,
  if is_some (profiles r !! i) then (set_role_field role i r, Ok tt)
  else (r, Err (profile_error MissingProfile)).

(*| adk/model_profiles.rs 797-805 ModelProfileRegistry::validate_entry *)
Definition validate_entry (i : ModelProfileIdentity) (p : ModelProfile) : result ModelProfileError unit :=
  ensure (bool_decide (i = identity p)) (profile_error InvalidProfile);;
  validate p.

(** The profiles are visited in the order of the map; [map_to_list] lists them
    in some order, and every failure is the same error. *)
(*| adk/model_profiles.rs 783-796 ModelProfileRegistry::validate *)
Definition validate_registry (r : ModelProfileRegistry) : result ModelProfileError unit :=
  for_each (λ e, validate_entry e.1 e.2) (map_to_list (profiles r));;
  for_each (λ i, ensure (is_some (profiles r !! i)) (profile_error MissingProfile))
    (omap id [worker r; reviewer r]).

(*| adk/model_profiles.rs 810-835 ModelProfileRegistry::probe_profile *)
Definition probe_profile (i : ModelProfileIdentity) (r : ModelProfileRegistry) :
    result ModelProfileError (ModelProfile * ModelProfile) :=
  match profiles r !! i with
  | None => Err (profile_error MissingProfile)
  | Some original =>
      validate_entry i original;;
      let rt := runtime original in
      ensure (bool_decide (provider_extensions rt = ∅) && negb (is_some (tool_parser rt))
              && negb (is_some (tool_template rt))) (profile_error InvalidProfile);;
      Ok (original, set_runtime (with_provider_extension "openai"
        (Object [("reasoning_effort", VString "low")]) rt) original)
  end.

(** ** Bindings *)

(*| adk/model_profiles.rs 338-344 QueuedFakeLlm *)
Record QueuedFakeLlm := mk_Queue {
  q_name : string; original : list LlmResponse; queued : list LlmResponse;
  last_node : option string; q_delay : Z }.
(*| adk/model_profiles.rs 347-359 QueuedFakeLlm::new *)
Definition QueuedFakeLlm_new (name : string) (responses : list LlmResponse) (delay : Z) : QueuedFakeLlm :=
  mk_Queue name responses responses None delay.

(** The live model of a binding: the shared queue of a fake, as it is or for
    one node, or a provider client. *)
Inductive LlmHandle := SharedQueue | NodeQueue (node : string) | RemoteModel (client : OpenAiConfig).

(*| adk/model_profiles.rs 900-907 ModelBinding *)
Record ModelBinding := mk_ModelBinding {
  binding_role : ModelRole; binding_identity : ModelBindingIdentity;
  binding_runtime : ModelRuntimeConfig; llm : LlmHandle }.
(** The cells that the clones of a binding share. *)
Record BindingState := mk_BindingState { fake_queue : option QueuedFakeLlm; retries : Z }.

Definition get_str (key : string) (v : Value) : option string :=
  match v with Object o => object_get key o ≫= v_str | _ => None end.
Definition get_value (key : string) (v : Value) : option Value :=
  match v with Object o => object_get key o | _ => None end.

(*| adk/model_profiles.rs 1000-1007 ModelProfile::bind_resolved *)
Definition scripted_call (call : Value) : option Part :=
  name ← get_str "name" call;
  args ← get_value "args" call;
  id ← get_value "id" call;
  Some (FunctionCall name args (v_str id) None).

(*| adk/model_profiles.rs 988-1013 ModelProfile::bind_resolved *)
Definition scripted_response (response : Value) : option LlmResponse :=
  match response with
  | VString text => Some (response_new (mk_Content "assistant" [Text text]))
  | Object o =>
      Some (response_new (mk_Content "assistant"
        (omap scripted_call (default [] (object_get "calls" o ≫= v_array)))))
  | _ => None
  end.

(*| adk/model_profiles.rs 1027-1036 ModelProfile::bind_resolved *)
Definition client_key (auth : OpenAiCompatibleAuth) (secret : option string) : option string :=
  match auth, secret with
  | NoAuth, None => Some ""
  | Credential _, Some secret => if is_blank secret then None else Some secret
  | _, _ => None
  end.

(*| adk/model_profiles.rs 979-1081 ModelProfile::bind_resolved *)
Definition bind_resolved (p : ModelProfile) (role : ModelRole) (secret : option string)
    (response_body_limit : option Z) : result ModelProfileError (ModelBinding * BindingState) :=
  '(llm, resolved, requested, provider, queue) ← match p with
    | Fake f =>
        match mapM scripted_response (responses f) with
        | None => Err (profile_error InvalidProfile)
        | Some queued =>
            let name := default (fake_model f) (fake_resolved_model f) in
            Ok (SharedQueue, name, fake_model f, "fake",
                Some (QueuedFakeLlm_new name queued (response_delay f)))
        end
    | OpenAiCompatible o =>
        match client_key (auth o) secret with
        | None => Err (profile_error CredentialError)
        | Some key =>
            let client := mk_OpenAiConfig key (openai_model o) (openai_provider o) (base_url o)
              (bool_decide (auth o = NoAuth)) false false response_body_limit in
            ensure (openai_accepts client) (profile_error Provider);;
            Ok (RemoteModel client, openai_name client, openai_model o, openai_provider o, None)
        end
    end;
  let tokenizer := default resolved
    (match p with Fake f => fake_tokenizer f | OpenAiCompatible o => openai_tokenizer o end) in
  Ok (mk_ModelBinding role (mk_BindingIdentity (identity p) requested resolved provider tokenizer)
        (runtime p) llm,
      mk_BindingState queue 0).

(*| adk/model_profiles.rs 944-954 ModelProfile::bind_for_route *)
Definition needed_secret (resolve : CredentialHandle → result CredentialErrorKind string)
    (p : ModelProfile) : result ModelProfileError (option string) :=
  match p with
  | OpenAiCompatible o =>
      match auth o with
      | Credential h => Some <$> map_err (λ _, profile_error CredentialError) (resolve h)
      | NoAuth => Ok None
      end
  | Fake _ => Ok None
  end.

(*| adk/model_profiles.rs 959-977 ModelProfile::bind *)
Definition bind (p : ModelProfile) (role : ModelRole) (env : string → option string)
    (broker : CredentialBroker) : result ModelProfileError (ModelBinding * BindingState) :=
  validate p;;
  secret ← needed_secret (resolve env broker) p;
  bind_resolved p role secret None.

(*| adk/model_profiles.rs 937-957 ModelProfile::bind_for_route *)
Definition bind_for_route (p : ModelProfile) (role : ModelRole) (env : string → option string)
    (broker : CredentialBroker) (response_body_limit : option Z) :
    result ModelProfileError (ModelBinding * BindingState) :=
  validate p;;
  secret ← needed_secret (resolve_for_route env broker) p;
  bind_resolved p role secret response_body_limit.

(*| adk/model_profiles.rs 870-882 ModelProfileRegistry::bind_identity *)
Definition bind_identity (r : ModelProfileRegistry) (role : ModelRole) (i : ModelProfileIdentity)
    (env : string → option string) (broker : CredentialBroker) :
    result ModelProfileError (ModelBinding * BindingState) :=
  match profiles r !! i with
  | None => Err (profile_error MissingProfile)
  | Some p => validate_entry i p;; bind p role env broker
  end.

Definition assigned (r : ModelProfileRegistry) (role : ModelRole) : option ModelProfileIdentity :=
  match role with Worker => worker r | Reviewer => reviewer r end.

(*| adk/model_profiles.rs 838-849 ModelProfileRegistry::bind *)
Definition bind_role (r : ModelProfileRegistry) (role : ModelRole) (env : string → option string)
    (broker : CredentialBroker) : result ModelProfileError (ModelBinding * BindingState) :=
  match assigned r role with
  | None => Err (profile_error MissingProfile)
  | Some i => bind_identity r role i env broker
  end.

(*| adk/model_profiles.rs 884-896 ModelProfileRegistry::bind_route *)
Definition bind_route (r : ModelProfileRegistry) (role : ModelRole) (i : ModelProfileIdentity)
    (env : string → option string) (broker : CredentialBroker) :
    result ModelProfileError (ModelBinding * BindingState) :=
  match profiles r !! i with
  | None => Err (profile_error MissingProfile)
  | Some p => validate_entry i p;; bind_for_route p role env broker None
  end.

(*| adk/model_profiles.rs 1103-1115 ModelBinding::for_node *)
Definition for_node (b : ModelBinding) (node : string) : ModelBinding :=
  mk_ModelBinding (binding_role b) (binding_identity b) (binding_runtime b) (NodeQueue node).
(*| adk/model_profiles.rs 1134-1136 ModelBinding::resume_compatible *)
Definition resume_compatible (a b : ModelBinding) : bool :=
  str_eqb (resume_identity (profile (binding_identity a)))
    (resume_identity (profile (binding_identity b))).
(*| adk/model_profiles.rs 1137-1139 ModelBinding::take_retries *)
Definition take_retries (s : BindingState) : Z * BindingState :=
  (retries s, mk_BindingState (fake_queue s) 0).

(** ** The fake model *)

(** The reference [{"$from_tool_response": {"name": .., "pointer": ..}}]. *)
(*| adk/model_profiles.rs 416-426 resolve_fake_response_reference *)
Definition response_reference (v : Value) : option (string * string) :=
  match v with
  | Object [(key, Object reference)] =>
      if str_eqb key "$from_tool_response" then
        name ← object_get "name" reference ≫= v_str;
        pointer ← object_get "pointer" reference ≫= v_str;
        Some (name, pointer)
      else None
  | _ => None
  end.

(** [Value::pointer] is third-party. *)
Class JsonPointer := json_pointer : string → Value → option Value.
Context `{!JsonPointer}.

Definition tool_response (name pointer : string) (p : Part) : option Value :=
  match p with
  | FunctionResponse name' response => if str_eqb name' name then json_pointer pointer response else None
  | _ => None
  end.

(** The parts of a request from the last to the first. *)
Definition parts_backwards (request : LlmRequest) : list Part :=
  reverse (concat (map parts (contents request))).

(*| adk/model_profiles.rs 427-444 resolve_fake_response_reference *)
Definition referenced (request : LlmRequest) (name pointer : string) : option Value :=
  head (omap (tool_response name pointer) (parts_backwards request)).

(*| adk/model_profiles.rs 412-458 resolve_fake_response_reference *)
Fixpoint resolve_reference (request : LlmRequest) (v : Value) : option Value :=
  match response_reference v with
  | Some (name, pointer) => referenced request name pointer
  | None =>
      match v with
      | Array vs => Array <$> mapM (resolve_reference request) vs
      | Object o =>
          Object <$> mapM (λ e, (λ v, (fst e, v)) <$> resolve_reference request (snd e)) o
      | v => Some v
      end
  end.

Definition resolve_part (request : LlmRequest) (p : Part) : option Part :=
  match p with
  | FunctionCall name args id signature =>
      (λ args, FunctionCall name args id signature) <$> resolve_reference request args
  | p => Some p
  end.

(*| adk/model_profiles.rs 361-368 QueuedFakeLlm::discard *)
Definition discard (n : nat) (q : QueuedFakeLlm) : QueuedFakeLlm :=
  mk_Queue (q_name q) (original q) (drop n (queued q)) (last_node q) (q_delay q).

(*| adk/model_profiles.rs 376-391 QueuedFakeLlm::generate_for *)
Definition refill (node : string) (q : QueuedFakeLlm) : QueuedFakeLlm :=
  let queue := if bool_decide (last_node q ≠ Some node) && is_nil (queued q)
               then original q else queued q in
  mk_Queue (q_name q) (original q) queue (Some node) (q_delay q).

(** The stream of one response, after [response_delay]. *)
(*| adk/model_profiles.rs 370-404 QueuedFakeLlm::generate_for *)
Definition generate_for (node : string) (request : LlmRequest) : method QueuedFakeLlm AdkError LlmResponse := λ q,
  let q := refill node q in
  match queued q with
  | [] => (q, Err (agent_error "fake model response script exhausted"))
  | response :: rest =>
      (mk_Queue (q_name q) (original q) rest (last_node q) (q_delay q),
       match content response with
       | None => Ok response
       | Some c =>
           match mapM (resolve_part request) (parts c) with
           | Some resolved => Ok (set_content (Some (mk_Content (role c) resolved)) response)
           | None => Err (agent_error "fake model response reference is unresolved")
           end
       end)
  end.
End profiles.

(** ** The registry's invariant *)

Section registry.
Context `{AdkNew, !UrlParse}.
Implicit Types (r : ModelProfileRegistry) (p : ModelProfile) (i : ModelProfileIdentity).

Record registry_wf r : Prop := {
  wf_entries i p : profiles r !! i = Some p → identity p = i ∧ validate p = Ok tt;
  wf_roles role i : assigned r role = Some i → is_Some (profiles r !! i) }.

(** The operations on a registry. *)
Inductive RegistryOp :=
| OpRegister (p : ModelProfile)
| OpRegisterRole (role : ModelRole) (p : ModelProfile)
| OpSetRole (role : ModelRole) (i : ModelProfileIdentity).
Definition apply_op (op : RegistryOp) : method ModelProfileRegistry ModelProfileError unit :=
  match op with
  | OpRegister p => register p
  | OpRegisterRole role p => register_role role p
  | OpSetRole role i => set_role role i
  end.

Lemma validate_entry_Ok i p : validate_entry i p = Ok tt ↔ i = identity p ∧ validate p = Ok tt.
Proof.
  unfold validate_entry, ensure. destruct (bool_decide_reflect (i = identity p)); cbn; naive_solver.
Qed.

Lemma validate_registry_wf r : validate_registry r = Ok tt ↔ registry_wf r.
Proof.
  unfold validate_registry. split.
  - intros ([] & He & Hr)%bind_Ok. pose proof (proj1 (for_each_Ok _ _ _) He) as He'.
    pose proof (proj1 (for_each_Ok _ _ _) Hr) as Hr'. split.
    + intros i p Hp%elem_of_map_to_list. apply He' in Hp. cbn in Hp. by apply validate_entry_Ok in Hp as [-> ?].
    + intros role i Ha. assert (i ∈ omap id [worker r; reviewer r]) as Hin.
      { apply list_elem_of_omap. exists (Some i). split; [|done]. destruct role; cbn in Ha; set_solver. }
      apply Hr', ensure_Ok in Hin. by destruct (profiles r !! i).
  - intros [He Hr]. apply bind_Ok. exists tt. split; apply for_each_Ok.
    + intros [i p] Hp%elem_of_map_to_list. apply validate_entry_Ok. by apply He in Hp as [<- ?].
    + intros i (o & Ho & E)%list_elem_of_omap. cbn in E. subst o. apply ensure_Ok.
      assert (∃ role, assigned r role = Some i) as [role Ha].
      { apply elem_of_cons in Ho as [Ho|Ho]; [by exists Worker|].
        apply list_elem_of_singleton in Ho. by exists Reviewer. }
      by destruct (Hr role i Ha) as [? ->].
Qed.

Lemma set_role_field_wf role i r :
  registry_wf r → is_Some (profiles r !! i) → registry_wf (set_role_field role i r).
Proof.
  intros [He Hr] Hi. split; [by destruct role|].
  intros [] j; destruct role; cbn; first [by intros [= <-]|apply (Hr Worker)|apply (Hr Reviewer)].
Qed.

Lemma register_outcome p r r' x :
  register p r = (r', x) →
  match x with
  | Err _ => r' = r
  | Ok _ => validate p = Ok tt ∧ profiles r !! identity p = None ∧
      r' = mk_Registry (<[identity p := p]> (profiles r)) (worker r) (reviewer r)
  end.
Proof.
  unfold register. destruct (validate p) as [[]|e]; [|by intros [= <- <-]].
  destruct (profiles r !! identity p) eqn:E; by intros [= <- <-].
Qed.

Lemma registered_wf p r :
  registry_wf r → validate p = Ok tt → profiles r !! identity p = None →
  registry_wf (mk_Registry (<[identity p := p]> (profiles r)) (worker r) (reviewer r)).
Proof.
  intros [He Hr] Hv Hn. split; cbn.
  - intros i q [[<- <-]|[_ Hq]]%lookup_insert_Some; [done|by apply He].
  - intros role i Ha. apply lookup_insert_is_Some'. right. by apply (Hr role).
Qed.

Lemma apply_op_wf op r r' x :
  registry_wf r → apply_op op r = (r', x) →
  registry_wf r' ∧ match x with Err _ => r' = r | Ok _ => True end.
Proof.
  intros Hw. destruct op as [p|role p|role i]; cbn.
  - intros Hx. pose proof (register_outcome p r r' x Hx). destruct x; [|naive_solver].
    destruct_and!. subst. split; [by apply registered_wf|done].
  - unfold register_role. destruct (register p r) as [r1 y] eqn:E.
    pose proof (register_outcome p r r1 y E). destruct y; intros [= <- <-]; [|naive_solver].
    destruct_and!. subst. split; [|done]. apply set_role_field_wf; [by apply registered_wf|].
    cbn. by rewrite lookup_insert_eq.
  - unfold set_role. destruct (profiles r !! i) eqn:E; intros [= <- <-]; split; try done.
    apply set_role_field_wf; [done|]. by rewrite E.
Qed.

Fixpoint run_ops (ops : list RegistryOp) r : ModelProfileRegistry :=
  match ops with [] => r | op :: ops => run_ops ops (fst (apply_op op r)) end.

(** C16. However profiles are registered and roles assigned, and whichever of
    those calls fail, the registry validates: every entry is stored under its
    own identity and is a valid profile, every assigned role names a registered
    profile; a call that fails changes nothing, a registered profile is never
    replaced, and validation accepts nothing else. *)
Theorem profile_registry_sound ops :
  let r := run_ops ops ModelProfileRegistry_new in
  validate_registry r = Ok tt ∧
  (∀ op, match apply_op op r with
         | (r', Err _) => r' = r
         | (r', Ok _) => validate_registry r' = Ok tt ∧ profiles r ⊆ profiles r'
         end) ∧
  (∀ r', validate_registry r' = Ok tt ↔ registry_wf r').
Proof.
  cbn zeta. assert (registry_wf (run_ops ops ModelProfileRegistry_new)) as Hw.
  { assert (∀ r, registry_wf r → registry_wf (run_ops ops r)) as Hrun.
    { induction ops as [|op ops IH]; intros r Hr; [done|]. cbn. apply IH.
      destruct (apply_op op r) as [r' x] eqn:E. by eapply apply_op_wf. }
    apply Hrun. split; [done|]. by intros []. }
  split_and!; [by apply validate_registry_wf| |apply validate_registry_wf].
  intros op. set (r := run_ops _ _) in *. destruct (apply_op op r) as [r' x] eqn:E.
  pose proof (apply_op_wf op r r' x Hw E) as [Hw' Hx]. destruct x as [[]|e]; [|done].
  split; [by apply validate_registry_wf|].
  destruct op as [p|role p|role i]; cbn in E.
  - apply register_outcome in E as (_ & Hn & ->). cbn. by apply insert_subseteq.
  - unfold register_role in E. destruct (register p r) as [r1 y] eqn:E1.
    apply register_outcome in E1. destruct y; [|done]. destruct E1 as (_ & Hn & ->).
    injection E as <-. destruct role; by apply insert_subseteq.
  - unfold set_role in E. destruct (is_some _); [|done]. injection E as <-. by destruct role.
Qed.
End registry.

(** ** What a binding holds *)

Section binding.
Context `{AdkNew, !UrlParse, !OpenAiClient}.
Implicit Types (r : ModelProfileRegistry) (p : ModelProfile) (b : ModelBinding) (s : BindingState).

Lemma profile_validate_Ok p :
  validate p = Ok tt →
  match p with
  | Fake f => forallb scripted (responses f) = true
  | OpenAiCompatible o => auth_valid o = true ∧ endpoint_valid (base_url o) = true
  end.
Proof.
  unfold validate. intros ([] & _ & Hv)%bind_Ok. apply bind_Ok in Hv as ([model url] & Hm & Hv).
  apply bind_Ok in Hv as ([] & Hu & _). apply ensure_Ok, andb_true_iff in Hu as [_ Hu].
  destruct p; apply bind_Ok in Hm as ([] & Ha%ensure_Ok & [= <- <-]); done.
Qed.

(** The part of a binding that its profile alone determines. *)
Definition bound_to p (role : ModelRole) b s : Prop :=
  validate p = Ok tt ∧ binding_role b = role ∧ profile (binding_identity b) = identity p ∧
  binding_runtime b = runtime p ∧ retries s = 0%Z ∧
  match p with
  | Fake f => llm b = SharedQueue ∧ requested_model (binding_identity b) = fake_model f ∧
      ∃ q, fake_queue s = Some q ∧ original q = queued q ∧ last_node q = None ∧
           mapM scripted_response (responses f) = Some (queued q)
  | OpenAiCompatible o => fake_queue s = None ∧ requested_model (binding_identity b) = openai_model o ∧
      ∃ client, llm b = RemoteModel client ∧ openai_accepts client = true ∧
        config_url client = base_url o ∧ endpoint_valid (base_url o) = true ∧
        resolved_model (binding_identity b) = openai_name client ∧
        schema_strict client = false ∧ client_retries client = false ∧
        match auth o with
        | NoAuth => no_auth client = true ∧ api_key client = "" ∧ url_parse (base_url o) = Some ("", None)
        | Credential h => no_auth client = false ∧ is_blank (api_key client) = false
        end
  end.

(** The secret in the client. *)
Definition client_secret b : option string :=
  match llm b with RemoteModel client => Some (api_key client) | _ => None end.

Lemma bind_resolved_bound p role secret limit b s :
  validate p = Ok tt → bind_resolved p role secret limit = Ok (b, s) →
  bound_to p role b s ∧
  (∀ o h, p = OpenAiCompatible o → auth o = Credential h → secret = client_secret b).
Proof.
  intros Hv Hb. pose proof (profile_validate_Ok p Hv) as Hp. unfold bind_resolved in Hb.
  apply bind_Ok in Hb as ([[[[l resolved] requested] provider'] queue] & Hl & [= <- <-]).
  destruct p as [f|o].
  - destruct (mapM _ _) as [queued|] eqn:Em; [|done]. injection Hl as <- <- <- <- <-.
    split; [|done]. unfold bound_to. cbn. split_and!; try done. eexists. by split_and!.
  - destruct (client_key (auth o) secret) as [key|] eqn:Ek; [|done].
    apply bind_Ok in Hl as ([] & Ha%ensure_Ok & [= <- <- <- <- <-]). destruct Hp as [Hauth Hu].
    unfold client_key in Ek. split.
    + unfold bound_to. cbn. split_and!; try done. eexists. split_and!; try done.
      unfold auth_valid in Hauth. destruct (auth o) as [h|], secret as [k|]; try done; cbn.
      * rewrite bool_decide_false by done. destruct (is_blank k) eqn:Eb; [done|].
        by injection Ek as <-.
      * injection Ek as <-. rewrite bool_decide_true by done. split_and!; try done.
        destruct (url_parse _) as [[u [pw|]]|]; cbn in Hauth; try by rewrite ?andb_false_r in Hauth.
        by destruct u.
    + intros o' h [= <-] Eo. rewrite Eo in Ek. unfold client_secret. cbn. destruct secret as [k|]; [|done].
      destruct (is_blank k); [done|]. by injection Ek as <-.
Qed.

(** A binding that a registry hands out is that of the valid profile the
    role is assigned to, with the profile's own policy, no retries counted and
    the provider's own retries and strict schemas off.  Only a profile that asks
    for a credential reads one: its client holds exactly the value its handle
    resolves to, which is not blank; every other profile binds to the same
    client whatever the environment and the secrets are, and a profile without
    authentication has an endpoint that carries none. *)
Theorem model_binding_exact r role env broker b s :
  bind_role r role env broker = Ok (b, s) →
  ∃ p, assigned r role = Some (identity p) ∧ profiles r !! identity p = Some p ∧ bound_to p role b s ∧
    match p with
    | OpenAiCompatible (mk_OpenAi _ _ _ _ (Credential h) _ _) =>
        ∃ key, resolve env broker h = Ok key ∧ client_secret b = Some key
    | _ => ∀ env' broker', bind_role r role env' broker' = Ok (b, s)
    end.
Proof.
  unfold bind_role, bind_identity, bind. destruct (assigned r role) as [i|]; [|done].
  destruct (profiles r !! i) as [p|] eqn:Ep; [|done].
  intros ([] & [-> Hv]%validate_entry_Ok & Hb)%bind_Ok.
  apply bind_Ok in Hb as ([] & _ & (secret & Hs & Hb)%bind_Ok).
  destruct (bind_resolved_bound p role secret None b s Hv Hb) as [Hbound Hsecret].
  exists p. split_and!; [done|done|done|].
  destruct p as [f|[i' pr m u [h|] rt tk]]; cbn in Hs.
  - injection Hs as <-. intros env' broker'. apply bind_Ok. exists tt.
    split; [by apply validate_entry_Ok|]. apply bind_Ok. by exists tt.
  - rewrite <- (Hsecret _ h eq_refl eq_refl). destruct (resolve env broker h) as [key|]; [|done].
    injection Hs as <-. by exists key.
  - injection Hs as <-. intros env' broker'. apply bind_Ok. exists tt.
    split; [by apply validate_entry_Ok|]. apply bind_Ok. by exists tt.
Qed.
End binding.

(** ** Scripted answers *)

Section script.
Context `{AdkNew, !JsonPointer}.
Implicit Types (q : QueuedFakeLlm) (request : LlmRequest).

(** What one scripted response becomes for a request. *)
Definition answer (response : LlmResponse) request : result AdkError LlmResponse :=
  match content response with
  | None => Ok response
  | Some c =>
      match mapM (resolve_part request) (parts c) with
      | Some resolved => Ok (set_content (Some (mk_Content (role c) resolved)) response)
      | None => Err (agent_error "fake model response reference is unresolved")
      end
  end.

(** A sequence of calls, each of a node with its request. *)
Fixpoint generate_all (calls : list (string * LlmRequest)) q : list (result AdkError LlmResponse) :=
  match calls with
  | [] => []
  | (node, request) :: calls =>
      let '(q, r) := generate_for node request q in r :: generate_all calls q
  end.

Lemma generate_for_step node request q :
  generate_for node request q =
  match queued (refill node q) with
  | [] => (refill node q, Err (agent_error "fake model response script exhausted"))
  | response :: rest =>
      (mk_Queue (q_name q) (original q) rest (Some node) (q_delay q), answer response request)
  end.
Proof. unfold generate_for. by destruct (queued (refill node q)). Qed.

(** The answers of one node's calls once the queue is its own. *)
Lemma same_node_answers node requests q :
  last_node q = Some node →
  generate_all (map (λ r, (node, r)) requests) q =
  zip_with answer (queued q) requests ++
  replicate (length requests - length (queued q)) (Err (agent_error "fake model response script exhausted")).
Proof.
  revert q. induction requests as [|request requests IH]; intros q Hn; [by destruct (queued q)|].
  cbn [map generate_all]. rewrite generate_for_step.
  assert (refill node q = q) as ->.
  { unfold refill. rewrite Hn. rewrite bool_decide_false by naive_solver. cbn. destruct q; cbn in *. by subst. }
  destruct (queued q) as [|response rest] eqn:Eq; cbn [zip_with length].
  - rewrite IH by done. rewrite Eq. cbn. by rewrite Nat.sub_0_r.
  - rewrite IH by done. done.
Qed.

(** A scripted model answers the calls of one node with its script in
    order, each reference in it resolved against that call's own request, and
    fails every call after the last response; the script starts again only when
    another node finds it used up, and a call whose reference cannot be resolved
    has used its response up all the same. *)
Theorem fake_script_exact name script delay node requests :
  let q := QueuedFakeLlm_new name script delay in
  let exhausted := Err (agent_error "fake model response script exhausted") in
  generate_all (map (λ r, (node, r)) requests) q =
    zip_with answer script requests ++ replicate (length requests - length script) exhausted ∧
  (∀ q node' request, last_node q = Some node → node' ≠ node →
     queued q = [] → original q ≠ [] →
     generate_all [(node', request)] q = zip_with answer (original q) [request]) ∧
  (∀ q request, queued q ≠ [] → queued (fst (generate_for node request q)) = tail (queued q)).
Proof.
  intros q exhausted. split_and!.
  - destruct requests as [|request requests]; [by destruct script|]. cbn [map generate_all].
    rewrite generate_for_step. assert (queued (refill node q) = script) as -> by by destruct script.
    destruct script as [|response rest]; cbn [zip_with length].
    + rewrite same_node_answers by done. cbn. by rewrite Nat.sub_0_r.
    + by rewrite same_node_answers.
  - intros q' node' request Hl Hne Hq Ho. cbn. rewrite generate_for_step. unfold refill.
    rewrite Hl, Hq. rewrite bool_decide_true by (intros [= E]; by apply Hne). cbn. destruct (original q') as [|x l]; [done|]. cbn. by destruct l.
  - intros q' request Hq. rewrite generate_for_step. unfold refill.
    assert (is_nil (queued q') = false) as -> by by destruct (queued q'). rewrite andb_false_r. cbn.
    by destruct (queued q').
Qed.
End script.

(** ** Resume identities *)

(** Two profiles can have one resume identity: a colon may be in a name or in
    a version. *)
Theorem resume_identity_collision :
  ∃ i j : ModelProfileIdentity, i ≠ j ∧ name i ≠ "" ∧ version i ≠ "" ∧ name j ≠ "" ∧ version j ≠ "" ∧
    resume_identity i = resume_identity j.
Proof. by exists (mk_Identity "a:b" "c"), (mk_Identity "a" "b:c"). Qed.

(** ** Witnesses *)

Section witnesses.
#[local] Existing Instance ex_json_Z.
#[local] Existing Instance ex_adk_llm.
#[local] Existing Instance ex_adk_new.
#[local] Instance ex_url : UrlParse := λ url, if endpoint_valid url then Some ("", None) else None.
#[local] Instance ex_client : OpenAiClient := {| openai_accepts _ := true; openai_name c := config_model c |}.

Definition ex_remote : ModelProfile :=
  OpenAiCompatible (OpenAiCompatibleProfile_new "coder" "1" "m" "https://models" (Environment "KEY")).
Definition ex_registry : ModelProfileRegistry :=
  mk_Registry {[identity ex_remote := ex_remote]} (Some (identity ex_remote)) None.
Definition ex_env (variable : string) : option string := if str_eqb variable "KEY" then Some "k" else None.
Definition ex_broker : CredentialBroker := mk_CredentialBroker None.

Lemma ex_registered : profiles ex_registry !! identity ex_remote = Some ex_remote.
Proof. apply lookup_singleton_eq. Qed.

Lemma ex_bound : ∃ b s, bind_role ex_registry Worker ex_env ex_broker = Ok (b, s).
Proof.
  unfold bind_role, bind_identity. change (assigned ex_registry Worker) with (Some (identity ex_remote)).
  cbv iota beta. rewrite ex_registered. eexists _, _. reflexivity.
Qed.

Lemma model_binding_exact_witness :
  ∃ b s, bind_role ex_registry Worker ex_env ex_broker = Ok (b, s) ∧ bound_to ex_remote Worker b s ∧
    client_secret b = Some "k".
Proof.
  destruct ex_bound as (b & s & E). exists b, s. split; [done|].
  destruct (model_binding_exact ex_registry Worker ex_env ex_broker b s E) as (p & Ha & Hp & Hb & Hs).
  assert (Some ex_remote = Some p) as [= <-].
  { rewrite <- Hp, <- ex_registered. f_equal. by injection Ha. }
  split; [done|]. destruct Hs as (key & Hk & ->). by injection Hk as <-.
Defined.
End witnesses.
