(* ===== verification/ModelTelemetry.v ===== *)
(** * Measured usage and telemetry of a model call

    The payload-free facts that [workflow-adk/src/model_telemetry.rs] attaches to
    the last response of a call, and what they are made of: the canonical JSON
    text, the digest and the provider's token counters of
    [workflow-adk/src/model_invocation.rs].  The derived JSON of a content and of
    the telemetry record is generated code: the class [TelemetryJson]. *)

From S2P Require Import Prelude Hashing Json JsonRead JsonMap Text Frame Llm ModelProfiles.

#[local] Arguments String.append !_ _ /.

Section text.
Context `{JsonText}.

(*| adk/model_invocation.rs 1314-1342 canonical_json *)
Fixpoint canonical_json (value : Value) : string :=
  match value with
  | Null => "null"
  | Bool b => bool_text b
  | Number n => number_text n
  | VString s => string_text s
  | Array values => "[" +:+ String.concat "," (map canonical_json values) +:+ "]"
  | Object o =>
      let fields := map (λ e, (fst e, canonical_json (snd e))) o in
      "{" +:+ String.concat "," (map entry_text (sort_by_key fst fields)) +:+ "}"
  end.

Lemma concat_comma texts : String.concat "," texts = comma_separated texts.
Proof.
  destruct texts as [|t texts]; [done|]. cbn. revert t.
  induction texts as [|u texts IH]; intros t; cbn; [by rewrite str_app_nil_r|]. by rewrite IH.
Qed.

(** The two canonical writers of the repository write the same text. *)
Lemma canonical_json_write v : canonical_json v = write_canonical_json v.
Proof.
  induction v as [| | | |l IH|o IH] using Value_nested_ind; cbn; try done; rewrite concat_comma.
  - do 3 f_equal. apply map_ext_in. intros v Hv%list_elem_of_In. rewrite Forall_forall in IH. auto.
  - do 5 f_equal. apply map_ext_in. intros e He%list_elem_of_In. rewrite Forall_forall in IH.
    by rewrite (IH e He).
Qed.
End text.

(*| adk/model_invocation.rs 719-726 ProviderTokenUsage *)
Record ProviderTokenUsage := mk_Usage {
  input_tokens : option Z; output_tokens : option Z; total_tokens : option Z;
  cache_read_tokens : option Z; cache_write_tokens : option Z; reasoning_tokens : option Z }.
#[export] Instance ProviderTokenUsage_eq_dec : EqDecision ProviderTokenUsage.
Proof. solve_decision. Defined.

Section usage.
Context `{JsonRead}.

Definition field_u64 (key : string) (v : Value) : option Z := get_value key v ≫= v_u64.

(*| adk/model_invocation.rs 729-758 ProviderTokenUsage::from_provider_usage *)
Definition from_provider_usage (raw : Value) : option ProviderTokenUsage :=
  o ← v_object raw;
  let raw := Object o in
  let details := get_value "prompt_tokens_details" raw in
  let usage := mk_Usage (field_u64 "prompt_tokens" raw) (field_u64 "completion_tokens" raw)
    (field_u64 "total_tokens" raw) (details ≫= field_u64 "cached_tokens")
    (details ≫= field_u64 "cache_write_tokens")
    (get_value "completion_tokens_details" raw ≫= field_u64 "reasoning_tokens") in
  if existsb is_some [input_tokens usage; output_tokens usage; total_tokens usage;
                      cache_read_tokens usage; cache_write_tokens usage; reasoning_tokens usage]
  then Some usage else None.

Lemma from_provider_usage_u64 `{!IntJson, !JsonReadLaws} raw usage :
  from_provider_usage raw = Some usage →
  Forall (from_option u64 True) [input_tokens usage; output_tokens usage; total_tokens usage;
    cache_read_tokens usage; cache_write_tokens usage; reasoning_tokens usage].
Proof.
  unfold from_provider_usage. destruct (v_object raw) as [o|]; [|done]. cbn [mbind option_bind].
  destruct (existsb _ _); [|done]. intros [= <-].
  assert (∀ k v, from_option u64 True (field_u64 k v)) as Hf.
  { intros k v. unfold field_u64. destruct (get_value k v) as [x|]; [|done]. cbn.
    destruct x; cbn; try done. destruct (number_as_u64 _) eqn:E; [|done]. by apply as_u64_Some in E as [? _]. }
  assert (∀ k (d : option Value), from_option u64 True (d ≫= field_u64 k)) as Hd by (intros k [v|]; [apply Hf|done]).
  repeat constructor; cbn [input_tokens output_tokens total_tokens cache_read_tokens
    cache_write_tokens reasoning_tokens]; first [apply Hf|apply Hd].
Qed.
End usage.

Section telemetry.
Context `{JsonRead, !AdkLlm, !Sha256}.

Definition usage_of (r : LlmResponse) : option ProviderTokenUsage :=
  (usage_metadata r ≫= provider_usage) ≫= from_provider_usage.

(*| adk/model_telemetry.rs 15-20 MeasuredRouteV1 *)
Record MeasuredRouteV1 := mk_MeasuredRoute {
  route_profile : option ModelProfileIdentity; route_provider : option string;
  route_requested_model : option string; route_resolved_model : option string }.

(*| adk/model_telemetry.rs 22-22 METADATA_KEY *)
Definition METADATA_KEY : string := "workflow_kit.model_telemetry_v1".

(*| adk/model_telemetry.rs 29-63 ModelTelemetryV1 *)
Record ModelTelemetryV1 := mk_Telemetry {
  telemetry_version : Z; route : MeasuredRouteV1; wire_model : option string;
  reasoning_mode : option string; measured_usage : option ProviderTokenUsage;
  sdk_estimated_cost_usd : option Z; host_prefix_hash_field : string;
  request_cache_salt_hash : option string; telemetry_retries : Z }.

Class TelemetryJson := {
  content_value : Content → Value;
  telemetry_value : ModelTelemetryV1 → option Value
}.
Context `{!TelemetryJson}.

(*| adk/model_telemetry.rs 184-191 public_alias *)
Definition public_alias (value : string) : option string :=
  if negb (str_is_empty value) && (str_len value <=? 256)%Z &&
     str_all (λ c, is_ascii_alphanumeric c || existsb (Ascii.eqb c) ["_"; "."; "/"; "-"]%char) value
  then Some value else None.

Fixpoint take_while {A : Type} (p : A → bool) (l : list A) : list A :=
  match l with [] => [] | x :: l => if p x then x :: take_while p l else [] end.

(*| adk/model_telemetry.rs 171-182 host_prefix_hash *)
Definition host_prefix_hash (request : LlmRequest) : string :=
  let leading := take_while (λ c, str_eqb (role c) "system") (contents request) in
  digest_bytes (canonical_json (Object [
    ("leading_system", Array (map content_value leading)); ("model", VString (model request));
    ("response_schema", jopt id (config request ≫= response_schema));
    ("tools", Object (btree_entries (tools request)))])).

(*| adk/model_telemetry.rs 72-80 attach *)
Definition strip_telemetry (r : LlmResponse) : LlmResponse :=
  match provider_metadata r with
  | Some (Object o) => set_metadata (Some (Object (object_remove METADATA_KEY o))) r
  | _ => r
  end.

(*| adk/model_telemetry.rs 99-108 attach *)
Definition known_reasoning_mode (extension : option Value) : option string :=
  mode ← extension ≫= get_str "reasoning_effort";
  if existsb (str_eqb mode) ["none"; "minimal"; "low"; "medium"; "high"; "xhigh"; "max"]
  then Some mode else None.

(*| adk/model_telemetry.rs 95-159 attach *)
Definition telemetry_of (b : ModelBinding) (request : LlmRequest)
    (measured : option ProviderTokenUsage) (last : LlmResponse) (retried : bool) : ModelTelemetryV1 :=
  let identity := binding_identity b in
  let extension := c ← config request; extensions c !! "openai" in
  let profile :=
    match public_alias (name (profile identity)), public_alias (version (profile identity)) with
    | Some name, Some version => Some (mk_Identity name version)
    | _, _ => None
    end in
  mk_Telemetry 1
    (mk_MeasuredRoute profile (public_alias (provider identity))
      (public_alias (requested_model identity)) (public_alias (resolved_model identity)))
    (match extension ≫= get_value "model" with
     | Some v => v_str v ≫= public_alias
     | None => public_alias (resolved_model identity)
     end)
    (known_reasoning_mode extension) measured
    (c ← (usage_metadata last ≫= cost); if f64_is_finite c && f64_nonnegative c then Some c else None)
    (host_prefix_hash request)
    (digest_bytes <$> (extension ≫= get_str "cache_salt"))
    (if retried then 1 else 0).

(*| adk/model_telemetry.rs 162-166 attach *)
Definition with_telemetry (value : Value) (r : LlmResponse) : LlmResponse :=
  let o := match provider_metadata r with Some (Object o) => o | _ => [] end in
  set_metadata (Some (Object (object_insert METADATA_KEY value o))) r.

(** [None]: the telemetry cannot be serialized. *)
(*| adk/model_telemetry.rs 65-168 attach *)
Definition attach (b : ModelBinding) (request : LlmRequest) (items : list LlmResponse)
    (retried : bool) : option (list LlmResponse) :=
  let items := map strip_telemetry items in
  let measured := list.last (omap usage_of items) in
  match list.last items with
  | None => Some items
  | Some last_item =>
      value ← telemetry_value (telemetry_of b request measured last_item retried);
      Some (take (length items - 1) items ++ [with_telemetry value last_item])
  end.
End telemetry.
