(* ===== verification/ModelCalls.v ===== *)
(** * Calls through a model binding

    The calls of [workflow-adk/src/model_profiles.rs] through a [ModelBinding]:
    the runtime policy merged into a request, the stream whose failures are
    converted and whose deadline is enforced, and the collected call with its one
    retry.  The provider is the argument [call_model]: from a request and its
    own state to the state after it and what came of the call.  What time does is
    in the environment: an expired deadline is an outcome or an event of the
    stream, and the clock checks between attempts are [Clock]. *)

From S2P Require Import Prelude Hashing Json JsonRead JsonMap Text Frame Llm ModelProfiles ModelTelemetry.

#[local] Arguments String.append !_ _ /.

(*| adk/model_invocation.rs 244-248 ReasoningEffort *)
Inductive ReasoningEffort := Low | Medium | XHigh.
#[export] Instance ReasoningEffort_eq_dec : EqDecision ReasoningEffort.
Proof. solve_decision. Defined.
(** The names of the derived codec and of [Display]. *)
(*| adk/model_invocation.rs 1350-1356 ReasoningEffort::fmt *)
Definition effort_name (e : ReasoningEffort) : string :=
  match e with Low => "low" | Medium => "medium" | XHigh => "x_high" end.
Definition effort_of_name (name : string) : option ReasoningEffort :=
  List.find (λ e, str_eqb (effort_name e) name) [Low; Medium; XHigh].
(** The name of an effort on the provider's wire. *)
(*| adk/model_profiles.rs 1229-1233 ModelBinding::apply_runtime *)
Definition effort_wire (e : ReasoningEffort) : string :=
  match e with Low => "low" | Medium => "medium" | XHigh => "xhigh" end.

Section calls.
Context `{JsonRead, !IntJson, !AdkLlm, !AdkNew, !Sha256, !TelemetryJson}.

(** [from_value::<ReasoningEffort>]: the name, or the name with a null content. *)
Definition effort_of_value (v : Value) : option ReasoningEffort :=
  match v with
  | VString name => effort_of_name name
  | Object [(name, Null)] => effort_of_name name
  | _ => None
  end.

Definition or_else {A : Type} (a b : option A) : option A := match a with Some _ => a | None => b end.

(** ** The runtime policy in a request *)

(*| adk/model_profiles.rs 1168-1190 ModelBinding::apply_runtime *)
Definition apply_sampling (s : SamplingConfig) (c : GenerateConfig) : GenerateConfig :=
  mk_GenerateConfig (or_else (s_temperature s) (temperature c)) (or_else (s_top_p s) (top_p c))
    (or_else (s_top_k s) (top_k c)) (or_else (s_frequency_penalty s) (frequency_penalty c))
    (or_else (s_presence_penalty s) (presence_penalty c))
    (or_else (max_output_tokens c) (s_max_output_tokens s)) (or_else (seed c) (s_seed s))
    (response_schema c) (extensions c).

Definition set_extensions (e : gmap string Value) (c : GenerateConfig) : GenerateConfig :=
  mk_GenerateConfig (temperature c) (top_p c) (top_k c) (frequency_penalty c) (presence_penalty c)
    (max_output_tokens c) (seed c) (response_schema c) e.

(*| adk/model_profiles.rs 1191-1203 ModelBinding::apply_runtime *)
Definition merge_extension (e : gmap string Value) (entry : string * Value) : gmap string Value :=
  let '(namespace, value) := entry in
  match e !! namespace with
  | Some (Object existing) =>
      match value with
      | Object incoming => <[namespace := Object (object_extend existing incoming)]> e
      | _ => e
      end
  | _ => <[namespace := value]> e
  end.

(*| adk/model_profiles.rs 1204-1209 ModelBinding::apply_runtime *)
Definition invocation_effort (metadata : Value) : option ReasoningEffort :=
  get_value "reasoning_effort" metadata ≫= effort_of_value.

(*| adk/model_profiles.rs 1213-1223 ModelBinding::apply_runtime *)
Definition restore_metadata (metadata : Value) (e : gmap string Value) : gmap string Value :=
  match e !! "workflow_kit", metadata with
  | Some (Object combined), Object original =>
      <["workflow_kit" := Object (object_extend combined original)]> e
  | _, _ => <["workflow_kit" := metadata]> e
  end.

(*| adk/model_profiles.rs 1224-1241 ModelBinding::apply_runtime *)
Definition own_budget (effort : ReasoningEffort) (cap : option Z) (e : gmap string Value) :
    gmap string Value :=
  let openai := match e !! "openai" with Some (Object o) => o | _ => [] end in
  let openai := object_insert "reasoning_effort" (VString (effort_wire effort)) openai in
  let openai := match cap with
    | Some cap => object_insert "max_completion_tokens" (jnum cap) (object_remove "max_tokens" openai)
    | None => openai
    end in
  <["openai" := Object openai]> e.

(*| adk/model_profiles.rs 1165-1244 ModelBinding::apply_runtime *)
Definition apply_runtime (rt : ModelRuntimeConfig) (request : LlmRequest) : LlmRequest :=
  let c := default default_config (config request) in
  let invocation := extensions c !! "workflow_kit" in
  let c := apply_sampling (sampling rt) c in
  let e := foldl merge_extension (extensions c) (btree_entries (provider_extensions rt)) in
  let e := match invocation with
    | Some metadata =>
        match invocation_effort metadata with
        | Some effort => own_budget effort (max_output_tokens c) (restore_metadata metadata e)
        | None => e
        end
    | None => e
    end in
  set_config (set_extensions e c) request.

(** ** Failures *)

(*| adk/model_profiles.rs 1547-1549 retryable_provider_error *)
Definition retryable_provider_error (e : AdkError) : bool :=
  is_rate_limited e || bool_decide (upstream_status_code e = Some 429%Z).

Definition valid_status (status : option Z) : option Z :=
  s ← status; if (100 <=? s)%Z && (s <=? 599)%Z then Some s else None.

(*| adk/model_profiles.rs 1274-1292 map_adk_error *)
Definition map_adk_error (profile : ModelProfileIdentity) (e : AdkError) : ModelProfileError :=
  let kind :=
    if retryable_provider_error e then RetryableProvider
    else match category e with
    | TimeoutCategory => Timeout
    | InvalidInput => InvalidRequest
    | RateLimited | Unavailable => RetryableProvider
    | _ => Provider
    end in
  mk_ModelProfileError kind (Some profile) (valid_status (upstream_status_code e)).

(*| adk/model_profiles.rs 1523-1545 response_failure *)
Definition response_failure (r : LlmResponse) : option AdkError :=
  let failed_finish := match finish_reason r with None | Some Stop => false | Some _ => true end in
  if is_some (error_code r) || is_some (error_message r) || interrupted r || failed_finish
  then Some (error_new ModelComponent Internal "model.profile.unreachable") else None.

(*| adk/model_profiles.rs 1450-1456 profile_timeout *)
Definition profile_timeout : AdkError := timeout_error ModelComponent "model.profile.timeout".

(*| adk/model_profiles.rs 1551-1572 provider_adk_error *)
Definition provider_adk_error (e : AdkError) : AdkError :=
  let is_timeout := bool_decide (category e = TimeoutCategory) in
  let code :=
    if is_timeout then "model.profile.timeout"
    else if bool_decide (component e = ModelComponent) && bool_decide (category e = Internal) &&
            str_eqb (code e) "model.openai_compat.invalid_tool_arguments"
    then "model.call.malformed_tool"
    else "model.profile.unreachable" in
  let sanitized := error_new ModelComponent (category e) code in
  let sanitized := if is_timeout then set_retry (retry e) sanitized else sanitized in
  set_status (valid_status (upstream_status_code e)) sanitized.

(** ** The provider *)

(** What a stream yields before it ends; [Expired]: the deadline passes first. *)
Inductive StreamEvent := Item (item : result AdkError LlmResponse) | Expired.
(** What comes of a call: the deadline passes, it fails, or it streams. *)
Inductive CallOutcome := CallExpired | CallFailed (e : AdkError) | CallStream (events : list StreamEvent).

Context {S : Type} (call_model : LlmRequest → S → S * CallOutcome).

(*| adk/model_profiles.rs 1247-1272 timed_response_stream *)
Fixpoint timed_response_stream (profile : ModelProfileIdentity) (events : list StreamEvent) :
    list (result ModelProfileError LlmResponse) :=
  match events with
  | [] => []
  | Expired :: _ => [Err (timeout_for profile)]
  | Item (Err e) :: events => Err (map_adk_error profile e) :: timed_response_stream profile events
  | Item (Ok response) :: events =>
      match response_failure response with
      | Some e => [Err (map_adk_error profile e)]
      | None => Ok response :: timed_response_stream profile events
      end
  end.

(** [ModelBinding::generate_content]: the stream of a call. *)
(*| adk/model_profiles.rs 1141-1159 ModelBinding::generate_content *)
Definition generate_stream (b : ModelBinding) (request : LlmRequest) :
    method S ModelProfileError (list (result ModelProfileError LlmResponse)) := λ s,
  let '(s, outcome) := call_model (apply_runtime (binding_runtime b) request) s in
  (s, match outcome with
      | CallExpired => Err (profile_error Timeout)
      | CallFailed e => Err (map_adk_error (profile (binding_identity b)) e)
      | CallStream events => Ok (timed_response_stream (profile (binding_identity b)) events)
      end).

(** ** The collected call *)

Definition payload_part (p : Part) : bool :=
  match p with Text _ | FunctionCall _ _ _ _ => true | _ => false end.
(*| adk/model_profiles.rs 1513-1521 response_has_model_payload *)
Definition response_has_model_payload (r : LlmResponse) : bool :=
  from_option (λ c, existsb payload_part (parts c)) false (content r).

(*| adk/model_profiles.rs 1465-1485 collect_payloads *)
Fixpoint collect_items (events : list StreamEvent) (items : list LlmResponse)
    (latest_usage : option UsageMetadata) : result AdkError (list LlmResponse * option UsageMetadata) :=
  match events with
  | [] => Ok (items, latest_usage)
  | Expired :: _ => Err profile_timeout
  | Item (Err e) :: _ => Err e
  | Item (Ok response) :: events =>
      match response_failure response with
      | Some e => Err e
      | None =>
          let latest_usage := if is_some (usage_of response) then usage_metadata response else latest_usage in
          collect_items events
            (if response_has_model_payload response then items ++ [response] else items) latest_usage
      end
  end.

Definition set_last_usage (usage : option UsageMetadata) (items : list LlmResponse) : list LlmResponse :=
  match usage, list.last items with
  | Some _, Some r => take (length items - 1) items ++ [set_usage usage r]
  | _, _ => items
  end.

(*| adk/model_profiles.rs 1458-1493 collect_payloads *)
Definition collect_payloads (events : list StreamEvent) : result AdkError (list LlmResponse) :=
  '(items, latest_usage) ← collect_items events [] None;
  if is_nil items then Err (agent_error "model.profile.unreachable")
  else Ok (set_last_usage latest_usage items).

(** Whether the deadline has passed when an attempt starts and when its call
    is made. *)
Record Clock := mk_Clock { passed : bool; nothing_left : bool }.

(*| adk/model_profiles.rs 1495-1511 generate_once *)
Definition generate_once (request : LlmRequest) (clock : Clock) : method S AdkError (list LlmResponse) := λ s,
  if nothing_left clock then (s, Err profile_timeout)
  else
    let '(s, outcome) := call_model request s in
    (s, match outcome with
        | CallExpired => Err profile_timeout
        | CallFailed e => Err e
        | CallStream events => collect_payloads events
        end).

(** The loop of [Llm for ModelBinding], over the provider's state and the count
    of retries; [None] when the fuel ends. *)
(*| adk/model_profiles.rs 1429-1446 ModelBinding::generate_content *)
Fixpoint generate_loop (fuel : nat) (b : ModelBinding) (request : LlmRequest) (clocks : bool → Clock)
    (retried : bool) (s : S * Z) : S * Z * option (result AdkError (list LlmResponse)) :=
  match fuel with
  | 0 => (s, None)
  | Datatypes.S fuel =>
      let '(model, retries) := s in
      if passed (clocks retried) then (model, retries, Some (Err (provider_adk_error profile_timeout)))
      else
        let '(model, r) := generate_once request (clocks retried) model in
        match r with
        | Ok items =>
            (model, retries,
             Some (from_option Ok (Err (model_error "invalid telemetry")) (attach b request items retried)))
        | Err e =>
            if negb retried && retryable_provider_error e
            then generate_loop fuel b request clocks true (model, u64_add retries 1)
            else (model, retries, Some (Err (provider_adk_error e)))
        end
  end.

(*| adk/model_profiles.rs 1422-1447 ModelBinding::generate_content *)
Definition generate_content (b : ModelBinding) (request : LlmRequest) (clocks : bool → Clock) (s : S * Z) :
    S * Z * option (result AdkError (list LlmResponse)) :=
  generate_loop 2 b (apply_runtime (binding_runtime b) request) clocks false s.
End calls.

(** ** The budget of an invocation on the wire *)

Section budget.
Context `{JsonRead, !IntJson, !AdkLlm}.
Implicit Types (e : gmap string Value) (rt : ModelRuntimeConfig) (c : GenerateConfig).

(** Every object of a map is an object: its keys are unique. *)
Definition objects_wf e : Prop := ∀ namespace o, e !! namespace = Some (Object o) → object_wf o.

Lemma objects_wf_insert e k v :
  objects_wf e → (∀ o, v = Object o → object_wf o) → objects_wf (<[k := v]> e).
Proof. intros He Hv ns o [[_ E]|[_ E]]%lookup_insert_Some; [by apply Hv|by eapply He]. Qed.

Lemma merge_extension_wf e entry :
  objects_wf e → (∀ o, snd entry = Object o → object_wf o) → objects_wf (merge_extension e entry).
Proof.
  destruct entry as [ns v]. cbn [snd]. intros He Hv. unfold merge_extension.
  destruct (e !! ns) as [[| | | | |existing]|] eqn:E; try by apply objects_wf_insert.
  destruct v; try done. apply objects_wf_insert; [done|]. intros o [= <-].
  apply object_extend_wf. by eapply He.
Qed.

Lemma merge_extensions_wf l e :
  objects_wf e → (∀ k o, (k, Object o) ∈ l → object_wf o) → objects_wf (foldl merge_extension e l).
Proof.
  revert e. induction l as [|[k v] l IH]; intros e He Hl; [done|]. cbn [foldl]. apply IH.
  - apply merge_extension_wf; [done|]. cbn. intros o ->. apply (Hl k). set_solver.
  - intros k' o Hin. apply (Hl k'). set_solver.
Qed.

Lemma restore_metadata_spec e m :
  objects_wf e → object_wf m →
  objects_wf (restore_metadata (Object m) e) ∧
  ∃ w, restore_metadata (Object m) e !! "workflow_kit" = Some (Object w) ∧
       ∀ k v, object_get k m = Some v → object_get k w = Some v.
Proof.
  intros He Hm. unfold restore_metadata.
  destruct (e !! "workflow_kit") as [[| | | | |combined]|] eqn:E;
    try (split; [apply objects_wf_insert; [done|]; by intros ? [= <-]|]; exists m; by rewrite lookup_insert_eq).
  split.
  - apply objects_wf_insert; [done|]. intros ? [= <-]. apply object_extend_wf. by eapply He.
  - eexists. rewrite lookup_insert_eq. split; [done|]. intros k v Hk.
    rewrite object_get_extend by first [done|by eapply He]. by rewrite Hk.
Qed.

Lemma own_budget_spec effort cap e :
  objects_wf e →
  (∀ ns, ns ≠ "openai" → own_budget effort cap e !! ns = e !! ns) ∧
  ∃ o, own_budget effort cap e !! "openai" = Some (Object o) ∧
    object_get "reasoning_effort" o = Some (VString (effort_wire effort)) ∧
    ∀ n, cap = Some n → object_get "max_completion_tokens" o = Some (jnum n) ∧ object_get "max_tokens" o = None.
Proof.
  intros He. unfold own_budget. set (openai := match e !! "openai" with Some (Object o) => o | _ => [] end).
  assert (object_wf openai) as Ho.
  { subst openai. destruct (e !! "openai") as [[]|] eqn:E; try apply NoDup_nil_2. by eapply He. }
  split; [intros ns Hns; by rewrite lookup_insert_ne|]. eexists. rewrite lookup_insert_eq. split; [done|].
  assert (object_wf (object_insert "reasoning_effort" (VString (effort_wire effort)) openai)) as Hr
    by by apply object_insert_wf.
  destruct cap as [cap|].
  - pose proof (proj1 (object_remove_wf "max_tokens" _ Hr)) as Hm. split.
    + rewrite object_get_insert_ne, object_get_remove_ne by done. by apply object_get_insert.
    + intros n [= <-]. rewrite object_get_insert by done. split; [done|].
      rewrite object_get_insert_ne by done. apply object_get_remove.
  - split; [by apply object_get_insert|done].
Qed.

(** An invocation owns its budget: whatever the profile's runtime policy
    says, the request on the wire keeps the invocation's token cap, seed, schema
    and metadata - the policy fills only what the invocation left out - and its
    provider options carry exactly the invocation's reasoning effort and, under
    the one name the provider reads, its token cap. *)
Theorem invocation_owns_budget rt request c m effort :
  config request = Some c → extensions c !! "workflow_kit" = Some (Object m) →
  invocation_effort (Object m) = Some effort →
  objects_wf (extensions c) → objects_wf (provider_extensions rt) →
  let sent := apply_runtime rt request in
  contents sent = contents request ∧ tools sent = tools request ∧ model sent = model request ∧
  ∃ c', config sent = Some c' ∧ response_schema c' = response_schema c ∧
    (∀ cap, max_output_tokens c = Some cap → max_output_tokens c' = Some cap) ∧
    (∀ s, seed c = Some s → seed c' = Some s) ∧
    ∃ w o, extensions c' !! "workflow_kit" = Some (Object w) ∧
      (∀ k v, object_get k m = Some v → object_get k w = Some v) ∧
      extensions c' !! "openai" = Some (Object o) ∧
      object_get "reasoning_effort" o = Some (VString (effort_wire effort)) ∧
      ∀ cap, max_output_tokens c' = Some cap →
        object_get "max_completion_tokens" o = Some (jnum cap) ∧ object_get "max_tokens" o = None.
Proof.
  intros Hc Hw Heff Hx Hp sent. subst sent. unfold apply_runtime. rewrite Hc. cbn zeta. cbn [from_option id].
  rewrite Hw, Heff. cbn [set_config contents tools model config]. do 3 (split; [done|]).
  eexists. split; [done|]. cbn [set_extensions apply_sampling response_schema max_output_tokens seed extensions].
  split; [done|]. split; [by intros cap ->|]. split; [by intros s ->|].
  set (merged := foldl _ _ _). assert (objects_wf merged) as Hmerged.
  { apply merge_extensions_wf; [done|]. intros k o Hin%elem_of_btree_entries. by eapply Hp. }
  destruct (restore_metadata_spec merged m Hmerged (Hx _ _ Hw)) as (Hr & w & Hkit & Hwk).
  set (cap := or_else _ _).
  destruct (own_budget_spec effort cap _ Hr) as (Hns & o & Ho & Heo & Hcap).
  exists w, o. rewrite Hns by done. split_and!; auto.
Qed.
End budget.

(** ** The collected call *)

Section collected.
Context `{JsonRead, !IntJson, !AdkLlm, !AdkNew, !AdkNewLaws, !Sha256, !TelemetryJson}.
Implicit Types (r : LlmResponse) (items : list LlmResponse).

(** What a collected response is, its telemetry and its usage apart. *)
Definition collected r : Prop :=
  response_has_model_payload r = true ∧ response_failure r = None.

Lemma collect_items_spec events items usage items' usage' :
  Forall collected items → collect_items events items usage = Ok (items', usage') → Forall collected items'.
Proof.
  revert items usage. induction events as [|[[r|e]|] events IH]; intros items usage Hi; try done.
  - by intros [= <- <-].
  - cbn. destruct (response_failure r) eqn:Ef; [done|]. apply IH.
    destruct (response_has_model_payload r) eqn:Ep; [|done]. apply Forall_app. split; [done|].
    by repeat constructor.
Qed.

Lemma set_last_usage_spec usage items :
  Forall collected items → Forall collected (set_last_usage usage items) ∧
  length (set_last_usage usage items) = length items.
Proof.
  intros Hi. unfold set_last_usage. destruct usage as [u|]; [|done].
  destruct (list.last items) as [r|] eqn:El; [|done].
  pose proof (last_Some_elem_of _ _ El) as Hin.
  assert (items ≠ []) by by intros ->. destruct items as [|x items]; [done|]. split.
  - apply Forall_app. split; [by apply Forall_take|]. constructor; [|done].
    rewrite Forall_forall in Hi. by destruct (Hi r Hin).
  - rewrite length_app, length_take. cbn. lia.
Qed.

Lemma collect_payloads_spec events items :
  collect_payloads events = Ok items → items ≠ [] ∧ Forall collected items.
Proof.
  unfold collect_payloads. intros ([l u] & Hc & Hn)%bind_Ok.
  apply collect_items_spec in Hc; [|done]. destruct (is_nil l) eqn:El; [done|]. injection Hn as <-.
  destruct (set_last_usage_spec u l Hc) as [Hf Hlen]. split; [|done].
  intros E. rewrite E in Hlen. by destruct l.
Qed.

Lemma strip_telemetry_collected r : collected r → collected (strip_telemetry r).
Proof. unfold strip_telemetry. by destruct (provider_metadata r) as [[]|]. Qed.

Lemma attach_collected b request items retried items' :
  Forall collected items → items ≠ [] → attach b request items retried = Some items' →
  Forall collected items' ∧ length items' = length items.
Proof.
  intros Hi Hn. unfold attach.
  assert (Forall collected (map strip_telemetry items)) as Hs.
  { apply Forall_map. eapply Forall_impl; [done|]. intros r. apply strip_telemetry_collected. }
  destruct (list.last _) as [r|] eqn:El; [|by intros [= <-]; rewrite length_map].
  destruct (telemetry_value _) as [v|]; [|done]. cbn. intros [= <-].
  pose proof (last_Some_elem_of _ _ El) as Hin. split.
  - apply Forall_app. split; [by apply Forall_take|]. constructor; [|done].
    rewrite Forall_forall in Hs. by destruct (Hs r Hin).
  - rewrite length_app, length_take, length_map. destruct items; [done|]. cbn. lia.
Qed.

(** An error as a host sees it: the category, an admitted code, a valid status. *)
Definition sanitized (e : AdkError) : Prop :=
  component e = ModelComponent ∧
  code e ∈ ["model.profile.timeout"; "model.call.malformed_tool"; "model.profile.unreachable"] ∧
  from_option (λ status, 100 ≤ status ≤ 599)%Z True (upstream_status_code e).

Lemma valid_status_range status : from_option (λ s, 100 ≤ s ≤ 599)%Z True (valid_status status).
Proof.
  destruct status as [s|]; [|done]. cbn. destruct (_ && _) eqn:E; [|done]. cbn. lia.
Qed.

Lemma provider_adk_error_sanitized e : sanitized (provider_adk_error e).
Proof.
  unfold provider_adk_error, sanitized.
  destruct (bool_decide (category e = TimeoutCategory));
    [|destruct (bool_decide (component e = _) && _ && _)];
    cbn [set_status set_retry component code upstream_status_code];
    rewrite error_component, error_code_of; (split_and!; [done|set_solver|apply valid_status_range]).
Qed.

Section logging.
Context {S : Type} (call_model : LlmRequest → S → S * CallOutcome).

(** The provider with the requests it has been sent. *)
Definition logged (request : LlmRequest) (s : S * list LlmRequest) : S * list LlmRequest * CallOutcome :=
  let '(s', outcome) := call_model request (fst s) in ((s', snd s ++ [request]), outcome).

Lemma generate_once_logged request clock s log s' log' x :
  generate_once logged request clock (s, log) = ((s', log'), x) →
  (log' = log ∨ log' = log ++ [request]) ∧
  match x with
  | Ok items => log' = log ++ [request] ∧ items ≠ [] ∧ Forall collected items
  | Err _ => True
  end.
Proof.
  unfold generate_once. destruct (nothing_left clock); [intros [= <- <- <-]; auto|].
  unfold logged. cbn [fst snd]. destruct (call_model request s) as [s1 outcome]. intros [= <- <- Hx].
  split; [auto|]. subst x. destruct outcome as [|e|events]; try done.
  destruct (collect_payloads events) as [items|] eqn:E; [|done].
  apply collect_payloads_spec in E. naive_solver.
Qed.

End logging.
End collected.

(** ** The scripted model as a provider *)

Section scripted.
Context `{JsonText, !AdkLlm, !AdkNew, !JsonPointer}.

Definition call_fake (node : string) (request : LlmRequest) (q : QueuedFakeLlm) : QueuedFakeLlm * CallOutcome :=
  let '(q, r) := generate_for node request q in
  (q, match r with Ok response => CallStream [Item (Ok response)] | Err e => CallFailed e end).
End scripted.

(** ** Witnesses *)

Section witnesses.
#[local] Existing Instance ex_json_Z.
#[local] Instance ex_ints : IntJson := ex_integers.
#[local] Existing Instance ex_adk_llm.
#[local] Existing Instance ex_adk_new.
#[local] Existing Instance ex_adk_new_laws.
#[local] Instance ex_sha : Sha256 := λ s, s.
#[local] Instance ex_telemetry : TelemetryJson := {| content_value _ := Null; telemetry_value _ := Some Null |}.

Definition ex_metadata : list (string * Value) :=
  [("prompt_protocol", VString "v1"); ("reasoning_effort", VString "x_high")].
Definition ex_config : GenerateConfig :=
  mk_GenerateConfig None None None None None (Some 100%Z) (Some 7%Z) None {["workflow_kit" := Object ex_metadata]}.
Definition ex_policy : ModelRuntimeConfig :=
  mk_Runtime 1000 (mk_SamplingConfig (Some 0%Z) None None None None (Some 5%Z) None) None None
    {["openai" := Object [("max_tokens", jnum 5); ("reasoning_effort", VString "low")]]}.
Definition ex_request : LlmRequest := mk_LlmRequest "m" [] (Some ex_config) ∅ tt.

Lemma ex_objects_wf ns o : NoDup (map fst o) → objects_wf {[ns := Object o]}.
Proof. intros Ho k o' [_ [= <-]]%lookup_singleton_Some. done. Qed.

Lemma invocation_owns_budget_witness :
  ∃ c' o, config (apply_runtime ex_policy ex_request) = Some c' ∧ max_output_tokens c' = Some 100%Z ∧
    extensions c' !! "openai" = Some (Object o) ∧
    object_get "reasoning_effort" o = Some (VString "xhigh") ∧
    object_get "max_completion_tokens" o = Some (jnum 100) ∧ object_get "max_tokens" o = None.
Proof.
  destruct (invocation_owns_budget ex_policy ex_request ex_config ex_metadata XHigh)
    as (_ & _ & _ & c' & Hc & _ & Hcap & _ & w & o & _ & _ & Ho & He & Hm).
  - reflexivity.
  - apply lookup_singleton_eq.
  - reflexivity.
  - apply ex_objects_wf. apply (bool_decide_unpack _). reflexivity.
  - apply ex_objects_wf. apply (bool_decide_unpack _). reflexivity.
  - exists c', o. specialize (Hcap 100%Z eq_refl). destruct (Hm 100%Z Hcap). by split_and!.
Defined.

Definition ex_remote_binding : ModelBinding :=
  mk_ModelBinding Worker (mk_BindingIdentity (mk_Identity "coder" "1") "m" "m" "p" "t") ex_policy
    (RemoteModel (mk_OpenAiConfig "k" "m" "p" "https://models" false false false None)).
(** Refuses the first call for its rate, answers the second. *)
Definition ex_provider (request : LlmRequest) (calls : nat) : nat * CallOutcome :=
  (Datatypes.S calls,
   match calls with
   | 0 => CallFailed (mk_AdkError ModelComponent RateLimited "busy" false (Some 429%Z))
   | _ => CallStream [Item (Ok (response_new (mk_Content "assistant" [Text "done"])))]
   end).

End witnesses.
