(* ===== verification/ModelPrompt.v ===== *)
(** * Prompts and the identity of an invocation

    The first half of [workflow-adk/src/model_invocation.rs]: the prompt
    protocol assembled from labelled frames, the inference budget, the route,
    the strict output contract, and the specification of an invocation with its
    identity, its seed and the request it becomes.  [ModelInvocation.v] invokes
    it.  The JSON Schema library and the JSON stream reader are third-party. *)

From stdpp Require Import pretty.
From S2P Require Import Prelude Hashing Json JsonRead JsonMap Text Frame Trust Llm ModelProfiles.
From S2P Require Import ModelTelemetry ModelCalls.

#[local] Arguments String.append !_ _ /.

(*| adk/model_invocation.rs 23-23 PROMPT_PROTOCOL_VERSION *)
Definition PROMPT_PROTOCOL_VERSION : string := "cache-aware-prompt-v1".
(*| adk/model_invocation.rs 24-24 MAX_INVOCATION_RETRIES *)
Definition MAX_INVOCATION_RETRIES : Z := 3.

(** The kinds of a [jsonschema] validation error. *)
Inductive ValidationErrorKind :=
| VAdditionalItems | VAdditionalProperties | VAnyOf | VConstant | VContains | VContentEncoding
| VFromUtf8 | VContentMediaType | VEnum | VExclusiveMaximum | VExclusiveMinimum | VFalseSchema
| VFormat | VMaxItems | VMaximum | VMaxLength | VMaxProperties | VMinItems | VMinimum | VMinLength
| VMinProperties | VMultipleOf | VNot | VOneOfMultipleValid | VOneOfNotValid | VPattern
| VBacktrackLimitExceeded | VPropertyNames | VRequired | VType | VUnevaluatedItems
| VUnevaluatedProperties | VUniqueItems | VReferencing | VCustom.

(** [jsonschema::meta::validate], and a compiled schema's first error with the
    pointer to the value it is about; [serde_json]'s reader of one value at the
    front of a text, with whether only white space follows. *)
Class JsonContract `{JsonText} := {
  meta_valid : Value → bool;
  schema_validator : Value → option (Value → option (ValidationErrorKind * string));
  read_value : string → option (Value * bool)
}.

(*| runtime/tool.rs 225-290 SchemaKeyword *)
Inductive SchemaKeyword :=
| AdditionalItems | AdditionalProperties | AnyOf | Const | Contains | ContentEncoding
| ContentMediaType | Enum | ExclusiveMaximum | ExclusiveMinimum | FalseSchema | Format | MaxItems
| Maximum | MaxLength | MaxProperties | MinItems | Minimum | MinLength | MinProperties | MultipleOf
| Not | OneOf | Pattern | PropertyNames | Required | SType | UnevaluatedItems
| UnevaluatedProperties | UniqueItems | Reference | Unknown.
#[export] Instance SchemaKeyword_eq_dec : EqDecision SchemaKeyword.
Proof. solve_decision. Defined.

(*| runtime/tool.rs 294-313 StructuredOutputError *)
Inductive StructuredOutputError :=
| OutputTooLarge | InvalidUtf8 | InvalidJson | TrailingBytes
| SchemaViolation (keyword : SchemaKeyword) (citation_index window_index : option Z).
#[export] Instance StructuredOutputError_eq_dec : EqDecision StructuredOutputError.
Proof. solve_decision. Defined.

(*| adk/model_invocation.rs 553-592 schema_violation *)
Definition keyword_of (k : ValidationErrorKind) : SchemaKeyword :=
  match k with
  | VAdditionalItems => AdditionalItems | VAdditionalProperties => AdditionalProperties
  | VAnyOf => AnyOf | VConstant => Const | VContains => Contains
  | VContentEncoding | VFromUtf8 => ContentEncoding | VContentMediaType => ContentMediaType
  | VEnum => Enum | VExclusiveMaximum => ExclusiveMaximum | VExclusiveMinimum => ExclusiveMinimum
  | VFalseSchema => FalseSchema | VFormat => Format | VMaxItems => MaxItems | VMaximum => Maximum
  | VMaxLength => MaxLength | VMaxProperties => MaxProperties | VMinItems => MinItems
  | VMinimum => Minimum | VMinLength => MinLength | VMinProperties => MinProperties
  | VMultipleOf => MultipleOf | VNot => Not | VOneOfMultipleValid | VOneOfNotValid => OneOf
  | VPattern | VBacktrackLimitExceeded => Pattern | VPropertyNames => PropertyNames
  | VRequired => Required | VType => SType | VUnevaluatedItems => UnevaluatedItems
  | VUnevaluatedProperties => UnevaluatedProperties | VUniqueItems => UniqueItems
  | VReferencing => Reference | VCustom => Unknown
  end.

(** [str::parse::<usize>]: an optional plus sign and decimal digits, in range. *)
Definition digit_value (c : ascii) : Z := Z.of_N (byte_N c) - 48.
Definition parse_usize (s : string) : option Z :=
  let digits := match s with String "+"%char rest => rest | _ => s end in
  if str_is_empty digits || negb (str_all is_ascii_digit digits) then None
  else
    let n := foldl (λ n c, 10 * n + digit_value c)%Z 0%Z (str_bytes digits) in
    if (n <? u64_modulus)%Z then Some n else None.

(** Whether the bytes are UTF-8: every scalar is complete. *)
Fixpoint utf8_valid (fuel : nat) (s : string) : bool :=
  match fuel, s with
  | _, EmptyString => true
  | S fuel, String b s =>
      match utf8_ranges (byte_N b) with
      | None => false
      | Some ranges => let '(_, rest, ok) := take_ranges ranges s in ok && utf8_valid fuel rest
      end
  | 0, _ => false
  end.
(** [str::from_utf8]; every step consumes a byte. *)
Definition is_utf8 (s : string) : bool := utf8_valid (String.length s) s.

(** [split_whitespace().count()]: the words of a text. *)
Fixpoint count_words (in_word : bool) (s : string) : Z :=
  match s with
  | EmptyString => 0
  | String a rest =>
      let step := ((if in_word then 0 else 1) + count_words true rest)%Z in
      if ws1 a then count_words false rest
      else match rest with
      | EmptyString => step
      | String b rest' =>
          if ws2 a b then count_words false rest'
          else match rest' with
          | EmptyString => step
          | String c rest'' => if ws3 a b c then count_words false rest'' else step
          end
      end
  end.

(** [windows(2).any(|pair| pair[0] == pair[1])]. *)
Fixpoint adjacent_equal (l : list string) : bool :=
  match l with
  | a :: ((b :: _) as rest) => str_eqb a b || adjacent_equal rest
  | _ => false
  end.

(** A [usize] in decimal. *)
Definition z_text (n : Z) : string := pretty (Z.to_N n).

(*| adk/model_invocation.rs 75-80 PromptProtocolError *)
Inductive PromptProtocolError := EmptyToolName | DuplicateToolName | InvalidToolSchema | InvalidOutputSchema.
#[export] Instance PromptProtocolError_eq_dec : EqDecision PromptProtocolError.
Proof. solve_decision. Defined.

(*| adk/model_invocation.rs 253-258 EscalationPolicy *)
Inductive EscalationPolicy := NoEscalation | Cloud | Hitl | CloudThenHitl.
#[export] Instance EscalationPolicy_eq_dec : EqDecision EscalationPolicy.
Proof. solve_decision. Defined.
(*| adk/model_invocation.rs 1360-1367 EscalationPolicy::fmt *)
Definition escalation_name (e : EscalationPolicy) : string :=
  match e with
  | NoEscalation => "none" | Cloud => "cloud" | Hitl => "hitl" | CloudThenHitl => "cloud_then_hitl"
  end.

(*| adk/model_invocation.rs 261-265 InferenceBudgetError *)
Inductive InferenceBudgetError := ZeroOutputTokens | OutputTokensOutOfRange | RetryLimitExceeded.
#[export] Instance InferenceBudgetError_eq_dec : EqDecision InferenceBudgetError.
Proof. solve_decision. Defined.

(*| adk/model_invocation.rs 282-287 InferenceBudget *)
Record InferenceBudget := mk_Budget {
  reasoning_effort : ReasoningEffort; budget_tokens : Z; max_retries : Z;
  escalation : EscalationPolicy }.
#[export] Instance InferenceBudget_eq_dec : EqDecision InferenceBudget.
Proof. solve_decision. Defined.

Definition i32_max : Z := 2147483647.

(*| adk/model_invocation.rs 316-321 InferenceBudget::new *)
Definition check_tokens (max_output_tokens : Z) : result InferenceBudgetError unit :=
  ensure (negb (max_output_tokens =? 0)%Z) ZeroOutputTokens;;
  ensure (negb (i32_max <? max_output_tokens)%Z) OutputTokensOutOfRange.
Definition check_retries (max_retries : Z) : result InferenceBudgetError unit :=
  ensure (negb (MAX_INVOCATION_RETRIES <? max_retries)%Z) RetryLimitExceeded.

(*| adk/model_invocation.rs 314-334 InferenceBudget::new *)
Definition InferenceBudget_new (effort : ReasoningEffort) (max_output_tokens max_retries : Z) :
    result InferenceBudgetError InferenceBudget :=
  check_tokens max_output_tokens;;
  check_retries max_retries;;
  Ok (mk_Budget effort max_output_tokens max_retries NoEscalation).
(*| adk/model_invocation.rs 348-354 InferenceBudget::with_max_retries *)
Definition with_max_retries (n : Z) (b : InferenceBudget) : result InferenceBudgetError InferenceBudget :=
  check_retries n;; Ok (mk_Budget (reasoning_effort b) (budget_tokens b) n (escalation b)).
(*| adk/model_invocation.rs 370-373 InferenceBudget::with_escalation *)
Definition with_escalation (e : EscalationPolicy) (b : InferenceBudget) : InferenceBudget :=
  mk_Budget (reasoning_effort b) (budget_tokens b) (max_retries b) e.
(** The checked decoder: the fields pass through [new]. *)
(*| adk/model_invocation.rs 298-310 InferenceBudget::deserialize *)
Definition decode_budget (fields : ReasoningEffort * Z * Z * EscalationPolicy) :
    result InferenceBudgetError InferenceBudget :=
  let '(effort, tokens, retries, escalation) := fields in
  with_escalation escalation <$> InferenceBudget_new effort tokens retries.

(*| adk/model_invocation.rs 394-400 ProviderRouteIdentity *)
Record ProviderRouteIdentity := mk_Route {
  route_profile : ModelProfileIdentity; route_provider : string; route_requested : string;
  route_resolved : string; route_tokenizer : string }.
#[export] Instance ProviderRouteIdentity_eq_dec : EqDecision ProviderRouteIdentity.
Proof. solve_decision. Defined.
(*| adk/model_invocation.rs 472-475 StructuredOutputContractError *)
Inductive StructuredOutputContractError := InvalidSchema | ZeroOutputBytes.
#[export] Instance StructuredOutputContractError_eq_dec : EqDecision StructuredOutputContractError.
Proof. solve_decision. Defined.

(*| adk/model_invocation.rs 197-201 RenderedPrompt *)
Record RenderedPrompt := mk_Rendered {
  rendered_system : string; rendered_prefix : string; dynamic_suffix : string }.
(*| adk/model_invocation.rs 216-222 RenderedPrompt::prefix *)
Definition prompt_prefix (p : RenderedPrompt) : string := rendered_system p +:+ newline +:+ rendered_prefix p.
(*| adk/model_invocation.rs 224-228 RenderedPrompt::prompt *)
Definition prompt_text (p : RenderedPrompt) : string := prompt_prefix p +:+ dynamic_suffix p.

Section prompt.
Context `{JsonRead, !IntJson, !AdkLlm, !AdkNew, !Sha256, !JsonContract}.

(*| adk/model_invocation.rs 419-428 ProviderRouteIdentity::from_binding *)
Definition from_binding (b : ModelBinding) : ProviderRouteIdentity :=
  let i := binding_identity b in
  mk_Route (profile i) (provider i) (requested_model i) (resolved_model i) (tokenizer i).
(*| adk/model_invocation.rs 450-457 ProviderRouteIdentity::matches_binding *)
Definition matches_binding (r : ProviderRouteIdentity) (b : ModelBinding) : bool :=
  let i := binding_identity b in
  bool_decide (route_profile r = profile i) && str_eqb (route_provider r) (provider i) &&
  str_eqb (route_requested r) (requested_model i) && str_eqb (route_resolved r) (resolved_model i) &&
  str_eqb (route_tokenizer r) (tokenizer i).

(** ** The prompt protocol *)

(*| adk/model_invocation.rs 28-31 ToolDefinition *)
Record ToolDefinition := mk_Tool { tool_name : string; tool_schema : Value }.
(*| adk/model_invocation.rs 50-59 ToolDefinition::new *)
Definition ToolDefinition_new (name : string) (schema : Value) : result PromptProtocolError ToolDefinition :=
  ensure (negb (is_blank name)) EmptyToolName;;
  ensure (meta_valid schema) InvalidToolSchema;;
  Ok (mk_Tool name schema).

(*| adk/model_invocation.rs 97-105 PromptProtocol *)
Record PromptProtocol := mk_Protocol {
  system : string; user_prefix : string; protocol_schema : Value; protocol_tools : list ToolDefinition;
  trust_domain : TrustDomain; protocol_hash : string; tool_schema_hash : string }.

(*| adk/model_invocation.rs 124-134 PromptProtocol::new *)
Definition tools_text (tools : list ToolDefinition) : string :=
  canonical_json (Array (map (λ t, Object [("name", VString (tool_name t)); ("schema", tool_schema t)]) tools)).

Definition system_frames (policy : string) (tools : list ToolDefinition) (schema : Value) :
    list (string * string) :=
  [("PROTOCOL_VERSION", PROMPT_PROTOCOL_VERSION); ("SYSTEM_POLICY", policy);
   ("TOOLS_JSON", tools_text tools); ("OUTPUT_SCHEMA_JSON", canonical_json schema)].
Definition prefix_frames (domain : TrustDomain) (common_data : Value) : list (string * string) :=
  [("TRUST_DOMAIN_CACHE_SALT", cache_salt domain); ("COMMON_DATA_JSON", canonical_json common_data)].

(*| adk/model_invocation.rs 108-160 PromptProtocol::new *)
Definition PromptProtocol_new (policy : string) (tools : list ToolDefinition)
    (output_schema common_data : Value) (domain : TrustDomain) : result PromptProtocolError PromptProtocol :=
  ensure (meta_valid output_schema) InvalidOutputSchema;;
  let tools := sort_by_key tool_name tools in
  ensure (negb (adjacent_equal (map tool_name tools))) DuplicateToolName;;
  let system := frames (system_frames policy tools output_schema) in
  Ok (mk_Protocol system (frames (prefix_frames domain common_data)) output_schema tools domain
        (digest_bytes system) (digest_bytes (tools_text tools))).

(*| adk/model_invocation.rs 162-168 PromptProtocol::render *)
Definition render (p : PromptProtocol) (task_suffix : string) : RenderedPrompt :=
  mk_Rendered (system p) (user_prefix p) (frame "TASK_SUFFIX" task_suffix).

(*| adk/model_invocation.rs 230-238 RenderedPrompt::contents *)
Definition prompt_contents (p : RenderedPrompt) : list Content :=
  [mk_Content "system" [Text (rendered_system p)];
   mk_Content "user" [Text (rendered_prefix p +:+ dynamic_suffix p)]].

(** ** The output contract *)

(*| adk/model_invocation.rs 490-494 StructuredOutputContract *)
Record StructuredOutputContract := mk_Contract {
  contract_schema : Value; max_output_bytes : Z; schema_hash : string }.
(*| adk/model_invocation.rs 497-512 StructuredOutputContract::new *)
Definition StructuredOutputContract_new (schema : Value) (max_output_bytes : Z) :
    result StructuredOutputContractError StructuredOutputContract :=
  ensure (negb (max_output_bytes =? 0)%Z) ZeroOutputBytes;;
  ensure (meta_valid schema) InvalidSchema;;
  Ok (mk_Contract schema max_output_bytes (digest_bytes (canonical_json schema))).

(*| adk/model_invocation.rs 593-604 schema_violation *)
Definition root_index (path : string) (value : Value) (prefix field : string) : option Z :=
  rest ← strip_prefix prefix path;
  index ← parse_usize (hd "" (split_at (Ascii.eqb "/") rest));
  elements ← get_value field value ≫= v_array;
  if (index <? zlength elements)%Z then Some index else None.

(*| adk/model_invocation.rs 548-611 schema_violation *)
Definition schema_violation (error : ValidationErrorKind * string) (value : Value) : StructuredOutputError :=
  SchemaViolation (keyword_of (fst error)) (root_index (snd error) value "/citations/" "citations")
    (root_index (snd error) value "/windows/" "windows").

(*| adk/model_invocation.rs 528-545 StructuredOutputContract::decode *)
Definition decode (c : StructuredOutputContract) (bytes : string) : result StructuredOutputError Value :=
  ensure (negb (max_output_bytes c <? str_len bytes)%Z) OutputTooLarge;;
  ensure (is_utf8 bytes) InvalidUtf8;;
  match read_value bytes with
  | None => Err InvalidJson
  | Some (value, ended) =>
      ensure ended TrailingBytes;;
      match schema_validator (contract_schema c) with
      | None => Err InvalidJson
      | Some validate =>
          match validate value with
          | Some error => Err (schema_violation error value)
          | None => Ok value
          end
      end
  end.

(** ** The specification of an invocation *)

(** The projected history of a session, shared by the candidates of a route. *)
(*| adk/model_sessions.rs 15-18 PreparedHistory *)
Record PreparedHistory := mk_History { history_contents : list Content; history_digest : string }.

(*| adk/model_invocation.rs 940-947 ModelInvocationSpec *)
Record ModelInvocationSpec := mk_Spec {
  protocol : PromptProtocol; task_suffix : string; spec_route : ProviderRouteIdentity;
  budget : InferenceBudget; output_contract : StructuredOutputContract;
  history : option PreparedHistory }.

Context `{!EqDecision json_number}.

(** [None]: [OutputSchemaMismatch]. *)
(*| adk/model_invocation.rs 971-989 ModelInvocationSpec::new *)
Definition ModelInvocationSpec_new (p : PromptProtocol) (task_suffix : string)
    (route : ProviderRouteIdentity) (b : InferenceBudget) (output : StructuredOutputContract) :
    option ModelInvocationSpec :=
  if bool_decide (protocol_schema p = contract_schema output)
  then Some (mk_Spec p task_suffix route b output None) else None.

(*| adk/model_invocation.rs 1001-1003 ModelInvocationSpec::prompt *)
Definition prompt (s : ModelInvocationSpec) : RenderedPrompt := render (protocol s) (task_suffix s).
(*| adk/model_invocation.rs 1009-1013 ModelInvocationSpec::with_route *)
Definition with_route (route : ProviderRouteIdentity) (s : ModelInvocationSpec) : ModelInvocationSpec :=
  mk_Spec (protocol s) (task_suffix s) route (budget s) (output_contract s) (history s).
Definition with_history (h : PreparedHistory) (s : ModelInvocationSpec) : ModelInvocationSpec :=
  mk_Spec (protocol s) (task_suffix s) (spec_route s) (budget s) (output_contract s) (Some h).

(*| adk/model_invocation.rs 1025-1064 ModelInvocationSpec::invocation_identity *)
Definition identity_frames (s : ModelInvocationSpec) : list (string * string) :=
  [("PROMPT_PROTOCOL_VERSION", PROMPT_PROTOCOL_VERSION);
   ("PROTOCOL_HASH", protocol_hash (protocol s));
   ("TOOL_SCHEMA_HASH", tool_schema_hash (protocol s));
   ("OUTPUT_SCHEMA_HASH", schema_hash (output_contract s));
   ("MAX_OUTPUT_BYTES", z_text (max_output_bytes (output_contract s)));
   ("PROFILE_NAME", name (route_profile (spec_route s)));
   ("PROFILE_VERSION", version (route_profile (spec_route s)));
   ("PROVIDER", route_provider (spec_route s));
   ("REQUESTED_MODEL", route_requested (spec_route s));
   ("RESOLVED_MODEL", route_resolved (spec_route s));
   ("TOKENIZER", route_tokenizer (spec_route s));
   ("TRUST_DOMAIN_CACHE_SALT", cache_salt (trust_domain (protocol s)));
   ("PREFIX_HASH", digest_bytes (prompt_prefix (prompt s)));
   ("DYNAMIC_SUFFIX_HASH", digest_bytes (dynamic_suffix (prompt s)));
   ("REASONING_EFFORT", effort_name (reasoning_effort (budget s)));
   ("MAX_OUTPUT_TOKENS", z_text (budget_tokens (budget s)));
   ("MAX_RETRIES", z_text (max_retries (budget s)));
   ("ESCALATION", escalation_name (escalation (budget s)))] ++
  match history s with
  | Some h => [("SESSION_HISTORY_HASH", history_digest h)]
  | None => []
  end.

(*| adk/model_invocation.rs 1023-1066 ModelInvocationSpec::invocation_identity *)
Definition invocation_identity (s : ModelInvocationSpec) : string :=
  digest_bytes (frames (identity_frames s)).

(** A big-endian number. *)
Definition be_value (bytes : string) : Z := foldl (λ n c, 256 * n + Z.of_N (byte_N c))%Z 0%Z (str_bytes bytes).

(*| adk/model_invocation.rs 1068-1073 ModelInvocationSpec::deterministic_seed *)
Definition deterministic_seed (s : ModelInvocationSpec) : Z :=
  be_value (String.substring 0 8 (sha256 (invocation_identity s))) `mod` (2 ^ 63 - 1).

(*| adk/model_invocation.rs 614-629 InvocationProvenance *)
Record InvocationProvenance := mk_Provenance {
  p_identity : string; p_protocol_hash : string; p_tokenizer : string; p_model : string;
  p_tool_schema_hash : string; p_output_schema_hash : string; p_max_output_bytes : Z;
  p_prefix_hash : string; p_prefix_words : Z; p_max_output_tokens : Z; p_seed : Z;
  p_cache_salt : string; p_route : ProviderRouteIdentity; p_history : option string }.
(** [max_output_tokens as u32] is exact in the budget's range. *)
(*| adk/model_invocation.rs 1075-1094 ModelInvocationSpec::provenance *)
Definition provenance (s : ModelInvocationSpec) : InvocationProvenance :=
  mk_Provenance (invocation_identity s) (protocol_hash (protocol s)) (route_tokenizer (spec_route s))
    (route_resolved (spec_route s)) (tool_schema_hash (protocol s)) (schema_hash (output_contract s))
    (max_output_bytes (output_contract s)) (digest_bytes (prompt_prefix (prompt s)))
    (count_words false (prompt_prefix (prompt s)))
    (budget_tokens (budget s) `mod` 2 ^ 32) (deterministic_seed s)
    (cache_salt (trust_domain (protocol s))) (spec_route s) (history_digest <$> history s).

(** [LlmRequest::new] is third-party. *)
Class AdkRequest := request_new : string → list Content → LlmRequest.
Context `{!AdkRequest}.

(** [contents.splice(1..1, history)]; [max_output_tokens as i32] is exact in
    the budget's range. *)
(*| adk/model_invocation.rs 1096-1115 ModelInvocationSpec::to_llm_request *)
Definition to_llm_request (s : ModelInvocationSpec) : LlmRequest :=
  let contents := prompt_contents (prompt s) in
  let contents := match history s with
    | Some h => take 1 contents ++ history_contents h ++ drop 1 contents
    | None => contents
    end in
  let request := request_new (route_resolved (spec_route s)) contents in
  let c := default default_config (config request) in
  set_config (mk_GenerateConfig (temperature c) (top_p c) (top_k c) (frequency_penalty c)
    (presence_penalty c) (Some (budget_tokens (budget s))) (Some (deterministic_seed s))
    (Some (contract_schema (output_contract s)))
    (<["workflow_kit" := Object [
        ("escalation", VString (escalation_name (escalation (budget s))));
        ("prompt_protocol", VString PROMPT_PROTOCOL_VERSION);
        ("reasoning_effort", VString (effort_name (reasoning_effort (budget s))))]]> (extensions c)))
    request.
End prompt.

(** ** What an identity binds *)

Lemma z_text_inj m n : (0 ≤ m)%Z → (0 ≤ n)%Z → z_text m = z_text n → m = n.
Proof. unfold z_text. intros Hm Hn E%(inj pretty). lia. Qed.

(** A sorted list without equal neighbours has no repetition. *)
Lemma adjacent_equal_sorted l : StronglySorted String.le l → adjacent_equal l = false ↔ NoDup l.
Proof.
  induction l as [|a l IH]; intros Hs; [by split; [constructor|]|].
  apply StronglySorted_inv in Hs as [Hs Ha]. specialize (IH Hs). rewrite NoDup_cons, <- IH.
  destruct l as [|b l]; [split; [split; [set_solver|done]|done]|]. cbn [adjacent_equal].
  rewrite orb_false_iff. split; [|intros [Hn ?]; split; [|done]].
  - intros [Hab ?]. split; [|done]. apply bool_decide_eq_false in Hab. intros Hin.
    apply StronglySorted_inv in Hs as [_ Hb]. rewrite Forall_forall in Ha, Hb.
    apply elem_of_cons in Hin as [->|Hin]; [done|].
    apply Hab, (anti_symm String.le); [apply Ha; set_solver|by apply Hb].
  - apply bool_decide_eq_false. intros ->. apply Hn. set_solver.
Qed.

Lemma sorted_names {A} (key : A → string) l :
  StronglySorted String.le (map key (sort_by_key key l)).
Proof.
  pose proof (sort_by_key_sorted key l) as Hs. induction Hs as [|x l' Hs IH Hx]; [constructor|].
  constructor; [done|]. by apply Forall_map.
Qed.

#[export] Instance effort_name_inj : Inj (=) (=) effort_name.
Proof. by intros [] []. Qed.
#[export] Instance escalation_name_inj : Inj (=) (=) escalation_name.
Proof. by intros [] []. Qed.
#[export] Instance cache_salt_inj : Inj (=) (=) cache_salt.
Proof. by intros [] []. Qed.

Lemma InferenceBudget_new_Ok effort tokens retries b :
  InferenceBudget_new effort tokens retries = Ok b ↔
  b = mk_Budget effort tokens retries NoEscalation ∧ tokens ≠ 0%Z ∧ (tokens ≤ i32_max)%Z ∧
  (retries ≤ MAX_INVOCATION_RETRIES)%Z.
Proof.
  unfold InferenceBudget_new, check_tokens, check_retries, ensure.
  destruct (Z.eqb_spec tokens 0), (Z.ltb_spec i32_max tokens), (Z.ltb_spec MAX_INVOCATION_RETRIES retries);
    cbn; split; try done; try (intros; destruct_and!; lia).
  - by intros [= <-].
  - by intros (-> & _).
Qed.

Section identity.
Context `{JsonRead, !IntJson, !AdkLlm, !AdkNew, !Sha256, !JsonContract, !EqDecision json_number}.
Implicit Types (s : ModelInvocationSpec) (p : PromptProtocol) (tools : list ToolDefinition).

Lemma identity_frames_inj s s' :
  frames (identity_frames s) = frames (identity_frames s') → identity_frames s = identity_frames s'.
Proof.
  intros E. destruct (history s) as [h|] eqn:Eh, (history s') as [h'|] eqn:Eh'.
  - apply frames_inj; [|done]. unfold identity_frames. by rewrite Eh, Eh'.
  - symmetry. apply frames_inj; [|done]. unfold identity_frames. rewrite Eh, Eh'. cbn. by eexists.
  - apply frames_inj; [|done]. unfold identity_frames. rewrite Eh, Eh'. cbn. by eexists.
  - apply frames_inj; [|done]. unfold identity_frames. by rewrite Eh, Eh'.
Qed.

(** A specification made of parts that the constructors accepted. *)
Record built s : Prop := {
  built_protocol : ∃ policy tools schema data domain,
    PromptProtocol_new policy tools schema data domain = Ok (protocol s);
  built_contract : ∃ schema n, u64 n ∧ StructuredOutputContract_new schema n = Ok (output_contract s);
  built_budget : ∃ effort tokens retries b e, u64 tokens ∧ u64 retries ∧
    InferenceBudget_new effort tokens retries = Ok b ∧ budget s = with_escalation e b }.

Lemma PromptProtocol_new_Ok policy tools schema data domain p :
  PromptProtocol_new policy tools schema data domain = Ok p →
  let sorted := sort_by_key tool_name tools in
  p = mk_Protocol (frames (system_frames policy sorted schema)) (frames (prefix_frames domain data)) schema
        sorted domain (digest_bytes (frames (system_frames policy sorted schema)))
        (digest_bytes (tools_text sorted)) ∧
  meta_valid schema = true ∧ NoDup (map tool_name tools).
Proof.
  unfold PromptProtocol_new. intros ([] & Hm%ensure_Ok & Hp)%bind_Ok.
  apply bind_Ok in Hp as ([] & Hd%ensure_Ok & [= <-]). split_and!; [done|done|].
  apply negb_true_iff, adjacent_equal_sorted in Hd; [|apply sorted_names].
  by rewrite (Permutation_map tool_name (sort_by_key_Permutation tool_name tools)) in Hd.
Qed.

Lemma contract_new_Ok schema n c :
  StructuredOutputContract_new schema n = Ok c →
  c = mk_Contract schema n (digest_bytes (canonical_json schema)) ∧ n ≠ 0%Z ∧ meta_valid schema = true.
Proof.
  unfold StructuredOutputContract_new. intros ([] & Hn%ensure_Ok & Hc)%bind_Ok.
  apply bind_Ok in Hc as ([] & Hm%ensure_Ok & [= <-]). destruct (Z.eqb_spec n 0); naive_solver.
Qed.

(** Sorting by distinct names forgets the order. *)
Lemma sort_tools_unique tools tools' :
  tools ≡ₚ tools' → NoDup (map tool_name tools) → sort_by_key tool_name tools = sort_by_key tool_name tools'.
Proof.
  intros Hp Hn. apply (StronglySorted_unique_strong (key_le tool_name)).
  - intros t t' Ht Ht' Hle1 Hle2. rewrite elem_of_sort_by_key in Ht, Ht'. rewrite <- Hp in Ht'.
    assert (tool_name t = tool_name t') as E by by apply (anti_symm String.le).
    clear Hle1 Hle2. induction tools as [|x l IH] in Hn, Ht, Ht' |- *; [set_solver|].
    cbn in Hn. apply NoDup_cons in Hn as [Hx Hn].
    rewrite elem_of_cons in Ht, Ht'. destruct Ht as [->|Ht], Ht' as [->|Ht']; [done| | |by apply IH].
    + destruct Hx. rewrite E. by apply list_elem_of_fmap_2.
    + destruct Hx. rewrite <- E. by apply list_elem_of_fmap_2.
  - apply sort_by_key_sorted.
  - apply sort_by_key_sorted.
  - by rewrite !sort_by_key_Permutation.
Qed.

(** The order in which a prompt's tools are declared does not matter: every
    order gives the same protocol, with the same stable prefix and hashes, or
    the same refusal. *)
Theorem prompt_protocol_canonical policy tools tools' schema data domain :
  tools ≡ₚ tools' →
  PromptProtocol_new policy tools schema data domain = PromptProtocol_new policy tools' schema data domain.
Proof.
  intros Hp. unfold PromptProtocol_new. destruct (meta_valid schema); [|done]. cbn [ensure mbind result_bind].
  destruct (decide (NoDup (map tool_name tools))) as [Hn|Hn].
  { by rewrite (sort_tools_unique tools tools'). }
  assert (∀ l, l ≡ₚ tools → adjacent_equal (map tool_name (sort_by_key tool_name l)) = true) as Hd.
  { intros l Hl. apply not_false_iff_true. intros E. apply Hn.
    apply adjacent_equal_sorted in E; [|apply sorted_names].
    by rewrite (Permutation_map tool_name (sort_by_key_Permutation tool_name l)), Hl in E. }
  by rewrite !Hd by first [done|by symmetry].
Qed.

Lemma frame_values_eq s s' l v v' r r' :
  identity_frames s = l ++ v :: r → identity_frames s' = l ++ v' :: r' →
  identity_frames s = identity_frames s' → snd v = snd v'.
Proof. intros -> -> E. by apply app_inv_head in E as [= <- _]. Qed.

(** C14. The identity of an invocation binds all of it: two specifications with
    one identity - of whose texts no two collide - have the same route, budget,
    trust domain, output limit and session history, the same system text, with the
    tools and the output schema in their canonical texts, the same stable prefix
    and the same task, and so the same seed. *)
Theorem invocation_identity_binds s s' :
  built s → built s' → invocation_identity s = invocation_identity s' →
  no_collision (frames (identity_frames s)) (frames (identity_frames s')) →
  spec_route s = spec_route s' ∧ budget s = budget s' ∧
  trust_domain (protocol s) = trust_domain (protocol s') ∧
  max_output_bytes (output_contract s) = max_output_bytes (output_contract s') ∧
  history_digest <$> history s = history_digest <$> history s' ∧
  deterministic_seed s = deterministic_seed s' ∧
  (no_collision (prompt_prefix (prompt s)) (prompt_prefix (prompt s')) →
     prompt_prefix (prompt s) = prompt_prefix (prompt s')) ∧
  (no_collision (dynamic_suffix (prompt s)) (dynamic_suffix (prompt s')) → task_suffix s = task_suffix s') ∧
  (no_collision (system (protocol s)) (system (protocol s')) →
     system (protocol s) = system (protocol s') ∧
     tools_text (protocol_tools (protocol s)) = tools_text (protocol_tools (protocol s')) ∧
     canonical_json (protocol_schema (protocol s)) = canonical_json (protocol_schema (protocol s'))).
Proof.
  intros [Hp Hc Hb] [Hp' Hc' Hb'] Hid Hnc.
  assert (deterministic_seed s = deterministic_seed s') as Hseed by (unfold deterministic_seed; by rewrite Hid).
  apply (proj1 (digest_bytes_eq _ _)) in Hid. apply Hnc, identity_frames_inj in Hid. clear Hnc.
  destruct Hc as (schema & n & Hn & Hc%contract_new_Ok), Hc' as (schema' & n' & Hn' & Hc'%contract_new_Ok).
  destruct Hb as (e & t & r & b & x & Ht & Hr & Hb%InferenceBudget_new_Ok & Hbs).
  destruct Hb' as (e' & t' & r' & b' & x' & Ht' & Hr' & Hb'%InferenceBudget_new_Ok & Hbs').
  destruct Hc as [Hc _], Hc' as [Hc' _], Hb as [-> _], Hb' as [-> _].
  destruct Hp as (policy & tools & psch & data & domain & Hp%PromptProtocol_new_Ok).
  destruct Hp' as (policy' & tools' & psch' & data' & domain' & Hp'%PromptProtocol_new_Ok).
  destruct Hp as (Hp & _), Hp' as (Hp' & _). unfold identity_frames in Hid.
  injection Hid as Hprot Htools Hschema Hbytes Hname Hver Hprov Hreq Hres Htok Hsalt Hpre Hsuf Heff Hmax Hret Hesc Hhist.
  apply (inj effort_name) in Heff. apply (inj escalation_name) in Hesc. apply (inj cache_salt) in Hsalt.
  unfold u64 in *. rewrite Hc, Hc' in Hbytes |- *. rewrite Hbs, Hbs' in Heff, Hmax, Hret, Hesc |- *.
  cbn [max_output_bytes with_escalation reasoning_effort budget_tokens max_retries escalation] in *.
  apply z_text_inj in Hbytes, Hmax, Hret; [|lia..]. subst.
  split_and!; try done.
  - destruct (spec_route s) as [[]], (spec_route s') as [[]]; cbn in *. congruence.
  - destruct (history s), (history s'); cbn in *; congruence.
  - intros Hn0. by apply Hn0, (inj encode_hex).
  - intros Hn0. apply (inj encode_hex), Hn0 in Hsuf. by apply frame_end in Hsuf.
  - intros Hn0. rewrite Hp, Hp' in Hprot, Hn0 |- *. cbn [protocol_hash system protocol_tools protocol_schema] in *.
    apply (proj1 (digest_bytes_eq _ _)), Hn0 in Hprot. split; [done|]. apply frames_inj in Hprot; [|done].
    split; [exact (f_equal (λ l, snd (nth 2 l ("", ""))) Hprot)|exact (f_equal (λ l, snd (nth 3 l ("", ""))) Hprot)].
Qed.
End identity.

(** ** Witnesses *)

Section witnesses.
#[local] Existing Instance ex_json_Z.
#[local] Instance ex_ints : IntJson := ex_integers.
#[local] Existing Instance ex_adk_llm.
#[local] Existing Instance ex_adk_new.
#[local] Instance ex_sha : Sha256 := λ s, s.
#[local] Instance ex_number_eq_dec : EqDecision (@json_number ex_json_Z) := Z.eq_dec.
#[local] Instance ex_contract : JsonContract := {|
  meta_valid _ := true; schema_validator _ := Some (λ _, None); read_value s := (λ v, (v, true)) <$> json_parse s |}.

Definition ex_tools : list ToolDefinition := [mk_Tool "b" Null; mk_Tool "a" (Bool true)].
Definition ex_protocol : result PromptProtocolError PromptProtocol :=
  PromptProtocol_new "be brief" ex_tools (Object [("type", VString "object")]) Null UntrustedContent.
Definition ex_spec (task : string) (retries : Z) : option ModelInvocationSpec :=
  match ex_protocol, StructuredOutputContract_new (Object [("type", VString "object")]) 64,
        InferenceBudget_new Medium 4096 retries with
  | Ok p, Ok c, Ok b => ModelInvocationSpec_new p task (mk_Route (mk_Identity "w" "1") "p" "m" "m" "t") b c
  | _, _, _ => None
  end.

Lemma prompt_protocol_canonical_witness :
  ex_tools ≡ₚ reverse ex_tools ∧
  ex_protocol = PromptProtocol_new "be brief" (reverse ex_tools) (Object [("type", VString "object")]) Null
    UntrustedContent.
Proof.
  split; [by rewrite reverse_Permutation|].
  apply (prompt_protocol_canonical "be brief" ex_tools (reverse ex_tools)). by rewrite reverse_Permutation.
Defined.

Lemma ex_spec_built task retries s : u64 retries → ex_spec task retries = Some s → built s.
Proof.
  unfold ex_spec. intros Hr. destruct ex_protocol as [p|] eqn:Ep; [|done].
  destruct (StructuredOutputContract_new _ _) as [c|] eqn:Ec; [|done].
  destruct (InferenceBudget_new _ _ _) as [b|] eqn:Eb; [|done].
  unfold ModelInvocationSpec_new. destruct (bool_decide _); [|done]. intros [= <-]. split.
  - eexists _, _, _, _, _. exact Ep.
  - by exists (Object [("type", VString "object")]), 64%Z.
  - exists Medium, 4096%Z, retries, b, NoEscalation. do 3 (split; [done|]).
    by apply InferenceBudget_new_Ok in Eb as [-> _].
Qed.

Lemma ex_spec_some task : ∃ s, ex_spec task 1 = Some s.
Proof. eexists. reflexivity. Qed.

Lemma invocation_identity_binds_witness :
  ∃ s, ex_spec "task" 1 = Some s ∧
    ∀ s', built s' → invocation_identity s = invocation_identity s' → budget s = budget s'.
Proof.
  destruct (ex_spec_some "task") as [s E]. exists s. split; [done|]. intros s' Hs' Hid.
  apply (invocation_identity_binds s s'); [by eapply (ex_spec_built "task" 1)|done|done|by intros E'].
Defined.
End witnesses.
