(* ===== verification/ModelInvocation.v ===== *)
(** * Invoking a model for a validated JSON value

    [ModelInvocationSpec::invoke] and its variants of
    [workflow-adk/src/model_invocation.rs]: the one bounded collector that reads
    the response stream of each attempt, demands a completed terminal stop,
    validates the collected text and retries a rejected one within the budget. *)

From S2P Require Import Prelude Hashing Json JsonRead JsonMap Text Frame Trust Llm ModelProfiles.
From S2P Require Import ModelTelemetry ModelCalls ModelPrompt.

#[local] Arguments String.append !_ _ /.

(*| adk/behavioral/reasoning_capture.rs 15-15 MAX_REASONING_BYTES *)
Definition MAX_REASONING_BYTES : Z := 16384.

(*| adk/model_invocation.rs 965-968 ResponsePolicy *)
Inductive ResponsePolicy := Ordinary | CompleteText.
#[export] Instance ResponsePolicy_eq_dec : EqDecision ResponsePolicy.
Proof. solve_decision. Defined.

(*| adk/model_invocation.rs 694-698 ModelCompletionEvidence *)
Record ModelCompletionEvidence := mk_Evidence {
  evidence_reason : option FinishReason; evidence_turn : bool; evidence_partial : bool }.

(*| adk/model_invocation.rs 832-842 ModelInvocationErrorKind *)
Inductive ModelInvocationErrorKind :=
| RouteMismatch | ModelProfileFailure | StructuredOutput | SessionFailure | DeadlineExceeded | Cancelled.
#[export] Instance ModelInvocationErrorKind_eq_dec : EqDecision ModelInvocationErrorKind.
Proof. solve_decision. Defined.

(*| adk/model_invocation.rs 845-851 ModelInvocationError *)
Record ModelInvocationError := mk_InvocationError {
  failure_kind : ModelInvocationErrorKind; failure_attempts : Z;
  model_failure : option ModelProfileErrorKind; output_failure : option StructuredOutputError;
  failure_status : option Z }.
(*| adk/model_invocation.rs 854-859 ModelInvocationError::boundary *)
Definition boundary (kind : ModelInvocationErrorKind) : ModelInvocationError :=
  mk_InvocationError kind 0 None None None.
(*| adk/model_invocation.rs 861-869 ModelInvocationError::route_mismatch *)
Definition route_mismatch : ModelInvocationError := mk_InvocationError RouteMismatch 0 None None None.
(*| adk/model_invocation.rs 871-883 ModelInvocationError::model *)
Definition model_failed (e : ModelProfileErrorKind) (attempts : Z) (status : option Z) : ModelInvocationError :=
  mk_InvocationError ModelProfileFailure attempts (Some e) None status.
(*| adk/model_invocation.rs 885-893 ModelInvocationError::structured *)
Definition structured (e : StructuredOutputError) (attempts : Z) : ModelInvocationError :=
  mk_InvocationError StructuredOutput attempts None (Some e) None.

Section invocation.
Context `{JsonRead, !IntJson, !AdkLlm, !AdkNew, !AdkRequest, !Sha256, !JsonContract}.

(*| adk/model_invocation.rs 791-797 ModelInvocationResult *)
Record ModelInvocationResult := mk_Result {
  result_output : Value; result_attempts : Z; result_provenance : InvocationProvenance;
  completion_evidence : ModelCompletionEvidence; result_usage : option ProviderTokenUsage }.

(** What one attempt has collected so far. *)
(*| adk/model_invocation.rs 1193-1197 ModelInvocationSpec::invoke_collect *)
Record Collected := mk_Collected {
  output : string; thinking : string; complete : bool; evidence : ModelCompletionEvidence;
  usage : option ProviderTokenUsage }.
Definition nothing_collected : Collected := mk_Collected "" "" false (mk_Evidence None false false) None.

(** Why an attempt ended without a complete text: the model failed, or its
    output broke a limit. *)
Inductive AttemptFailure :=
| ModelSide (kind : ModelProfileErrorKind) (status : option Z) | OutputSide (e : StructuredOutputError).

Section attempt.
(** The output limit, the policy, and whether reasoning is captured. *)
Context (limit : Z) (policy : ResponsePolicy) (capture : bool).

(** [a.checked_add(b).is_none_or(|length| length > limit)]. *)
Definition exceeds (a b : string) (limit : Z) : bool :=
  match checked_add (str_len a) (str_len b) with
  | None => true
  | Some length => (limit <? length)%Z
  end.

(*| adk/model_invocation.rs 1244-1278 ModelInvocationSpec::invoke_collect *)
Definition collect_part (p : Part) (c : Collected) : result AttemptFailure Collected :=
  match p with
  | Text text =>
      ensure (negb (exceeds (output c) text limit)) (OutputSide OutputTooLarge);;
      Ok (mk_Collected (output c +:+ text) (thinking c) (complete c) (evidence c) (usage c))
  | Thinking text =>
      if capture then
        ensure (negb (exceeds (thinking c) text MAX_REASONING_BYTES)) (OutputSide OutputTooLarge);;
        Ok (mk_Collected (output c) (thinking c +:+ text) (complete c) (evidence c) (usage c))
      else if bool_decide (policy = CompleteText) then Err (OutputSide InvalidJson) else Ok c
  | _ => if bool_decide (policy = CompleteText) then Err (OutputSide InvalidJson) else Ok c
  end.

(*| adk/model_invocation.rs 1206-1213 ModelInvocationSpec::invoke_collect *)
Definition unacceptable (r : LlmResponse) : bool :=
  interrupted r || is_some (error_code r) || is_some (error_message r) ||
  from_option (λ reason, bool_decide (reason ≠ Stop)) false (finish_reason r).

(*| adk/model_invocation.rs 1219-1241 ModelInvocationSpec::invoke_collect *)
Definition observe_progress (r : LlmResponse) (c : Collected) : Collected :=
  let c := match usage_of r with
    | Some snapshot => mk_Collected (output c) (thinking c) (complete c) (evidence c) (Some snapshot)
    | None => c
    end in
  if is_some (content r) || partial r || is_some (finish_reason r) then
    mk_Collected (output c) (thinking c)
      (turn_complete r && negb (partial r) && bool_decide (finish_reason r = Some Stop))
      (mk_Evidence (finish_reason r) (turn_complete r) (partial r)) (usage c)
  else c.

(*| adk/model_invocation.rs 1198-1281 ModelInvocationSpec::invoke_collect *)
Fixpoint collect_responses (stream : list (result ModelProfileError LlmResponse)) (c : Collected) :
    result AttemptFailure Collected :=
  match stream with
  | [] => Ok c
  | Err e :: _ => Err (ModelSide (error_kind e) (error_status e))
  | Ok r :: stream =>
      if unacceptable r then Err (ModelSide Provider None)
      else
        c ← try_fold collect_part (from_option parts [] (content r)) (observe_progress r c);
        collect_responses stream c
  end.

(** A whole stream: its text must have ended. *)
(*| adk/model_invocation.rs 1282-1288 ModelInvocationSpec::invoke_collect *)
Definition collect_attempt (stream : list (result ModelProfileError LlmResponse)) :
    result AttemptFailure Collected :=
  c ← collect_responses stream nothing_collected;
  ensure (complete c) (ModelSide Provider None);;
  Ok c.
End attempt.

Context {S : Type} (call_model : LlmRequest → S → S * CallOutcome).
Context (validate : string → result StructuredOutputError unit).

(** One attempt: the call, the stream, and the validation of its text. *)
Inductive AttemptOutcome :=
| Broken (failure : AttemptFailure)
| Rejected (e : StructuredOutputError)
| Accepted (c : Collected) (value : Value).

(*| adk/model_invocation.rs 1183-1289 ModelInvocationSpec::invoke_collect *)
Definition attempt (spec : ModelInvocationSpec) (b : ModelBinding) (request : LlmRequest)
    (policy : ResponsePolicy) (capture : bool) (s : S) : S * AttemptOutcome :=
  let '(s, stream) := generate_stream call_model b request s in
  (s, match stream with
      | Err e => Broken (ModelSide (error_kind e) (error_status e))
      | Ok stream =>
          match collect_attempt (max_output_bytes (output_contract spec)) policy capture stream with
          | Err failure => Broken failure
          | Ok c =>
              match validate (output c);; decode (output_contract spec) (output c) with
              | Ok value => Accepted c value
              | Err e => Rejected e
              end
          end
      end).

(*| adk/model_invocation.rs 1186-1192 ModelInvocationSpec::invoke_collect *)
Definition attempt_error (failure : AttemptFailure) (attempts : Z) : ModelInvocationError :=
  match failure with
  | ModelSide kind status => model_failed kind attempts status
  | OutputSide e => structured e attempts
  end.

(** [max_retries().saturating_add(1)] of a [u8], and the attempts after the
    first. *)
(*| adk/model_invocation.rs 1179-1179 ModelInvocationSpec::invoke_collect *)
Definition max_attempts (spec : ModelInvocationSpec) : Z := Z.min (max_retries (budget spec) + 1) 255.
Definition more_attempts (spec : ModelInvocationSpec) : nat := Z.to_nat (max_attempts spec - 1).

(** The loop, with the attempts made and how many more there may be; the
    reasoning bytes that were captured come with the result. *)
(*| adk/model_invocation.rs 1181-1305 ModelInvocationSpec::invoke_collect *)
Fixpoint attempt_loop (more : nat) (spec : ModelInvocationSpec) (b : ModelBinding)
    (request : LlmRequest) (policy : ResponsePolicy) (capture : bool) (attempts : Z) (s : S) :
    S * (result ModelInvocationError ModelInvocationResult * string) :=
  let attempts := (attempts + 1)%Z in
  let '(s, outcome) := attempt spec b request policy capture s in
  match outcome with
  | Broken failure => (s, (Err (attempt_error failure attempts), ""))
  | Accepted c value =>
      (s, (Ok (mk_Result value attempts (provenance spec) (evidence c) (usage c)),
           if capture then thinking c else ""))
  | Rejected e =>
      match more with
      | Datatypes.S more => attempt_loop more spec b request policy capture attempts s
      | 0 => (s, (Err (structured e attempts), ""))
      end
  end.

(*| adk/model_invocation.rs 1165-1306 ModelInvocationSpec::invoke_collect *)
Definition invoke_collect (spec : ModelInvocationSpec) (b : ModelBinding) (policy : ResponsePolicy)
    (capture : bool) (s : S) : S * (result ModelInvocationError ModelInvocationResult * string) :=
  if negb (matches_binding (spec_route spec) b) then (s, (Err route_mismatch, ""))
  else attempt_loop (more_attempts spec) spec b (to_llm_request spec) policy capture 0 s.

(*| adk/model_invocation.rs 1138-1145 ModelInvocationSpec::invoke_with_policy *)
Definition invoke_with_policy (spec : ModelInvocationSpec) (b : ModelBinding) (policy : ResponsePolicy) (s : S) :
    S * result ModelInvocationError ModelInvocationResult :=
  let '(s, (r, _)) := invoke_collect spec b policy false s in (s, r).
(*| adk/model_invocation.rs 1127-1134 ModelInvocationSpec::invoke_validated *)
Definition invoke_validated (spec : ModelInvocationSpec) (b : ModelBinding) (s : S) :
    S * result ModelInvocationError ModelInvocationResult := invoke_with_policy spec b Ordinary s.
(*| adk/model_invocation.rs 1150-1163 ModelInvocationSpec::invoke_with_reasoning *)
Definition invoke_with_reasoning (spec : ModelInvocationSpec) (b : ModelBinding) (s : S) :
    S * (result ModelInvocationError ModelInvocationResult * string) :=
  invoke_collect spec b CompleteText true s.
End invocation.

(*| adk/model_invocation.rs 1117-1122 ModelInvocationSpec::invoke *)
Definition invoke `{JsonRead, !IntJson, !AdkLlm, !AdkNew, !AdkRequest, !Sha256, !JsonContract} {S : Type}
    (call_model : LlmRequest → S → S * CallOutcome) (spec : ModelInvocationSpec) (b : ModelBinding) (s : S) :
    S * result ModelInvocationError ModelInvocationResult :=
  invoke_validated call_model (λ _, Ok tt) spec b s.

(** ** What the collector accepts *)

Section collector.
Context `{JsonRead, !AdkLlm}.
Context (limit : Z) (policy : ResponsePolicy) (capture : bool).
Implicit Types (c : Collected) (p : Part) (r : LlmResponse).

Definition text_of_part p : string := match p with Text t => t | _ => "" end.
(** The text of a list of parts, in order. *)
Definition text_of (l : list Part) : string := foldr (λ p s, text_of_part p +:+ s) "" l.
Definition response_parts r : list Part := from_option parts [] (content r).

(** What holds of a collection at every step. *)
Record collected_wf c : Prop := {
  wf_output : (str_len (output c) ≤ limit)%Z;
  wf_thinking : (str_len (thinking c) ≤ MAX_REASONING_BYTES)%Z;
  wf_captured : capture = false → thinking c = "";
  wf_complete : complete c = true → evidence c = mk_Evidence (Some Stop) true false }.

Lemma exceeds_false a b n : exceeds a b n = false → (str_len (a +:+ b) ≤ n)%Z.
Proof.
  unfold exceeds, checked_add, str_len. case_decide; [|done]. rewrite str_length_app. lia.
Qed.

Lemma collect_part_spec p c c' :
  collected_wf c → collect_part limit policy capture p c = Ok c' →
  collected_wf c' ∧ output c' = output c +:+ text_of_part p ∧ complete c' = complete c ∧
  evidence c' = evidence c ∧ usage c' = usage c.
Proof.
  intros [Ho Ht Hc He]. destruct p; cbn -[exceeds];
    try (case_bool_decide; [done|]; intros [= <-]; by rewrite str_app_nil_r).
  - intros ([] & Hx%ensure_Ok & [= <-])%bind_Ok. apply negb_true_iff, exceeds_false in Hx. by split_and!.
  - destruct capture eqn:Ecap.
    + intros ([] & Hx%ensure_Ok & [= <-])%bind_Ok. apply negb_true_iff, exceeds_false in Hx.
      cbn. rewrite str_app_nil_r. split_and!; try done. split; cbn; try done. congruence.
    + case_bool_decide; [done|]. intros [= <-]. rewrite str_app_nil_r. split_and!; try done. split; try done. intros _. by apply Hc.
Qed.

Lemma collect_parts_spec l c c' :
  collected_wf c → try_fold (collect_part limit policy capture) l c = Ok c' →
  collected_wf c' ∧ output c' = output c +:+ text_of l ∧ complete c' = complete c ∧
  evidence c' = evidence c ∧ usage c' = usage c.
Proof.
  revert c. induction l as [|p l IH]; intros c Hw; cbn.
  - intros [= <-]. by rewrite str_app_nil_r.
  - intros (c1 & Hfst & Hsnd)%bind_Ok. apply collect_part_spec in Hfst as (Hw1 & Ho & Hc & He & Hu); [|done].
    apply IH in Hsnd as (Hw2 & -> & -> & -> & ->); [|done]. rewrite Ho, str_app_assoc. by split_and!.
Qed.

Lemma observe_progress_wf r c :
  collected_wf c → collected_wf (observe_progress r c) ∧ output (observe_progress r c) = output c.
Proof.
  intros [Ho Ht Hc He]. unfold observe_progress.
  destruct (usage_of r); cbn; destruct (_ || _ || _); cbn; (split; [|done]); split; cbn; try done;
    intros Hx; apply andb_true_iff in Hx as [Hx Hs%bool_decide_eq_true];
    apply andb_true_iff in Hx as [-> Hp%negb_true_iff]; by rewrite Hs, Hp.
Qed.

Lemma text_of_app a b : text_of (a ++ b) = text_of a +:+ text_of b.
Proof.
  induction a as [|p a IH]; [done|]. unfold text_of in *. cbn [app foldr]. by rewrite IH, str_app_assoc.
Qed.

Lemma collect_responses_spec stream c c' :
  collected_wf c → collect_responses limit policy capture stream c = Ok c' →
  ∃ responses, stream = map Ok responses ∧ Forall (λ r, unacceptable r = false) responses ∧
    collected_wf c' ∧ output c' = output c +:+ text_of (concat (map response_parts responses)).
Proof.
  revert c. induction stream as [|[r|e] stream IH]; intros c Hw; cbn; [|..|done].
  - intros [= <-]. exists []. cbn. by rewrite str_app_nil_r.
  - destruct (unacceptable r) eqn:Eu; [done|]. intros (c1 & Hfst & Hsnd)%bind_Ok.
    destruct (observe_progress_wf r c Hw) as [Hw1 Ho1].
    apply collect_parts_spec in Hfst as (Hw2 & Ho2 & _); [|done].
    apply IH in Hsnd as (l & -> & Hl & Hw3 & Ho3); [|done]. exists (r :: l).
    split_and!; [done|by constructor|done|]. cbn [map concat]. rewrite Ho3, Ho2, Ho1.
    by rewrite text_of_app, str_app_assoc.
Qed.

(** The strict policy lets only texts through. *)
Lemma text_only stream c c' :
  policy = CompleteText → capture = false → collect_responses limit policy capture stream c = Ok c' →
  ∃ responses, stream = map Ok responses ∧
    Forall (λ p, ∃ t, p = Text t) (concat (map response_parts responses)).
Proof.
  intros Hp Hc. revert c. induction stream as [|[r|e] stream IH]; intros c; cbn; [by exists []| |done].
  destruct (unacceptable r); [done|]. intros (c1 & Hfst & Hsnd)%bind_Ok.
  apply IH in Hsnd as (l & -> & Hl). exists (r :: l). split; [done|]. cbn [map concat].
  apply Forall_app. split; [|done]. clear IH Hl. unfold response_parts.
  revert Hfst. generalize (observe_progress r c). induction (from_option parts [] (content r)) as [|p ps IH];
    intros c2; [constructor|]. cbn. intros (c3 & Hpart & Hrest)%bind_Ok. constructor; [|by eapply IH].
  destruct p; cbn in Hpart; rewrite ?Hc, ?Hp in Hpart; rewrite ?bool_decide_true in Hpart by done; try done.
  by eexists.
Qed.

Lemma nothing_wf : (0 ≤ limit)%Z → collected_wf nothing_collected.
Proof. intros Hl. by split; cbn. Qed.

Lemma collect_attempt_spec stream c :
  (0 ≤ limit)%Z → collect_attempt limit policy capture stream = Ok c →
  ∃ responses, stream = map Ok responses ∧ Forall (λ r, unacceptable r = false) responses ∧
    collected_wf c ∧ output c = text_of (concat (map response_parts responses)) ∧
    evidence c = mk_Evidence (Some Stop) true false.
Proof.
  intros Hl. unfold collect_attempt. intros (c1 & Hfst & Hsnd)%bind_Ok.
  apply bind_Ok in Hsnd as ([] & Hc%ensure_Ok & [= ->]).
  apply collect_responses_spec in Hfst as (l & ? & ? & Hw & ?); [|by apply nothing_wf].
  exists l. split_and!; try done. by apply Hw.
Qed.
End collector.

Section sound.
Context `{JsonRead, !IntJson, !AdkLlm, !AdkNew, !AdkRequest, !Sha256, !JsonContract}.
Context {S : Type} (call_model : LlmRequest → S → S * CallOutcome).
Context (validate : string → result StructuredOutputError unit).
Implicit Types (spec : ModelInvocationSpec) (b : ModelBinding).

Lemma decode_Ok (contract : StructuredOutputContract) bytes value :
  decode contract bytes = Ok value ↔
  (str_len bytes ≤ max_output_bytes contract)%Z ∧ is_utf8 bytes = true ∧
  read_value bytes = Some (value, true) ∧
  ∃ check, schema_validator (contract_schema contract) = Some check ∧ check value = None.
Proof.
  unfold decode. split.
  - intros ([] & Hl%ensure_Ok & Hd)%bind_Ok. apply bind_Ok in Hd as ([] & Hu%ensure_Ok & Hd).
    destruct (read_value bytes) as [[v ended]|]; [|done]. apply bind_Ok in Hd as ([] & ->%ensure_Ok & Hd).
    destruct (schema_validator _) as [check|]; [|done]. destruct (check v) eqn:Ev; [done|].
    injection Hd as <-. apply negb_true_iff in Hl. split_and!; [lia|done|done|by exists check].
  - intros (Hl & Hu & Hr & check & Hs & Hv). rewrite Hu, Hr, Hs.
    assert ((max_output_bytes contract <? str_len bytes)%Z = false) as -> by lia. cbn. by rewrite Hv.
Qed.

(** A number of attempts, each with a complete text that was rejected. *)
Inductive rejected_run spec b (policy : ResponsePolicy) (capture : bool) : nat → S → S → Prop :=
| no_attempt s : rejected_run spec b policy capture 0 s s
| one_more n s s1 s2 e :
    attempt call_model validate spec b (to_llm_request spec) policy capture s = (s1, Rejected e) →
    rejected_run spec b policy capture n s1 s2 → rejected_run spec b policy capture (1 + n) s s2.

Lemma attempt_loop_run more spec b policy capture attempts s :
  ∃ n s1 s2 outcome, n ≤ more ∧ rejected_run spec b policy capture n s s1 ∧
    attempt call_model validate spec b (to_llm_request spec) policy capture s1 = (s2, outcome) ∧
    attempt_loop call_model validate more spec b (to_llm_request spec) policy capture attempts s =
    (s2, match outcome with
    | Broken failure => (Err (attempt_error failure (attempts + Z.of_nat n + 1)), "")
    | Accepted c value =>
        (Ok (mk_Result value (attempts + Z.of_nat n + 1) (provenance spec) (evidence c) (usage c)),
         if capture then thinking c else "")
    | Rejected e => (Err (structured e (attempts + Z.of_nat n + 1)), "")
    end) ∧
    (∀ e, outcome = Rejected e → n = more).
Proof.
  revert attempts s. induction more as [|more IH]; intros attempts s; cbn [attempt_loop];
    destruct (attempt call_model validate spec b (to_llm_request spec) policy capture s) as [s1 outcome] eqn:Ea;
    [|destruct outcome as [failure|e|c value]].
  - exists 0, s, s1, outcome. split_and!; [lia|constructor|done| |done]. rewrite Z.add_0_r. by destruct outcome.
  - exists 0, s, s1, (Broken failure). split_and!; [lia|constructor|done| |done]. by rewrite Z.add_0_r.
  - destruct (IH (attempts + 1)%Z s1) as (n & s2 & s3 & outcome & Hn & Hrun & Hat & Heq & Hlast).
    exists (1 + n), s2, s3, outcome. split_and!; [lia|by econstructor|done| |intros ? E; apply Hlast in E; lia].
    rewrite Heq. by replace (attempts + Z.of_nat (1 + n) + 1)%Z with (attempts + 1 + Z.of_nat n + 1)%Z by lia.
  - exists 0, s, s1, (Accepted c value). split_and!; [lia|constructor|done| |done]. by rewrite Z.add_0_r.
Qed.

(** What an accepted value rests on: every response of the attempt acceptable,
    the last one that reports progress a completed stop, their text in order
    within the limit, approved by the host's validator and decoded under the
    schema. *)
Definition accepted_value spec b policy (capture : bool) (s s' : S) (c : Collected) (value : Value) : Prop :=
  ∃ responses,
    generate_stream call_model b (to_llm_request spec) s = (s', Ok (map Ok responses)) ∧
    Forall (λ r, unacceptable r = false) responses ∧
    collected_wf (max_output_bytes (output_contract spec)) capture c ∧
    output c = text_of (concat (map response_parts responses)) ∧
    (policy = CompleteText → capture = false →
       Forall (λ p, ∃ t, p = Text t) (concat (map response_parts responses))) ∧
    evidence c = mk_Evidence (Some Stop) true false ∧
    validate (output c) = Ok tt ∧ decode (output_contract spec) (output c) = Ok value ∧
    ∃ check, schema_validator (contract_schema (output_contract spec)) = Some check ∧ check value = None.

Lemma accepted_sound spec b policy capture s s' c value :
  (0 ≤ max_output_bytes (output_contract spec))%Z →
  attempt call_model validate spec b (to_llm_request spec) policy capture s = (s', Accepted c value) →
  accepted_value spec b policy capture s s' c value.
Proof.
  intros Hl. unfold attempt. destruct (generate_stream _ _ _ _) as [s1 [stream|e]] eqn:Eg; [|done].
  destruct (collect_attempt _ _ _ stream) as [c1|] eqn:Ec; [|done].
  destruct (validate (output c1);; _) as [v|] eqn:Ed; [|done]. intros [= <- <- <-].
  apply bind_Ok in Ed as ([] & Hv & Hd). pose proof (proj1 (decode_Ok _ _ _) Hd) as (_ & _ & _ & Hs).
  pose proof Ec as Ec'. unfold collect_attempt in Ec'. apply bind_Ok in Ec' as (c2 & Ec2 & _).
  apply collect_attempt_spec in Ec as (responses & -> & Hr & Hw & Ho & He); [|done].
  exists responses. split_and!; try done. intros Hp Hc.
  destruct (text_only _ policy capture (map Ok responses) nothing_collected c2 Hp Hc Ec2) as (l & E & Hf).
  apply list_fmap_eq_inj in E; [by subst l|by intros ? ? [= ->]].
Qed.

End sound.

(** ** Witness *)

Section witnesses.
#[local] Existing Instance ex_json_Z.
#[local] Existing Instance ModelPrompt.ex_ints.
#[local] Existing Instance ex_adk_llm.
#[local] Existing Instance ex_adk_new.
#[local] Existing Instance ModelPrompt.ex_sha.
#[local] Existing Instance ModelPrompt.ex_number_eq_dec.
#[local] Existing Instance ex_contract.
#[local] Instance ex_request_new : AdkRequest := λ model contents, mk_LlmRequest model contents None ∅ tt.
#[local] Instance ex_pointer : JsonPointer := λ _ _, None.

Definition ex_binding : ModelBinding :=
  mk_ModelBinding Worker (mk_BindingIdentity (mk_Identity "w" "1") "m" "m" "p" "t") default_runtime SharedQueue.
Definition ex_queue : QueuedFakeLlm :=
  QueuedFakeLlm_new "m" (map (λ t, response_new (mk_Content "assistant" [Text t])) ["not json"; "null"]) 0.

Definition ex_invocation : option (QueuedFakeLlm * (result ModelInvocationError ModelInvocationResult * string)) :=
  (λ spec, invoke_collect (call_fake "") (λ _, Ok tt) spec ex_binding Ordinary false ex_queue) <$> ex_spec "task" 1.
Definition second_answer (s : QueuedFakeLlm) (r : result ModelInvocationError ModelInvocationResult) : bool :=
  is_nil (queued s) &&
  match r with
  | Ok x => bool_decide (result_output x = Null) && (result_attempts x =? 2)%Z
  | Err _ => false
  end.
Lemma ex_invoked :
  match ex_invocation with Some (s, (r, _)) => second_answer s r | _ => false end = true.
Proof. by vm_compute. Qed.

End witnesses.
