(* ===== verification/ModelRoutes.v ===== *)
(** * Model routes and sessions

    [workflow-adk/src/model_routes.rs] and [model_sessions.rs]: immutable
    snapshots of ordered, authorized candidates and their last-valid
    publication; the fallback loop that authorizes, binds and invokes one
    candidate after another under one deadline and one cancellation token; the
    projection of a caller's session into the prompt and the events appended to
    it; the probe and observer calls with a fixed declaration.

    The [World] is what the calls share: the provider's state, the session
    store, how often the clock and the token were looked at, and the trace of
    what was done.  [stops] says what each look finds; a call that loses the race
    against the deadline or the token has taken effect or not, as [late] says.
    The session service, the projector of a session and the derived JSON of
    identities and profiles are third-party or generated. *)

From S2P Require Import Prelude Hashing Json JsonRead JsonMap Text Frame Trust Llm ModelProfiles.
From S2P Require Import ModelTelemetry ModelCalls ModelPrompt ModelInvocation.

#[local] Arguments String.append !_ _ /.

(*| adk/model_routes.rs 25-25 MAX_MODEL_ROUTE_CANDIDATES *)
Definition MAX_MODEL_ROUTE_CANDIDATES : nat := 8.

(*| adk/model_routes.rs 28-31 ModelRouteCandidate *)
Record ModelRouteCandidate := mk_Candidate {
  candidate_role : ModelRole; candidate_profile : ModelProfileIdentity }.
#[export] Instance ModelRouteCandidate_eq_dec : EqDecision ModelRouteCandidate.
Proof. solve_decision. Defined.

(** A [BTreeSet] that is only asked for membership. *)
(*| adk/model_routes.rs 55-57 ModelRouteAuthorization *)
Definition ModelRouteAuthorization : Type := list ModelRouteCandidate.
(*| adk/model_routes.rs 66-68 ModelRouteAuthorization::allows *)
Definition allows (a : ModelRouteAuthorization) (c : ModelRouteCandidate) : bool := bool_decide (c ∈ a).

(*| adk/model_routes.rs 72-79 ModelRouteSnapshotErrorKind *)
Inductive ModelRouteSnapshotErrorKind :=
| EmptyCandidates | CandidateLimit | DuplicateCandidate | InvalidRegistry | SnapshotMissingProfile
| InvalidProbeContract.
#[export] Instance ModelRouteSnapshotErrorKind_eq_dec : EqDecision ModelRouteSnapshotErrorKind.
Proof. solve_decision. Defined.

(*| adk/model_routes.rs 330-339 ModelRouteAttemptKind *)
Inductive ModelRouteAttemptKind :=
| AttemptDenied | AttemptConfiguration | AttemptRetryable | AttemptTerminalProvider | AttemptTimeout
| AttemptProtocol | AttemptSession.
#[export] Instance ModelRouteAttemptKind_eq_dec : EqDecision ModelRouteAttemptKind.
Proof. solve_decision. Defined.

(*| adk/model_routes.rs 342-348 ModelRouteAttempt *)
Record ModelRouteAttempt := mk_Attempt {
  ordinal : Z; attempt_kind : ModelRouteAttemptKind; attempt_profile_error : option ModelProfileErrorKind;
  attempt_status : option Z; attempt_output_error : option StructuredOutputError }.

(*| adk/model_routes.rs 376-387 ModelRouteTerminalErrorKind *)
Inductive ModelRouteTerminalErrorKind :=
| AuthorizationDenied | Configuration | RouteDeadlineExceeded | RouteCancelled | TerminalRouteMismatch
| Protocol | TerminalProvider | Exhausted | TerminalSession.
#[export] Instance ModelRouteTerminalErrorKind_eq_dec : EqDecision ModelRouteTerminalErrorKind.
Proof. solve_decision. Defined.

(*| adk/model_routes.rs 390-393 ModelRouteTerminalError *)
Record ModelRouteTerminalError := mk_Terminal {
  terminal_kind : ModelRouteTerminalErrorKind; route_attempts : list ModelRouteAttempt }.
(*| adk/model_routes.rs 423-429 ModelRouteTerminalError::failed_attempt *)
Definition failed_attempt (e : ModelRouteTerminalError) : option ModelRouteAttempt :=
  match terminal_kind e with
  | RouteCancelled | RouteDeadlineExceeded => None
  | _ => list.last (route_attempts e)
  end.

(*| adk/model_routes.rs 1089-1094 route_terminal *)
Definition route_terminal (kind : ModelRouteTerminalErrorKind) (attempts : list ModelRouteAttempt) :
    ModelRouteTerminalError := mk_Terminal kind attempts.

(*| adk/model_routes.rs 993-1026 invocation_failure *)
Definition failure_kinds (e : ModelInvocationError) : ModelRouteAttemptKind * ModelRouteTerminalErrorKind :=
  match failure_kind e with
  | RouteMismatch => (AttemptConfiguration, TerminalRouteMismatch)
  | StructuredOutput => (AttemptProtocol, Protocol)
  | SessionFailure => (AttemptSession, TerminalSession)
  | DeadlineExceeded => (AttemptTimeout, RouteDeadlineExceeded)
  | Cancelled => (AttemptTimeout, RouteCancelled)
  | ModelProfileFailure =>
      if bool_decide (model_failure e = Some Timeout) then (AttemptTimeout, TerminalProvider)
      else (AttemptTerminalProvider, TerminalProvider)
  end.

Definition attempt_of (kind : ModelRouteAttemptKind) (ordinal : Z) (e : ModelInvocationError) : ModelRouteAttempt :=
  mk_Attempt ordinal kind (model_failure e) (failure_status e) (output_failure e).

(*| adk/model_routes.rs 988-1035 invocation_failure *)
Definition invocation_failure (e : ModelInvocationError) (ordinal : Z) (attempts : list ModelRouteAttempt) :
    ModelRouteTerminalError :=
  let '(kind, terminal) := failure_kinds e in
  route_terminal terminal (attempts ++ [attempt_of kind ordinal e]).

(*| adk/model_routes.rs 1037-1052 session_failure *)
Definition session_failure (kind : ModelRouteTerminalErrorKind) (ordinal : Z)
    (attempts : list ModelRouteAttempt) : ModelRouteTerminalError :=
  route_terminal kind
    (if bool_decide (kind = TerminalSession)
     then attempts ++ [mk_Attempt ordinal AttemptSession None None None] else attempts).

(*| adk/model_sessions.rs 120-126 invocation_failure *)
Definition session_invocation_failure (kind : ModelRouteTerminalErrorKind) : ModelInvocationError :=
  boundary (match kind with
            | RouteCancelled => Cancelled
            | RouteDeadlineExceeded => DeadlineExceeded
            | _ => SessionFailure
            end).

Section routes.
Context `{JsonRead, !IntJson, !AdkLlm, !AdkNew, !AdkRequest, !Sha256, !JsonContract, !UrlParse, !OpenAiClient}.

(** ** Snapshots *)

(*| adk/model_routes.rs 103-109 ModelRouteSnapshot *)
Record ModelRouteSnapshot := mk_Snapshot {
  registry : ModelProfileRegistry; candidates : list ModelRouteCandidate;
  authorization : ModelRouteAuthorization }.

(*| adk/model_routes.rs 199-241 ModelRouteSnapshot::new *)
Definition ModelRouteSnapshot_new (r : ModelProfileRegistry) (requested : list ModelRouteCandidate)
    (a : ModelRouteAuthorization) : result ModelRouteSnapshotErrorKind ModelRouteSnapshot :=
  let l := take (MAX_MODEL_ROUTE_CANDIDATES + 1) requested in
  ensure (negb (is_nil l)) EmptyCandidates;;
  ensure (length l <=? MAX_MODEL_ROUTE_CANDIDATES)%nat CandidateLimit;;
  ensure (length (remove_dups l) =? length l)%nat DuplicateCandidate;;
  map_err (λ _, InvalidRegistry) (validate_registry r);;
  ensure (forallb (λ c, is_some (profiles r !! candidate_profile c)) l) SnapshotMissingProfile;;
  Ok (mk_Snapshot r l a).

(*| adk/model_routes.rs 247-253 ModelRouteSnapshot::validate *)
Definition validate_snapshot (s : ModelRouteSnapshot) : result ModelRouteSnapshotErrorKind unit :=
  map_err (λ _, InvalidRegistry) (validate_registry (registry s)).

(** The publisher's lock holds the current snapshot. *)
(*| adk/model_routes.rs 301-305 ModelRoutePublisher::publish *)
Definition publish (s : ModelRouteSnapshot) : method ModelRouteSnapshot ModelRouteSnapshotErrorKind unit :=
  λ current,
    match validate_snapshot s with Ok _ => (s, Ok tt) | Err e => (current, Err e) end.
(*| adk/model_routes.rs 307-318 ModelRoutePublisher::reload *)
Definition reload (r : ModelProfileRegistry) (requested : list ModelRouteCandidate)
    (a : ModelRouteAuthorization) : method ModelRouteSnapshot ModelRouteSnapshotErrorKind unit :=
  λ current,
    match ModelRouteSnapshot_new r requested a with
    | Ok s => publish s current
    | Err e => (current, Err e)
    end.

(** The policy captured from a publisher; its deadline is among the stops. *)
(*| adk/model_routes.rs 488-491 ModelRoutePolicy *)
Record ModelRoutePolicy := mk_Policy { policy_snapshot : ModelRouteSnapshot }.
(*| adk/model_routes.rs 321-326 ModelRoutePublisher::policy *)
Definition capture_policy (current : ModelRouteSnapshot) : ModelRoutePolicy := mk_Policy current.

(** The derived JSON of a profile. *)
Class ProfileJson := profile_value : ModelProfile → Value.
Context `{!ProfileJson}.

Definition role_value (r : ModelRole) : Value :=
  VString (match r with Worker => "worker" | Reviewer => "reviewer" end).
Definition profile_identity_value (i : ModelProfileIdentity) : Value :=
  Object [("name", VString (name i)); ("version", VString (version i))].

(*| adk/model_routes.rs 175-197 ModelRouteSnapshot::probe_declaration_for *)
Definition probe_declaration_for (s : ModelRouteSnapshot) (contract : Value) :
    result ModelRouteSnapshotErrorKind (ModelProfile * string) :=
  match candidates s with
  | [c] =>
      '(original, effective) ← map_err (λ _, InvalidProbeContract)
        (probe_profile (candidate_profile c) (registry s));
      Ok (effective, digest_bytes (canonical_json (Object [
        ("contract", contract); ("effective", profile_value effective);
        ("original", profile_value original);
        ("profile", profile_identity_value (candidate_profile c)); ("role", role_value (candidate_role c))])))
  | _ => Err InvalidProbeContract
  end.

(*| adk/model_routes.rs 162-173 ModelRouteSnapshot::trajectory_observer_declaration *)
Definition trajectory_observer_declaration (s : ModelRouteSnapshot) (contract : Value) :
    result ModelRouteSnapshotErrorKind (ModelProfile * string) :=
  match candidates s with
  | [] => Err InvalidProbeContract
  | c :: _ =>
      ensure (bool_decide (candidate_role c = Reviewer) && allows (authorization s) c) InvalidProbeContract;;
      probe_declaration_for s contract
  end.

(** ** The world *)

(** What was done, in order. *)
Inductive RouteEvent :=
| Resolved (c : ModelRouteCandidate)
| Loaded
| Appended (author : string) (content : Content)
| Invoked (route : ProviderRouteIdentity)
| Completed (result : ModelInvocationResult).

Context {M St AdkIdentity : Type} `{!EqDecision AdkIdentity}.

(** [get_for_identity]: the stored session's identity and its projected
    conversation; [append_event_for_identity], of the event of an invocation,
    and whether it succeeded; the JSON of an identity with its history. *)
Class SessionService := {
  get_session : St → AdkIdentity → option (option AdkIdentity * list Content);
  append_event : St → AdkIdentity → string → string → Content → St * bool;
  history_value : AdkIdentity → list Content → option Value
}.
Context `{!SessionService}.

Record World := mk_World { looks : nat; provider_state : M; store : St; trace : list RouteEvent }.
Definition look (w : World) : World := mk_World (1 + looks w) (provider_state w) (store w) (trace w).
Definition record (e : RouteEvent) (w : World) : World :=
  mk_World (looks w) (provider_state w) (store w) (trace w ++ [e]).

(** What ends a route: the token, or the deadline. *)
Inductive StopKind := StopCancelled | StopDeadline.
Definition stop_kind (k : StopKind) : ModelRouteTerminalErrorKind :=
  match k with StopCancelled => RouteCancelled | StopDeadline => RouteDeadlineExceeded end.

(** The environment of a call: what each look at the clock and the token finds,
    whether a lost race had taken effect, the provider of a binding, and how
    credentials resolve. *)
Record RouteEnv := mk_RouteEnv {
  stops : nat → option StopKind;
  late : nat → bool;
  call_binding : ModelBinding → LlmRequest → M → M * CallOutcome;
  process_env : string → option string;
  broker : CredentialBroker }.
Context (env : RouteEnv).

Definition route_op (E A : Type) : Type := method World E A.

(*| adk/model_routes.rs 1054-1065 route_stop *)
Definition route_stop (w : World) : World * option ModelRouteTerminalErrorKind :=
  (look w, stop_kind <$> stops env (looks w)).

(*| adk/model_routes.rs 1067-1087 await_route *)
Definition await_route {T : Type} (future : World → World * T) : route_op ModelRouteTerminalErrorKind T := λ w,
  match route_stop w with
  | (w, Some kind) => (w, Err kind)
  | (w, None) =>
      match stops env (looks w) with
      | Some kind => (if late env (looks w) then look (fst (future w)) else look w, Err (stop_kind kind))
      | None =>
          let '(w, x) := future (look w) in
          match route_stop w with
          | (w, Some kind) => (w, Err kind)
          | (w, None) => (w, Ok x)
          end
      end
  end.

Definition lift_err {E F A : Type} (f : E → F) (m : route_op E A) : route_op F A := λ w,
  let '(w, r) := m w in (w, map_err f r).

(** The futures. *)
(*| adk/model_routes.rs 270-284 ModelRouteSnapshot::bind *)
Definition bind_candidate (s : ModelRouteSnapshot) (c : ModelRouteCandidate) (w : World) :
    World * result ModelProfileError (ModelBinding * BindingState) :=
  (record (Resolved c) w,
   bind_route (registry s) (candidate_role c) (candidate_profile c) (process_env env) (broker env)).

Definition bind_probe (p : ModelProfile) (c : ModelRouteCandidate) (limit : Z) (w : World) :
    World * result ModelProfileError (ModelBinding * BindingState) :=
  (record (Resolved c) w,
   bind_for_route p (candidate_role c) (process_env env) (broker env) (Some limit)).

Definition invoke_future (validate : string → result StructuredOutputError unit) (spec : ModelInvocationSpec)
    (b : ModelBinding) (policy : ResponsePolicy) (capture : bool) (w : World) :
    World * (result ModelInvocationError ModelInvocationResult * string) :=
  let w := record (Invoked (spec_route spec)) w in
  let '(m, r) := invoke_collect (call_binding env b) validate spec b policy capture (provider_state w) in
  (mk_World (looks w) m (store w) (trace w), r).

Definition load_future (identity : AdkIdentity) (w : World) : World * option (option AdkIdentity * list Content) :=
  (record Loaded w, get_session (store w) identity).

Definition append_future (identity : AdkIdentity) (invocation author : string) (c : Content) (w : World) :
    World * bool :=
  let '(st, ok) := append_event (store w) identity invocation author c in
  (record (Appended author c) (mk_World (looks w) (provider_state w) st (trace w)), ok).

(** ** Sessions *)

(*| adk/model_sessions.rs 96-118 append *)
Definition append (spec : ModelInvocationSpec) (identity : AdkIdentity) (author : string) (c : Content) :
    route_op ModelRouteTerminalErrorKind unit :=
  ok ← await_route (append_future identity (invocation_identity spec) author c);
  if (ok : bool) then mret tt else throw TerminalSession.

(*| adk/model_sessions.rs 36-74 prepare *)
Definition prepare (spec : ModelInvocationSpec) (identity : AdkIdentity) :
    route_op ModelRouteTerminalErrorKind ModelInvocationSpec :=
  snapshot ← await_route (load_future identity);
  match snapshot with
  | None => throw TerminalSession
  | Some (stored, contents) =>
      if bool_decide (stored = Some identity) then
        match history_value identity contents, list.last (prompt_contents (prompt spec)) with
        | Some material, Some user =>
            let prepared :=
              with_history (mk_History contents (digest_bytes (canonical_json material))) spec in
            append prepared identity "user" user;;
            mret prepared
        | _, _ => throw TerminalSession
        end
      else throw TerminalSession
  end.

(*| adk/model_sessions.rs 76-94 append_accepted *)
Definition append_accepted (spec : ModelInvocationSpec) (r : ModelInvocationResult) (identity : AdkIdentity) :
    route_op ModelRouteTerminalErrorKind unit :=
  append spec identity "model" (mk_Content "model" [Text (canonical_json (result_output r))]).

(*| adk/model_sessions.rs 153-190 ModelInvocationSpec::invoke_in_session_validated *)
Definition spec_invoke_in_session (validate : string → result StructuredOutputError unit)
    (spec : ModelInvocationSpec) (b : ModelBinding) (identity : AdkIdentity) :
    route_op ModelInvocationError ModelInvocationResult :=
  if negb (matches_binding (spec_route spec) b) then throw route_mismatch
  else
    prepared ← lift_err session_invocation_failure (prepare spec identity);
    answered ← lift_err session_invocation_failure
      (await_route (invoke_future validate prepared b Ordinary false));
    match fst answered with
    | Err e => throw e
    | Ok r =>
        lift_err (λ kind, let e := session_invocation_failure kind in
            mk_InvocationError (failure_kind e) (result_attempts r) (model_failure e) (output_failure e)
              (failure_status e))
          (append_accepted prepared r identity);;
        mret r
    end.

(** ** Routes *)

Definition configuration_failed (ordinal : Z) (attempts : list ModelRouteAttempt) (e : ModelProfileError) :
    ModelRouteTerminalError :=
  mk_Terminal Configuration
    (attempts ++ [mk_Attempt ordinal AttemptConfiguration (Some (error_kind e)) (error_status e) None]).
Definition denied (ordinal : Z) (attempts : list ModelRouteAttempt) : ModelRouteTerminalError :=
  route_terminal AuthorizationDenied (attempts ++ [mk_Attempt ordinal AttemptDenied None None None]).

Definition stop_check (attempts : list ModelRouteAttempt) : route_op ModelRouteTerminalError unit := λ w,
  match route_stop w with
  | (w, Some kind) => (w, Err (route_terminal kind attempts))
  | (w, None) => (w, Ok tt)
  end.

Definition or_throw {E F A : Type} (f : E → F) (r : result E A) : route_op F A := λ w, (w, map_err f r).
Definition throw_if {E : Type} (b : bool) (e : E) : route_op E unit := if b then throw e else mret tt.

(*| adk/model_routes.rs 729-781 ModelRoutePolicy::bind_authorized *)
Definition bind_authorized (p : ModelRoutePolicy) : route_op ModelRouteTerminalError unit :=
  let s := policy_snapshot p in
  match candidates s with
  | [] => throw (route_terminal Exhausted [])
  | c :: _ =>
      stop_check [];;
      throw_if (negb (allows (authorization s) c)) (denied 1 []);;
      bound ← lift_err (λ kind, route_terminal kind []) (await_route (bind_candidate s c));
      or_throw (configuration_failed 1 []) bound;;
      mret tt
  end.

(** The session of a call: its specification once prepared. *)
(*| adk/model_routes.rs 897-914 ModelRoutePolicy::invoke_with_response_policy *)
Definition prepare_once (spec : ModelInvocationSpec) (session : option AdkIdentity) (ordinal : Z)
    (attempts : list ModelRouteAttempt) (prepared : option ModelInvocationSpec) :
    route_op ModelRouteTerminalError (option ModelInvocationSpec) :=
  match session, prepared with
  | Some identity, None =>
      p ← lift_err (λ kind, session_failure kind ordinal attempts) (prepare spec identity);
      mret (Some p)
  | _, _ => mret prepared
  end.

(*| adk/model_routes.rs 953-966 ModelRoutePolicy::invoke_with_response_policy *)
Definition accept (spec : ModelInvocationSpec) (session : option AdkIdentity) (ordinal : Z)
    (attempts : list ModelRouteAttempt) (r : ModelInvocationResult) :
    route_op ModelRouteTerminalError ModelInvocationResult :=
  match session with
  | Some identity =>
      lift_err (λ kind, session_failure kind ordinal attempts) (append_accepted spec r identity);;
      mret r
  | None => mret r
  end.

Definition retryable (e : ModelInvocationError) : bool :=
  bool_decide (model_failure e = Some RetryableProvider).

Section fallback.
Context (s : ModelRouteSnapshot) (spec : ModelInvocationSpec) (policy : ResponsePolicy).
Context (session : option AdkIdentity) (validate : string → result StructuredOutputError unit).

(*| adk/model_routes.rs 915-950 ModelRoutePolicy::invoke_with_response_policy *)
Definition bind_and_invoke (c : ModelRouteCandidate) (ordinal : Z) (attempts : list ModelRouteAttempt)
    (active : ModelInvocationSpec) :
    route_op ModelRouteTerminalError (result ModelInvocationError ModelInvocationResult) :=
  bound ← lift_err (λ kind, route_terminal kind attempts) (await_route (bind_candidate s c));
  '(b, _) ← or_throw (configuration_failed ordinal attempts) bound;
  answered ← lift_err (λ kind, route_terminal kind attempts)
    (await_route (invoke_future validate (with_route (from_binding b) active) b policy false));
  mret (fst answered).

(** The remaining candidates; [ordinal] is that of the first of them. *)
(*| adk/model_routes.rs 879-984 ModelRoutePolicy::invoke_with_response_policy *)
Fixpoint try_candidates (remaining : list ModelRouteCandidate) (ordinal : Z)
    (attempts : list ModelRouteAttempt) (prepared : option ModelInvocationSpec) :
    route_op ModelRouteTerminalError ModelInvocationResult :=
  match remaining with
  | [] => throw (route_terminal Exhausted attempts)
  | c :: remaining =>
      stop_check attempts;;
      throw_if (negb (allows (authorization s) c)) (denied ordinal attempts);;
      prepared ← prepare_once spec session ordinal attempts prepared;
      let active := default spec prepared in
      answered ← bind_and_invoke c ordinal attempts active;
      match answered with
      | Ok r => accept active session ordinal attempts r
      | Err e =>
          if retryable e then
            try_candidates remaining (ordinal + 1) (attempts ++ [attempt_of AttemptRetryable ordinal e]) prepared
          else throw (invocation_failure e ordinal attempts)
      end
  end.
End fallback.

(*| adk/model_routes.rs 865-985 ModelRoutePolicy::invoke_with_response_policy *)
Definition invoke_with_response_policy (p : ModelRoutePolicy) (spec : ModelInvocationSpec)
    (policy : ResponsePolicy) (session : option AdkIdentity)
    (validate : string → result StructuredOutputError unit) :
    route_op ModelRouteTerminalError ModelInvocationResult :=
  let s := policy_snapshot p in
  try_candidates s spec policy session validate (candidates s) 1 [] None.
(*| adk/model_routes.rs 788-803 ModelRoutePolicy::invoke *)
Definition route_invoke (p : ModelRoutePolicy) (spec : ModelInvocationSpec) :
    route_op ModelRouteTerminalError ModelInvocationResult :=
  invoke_with_response_policy p spec Ordinary None (λ _, Ok tt).
(*| adk/model_routes.rs 808-823 ModelRoutePolicy::invoke_complete_text *)
Definition route_invoke_complete_text (p : ModelRoutePolicy) (spec : ModelInvocationSpec) :
    route_op ModelRouteTerminalError ModelInvocationResult :=
  invoke_with_response_policy p spec CompleteText None (λ _, Ok tt).
(*| adk/model_routes.rs 845-863 ModelRoutePolicy::invoke_in_session_validated *)
Definition route_invoke_in_session (p : ModelRoutePolicy) (spec : ModelInvocationSpec)
    (identity : AdkIdentity) (validate : string → result StructuredOutputError unit) :
    route_op ModelRouteTerminalError ModelInvocationResult :=
  invoke_with_response_policy p spec Ordinary (Some identity) validate.

(** ** Probes *)

(** The future of a probe: its completion is delivered before the late guard. *)
Definition probe_future (validate : string → result StructuredOutputError unit) (spec : ModelInvocationSpec)
    (b : ModelBinding) (capture : bool) (w : World) :
    World * (result ModelInvocationError ModelInvocationResult * string) :=
  let '(w, (r, reasoning)) := invoke_future validate spec b CompleteText capture w in
  (match r with Ok completed => record (Completed completed) w | Err _ => w end, (r, reasoning)).

Definition probe_answer (r : result ModelInvocationError ModelInvocationResult * string) :
    result ModelRouteTerminalError (ModelInvocationResult * string) :=
  let '(r, reasoning) := r in
  (λ r, (r, reasoning)) <$> map_err (λ e, invocation_failure e 1 []) r.

(*| adk/behavioral/model_probe.rs 367-367 MAX_RESPONSE_BYTES *)
Definition MAX_RESPONSE_BYTES : Z := 65536.

(** [contract]: that of the probe, or of the reasoning capture. *)
(*| adk/model_routes.rs 637-717 ModelRoutePolicy::invoke_model_probe_with_capture *)
Definition invoke_model_probe (p : ModelRoutePolicy) (spec : ModelInvocationSpec) (expected : string)
    (contract : Value) (capture : bool) (validate : string → result StructuredOutputError unit) :
    route_op ModelRouteTerminalError (ModelInvocationResult * string) :=
  let s := policy_snapshot p in
  stop_check [];;
  '(profile, digest) ← or_throw (λ _, route_terminal Configuration []) (probe_declaration_for s contract);
  throw_if (negb (str_eqb digest expected)) (route_terminal AuthorizationDenied []);;
  c ← or_throw (λ _ : unit, route_terminal Configuration []) (from_option Ok (Err tt) (head (candidates s)));
  throw_if (negb (allows (authorization s) c)) (route_terminal AuthorizationDenied []);;
  bound ← lift_err (λ kind, route_terminal kind []) (await_route (bind_probe profile c MAX_RESPONSE_BYTES));
  '(b, _) ← or_throw (configuration_failed 1 []) bound;
  answered ← lift_err (λ kind, route_terminal kind [])
    (await_route (probe_future validate (with_route (from_binding b) spec) b capture));
  or_throw id (probe_answer answered).

(*| adk/model_routes.rs 496-558 ModelRoutePolicy::invoke_trajectory_observer *)
Definition invoke_trajectory_observer (p : ModelRoutePolicy) (spec : ModelInvocationSpec)
    (expected : string) (contract : Value) (validate : string → result StructuredOutputError unit) :
    route_op ModelRouteTerminalError (ModelInvocationResult * string) :=
  let s := policy_snapshot p in
  stop_check [];;
  '(profile, digest) ← or_throw (λ _, route_terminal Configuration [])
    (trajectory_observer_declaration s contract);
  throw_if (negb (str_eqb digest expected)) (route_terminal AuthorizationDenied []);;
  c ← or_throw (λ _ : unit, route_terminal Configuration []) (from_option Ok (Err tt) (head (candidates s)));
  bound ← lift_err (λ kind, route_terminal kind []) (await_route (bind_probe profile c 32768));
  '(b, _) ← or_throw (λ _, route_terminal Configuration []) bound;
  answered ← lift_err (λ kind, route_terminal kind [])
    (await_route (probe_future validate (with_route (from_binding b) spec) b false));
  or_throw id (probe_answer answered).

(*| adk/model_routes.rs 559-597 ModelRoutePolicy::bind_probe_feedback *)
Definition bind_probe_feedback (p : ModelRoutePolicy) (expected : string) (contract : Value) :
    route_op ModelRouteTerminalError ModelBinding :=
  let s := policy_snapshot p in
  stop_check [];;
  '(profile, digest) ← or_throw (λ _, route_terminal Configuration []) (probe_declaration_for s contract);
  c ← or_throw (λ _ : unit, route_terminal Configuration []) (from_option Ok (Err tt) (head (candidates s)));
  throw_if (negb (str_eqb digest expected) || negb (allows (authorization s) c))
    (route_terminal AuthorizationDenied []);;
  bound ← lift_err (λ kind, route_terminal kind []) (await_route (bind_probe profile c 32768));
  '(b, _) ← or_throw (λ _, route_terminal Configuration []) bound;
  mret b.

(*| adk/model_routes.rs 599-615 ModelRoutePolicy::invoke_probe_feedback *)
Definition invoke_probe_feedback (b : ModelBinding) (spec : ModelInvocationSpec)
    (validate : string → result StructuredOutputError unit) :
    route_op ModelRouteTerminalError (ModelInvocationResult * string) :=
  answered ← lift_err (λ kind, route_terminal kind [])
    (await_route (invoke_future validate (with_route (from_binding b) spec) b CompleteText false));
  or_throw id (probe_answer answered).
End routes.

(** ** What a route does *)

Section fallback_properties.
Context `{JsonRead, !IntJson, !AdkLlm, !AdkNew, !AdkRequest, !Sha256, !JsonContract, !UrlParse, !OpenAiClient}.
Context {M St AdkIdentity : Type} `{!EqDecision AdkIdentity, !SessionService (St := St) (AdkIdentity := AdkIdentity)}.
Context (env : RouteEnv (M := M)).
Implicit Types (w : World (M := M) (St := St)) (new : list RouteEvent).

Definition resolved new : list ModelRouteCandidate :=
  omap (λ e, match e with Resolved c => Some c | _ => None end) new.
Definition invoked new : list ProviderRouteIdentity :=
  omap (λ e, match e with Invoked r => Some r | _ => None end) new.
Definition loads new : list unit := omap (λ e, match e with Loaded => Some tt | _ => None end) new.
Definition turns (author : string) new : list Content :=
  omap (λ e, match e with Appended a c => if str_eqb a author then Some c else None | _ => None end) new.

Definition adds {T : Type} (future : World (M := M) (St := St) → World (M := M) (St := St) * T) new : Prop :=
  ∀ w, trace (fst (future w)) = trace w ++ new.

Lemma wp_await {T : Type} (future : World → World * T) new Q R w :
  adds future new →
  (∀ x w', trace w' = trace w ++ new → Q x w') →
  (∀ k w', trace w' = trace w ∨ trace w' = trace w ++ new → R (stop_kind k) w') →
  wp (await_route env future) Q R w.
Proof.
  intros Hf HQ HR. unfold wp, await_route, route_stop.
  destruct (stops env (looks w)) as [k|]; cbn; [apply HR; by left|].
  destruct (stops env _) as [k|].
  - apply HR. destruct (late env _); [right; cbn; by rewrite Hf|by left].
  - destruct (future _) as [w1 x] eqn:E. assert (trace w1 = trace w ++ new) as Ht.
    { change w1 with (fst (w1, x)). rewrite <- E, Hf. done. }
    destruct (stops env (looks w1)) as [k|]; cbn; [apply HR; by right|by apply HQ].
Qed.

Lemma wp_lift_err {E F A : Type} (f : E → F) (m : method (World (M := M) (St := St)) E A) Q R w :
  wp m Q (λ e, R (f e)) w → wp (lift_err f m) Q R w.
Proof. unfold wp, lift_err. destruct (m w) as [w' [x|e]]; done. Qed.

Lemma wp_or_throw {E F A : Type} (f : E → F) (r : result E A) Q R w :
  match r with Ok x => Q x w | Err e => R (f e) w end → wp (or_throw (M := M) (St := St) f r) Q R w.
Proof. by destruct r. Qed.

Lemma bind_candidate_adds s c : adds (bind_candidate env s c) [Resolved c].
Proof. done. Qed.
Lemma load_adds identity : adds (load_future identity) [Loaded].
Proof. done. Qed.
Lemma append_adds identity i author c : adds (append_future identity i author c) [Appended author c].
Proof. intros w. unfold append_future. by destruct (append_event _ _ _ _ _). Qed.
Lemma invoke_adds validate spec b policy capture :
  adds (invoke_future env validate spec b policy capture) [Invoked (spec_route spec)].
Proof. intros w. unfold invoke_future. by destruct (invoke_collect _ _ _ _ _ _ _). Qed.

(** An append, failed or not, is the last thing in the trace. *)
Lemma wp_append spec identity author c Q R w :
  (∀ w', trace w' = trace w ++ [Appended author c] → Q tt w') →
  (∀ k w', k ∈ [TerminalSession; RouteCancelled; RouteDeadlineExceeded] →
     trace w' = trace w ∨ trace w' = trace w ++ [Appended author c] → R k w') →
  wp (append env spec identity author c) Q R w.
Proof.
  intros HQ HR. unfold append. apply wp_bind. eapply wp_await; [apply append_adds|..].
  - intros [] w' Hw; [by apply wp_ret, HQ|]. apply wp_throw, HR; [set_solver|by right].
  - intros k w' Hw. apply HR; [|done]. destruct k; set_solver.
Qed.

Lemma wp_prepare spec identity Q R w :
  (∀ p c w', trace w' = trace w ++ [Loaded; Appended "user" c] → Q p w') →
  (∀ k w' new, k ∈ [TerminalSession; RouteCancelled; RouteDeadlineExceeded] →
     trace w' = trace w ++ new → (new = [] ∨ new = [Loaded] ∨ ∃ c, new = [Loaded; Appended "user" c]) → R k w') →
  wp (prepare env spec identity) Q R w.
Proof.
  intros HQ HR. unfold prepare. apply wp_bind. eapply wp_await; [apply load_adds|..].
  - intros [[stored contents]|] w' Hw; [|apply wp_throw; eapply HR; [set_solver|done|by auto]].
    destruct (bool_decide _); [|apply wp_throw; eapply HR; [set_solver|done|by auto]].
    destruct (history_value _ _) as [material|]; [|apply wp_throw; eapply HR; [set_solver|done|by auto]].
    destruct (list.last _) as [user|]; [|apply wp_throw; eapply HR; [set_solver|done|by auto]].
    apply wp_bind, wp_append.
    + intros w2 Hw2. apply wp_ret. eapply HQ. rewrite Hw2, Hw, <- (assoc_L (++)). done.
    + intros k w2 Hk [Hw2|Hw2]; (eapply HR; [done|rewrite Hw2, Hw, <- ?(assoc_L (++)); done|]); eauto.
  - intros k w' [Hw|Hw]; (eapply HR; [destruct k; set_solver| |]).
    + by rewrite Hw, (right_id_L [] (++)).
    + by left.
    + done.
    + by auto.
Qed.

Section loop.
Context (s : ModelRouteSnapshot) (spec : ModelInvocationSpec) (policy : ResponsePolicy).
Context (session : option AdkIdentity) (validate : string → result StructuredOutputError unit).

Definition accepted_content (r : ModelInvocationResult) : Content :=
  mk_Content "model" [Text (canonical_json (result_output r))].
Definition session_kinds : list ModelRouteTerminalErrorKind := [TerminalSession; RouteCancelled; RouteDeadlineExceeded].
Definition b2n (b : bool) : nat := if b then 1 else 0.

(** What a run of the loop over [l] adds to the trace, and how it ends: [fresh]
    when the session is still to be prepared. *)
Record fallback_run (l : list ModelRouteCandidate) (ord : Z) (atts : list ModelRouteAttempt) (fresh : bool)
    new (r : result ModelRouteTerminalError ModelInvocationResult) : Prop := {
  run_resolved : resolved new `prefix_of` l;
  run_allowed : Forall (λ c, allows (authorization s) c = true) (resolved new);
  run_denied : ∀ c, head l = Some c → allows (authorization s) c = false → new = [];
  run_invoked : length (invoked new) ≤ length (resolved new);
  run_loads : length (loads new) ≤ b2n fresh;
  run_users : length (turns "user" new) ≤ length (loads new);
  run_models : session = None → turns "model" new = [];
  run_result : match r with
    | Ok x => length (invoked new) = length (resolved new) ∧ invoked new ≠ [] ∧
        length (turns "user" new) = b2n fresh ∧
        (∀ identity, session = Some identity →
           turns "model" new = [accepted_content x] ∧ list.last new = Some (Appended "model" (accepted_content x)))
    | Err e => (turns "model" new = [] ∨ terminal_kind e ∈ session_kinds) ∧
        ∃ more, route_attempts e = atts ++ more ∧ length more ≤ length l ∧
          map ordinal more = map (λ i, ord + Z.of_nat i)%Z (seq 0 (length more)) ∧
          Forall (λ a, attempt_kind a = AttemptRetryable) (removelast more)
    end }.

(** The events before the candidate is resolved. *)
Definition preparation (fresh : bool) new : Prop :=
  new = [] ∧ fresh = false ∨ fresh = true ∧ ∃ c, new = [Loaded; Appended "user" c].

Lemma fallback_Err l ord atts fresh new e more :
  resolved new `prefix_of` l → Forall (λ c, allows (authorization s) c = true) (resolved new) →
  (∀ c, head l = Some c → allows (authorization s) c = false → new = []) →
  length (invoked new) ≤ length (resolved new) → length (loads new) ≤ b2n fresh →
  length (turns "user" new) ≤ length (loads new) → (session = None → turns "model" new = []) →
  (turns "model" new = [] ∨ terminal_kind e ∈ session_kinds) →
  route_attempts e = atts ++ more → (more = [] ∨ ∃ a, more = [a] ∧ ordinal a = ord ∧ l ≠ []) →
  fallback_run l ord atts fresh new (Err e).
Proof.
  intros H1' H2' H3' H4' H5' H6' H7' H8' Ha Hm. split; try done. split; [done|]. exists more.
  destruct Hm as [->|(a & -> & Hord & Hl)]; (split_and!; [done| | |constructor]); cbn; try done; try lia.
  - destruct l; [done|]. cbn. lia.
  - by rewrite Z.add_0_r, Hord.
Qed.

(** One retryable candidate, then the rest. *)
Lemma fallback_cons c l ord atts fresh prep rt a new r :
  allows (authorization s) c = true → preparation fresh prep → ordinal a = ord →
  attempt_kind a = AttemptRetryable →
  fallback_run l (ord + 1) (atts ++ [a]) false new r →
  fallback_run (c :: l) ord atts fresh (prep ++ Resolved c :: Invoked rt :: new) r.
Proof.
  intros Hc Hprep Hord Hkind [R A _ I L U Mo Res].
  assert (∀ {X} (f : RouteEvent → option X) (t : list RouteEvent), omap f (prep ++ t) = omap f prep ++ omap f t)
    as Happ by (intros; apply omap_app).
  assert (resolved prep = [] ∧ invoked prep = [] ∧ turns "model" prep = [] ∧ length (loads prep) = b2n fresh ∧
    length (turns "user" prep) = b2n fresh) as (Pr & Pi & Pm & Pl & Pu).
  { destruct Hprep as [[-> ->]|[-> [c' ->]]]; by split_and!. }
  assert (length (loads new) = 0) as Hl0 by (cbn in L; lia).
  assert (turns "user" new = []) as Hu0 by (destruct (turns "user" new); [done|cbn in U; lia]).
  split; unfold resolved, invoked, loads, turns in *; rewrite ?Happ, ?Pr, ?Pi, ?Pm; cbn.
  - by apply prefix_cons.
  - by constructor.
  - intros c' [= <-] Hd. by rewrite Hc in Hd.
  - lia.
  - rewrite length_app. lia.
  - rewrite !length_app, Hu0. cbn. lia.
  - done.
  - destruct r as [x|e].
    + destruct Res as (Hi & Hn & Hu & Hs). rewrite Hu0, (right_id_L [] (++)). split_and!; [by rewrite Hi|done|done|].
      intros identity Hid. destruct (Hs identity Hid) as [Hm Hlast]. split; [done|].
      destruct new as [|e0 new0]; [done|]. by rewrite last_app_cons, !last_cons_cons.
    + destruct Res as (Hm & more & Ha & Hlen & Hords & Hret). split; [done|].
      exists (a :: more). rewrite Ha, <- (assoc_L (++)). split_and!; [done|cbn; lia| |].
      * cbn [map length seq]. rewrite Hord, Z.add_0_r, <- seq_shift, map_map. f_equal. rewrite Hords.
        apply map_ext. intros i. lia.
      * cbn [removelast]. destruct more; [constructor|]. by constructor.
Qed.

Lemma stop_in_kinds k : stop_kind k ∈ session_kinds.
Proof. destruct k; set_solver. Qed.

Lemma wp_stop_check atts Q R w :
  (∀ w', trace w' = trace w → Q tt w') →
  (∀ k w', trace w' = trace w → R (route_terminal (stop_kind k) atts) w') →
  wp (stop_check env atts) Q R w.
Proof.
  intros HQ HR. unfold wp, stop_check, route_stop. destruct (stops env (looks w)); cbn; [by apply HR|by apply HQ].
Qed.

Definition unprepared (prepared : option ModelInvocationSpec) : bool :=
  is_some session && negb (is_some prepared).

Lemma wp_prepare_once ord atts prepared Q R w :
  (∀ p w' prep, preparation (unprepared prepared) prep → trace w' = trace w ++ prep →
     unprepared p = false → (session = None → p = prepared) → Q p w') →
  (∀ k w' new, unprepared prepared = true → k ∈ session_kinds → trace w' = trace w ++ new →
     (new = [] ∨ new = [Loaded] ∨ ∃ c, new = [Loaded; Appended "user" c]) →
     R (session_failure k ord atts) w') →
  wp (prepare_once env spec session ord atts prepared) Q R w.
Proof.
  intros HQ HR. unfold prepare_once, unprepared in *. destruct session as [identity|]; cbn in *.
  - destruct prepared as [p|]; cbn in *.
    + change (Q (Some p) w). apply (HQ _ _ []); [by left|by rewrite (right_id_L [] (++))|done|done].
    + apply wp_bind, wp_lift_err, wp_prepare.
      * intros p c w' Hw. apply wp_ret. eapply HQ; [right; split; [done|by eexists]|done|done|done].
      * intros k w' new Hk Hw Hn. by eapply HR.
  - change (Q prepared w). apply (HQ _ _ []); [by left|by rewrite (right_id_L [] (++))|done|done].
Qed.

Lemma wp_bind_and_invoke c ord atts active Q R w :
  (∀ x rt w', trace w' = trace w ++ [Resolved c; Invoked rt] → Q x w') →
  (∀ e w' more, trace w' = trace w ++ more →
     (more = [] ∨ more = [Resolved c] ∨ ∃ rt, more = [Resolved c; Invoked rt]) →
     (∃ k, e = route_terminal (stop_kind k) atts) ∨ (∃ pe, e = configuration_failed ord atts pe) → R e w') →
  wp (bind_and_invoke env s policy validate c ord atts active) Q R w.
Proof.
  intros HQ HR. unfold bind_and_invoke. apply wp_bind, wp_lift_err. eapply wp_await; [apply bind_candidate_adds|..].
  - intros bound w1 Hw1. apply wp_bind, wp_or_throw. destruct bound as [[b st]|pe].
    + apply wp_bind, wp_lift_err. eapply wp_await; [apply invoke_adds|..].
      * intros x w2 Hw2. apply wp_ret. eapply HQ. by rewrite Hw2, Hw1, <- (assoc_L (++)).
      * intros k w2 [Hw2|Hw2]; (eapply HR; [by rewrite Hw2, Hw1, <- ?(assoc_L (++))| |left; by eexists]); eauto.
    + eapply HR; [done|by auto|right; by eexists].
  - intros k w1 [Hw1|Hw1]; (eapply HR; [| |left; by eexists]).
    + by rewrite Hw1, (right_id_L [] (++)).
    + by left.
    + done.
    + by auto.
Qed.

(** An error after part of a candidate's events. *)
Lemma fallback_partial c l ord atts fresh prep more e last :
  allows (authorization s) c = true → preparation fresh prep →
  (more = [] ∨ more = [Resolved c] ∨ ∃ rt, more = [Resolved c; Invoked rt]) →
  route_attempts e = atts ++ last → (last = [] ∨ ∃ a, last = [a] ∧ ordinal a = ord) →
  fallback_run (c :: l) ord atts fresh (prep ++ more) (Err e).
Proof.
  intros Hc Hprep Hmore Ha Hlast. eapply fallback_Err; try done.
  - destruct Hprep as [[-> _]|[_ [c' ->]]], Hmore as [->|[->|[rt ->]]]; cbn; try apply prefix_nil; by apply prefix_cons, prefix_nil.
  - destruct Hprep as [[-> _]|[_ [c' ->]]], Hmore as [->|[->|[rt ->]]]; by repeat constructor.
  - intros c' [= <-] Hd. by rewrite Hc in Hd.
  - destruct Hprep as [[-> _]|[_ [c' ->]]], Hmore as [->|[->|[rt ->]]]; first [apply le_n|apply Nat.le_0_l|apply le_S, le_n].
  - destruct Hprep as [[-> ->]|[-> [c' ->]]], Hmore as [->|[->|[rt ->]]]; first [apply le_n|apply Nat.le_0_l|apply le_S, le_n].
  - destruct Hprep as [[-> _]|[_ [c' ->]]], Hmore as [->|[->|[rt ->]]]; first [apply le_n|apply Nat.le_0_l|apply le_S, le_n].
  - intros _. by destruct Hprep as [[-> _]|[_ [c' ->]]], Hmore as [->|[->|[rt ->]]].
  - left. by destruct Hprep as [[-> _]|[_ [c' ->]]], Hmore as [->|[->|[rt ->]]].
  - destruct Hlast as [->|(a & -> & Ho)]; [by left|]. right. by exists a.
Qed.

(** The end of an accepted candidate. *)
Lemma fallback_accepted c l ord atts fresh prep rt x tail :
  allows (authorization s) c = true → preparation fresh prep →
  tail = from_option (λ _, [Appended "model" (accepted_content x)]) [] session →
  fallback_run (c :: l) ord atts fresh (prep ++ [Resolved c; Invoked rt] ++ tail) (Ok x).
Proof.
  intros Hc Hprep ->. split.
  - destruct Hprep as [[-> _]|[_ [c' ->]]], session; apply prefix_cons, prefix_nil.
  - destruct Hprep as [[-> _]|[_ [c' ->]]], session; by repeat constructor.
  - intros c' [= <-] Hd. by rewrite Hc in Hd.
  - destruct Hprep as [[-> _]|[_ [c' ->]]], session; apply le_n.
  - destruct Hprep as [[-> ->]|[-> [c' ->]]], session; apply le_n.
  - destruct Hprep as [[-> ->]|[-> [c' ->]]], session; apply le_n.
  - intros ->. by destruct Hprep as [[-> ->]|[-> [c' ->]]].
  - destruct Hprep as [[-> ->]|[-> [c' ->]]], session; split_and!; try done; by intros identity [= <-].
Qed.

(** An accepted answer whose append failed, or was not known to succeed. *)
Lemma fallback_unsaved c l ord atts fresh prep rt x kind tail :
  allows (authorization s) c = true → preparation fresh prep → is_Some session → kind ∈ session_kinds →
  (tail = [] ∨ tail = [Appended "model" (accepted_content x)]) →
  fallback_run (c :: l) ord atts fresh (prep ++ [Resolved c; Invoked rt] ++ tail) (Err (session_failure kind ord atts)).
Proof.
  intros Hc Hprep [identity Hs] Hk Ht.
  assert (∃ more, route_attempts (session_failure kind ord atts) = atts ++ more ∧
    (more = [] ∨ ∃ a, more = [a] ∧ ordinal a = ord)) as (more & Ha & Hm).
  { unfold session_failure. case_bool_decide; cbn.
    - eexists. split; [done|]. right. by eexists.
    - exists []. split; [by rewrite (right_id_L [] (++))|by left]. }
  eapply (fallback_Err _ _ _ _ _ _ more); try done.
  - destruct Hprep as [[-> _]|[_ [c' ->]]], Ht as [->| ->]; apply prefix_cons, prefix_nil.
  - destruct Hprep as [[-> _]|[_ [c' ->]]], Ht as [->| ->]; by repeat constructor.
  - intros c' [= <-] Hd. by rewrite Hc in Hd.
  - destruct Hprep as [[-> _]|[_ [c' ->]]], Ht as [->| ->]; apply le_n.
  - destruct Hprep as [[-> ->]|[-> [c' ->]]], Ht as [->| ->]; apply le_n.
  - destruct Hprep as [[-> _]|[_ [c' ->]]], Ht as [->| ->]; apply le_n.
  - by rewrite Hs.
  - right. done.
  - destruct Hm as [->|(a & -> & Ho)]; [by left|]. right. by exists a.
Qed.

Lemma try_candidates_run l ord atts prepared w :
  (session = None → prepared = None) →
  wp (try_candidates env s spec policy session validate l ord atts prepared)
    (λ x w', ∃ new, trace w' = trace w ++ new ∧ fallback_run l ord atts (unprepared prepared) new (Ok x))
    (λ e w', ∃ new, trace w' = trace w ++ new ∧ fallback_run l ord atts (unprepared prepared) new (Err e)) w.
Proof.
  revert ord atts prepared w. induction l as [|c l IH]; intros ord atts prepared w Hpn; cbn [try_candidates].
  { apply wp_throw. exists []. split; [by rewrite (right_id_L [] (++))|].
    apply (fallback_Err _ _ _ _ _ _ []); try done; try (cbn; lia); auto;
      cbn; by rewrite ?(right_id_L [] (++)). }
  assert (∀ kind new w', kind ∈ session_kinds → trace w' = trace w ++ new → new = [] →
    ∃ new, trace w' = trace w ++ new ∧
      fallback_run (c :: l) ord atts (unprepared prepared) new (Err (route_terminal kind atts))) as Hstop.
  { intros kind new w' Hk Hw ->. exists []. split; [done|].
    apply (fallback_Err _ _ _ _ _ _ []); try done; try (cbn; lia); auto; try apply prefix_nil;
      cbn; by rewrite ?(right_id_L [] (++)). }
  apply wp_bind, wp_stop_check.
  2:{ intros k w' Hw. apply (Hstop _ [] w'); [apply stop_in_kinds| |done]. by rewrite (right_id_L [] (++)). }
  intros w0 Hw0. apply wp_bind. unfold throw_if. apply wp_if; intros Hallow.
  { apply wp_throw. exists []. split; [by rewrite (right_id_L [] (++))|].
    eapply (fallback_Err _ _ _ _ _ _ [_]); try done; try (cbn; lia); auto; try apply prefix_nil.
    right. by eexists. }
  apply negb_false_iff in Hallow. apply wp_ret.
  apply wp_bind, wp_prepare_once.
  2:{ intros k w' new Hfresh Hk Hw Hnew. exists new. split; [by rewrite Hw, Hw0|]. rewrite Hfresh.
      assert (∃ more, route_attempts (session_failure k ord atts) = atts ++ more ∧
        (more = [] ∨ ∃ a, more = [a] ∧ ordinal a = ord ∧ c :: l ≠ [])) as (more & Ha & Hm).
      { unfold session_failure. case_bool_decide; cbn.
        - eexists. split; [done|]. right. by eexists.
        - exists []. split; [by rewrite (right_id_L [] (++))|by left]. }
      eapply (fallback_Err _ _ _ _ _ _ more); try done; destruct Hnew as [->|[->|[c' ->]]]; try done;
        try apply prefix_nil; try (first [apply le_n|apply Nat.le_0_l]); try (by intros c0 [= <-] Hd; rewrite Hallow in Hd);
        try (by left); try (by right); try (by constructor). }
  intros prepared' w1 prep Hprep Hw1 Hfresh' Hsame.
  apply wp_bind, wp_bind_and_invoke.
  2:{ intros e w2 more Hw2 Hmore He. exists (prep ++ more). split; [by rewrite Hw2, Hw1, Hw0, (assoc_L (++))|].
      destruct He as [[k ->]|[pe ->]].
      - apply (fallback_partial c l ord atts _ prep more _ []); auto. cbn. by rewrite (right_id_L [] (++)).
      - eapply (fallback_partial c l ord atts _ prep more _ [_]); auto. right. by eexists. }
  intros answered rt w2 Hw2. destruct answered as [x|e].
  - unfold accept. destruct session as [identity|] eqn:Es.
    + apply wp_bind, wp_lift_err. unfold append_accepted. apply wp_append.
      * intros w3 Hw3. apply wp_ret. exists (prep ++ [Resolved c; Invoked rt] ++ [Appended "model" (accepted_content x)]).
        split; [by rewrite Hw3, Hw2, Hw1, Hw0, !(assoc_L (++))|]. apply fallback_accepted; try done. by rewrite Es.
      * intros k w3 Hk [Hw3|Hw3].
        -- exists (prep ++ [Resolved c; Invoked rt] ++ []).
           split; [by rewrite Hw3, Hw2, Hw1, Hw0, !(assoc_L (++)), (right_id_L [] (++))|].
           apply (fallback_unsaved c l ord atts _ prep rt x); try done; first [by left|by rewrite Es].
        -- exists (prep ++ [Resolved c; Invoked rt] ++ [Appended "model" (accepted_content x)]).
           split; [by rewrite Hw3, Hw2, Hw1, Hw0, !(assoc_L (++))|].
           apply (fallback_unsaved c l ord atts _ prep rt x); try done; first [by right|by rewrite Es].
    + apply wp_ret. exists (prep ++ [Resolved c; Invoked rt] ++ []).
      split; [by rewrite Hw2, Hw1, Hw0, !(assoc_L (++)), (right_id_L [] (++))|].
      apply fallback_accepted; try done. by rewrite Es.
  - apply wp_if; intros Hretry.
    + eapply wp_mono; [| |apply IH].
      * intros x w3 (new & Hw3 & Hrun). exists (prep ++ Resolved c :: Invoked rt :: new).
        split; [by rewrite Hw3, Hw2, Hw1, Hw0, <- !(assoc_L (++))|]. rewrite Hfresh' in Hrun.
        by apply (fallback_cons c l ord atts _ prep rt (attempt_of AttemptRetryable ord e)).
      * intros e' w3 (new & Hw3 & Hrun). exists (prep ++ Resolved c :: Invoked rt :: new).
        split; [by rewrite Hw3, Hw2, Hw1, Hw0, <- !(assoc_L (++))|]. rewrite Hfresh' in Hrun.
        by apply (fallback_cons c l ord atts _ prep rt (attempt_of AttemptRetryable ord e)).
      * intros Hs. rewrite Hsame by done. by apply Hpn.
    + apply wp_throw. exists (prep ++ [Resolved c; Invoked rt]).
      split; [by rewrite Hw2, Hw1, Hw0, <- !(assoc_L (++))|].
      unfold invocation_failure. destruct (failure_kinds e) as [kind terminal].
      eapply (fallback_partial c l ord atts _ prep _ _ [_]); [done|done| |done|right; by eexists].
      right. right. by eexists.
Qed.
End loop.

Lemma snapshot_new_Ok r requested a (snapshot : ModelRouteSnapshot) :
  ModelRouteSnapshot_new r requested a = Ok snapshot ↔
  snapshot = mk_Snapshot r requested a ∧ requested ≠ [] ∧ length requested ≤ MAX_MODEL_ROUTE_CANDIDATES ∧
  NoDup requested ∧ validate_registry r = Ok tt ∧
  Forall (λ c, is_Some (profiles r !! candidate_profile c)) requested.
Proof.
  assert (∀ l : list ModelRouteCandidate, length (remove_dups l) = length l ↔ NoDup l) as Hdups.
  { intros l. split.
    - intros El. apply NoDup_ListNoDup. assert (l ≡ₚ remove_dups l) as ->.
      { symmetry. apply submseteq_length_Permutation; [|lia]. apply NoDup_submseteq; [apply NoDup_remove_dups|].
        intros x. by rewrite elem_of_remove_dups. }
      apply NoDup_ListNoDup, NoDup_remove_dups.
    - induction 1 as [|c l Hc Hn IH]; [done|]. cbn. destruct (decide_rel _ c l); [done|]. cbn. by rewrite IH. }
  unfold ModelRouteSnapshot_new, MAX_MODEL_ROUTE_CANDIDATES. set (l := take (8 + 1) requested).
  assert (length l ≤ 8 → l = requested) as Hl.
  { subst l. rewrite length_take. intros. apply take_ge. lia. }
  split.
  - intros ([] & Hn%ensure_Ok & Hx)%bind_Ok. apply bind_Ok in Hx as ([] & Hlen%ensure_Ok & Hx).
    apply bind_Ok in Hx as ([] & Hd%ensure_Ok & Hx). apply bind_Ok in Hx as ([] & Hv%map_err_Ok & Hx).
    apply bind_Ok in Hx as ([] & Hp%ensure_Ok & [= <-]). apply Nat.leb_le in Hlen. rewrite (Hl Hlen) in *.
    apply Nat.eqb_eq, Hdups in Hd.
    split; [done|]. split; [by intros E; rewrite E in Hn|]. split; [by rewrite <- (Hl Hlen)|]. do 2 (split; [done|]).
    apply Forall_forall. intros c Hc. rewrite forallb_forall in Hp. apply list_elem_of_In, Hp in Hc.
    by destruct (profiles r !! _).
  - intros (-> & Hn & Hlen & Hd & Hv & Hp). assert (l = requested) as -> by (apply take_ge; lia).
    assert (is_nil requested = false) as -> by by destruct requested.
    rewrite (proj2 (Nat.leb_le _ _) Hlen), (proj2 (Nat.eqb_eq _ _) (proj2 (Hdups _) Hd)), Hv. cbn.
    assert (forallb (λ c, is_some (profiles r !! candidate_profile c)) requested = true) as ->; [|done].
    apply forallb_forall. intros c Hc%list_elem_of_In. rewrite Forall_forall in Hp. by destruct (Hp c Hc) as [? ->].
Qed.

End fallback_properties.

(** ** Publication *)

Section publication.
Context `{JsonRead, !IntJson, !AdkLlm, !AdkNew, !UrlParse}.
Implicit Types (current : ModelRouteSnapshot).

(** Publishing keeps the last valid snapshot. *)
Inductive Publication := Publish (s : ModelRouteSnapshot)
| Reload (r : ModelProfileRegistry) (l : list ModelRouteCandidate) (a : ModelRouteAuthorization).
Definition publish_op (p : Publication) : method ModelRouteSnapshot ModelRouteSnapshotErrorKind unit :=
  match p with Publish s => publish s | Reload r l a => reload r l a end.

Theorem publication_last_valid p current :
  validate_snapshot current = Ok tt →
  let '(current', x) := publish_op p current in
  validate_snapshot current' = Ok tt ∧
  match x with
  | Ok _ => match p with
            | Publish s => current' = s
            | Reload r l a => ModelRouteSnapshot_new r l a = Ok current'
            end
  | Err _ => current' = current
  end.
Proof.
  intros Hc. destruct p as [s|r l a]; cbn.
  - unfold publish. destruct (validate_snapshot s) as [[]|] eqn:E; done.
  - unfold reload. destruct (ModelRouteSnapshot_new r l a) as [s|] eqn:E; [|done].
    unfold publish. destruct (validate_snapshot s) as [[]|] eqn:Ev; done.
Qed.
End publication.

(** ** Witnesses *)

Section witnesses.
#[local] Existing Instance ex_json_Z.
#[local] Existing Instance ModelPrompt.ex_ints.
#[local] Existing Instance ex_adk_llm.
#[local] Existing Instance ex_adk_new.
#[local] Existing Instance ModelPrompt.ex_sha.
#[local] Existing Instance ModelPrompt.ex_number_eq_dec.
#[local] Existing Instance ex_contract.
#[local] Existing Instance ex_request_new.
#[local] Existing Instance ex_url.
#[local] Existing Instance ex_client.
#[local] Instance ex_service : SessionService (St := list Content) (AdkIdentity := string) := {|
  get_session st identity := Some (Some identity, st);
  append_event st _ _ _ c := (st ++ [c], true);
  history_value identity _ := Some (VString identity) |}.

Definition ex_candidate : ModelRouteCandidate := mk_Candidate Worker (identity ex_remote).
Definition ex_snapshot : ModelRouteSnapshot := mk_Snapshot ex_registry [ex_candidate] [ex_candidate].
Definition ex_env_route : RouteEnv (M := nat) := mk_RouteEnv (M := nat) (λ _, None) (λ _, false)
  (λ _ _ n, (Datatypes.S n, CallStream [Item (Ok (response_new (mk_Content "assistant" [Text "null"])))])) ex_env ex_broker.
Definition ex_world : World (M := nat) (St := list Content) := mk_World 0 0 [] [].

Lemma ex_registry_valid : validate_registry ex_registry = Ok tt.
Proof.
  apply validate_registry_wf. split.
  - intros i p Hp.
    change (({[identity ex_remote := ex_remote]} : gmap ModelProfileIdentity ModelProfile) !! i = Some p) in Hp.
    apply lookup_singleton_Some in Hp as [<- <-]. split; [done|]. reflexivity.
  - intros [] i E; [|done]. assert (identity ex_remote = i) as <- by exact (Some_inj _ _ E). by exists ex_remote; apply ex_registered.
Qed.

Lemma ex_snapshot_new : ModelRouteSnapshot_new ex_registry [ex_candidate] [ex_candidate] = Ok ex_snapshot.
Proof.
  apply snapshot_new_Ok. split; [done|]. split; [done|]. split; [cbn; unfold MAX_MODEL_ROUTE_CANDIDATES; lia|].
  split; [apply NoDup_singleton|]. split; [apply ex_registry_valid|]. constructor; [|done].
  exists ex_remote. apply ex_registered.
Qed.


Definition ex_stored : bool :=
  match ex_spec "task" 1 with
  | Some spec =>
      match invoke_with_response_policy ex_env_route (mk_Policy ex_snapshot) spec Ordinary (Some "alice") (λ _, Ok tt) ex_world with
      | (w', Ok r) => (length (store w') =? 2)%nat && bool_decide (result_output r = Null)
      | _ => false
      end
  | None => false
  end.
Example ex_stored_true : ex_stored = true.
Proof. by vm_compute. Qed.
End witnesses.
