(* ===== verification/GithubIntake.v ===== *)
(** * Intake of GitHub issue metadata

    [workflow-runtime/src/github_intake.rs]: the metadata of a repository's
    issues is collected page by page from a source, within limits, and only
    from one unchanged snapshot; content is fetched only for issues of
    allowlisted authors.  The source and the fetcher are traits: functions of a
    request and of their own state. *)

From S2P Require Import Prelude Hashing Text Wire Trust.

(*| runtime/github_intake.rs 9-9 MAX_REPOSITORY_LENGTH *)
Definition MAX_REPOSITORY_LENGTH : Z := 256.
(*| runtime/github_intake.rs 10-10 MAX_SNAPSHOT_LENGTH *)
Definition MAX_SNAPSHOT_LENGTH : Z := 256.
(*| runtime/github_intake.rs 11-11 MAX_METADATA_TEXT_LENGTH *)
Definition MAX_METADATA_TEXT_LENGTH : Z := 512.
(*| runtime/github_intake.rs 12-12 MAX_CURSOR_LENGTH *)
Definition MAX_CURSOR_LENGTH : Z := 512.
(*| runtime/github_intake.rs 13-13 MAX_PAGES *)
Definition MAX_PAGES : Z := 1000.
(*| runtime/github_intake.rs 14-14 MAX_PER_PAGE *)
Definition MAX_PER_PAGE : Z := 100.
(*| runtime/github_intake.rs 15-15 MAX_ITEMS *)
Definition MAX_ITEMS : Z := 100000.

(*| runtime/github_intake.rs 18-21 GitHubIssueState *)
Inductive GitHubIssueState := Open | Closed.
#[export] Instance GitHubIssueState_eq_dec : EqDecision GitHubIssueState.
Proof. solve_decision. Defined.

(*| runtime/github_intake.rs 24-31 GitHubIssueMetadata *)
Record GitHubIssueMetadata := mk_IssueMetadata {
  number : Z; issue_author : string; author_association : string; state : GitHubIssueState;
  updated_at : string; is_pull_request : bool }.
#[export] Instance GitHubIssueMetadata_eq_dec : EqDecision GitHubIssueMetadata.
Proof. solve_decision. Defined.

(*| runtime/github_intake.rs 279-292 GitHubIntakeErrorKind *)
Inductive GitHubIntakeErrorKind :=
| InvalidRequest | InvalidMetadata | InvalidCursor | CursorReplayed | PageInfoContradiction
| SnapshotChanged | DuplicateIssue | PageOverflow | PageLimitExceeded | ItemLimitExceeded
| SourceUnavailable | RateLimited.
#[export] Instance GitHubIntakeErrorKind_eq_dec : EqDecision GitHubIntakeErrorKind.
Proof. solve_decision. Defined.

(*| runtime/github_intake.rs 295-298 GitHubIntakeError *)
Record GitHubIntakeError := mk_IntakeError {
  intake_kind : GitHubIntakeErrorKind; retry_after_seconds : option Z }.
Definition intake_error (kind : GitHubIntakeErrorKind) : GitHubIntakeError := mk_IntakeError kind None.
(*| runtime/github_intake.rs 336-341 GitHubIntakeError::rate_limited *)
Definition rate_limited (retry_after : option Z) : GitHubIntakeError :=
  mk_IntakeError RateLimited retry_after.

(*| runtime/github_intake.rs 516-521 valid_text *)
Definition valid_text (value : string) (max_length : Z) : result GitHubIntakeError string :=
  if str_is_empty value || (max_length <? str_len value)%Z || any_control value
  then Err (intake_error InvalidMetadata) else Ok value.

(*| runtime/github_intake.rs 523-535 valid_cursor *)
Definition valid_cursor (cursor : option string) : result GitHubIntakeError (option string) :=
  match cursor with
  | None => Ok None
  | Some c =>
      if str_is_empty c || (MAX_CURSOR_LENGTH <? str_len c)%Z || any_control c
      then Err (intake_error InvalidCursor) else Ok (Some c)
  end.

(*| runtime/github_intake.rs 34-53 GitHubIssueMetadata::new *)
Definition GitHubIssueMetadata_new (number : Z) (author association : string)
    (state : GitHubIssueState) (updated_at : string) (is_pull_request : bool) :
    result GitHubIntakeError GitHubIssueMetadata :=
  if (number =? 0)%Z then Err (intake_error InvalidMetadata)
  else
    author ← valid_text author MAX_METADATA_TEXT_LENGTH;
    association ← valid_text association MAX_METADATA_TEXT_LENGTH;
    updated_at ← valid_text updated_at MAX_METADATA_TEXT_LENGTH;
    Ok (mk_IssueMetadata number author association state updated_at is_pull_request).

(*| runtime/github_intake.rs 81-84 GitHubRateLimit *)
Record GitHubRateLimit := mk_RateLimit { remaining : Z; reset_at_unix_seconds : option Z }.

(*| runtime/github_intake.rs 104-111 GitHubMetadataPage *)
Record GitHubMetadataPage := mk_Page {
  page_snapshot : string; page_identity : option string; page_issues : list GitHubIssueMetadata;
  has_next_page : bool; end_cursor : option string; rate_limit : GitHubRateLimit }.

(*| runtime/github_intake.rs 123-138 GitHubMetadataPage::with_end_cursor *)
Definition page_with_end_cursor (snapshot : string) (issues : list GitHubIssueMetadata)
    (has_next_page : bool) (end_cursor : option string) (rate_limit : GitHubRateLimit) :
    result GitHubIntakeError GitHubMetadataPage :=
  snapshot ← valid_text snapshot MAX_SNAPSHOT_LENGTH;
  end_cursor ← valid_cursor end_cursor;
  Ok (mk_Page snapshot None issues has_next_page end_cursor rate_limit).
(*| runtime/github_intake.rs 114-121 GitHubMetadataPage::new *)
Definition GitHubMetadataPage_new (snapshot : string) (issues : list GitHubIssueMetadata)
    (has_next_page : bool) (rate_limit : GitHubRateLimit) :
    result GitHubIntakeError GitHubMetadataPage :=
  page_with_end_cursor snapshot issues has_next_page None rate_limit.
(*| runtime/github_intake.rs 140-146 GitHubMetadataPage::with_page_identity *)
Definition with_page_identity (identity : string) (p : GitHubMetadataPage) :
    result GitHubIntakeError GitHubMetadataPage :=
  identity ← valid_text identity MAX_SNAPSHOT_LENGTH;
  Ok (mk_Page (page_snapshot p) (Some identity) (page_issues p) (has_next_page p) (end_cursor p)
        (rate_limit p)).

(*| runtime/github_intake.rs 154-160 GitHubMetadataPageRequest *)
Record GitHubMetadataPageRequest := mk_PageRequest {
  request_repository : string; request_page : Z; request_per_page : Z;
  request_snapshot : option string; request_cursor : option string }.

(*| runtime/github_intake.rs 192-196 GitHubIntakeLimits *)
Record GitHubIntakeLimits := mk_IntakeLimits { max_pages : Z; per_page : Z; max_items : Z }.
(*| runtime/github_intake.rs 199-214 GitHubIntakeLimits::new *)
Definition GitHubIntakeLimits_new (max_pages per_page max_items : Z) :
    result GitHubIntakeError GitHubIntakeLimits :=
  if ((max_pages =? 0) || (MAX_PAGES <? max_pages) || (per_page =? 0) || (MAX_PER_PAGE <? per_page) ||
      (max_items =? 0) || (MAX_ITEMS <? max_items))%Z
  then Err (intake_error InvalidRequest) else Ok (mk_IntakeLimits max_pages per_page max_items).
(*| runtime/github_intake.rs 218-224 GitHubIntakeLimits::default *)
Definition GitHubIntakeLimits_default : GitHubIntakeLimits := mk_IntakeLimits 100 100 10000.

(** The provenance is the repository and the snapshot again. *)
(*| runtime/github_intake.rs 248-254 GitHubMetadataSnapshot *)
Record GitHubMetadataSnapshot := mk_Snapshot {
  repository : string; snapshot : string; issues : list GitHubIssueMetadata; pages : Z;
  provenance : string * string }.

(** ** Collecting the pages *)

(** What the loop carries from page to page. *)
(*| runtime/github_intake.rs 369-375 collect_github_metadata *)
Record Traversal := mk_Traversal {
  page_number : Z; expected_snapshot : option string; page_identities : option (list string);
  cursor : option string; seen_cursors : gset string; collected : list GitHubIssueMetadata;
  seen_numbers : gset Z }.
Definition start : Traversal := mk_Traversal 1 None (Some []) None ∅ [] ∅.

(*| runtime/github_intake.rs 378-384 collect_github_metadata *)
Definition request_of (repository : string) (l : GitHubIntakeLimits) (t : Traversal) :
    GitHubMetadataPageRequest :=
  mk_PageRequest repository (page_number t) (per_page l) (expected_snapshot t) (cursor t).

(*| runtime/github_intake.rs 422-439 collect_github_metadata *)
Fixpoint take_issues (max_items : Z) (l : list GitHubIssueMetadata)
    (taken : list GitHubIssueMetadata * gset Z) :
    result GitHubIntakeError (list GitHubIssueMetadata * gset Z) :=
  match l with
  | [] => Ok taken
  | issue :: l =>
      if is_pull_request issue then take_issues max_items l taken
      else
        let '(issues, numbers) := taken in
        if bool_decide (number issue ∈ numbers) then Err (intake_error DuplicateIssue)
        else if (max_items <=? zlength issues)%Z then Err (intake_error ItemLimitExceeded)
        else take_issues max_items l (issues ++ [issue], {[number issue]} ∪ numbers)
  end.

Definition add_identity (identities : option (list string)) (identity : option string) :
    option (list string) :=
  match identities, identity with
  | Some l, Some identity => Some (l ++ [identity])
  | _, _ => None
  end.

(** The checks of one page and what it adds; the number and the cursor of the
    next request are set by [next]. *)
(*| runtime/github_intake.rs 386-439 collect_github_metadata *)
Definition observe (l : GitHubIntakeLimits) (p : GitHubMetadataPage) (t : Traversal) :
    result GitHubIntakeError Traversal :=
  ensure (negb (per_page l <? zlength (page_issues p))%Z) (intake_error PageOverflow);;
  ensure (negb (has_next_page p && negb (is_some (end_cursor p)))) (intake_error PageInfoContradiction);;
  ensure (negb (from_option (λ c, bool_decide (cursor t = Some c) || bool_decide (c ∈ seen_cursors t))
                  false (end_cursor p))) (intake_error CursorReplayed);;
  let seen := from_option (λ c, {[c]} ∪ seen_cursors t) (seen_cursors t) (end_cursor p) in
  ensure (from_option (λ e, str_eqb e (page_snapshot p)) true (expected_snapshot t))
    (intake_error SnapshotChanged);;
  let expected := Some (default (page_snapshot p) (expected_snapshot t)) in
  let identities := add_identity (page_identities t) (page_identity p) in
  '(issues, numbers) ← take_issues (max_items l) (page_issues p) (collected t, seen_numbers t);
  Ok (mk_Traversal (page_number t) expected identities (cursor t) seen issues numbers).

(** [None] is the [expect]: a page always establishes a snapshot. *)
(*| runtime/github_intake.rs 441-465 collect_github_metadata *)
Definition finish `{Sha256} (repository : string) (t : Traversal) : option GitHubMetadataSnapshot :=
  snapshot ← match page_identities t with
             | Some identities =>
                 if (1 <? zlength identities)%Z
                 then Some ("github-observed-traversal:" +:+
                            hex (digest_of (concat (map write_frame identities))))
                 else expected_snapshot t
             | None => expected_snapshot t
             end;
  Some (mk_Snapshot repository snapshot (collected t) (page_number t) (repository, snapshot)).

(** [page_number] stays below the limit, which fits a [u32]. *)
(*| runtime/github_intake.rs 466-476 collect_github_metadata *)
Definition next (l : GitHubIntakeLimits) (p : GitHubMetadataPage) (t : Traversal) :
    result GitHubIntakeError Traversal :=
  if (remaining (rate_limit p) =? 0)%Z then Err (rate_limited None)
  else if (max_pages l <=? page_number t)%Z then Err (intake_error PageLimitExceeded)
  else Ok (mk_Traversal (page_number t + 1) (expected_snapshot t) (page_identities t) (end_cursor p)
             (seen_cursors t) (collected t) (seen_numbers t)).

Section collect.
Context {S : Type} `{Sha256}.
Context (list_page : GitHubMetadataPageRequest → S → S * result GitHubIntakeError GitHubMetadataPage).

(** [None] when the fuel ends or the [expect] panics. *)
(*| runtime/github_intake.rs 377-477 collect_github_metadata *)
Fixpoint collect_pages (fuel : nat) (repository : string) (l : GitHubIntakeLimits) (t : Traversal) (s : S) :
    option (S * result GitHubIntakeError GitHubMetadataSnapshot) :=
  match fuel with
  | 0 => None
  | Datatypes.S fuel =>
      let '(s, answer) := list_page (request_of repository l t) s in
      match answer ≫= λ p, observe l p t ≫= λ t, Ok (p, t) with
      | Err e => Some (s, Err e)
      | Ok (p, t) =>
          if negb (has_next_page p) then
            result ← finish repository t; Some (s, Ok result)
          else
            match next l p t with
            | Err e => Some (s, Err e)
            | Ok t => collect_pages fuel repository l t s
            end
      end
  end.

(*| runtime/github_intake.rs 360-478 collect_github_metadata *)
Definition collect_github_metadata (repository : string) (l : GitHubIntakeLimits) (s : S) :
    option (S * result GitHubIntakeError GitHubMetadataSnapshot) :=
  match valid_text repository MAX_REPOSITORY_LENGTH with
  | Err e => Some (s, Err e)
  | Ok repository => collect_pages (Z.to_nat (max_pages l)) repository l start s
  end.
End collect.

(** ** Content *)

(*| runtime/github_intake.rs 491-495 GitHubContentFetchError *)
Inductive GitHubContentFetchError (E : Type) :=
| AllowlistRefused | PullRequestExcluded | Source (e : E).
Arguments AllowlistRefused {E}.
Arguments PullRequestExcluded {E}.
Arguments Source {E} e.

(*| runtime/github_intake.rs 497-514 fetch_allowlisted_content *)
Definition fetch_allowlisted_content {S C E : Type} (policy : TrustPolicy) (m : GitHubIssueMetadata)
    (fetch_content : GitHubIssueMetadata → method S E C) : method S (GitHubContentFetchError E) C := λ s,
  if is_pull_request m then (s, Err PullRequestExcluded)
  else if negb (allows_author policy (issue_author m)) then (s, Err AllowlistRefused)
  else let '(s, r) := fetch_content m s in (s, map_err Source r).

(** ** What a traversal collects *)

(** The issues of some pages, without pull requests. *)
Definition kept_of (l : list GitHubIssueMetadata) : list GitHubIssueMetadata :=
  filter (λ i, is_pull_request i = false) l.
Definition kept (ps : list GitHubMetadataPage) : list GitHubIssueMetadata :=
  kept_of (concat (map page_issues ps)).

Definition identities_of (ps : list GitHubMetadataPage) : option (list string) :=
  foldl add_identity (Some []) (map page_identity ps).

(** The traversal after the pages [ps], before the next request. *)
Definition after (ps : list GitHubMetadataPage) : Traversal :=
  mk_Traversal (1 + zlength ps) (page_snapshot <$> head ps) (identities_of ps)
    (list.last ps ≫= end_cursor) (list_to_set (omap end_cursor ps)) (kept ps)
    (list_to_set (map number (kept ps))).

(** Pages that agree on one snapshot, stay within the limits and repeat neither
    a cursor nor an issue. *)
Record pages_ok (l : GitHubIntakeLimits) (ps : list GitHubMetadataPage) : Prop := {
  ok_size : Forall (λ p, zlength (page_issues p) ≤ per_page l)%Z ps;
  ok_cursor : Forall (λ p, has_next_page p = true → is_Some (end_cursor p)) ps;
  ok_cursors : NoDup (omap end_cursor ps);
  ok_snapshot : ∀ p q, p ∈ ps → q ∈ ps → page_snapshot p = page_snapshot q;
  ok_numbers : NoDup (map number (kept ps));
  ok_items : (zlength (kept ps) ≤ max_items l)%Z }.

(** A traversal that is done: every page but the last names a next one and
    leaves the source willing. *)
Definition complete (l : GitHubIntakeLimits) (ps : list GitHubMetadataPage) : Prop :=
  pages_ok l ps ∧ (zlength ps ≤ max_pages l)%Z ∧
  ∃ init last, ps = init ++ [last] ∧ has_next_page last = false ∧
    Forall (λ p, has_next_page p = true ∧ remaining (rate_limit p) ≠ 0%Z) init.

(** The name of what was seen: the first page's snapshot, or the digest of the
    pages' identities when there are several and each has one. *)
Definition snapshot_name `{Sha256} (ps : list GitHubMetadataPage) : option string :=
  match identities_of ps with
  | Some identities =>
      if (1 <? zlength identities)%Z
      then Some ("github-observed-traversal:" +:+ hex (digest_of (concat (map write_frame identities))))
      else page_snapshot <$> head ps
  | None => page_snapshot <$> head ps
  end.

Section intake.
Context {S : Type} `{Sha256}.
Context (list_page : GitHubMetadataPageRequest → S → S * result GitHubIntakeError GitHubMetadataPage).
Context (repository : string) (l : GitHubIntakeLimits).
Implicit Types (s : S) (ps : list GitHubMetadataPage).

(** The source answers the requests after the pages [seen] with the pages [ps]. *)
Inductive served (seen : list GitHubMetadataPage) s : list GitHubMetadataPage → S → Prop :=
| served_none : served seen s [] s
| served_page p ps s1 s2 :
    list_page (request_of repository l (after seen)) s = (s1, Ok p) →
    served (seen ++ [p]) s1 ps s2 → served seen s (p :: ps) s2.

Lemma served_app seen s ps s1 ps' s2 :
  served seen s ps s1 → served (seen ++ ps) s1 ps' s2 → served seen s (ps ++ ps') s2.
Proof.
  induction 1 as [seen s|seen s p ps s1 s3 E _ IH]; cbn; [by rewrite app_nil_r|].
  intros Hs. econstructor; [done|]. apply IH. by rewrite <- app_assoc.
Qed.

Lemma served_det seen s ps s1 s2 : served seen s ps s1 → served seen s ps s2 → s1 = s2.
Proof.
  intros Hs. revert s2. induction Hs as [|seen s p ps s1 s3 E _ IH]; intros s2 Hs2;
    inversion Hs2 as [|p' ps' s1' ? E']; subst; [done|].
  apply IH. rewrite E in E'. by injection E' as <-.
Qed.

Lemma kept_app ps qs : kept (ps ++ qs) = kept ps ++ kept qs.
Proof. unfold kept, kept_of. by rewrite map_app, concat_app, filter_app. Qed.
Lemma kept_one p : kept [p] = kept_of (page_issues p).
Proof. unfold kept. cbn. by rewrite app_nil_r. Qed.

Lemma take_issues_spec max items taken numbers :
  match take_issues max items (taken, numbers) with
  | Ok x => x = (taken ++ kept_of items, list_to_set (map number (kept_of items)) ∪ numbers) ∧
      NoDup (map number (kept_of items)) ∧ (∀ i, i ∈ kept_of items → number i ∉ numbers) ∧
      (kept_of items ≠ [] → zlength (taken ++ kept_of items) ≤ max)%Z
  | Err _ => ¬ NoDup (map number (kept_of items)) ∨ (∃ i, i ∈ kept_of items ∧ number i ∈ numbers) ∨
      (max < zlength (taken ++ kept_of items))%Z
  end.
Proof.
  revert taken numbers. induction items as [|i items IH]; intros taken numbers; cbn [take_issues].
  { cbn. rewrite app_nil_r. split_and!; [f_equal; set_solver|constructor|set_solver|done]. }
  unfold kept_of in *. rewrite filter_cons. destruct (is_pull_request i) eqn:Ep;
    [rewrite decide_False by done; apply IH|rewrite decide_True by done].
  case_bool_decide as Hn; [right; left; exists i; split; [set_solver|done]|].
  destruct (Z.leb_spec max (zlength taken)) as [Hm|Hm].
  { right; right. unfold zlength in *. rewrite length_app. cbn. lia. }
  specialize (IH (taken ++ [i]) ({[number i]} ∪ numbers)). cbn [map].
  set (k := filter _ items) in *. destruct (take_issues max items _) as [x|e].
  - destruct IH as (-> & Hnd & Hf & Hl). rewrite <- app_assoc in *. cbn in *. split_and!.
    + f_equal. set_solver.
    + constructor; [|done]. intros (j & E & Hj)%list_elem_of_fmap. apply (Hf j Hj). rewrite <- E. set_solver.
    + intros j [->|Hj]%elem_of_cons; [done|]. specialize (Hf j Hj). set_solver.
    + intros _. destruct k as [|j k]; [|by apply Hl]. unfold zlength in *. rewrite length_app. cbn. lia.
  - rewrite <- app_assoc in IH. cbn in IH. destruct IH as [Hx|[(j & Hj & Hx)|Hx]]; [|apply elem_of_union in Hx as [Hx|Hx]|].
    + left. rewrite NoDup_cons. tauto.
    + left. rewrite NoDup_cons. intros [Hi _]. apply Hi. rewrite list_elem_of_fmap. exists j. set_solver.
    + right; left. exists j. set_solver.
    + by right; right.
Qed.

Lemma pages_ok_nil : (0 ≤ max_items l)%Z → pages_ok l [].
Proof. by split; cbn; [constructor..|set_solver|constructor|]. Qed.

Lemma pages_ok_prefix ps qs : pages_ok l (ps ++ qs) → pages_ok l ps.
Proof.
  intros [H1 H2 H3 H4 H5 H6]. rewrite kept_app in *. rewrite map_app, omap_app in *.
  apply Forall_app in H1 as [H1 _], H2 as [H2 _]. apply NoDup_app in H3 as (H3 & _), H5 as (H5 & _).
  split; try done; [set_solver|]. unfold zlength in *. rewrite length_app in H6. lia.
Qed.

Lemma after_snoc ps p :
  list_to_set (omap end_cursor (ps ++ [p])) =@{gset string}
    from_option (λ c, {[c]} ∪ list_to_set (omap end_cursor ps)) (list_to_set (omap end_cursor ps)) (end_cursor p).
Proof. rewrite omap_app, list_to_set_app_L. cbn. destruct (end_cursor p); cbn; set_solver. Qed.

(** A page is accepted exactly when it may follow the pages before it. *)
Lemma observe_spec ps p :
  pages_ok l ps →
  match observe l p (after ps) with
  | Ok t => pages_ok l (ps ++ [p]) ∧
      t = mk_Traversal (1 + zlength ps) (page_snapshot <$> head (ps ++ [p])) (identities_of (ps ++ [p]))
            (list.last ps ≫= end_cursor) (list_to_set (omap end_cursor (ps ++ [p]))) (kept (ps ++ [p]))
            (list_to_set (map number (kept (ps ++ [p]))))
  | Err _ => ¬ pages_ok l (ps ++ [p])
  end.
Proof.
  intros Hok. unfold observe.
  destruct (Z.ltb_spec (per_page l) (zlength (page_issues p))) as [Hs|Hs]; cbn [ensure negb mbind result_bind].
  { intros [Hx _ _ _ _ _]. apply Forall_app in Hx as [_ Hx]. apply Forall_cons in Hx as [Hx _]. lia. }
  destruct (has_next_page p && negb (is_some (end_cursor p))) eqn:Ec; cbn [ensure negb mbind result_bind].
  { intros [_ Hx _ _ _ _]. apply Forall_app in Hx as [_ Hx]. apply Forall_cons in Hx as [Hx _].
    apply andb_true_iff in Ec as [Hn Ec]. by destruct (Hx Hn) as [c E]; rewrite E in Ec. }
  destruct (from_option _ false (end_cursor p)) eqn:Er; cbn [ensure negb mbind result_bind].
  { intros [_ _ Hx _ _ _]. destruct (end_cursor p) as [c|] eqn:Ee; [|done]. cbn in Er.
    rewrite omap_app in Hx. cbn in Hx. rewrite Ee in Hx. apply NoDup_app in Hx as (_ & Hx & _).
    assert (c ∈ omap end_cursor ps) as Hc; [|apply (Hx c Hc); set_solver].
    apply orb_true_iff in Er as [Er%bool_decide_eq_true|Er%bool_decide_eq_true]; [|by apply elem_of_list_to_set in Er].
    apply bind_Some in Er as (q & Hq & Hc). apply list_elem_of_omap. exists q. split; [|done].
    apply last_Some in Hq as [l' ->]. set_solver. }
  destruct (from_option _ true _) eqn:Esn; cbn [ensure negb mbind result_bind].
  2: { intros [_ _ _ Hx _ _]. destruct ps as [|q ps]; [done|]. cbn in Esn.
    rewrite (Hx q p) in Esn by set_solver. by rewrite (proj2 (str_eqb_eq _ _) eq_refl) in Esn. }
  pose proof (take_issues_spec (max_items l) (page_issues p) (kept ps) (list_to_set (map number (kept ps)))) as Ht.
  cbn [collected seen_numbers after]. destruct Hok as [K1 K2 K3 K4 K5 K6].
  destruct (take_issues _ _ _) as [[found nums]|e]; cbn.
  - destruct Ht as ([= -> ->] & Hnd & Hf & Hl). split; [split|].
    + apply Forall_app. split; [done|]. by constructor.
    + apply Forall_app. split; [done|]. constructor; [|done]. intros Hn. rewrite Hn in Ec.
      destruct (end_cursor p); [by eexists|done].
    + rewrite omap_app. cbn. destruct (end_cursor p) as [c|] eqn:Ee; cbn; [|by rewrite app_nil_r].
      cbn in Er. apply orb_false_iff in Er as [_ Er%bool_decide_eq_false]. rewrite elem_of_list_to_set in Er.
      apply NoDup_app. split_and!; [done| |apply NoDup_singleton]. intros x Hx ->%list_elem_of_singleton. done.
    + assert (∀ q, q ∈ ps → page_snapshot q = page_snapshot p) as Hq.
      { intros q Hq. destruct ps as [|q0 ps]; [by apply elem_of_nil in Hq|]. cbn in Esn.
        apply str_eqb_eq in Esn. rewrite <- Esn. apply K4; set_solver. }
      intros q1 q2 [Hi|Hi%list_elem_of_singleton]%elem_of_app [Hj|Hj%list_elem_of_singleton]%elem_of_app; subst; auto.
      symmetry. auto.
    + rewrite kept_app, kept_one, map_app. apply NoDup_app. split_and!; [done| |done].
      intros n Hn (i & -> & Hi)%list_elem_of_fmap. apply (Hf i Hi). by apply elem_of_list_to_set.
    + rewrite kept_app, kept_one. destruct (kept_of (page_issues p)) as [|i k]; [by rewrite app_nil_r|].
      by apply Hl.
    + f_equal.
      * by destruct ps.
      * unfold identities_of. by rewrite map_app, foldl_app.
      * by rewrite after_snoc.
      * by rewrite kept_app, kept_one.
      * rewrite kept_app, kept_one, map_app, list_to_set_app_L. set_solver.
  - intros [_ _ _ _ L5 L6]. rewrite kept_app, kept_one in *. rewrite map_app in L5.
    apply NoDup_app in L5 as (_ & L5 & L7). destruct Ht as [Ht|[(i & Hi & Ht)|Ht]]; [done| |lia].
    apply elem_of_list_to_set in Ht. apply (L5 _ Ht). by apply list_elem_of_fmap_2.
Qed.

Lemma next_spec p ps :
  let t := mk_Traversal (1 + zlength ps) (page_snapshot <$> head (ps ++ [p])) (identities_of (ps ++ [p]))
            (list.last ps ≫= end_cursor) (list_to_set (omap end_cursor (ps ++ [p]))) (kept (ps ++ [p]))
            (list_to_set (map number (kept (ps ++ [p])))) in
  match next l p t with
  | Ok t' => t' = after (ps ++ [p]) ∧ remaining (rate_limit p) ≠ 0%Z ∧ (zlength (ps ++ [p]) < max_pages l)%Z
  | Err _ => remaining (rate_limit p) = 0%Z ∨ (max_pages l ≤ zlength (ps ++ [p]))%Z
  end.
Proof.
  intros t. unfold next, t, after. cbn [page_number]. unfold zlength. rewrite length_app. cbn [length].
  destruct (Z.eqb_spec (remaining (rate_limit p)) 0); [by left|].
  destruct (Z.leb_spec (max_pages l) (1 + Z.of_nat (length ps))); [right; lia|].
  split_and!; [|done|lia]. f_equal; [lia|by rewrite last_snoc].
Qed.

Definition snapshot_of ps : option GitHubMetadataSnapshot :=
  (λ name, mk_Snapshot repository name (kept ps) (zlength ps) (repository, name)) <$> snapshot_name ps.

Lemma finish_spec p ps :
  finish repository (mk_Traversal (1 + zlength ps) (page_snapshot <$> head (ps ++ [p])) (identities_of (ps ++ [p]))
            (list.last ps ≫= end_cursor) (list_to_set (omap end_cursor (ps ++ [p]))) (kept (ps ++ [p]))
            (list_to_set (map number (kept (ps ++ [p]))))) = snapshot_of (ps ++ [p]) ∧
  is_Some (snapshot_of (ps ++ [p])).
Proof.
  assert (is_Some (snapshot_name (ps ++ [p]))) as [name E].
  { unfold snapshot_name. assert (is_Some (page_snapshot <$> head (ps ++ [p]))) as Hs by by destruct ps; eexists.
    destruct (identities_of (ps ++ [p])) as [ids|]; [|done]. by destruct (1 <? zlength ids)%Z; [eexists|]. }
  unfold snapshot_of. rewrite E. split; [|by eexists]. unfold finish, snapshot_name in *. cbn [page_identities expected_snapshot collected page_number].
  rewrite E. cbn. unfold zlength. rewrite length_app. cbn [length]. do 2 f_equal. lia.
Qed.

Lemma served_split seen s ps qs s2 :
  served seen s (ps ++ qs) s2 → ∃ s1, served seen s ps s1 ∧ served (seen ++ ps) s1 qs s2.
Proof.
  revert seen s. induction ps as [|p ps IH]; intros seen s Hs; cbn in Hs.
  - exists s. rewrite app_nil_r. split; [constructor|done].
  - inversion Hs as [|?? s1 ? E Hs']; subst. apply IH in Hs' as (s3 & Hs1 & Hs2).
    exists s3. rewrite <- app_assoc in Hs2. split; [by econstructor|done].
Qed.

Lemma served_compare seen s ps s1 qs s2 :
  served seen s ps s1 → served seen s qs s2 → ps `prefix_of` qs ∨ qs `prefix_of` ps.
Proof.
  intros Hs. revert qs. induction Hs as [|seen s p ps s1 s3 E _ IH]; intros qs Hq; [left; apply prefix_nil|].
  inversion Hq as [|q qs' s1' ? E' Hq']; subst; [right; apply prefix_nil|].
  rewrite E in E'. injection E' as <- <-. destruct (IH _ Hq'); [left|right]; by apply prefix_cons.
Qed.

Definition continues (p : GitHubMetadataPage) : Prop :=
  has_next_page p = true ∧ remaining (rate_limit p) ≠ 0%Z.

(** What a collection from [s] ends with. *)
Definition outcome s s' (r : result GitHubIntakeError GitHubMetadataSnapshot) : Prop :=
  match r with
  | Ok x => ∃ ps, served [] s ps s' ∧ complete l ps ∧ snapshot_of ps = Some x
  | Err e => ∃ ps s1 answer, served [] s ps s1 ∧ Forall continues ps ∧ (zlength ps < max_pages l)%Z ∧
      list_page (request_of repository l (after ps)) s1 = (s', answer) ∧
      match answer with Err e' => e' = e | Ok p => ∀ more, ¬ complete l (ps ++ p :: more) end
  end.

Lemma complete_init ps p more :
  complete l (ps ++ p :: more) → more ≠ [] → continues p.
Proof.
  intros (_ & _ & init & z & E & _ & Hf) Hm. destruct (exists_last Hm) as (more' & y & ->).
  rewrite app_comm_cons, app_assoc in E. apply app_inj_tail in E as [<- _].
  apply Forall_app in Hf as [_ Hf]. by apply Forall_cons in Hf as [Hf _].
Qed.

Lemma collect_outcome fuel ps s0 s :
  served [] s0 ps s → pages_ok l ps → Forall continues ps →
  (zlength ps + Z.of_nat fuel = max_pages l)%Z → fuel ≠ 0 →
  ∃ s' r, collect_pages list_page fuel repository l (after ps) s = Some (s', r) ∧ outcome s0 s' r.
Proof.
  revert ps s. induction fuel as [|fuel IH]; intros ps s Hs Hok Hc Hf Hn; [done|]. cbn [collect_pages].
  destruct (list_page _ s) as [s1 answer] eqn:E.
  destruct answer as [p|e]; cbn [mbind result_bind].
  2: { eexists _, _. split; [done|]. exists ps, s, (Err e). split_and!; try done. lia. }
  pose proof (observe_spec ps p Hok) as Ho. destruct (observe l p (after ps)) as [t|e].
  2: { eexists _, _. split; [done|]. exists ps, s, (Ok p). split_and!; try done; [lia|].
    intros more (Hm & _). apply Ho. change (p :: more) with ([p] ++ more) in Hm. rewrite app_assoc in Hm. by eapply pages_ok_prefix. }
  destruct Ho as [Hok' ->]. assert (served [] s0 (ps ++ [p]) s1) as Hs'.
  { eapply served_app; [done|]. econstructor; [done|constructor]. }
  cbn [mbind result_bind]. cbv iota beta. destruct (has_next_page p) eqn:Enext; cbn [negb].
  - pose proof (next_spec p ps) as Hx. cbv zeta in Hx. destruct (next _ _ _) as [t'|e].
    + destruct Hx as (-> & Hr & Hl). eapply IH; [exact Hs'|done| | |].
      * apply Forall_app. split; [done|]. by constructor.
      * unfold zlength in *. rewrite length_app. cbn [length]. lia.
      * unfold zlength in *. rewrite length_app in Hl. cbn [length] in Hl. lia.
    + eexists _, _. split; [done|]. exists ps, s, (Ok p). split_and!; try done; [lia|].
      intros more Hm. destruct more as [|q more].
      * destruct Hm as (_ & _ & init & z & Ei & Hz & _). apply app_inj_tail in Ei as [_ <-]. congruence.
      * destruct (complete_init _ _ _ Hm) as [_ Hr]; [done|]. destruct Hx as [Hx|Hx]; [done|].
        destruct Hm as (_ & Hm & _). unfold zlength in *. rewrite !length_app in *. cbn [length] in *. lia.
  - destruct (finish_spec p ps) as [-> [x Ex]]. rewrite Ex. cbn. eexists _, _. split; [done|].
    exists (ps ++ [p]). split_and!; try done. split_and!; [done| |by exists ps, p].
    unfold zlength in *. rewrite length_app. cbn [length]. lia.
Qed.

Lemma complete_prefix ps qs : complete l ps → complete l qs → ps `prefix_of` qs → ps = qs.
Proof.
  intros (_ & _ & init & z & -> & Hz & _) Hq [more ->]. destruct more as [|q more]; [by rewrite app_nil_r|].
  rewrite <- app_assoc in Hq. cbn in Hq. apply complete_init in Hq as [Hq _]; [congruence|done].
Qed.

Lemma outcome_complete s s' r ps s'' :
  outcome s s' r → served [] s ps s'' → complete l ps →
  s'' = s' ∧ ∃ x, r = Ok x ∧ snapshot_of ps = Some x.
Proof.
  intros Ho Hs Hc. destruct r as [x|e]; cbn in Ho.
  - destruct Ho as (qs & Hq & Hcq & Ex).
    assert (ps = qs) as <- by (destruct (served_compare _ _ _ _ _ _ Hs Hq); [|symmetry]; by apply complete_prefix).
    split; [by eapply served_det|]. by exists x.
  - exfalso. destruct Ho as (qs & s1 & answer & Hq & Hf & Hl & E & Ha).
    destruct (served_compare _ _ _ _ _ _ Hs Hq) as [[more ->]|[more ->]].
    + destruct Hc as (_ & _ & init & z & -> & Hz & _). apply Forall_app in Hf as [Hf _].
      apply Forall_app in Hf as [_ Hf]. apply Forall_cons in Hf as [[Hf _] _]. congruence.
    + destruct more as [|p more].
      * rewrite app_nil_r in *. destruct Hc as (_ & _ & init & z & -> & Hz & _).
        apply Forall_app in Hf as [_ Hf]. apply Forall_cons in Hf as [[Hf _] _]. congruence.
      * apply served_split in Hs as (s2 & Hs1 & Hs2). rewrite (served_det _ _ _ _ _ Hs1 Hq) in Hs2.
        inversion Hs2 as [|?? s3 ? E' _]; subst. cbn in E'. rewrite E in E'. injection E' as _ ->.
        by apply (Ha more).
Qed.

(** Collecting the metadata of a repository ends after at most the allowed
    number of requests, and succeeds exactly when the source serves a complete
    traversal: pages within their size that name one snapshot and repeat no
    cursor and no issue, each but the last with a cursor for the next.  The
    result lists the issues of exactly these pages, without pull requests, in
    order.  A failure is the source's, or the page that failed is part of no
    complete traversal. *)
Theorem github_intake_exact pages per items s :
  valid_text repository MAX_REPOSITORY_LENGTH = Ok repository →
  u64 pages → u64 items → GitHubIntakeLimits_new pages per items = Ok l →
  ∃ s' r, collect_github_metadata list_page repository l s = Some (s', r) ∧ outcome s s' r ∧
    ∀ ps s'', served [] s ps s'' → complete l ps →
      s'' = s' ∧ ∃ x, r = Ok x ∧ snapshot_of ps = Some x.
Proof.
  intros Hv [Hp _] [Hi _] Hl. unfold GitHubIntakeLimits_new in Hl. destruct (_ || _) eqn:Eb in Hl; [done|].
  injection Hl as Hl. repeat (apply orb_false_iff in Eb as [Eb ?]).
  destruct (collect_outcome (Z.to_nat (max_pages l)) [] s s) as (s' & r & E & Ho).
  - constructor.
  - apply pages_ok_nil. by rewrite <- Hl.
  - done.
  - rewrite <- Hl. change (zlength (@nil GitHubMetadataPage)) with 0%Z. cbn [max_pages]. lia.
  - rewrite <- Hl. cbn [max_pages]. lia.
  - exists s', r. split; [unfold collect_github_metadata; by rewrite Hv|]. split; [done|].
    intros ps s''. by apply outcome_complete.
Qed.
End intake.

(** Content is fetched for nothing but an allowlisted author's issue. *)
Lemma fetch_only_allowlisted {S C E : Type} policy m (fetch : GitHubIssueMetadata → method S E C) s s' r :
  fetch_allowlisted_content policy m fetch s = (s', r) →
  (is_pull_request m = false ∧ issue_author m ∈ allowlisted_authors policy ∧
     ∃ r', fetch m s = (s', r') ∧ r = map_err Source r') ∨
  s' = s ∧ (r = Err PullRequestExcluded ∧ is_pull_request m = true ∨
            r = Err AllowlistRefused ∧ is_pull_request m = false ∧ issue_author m ∉ allowlisted_authors policy).
Proof.
  unfold fetch_allowlisted_content. destruct (is_pull_request m); [intros [= <- <-]; right; auto|].
  unfold allows_author. case_bool_decide; cbn.
  - destruct (fetch m s) as [s1 r']. intros [= <- <-]. left. eauto.
  - intros [= <- <-]. right. split; [done|]. right. done.
Qed.

(** ** Witnesses *)

Section witnesses.
#[local] Instance ex_sha : Sha256 := λ s, s.

Definition ex_issue (n : Z) (pull : bool) : GitHubIssueMetadata :=
  mk_IssueMetadata n "alice" "OWNER" Open "now" pull.
Definition ex_page (n : Z) (more : bool) (cursor : string) : GitHubMetadataPage :=
  mk_Page "v1" (Some cursor) [ex_issue n false; ex_issue 9 true] more (Some cursor) (mk_RateLimit 5 None).
(** A source with two pages, which counts its requests. *)
Definition ex_source (r : GitHubMetadataPageRequest) (n : nat) :
    nat * result GitHubIntakeError GitHubMetadataPage :=
  (S n, match request_cursor r with
        | None => Ok (ex_page 1 true "a")
        | Some _ => Ok (ex_page 2 false "b")
        end).
Definition ex_limits : GitHubIntakeLimits := mk_IntakeLimits 3 2 10.

Lemma github_intake_exact_witness :
  ∃ x, collect_github_metadata ex_source "o/r" ex_limits 0 = Some (2, Ok x) ∧
    issues x = [ex_issue 1 false; ex_issue 2 false] ∧ pages x = 2%Z.
Proof.
  destruct (github_intake_exact ex_source "o/r" ex_limits 3 2 10 0) as (s' & r & E & Ho & _);
    [done|by split|by split|done|].
  assert (∃ x, collect_github_metadata ex_source "o/r" ex_limits 0 = Some (2, Ok x) ∧
    issues x = [ex_issue 1 false; ex_issue 2 false] ∧ pages x = 2%Z) as (x & E' & Hx).
  { eexists. split; [by vm_compute|]. done. }
  exists x. split; [|done]. rewrite E in E' |- *. exact E'.
Defined.
End witnesses.
