(* ===== verification/IssueArtifact.v ===== *)
(** * Canonical issue artifacts

    [workflow-runtime/src/issue_artifact.rs]: the offline snapshot of an issue
    is classified by the trust policy, object by object; what is trusted is laid
    out in one content that is published to an artifact store, with a manifest
    of every object and the span of each included one.  The derived [Serialize]
    of the manifest is written out as JSON in declaration order. *)

From S2P Require Import Prelude Hashing Json Text Wire Trust Artifact NodeCache.
From S2P Require Import Firewall TypedProtocol GithubIntake.
From stdpp Require Import pretty.

(*| runtime/issue_artifact.rs 14-14 ISSUE_ARTIFACT_SCHEMA_VERSION *)
Definition ISSUE_ARTIFACT_SCHEMA_VERSION : Z := 1.
(*| runtime/issue_artifact.rs 15-15 SCHEMA_ID *)
Definition SCHEMA_ID : string := "admitted-issue-artifact-v1".
(*| runtime/issue_artifact.rs 16-16 MAX_TEXT *)
Definition MAX_TEXT : Z := 65536.
(*| runtime/issue_artifact.rs 17-17 MAX_COMMENTS *)
Definition MAX_COMMENTS : Z := 1024.
(*| runtime/issue_artifact.rs 18-18 MAX_IDENTITY *)
Definition MAX_IDENTITY : Z := 256.
(*| runtime/issue_artifact.rs 19-19 MAX_SNAPSHOT *)
Definition MAX_SNAPSHOT : Z := 256.
(*| runtime/issue_artifact.rs 20-20 MAX_INPUT_BYTES *)
Definition MAX_INPUT_BYTES : Z := 262144.
(*| runtime/issue_artifact.rs 21-21 MAX_DIRECT_COMMENTS *)
Definition MAX_DIRECT_COMMENTS : Z := 64.
(*| runtime/issue_artifact.rs 22-22 TITLE_OBJECT_ID *)
Definition TITLE_OBJECT_ID : string := "issue-title".
(*| runtime/issue_artifact.rs 23-23 BODY_OBJECT_ID *)
Definition BODY_OBJECT_ID : string := "issue-body".

(** The error carries nothing but its kind. *)
(*| runtime/issue_artifact.rs 26-30 IssueArtifactErrorKind *)
Inductive IssueArtifactErrorKind := IssueInvalidInput | IssueNotRouted | IssueStore.
#[export] Instance IssueArtifactErrorKind_eq_dec : EqDecision IssueArtifactErrorKind.
Proof. solve_decision. Defined.

(** ** The offline snapshot *)

(*| runtime/issue_artifact.rs 60-67 OfflineComment *)
Record OfflineComment := mk_OfflineComment {
  comment_id : string; comment_author : string; comment_order : Z; comment_revision : Z;
  deleted : bool; comment_bytes : string }.

(*| runtime/issue_artifact.rs 89-121 OfflineComment::new *)
Definition OfflineComment_new (object_id author : string) (order revision : Z) (deleted : bool)
    (bytes : string) : result IssueArtifactErrorKind OfflineComment :=
  if is_blank object_id || (MAX_IDENTITY <? str_len object_id)%Z ||
     (str_eqb object_id TITLE_OBJECT_ID || str_eqb object_id BODY_OBJECT_ID) ||
     is_blank author || (MAX_IDENTITY <? str_len author)%Z || (revision =? 0)%Z ||
     (negb deleted && str_is_empty bytes) || (deleted && negb (str_is_empty bytes)) ||
     (MAX_TEXT <? str_len bytes)%Z
  then Err IssueInvalidInput
  else Ok (mk_OfflineComment object_id author order revision deleted bytes).

(*| runtime/issue_artifact.rs 129-135 OfflineIssueContent *)
Record OfflineIssueContent := mk_OfflineContent {
  metadata : GitHubIssueMetadata; content_snapshot : string; title : string; body : string;
  comments : list OfflineComment }.

(** [checked_add], whose overflow is invalid input. *)
Definition add_len (size : Z) (s : string) : result IssueArtifactErrorKind Z :=
  from_option Ok (Err IssueInvalidInput) (checked_add size (str_len s)).

(*| runtime/issue_artifact.rs 184-200 OfflineIssueContent::new *)
Fixpoint check_comments (l : list OfflineComment) (size : Z) (seen : gset string) (last_order : option Z) :
    result IssueArtifactErrorKind Z :=
  match l with
  | [] => Ok size
  | c :: l =>
      size ← add_len size (comment_id c);
      size ← add_len size (comment_author c);
      size ← add_len size (comment_bytes c);
      if (MAX_INPUT_BYTES <? size)%Z || bool_decide (comment_id c ∈ seen) ||
         from_option (λ order, comment_order c <=? order)%Z false last_order
      then Err IssueInvalidInput
      else check_comments l size ({[comment_id c]} ∪ seen) (Some (comment_order c))
  end.

(*| runtime/issue_artifact.rs 156-213 OfflineIssueContent::new *)
Definition OfflineIssueContent_new (m : GitHubIssueMetadata) (snapshot title body : string)
    (comments : list OfflineComment) : result IssueArtifactErrorKind OfflineIssueContent :=
  if is_blank snapshot || (MAX_SNAPSHOT <? str_len snapshot)%Z || str_is_empty title ||
     str_is_empty body || (MAX_TEXT <? str_len title)%Z || (MAX_TEXT <? str_len body)%Z ||
     (MAX_COMMENTS <? zlength comments)%Z || is_pull_request m
  then Err IssueInvalidInput
  else
    size ← add_len (str_len snapshot) title;
    size ← add_len size body;
    size ← add_len size (issue_author m);
    size ← check_comments comments size ∅ None;
    if (MAX_INPUT_BYTES <? size)%Z then Err IssueInvalidInput
    else Ok (mk_OfflineContent m snapshot title body comments).

(** ** The manifest *)

(*| runtime/issue_artifact.rs 221-224 IssueOmission *)
Record IssueOmission := mk_Omission { omitted_id : string; omission_reason : string }.

(*| runtime/issue_artifact.rs 244-254 ManifestObject *)
Record ManifestObject := mk_ManifestObject {
  mo_object_id : string; mo_kind : string; mo_order : Z; mo_revision : Z; mo_author : string;
  mo_domain : TrustDomain; mo_digest : string; mo_start : Z; mo_end : Z }.

(*| runtime/issue_artifact.rs 257-265 ManifestRecord *)
Record ManifestRecord := mk_ManifestRecord {
  mr_object_id : string; mr_order : Z; mr_revision : Z; mr_author : string; mr_status : string;
  mr_reason : option string; mr_digest : string }.

(** [schema] and [schema_version] are constants. *)
(*| runtime/issue_artifact.rs 268-276 Manifest *)
Record Manifest := mk_Manifest {
  mf_issue : Z; mf_snapshot : string; mf_objects : list ManifestObject;
  mf_omissions : list IssueOmission; mf_records : list ManifestRecord }.

Section manifest.
Context `{IntJson}.

(*| runtime/issue_artifact.rs 220-224 IssueOmission *)
Definition omission_value (o : IssueOmission) : Value :=
  Object [("object_id", VString (omitted_id o)); ("reason", VString (omission_reason o))].
(*| runtime/issue_artifact.rs 243-254 ManifestObject *)
Definition object_value (o : ManifestObject) : Value :=
  Object [("object_id", VString (mo_object_id o)); ("kind", VString (mo_kind o));
          ("order", jnum (mo_order o)); ("revision", jnum (mo_revision o));
          ("author", VString (mo_author o)); ("domain", VString (domain_code (mo_domain o)));
          ("digest", VString (mo_digest o)); ("start", jnum (mo_start o)); ("end", jnum (mo_end o))].
(*| runtime/issue_artifact.rs 256-265 ManifestRecord *)
Definition record_value (r : ManifestRecord) : Value :=
  Object [("object_id", VString (mr_object_id r)); ("order", jnum (mr_order r));
          ("revision", jnum (mr_revision r)); ("author", VString (mr_author r));
          ("status", VString (mr_status r)); ("reason", jopt VString (mr_reason r));
          ("digest", VString (mr_digest r))].
(*| runtime/issue_artifact.rs 267-276 Manifest *)
Definition manifest_value (m : Manifest) : Value :=
  Object [("schema", VString SCHEMA_ID); ("schema_version", jnum ISSUE_ARTIFACT_SCHEMA_VERSION);
          ("issue", jnum (mf_issue m)); ("snapshot", VString (mf_snapshot m));
          ("objects", Array (map object_value (mf_objects m)));
          ("omissions", Array (map omission_value (mf_omissions m)));
          ("records", Array (map record_value (mf_records m)))].
End manifest.

(** ** Object states *)

(*| runtime/issue_artifact.rs 279-283 IncludedObject *)
Record IncludedObject := mk_Included { included_id : string; included_digest : string; included_span : SourceSpan }.

(*| runtime/issue_artifact.rs 327-331 ObjectStatus *)
Inductive ObjectStatus :=
| Included (digest : string) | Omitted (reason digest : string) | Deleted (digest : string).
#[export] Instance ObjectStatus_eq_dec : EqDecision ObjectStatus.
Proof. solve_decision. Defined.

(*| runtime/issue_artifact.rs 334-340 ObjectState *)
Record ObjectState := mk_ObjectState {
  state_id : string; state_order : Z; state_revision : Z; state_author : string; status : ObjectStatus }.
#[export] Instance ObjectState_eq_dec : EqDecision ObjectState.
Proof. solve_decision. Defined.

(*| runtime/issue_artifact.rs 343-349 ObjectState::digest *)
Definition state_digest (s : ObjectState) : string :=
  match status s with Included digest | Omitted _ digest | Deleted digest => digest end.
(*| runtime/issue_artifact.rs 351-366 ObjectState::manifest_record *)
Definition manifest_record (s : ObjectState) : ManifestRecord :=
  let '(status, reason) :=
    match status s with
    | Included _ => ("included", None)
    | Omitted reason _ => ("omitted", Some reason)
    | Deleted _ => ("deleted", Some "deleted")
    end in
  mk_ManifestRecord (state_id s) (state_order s) (state_revision s) (state_author s) status reason
    (state_digest s).

(*| runtime/issue_artifact.rs 370-379 CanonicalIssueArtifact *)
Record CanonicalIssueArtifact := mk_Canonical {
  artifact_content_id : ArtifactId; artifact_content_ref : ArtifactRef; manifest_bytes : string;
  included : list IncludedObject; omissions : list IssueOmission; states : list ObjectState;
  artifact_policy_digest : string; aggregate_digest : string }.

(*| runtime/issue_artifact.rs 415-427 CanonicalIssueArtifact::cache_key *)
Definition artifact_cache_key `{JsonText, Sha256} (a : CanonicalIssueArtifact) (m : NodeCacheKeyMaterial) :
    result NodeCacheKeyError NodeCacheKey :=
  bind (mk_KeyMaterial (m_workflow_id m) (m_workflow_version m) (m_node_id m) (m_node_version m)
          (m_invocation_identity m)
          (m_input_artifact_hashes m ++ [aref_sha256 (artifact_content_ref a)])
          (aggregate_digest a) (artifact_policy_digest a)).

(** ** Differences *)

(*| runtime/issue_artifact.rs 301-308 ObjectChange *)
Inductive ObjectChange := Unchanged | Appended | Edited | ChangeDeleted | NewlyOmitted | NewlyPermitted.
#[export] Instance ObjectChange_eq_dec : EqDecision ObjectChange.
Proof. solve_decision. Defined.

(*| runtime/issue_artifact.rs 311-314 ObjectDiffEntry *)
Record ObjectDiffEntry := mk_DiffEntry { diff_id : string; change : ObjectChange }.

(*| runtime/issue_artifact.rs 485-517 classify_change *)
Definition classify_change (previous current : ObjectState) : ObjectChange :=
  match status previous, status current with
  | Included _, Included _ => if bool_decide (previous = current) then Unchanged else Edited
  | Included _, Omitted _ _ => NewlyOmitted
  | Included _, Deleted _ | Omitted _ _, Deleted _ => ChangeDeleted
  | Omitted _ _, Included _ | Deleted _, Included _ => NewlyPermitted
  | Omitted _ _, Omitted _ _ => if bool_decide (previous = current) then Unchanged else Edited
  | Deleted _, Omitted _ _ => NewlyOmitted
  | Deleted _, Deleted _ => if bool_decide (previous = current) then Unchanged else ChangeDeleted
  end.

(*| runtime/issue_artifact.rs 438-446 CanonicalIssueArtifact::diff_from *)
Definition new_entry (s : ObjectState) : ObjectDiffEntry :=
  mk_DiffEntry (state_id s) (match status s with Included _ => Appended | _ => NewlyOmitted end).

(*| runtime/issue_artifact.rs 452-466 CanonicalIssueArtifact::diff_from *)
Definition prior_entry (current : list ObjectState) (prior : ObjectState) : ObjectDiffEntry :=
  mk_DiffEntry (state_id prior)
    match List.find (λ c, str_eqb (state_id c) (state_id prior)) current with
    | None => ChangeDeleted
    | Some c => classify_change prior c
    end.

(*| runtime/issue_artifact.rs 433-482 CanonicalIssueArtifact::diff_from *)
Definition diff_from (a : CanonicalIssueArtifact) (previous : option CanonicalIssueArtifact) :
    list ObjectDiffEntry :=
  match previous with
  | None => map new_entry (states a)
  | Some previous =>
      map (prior_entry (states a)) (states previous) ++
      map new_entry (filter (λ c, state_id c ∉ map state_id (states previous)) (states a))
  end.

(** ** Building the artifact *)

(*| runtime/issue_artifact.rs 530-539 Classified *)
Record Classified := mk_Classified {
  c_object_id : string; c_kind : string; c_order : Z; c_revision : Z; c_author : string;
  c_domain : TrustDomain; c_bytes : string; c_digest : string }.

Section build.
Context `{IntJson, !Sha256}.

(*| runtime/issue_artifact.rs 750-761 digest_object *)
Definition digest_object (content_digest : string) (local_role : option string) (revision : Z) : string :=
  encode_hex (sha256
    (from_option (λ role, "issue-object-role-v1" +:+ String (byte_of 0) (role +:+ String (byte_of 0) "")) ""
       local_role +:+
     content_digest +:+ string_of_list_ascii (write_u64 revision))).

(** What the loop over the comments has gathered. *)
Record Gathered := mk_Gathered {
  g_classified : list Classified; g_states : list ObjectState; g_omissions : list IssueOmission }.

(** The order of a comment is a [u32], so adding two cannot overflow. *)
(*| runtime/issue_artifact.rs 620-665 build_canonical_issue_artifact *)
Definition gather_comment (policy : TrustPolicy) (c : OfflineComment) (g : Gathered) :
    result IssueArtifactErrorKind Gathered :=
  provenance ← map_err (λ _, IssueInvalidInput) (classify policy (Comment (comment_id c) (comment_author c)));
  let digest := digest_object (encode_hex (Trust.cache_key provenance (comment_bytes c))) None
                  (comment_revision c) in
  let order := (comment_order c + 2)%Z in
  let '(status, new_classified, new_omissions) :=
    if deleted c then (Deleted digest, [], [mk_Omission (comment_id c) "deleted"])
    else if negb (bool_decide (domain provenance = ConditionallyTrustedContent))
    then (Omitted "author_not_allowlisted" digest, [], [mk_Omission (comment_id c) "author_not_allowlisted"])
    else (Included digest,
          [mk_Classified (comment_id c) "comment" order (comment_revision c) (comment_author c)
             (domain provenance) (comment_bytes c) digest], []) in
  Ok (mk_Gathered (g_classified g ++ new_classified)
        (g_states g ++ [mk_ObjectState (comment_id c) order (comment_revision c) (comment_author c) status])
        (g_omissions g ++ new_omissions)).

(** Title and body, under the provenance of the issue. *)
(*| runtime/issue_artifact.rs 568-618 build_canonical_issue_artifact *)
Definition gather_issue (a : OfflineIssueContent) (p : ContentProvenance) : Gathered :=
  let author := issue_author (metadata a) in
  let title_digest := digest_object (encode_hex (Trust.cache_key p (title a))) (Some TITLE_OBJECT_ID) 1 in
  let body_digest := digest_object (encode_hex (Trust.cache_key p (body a))) (Some BODY_OBJECT_ID) 1 in
  mk_Gathered
    [mk_Classified TITLE_OBJECT_ID "issue_title" 0 1 author (domain p) (title a) title_digest;
     mk_Classified BODY_OBJECT_ID "issue_body" 1 1 author (domain p) (body a) body_digest]
    [mk_ObjectState TITLE_OBJECT_ID 0 1 author (Included title_digest);
     mk_ObjectState BODY_OBJECT_ID 1 1 author (Included body_digest)] [].

(** A length fits a [u64]. *)
(*| runtime/issue_artifact.rs 667-691 build_canonical_issue_artifact *)
Fixpoint lay_out (items : list Classified) (content : string) (objects : list ManifestObject) :
    result IssueArtifactErrorKind (string * list ManifestObject) :=
  match items with
  | [] => Ok (content, objects)
  | item :: items =>
      let start := str_len content in
      let content := content +:+ c_bytes item in
      let stop := str_len content in
      if (stop <=? start)%Z then Err IssueInvalidInput
      else lay_out items (content +:+ String (byte_of 0) "")
             (objects ++ [mk_ManifestObject (c_object_id item) (c_kind item) (c_order item) (c_revision item)
                            (c_author item) (c_domain item) (c_digest item) start stop])
  end.

(*| runtime/issue_artifact.rs 711-728 build_canonical_issue_artifact *)
Definition include (id : ArtifactId) (content : string) (x : Classified * ManifestObject) :
    result IssueArtifactErrorKind IncludedObject :=
  let '(item, object) := x in
  span ← map_err (λ _, IssueStore) (SourceSpan_new id (mo_start object) (mo_end object));
  if (str_len content <? span_end span)%Z || (span_end span <=? span_start span)%Z ||
     negb (str_eqb (slice content (span_start span) (span_end span)) (c_bytes item))
  then Err IssueStore
  else Ok (mk_Included (c_object_id item) (c_digest item) span).

(*| runtime/issue_artifact.rs 734-747 build_canonical_issue_artifact *)
Definition aggregate_of (policy_digest manifest : string) : string :=
  encode_hex (sha256 (SCHEMA_ID +:+ policy_digest +:+ manifest)).

(** Everything before the store is asked. *)
(*| runtime/issue_artifact.rs 551-691 build_canonical_issue_artifact *)
Definition plan_artifact (policy : TrustPolicy) (a : OfflineIssueContent) :
    result IssueArtifactErrorKind (Gathered * string * list ManifestObject * string) :=
  ensure (negb (MAX_DIRECT_COMMENTS <? zlength (comments a))%Z) IssueNotRouted;;
  p ← map_err (λ _, IssueInvalidInput)
        (classify policy (IssueBody (pretty (Z.to_N (number (metadata a)))) (issue_author (metadata a))));
  ensure (bool_decide (domain p = ConditionallyTrustedContent)) IssueInvalidInput;;
  g ← try_fold (gather_comment policy) (comments a) (gather_issue a p);
  '(content, objects) ← lay_out (g_classified g) "" [];
  Ok (g, content, objects, encode_hex (Trust.policy_digest p)).

(** What is staged and not committed is dropped. *)
(*| runtime/issue_artifact.rs 546-748 build_canonical_issue_artifact *)
Definition build_canonical_issue_artifact {S : Type} `{!ArtifactStore S, !StagingStore S}
    (policy : TrustPolicy) (a : OfflineIssueContent) :
    method S IssueArtifactErrorKind CanonicalIssueArtifact := λ store,
  match plan_artifact policy a with
  | Err e => (store, Err e)
  | Ok (g, content, objects, policy_digest) =>
      let manifest := compact (manifest_value
        (mk_Manifest (number (metadata a)) (content_snapshot a) objects (g_omissions g)
           (map manifest_record (g_states g)))) in
      match stage content store with
      | (store, Err _) => (store, Err IssueStore)
      | (store, Ok staged) =>
          let id := staged_name staged in
          match content_ref ← map_err (λ _, IssueStore) (ArtifactRef_new id ("sha256:" +:+ id));
                included ← traverse (include id content) (zip (g_classified g) objects);
                Ok (content_ref, included) with
          | Err e => (discard staged store, Err e)
          | Ok (content_ref, included) =>
              match commit staged store with
              | (store, Err _) => (store, Err IssueStore)
              | (store, Ok committed) =>
                  if negb (str_eqb committed id) then (store, Err IssueStore)
                  else (store, Ok (mk_Canonical id content_ref manifest included (g_omissions g) (g_states g)
                                     policy_digest (aggregate_of policy_digest manifest)))
              end
          end
      end
  end.
End build.

(** ** What a snapshot may hold *)

Definition NUL : string := String (byte_of 0) "".

Record comment_ok (c : OfflineComment) : Prop := {
  co_id : is_blank (comment_id c) = false;
  co_reserved : comment_id c ≠ TITLE_OBJECT_ID ∧ comment_id c ≠ BODY_OBJECT_ID;
  co_author : is_blank (comment_author c) = false;
  co_lengths : (str_len (comment_id c) ≤ MAX_IDENTITY ∧ str_len (comment_author c) ≤ MAX_IDENTITY ∧
                str_len (comment_bytes c) ≤ MAX_TEXT)%Z;
  co_revision : comment_revision c ≠ 0%Z;
  co_deleted : deleted c = true ↔ comment_bytes c = "" }.

Lemma offline_comment_exact object_id author order revision gone bytes c :
  OfflineComment_new object_id author order revision gone bytes = Ok c ↔
  c = mk_OfflineComment object_id author order revision gone bytes ∧ comment_ok c.
Proof.
  unfold OfflineComment_new. split.
  - rewrite guard_Ok. intros [Hb [= <-]]. split; [done|].
    repeat (apply orb_false_iff in Hb as [Hb ?]). rewrite !andb_false_iff, !negb_false_iff in *.
    repeat match goal with H : str_eqb _ _ = false |- _ => apply bool_decide_eq_false in H end.
    split; cbn; try done.
    + destruct (str_eqb object_id TITLE_OBJECT_ID) eqn:E1, (str_eqb object_id BODY_OBJECT_ID) eqn:E2; try done.
      split; intros ->; by rewrite (proj2 (str_eqb_eq _ _) eq_refl) in *.
    + lia.
    + lia.
    + destruct gone, bytes; naive_solver.
  - intros [-> [K1 [K2 K3] K4 K5 K6 K7]]. cbn in *. apply guard_Ok. split; [|done].
    rewrite K1, K4. cbn. destruct (str_eqb object_id TITLE_OBJECT_ID) eqn:E1; [by apply str_eqb_eq in E1|].
    destruct (str_eqb object_id BODY_OBJECT_ID) eqn:E2; [by apply str_eqb_eq in E2|]. cbn.
    repeat (apply orb_false_iff; split); try lia; destruct gone, bytes; naive_solver.
Qed.

(** The bytes of a snapshot that count towards its limit. *)
Definition comments_size (l : list OfflineComment) : Z :=
  foldr (λ c n, str_len (comment_id c) + str_len (comment_author c) + str_len (comment_bytes c) + n)%Z 0%Z l.
Definition content_size (a : OfflineIssueContent) : Z :=
  (str_len (content_snapshot a) + str_len (title a) + str_len (body a) + str_len (issue_author (metadata a)) +
   comments_size (comments a))%Z.

Record content_ok (a : OfflineIssueContent) : Prop := {
  ko_snapshot : is_blank (content_snapshot a) = false ∧ (str_len (content_snapshot a) ≤ MAX_SNAPSHOT)%Z;
  ko_title : title a ≠ "" ∧ (str_len (title a) ≤ MAX_TEXT)%Z;
  ko_body : body a ≠ "" ∧ (str_len (body a) ≤ MAX_TEXT)%Z;
  ko_comments : (zlength (comments a) ≤ MAX_COMMENTS)%Z;
  ko_issue : is_pull_request (metadata a) = false;
  ko_ids : NoDup (map comment_id (comments a));
  ko_orders : Sorted Z.lt (map comment_order (comments a));
  ko_size : (content_size a ≤ MAX_INPUT_BYTES)%Z }.

Lemma add_len_Ok size s n :
  add_len size s = Ok n ↔ n = (size + str_len s)%Z ∧ (size + str_len s ≤ u64_max)%Z.
Proof.
  unfold add_len. destruct (checked_add size (str_len s)) as [m|] eqn:E; cbn.
  - apply checked_add_Some in E as [-> E]. naive_solver.
  - apply checked_add_None in E. split; [done|lia].
Qed.

Lemma comments_size_nonneg l : (0 ≤ comments_size l)%Z.
Proof. unfold comments_size, str_len. induction l as [|c l IH]; cbn; lia. Qed.

Lemma check_comments_Ok l size seen last n :
  (0 ≤ size)%Z →
  check_comments l size seen last = Ok n ∧ (n ≤ MAX_INPUT_BYTES)%Z ↔
  n = (size + comments_size l)%Z ∧ (n ≤ MAX_INPUT_BYTES)%Z ∧
  NoDup (map comment_id l) ∧ (∀ c, c ∈ l → comment_id c ∉ seen) ∧
  Sorted Z.lt (map comment_order l) ∧ from_option (λ o, HdRel Z.lt o (map comment_order l)) True last.
Proof.
  revert size seen last. induction l as [|c l IH]; intros size seen last Hs; cbn [check_comments].
  { cbn. split.
    - intros [[= <-] Hn]. split_and!; [lia|done|constructor|set_solver|constructor|by destruct last; cbn].
    - intros (-> & Hn & _). split; [f_equal; lia|done]. }
  assert (∀ s, 0 ≤ str_len s)%Z as Hlen by (unfold str_len; lia).
  pose proof (comments_size_nonneg l) as Hc. pose proof (Hlen (comment_id c)). pose proof (Hlen (comment_author c)).
  pose proof (Hlen (comment_bytes c)). cbn [comments_size foldr]. fold (comments_size l).
  rewrite !bind_Ok. setoid_rewrite add_len_Ok. setoid_rewrite bind_Ok. setoid_rewrite add_len_Ok.
  setoid_rewrite bind_Ok. setoid_rewrite add_len_Ok. setoid_rewrite guard_Ok.
  set (size' := (size + str_len (comment_id c) + str_len (comment_author c) + str_len (comment_bytes c))%Z).
  specialize (IH size' ({[comment_id c]} ∪ seen) (Some (comment_order c)) ltac:(lia)). cbn [map from_option] in *.
  split.
  - intros [(? & [-> H1'] & ? & [-> H2'] & ? & [-> H3'] & Hb & Hrest) Hn].
    fold size' in Hb, Hrest. destruct (proj1 IH (conj Hrest Hn)) as (-> & _ & Hnd & Hin & Hso & Hh).
    apply orb_false_iff in Hb as [Hb Ho]. apply orb_false_iff in Hb as [Hb Hi%bool_decide_eq_false].
    split_and!; [lia|done| | | |].
    + constructor; [|done]. intros (d & Ed & Hd)%list_elem_of_fmap. apply (Hin d Hd). set_solver.
    + intros d [->|Hd]%elem_of_cons; [done|]. specialize (Hin d Hd). set_solver.
    + by constructor.
    + destruct last as [o|]; cbn in *; [|done]. constructor. lia.
  - intros (-> & Hn & Hnd & Hin & Hso & Hh). apply NoDup_cons in Hnd as [Hni Hnd]. inversion Hso as [|?? Hso' Hh']; subst.
    assert (u64_max = 18446744073709551615)%Z as Hu by done. unfold MAX_INPUT_BYTES in *.
    destruct (proj2 IH) as [Hrest _].
    { split_and!; [lia|lia|done| |done|done]. intros d Hd [Hx%elem_of_singleton|Hx]%elem_of_union.
      - apply Hni. rewrite <- Hx. by apply list_elem_of_fmap_2.
      - apply (Hin d); [by right|done]. }
    split; [|lia]. eexists; split; [split; [done|lia]|]. eexists; split; [split; [done|lia]|].
    eexists; split; [split; [done|lia]|]. fold size'. split.
    + rewrite !orb_false_iff. split_and!; [lia|apply bool_decide_eq_false, Hin; by left|].
      destruct last as [o|]; [|done]. cbn in *. apply HdRel_inv in Hh. lia.
    + rewrite Hrest. do 2 f_equal; lia.
Qed.

Lemma offline_content_exact m sn t b cs a :
  OfflineIssueContent_new m sn t b cs = Ok a ↔ a = mk_OfflineContent m sn t b cs ∧ content_ok a.
Proof.
  assert (∀ s, 0 ≤ str_len s)%Z as Hlen by (unfold str_len; lia).
  pose proof (Hlen sn). pose proof (Hlen t). pose proof (Hlen b). pose proof (Hlen (issue_author m)).
  pose proof (comments_size_nonneg cs).
  set (size := (str_len sn + str_len t + str_len b + str_len (issue_author m))%Z).
  unfold OfflineIssueContent_new. rewrite guard_Ok, !bind_Ok. setoid_rewrite add_len_Ok. setoid_rewrite bind_Ok.
  setoid_rewrite add_len_Ok. setoid_rewrite bind_Ok. setoid_rewrite add_len_Ok. setoid_rewrite bind_Ok.
  setoid_rewrite guard_Ok.
  assert (size = (str_len sn + str_len t + str_len b + str_len (issue_author m))%Z) as Esize by done.
  assert (0 ≤ size)%Z as Hsize by lia. rewrite !orb_false_iff. split.
  - intros [Hb (? & [-> _] & ? & [-> _] & ? & [-> _] & n & Hcs & Hn & [= <-])]. split; [done|].
    fold size in Hcs. destruct (proj1 (check_comments_Ok cs size ∅ None n Hsize)) as (-> & Hm & Hnd & _ & Hso & _);
      [split; [done|lia]|].
    destruct Hb as [[[[[[[K1 K2] K3] K4] K5] K6] K7] K8]. apply str_is_empty_false in K3, K4.
    split; cbn [metadata content_snapshot title body comments]; try done; try lia; (split; [done|lia]).
  - intros [-> [[K1 K2] [K3 K4] [K5 K6] K7 K8 K9 K10 K11]]. unfold content_size in K11.
    cbn [metadata content_snapshot title body comments] in *.
    apply str_is_empty_false in K3, K5. fold size in K11. split; [split_and!; try done; lia|].
    assert (u64_max = 18446744073709551615)%Z as Hu by done. assert (MAX_INPUT_BYTES = 262144)%Z as Hm by done.
    eexists; split; [split; [done|lia]|]. eexists; split; [split; [done|lia]|].
    eexists; split; [split; [done|lia]|]. fold size. exists (size + comments_size cs)%Z.
    split_and!; [|lia|done].
    apply (proj2 (check_comments_Ok cs size ∅ None _ Hsize)). split_and!; try done; set_solver.
Qed.

(** ** The build, object by object *)

Section objects.
Context `{IntJson, !Sha256}.
Implicit Types (policy : TrustPolicy) (c : OfflineComment) (a : OfflineIssueContent).

Definition provenance_of policy c : ContentProvenance :=
  mk_ContentProvenance CommentKind (policy_scope policy) (comment_id c) (comment_author c)
    (if bool_decide (comment_author c ∈ allowlisted_authors policy)
     then ConditionallyTrustedContent else UntrustedContent) (trust_policy_digest policy).
Definition comment_digest policy c : string :=
  digest_object (encode_hex (Trust.cache_key (provenance_of policy c) (comment_bytes c))) None (comment_revision c).

(** A comment whose bytes reach the content. *)
Definition trusted policy c : bool :=
  negb (deleted c) && bool_decide (comment_author c ∈ allowlisted_authors policy).

Definition comment_object policy c : Classified :=
  mk_Classified (comment_id c) "comment" (comment_order c + 2) (comment_revision c) (comment_author c)
    ConditionallyTrustedContent (comment_bytes c) (comment_digest policy c).
Definition comment_status policy c : ObjectStatus :=
  if deleted c then Deleted (comment_digest policy c)
  else if trusted policy c then Included (comment_digest policy c)
  else Omitted "author_not_allowlisted" (comment_digest policy c).
Definition comment_state policy c : ObjectState :=
  mk_ObjectState (comment_id c) (comment_order c + 2) (comment_revision c) (comment_author c)
    (comment_status policy c).
Definition comment_omission c : IssueOmission :=
  mk_Omission (comment_id c) (if deleted c then "deleted" else "author_not_allowlisted").

Lemma gather_comment_ok policy c g :
  is_blank (policy_scope policy) = false → comment_ok c →
  gather_comment policy c g =
    Ok (mk_Gathered (g_classified g ++ if trusted policy c then [comment_object policy c] else [])
          (g_states g ++ [comment_state policy c])
          (g_omissions g ++ if trusted policy c then [] else [comment_omission c])).
Proof.
  intros Hs [Hid _ Ha _ _ _]. unfold gather_comment, classify, from_parts, validate_non_blank. cbn [object_parts].
  rewrite Hs, Hid, Ha. cbn. fold (provenance_of policy c). fold (comment_digest policy c).
  unfold comment_state, comment_status, comment_omission, comment_object, trusted.
  destruct (deleted c); cbn; [done|].
  by destruct (bool_decide (comment_author c ∈ allowlisted_authors policy)).
Qed.

Lemma gather_comments_ok policy cs g :
  is_blank (policy_scope policy) = false → Forall comment_ok cs →
  try_fold (gather_comment policy) cs g =
    Ok (mk_Gathered (g_classified g ++ map (comment_object policy) (filter (λ c, trusted policy c) cs))
          (g_states g ++ map (comment_state policy) cs)
          (g_omissions g ++ map comment_omission (filter (λ c, negb (trusted policy c)) cs))).
Proof.
  intros Hs. revert g. induction cs as [|c cs IH]; intros g Hc; cbn [try_fold].
  - cbn. rewrite !app_nil_r. by destruct g.
  - apply Forall_cons in Hc as [Hc Hcs]. rewrite gather_comment_ok by done. cbn [mbind result_bind].
    rewrite IH by done. cbn [g_classified g_states g_omissions]. rewrite !filter_cons.
    destruct (trusted policy c); cbn; by rewrite ?app_nil_r, <- ?app_assoc.
Qed.

(** The content laid out for some objects: each with a NUL byte after it. *)
Definition layout (items : list Classified) : string :=
  foldr (λ item rest, c_bytes item +:+ NUL +:+ rest) "" items.

(** [o] is the manifest entry of [item] in [content]. *)
Record laid content (item : Classified) (o : ManifestObject) : Prop := {
  laid_range : (0 ≤ mo_start o < mo_end o ∧ mo_end o ≤ str_len content)%Z;
  laid_bytes : slice content (mo_start o) (mo_end o) = c_bytes item;
  laid_same : mo_object_id o = c_object_id item ∧ mo_kind o = c_kind item ∧ mo_order o = c_order item ∧
    mo_revision o = c_revision item ∧ mo_author o = c_author item ∧ mo_domain o = c_domain item ∧
    mo_digest o = c_digest item }.

Lemma lay_out_ok items content objects :
  Forall (λ i, c_bytes i ≠ "") items →
  ∃ new, lay_out items content objects = Ok (content +:+ layout items, objects ++ new) ∧
    Forall2 (laid (content +:+ layout items)) items new.
Proof.
  revert content objects. induction items as [|i items IH]; intros content objects Hne; cbn [lay_out layout foldr].
  - exists []. by rewrite str_app_nil_r, app_nil_r.
  - apply Forall_cons in Hne as [Hi Hne]. rewrite str_len_app.
    assert (0 < str_len (c_bytes i))%Z as Hl by (destruct (c_bytes i); [done|unfold str_len; cbn; lia]).
    destruct (Z.leb_spec (str_len content + str_len (c_bytes i)) (str_len content)) as [?|_]; [lia|].
    destruct (IH ((content +:+ c_bytes i) +:+ NUL)
      (objects ++ [mk_ManifestObject (c_object_id i) (c_kind i) (c_order i) (c_revision i) (c_author i)
                     (c_domain i) (c_digest i) (str_len content) (str_len content + str_len (c_bytes i))]) Hne)
      as (new & E & Hf).
    rewrite !str_app_assoc in E, Hf. fold (layout items). rewrite !str_app_assoc.
    eexists (_ :: new). split.
    + change (String (byte_of 0) "") with NUL. by rewrite E, <- app_assoc, ?str_app_assoc.
    + constructor; [|done]. split; cbn.
      * rewrite !str_len_app. unfold str_len in *. lia.
      * rewrite <- str_len_app. apply slice_middle.
      * done.
Qed.
End objects.

(** A visible ASCII character is not whitespace. *)
Lemma visible_not_blank a s : (33 ≤ byte_N a ≤ 126)%N → is_blank (String a s) = false.
Proof.
  intros Ha. unfold is_blank. cbn [trim_start]. unfold ws1, ws2, ws3, byte_in, byte_eq.
  assert (∀ n, (n < 33 ∨ 126 < n)%N → (byte_N a =? n)%N = false) as Hne by (intros k Hk; apply N.eqb_neq; lia).
  assert (((9 <=? byte_N a) && (byte_N a <=? 13))%N || (byte_N a =? 32)%N = false) as ->
    by (apply orb_false_iff; split; [apply andb_false_iff; right; apply N.leb_gt; lia|apply Hne; lia]).
  destruct s as [|b s]; [done|]. rewrite !Hne by lia. cbn [andb].
  destruct s as [|c s]; [done|]. by rewrite ?Hne by lia.
Qed.

Lemma digits_not_blank (n : N) : is_blank (pretty n) = false.
Proof.
  pose proof (pretty_digits n) as Hd. destruct (pretty n) as [|a s] eqn:E.
  { exfalso. assert (pretty n ≠ "") as Hn; [|done]. clear. unfold pretty, pretty_N. case_decide; [done|].
    rewrite pretty_N_go_step by lia. intros Hx. apply (f_equal String.length) in Hx. revert Hx.
    assert (∀ x s, String.length s ≤ String.length (pretty_N_go x s)) as Hl.
    { clear. intros x. induction (N.lt_wf_0 x) as [x _ IH]. intros s.
      destruct (decide (x = 0%N)) as [->|Hx]; [by rewrite pretty_N_go_0|].
      rewrite pretty_N_go_step by lia. pose proof (IH (x `div` 10)%N ltac:(apply N.div_lt; lia)
        (String (pretty_N_char (x `mod` 10)) s)) as Hs. etrans; [|exact Hs]. cbn [String.length]. lia. }
    specialize (Hl (n `div` 10)%N (String (pretty_N_char (n `mod` 10)) "")). intros Hx. rewrite Hx in Hl. cbn [String.length] in Hl. lia. }
  unfold str_all in Hd. cbn [str_bytes forallb] in Hd. apply andb_true_iff in Hd as [Hd _].
  apply visible_not_blank. unfold is_ascii_digit in Hd. rewrite andb_true_iff, !N.leb_le in Hd. lia.
Qed.

(** ** The artifact of a snapshot *)

Section exact.
Context `{IntJson, !Sha256} {S : Type} `{!ArtifactStore S, !ArtifactStoreLaws S, !StagingStore S, !StagingStoreLaws S}.
Implicit Types (policy : TrustPolicy) (a : OfflineIssueContent) (store : S).

Definition trusted_comments policy a : list OfflineComment := filter (λ c, trusted policy c) (comments a).

(** The published content: title, body and the trusted comments. *)
Definition issue_content policy a : string :=
  title a +:+ NUL +:+ body a +:+ NUL +:+
  foldr (λ c rest, comment_bytes c +:+ NUL +:+ rest) "" (trusted_comments policy a).

(** The policy lets the issue itself in. *)
Definition admissible policy a : Prop :=
  is_blank (policy_scope policy) = false ∧ is_blank (issue_author (metadata a)) = false ∧
  issue_author (metadata a) ∈ allowlisted_authors policy.

Definition issue_provenance policy a : ContentProvenance :=
  mk_ContentProvenance IssueBodyKind (policy_scope policy) (pretty (Z.to_N (number (metadata a))))
    (issue_author (metadata a)) ConditionallyTrustedContent (trust_policy_digest policy).
Definition gathered policy a : Gathered :=
  let g := gather_issue a (issue_provenance policy a) in
  mk_Gathered (g_classified g ++ map (comment_object policy) (trusted_comments policy a))
    (g_states g ++ map (comment_state policy) (comments a))
    (map comment_omission (filter (λ c, negb (trusted policy c)) (comments a))).

Lemma layout_content policy a : layout (g_classified (gathered policy a)) = issue_content policy a.
Proof.
  cbn. unfold issue_content. do 4 f_equal. induction (trusted_comments policy a) as [|c l IH]; cbn; [done|].
  by rewrite IH.
Qed.

Lemma gathered_nonempty policy a :
  content_ok a → Forall comment_ok (comments a) → Forall (λ i, c_bytes i ≠ "") (g_classified (gathered policy a)).
Proof.
  intros Ha Hc. cbn. constructor; [apply (ko_title a Ha)|]. constructor; [apply (ko_body a Ha)|].
  apply Forall_fmap, Forall_forall. intros c [Ht Hin]%list_elem_of_filter. rewrite Forall_forall in Hc.
  intros E. apply (co_deleted c (Hc c Hin)) in E. unfold trusted in Ht. rewrite E in Ht. done.
Qed.

Lemma plan_artifact_exact policy a :
  content_ok a → Forall comment_ok (comments a) →
  match plan_artifact policy a with
  | Ok (g, content, objects, digest) =>
      (zlength (comments a) ≤ MAX_DIRECT_COMMENTS)%Z ∧ admissible policy a ∧ g = gathered policy a ∧
      content = issue_content policy a ∧ Forall2 (laid content) (g_classified g) objects ∧
      digest = encode_hex (trust_policy_digest policy)
  | Err IssueNotRouted => (MAX_DIRECT_COMMENTS < zlength (comments a))%Z
  | Err IssueInvalidInput => (zlength (comments a) ≤ MAX_DIRECT_COMMENTS)%Z ∧ ¬ admissible policy a
  | Err IssueStore => False
  end.
Proof.
  intros Ha Hc. unfold plan_artifact, admissible, classify, from_parts, validate_non_blank. cbn [object_parts].
  destruct (Z.ltb_spec MAX_DIRECT_COMMENTS (zlength (comments a))) as [Hl|Hl]; [done|]. cbn [negb ensure mbind result_bind].
  destruct (is_blank (policy_scope policy)) eqn:Es; [cbn; by split; [|intros (? & _)]|]. cbn [map_err mbind result_bind].
  rewrite digits_not_blank. cbn [mbind result_bind].
  destruct (is_blank (issue_author _)) eqn:Eb; [cbn; by split; [|intros (_ & ? & _)]|]. cbn [map_err mbind result_bind domain].
  destruct (decide (issue_author (metadata a) ∈ allowlisted_authors policy)) as [Hin|Hin].
  2: { rewrite !bool_decide_false by done. cbn. split; [done|by intros (_ & _ & ?)]. }
  rewrite bool_decide_true by done. rewrite bool_decide_true by done. cbn [ensure mbind result_bind].
  fold (issue_provenance policy a). rewrite gather_comments_ok by done. cbn [mbind result_bind].
  fold (trusted_comments policy a). change (g_omissions (gather_issue a (issue_provenance policy a))) with (@nil IssueOmission).
  cbn [app]. fold (gathered policy a).
  destruct (lay_out_ok (g_classified (gathered policy a)) "" [] (gathered_nonempty policy a Ha Hc)) as (objs & -> & Hf).
  cbn [mbind result_bind]. rewrite layout_content in *. cbn [String.append app] in *. by split_and!.
Qed.

Lemma digest_id_parses bytes :
  (∀ s, String.length (sha256 s) = 32) → ArtifactId_parse (content_id bytes) = Some (content_id bytes).
Proof.
  intros Hs. unfold ArtifactId_parse, content_id. rewrite encode_hex_lower. unfold str_len.
  rewrite encode_hex_length, Hs. done.
Qed.

Definition included_of (id : ArtifactId) (i : Classified) (o : ManifestObject) : IncludedObject :=
  mk_Included (c_object_id i) (c_digest i) (mk_SourceSpan id (mo_start o) (mo_end o)).

Lemma include_one id content i o :
  ArtifactId_parse id = Some id → laid content i o → include id content (i, o) = Ok (included_of id i o).
Proof.
  intros Hid [Hr Hb _]. unfold include, SourceSpan_new. rewrite Hid.
  destruct (Z.leb_spec (mo_end o) (mo_start o)); [lia|]. cbn [map_err mbind result_bind span_end span_start].
  destruct (Z.ltb_spec (str_len content) (mo_end o)); [lia|]. destruct (Z.leb_spec (mo_end o) (mo_start o)); [lia|].
  by rewrite Hb, (proj2 (str_eqb_eq _ _) eq_refl).
Qed.

Lemma include_ok id content items objects :
  ArtifactId_parse id = Some id → Forall2 (laid content) items objects →
  traverse (include id content) (zip items objects) = Ok (zip_with (included_of id) items objects).
Proof.
  intros Hid. induction 1 as [|i o items objects Hl _ IH]; cbn [zip_with traverse]; [done|].
  rewrite (include_one id content i o Hid Hl). cbn [mbind result_bind]. by rewrite IH.
Qed.

(** The store refused the content. *)
Definition store_refuses store content : Prop :=
  (∃ s e, stage content store = (s, Err e)) ∨
  ∃ s t s' e, stage content store = (s, Ok t) ∧ commit t s = (s', Err e).

(** What was published for [a]. *)
Record published policy a store store' (x : CanonicalIssueArtifact) : Prop := {
  pub_id : artifact_content_id x = content_id (issue_content policy a);
  pub_ref : aref_sha256 (artifact_content_ref x) = "sha256:" +:+ artifact_content_id x;
  pub_policy : artifact_policy_digest x = encode_hex (trust_policy_digest policy);
  pub_aggregate : aggregate_digest x = aggregate_of (artifact_policy_digest x) (manifest_bytes x);
  pub_digests : Forall (λ o, ∃ t, included_digest o = encode_hex (sha256 t)) (included x);
  pub_stored : stored store' (content_id (issue_content policy a)) = Some (issue_content policy a);
  pub_others i : i ≠ content_id (issue_content policy a) → stored store' i = stored store i;
  pub_included : map included_id (included x) =
    TITLE_OBJECT_ID :: BODY_OBJECT_ID :: map comment_id (trusted_comments policy a);
  pub_spans : Forall2 (λ o bytes, span_artifact (included_span o) = artifact_content_id x ∧
      slice (issue_content policy a) (span_start (included_span o)) (span_end (included_span o)) = bytes)
    (included x) (title a :: body a :: map comment_bytes (trusted_comments policy a));
  pub_omitted : map omitted_id (omissions x) =
    map comment_id (filter (λ c, negb (trusted policy c)) (comments a));
  pub_states : map state_id (states x) = TITLE_OBJECT_ID :: BODY_OBJECT_ID :: map comment_id (comments a);
  pub_unique : NoDup (map state_id (states x)) }.

Lemma states_unique a :
  content_ok a → Forall comment_ok (comments a) →
  NoDup (TITLE_OBJECT_ID :: BODY_OBJECT_ID :: map comment_id (comments a)).
Proof.
  intros Ha Hc. rewrite Forall_forall in Hc. constructor; [|constructor; [|apply (ko_ids a Ha)]].
  - intros [?|(c & E & Hin)%list_elem_of_fmap]%elem_of_cons; [done|]. by destruct (co_reserved c (Hc c Hin)).
  - intros (c & E & Hin)%list_elem_of_fmap. by destruct (co_reserved c (Hc c Hin)).
Qed.

Lemma published_of policy a objects id ref manifest store store' :
  content_ok a → Forall comment_ok (comments a) →
  Forall2 (laid (issue_content policy a)) (g_classified (gathered policy a)) objects →
  id = content_id (issue_content policy a) → aref_sha256 ref = "sha256:" +:+ id →
  stored store' id = Some (issue_content policy a) → (∀ i, i ≠ id → stored store' i = stored store i) →
  published policy a store store'
    (mk_Canonical id ref manifest
       (zip_with (included_of id) (g_classified (gathered policy a)) objects)
       (g_omissions (gathered policy a)) (g_states (gathered policy a)) (encode_hex (trust_policy_digest policy))
       (aggregate_of (encode_hex (trust_policy_digest policy)) manifest)).
Proof.
  intros Ha Hc Hl -> Href Hst Ho.
  assert (map state_id (g_states (gathered policy a)) =
    TITLE_OBJECT_ID :: BODY_OBJECT_ID :: map comment_id (comments a)) as Hstates.
  { cbn. do 2 f_equal. rewrite map_map. by apply map_ext. }
  split; cbn [artifact_content_id included omissions states]; try done.
  - assert (Forall (λ i, ∃ t, c_digest i = encode_hex (sha256 t)) (g_classified (gathered policy a))) as Hd.
    { cbn. constructor; [by eexists|]. constructor; [by eexists|]. apply Forall_fmap, Forall_forall. intros c _.
      by eexists. }
    clear -Hl Hd. induction Hl as [|i o l k _ _ IH]; cbn; [constructor|].
    apply Forall_cons in Hd as [Hi Hd]. constructor; [done|by apply IH].
  - transitivity (map c_object_id (g_classified (gathered policy a))).
    + clear - Hl. induction Hl as [|i o l k _ _ IH]; cbn; congruence.
    + cbn. do 2 f_equal. rewrite map_map. by apply map_ext.
  - replace (title a :: _) with (map c_bytes (g_classified (gathered policy a))).
    + clear - Hl. induction Hl as [|i o l k [_ Hb _] _ IH]; cbn; by constructor.
    + cbn. do 2 f_equal. rewrite map_map. by apply map_ext.
  - cbn. rewrite map_map. by apply map_ext.
  - rewrite Hstates. by apply states_unique.
Qed.

Lemma build_outcome policy a store store' r :
  (∀ s, String.length (sha256 s) = 32) → content_ok a → Forall comment_ok (comments a) → store_wf store →
  build_canonical_issue_artifact policy a store = (store', r) →
  store_wf store' ∧
  match r with
  | Ok x => (zlength (comments a) ≤ MAX_DIRECT_COMMENTS)%Z ∧ admissible policy a ∧
      published policy a store store' x
  | Err e => (∀ i, stored store' i = stored store i) ∧
      match e with
      | IssueNotRouted => (MAX_DIRECT_COMMENTS < zlength (comments a))%Z
      | IssueInvalidInput => (zlength (comments a) ≤ MAX_DIRECT_COMMENTS)%Z ∧ ¬ admissible policy a
      | IssueStore => admissible policy a ∧ store_refuses store (issue_content policy a)
      end
  end.
Proof.
  intros Hsha Ha Hc Hwf E. unfold build_canonical_issue_artifact in E. cbv zeta in E.
  pose proof (plan_artifact_exact policy a Ha Hc) as Hp.
  destruct (plan_artifact policy a) as [[[[g content] objects] digest]|e]; [|by injection E as <- <-; destruct e].
  destruct Hp as (Hlen & Hadm & -> & -> & Hl & ->).
  destruct (stage (issue_content policy a) store) as [s1 [t|e]] eqn:Est.
  2: { injection E as <- <-. destruct (stage_law _ _ _ _ Hwf Est) as (Hwf1 & Hsame & _). split; [done|].
    split; [done|]. split; [done|]. left. by exists s1, e. }
  destruct (stage_law _ _ _ _ Hwf Est) as (Hwf1 & Hsame & _ & Hpend). specialize (Hpend t eq_refl).
  rewrite (pending_name _ _ _ Hpend) in E. pose proof (digest_id_parses (issue_content policy a) Hsha) as Hid.
  set (id := content_id (issue_content policy a)) in *.
  assert (ArtifactRef_new id ("sha256:" +:+ id) = Ok (mk_ArtifactRef id ("sha256:" +:+ id))) as Hr.
  { unfold ArtifactRef_new. rewrite Hid. unfold valid_sha256.
    assert (Text.strip_prefix SHA256_PREFIX ("sha256:" +:+ id) = Some id) as -> by by apply strip_prefix_Some.
    by rewrite Hid. }
  rewrite Hr in E. cbn [map_err mbind result_bind] in E.
  rewrite (include_ok id _ _ objects Hid Hl) in E. cbn [mbind result_bind] in E. cbv iota beta in E.
  destruct (commit t s1) as [s2 [id'|e]] eqn:Ec; destruct (commit_law _ _ _ _ _ Hwf1 Hpend Ec) as (Hwf2 & _ & Hcommit).
  - destruct Hcommit as (-> & Hst & _ & Hoth). fold id in Hst, Hoth, E.
    rewrite (proj2 (str_eqb_eq id id) eq_refl) in E. cbn [negb] in E. injection E as <- <-.
    split; [done|]. split; [done|]. split; [done|]. apply published_of; try done.
    intros i Hi. by rewrite Hoth, Hsame.
  - injection E as <- <-. split; [done|]. split; [intros i; by rewrite Hcommit, Hsame|]. split; [done|].
    right. by exists s1, t, s2, e.
Qed.

(** C25. Only what the trust policy admits is published.  A build that succeeds
    stores one content, made of the title, the body and the bytes of exactly the
    live comments of allowlisted authors, in order; each of them, and nothing
    else, is included with the span that cuts its bytes out of that content,
    every other comment is listed as omitted, and no two objects share a name.
    A build that fails publishes nothing: the inventory is too long, the policy
    does not admit the issue, or the store refused. *)
Theorem issue_artifact_exact policy a store store' r :
  (∀ s, String.length (sha256 s) = 32) → content_ok a → Forall comment_ok (comments a) → store_wf store →
  build_canonical_issue_artifact policy a store = (store', r) →
  store_wf store' ∧
  match r with
  | Ok x => (zlength (comments a) ≤ MAX_DIRECT_COMMENTS)%Z ∧ admissible policy a ∧
      published policy a store store' x
  | Err e => (∀ i, stored store' i = stored store i) ∧
      match e with
      | IssueNotRouted => (MAX_DIRECT_COMMENTS < zlength (comments a))%Z
      | IssueInvalidInput => (zlength (comments a) ≤ MAX_DIRECT_COMMENTS)%Z ∧ ¬ admissible policy a
      | IssueStore => admissible policy a ∧ store_refuses store (issue_content policy a)
      end
  end.
Proof. apply build_outcome. Qed.
End exact.

(** ** Differences between two inventories *)

Section diff.
Implicit Types (l : list ObjectState) (a : CanonicalIssueArtifact).

Definition state_of l (id : string) : option ObjectState :=
  List.find (λ s, str_eqb (state_id s) id) l.

(** What happened to an object, from its two states. *)
Definition change_of (prior current : option ObjectState) : option ObjectChange :=
  match prior, current with
  | None, None => None
  | None, Some c => Some (change (new_entry c))
  | Some _, None => Some ChangeDeleted
  | Some p, Some c => Some (classify_change p c)
  end.

Lemma state_of_Some l id s : NoDup (map state_id l) → state_of l id = Some s ↔ s ∈ l ∧ state_id s = id.
Proof.
  intros Hnd. unfold state_of. split.
  - intros [Hin E%str_eqb_eq]%find_Some_iff. done.
  - intros [Hin <-]. destruct (List.find _ l) as [s'|] eqn:E.
    + apply find_Some_iff in E as [Hin' E%str_eqb_eq]. f_equal. clear -Hnd Hin Hin' E.
      induction l as [|x l IH]; [by apply elem_of_nil in Hin|]. cbn in Hnd. apply NoDup_cons in Hnd as [Hx Hnd].
      apply elem_of_cons in Hin as [->|Hin], Hin' as [->|Hin']; [done| | |by apply IH].
      * destruct Hx. rewrite <- E. by apply list_elem_of_fmap_2.
      * destruct Hx. rewrite E. by apply list_elem_of_fmap_2.
    + apply find_None_iff with (x := s) in E; [|done]. by apply bool_decide_eq_false in E.
Qed.

Lemma state_of_None l id : state_of l id = None ↔ id ∉ map state_id l.
Proof.
  unfold state_of. split.
  - intros E (s & -> & Hin)%list_elem_of_fmap. apply find_None_iff with (x := s) in E; [|done].
    by apply bool_decide_eq_false in E.
  - intros Hn. destruct (List.find _ l) as [s|] eqn:E; [|done]. apply find_Some_iff in E as [Hin E%str_eqb_eq].
    destruct Hn. rewrite <- E. by apply list_elem_of_fmap_2.
Qed.

Lemma classify_unchanged p c : classify_change p c = Unchanged ↔ p = c.
Proof.
  unfold classify_change. split.
  - destruct (status p), (status c); try done; by case_bool_decide.
  - intros ->. destruct (status c); by rewrite bool_decide_true.
Qed.

Definition previous_states (previous : option CanonicalIssueArtifact) : list ObjectState :=
  from_option states [] previous.

Lemma diff_from_states a previous :
  diff_from a previous =
    map (prior_entry (states a)) (previous_states previous) ++
    map new_entry (filter (λ c, state_id c ∉ map state_id (previous_states previous)) (states a)).
Proof.
  destruct previous as [b|]; [done|]. cbn. f_equal. induction (states a) as [|s l IH]; [done|].
  rewrite filter_cons, decide_True by set_solver. by rewrite <- IH.
Qed.

(** The difference between two inventories names every object of either
    exactly once, with the change its two states determine, and reports nothing
    but "unchanged" exactly when every object has the same state in both. *)
Theorem issue_diff_exact a previous :
  let old := previous_states previous in
  NoDup (map state_id (states a)) → NoDup (map state_id old) →
  let diff := diff_from a previous in
  NoDup (map diff_id diff) ∧
  (∀ id c, mk_DiffEntry id c ∈ diff ↔ change_of (state_of old id) (state_of (states a) id) = Some c) ∧
  (Forall (λ e, change e = Unchanged) diff ↔ ∀ id, state_of old id = state_of (states a) id).
Proof.
  intros old Ha Hb diff.
  assert (∀ id c, mk_DiffEntry id c ∈ diff ↔ change_of (state_of old id) (state_of (states a) id) = Some c) as Hd.
  { intros id c. unfold diff. rewrite diff_from_states. fold old. rewrite elem_of_app, !list_elem_of_fmap.
    setoid_rewrite list_elem_of_filter. split.
    - intros [(p & [= -> ->] & Hp)|(s & [= -> ->] & Hn & Hs)].
      + rewrite (proj2 (state_of_Some old _ p Hb) (conj Hp eq_refl)). unfold state_of.
        by destruct (List.find _ (states a)).
      + rewrite (proj2 (state_of_None _ _) Hn), (proj2 (state_of_Some (states a) _ s Ha) (conj Hs eq_refl)). done.
    - intros E. destruct (state_of old id) as [p|] eqn:Ep.
      + left. apply state_of_Some in Ep as [Hp <-]; [|done]. exists p. split; [|done]. unfold prior_entry.
        f_equal. unfold state_of in E. by destruct (List.find _ (states a)); injection E.
      + right. apply state_of_None in Ep. destruct (state_of (states a) id) as [s|] eqn:Es; [|done].
        apply state_of_Some in Es as [Hs <-]; [|done]. injection E as <-. by exists s. }
  split_and!; [|exact Hd|].
  - unfold diff. rewrite diff_from_states. fold old. rewrite map_app, !map_map. apply NoDup_app. split_and!.
    + by rewrite (map_ext _ state_id) by done.
    + intros id (p & -> & Hp)%list_elem_of_fmap (s & E & [Hn _]%list_elem_of_filter)%list_elem_of_fmap.
      apply Hn. cbn in E. rewrite <- E. by apply list_elem_of_fmap_2.
    + rewrite (map_ext _ state_id) by done. clear -Ha. induction (states a) as [|s l IH]; [done|].
      cbn in Ha. apply NoDup_cons in Ha as [Hs Hl]. rewrite filter_cons. case_decide; [|by apply IH].
      cbn. constructor; [|by apply IH]. intros (x & E & [_ Hx]%list_elem_of_filter)%list_elem_of_fmap.
      apply Hs. rewrite E. by apply list_elem_of_fmap_2.
  - rewrite Forall_forall. split.
    + intros Hf id. destruct (change_of (state_of old id) (state_of (states a) id)) as [c|] eqn:E.
      * apply Hd in E as Hin. apply Hf in Hin. cbn in Hin. subst c.
        destruct (state_of old id) as [p|], (state_of (states a) id) as [s|]; cbn in E; try done.
        -- injection E as E. by apply classify_unchanged in E as ->.
        -- unfold new_entry in E. cbn in E. by destruct (status s).
      * by destruct (state_of old id), (state_of (states a) id).
    + intros Hs [id c] Hin. cbn. apply Hd in Hin. rewrite <- Hs in Hin.
      destruct (state_of old id) as [p|]; [|done]. injection Hin as <-. by apply classify_unchanged.
Qed.
End diff.

(** ** Witnesses *)

Section witnesses.
#[local] Existing Instance ex_json_Z.
#[local] Instance ex_int : IntJson := λ z, z.
#[local] Instance ex_sha : Sha256 := λ _, "0123456789abcdef0123456789abcdef".

Definition ex_trust : TrustPolicy := mk_TrustPolicy "issues" {["alice"]} "policy".
Definition ex_comment (id author : string) (order : Z) : OfflineComment :=
  mk_OfflineComment id author order 1 false id.
Definition ex_content : OfflineIssueContent :=
  mk_OfflineContent (mk_IssueMetadata 7 "alice" "OWNER" Open "now" false) "v1" "Title" "Body"
    [ex_comment "c1" "mallory" 0; ex_comment "c2" "alice" 1].
Definition ex_store : InMemoryArtifactStore := InMemoryArtifactStore_new 1000 100 0.

Lemma ex_comments_ok : Forall comment_ok (comments ex_content).
Proof. repeat constructor; cbn; try done; lia. Qed.

Lemma ex_content_ok : content_ok ex_content.
Proof.
  apply (offline_content_exact (metadata ex_content) "v1" "Title" "Body" (comments ex_content)).
  by vm_compute.
Qed.

Lemma ex_built :
  match snd (build_canonical_issue_artifact ex_trust ex_content ex_store) with Ok _ => true | Err _ => false end = true.
Proof. by vm_compute. Qed.

Lemma issue_artifact_exact_witness :
  ∃ store' x, build_canonical_issue_artifact ex_trust ex_content ex_store = (store', Ok x) ∧
    map included_id (included x) = ["issue-title"; "issue-body"; "c2"] ∧ map omitted_id (omissions x) = ["c1"].
Proof.
  destruct (build_canonical_issue_artifact ex_trust ex_content ex_store) as [store' r] eqn:E.
  destruct (issue_artifact_exact ex_trust ex_content ex_store store' r ltac:(by intros s) ex_content_ok ex_comments_ok
    ltac:(apply memory_new_wf; by vm_compute) E) as [_ Hr].
  pose proof ex_built as Hok. rewrite E in Hok. cbn [snd] in Hok. destruct r as [x|e]; [|done].
  destruct Hr as (_ & _ & Hp). exists store', x. split; [done|].
  rewrite (pub_included _ _ _ _ _ Hp), (pub_omitted _ _ _ _ _ Hp). by vm_compute.
Defined.

Definition ex_inventory (l : list ObjectState) : CanonicalIssueArtifact :=
  mk_Canonical "" (mk_ArtifactRef "" "") "" [] [] l "" "".
Definition ex_state (id : string) (s : ObjectStatus) : ObjectState := mk_ObjectState id 0 1 "alice" s.

Lemma issue_diff_exact_witness :
  NoDup (map diff_id (diff_from (ex_inventory [ex_state "a" (Included "1"); ex_state "b" (Included "2")])
                        (Some (ex_inventory [ex_state "a" (Included "0")])))).
Proof.
  apply (issue_diff_exact (ex_inventory [ex_state "a" (Included "1"); ex_state "b" (Included "2")])
    (Some (ex_inventory [ex_state "a" (Included "0")]))); cbn.
  - constructor; [set_solver|apply NoDup_singleton].
  - apply NoDup_singleton.
Defined.
End witnesses.
