(* ===== verification/IssueCard.v ===== *)
(** * Issue cards

    [workflow-runtime/src/issue_card.rs]: a planning card admitted from a
    canonical issue artifact, with bounded, sorted collections, an ordering key
    and a cache identity that seals every field.  A [ComponentId] and a
    [CapabilityId] are their strings; the derived [Serialize] implementations
    are written out in declaration order. *)

From S2P Require Import Prelude Hashing Json Text Order Wire Trust Frame Artifact.
From S2P Require Import TypedProtocol IssueArtifact.
From stdpp Require Import pretty.

(*| runtime/issue_card.rs 16-16 ISSUE_CARD_SCHEMA_VERSION_V1 *)
Definition ISSUE_CARD_SCHEMA_VERSION_V1 : Z := 1.
(*| runtime/issue_card.rs 18-18 ISSUE_CARD_PRIORITY_ORDER_VERSION_V1 *)
Definition ISSUE_CARD_PRIORITY_ORDER_VERSION_V1 : Z := 1.
(*| runtime/issue_card.rs 22-22 ISSUE_CARD_CACHE_SCHEMA_VERSION_V3 *)
Definition ISSUE_CARD_CACHE_SCHEMA_VERSION_V3 : Z := 3.
(*| runtime/issue_card.rs 24-24 ISSUE_CARD_MAX_IDENTIFIER_BYTES *)
Definition ISSUE_CARD_MAX_IDENTIFIER_BYTES : Z := 256.
(*| runtime/issue_card.rs 26-26 ISSUE_CARD_MAX_OBJECTIVE_BYTES *)
Definition ISSUE_CARD_MAX_OBJECTIVE_BYTES : Z := 4096.
(*| runtime/issue_card.rs 28-28 ISSUE_CARD_MAX_COLLECTION_ITEMS *)
Definition ISSUE_CARD_MAX_COLLECTION_ITEMS : nat := 64.
(*| runtime/issue_card.rs 30-30 ISSUE_CARD_MAX_SOURCE_EVIDENCE *)
Definition ISSUE_CARD_MAX_SOURCE_EVIDENCE : Z := 128.
(*| runtime/issue_card.rs 32-32 ISSUE_CARD_MAX_RENDERED_BYTES *)
Definition ISSUE_CARD_MAX_RENDERED_BYTES : Z := 32768.

(*| runtime/issue_card.rs 36-49 IssueCardError *)
Inductive IssueCardError :=
| EmptyField | FieldTooLong | CollectionTooLarge | InvalidSource | InvalidIdentity | RenderedTooLarge.
#[export] Instance IssueCardError_eq_dec : EqDecision IssueCardError.
Proof. solve_decision. Defined.

(*| runtime/issue_card.rs 70-78 validate_bounded_field *)
Definition validate_bounded_field (value : string) (max_bytes : Z) : result IssueCardError unit :=
  if is_blank value || any_control value then Err EmptyField
  else if (max_bytes <? str_len value)%Z then Err FieldTooLong
  else Ok tt.
(*| runtime/issue_card.rs 66-68 validate_field *)
Definition validate_field (value : string) : result IssueCardError unit :=
  validate_bounded_field value ISSUE_CARD_MAX_IDENTIFIER_BYTES.

Section append.
Context {T : Type} `{!EqDecision T} (cmp : T → T → comparison).

(*| runtime/issue_card.rs 84-95 append_bounded *)
Fixpoint append_values (incoming : nat) (values target : list T) : result IssueCardError (list T) :=
  match values with
  | [] => Ok target
  | value :: values =>
      if (incoming =? ISSUE_CARD_MAX_COLLECTION_ITEMS)%nat then Err CollectionTooLarge
      else if bool_decide (value ∈ target) then append_values (S incoming) values target
      else if (length target =? ISSUE_CARD_MAX_COLLECTION_ITEMS)%nat then Err CollectionTooLarge
      else append_values (S incoming) values (target ++ [value])
  end.
(*| runtime/issue_card.rs 80-98 append_bounded *)
Definition append_bounded `{!Comparator cmp} (target values : list T) : result IssueCardError (list T) :=
  l ← append_values 0 values target; Ok (sort_by cmp l).
End append.

(** ** Codes *)

(*| runtime/issue_card.rs 149-160 UnableReasonCode *)
Inductive UnableReasonCode :=
| MissingTrustedSource | UnsupportedInput | NotRouted | PolicyDenied | UnableInvalidInput.
(*| runtime/issue_card.rs 163-171 UnableReasonCode::as_code *)
Definition unable_code (r : UnableReasonCode) : string :=
  match r with
  | MissingTrustedSource => "missing_trusted_source" | UnsupportedInput => "unsupported_input"
  | NotRouted => "not_routed" | PolicyDenied => "policy_denied" | UnableInvalidInput => "invalid_input"
  end.

(*| runtime/issue_card.rs 177-188 AmbiguityReasonCode *)
Inductive AmbiguityReasonCode :=
| ConflictingSignals | MultipleOwners | MultipleTargets | MissingAcceptanceCriteria | InsufficientContext.
(*| runtime/issue_card.rs 191-199 AmbiguityReasonCode::as_code *)
Definition ambiguity_code (r : AmbiguityReasonCode) : string :=
  match r with
  | ConflictingSignals => "conflicting_signals" | MultipleOwners => "multiple_owners"
  | MultipleTargets => "multiple_targets" | MissingAcceptanceCriteria => "missing_acceptance_criteria"
  | InsufficientContext => "insufficient_context"
  end.

(*| runtime/issue_card.rs 103-110 Actionability *)
Inductive Actionability :=
| Actionable | Ambiguous (reason : AmbiguityReasonCode) | Unable (reason : UnableReasonCode).
(*| runtime/issue_card.rs 124-126 Actionability::is_actionable *)
Definition is_actionable (a : Actionability) : bool := match a with Actionable => true | _ => false end.
(*| runtime/issue_card.rs 129-135 Actionability::reason_code *)
Definition reason_code (a : Actionability) : option string :=
  match a with
  | Actionable => None | Ambiguous r => Some (ambiguity_code r) | Unable r => Some (unable_code r)
  end.
(*| runtime/issue_card.rs 137-143 Actionability::rank *)
Definition actionability_rank_of (a : Actionability) : Z :=
  match a with Unable _ => 0 | Ambiguous _ => 1 | Actionable => 2 end.

(*| runtime/issue_card.rs 384-390 PriorityImpact *)
Inductive PriorityImpact := ImpactUnknown | ImpactLow | ImpactMedium | ImpactHigh | ImpactCritical.
(*| runtime/issue_card.rs 395-401 PriorityUrgency *)
Inductive PriorityUrgency := UrgencyUnknown | UrgencyLow | UrgencyMedium | UrgencyHigh | UrgencyCritical.
(*| runtime/issue_card.rs 406-411 PriorityEffort *)
Inductive PriorityEffort := EffortUnknown | EffortSmall | EffortMedium | EffortLarge.
(*| runtime/issue_card.rs 416-421 PriorityDependency *)
Inductive PriorityDependency := DependencyUnknown | DependencyNone | DependsOn | Blocks.

(*| runtime/issue_card.rs 426-431 PriorityInputs *)
Record PriorityInputs := mk_PriorityInputs {
  impact : PriorityImpact; urgency : PriorityUrgency; effort : PriorityEffort;
  dependency : PriorityDependency }.

(*| runtime/issue_card.rs 577-585 impact_rank *)
Definition impact_rank_of (v : PriorityImpact) : Z :=
  match v with
  | ImpactUnknown => 0 | ImpactLow => 1 | ImpactMedium => 2 | ImpactHigh => 3 | ImpactCritical => 4
  end.
(*| runtime/issue_card.rs 587-595 urgency_rank *)
Definition urgency_rank_of (v : PriorityUrgency) : Z :=
  match v with
  | UrgencyUnknown => 0 | UrgencyLow => 1 | UrgencyMedium => 2 | UrgencyHigh => 3 | UrgencyCritical => 4
  end.
(*| runtime/issue_card.rs 597-603 dependency_rank *)
Definition dependency_rank_of (v : PriorityDependency) : Z :=
  match v with DependencyUnknown | DependencyNone => 0 | DependsOn => 1 | Blocks => 2 end.
(*| runtime/issue_card.rs 605-612 effort_rank *)
Definition effort_rank_of (v : PriorityEffort) : Z :=
  match v with EffortUnknown => 0 | EffortLarge => 1 | EffortMedium => 2 | EffortSmall => 3 end.

(*| runtime/issue_card.rs 1220-1228 impact_code *)
Definition impact_code (v : PriorityImpact) : string :=
  match v with
  | ImpactUnknown => "unknown" | ImpactLow => "low" | ImpactMedium => "medium" | ImpactHigh => "high"
  | ImpactCritical => "critical"
  end.
(*| runtime/issue_card.rs 1230-1238 urgency_code *)
Definition urgency_code (v : PriorityUrgency) : string :=
  match v with
  | UrgencyUnknown => "unknown" | UrgencyLow => "low" | UrgencyMedium => "medium" | UrgencyHigh => "high"
  | UrgencyCritical => "critical"
  end.
(*| runtime/issue_card.rs 1240-1247 effort_code *)
Definition effort_code (v : PriorityEffort) : string :=
  match v with
  | EffortUnknown => "unknown" | EffortSmall => "small" | EffortMedium => "medium" | EffortLarge => "large"
  end.
(*| runtime/issue_card.rs 1249-1256 dependency_code *)
Definition dependency_code (v : PriorityDependency) : string :=
  match v with
  | DependencyUnknown => "unknown" | DependencyNone => "none" | DependsOn => "depends_on"
  | Blocks => "blocks"
  end.

(*| runtime/issue_card.rs 491-497 PriorityReasonCode *)
Inductive PriorityReasonCode :=
| MissingImpact | MissingUrgency | MissingEffort | MissingDependency | NotCalibrated.
(*| runtime/issue_card.rs 1262-1271 write_reason_codes *)
Definition priority_reason_code (r : PriorityReasonCode) : string :=
  match r with
  | MissingImpact => "missing_impact" | MissingUrgency => "missing_urgency"
  | MissingEffort => "missing_effort" | MissingDependency => "missing_dependency"
  | NotCalibrated => "not_calibrated"
  end.

(*| runtime/issue_card.rs 469-485 PriorityInputs::reason_codes *)
Definition reason_codes (i : PriorityInputs) : list PriorityReasonCode :=
  (match impact i with ImpactUnknown => [MissingImpact] | _ => [] end) ++
  (match urgency i with UrgencyUnknown => [MissingUrgency] | _ => [] end) ++
  (match effort i with EffortUnknown => [MissingEffort] | _ => [] end) ++
  (match dependency i with DependencyUnknown => [MissingDependency] | _ => [] end) ++ [NotCalibrated].

(*| runtime/issue_card.rs 617-622 RiskCode *)
Inductive RiskCode := UncalibratedPriority | MissingPrerequisite | ExternalDependency | AmbiguousScope.
#[export] Instance RiskCode_eq_dec : EqDecision RiskCode.
Proof. solve_decision. Defined.
(*| runtime/issue_card.rs 1273-1280 risk_code *)
Definition risk_code (r : RiskCode) : string :=
  match r with
  | UncalibratedPriority => "uncalibrated_priority" | MissingPrerequisite => "missing_prerequisite"
  | ExternalDependency => "external_dependency" | AmbiguousScope => "ambiguous_scope"
  end.
(** The derived [Ord]: by the position of the variant. *)
Definition risk_index (r : RiskCode) : Z :=
  match r with
  | UncalibratedPriority => 0 | MissingPrerequisite => 1 | ExternalDependency => 2 | AmbiguousScope => 3
  end.
(*| runtime/issue_card.rs 617-622 RiskCode *)
Definition risk_cmp : RiskCode → RiskCode → comparison := cmp_by risk_index Z.compare.
#[export] Instance risk_cmp_exact : CmpExact risk_cmp.
Proof. intros x y E%Z.compare_eq. by destruct x, y. Qed.

(*| runtime/issue_card.rs 508-516 PriorityOrderKey *)
Record PriorityOrderKey := mk_OrderKey {
  key_version : Z; actionability_rank : Z; impact_rank : Z; urgency_rank : Z; dependency_rank : Z;
  effort_rank : Z; key_id : string }.
(*| runtime/issue_card.rs 534-544 PriorityOrderKey::new *)
Definition PriorityOrderKey_new (id : string) (a : Actionability) (i : PriorityInputs) : PriorityOrderKey :=
  mk_OrderKey ISSUE_CARD_PRIORITY_ORDER_VERSION_V1 (actionability_rank_of a) (impact_rank_of (impact i))
    (urgency_rank_of (urgency i)) (dependency_rank_of (dependency i)) (effort_rank_of (effort i)) id.

(** The derived [Ord]. *)
(*| runtime/issue_card.rs 508-516 PriorityOrderKey *)
Definition order_key_cmp : PriorityOrderKey → PriorityOrderKey → comparison :=
  cmp_then (cmp_by key_version Z.compare)
    (cmp_then (cmp_by actionability_rank Z.compare)
       (cmp_then (cmp_by impact_rank Z.compare)
          (cmp_then (cmp_by urgency_rank Z.compare)
             (cmp_then (cmp_by dependency_rank Z.compare)
                (cmp_then (cmp_by effort_rank Z.compare) (cmp_by key_id String.compare)))))).
#[export] Instance order_key_exact : CmpExact order_key_cmp.
Proof.
  intros x y E. unfold order_key_cmp, cmp_then, cmp_by in E. rewrite !lex_Eq in E.
  destruct E as (E1%Z.compare_eq & E2%Z.compare_eq & E3%Z.compare_eq & E4%Z.compare_eq & E5%Z.compare_eq &
    E6%Z.compare_eq & E7%String.compare_eq_iff). destruct x, y; cbn in *. congruence.
Qed.

(** ** The source binding *)

(*| runtime/issue_card.rs 260-264 SourceEvidence *)
Record SourceEvidence := mk_Evidence { ev_object_id : string; ev_digest : string; ev_span : SourceSpan }.
#[export] Instance SourceEvidence_eq_dec : EqDecision SourceEvidence.
Proof. solve_decision. Defined.
(*| runtime/issue_card.rs 279-287 SourceEvidence::from_included *)
Definition from_included (o : IncludedObject) : result IssueCardError SourceEvidence :=
  validate_field (included_id o);;
  validate_field (included_digest o);;
  Ok (mk_Evidence (included_id o) (included_digest o) (included_span o)).

(*| runtime/issue_card.rs 307-312 TrustedSourceBinding *)
Record TrustedSourceBinding := mk_Binding {
  content_hash : string; binding_aggregate : string; binding_policy : string;
  evidence : list SourceEvidence }.
#[export] Instance TrustedSourceBinding_eq_dec : EqDecision TrustedSourceBinding.
Proof. solve_decision. Defined.
(*| runtime/issue_card.rs 328-358 TrustedSourceBinding::from_artifact *)
Definition binding_from_artifact (a : CanonicalIssueArtifact) : result IssueCardError TrustedSourceBinding :=
  if (ISSUE_CARD_MAX_SOURCE_EVIDENCE <? zlength (included a))%Z then Err CollectionTooLarge
  else
    evidence ← traverse from_included (included a);
    if existsb (λ e, negb (str_eqb (span_artifact (ev_span e)) (artifact_content_id a))) evidence
    then Err InvalidSource
    else
      let content_hash := aref_sha256 (artifact_content_ref a) in
      validate_field content_hash;;
      validate_field (aggregate_digest a);;
      validate_field (artifact_policy_digest a);;
      match evidence with
      | [] => Err InvalidSource
      | _ => Ok (mk_Binding content_hash (aggregate_digest a) (artifact_policy_digest a) evidence)
      end.

(** ** The cache identity *)

(*| runtime/issue_card.rs 627-637 IssueCardCacheIdentity *)
Record IssueCardCacheIdentity := mk_CacheIdentity {
  cache_schema_version : Z; identity_aggregate : string; trusted_content_hash : string;
  identity_policy : string; model_id : string; prompt_version : string; identity_schema_version : Z;
  priority_order_version : Z; identity_digest : string }.
#[export] Instance IssueCardCacheIdentity_eq_dec : EqDecision IssueCardCacheIdentity.
Proof. solve_decision. Defined.
Definition set_digest (digest : string) (i : IssueCardCacheIdentity) : IssueCardCacheIdentity :=
  mk_CacheIdentity (cache_schema_version i) (identity_aggregate i) (trusted_content_hash i) (identity_policy i)
    (model_id i) (prompt_version i) (identity_schema_version i) (priority_order_version i) digest.

Definition z_text (n : Z) : string := pretty (Z.to_N n).

(*| runtime/issue_card.rs 689-700 IssueCardCacheIdentity::compute_digest *)
Definition identity_text (i : IssueCardCacheIdentity) (card : string) : string :=
  String.concat newline
    [z_text (cache_schema_version i); identity_aggregate i; trusted_content_hash i; identity_policy i;
     model_id i; prompt_version i; z_text (identity_schema_version i); z_text (priority_order_version i); card].
(*| runtime/issue_card.rs 688-702 IssueCardCacheIdentity::compute_digest *)
Definition compute_digest `{Sha256} (i : IssueCardCacheIdentity) (card : string) : string :=
  encode_hex (sha256 (identity_text i card)).

(*| runtime/issue_card.rs 658-686 IssueCardCacheIdentity::from_artifact *)
Definition identity_from_artifact `{Sha256} (a : CanonicalIssueArtifact) (model_id prompt_version : string) :
    result IssueCardError IssueCardCacheIdentity :=
  validate_field model_id;;
  validate_field prompt_version;;
  let content_hash := aref_sha256 (artifact_content_ref a) in
  validate_field (aggregate_digest a);;
  validate_field content_hash;;
  validate_field (artifact_policy_digest a);;
  let identity := mk_CacheIdentity ISSUE_CARD_CACHE_SCHEMA_VERSION_V3 (aggregate_digest a) content_hash
                    (artifact_policy_digest a) model_id prompt_version ISSUE_CARD_SCHEMA_VERSION_V1
                    ISSUE_CARD_PRIORITY_ORDER_VERSION_V1 "" in
  Ok (set_digest (compute_digest identity "") identity).

(** ** The card *)

(*| runtime/issue_card.rs 751-756 IssueCardCollectionInputs *)
Record IssueCardCollectionInputs := mk_Collections {
  in_components : list string; in_prerequisites : list string; in_capabilities : list string;
  in_risks : list RiskCode }.

(** The score has one value. *)
(*| runtime/issue_card.rs 778-793 IssueCardV1 *)
Record IssueCardV1 := mk_Card {
  card_schema_version : Z; card_id : string; objective : string; actionability : Actionability;
  priority_inputs : PriorityInputs; priority_reasons : list PriorityReasonCode;
  priority_order : PriorityOrderKey; components : list string; prerequisites : list string;
  capabilities : list string; risks : list RiskCode; source : TrustedSourceBinding;
  cache_identity : IssueCardCacheIdentity }.

Definition set_identity (i : IssueCardCacheIdentity) (c : IssueCardV1) : IssueCardV1 :=
  mk_Card (card_schema_version c) (card_id c) (objective c) (actionability c) (priority_inputs c)
    (priority_reasons c) (priority_order c) (components c) (prerequisites c) (capabilities c) (risks c)
    (source c) i.
Definition set_collections (cs ps caps : list string) (rs : list RiskCode) (c : IssueCardV1) : IssueCardV1 :=
  mk_Card (card_schema_version c) (card_id c) (objective c) (actionability c) (priority_inputs c)
    (priority_reasons c) (priority_order c) cs ps caps rs (source c) (cache_identity c).

(** *** Rendering *)

Definition quoted (value : string) : string := quote +:+ escape_markdown value +:+ quote.

(*| runtime/issue_card.rs 1258-1260 write_quoted *)
Definition write_quoted (label value : string) : string := label +:+ ": " +:+ quoted value +:+ newline.
(*| runtime/issue_card.rs 1282-1291 write_list *)
Definition write_list (label : string) (values : list string) : string :=
  label +:+ ": [" +:+ String.concat ", " (map quoted values) +:+ "]" +:+ newline.
(*| runtime/issue_card.rs 1212-1218 actionability_code *)
Definition actionability_code (a : Actionability) : string :=
  match a with
  | Actionable => "actionable"
  | Ambiguous r => "ambiguous:" +:+ ambiguity_code r
  | Unable r => "unable:" +:+ unable_code r
  end.

(*| runtime/issue_card.rs 1054-1134 IssueCardV1::render_markdown *)
Definition rendered (c : IssueCardV1) : string :=
  let i := priority_inputs c in let k := priority_order c in let s := source c in let ci := cache_identity c in
  "schema: issue-card-v1" +:+ newline +:+
  write_quoted "id" (card_id c) +:+
  write_quoted "objective" (objective c) +:+
  write_quoted "actionability" (actionability_code (actionability c)) +:+
  "priority_inputs: {impact: " +:+ quoted (impact_code (impact i)) +:+
  ", urgency: " +:+ quoted (urgency_code (urgency i)) +:+
  ", effort: " +:+ quoted (effort_code (effort i)) +:+
  ", dependency: " +:+ quoted (dependency_code (dependency i)) +:+ "}" +:+ newline +:+
  write_quoted "priority_score" "not_calibrated" +:+
  write_list "priority_reasons" (map priority_reason_code (priority_reasons c)) +:+
  write_list "components" (components c) +:+
  write_list "prerequisites" (prerequisites c) +:+
  write_list "capabilities" (capabilities c) +:+
  write_list "risks" (map risk_code (risks c)) +:+
  "priority_order: [version=" +:+ z_text (key_version k) +:+
  ", actionability=" +:+ z_text (actionability_rank k) +:+ ", impact=" +:+ z_text (impact_rank k) +:+
  ", urgency=" +:+ z_text (urgency_rank k) +:+ ", dependency=" +:+ z_text (dependency_rank k) +:+
  ", effort=" +:+ z_text (effort_rank k) +:+ ", id=" +:+ quoted (key_id k) +:+ "]" +:+ newline +:+
  "source: [content_hash=" +:+ quoted (content_hash s) +:+
  ", aggregate_digest=" +:+ quoted (binding_aggregate s) +:+
  ", policy_digest=" +:+ quoted (binding_policy s) +:+ "]" +:+ newline +:+
  String.concat "" (map (λ e,
    "reference: [object_id=" +:+ quoted (ev_object_id e) +:+ ", digest=" +:+ quoted (ev_digest e) +:+
    ", span=" +:+ quoted (span_artifact (ev_span e)) +:+ ":" +:+ z_text (span_start (ev_span e)) +:+ "-" +:+
    z_text (span_end (ev_span e)) +:+ "]" +:+ newline) (evidence s)) +:+
  "cache: [schema=" +:+ z_text (identity_schema_version ci) +:+
  ", order=" +:+ z_text (priority_order_version ci) +:+
  ", model=" +:+ quoted (model_id ci) +:+ ", prompt=" +:+ quoted (prompt_version ci) +:+
  ", aggregate_digest=" +:+ quoted (identity_aggregate ci) +:+
  ", digest=" +:+ quoted (identity_digest ci) +:+ "]" +:+ newline.
(*| runtime/issue_card.rs 1053-1142 IssueCardV1::render_markdown *)
Definition render_card (c : IssueCardV1) : result IssueCardError string :=
  if (ISSUE_CARD_MAX_RENDERED_BYTES <? str_len (rendered c))%Z then Err RenderedTooLarge
  else Ok (rendered c).
(*| runtime/issue_card.rs 1207-1209 IssueCardV1::ensure_render_budget *)
Definition ensure_render_budget (c : IssueCardV1) : result IssueCardError unit :=
  _ ← render_card c; Ok tt.

(** *** The sealed content *)

Section card.
Context `{IntJson, !Sha256}.

(*| runtime/issue_card.rs 103-110 Actionability *)
Definition actionability_value (a : Actionability) : Value :=
  match a with
  | Actionable => VString "actionable"
  | Ambiguous r => Object [("ambiguous", Object [("reason", VString (ambiguity_code r))])]
  | Unable r => Object [("unable", Object [("reason", VString (unable_code r))])]
  end.
(*| runtime/issue_card.rs 426-431 PriorityInputs *)
Definition inputs_value (i : PriorityInputs) : Value :=
  Object [("impact", VString (impact_code (impact i))); ("urgency", VString (urgency_code (urgency i)));
          ("effort", VString (effort_code (effort i)));
          ("dependency", VString (dependency_code (dependency i)))].
(*| runtime/issue_card.rs 508-516 PriorityOrderKey *)
Definition order_value (k : PriorityOrderKey) : Value :=
  Object [("version", jnum (key_version k)); ("actionability_rank", jnum (actionability_rank k));
          ("impact_rank", jnum (impact_rank k)); ("urgency_rank", jnum (urgency_rank k));
          ("dependency_rank", jnum (dependency_rank k)); ("effort_rank", jnum (effort_rank k));
          ("id", VString (key_id k))].
(*| runtime/issue_card.rs 260-264 SourceEvidence *)
Definition evidence_value (e : SourceEvidence) : Value :=
  Object [("object_id", VString (ev_object_id e)); ("digest", VString (ev_digest e));
          ("span", Object [("artifact_id", VString (span_artifact (ev_span e)));
                           ("start", jnum (span_start (ev_span e))); ("end", jnum (span_end (ev_span e)))])].
(*| runtime/issue_card.rs 307-312 TrustedSourceBinding *)
Definition source_value (s : TrustedSourceBinding) : Value :=
  Object [("content_hash", VString (content_hash s)); ("aggregate_digest", VString (binding_aggregate s));
          ("policy_digest", VString (binding_policy s)); ("evidence", Array (map evidence_value (evidence s)))].

(*| runtime/issue_card.rs 1179-1202 IssueCardV1::canonical_content *)
Definition canonical_value (c : IssueCardV1) : Value :=
  let i := cache_identity c in
  Object [("canonicalization_version", jnum 1); ("schema_version", jnum (card_schema_version c));
          ("id", VString (card_id c)); ("objective", VString (objective c));
          ("actionability", actionability_value (actionability c));
          ("priority_inputs", inputs_value (priority_inputs c)); ("priority_score", VString "NotCalibrated");
          ("priority_reasons", jstrings (map priority_reason_code (priority_reasons c)));
          ("priority_order", order_value (priority_order c)); ("components", jstrings (components c));
          ("prerequisites", jstrings (prerequisites c)); ("capabilities", jstrings (capabilities c));
          ("risks", jstrings (map risk_code (risks c))); ("source", source_value (source c));
          ("cache_schema_version", jnum (cache_schema_version i));
          ("aggregate_digest", VString (identity_aggregate i));
          ("trusted_content_hash", VString (trusted_content_hash i));
          ("policy_digest", VString (identity_policy i)); ("model_id", VString (model_id i));
          ("prompt_version", VString (prompt_version i));
          ("identity_schema_version", jnum (identity_schema_version i));
          ("priority_order_version", jnum (priority_order_version i))].
(*| runtime/issue_card.rs 1152-1205 IssueCardV1::canonical_content *)
Definition canonical_content (c : IssueCardV1) : string := compact (canonical_value c).

(** The digest does not depend on the digest it replaces. *)
Definition seal (c : IssueCardV1) : IssueCardV1 :=
  set_identity (set_digest (compute_digest (cache_identity c) (canonical_content c)) (cache_identity c)) c.

(*| runtime/issue_card.rs 1144-1150 IssueCardV1::reseal *)
Definition reseal (c : IssueCardV1) : result IssueCardError IssueCardV1 :=
  let c := seal (set_identity (set_digest "" (cache_identity c)) c) in
  ensure_render_budget c;; Ok c.

(*| runtime/issue_card.rs 879-935 IssueCardV1::assemble *)
Definition assemble (id objective : string) (a : Actionability) (i : PriorityInputs)
    (source : TrustedSourceBinding) (cache : IssueCardCacheIdentity) (l : IssueCardCollectionInputs) :
    result IssueCardError IssueCardV1 :=
  validate_field id;;
  validate_bounded_field objective ISSUE_CARD_MAX_OBJECTIVE_BYTES;;
  components ← append_bounded String.compare [] (in_components l);
  prerequisites ← append_bounded String.compare [] (in_prerequisites l);
  capabilities ← append_bounded String.compare [] (in_capabilities l);
  risks ← append_bounded risk_cmp [] (in_risks l);
  if (ISSUE_CARD_MAX_SOURCE_EVIDENCE <? zlength (evidence source))%Z ||
     negb (str_eqb (binding_aggregate source) (identity_aggregate cache)) ||
     negb (str_eqb (content_hash source) (trusted_content_hash cache)) ||
     negb (str_eqb (binding_policy source) (identity_policy cache))
  then Err InvalidIdentity
  else
    let card := seal (mk_Card ISSUE_CARD_SCHEMA_VERSION_V1 id objective a i (reason_codes i)
                        (PriorityOrderKey_new id a i) components prerequisites capabilities risks source cache) in
    ensure_render_budget card;; Ok card.

(*| runtime/issue_card.rs 819-845 IssueCardV1::from_artifact *)
Definition card_from_artifact (id objective : string) (a : Actionability) (i : PriorityInputs)
    (artifact : CanonicalIssueArtifact) (model_id prompt_version : string) :
    result IssueCardError IssueCardV1 :=
  source ← binding_from_artifact artifact;
  cache ← identity_from_artifact artifact model_id prompt_version;
  assemble id objective a i source cache (mk_Collections [] [] [] [UncalibratedPriority]).

(*| runtime/issue_card.rs 853-877 IssueCardV1::rehydrate *)
Definition rehydrate (id objective : string) (a : Actionability) (i : PriorityInputs)
    (artifact : CanonicalIssueArtifact) (source : TrustedSourceBinding) (cache : IssueCardCacheIdentity)
    (l : IssueCardCollectionInputs) : result IssueCardError IssueCardV1 :=
  expected_source ← binding_from_artifact artifact;
  expected ← assemble id objective a i source cache l;
  if negb (bool_decide (IssueCard.source expected = expected_source)) ||
     negb (bool_decide (cache = cache_identity expected))
  then Err InvalidIdentity else Ok expected.

(*| runtime/issue_card.rs 938-945 IssueCardV1::with_components *)
Definition with_components (values : list string) (c : IssueCardV1) : result IssueCardError IssueCardV1 :=
  l ← append_bounded String.compare (components c) values;
  reseal (set_collections l (prerequisites c) (capabilities c) (risks c) c).
(*| runtime/issue_card.rs 948-955 IssueCardV1::with_prerequisites *)
Definition with_prerequisites (values : list string) (c : IssueCardV1) : result IssueCardError IssueCardV1 :=
  l ← append_bounded String.compare (prerequisites c) values;
  reseal (set_collections (components c) l (capabilities c) (risks c) c).
(*| runtime/issue_card.rs 958-965 IssueCardV1::with_capabilities *)
Definition with_capabilities (values : list string) (c : IssueCardV1) : result IssueCardError IssueCardV1 :=
  l ← append_bounded String.compare (capabilities c) values;
  reseal (set_collections (components c) (prerequisites c) l (risks c) c).
(*| runtime/issue_card.rs 968-975 IssueCardV1::with_risks *)
Definition with_risks (values : list RiskCode) (c : IssueCardV1) : result IssueCardError IssueCardV1 :=
  l ← append_bounded risk_cmp (risks c) values;
  reseal (set_collections (components c) (prerequisites c) (capabilities c) l c).
End card.

(** ** Collections *)

Section collections.
Context {T : Type} `{!EqDecision T} (cmp : T → T → comparison) `{!Comparator cmp, !CmpExact cmp}.
Implicit Types (l target values : list T).

(** Sorted, without duplicates and bounded. *)
Record collection_ok l : Prop := {
  cl_sorted : StronglySorted (le_by cmp) l;
  cl_unique : NoDup l;
  cl_bounded : length l ≤ ISSUE_CARD_MAX_COLLECTION_ITEMS }.

Lemma sort_by_sorted_id l : StronglySorted (le_by cmp) l → sort_by cmp l = l.
Proof.
  intros Hs. apply (StronglySorted_unique_strong (le_by cmp));
    [|apply (StronglySorted_merge_sort _)|done|apply sort_by_Permutation].
  intros x y _ _ Hxy Hyx. apply (cmp_exact (cmp := cmp)). unfold le_by in *.
  rewrite (cmp_flip (cmp := cmp) x y) in Hyx. by destruct (cmp x y).
Qed.

Lemma append_values_Ok n values target l :
  append_values n values target = Ok l → NoDup target → length target ≤ ISSUE_CARD_MAX_COLLECTION_ITEMS →
  NoDup l ∧ length l ≤ ISSUE_CARD_MAX_COLLECTION_ITEMS ∧ (∀ x, x ∈ l ↔ x ∈ target ∨ x ∈ values).
Proof.
  revert n target. induction values as [|v values IH]; intros n target; cbn [append_values].
  - intros [= <-] Hnd Hl. split_and!; [done..|]. set_solver.
  - rewrite guard_Ok. intros [_ E] Hnd Hl. case_bool_decide as Hv.
    + apply IH in E as (? & ? & Hx); [|done..]. split_and!; [done..|]. set_solver.
    + apply guard_Ok in E as [Hf%Nat.eqb_neq E]. apply IH in E as (? & ? & Hx).
      * split_and!; [done..|]. set_solver.
      * apply NoDup_app. split_and!; [done| |apply NoDup_singleton]. set_solver.
      * rewrite length_app. cbn. lia.
Qed.

Lemma append_values_own n values target :
  NoDup (target ++ values) → length (target ++ values) ≤ ISSUE_CARD_MAX_COLLECTION_ITEMS →
  n + length values ≤ ISSUE_CARD_MAX_COLLECTION_ITEMS → append_values n values target = Ok (target ++ values).
Proof.
  revert n target. induction values as [|v values IH]; intros n target Hnd Hl Hn; cbn [append_values].
  - by rewrite app_nil_r.
  - rewrite length_app in Hl. cbn in Hl, Hn. destruct (Nat.eqb_spec n ISSUE_CARD_MAX_COLLECTION_ITEMS); [lia|].
    rewrite bool_decide_false by (apply NoDup_app in Hnd as (_ & Hnd & _); intros Hv; apply (Hnd v Hv); by left).
    destruct (Nat.eqb_spec (length target) ISSUE_CARD_MAX_COLLECTION_ITEMS); [lia|].
    change (v :: values) with ([v] ++ values) in *. rewrite app_assoc in *. apply IH; [done| |lia].
    rewrite !length_app. cbn. lia.
Qed.

Lemma append_bounded_Ok target values l :
  append_bounded cmp target values = Ok l → NoDup target →
  length target ≤ ISSUE_CARD_MAX_COLLECTION_ITEMS →
  collection_ok l ∧ ∀ x, x ∈ l ↔ x ∈ target ∨ x ∈ values.
Proof.
  intros (k & E & [= <-])%bind_Ok Hnd Hl. apply append_values_Ok in E as (Hk & Hb & Hx); [|done..]. split; [split|].
  - apply (StronglySorted_merge_sort _).
  - by rewrite sort_by_Permutation.
  - by rewrite sort_by_Permutation.
  - intros x. by rewrite sort_by_Permutation.
Qed.

Lemma append_fresh values l :
  append_bounded cmp [] values = Ok l → collection_ok l ∧ ∀ x, x ∈ l ↔ x ∈ values.
Proof.
  intros E. apply append_bounded_Ok in E as [Hc Hx]; [|constructor|cbn; lia]. split; [done|].
  intros x. rewrite Hx. set_solver.
Qed.

Lemma append_bounded_own l : collection_ok l → append_bounded cmp [] l = Ok l.
Proof.
  intros [Hs Hu Hb]. unfold append_bounded. rewrite append_values_own by done.
  cbn [mbind result_bind app]. by rewrite sort_by_sorted_id.
Qed.

Lemma collection_nil : collection_ok [].
Proof. split; [constructor|constructor|cbn; lia]. Qed.
End collections.

(** ** Sealed cards *)

Section sealed.
Context `{IntJson, !Sha256}.
Implicit Types (c : IssueCardV1).

(** What every card holds. *)
Record sealed c : Prop := {
  sl_version : card_schema_version c = ISSUE_CARD_SCHEMA_VERSION_V1;
  sl_id : validate_field (card_id c) = Ok tt;
  sl_objective : validate_bounded_field (objective c) ISSUE_CARD_MAX_OBJECTIVE_BYTES = Ok tt;
  sl_reasons : priority_reasons c = reason_codes (priority_inputs c);
  sl_order : priority_order c = PriorityOrderKey_new (card_id c) (actionability c) (priority_inputs c);
  sl_components : collection_ok String.compare (components c);
  sl_prerequisites : collection_ok String.compare (prerequisites c);
  sl_capabilities : collection_ok String.compare (capabilities c);
  sl_risks : collection_ok risk_cmp (risks c);
  sl_evidence : (zlength (evidence (source c)) ≤ ISSUE_CARD_MAX_SOURCE_EVIDENCE)%Z;
  sl_bound : binding_aggregate (source c) = identity_aggregate (cache_identity c) ∧
    content_hash (source c) = trusted_content_hash (cache_identity c) ∧
    binding_policy (source c) = identity_policy (cache_identity c);
  sl_digest : identity_digest (cache_identity c) = compute_digest (cache_identity c) (canonical_content c);
  sl_rendered : (str_len (rendered c) ≤ ISSUE_CARD_MAX_RENDERED_BYTES)%Z }.

Lemma render_budget c u : ensure_render_budget c = Ok u ↔ (str_len (rendered c) ≤ ISSUE_CARD_MAX_RENDERED_BYTES)%Z.
Proof.
  unfold ensure_render_budget, render_card. destruct u.
  destruct (Z.ltb_spec ISSUE_CARD_MAX_RENDERED_BYTES (str_len (rendered c))); cbn; split; (done || lia).
Qed.

Lemma seal_own c : identity_digest (cache_identity c) = compute_digest (cache_identity c) (canonical_content c) → seal c = c.
Proof. intros E. unfold seal. rewrite <- E. by destruct c as [? ? ? ? ? ? ? ? ? ? ? ? []]. Qed.

Lemma seal_digest c : identity_digest (cache_identity (seal c)) = compute_digest (cache_identity (seal c)) (canonical_content (seal c)).
Proof. reflexivity. Qed.

Lemma canonical_seal c : canonical_content (seal c) = canonical_content c.
Proof. reflexivity. Qed.

Lemma assemble_Ok id obj a i src cache l c :
  assemble id obj a i src cache l = Ok c →
  sealed c ∧ card_id c = id ∧ objective c = obj ∧ actionability c = a ∧ priority_inputs c = i ∧ source c = src ∧
  set_digest (identity_digest cache) (cache_identity c) = cache ∧
  (∀ x, x ∈ components c ↔ x ∈ in_components l) ∧ (∀ x, x ∈ prerequisites c ↔ x ∈ in_prerequisites l) ∧
  (∀ x, x ∈ capabilities c ↔ x ∈ in_capabilities l) ∧ (∀ x, x ∈ risks c ↔ x ∈ in_risks l).
Proof.
  intros ([] & Hid & E)%bind_Ok. apply bind_Ok in E as ([] & Hobj & E).
  apply bind_Ok in E as (cs & Hcs & E). apply bind_Ok in E as (ps & Hps & E).
  apply bind_Ok in E as (caps & Hcaps & E). apply bind_Ok in E as (rs & Hrs & E).
  apply guard_Ok in E as [Hb E]. cbv zeta in E. apply bind_Ok in E as ([] & Hr & [= <-]).
  apply append_fresh in Hcs as [Hcs Hcs'], Hps as [Hps Hps'], Hcaps as [Hcaps Hcaps'], Hrs as [Hrs Hrs'];
    try apply _.
  apply orb_false_iff in Hb as [Hb Hb4%negb_false_iff%str_eqb_eq].
  apply orb_false_iff in Hb as [Hb Hb3%negb_false_iff%str_eqb_eq].
  apply orb_false_iff in Hb as [Hb1 Hb2%negb_false_iff%str_eqb_eq].
  split.
  - split; try done; cbn [source seal set_identity evidence]; try done.
    + lia.
    + by apply render_budget in Hr.
  - cbn. split_and!; try done; [by destruct cache|set_solver..].
Qed.

Lemma assemble_own c :
  sealed c →
  assemble (card_id c) (objective c) (actionability c) (priority_inputs c) (source c) (cache_identity c)
    (mk_Collections (components c) (prerequisites c) (capabilities c) (risks c)) = Ok c.
Proof.
  intros Hs. pose proof (seal_own c (sl_digest c Hs)) as Hseal.
  destruct Hs as [K1 K2 K3 K4 K5 K6 K7 K8 K9 K10 (K11 & K12 & K13) _ K14].
  unfold assemble. cbn [in_components in_prerequisites in_capabilities in_risks].
  rewrite K2, K3, (append_bounded_own _ _ K6), (append_bounded_own _ _ K7), (append_bounded_own _ _ K8),
    (append_bounded_own _ _ K9). cbn [mbind result_bind].
  rewrite K11, K12, K13, !(proj2 (str_eqb_eq _ _) eq_refl).
  destruct (Z.ltb_spec ISSUE_CARD_MAX_SOURCE_EVIDENCE (zlength (evidence (source c)))); [lia|].
  cbn [negb orb]. rewrite <- K4, <- K5, <- K1.
  replace (mk_Card _ _ _ _ _ _ _ _ _ _ _ _ _) with c by by destruct c. rewrite Hseal.
  by rewrite (proj2 (render_budget c tt) K14).
Qed.

(** *** Growing a card *)

Inductive CardOp :=
| AddComponents (l : list string) | AddPrerequisites (l : list string)
| AddCapabilities (l : list string) | AddRisks (l : list RiskCode).
Definition apply_card_op (op : CardOp) : IssueCardV1 → result IssueCardError IssueCardV1 :=
  match op with
  | AddComponents l => with_components l | AddPrerequisites l => with_prerequisites l
  | AddCapabilities l => with_capabilities l | AddRisks l => with_risks l
  end.
Definition added_components (op : CardOp) : list string := match op with AddComponents l => l | _ => [] end.
Definition added_prerequisites (op : CardOp) : list string := match op with AddPrerequisites l => l | _ => [] end.
Definition added_capabilities (op : CardOp) : list string := match op with AddCapabilities l => l | _ => [] end.
Definition added_risks (op : CardOp) : list RiskCode := match op with AddRisks l => l | _ => [] end.

(** What growing a card leaves as it was. *)
Definition core c :=
  (card_id c, objective c, actionability c, priority_inputs c, source c, set_digest "" (cache_identity c)).

(** The collections of [c] are those of [c0] and what [ops] add. *)
Record grown (c0 : IssueCardV1) (ops : list CardOp) c : Prop := {
  gr_core : core c = core c0;
  gr_components x : x ∈ components c ↔ x ∈ components c0 ∨ x ∈ concat (map added_components ops);
  gr_prerequisites x : x ∈ prerequisites c ↔ x ∈ prerequisites c0 ∨ x ∈ concat (map added_prerequisites ops);
  gr_capabilities x : x ∈ capabilities c ↔ x ∈ capabilities c0 ∨ x ∈ concat (map added_capabilities ops);
  gr_risks x : x ∈ risks c ↔ x ∈ risks c0 ∨ x ∈ concat (map added_risks ops) }.

Lemma append_more {T} `{!EqDecision T} (cmp : T → T → comparison) `{!Comparator cmp, !CmpExact cmp} target values l :
  append_bounded cmp target values = Ok l → collection_ok cmp target →
  collection_ok cmp l ∧ ∀ x, x ∈ l ↔ x ∈ target ∨ x ∈ values.
Proof. intros E [_ Hu Hb]. exact (append_bounded_Ok cmp target values l E Hu Hb). Qed.

Lemma reseal_sealed c cs ps caps rs c' :
  sealed c → collection_ok String.compare cs → collection_ok String.compare ps →
  collection_ok String.compare caps → collection_ok risk_cmp rs →
  reseal (set_collections cs ps caps rs c) = Ok c' →
  sealed c' ∧ core c' = core c ∧ components c' = cs ∧ prerequisites c' = ps ∧ capabilities c' = caps ∧ risks c' = rs.
Proof.
  intros [K1 K2 K3 K4 K5 _ _ _ _ K10 K11 _ _] H1' H2' H3' H4' ([] & Hr & [= <-])%bind_Ok.
  apply render_budget in Hr. split; [|done]. by split.
Qed.

Lemma op_grows op c c' : sealed c → apply_card_op op c = Ok c' → sealed c' ∧ grown c [op] c'.
Proof.
  intros Hs E. pose proof Hs as [_ _ _ _ _ C1 C2 C3 C4 _ _ _ _].
  destruct op as [l|l|l|l]; cbn in E; apply bind_Ok in E as (k & Ek & E);
    apply (append_more _) in Ek as [Hk Hx]; try apply _; try done;
    apply reseal_sealed in E as (Hs' & Hcore & Ec & Ep & Ea & Er); try done; (split; [done|]);
    split; cbn [map concat added_components added_prerequisites added_capabilities added_risks]; try done;
    rewrite ?Ec, ?Ep, ?Ea, ?Er, ?app_nil_r; try done; set_solver.
Qed.

Lemma ops_grow ops c c' : sealed c → try_fold apply_card_op ops c = Ok c' → sealed c' ∧ grown c ops c'.
Proof.
  revert c. induction ops as [|op ops IH]; intros c Hs; cbn [try_fold].
  - intros [= <-]. split; [done|]. split; [done|..]; set_solver.
  - intros (c1 & E1 & E)%bind_Ok. apply op_grows in E1 as [Hs1 [G1 G2 G3 G4 G5]]; [|done].
    destruct (IH _ Hs1 E) as [Hs' [F1 F2 F3 F4 F5]]. split; [done|]. cbn in G2, G3, G4, G5. rewrite ?app_nil_r in *.
    split; [congruence|..]; intros x; cbn [map concat]; rewrite elem_of_app.
    + rewrite F2, G2. tauto.
    + rewrite F3, G3. tauto.
    + rewrite F4, G4. tauto.
    + rewrite F5, G5. tauto.
Qed.

(** A card is sealed from its admission on: however it is grown, its
    collections stay sorted, bounded and without duplicates and hold exactly
    what was added, its ordering key and reasons follow from its inputs, its
    Markdown stays within the limit, it stays bound to the artifact, model and
    prompt it was admitted with, and its digest is that of all its fields. *)
Theorem issue_card_sealed id obj a i artifact model prompt ops c0 c :
  card_from_artifact id obj a i artifact model prompt = Ok c0 →
  try_fold apply_card_op ops c0 = Ok c →
  sealed c ∧ grown c0 ops c ∧ components c0 = [] ∧ prerequisites c0 = [] ∧ capabilities c0 = [] ∧
  risks c0 = [UncalibratedPriority] ∧ binding_from_artifact artifact = Ok (source c) ∧
  card_id c = id ∧ objective c = obj ∧ actionability c = a ∧ priority_inputs c = i ∧
  model_id (cache_identity c) = model ∧ prompt_version (cache_identity c) = prompt.
Proof.
  intros (src & Hsrc & E)%bind_Ok Hops. apply bind_Ok in E as (cache & Hcache & E).
  assert (components c0 = [] ∧ prerequisites c0 = [] ∧ capabilities c0 = [] ∧ risks c0 = [UncalibratedPriority])
    as (Hc1 & Hc2 & Hc3 & Hc4).
  { unfold assemble in E. apply bind_Ok in E as (? & _ & E). apply bind_Ok in E as (? & _ & E).
    cbn in E. apply guard_Ok in E as [_ E]. cbv zeta in E. by apply bind_Ok in E as (? & _ & [= <-]). }
  apply assemble_Ok in E as (Hs & E1 & E2 & E3 & E4 & E5 & E6 & _).
  destruct (ops_grow ops c0 c Hs Hops) as [Hs' Hg]. pose proof (gr_core _ _ _ Hg) as Hcore.
  pose proof (f_equal snd Hcore : set_digest "" (cache_identity c) = set_digest "" (cache_identity c0)) as F6.
  pose proof (f_equal (λ x, x.1.2) Hcore : source c = source c0) as F5.
  pose proof (f_equal (λ x, x.1.1.2) Hcore : priority_inputs c = priority_inputs c0) as F4.
  pose proof (f_equal (λ x, x.1.1.1.2) Hcore : actionability c = actionability c0) as F3.
  pose proof (f_equal (λ x, x.1.1.1.1.2) Hcore : objective c = objective c0) as F2.
  pose proof (f_equal (λ x, x.1.1.1.1.1) Hcore : card_id c = card_id c0) as F1.
  clear Hcore.
  unfold identity_from_artifact in Hcache. rewrite !bind_Ok in Hcache.
  destruct Hcache as (? & _ & Hcache). apply bind_Ok in Hcache as (? & _ & Hcache). cbv zeta in Hcache.
  apply bind_Ok in Hcache as (? & _ & Hcache). apply bind_Ok in Hcache as (? & _ & Hcache).
  apply bind_Ok in Hcache as (? & _ & [= <-]).
  pose proof (f_equal model_id E6 : model_id (cache_identity c0) = model) as E7.
  pose proof (f_equal prompt_version E6 : prompt_version (cache_identity c0) = prompt) as E8.
  pose proof (f_equal model_id F6 : model_id (cache_identity c) = model_id (cache_identity c0)) as F7.
  pose proof (f_equal prompt_version F6 : prompt_version (cache_identity c) = prompt_version (cache_identity c0)) as F8.
  clear E6 F6. split_and!; congruence || done.
Qed.

(** ** Rehydration *)

Definition collections c : IssueCardCollectionInputs :=
  mk_Collections (components c) (prerequisites c) (capabilities c) (risks c).

Lemma own_rehydrates c artifact :
  sealed c → binding_from_artifact artifact = Ok (source c) →
  rehydrate (card_id c) (objective c) (actionability c) (priority_inputs c) artifact (source c)
    (cache_identity c) (collections c) = Ok c.
Proof.
  intros Hs Hb. unfold rehydrate, collections. rewrite Hb. cbn [mbind result_bind].
  rewrite assemble_own by done. cbn [mbind result_bind]. by rewrite !bool_decide_true.
Qed.

Definition field (n : nat) (v : Value) : Value :=
  match v with Object o => nth n (map snd o) Null | _ => Null end.

Lemma actionability_value_inj x y : actionability_value x = actionability_value y → x = y.
Proof. destruct x as [|r|r], y as [|r'|r']; try done; destruct r, r'; try done; by intros [=]. Qed.

Lemma inputs_value_inj x y : inputs_value x = inputs_value y → x = y.
Proof.
  destruct x as [a b c d], y as [a' b' c' d']. intros [= E1 E2 E3 E4].
  assert (a = a') as <- by by destruct a, a'. assert (b = b') as <- by by destruct b, b'.
  assert (c = c') as <- by by destruct c, c'. assert (d = d') as <- by by destruct d, d'. done.
Qed.

Lemma risks_inj l k : jstrings (map risk_code l) = jstrings (map risk_code k) → l = k.
Proof. intros E%jstrings_inj. apply list_fmap_eq_inj in E; [done|]. intros x y. by destruct x, y. Qed.

Lemma source_value_inj (Hnum : Inj (=) (=) int_number) x y : source_value x = source_value y → x = y.
Proof.
  destruct x as [a b c l], y as [a' b' c' l']. intros [= -> -> -> E]. f_equal.
  apply list_fmap_eq_inj in E; [done|]. intros [o d [s i j]] [o' d' [s' i' j']]. cbn.
  intros [= -> -> -> Ei Ej]. apply Hnum in Ei, Ej. by subst.
Qed.

Lemma canonical_inj (Hnum : Inj (=) (=) int_number) `{!JsonTextLaws} c c' :
  sealed c → sealed c' → cache_identity c = cache_identity c' → canonical_content c = canonical_content c' → c = c'.
Proof.
  intros Hs Hs' Hci E%compact_inj.
  pose proof (f_equal (field 2) E) as E2. pose proof (f_equal (field 3) E) as E3.
  pose proof (f_equal (field 4) E) as E4. pose proof (f_equal (field 5) E) as E5.
  pose proof (f_equal (field 9) E) as E9. pose proof (f_equal (field 10) E) as E10.
  pose proof (f_equal (field 11) E) as E11. pose proof (f_equal (field 12) E) as E12.
  pose proof (f_equal (field 13) E) as E13. clear E. cbn [field nth map snd canonical_value] in *.
  injection E2 as E2. injection E3 as E3. apply actionability_value_inj in E4. apply inputs_value_inj in E5.
  apply jstrings_inj in E9, E10, E11. apply risks_inj in E12. apply (source_value_inj Hnum) in E13.
  destruct Hs as [K1 _ _ K4 K5 _ _ _ _ _ _ _ _], Hs' as [L1 _ _ L4 L5 _ _ _ _ _ _ _ _].
  destruct c, c'. cbn in *. subst. congruence.
Qed.

Lemma identity_text_inj i x y : identity_text i x = identity_text i y → x = y.
Proof.
  assert (∀ a b c : string, a +:+ b = a +:+ c → b = c) as Hhead.
  { intros a b c. induction a as [|z a IH]; [done|]. cbn. by intros [= ?%IH]. }
  unfold identity_text. cbn [String.concat]. intros E. by repeat apply Hhead in E.
Qed.

(** C26. A card is read back exactly as it was sealed, and as nothing else: its
    own parts give the card again, and parts that are accepted with the card's
    cache identity are the card's own, unless two texts share a digest. *)
Theorem issue_card_tamper_evident (Hnum : Inj (=) (=) int_number) `{!JsonTextLaws} c artifact :
  sealed c → binding_from_artifact artifact = Ok (source c) →
  rehydrate (card_id c) (objective c) (actionability c) (priority_inputs c) artifact (source c)
    (cache_identity c) (collections c) = Ok c ∧
  ∀ id obj a i artifact' src l c',
    rehydrate id obj a i artifact' src (cache_identity c) l = Ok c' →
    no_collision (identity_text (cache_identity c) (canonical_content c'))
      (identity_text (cache_identity c) (canonical_content c)) →
    c' = c ∧ binding_from_artifact artifact' = Ok (source c) ∧ id = card_id c ∧ obj = objective c.
Proof.
  intros Hs Hb. split; [by apply own_rehydrates|].
  intros id obj a i artifact' src l c' (src' & Hsrc' & E)%bind_Ok Hn.
  apply bind_Ok in E as (x & Ex & E). apply guard_Ok in E as [Hg [= ->]].
  apply orb_false_iff in Hg as [Hg1%negb_false_iff%bool_decide_eq_true Hg2%negb_false_iff%bool_decide_eq_true].
  apply assemble_Ok in Ex as (Hs' & <- & <- & _). subst src'.
  assert (c' = c) as ->.
  { apply (canonical_inj Hnum); [done..|]. pose proof (sl_digest c Hs) as E1. pose proof (sl_digest c' Hs') as E2.
    rewrite <- Hg2 in E2. rewrite E1 in E2. unfold compute_digest in E2.
    apply (inj encode_hex) in E2. symmetry in E2. apply Hn in E2. by apply identity_text_inj in E2. }
  done.
Qed.
End sealed.

(** ** Cards of published artifacts *)

Section admitted.
Context `{IntJson, !Sha256}.

Lemma hex_no_control s : str_all is_lower_hex s = true → any_control s = false.
Proof.
  unfold str_all. induction s as [|a s IH]; [done|]. cbn [str_bytes forallb any_control].
  intros [Ha Hs]%andb_true_iff. rewrite (IH Hs).
  assert (48 ≤ byte_N a ≤ 102)%N as Hb.
  { unfold is_lower_hex, is_ascii_digit in Ha. rewrite orb_true_iff, !andb_true_iff, !N.leb_le in Ha. lia. }
  assert (is_ascii_control a = false) as ->.
  { unfold is_ascii_control. apply orb_false_iff. split; [apply N.leb_gt|apply N.eqb_neq]; lia. }
  unfold byte_eq. by rewrite (proj2 (N.eqb_neq (byte_N a) 194)) by lia.
Qed.

(** A digest's text, with or without its prefix, is a valid field. *)
Lemma digest_field prefix bytes :
  prefix = "" ∨ prefix = "sha256:" → String.length bytes = 32 →
  validate_field (prefix +:+ encode_hex bytes) = Ok tt.
Proof.
  intros Hp Hl. pose proof (encode_hex_lower bytes) as Hlow. pose proof (encode_hex_length bytes) as Hlen.
  unfold validate_field, validate_bounded_field.
  assert (any_control (prefix +:+ encode_hex bytes) = false) as ->.
  { apply hex_no_control in Hlow. destruct Hp as [->| ->]; [exact Hlow|]. revert Hlow Hlen.
    destruct (encode_hex bytes) as [|a s] eqn:Es; [cbn; lia|]. intros Hlow _.
    assert (Hin : is_lower_hex a = true).
    { pose proof (encode_hex_lower bytes) as Hl'. rewrite Es in Hl'. by apply andb_true_iff in Hl' as [? _]. }
    change (any_control ("sha256:" +:+ String a s)) with (any_control (String ":" (String a s))).
    cbn [any_control]. cbn [any_control] in Hlow. by rewrite Hlow. }
  assert (is_blank (prefix +:+ encode_hex bytes) = false) as ->.
  { destruct Hp as [->| ->]; [|by apply visible_not_blank]. cbn [String.append].
    destruct (encode_hex bytes) as [|a s]; [cbn in Hlen; lia|]. apply visible_not_blank.
    unfold str_all in Hlow. cbn [str_bytes forallb] in Hlow. apply andb_true_iff in Hlow as [Ha _].
    unfold is_lower_hex, is_ascii_digit in Ha. rewrite orb_true_iff, !andb_true_iff, !N.leb_le in Ha. lia. }
  cbn [orb]. rewrite str_len_app. unfold str_len. rewrite Hlen, Hl.
  by destruct Hp as [->| ->].
Qed.

(** Every artifact that is built can back a card, unless an included
    comment's identifier holds a control character: the binding names the same
    objects with the same spans, under the artifact's own digests. *)
Theorem built_artifact_admitted {S : Type} `{!ArtifactStore S, !ArtifactStoreLaws S, !StagingStore S, !StagingStoreLaws S}
    policy a (store store' : S) x :
  (∀ s, String.length (sha256 s) = 32) → String.length (trust_policy_digest policy) = 32 →
  content_ok a → Forall comment_ok (IssueArtifact.comments a) → store_wf store →
  build_canonical_issue_artifact policy a store = (store', Ok x) →
  Forall (λ c, any_control (comment_id c) = false) (trusted_comments policy a) →
  ∃ b, binding_from_artifact x = Ok b ∧ map ev_object_id (evidence b) = map included_id (included x) ∧
    map ev_span (evidence b) = map included_span (included x) ∧ binding_aggregate b = aggregate_digest x ∧
    content_hash b = "sha256:" +:+ artifact_content_id x.
Proof.
  intros Hsha Hpol Ha Hc Hwf E Hid.
  destruct (build_outcome policy a store store' _ Hsha Ha Hc Hwf E) as (_ & Hlen & _ & Hp).
  assert (Forall (λ o, validate_field (included_id o) = Ok tt) (included x)) as Hids.
  { apply Forall_forall. intros o Ho.
    assert (Forall (λ i, validate_field i = Ok tt) (map included_id (included x))) as Hall;
      [|rewrite Forall_forall in Hall; apply Hall, list_elem_of_fmap; by exists o].
    rewrite (pub_included _ _ _ _ _ Hp). constructor; [done|]. constructor; [done|].
    apply Forall_fmap, Forall_forall. intros c Hin. rewrite Forall_forall in Hid, Hc.
    assert (comment_ok c) as Hok by (apply Hc; by apply list_elem_of_filter in Hin as [_ Hin]).
    unfold compose, validate_field, validate_bounded_field. rewrite (Hid c Hin), (co_id c Hok). cbn [orb].
    pose proof (co_lengths c Hok) as (Hl & _). unfold MAX_IDENTITY, ISSUE_CARD_MAX_IDENTIFIER_BYTES in *.
    by destruct (Z.ltb_spec 256 (str_len (comment_id c))); [lia|]. }
  assert (Forall (λ o, validate_field (included_digest o) = Ok tt) (included x)) as Hdigests.
  { eapply Forall_impl; [exact (pub_digests _ _ _ _ _ Hp)|]. intros o [t ->]. apply (digest_field ""); auto. }
  assert (traverse from_included (included x) =
    Ok (map (λ o, mk_Evidence (included_id o) (included_digest o) (included_span o)) (included x))) as Ht.
  { apply traverse_Ok. clear -Hids Hdigests. induction (included x) as [|o l IH]; cbn; [constructor|].
    apply Forall_cons in Hids as [Hi Hids], Hdigests as [Hd Hdigests]. constructor; [|by apply IH].
    unfold from_included. by rewrite Hi, Hd. }
  assert (length (included x) = 2 + length (trusted_comments policy a)) as Hn.
  { rewrite <- (length_map included_id), (pub_included _ _ _ _ _ Hp). cbn. by rewrite length_map. }
  assert (length (trusted_comments policy a) ≤ length (IssueArtifact.comments a)) as Hle by apply length_filter.
  unfold binding_from_artifact. unfold MAX_DIRECT_COMMENTS, ISSUE_CARD_MAX_SOURCE_EVIDENCE, zlength in *.
  destruct (Z.ltb_spec 128 (Z.of_nat (length (included x)))); [lia|]. rewrite Ht. cbn [mbind result_bind].
  assert (existsb _ _ = false) as ->.
  { pose proof (pub_spans _ _ _ _ _ Hp) as Hs. clear -Hs. revert Hs.
    generalize (title a :: body a :: map comment_bytes (trusted_comments policy a)). generalize (included x).
    induction 1 as [|o bytes l k [Ho _] _ IH]; [done|]. cbn. by rewrite Ho, (proj2 (str_eqb_eq _ _) eq_refl). }
  assert (validate_field (aref_sha256 (artifact_content_ref x)) = Ok tt) as ->.
  { rewrite (pub_ref _ _ _ _ _ Hp), (pub_id _ _ _ _ _ Hp). apply (digest_field "sha256:"); auto. }
  assert (validate_field (aggregate_digest x) = Ok tt) as ->.
  { rewrite (pub_aggregate _ _ _ _ _ Hp). apply (digest_field ""); auto. }
  assert (validate_field (artifact_policy_digest x) = Ok tt) as ->.
  { rewrite (pub_policy _ _ _ _ _ Hp). apply (digest_field ""); auto. }
  cbn [mbind result_bind]. destruct (included x) as [|o l]; [done|]. cbn [map].
  eexists. split; [done|]. cbn. rewrite !map_map. split_and!; try done. by rewrite (pub_ref _ _ _ _ _ Hp).
Qed.
End admitted.

(** ** Witnesses *)

Section witnesses.
#[local] Existing Instance ex_json_Z.
#[local] Existing Instance ex_json_Z_laws.
#[local] Instance ex_int : IntJson := λ z, z.
#[local] Instance ex_sha : Sha256 := λ s, s.

Definition ex_artifact : CanonicalIssueArtifact :=
  mk_Canonical "aa" (mk_ArtifactRef "aa" "sha256:aa") "m" [mk_Included "issue-title" "d" (mk_SourceSpan "aa" 0 5)]
    [] [] "policy" "aggregate".
Definition ex_inputs : PriorityInputs := mk_PriorityInputs ImpactHigh UrgencyLow EffortSmall DependencyNone.
Definition ex_card : result IssueCardError IssueCardV1 :=
  card_from_artifact "card" "do it" Actionable ex_inputs ex_artifact "model" "p1".
Definition ex_ops : list CardOp := [AddComponents ["b"; "a"; "b"]; AddRisks [AmbiguousScope]].

Lemma ex_card_ok : match ex_card ≫= try_fold apply_card_op ex_ops with Ok _ => true | Err _ => false end = true.
Proof. by vm_compute. Qed.

Lemma ex_grown : ∃ c0 c, ex_card = Ok c0 ∧ try_fold apply_card_op ex_ops c0 = Ok c.
Proof.
  pose proof ex_card_ok as Hok. destruct ex_card as [c0|] eqn:E0; [|done]. cbn [mbind result_bind] in Hok.
  destruct (try_fold apply_card_op ex_ops c0) as [c|] eqn:E; [|discriminate Hok]. exists c0, c. split; [reflexivity|exact E].
Qed.

Lemma issue_card_sealed_witness :
  ∃ c0 c, ex_card = Ok c0 ∧ try_fold apply_card_op ex_ops c0 = Ok c ∧ sealed c ∧ "a" ∈ components c ∧
    AmbiguousScope ∈ risks c.
Proof.
  destruct ex_grown as (c0 & c & E0 & E). exists c0, c. split; [done|]. split; [done|].
  destruct (issue_card_sealed _ _ _ _ _ _ _ ex_ops c0 c E0 E) as (Hs & Hg & _). split; [done|]. split.
  - apply (gr_components _ _ _ Hg). right. clear. cbn. set_solver.
  - apply (gr_risks _ _ _ Hg). right. clear. cbn. set_solver.
Defined.

Lemma issue_card_tamper_evident_witness :
  ∃ c, sealed c ∧ rehydrate (card_id c) (objective c) (actionability c) (priority_inputs c) ex_artifact (source c)
    (cache_identity c) (collections c) = Ok c.
Proof.
  destruct ex_grown as (c0 & c & E0 & E). exists c.
  destruct (issue_card_sealed _ _ _ _ _ _ _ ex_ops c0 c E0 E) as (Hs & _ & _ & _ & _ & _ & Hb & _).
  assert (Inj (=) (=) (int_number (IntJson := ex_int))) as Hnum by by intros ???.
  destruct (issue_card_tamper_evident Hnum c ex_artifact Hs Hb) as [Hr _]. by split.
Defined.
End witnesses.
