(* ===== verification/IssueScc.v ===== *)
(** * Strongly connected components of an issue graph

    [workflow-runtime/src/issue_plan.rs]: [strongly_connected] and
    [SccState::visit], a depth-first search that numbers the nodes and pops a
    component when its root is left.  A graph is its map of successors; an
    operation is [None] where the code would panic on a missing key or the
    recursion would go past [fuel], and the theorems show that neither
    happens. *)

From S2P Require Import Prelude Order.

(** [BTreeMap<String, BTreeSet<String>>]. *)
Abbreviation graph := (gmap string (gset string)).
(** [g.get(v).into_iter().flatten()]. *)
(*| runtime/issue_plan.rs 459-465 SccState::visit *)
Definition neighbors (g : graph) (v : string) : list string :=
  match g !! v with Some s => btree_elements s | None => [] end.
Definition edge (g : graph) (x y : string) : Prop := ∃ s, g !! x = Some s ∧ y ∈ s.
(** Every successor is a node. *)
Definition closed (g : graph) : Prop := ∀ x y, edge g x y → y ∈ dom g.

(** A loop whose body can stop. *)
Fixpoint fold_some {A S : Type} (f : A → S → option S) (l : list A) (s : S) : option S :=
  match l with
  | [] => Some s
  | x :: l => s ← f x s; fold_some f l s
  end.

Lemma elem_of_neighbors g x y : y ∈ neighbors g x ↔ edge g x y.
Proof.
  unfold neighbors, edge. destruct (g !! x) as [s|]; [|set_solver].
  rewrite elem_of_btree_elements. naive_solver.
Qed.
Lemma edge_dom g x y : edge g x y → x ∈ dom g.
Proof. intros (s & E & _). by apply elem_of_dom_2 in E. Qed.

(** ** The search *)

(*| runtime/issue_plan.rs 422-430 SccState *)
Record SccState := mk_Scc {
  index : gmap string nat; low : gmap string nat; stack : list string; stacked : gset string;
  next : nat; cycles : list (list string) }.

Section visit.
Context (g : graph).

(*| runtime/issue_plan.rs 453-458 SccState::visit *)
Definition enter (v : string) (st : SccState) : SccState :=
  mk_Scc (<[v := next st]> (index st)) (<[v := next st]> (low st)) (v :: stack st) ({[v]} ∪ stacked st)
    (S (next st)) (cycles st).

Definition set_low (m : gmap string nat) (st : SccState) : SccState :=
  mk_Scc (index st) m (stack st) (stacked st) (next st) (cycles st).
(** [*own_low = ( *own_low).min(n)]. *)
(*| runtime/issue_plan.rs 470-471 SccState::visit *)
Definition lower_to (v : string) (n : nat) (st : SccState) : option SccState :=
  own ← low st !! v; Some (set_low (<[v := own `min` n]> (low st)) st).

(** One neighbor of [v]; [rec] is the recursive call. *)
(*| runtime/issue_plan.rs 467-476 SccState::visit *)
Definition visit_neighbor (rec : string → SccState → option SccState) (v n : string) (st : SccState) :
    option SccState :=
  match index st !! n with
  | None => st' ← rec n st; neighbor_low ← low st' !! n; lower_to v neighbor_low st'
  | Some _ =>
      if bool_decide (n ∈ stacked st) then neighbor_index ← index st !! n; lower_to v neighbor_index st
      else Some st
  end.

(** The component is popped down to its root. *)
(*| runtime/issue_plan.rs 479-487 SccState::visit *)
Fixpoint pop_until (v : string) (stack : list string) (stacked : gset string) (component : list string) :
    list string * gset string * list string :=
  match stack with
  | [] => ([], stacked, component)
  | member :: rest =>
      let stacked := stacked ∖ {[member]} in let component := component ++ [member] in
      if bool_decide (member = v) then (rest, stacked, component) else pop_until v rest stacked component
  end.

(*| runtime/issue_plan.rs 478-492 SccState::visit *)
Definition finish (v : string) (st : SccState) : option SccState :=
  own_low ← low st !! v;
  own_index ← index st !! v;
  if (own_low =? own_index)%nat then
    let '(rest, stacked, popped) := pop_until v (stack st) (stacked st) [] in
    let component := sort_by_key id popped in
    let popped_state cycles := mk_Scc (index st) (low st) rest stacked (next st) cycles in
    if (1 <? length component)%nat then Some (popped_state (cycles st ++ [component]))
    else
      s ← (g !! v : option (gset string));
      Some (popped_state (if bool_decide (v ∈ s) then cycles st ++ [component] else cycles st))
  else Some st.

(*| runtime/issue_plan.rs 451-494 SccState::visit *)
Fixpoint visit (fuel : nat) (v : string) (st : SccState) : option SccState :=
  match fuel with
  | O => None
  | S fuel =>
      st ← fold_some (visit_neighbor (visit fuel) v) (neighbors g v) (enter v st);
      finish v st
  end.

(*| runtime/issue_plan.rs 442-446 strongly_connected *)
Definition visit_new (fuel : nat) (v : string) (st : SccState) : option SccState :=
  match index st !! v with Some _ => Some st | None => visit fuel v st end.

(** The recursion enters every node at most once. *)
(*| runtime/issue_plan.rs 431-449 strongly_connected *)
Definition strongly_connected : option (list (list string)) :=
  st ← fold_some (visit_new (size (dom g))) (btree_elements (dom g)) (mk_Scc ∅ ∅ [] ∅ 0 []);
  Some (sort_by (cmp_list String.compare) (cycles st)).
End visit.

(** ** What a component is *)

Definition reach (g : graph) : relation string := rtc (edge g).
(** [x] is on a cycle. *)
Definition cyclic (g : graph) (x : string) : Prop := tc (edge g) x x.
Definition scc (g : graph) (x : string) (c : list string) : Prop :=
  NoDup c ∧ StronglySorted (key_le id) c ∧ ∀ y, y ∈ c ↔ reach g x y ∧ reach g y x.

Lemma reach_step g x y : edge g x y → reach g x y.
Proof. apply rtc_once. Qed.
#[export] Instance reach_preorder g : PreOrder (reach g).
Proof. split; [intros x; constructor|intros x y z; apply rtc_trans]. Qed.

(** A set closed under the edges holds what it reaches. *)
Lemma reach_closed g (P : string → Prop) x y :
  (∀ a b, P a → edge g a b → P b) → reach g x y → P x → P y.
Proof. intros HP. induction 1; eauto. Qed.

Lemma scc_unique g x y c d :
  scc g x c → scc g y d → reach g x y → reach g y x → c = d.
Proof.
  intros (Hc & Sc & Ec) (Hd & Sd & Ed) Hxy Hyx.
  apply (StronglySorted_unique (key_le id)); [done..|].
  apply NoDup_Permutation; [done..|]. intros z. rewrite Ec, Ed.
  split; intros [? ?]; split; (etrans; [eassumption|done]) || (etrans; [done|eassumption]).
Qed.

(** ** The invariant of the search

    [gray] holds the nodes whose visit is under way. *)

Definition idx (st : SccState) (x : string) : nat := index st !!! x.

Section inv.
Context (g : graph).

Definition finished (st : SccState) (x : string) : Prop := x ∈ dom (index st) ∧ x ∉ stack st.

Definition cycles_ok (st : SccState) : Prop :=
  NoDup (cycles st) ∧
  (∀ c, c ∈ cycles st → ∃ x, finished st x ∧ cyclic g x ∧ scc g x c) ∧
  ∀ x, finished st x → cyclic g x → ∃ c, c ∈ cycles st ∧ scc g x c.

Record inv (gray : list string) (st : SccState) : Prop := {
  iv_low : dom (low st) = dom (index st);
  iv_next x : x ∈ dom (index st) → idx st x < next st;
  iv_sorted : StronglySorted (λ x y, idx st y < idx st x) (stack st);
  iv_stack x : x ∈ stack st → x ∈ dom (index st);
  iv_nodes : dom (index st) ⊆ dom g;
  iv_stacked : stacked st = list_to_set (stack st);
  iv_gray x : x ∈ gray → x ∈ stack st;
  iv_reach x y : x ∈ stack st → y ∈ stack st → idx st x ≤ idx st y → reach g x y;
  iv_back y : y ∈ stack st → ∃ z, z ∈ gray ∧ idx st z ≤ idx st y ∧ reach g y z;
  iv_black x y : x ∈ dom (index st) → x ∉ gray → edge g x y → y ∈ dom (index st);
  iv_done x y : finished st x → edge g x y → finished st y;
  iv_cycles : cycles_ok st }.

(** What a visit of [v] from [st] leaves: [ext] are the nodes it left on the
    stack. *)
Record visited (gray : list string) (v : string) (st : SccState) (ext : list string) (st' : SccState) : Prop := {
  vi_inv : inv gray st';
  vi_stack : stack st' = ext ++ stack st;
  vi_index : index st ⊆ index st';
  vi_own : index st' !! v = Some (next st);
  vi_old x : x ∈ dom (index st) → low st' !! x = low st !! x;
  vi_low : ∃ l, low st' !! v = Some l ∧
    (l = next st ∧ ext = [] ∨ ∃ w, w ∈ stack st ∧ idx st' w = l ∧ reach g v w) ∧
    ∀ x y, x ∈ ext → y ∈ stack st → edge g x y → l ≤ idx st' y }.

(** The loop over the neighbors of [v], of which [P] are done. *)
Record looping (gray : list string) (v : string) (st0 : SccState) (P : string → Prop)
    (ext : list string) (st : SccState) : Prop := {
  lo_start : inv gray st0;
  lo_fresh : v ∉ dom (index st0);
  lo_inv : inv (v :: gray) st;
  lo_stack : stack st = ext ++ v :: stack st0;
  lo_index : index st0 ⊆ index st;
  lo_own : index st !! v = Some (next st0);
  lo_old x : x ∈ dom (index st0) → low st !! x = low st0 !! x;
  lo_low : ∃ l w, low st !! v = Some l ∧ w ∈ stack st ∧ idx st w = l ∧ reach g v w ∧ l ≤ next st0 ∧
    (∀ x y, x ∈ ext → y ∈ stack st0 → edge g x y → l ≤ idx st y) ∧
    (∀ y, P y → y ∈ dom (index st) ∧ (y ∈ stack st0 → l ≤ idx st y)) }.

Lemma idx_mono st st' x : index st ⊆ index st' → x ∈ dom (index st) → idx st' x = idx st x.
Proof.
  intros Hs [i Hi]%elem_of_dom. unfold idx. rewrite (lookup_total_correct _ _ _ Hi).
  by apply lookup_total_correct, (lookup_weaken _ _ _ _ Hi).
Qed.
Lemma index_mono st st' x : index st ⊆ index st' → x ∈ dom (index st) → x ∈ dom (index st').
Proof. intros Hs%subseteq_dom. set_solver. Qed.

Lemma stack_NoDup gray st : inv gray st → NoDup (stack st).
Proof.
  intros Hi. pose proof (iv_sorted _ _ Hi) as Hs. induction Hs as [|x l _ IH Hx]; constructor; [|done].
  intros Hin. rewrite Forall_forall in Hx. apply Hx in Hin. lia.
Qed.

Lemma inv_set_low gray st m : inv gray st → dom m = dom (low st) → inv gray (set_low m st).
Proof. intros [] Hm. split; try done. cbn. by rewrite Hm. Qed.

Lemma finished_reach gray st x y : inv gray st → finished st x → reach g x y → finished st y.
Proof. intros Hi Hx Hr. by apply (reach_closed g (finished st) x y); [apply (iv_done _ _ Hi)|..]. Qed.

(** *** Entering a node *)

Lemma idx_enter st v x : idx (enter v st) x = if decide (x = v) then next st else idx st x.
Proof.
  unfold idx. cbn. rewrite lookup_total_insert. by destruct (decide (v = x)), (decide (x = v)).
Qed.

Lemma finished_enter st v x : v ∉ dom (index st) → finished (enter v st) x ↔ finished st x.
Proof. unfold finished. cbn. rewrite dom_insert_L. set_solver. Qed.

Lemma cycles_ok_iff st st' :
  cycles st' = cycles st → (∀ x, finished st' x ↔ finished st x) → cycles_ok st → cycles_ok st'.
Proof.
  intros E Hf (Hn & H1 & H2). unfold cycles_ok. rewrite E. split; [done|]. split.
  - intros c (x & Hx & ?)%H1. exists x. by rewrite Hf.
  - intros x Hx%Hf. by apply H2.
Qed.

Lemma enter_inv gray v st :
  inv gray st → v ∉ dom (index st) → v ∈ dom g → (∀ z, z ∈ gray → reach g z v) →
  inv (v :: gray) (enter v st).
Proof.
  intros Hi Hv Hg Hgray.
  assert (Hstack : v ∉ stack st) by (intros ?%(iv_stack _ _ Hi); done).
  assert (Hold : ∀ x, x ∈ stack st → idx (enter v st) x = idx st x ∧ idx st x < next st).
  { intros x Hx. rewrite idx_enter, decide_False by (intros ->; done). split; [done|].
    by apply (iv_next _ _ Hi), (iv_stack _ _ Hi). }
  assert (Hnew : idx (enter v st) v = next st) by (rewrite idx_enter; by rewrite decide_True).
  split; cbn [enter index low stack stacked next cycles].
  - rewrite !dom_insert_L. by rewrite (iv_low _ _ Hi).
  - intros x Hx. rewrite dom_insert_L in Hx. rewrite idx_enter. case_decide; [lia|].
    assert (x ∈ dom (index st)) as Hin by set_solver. apply (iv_next _ _ Hi) in Hin. lia.
  - constructor.
    + pose proof (iv_sorted _ _ Hi) as Hs. assert (Hin : ∀ x, x ∈ stack st → x ∈ stack st) by done. revert Hs Hin.
      generalize (stack st) at 1 2 4. induction 1 as [|x l Hs IH Hx]; intros Hin; constructor.
      * apply IH. set_solver.
      * rewrite Forall_forall in Hx |- *. intros y Hy. destruct (Hold x), (Hold y); [set_solver..|].
        specialize (Hx y Hy). lia.
    + apply Forall_forall. intros y Hy. destruct (Hold y Hy). lia.
  - intros x. rewrite dom_insert_L, elem_of_cons. pose proof (iv_stack _ _ Hi x). set_solver.
  - rewrite dom_insert_L. pose proof (iv_nodes _ _ Hi). set_solver.
  - rewrite (iv_stacked _ _ Hi). done.
  - intros x. rewrite !elem_of_cons. pose proof (iv_gray _ _ Hi x). tauto.
  - intros x y. rewrite !elem_of_cons. intros [->|Hx] [->|Hy] Hle; [done|..].
    + destruct (Hold y Hy). lia.
    + destruct (iv_back _ _ Hi x Hx) as (z & Hz & _ & Hr). etrans; [exact Hr|auto].
    + destruct (Hold x Hx), (Hold y Hy). apply (iv_reach _ _ Hi); [done..|lia].
  - intros y. rewrite elem_of_cons. intros [->|Hy]; [exists v; set_solver|].
    destruct (iv_back _ _ Hi y Hy) as (z & Hz & Hle & Hr). exists z.
    destruct (Hold y Hy), (Hold z (iv_gray _ _ Hi z Hz)). split; [set_solver|]. split; [lia|done].
  - intros x y. rewrite !dom_insert_L. intros Hx Hn He.
    assert (y ∈ dom (index st)); [|set_solver]. apply (iv_black _ _ Hi x y); set_solver.
  - intros x y. rewrite !finished_enter by done. apply (iv_done _ _ Hi).
  - apply (cycles_ok_iff st); [done| |by apply (iv_cycles _ _ Hi)]. intros x. by apply finished_enter.
Qed.

Lemma enter_looping gray v st :
  inv gray st → v ∉ dom (index st) → v ∈ dom g → (∀ z, z ∈ gray → reach g z v) →
  looping gray v st (λ _, False) [] (enter v st).
Proof.
  intros Hi Hv Hg Hgray. split; cbn [enter index low stack next]; try done.
  - by apply enter_inv.
  - apply insert_subseteq. by apply not_elem_of_dom.
  - by rewrite lookup_insert_eq.
  - intros x Hx. rewrite lookup_insert_ne by (intros ->; done). done.
  - exists (next st), v. rewrite lookup_insert_eq. split; [done|]. split; [by left|].
    split; [rewrite idx_enter; by rewrite decide_True|]. split; [done|]. split; [done|].
    split; [intros x y Hx; by apply elem_of_nil in Hx|done].
Qed.

(** *** One neighbor *)

Section neighbor.
Context (gray : list string) (v : string) (st0 : SccState).

Lemma own_index st P ext : looping gray v st0 P ext st → idx st v = next st0.
Proof. intros Hl. apply lookup_total_correct, (lo_own _ _ _ _ _ _ Hl). Qed.

Lemma old_below st P ext y :
  looping gray v st0 P ext st → y ∈ stack st0 →
  y ∈ dom (index st) ∧ idx st y = idx st0 y ∧ idx st y < next st0.
Proof.
  intros Hl Hy. pose proof (lo_index _ _ _ _ _ _ Hl) as Hx.
  assert (y ∈ dom (index st0)) as Hd by by apply (iv_stack _ _ (lo_start _ _ _ _ _ _ Hl)).
  rewrite (idx_mono st0 st y) by done. split; [by apply (index_mono st0 st)|]. split; [done|].
  by apply (iv_next _ _ (lo_start _ _ _ _ _ _ Hl)).
Qed.

Lemma above_own st P ext y :
  looping gray v st0 P ext st → y ∈ ext → next st0 < idx st y ∧ y ≠ v ∧ y ∉ stack st0.
Proof.
  intros Hl Hy. pose proof (iv_sorted _ _ (lo_inv _ _ _ _ _ _ Hl)) as Hs.
  rewrite (lo_stack _ _ _ _ _ _ Hl) in Hs.
  pose proof (StronglySorted_app_1_elem_of _ _ _ y v Hs Hy ltac:(by left)) as Hv. cbn in Hv. rewrite (own_index _ _ _ Hl) in Hv. split; [done|]. split.
  - intros ->. rewrite (own_index _ _ _ Hl) in Hv. lia.
  - intros (_ & _ & ?)%(old_below _ _ _ _ Hl). lia.
Qed.

(** A stacked node that [v] reaches lowers it. *)
Lemma looping_lower st (P P' : string → Prop) ext w' :
  looping gray v st0 P ext st → w' ∈ stack st → reach g v w' →
  (∀ y, P' y → P y ∨ y ∈ dom (index st) ∧ (y ∈ stack st0 → idx st w' ≤ idx st y)) →
  ∃ st', lower_to v (idx st w') st = Some st' ∧ looping gray v st0 P' ext st'.
Proof.
  intros Hl Hw' Hr' HP. destruct Hl as [H1 H2 Hi Hs Hx Hv Ho (l & w & Hlow & Hw & Hidx & Hr & Hle & He & HP0)].
  unfold lower_to. rewrite Hlow. cbn [mbind option_bind]. eexists. split; [done|]. split; cbn; try done.
  - apply inv_set_low; [done|]. rewrite dom_insert_L. apply elem_of_dom_2 in Hlow. set_solver.
  - intros x Hin. rewrite lookup_insert_ne; [by apply Ho|]. by intros ->.
  - rewrite lookup_insert_eq. exists (l `min` idx st w').
    assert (∃ u, u ∈ stack st ∧ idx st u = l `min` idx st w' ∧ reach g v u) as (u & Hu & Eu & Hru).
    { destruct (Nat.min_spec l (idx st w')) as [[_ ->]|[_ ->]]; [by exists w|by exists w']. }
    exists u. split_and!; try done; [lia| |].
    + intros x y ???. change (l `min` idx st w' ≤ idx st y). specialize (He x y). etrans; [apply Nat.le_min_l|auto].
    + intros y Hy. change (y ∈ dom (index st) ∧ (y ∈ stack st0 → l `min` idx st w' ≤ idx st y)).
      destruct (HP y Hy) as [[Hd Hle']%HP0|[Hd Hle']]; (split; [done|]); intros Hin; specialize (Hle' Hin); lia.
Qed.

Lemma looping_same st (P P' : string → Prop) ext :
  looping gray v st0 P ext st → (∀ y, P' y → P y ∨ y ∈ dom (index st) ∧ y ∉ stack st0) →
  looping gray v st0 P' ext st.
Proof.
  intros [H1 H2 Hi Hs Hx Hv Ho (l & w & Hlow & Hw & Hidx & Hr & Hle & He & HP0)] HP. split; try done.
  exists l, w. split_and!; try done. intros y [Hy|[Hy Hn]]%HP; [auto|done].
Qed.

(** The visit of an unvisited neighbor. *)
Lemma looping_visited st (P : string → Prop) ext n ext' st' :
  looping gray v st0 P ext st → edge g v n → n ∉ dom (index st) → visited (v :: gray) n st ext' st' →
  ∃ st'', (neighbor_low ← low st' !! n; lower_to v neighbor_low st') = Some st'' ∧
    looping gray v st0 (λ y, P y ∨ y = n) (ext' ++ ext) st''.
Proof.
  intros Hl He Hn Hvis. pose proof (own_index _ _ _ Hl) as Eown.
  pose proof (iv_next _ _ (lo_inv _ _ _ _ _ _ Hl)) as Hnext. pose proof (lo_own _ _ _ _ _ _ Hl) as Hv.
  pose proof (λ y, old_below _ _ _ y Hl) as Hold.
  destruct Hl as [H1 H2 Hi Hs Hx _ Ho (l & w & Hlow & Hw & Hidx & Hr & Hle & Hext & HP)].
  destruct Hvis as [Hi' Hs' Hx' Hn' Ho' (l' & Hlow' & Hwit & Hext')].
  assert (∀ y, y ∈ dom (index st) → idx st' y = idx st y) as Hsame by (intros y; by apply idx_mono).
  assert (Hvd : v ∈ dom (index st)) by (by apply elem_of_dom_2 in Hv).
  rewrite Hlow'. cbn [mbind option_bind]. unfold lower_to. rewrite (Ho' v), Hlow by done. cbn [mbind option_bind].
  eexists. split; [done|]. split; cbn; try done.
  - apply inv_set_low; [done|]. rewrite dom_insert_L, (iv_low _ _ Hi').
    pose proof (index_mono st st' v Hx' Hvd). set_solver.
  - by rewrite Hs', Hs, app_assoc.
  - by etrans.
  - by apply (lookup_weaken _ _ _ _ Hv).
  - intros x Hd. rewrite lookup_insert_ne by (by intros ->).
    rewrite Ho', Ho; [done..|]. by apply (index_mono st0 st).
  - rewrite lookup_insert_eq. exists (l `min` l').
    assert (∃ u, u ∈ stack st ∧ idx st' u = l `min` l' ∧ reach g v u) as (u & Hu & Eu & Hru).
    { destruct (Nat.min_spec l l') as [[_ ->]|[Hlt ->]].
      - exists w. rewrite Hsame by by apply (iv_stack _ _ Hi). done.
      - destruct Hwit as [[-> _]|(w' & Hw' & Ew & Hrw)].
        + specialize (Hnext v Hvd). lia.
        + exists w'. split; [done|]. split; [done|]. etrans; [by apply reach_step|done]. }
    exists u. split; [done|]. split; [rewrite Hs'; set_solver|]. split; [exact Eu|]. split; [done|].
    split; [lia|]. split.
    + intros x y [Hxin|Hxin]%elem_of_app Hy Hxy; change (l `min` l' ≤ idx st' y).
      * specialize (Hext' x y Hxin ltac:(rewrite Hs; set_solver) Hxy). lia.
      * specialize (Hext x y Hxin Hy Hxy). rewrite Hsame by by apply Hold. lia.
    + intros y Hy. change (y ∈ dom (index st') ∧ (y ∈ stack st0 → l `min` l' ≤ idx st' y)).
      destruct Hy as [[Hd Hle']%HP| ->].
      * split; [by apply (index_mono st st')|]. intros Hin. specialize (Hle' Hin). rewrite Hsame by done. lia.
      * split; [by apply elem_of_dom_2 in Hn'|]. intros [Hd _]%Hold. done.
Qed.
End neighbor.

(** *** Leaving a node *)

Lemma pop_until_app v ext rest stacked component :
  v ∉ ext →
  pop_until v (ext ++ v :: rest) stacked component =
    (rest, stacked ∖ list_to_set (ext ++ [v]), component ++ ext ++ [v]).
Proof.
  revert stacked component. induction ext as [|x ext IH]; intros stacked component Hn; cbn.
  - rewrite bool_decide_true by done. f_equal. f_equal. set_solver.
  - apply not_elem_of_cons in Hn as [Hx Hn]. rewrite bool_decide_false by done. rewrite IH by done.
    f_equal; [f_equal; set_solver|]. by rewrite <- app_assoc.
Qed.

Section leave.
Context (gray : list string) (v : string) (st0 st : SccState) (P : string → Prop) (ext : list string).
Context (Hl : looping gray v st0 P ext st) (HP : ∀ y, edge g v y → P y).

Lemma leave_cases y : y ∈ stack st ↔ y ∈ ext ∨ y = v ∨ y ∈ stack st0.
Proof. rewrite (lo_stack _ _ _ _ _ _ Hl). set_solver. Qed.

(** Every stacked node goes back to a node that stays. *)
Lemma back_old y : y ∈ stack st0 → ∃ z, z ∈ gray ∧ idx st z ≤ idx st y ∧ reach g y z.
Proof.
  intros Hy. destruct (old_below _ _ _ _ _ _ _ Hl Hy) as (_ & _ & Hlt).
  destruct (iv_back _ _ (lo_inv _ _ _ _ _ _ Hl) y) as (z & Hz & Hle & Hr); [rewrite leave_cases; auto|].
  exists z. split; [|done]. apply elem_of_cons in Hz as [->|Hz]; [|done].
  rewrite (own_index _ _ _ _ _ _ Hl) in Hle. lia.
Qed.

Lemma black_left x y :
  x ∈ dom (index st) → x ∉ gray → edge g x y → y ∈ dom (index st).
Proof.
  intros Hx Hn He. destruct (decide (x = v)) as [->|Hne].
  - destruct (lo_low _ _ _ _ _ _ Hl) as (l & w & _ & _ & _ & _ & _ & _ & Hd). by apply Hd, HP.
  - apply (iv_black _ _ (lo_inv _ _ _ _ _ _ Hl) x y); [done| |done]. set_solver.
Qed.

Lemma own_stacked : v ∈ stack st.
Proof. rewrite leave_cases. auto. Qed.
Lemma ext_v_not_gray x : x ∈ ext ++ [v] → x ∉ gray.
Proof.
  intros Hx Hg. apply (iv_gray _ _ (lo_start _ _ _ _ _ _ Hl)) in Hg.
  apply elem_of_app in Hx as [Hx|Hx%list_elem_of_singleton].
  - by apply (above_own _ _ _ _ _ _ _ Hl Hx).
  - subst. apply (lo_fresh _ _ _ _ _ _ Hl), (iv_stack _ _ (lo_start _ _ _ _ _ _ Hl)), Hg.
Qed.

(** The node stays on the stack. *)
Lemma leave_stays own :
  low st !! v = Some own → own ≠ next st0 → visited gray v st0 (ext ++ [v]) st.
Proof.
  intros Hown Hne. pose proof (lo_inv _ _ _ _ _ _ Hl) as Hi.
  destruct (lo_low _ _ _ _ _ _ Hl) as (l & w & Hlow & Hw & Hidx & Hr & Hle & Hext & Hd).
  assert (own = l) as -> by congruence.
  assert (Hw0 : w ∈ stack st0).
  { apply leave_cases in Hw as [Hw|[->|Hw]]; [|rewrite (own_index _ _ _ _ _ _ Hl) in Hidx; lia|done].
    apply (above_own _ _ _ _ _ _ _ Hl) in Hw as [Hw _]. lia. }
  assert (Hgray : ∀ x, x ∈ gray → x ∈ v :: gray) by set_solver.
  split; try apply Hl.
  - split; try apply Hi.
    + intros x Hx. by apply (iv_gray _ _ Hi), Hgray.
    + intros y Hy. destruct (iv_back _ _ Hi y Hy) as (z & Hz & Hle' & Hrz).
      apply elem_of_cons in Hz as [->|Hz]; [|by exists z].
      destruct (back_old w Hw0) as (z & Hz & Hle'' & Hrw). exists z. split; [done|].
      rewrite (own_index _ _ _ _ _ _ Hl) in Hle'. split; [lia|]. etrans; [exact Hrz|]. by etrans.
    + intros x y. apply black_left.
  - by rewrite <- app_assoc, (lo_stack _ _ _ _ _ _ Hl).
  - exists l. split; [done|]. split; [right; by exists w|].
    intros x y [Hx|Hx%list_elem_of_singleton]%elem_of_app Hy He; [by apply (Hext x)|].
    subst x. by apply Hd; [apply HP|].
Qed.

(** *** Leaving a root *)

Context (Hroot : low st !! v = Some (next st0)).

Definition popped (x : string) : Prop := x ∈ ext ++ [v].

Lemma popped_stacked x : popped x → x ∈ stack st ∧ next st0 ≤ idx st x.
Proof.
  intros [Hx|Hx%list_elem_of_singleton]%elem_of_app.
  - split; [rewrite leave_cases; auto|]. apply (above_own _ _ _ _ _ _ _ Hl) in Hx as [Hx _]. lia.
  - subst. split; [apply own_stacked|]. by rewrite (own_index _ _ _ _ _ _ Hl).
Qed.

Lemma stacked_popped x : x ∈ stack st → popped x ∨ x ∈ stack st0.
Proof. unfold popped. rewrite leave_cases. set_solver. Qed.

(** Nothing popped has an edge to what stays on the stack. *)
Lemma popped_edge x y : popped x → edge g x y → popped y ∨ finished st y.
Proof.
  intros Hx He. pose proof (lo_inv _ _ _ _ _ _ Hl) as Hi.
  assert (Hd : y ∈ dom (index st)).
  { apply (black_left x y); [|by apply ext_v_not_gray|done].
    by apply (iv_stack _ _ Hi), popped_stacked. }
  destruct (decide (y ∈ stack st)) as [Hy|Hy]; [|by right].
  apply stacked_popped in Hy as [Hy|Hy]; [by left|]. exfalso.
  destruct (old_below _ _ _ _ _ _ _ Hl Hy) as (_ & _ & Hlt).
  destruct (lo_low _ _ _ _ _ _ Hl) as (l & w & Hlow & _ & _ & _ & _ & Hext & Hdn).
  assert (l = next st0) as -> by congruence.
  apply elem_of_app in Hx as [Hx|Hx%list_elem_of_singleton].
  - specialize (Hext x y Hx Hy He). lia.
  - subst x. destruct (Hdn y (HP y He)) as [_ Hle]. specialize (Hle Hy). lia.
Qed.

Lemma popped_reach x y : popped x → reach g x y → popped y ∨ finished st y.
Proof.
  intros Hx Hr. apply (reach_closed g (λ y, popped y ∨ finished st y) x y); [|done|by left].
  intros a b [Ha|Ha] He; [by apply (popped_edge a)|]. right.
  by apply (iv_done _ _ (lo_inv _ _ _ _ _ _ Hl) a b).
Qed.

(** What is popped is the component of [v]. *)
Lemma popped_component : scc g v (sort_by_key id (ext ++ [v])).
Proof.
  pose proof (lo_inv _ _ _ _ _ _ Hl) as Hi. split; [|split].
  - rewrite sort_by_key_Permutation. pose proof (stack_NoDup _ _ Hi) as Hn.
    rewrite (lo_stack _ _ _ _ _ _ Hl), cons_middle, app_assoc in Hn. by apply NoDup_app in Hn as [Hn _].
  - apply sort_by_key_sorted.
  - intros y. rewrite elem_of_sort_by_key. change (popped y ↔ reach g v y ∧ reach g y v). split.
    + intros [Hy Hle]%popped_stacked. split.
      * apply (iv_reach _ _ Hi); [apply own_stacked|done|]. by rewrite (own_index _ _ _ _ _ _ Hl).
      * destruct (iv_back _ _ Hi y Hy) as (z & [->|Hz]%elem_of_cons & _ & Hr); [done|].
        etrans; [exact Hr|].
        assert (z ∈ stack st0) as Hz0 by by apply (iv_gray _ _ (lo_start _ _ _ _ _ _ Hl)).
        apply (iv_reach _ _ Hi); [apply leave_cases; auto|apply own_stacked|].
        apply (old_below _ _ _ _ _ _ _ Hl) in Hz0 as (_ & _ & ?). rewrite (own_index _ _ _ _ _ _ Hl). lia.
    + intros [Hr Hback]. destruct (popped_reach v y) as [Hy|Hy]; [apply elem_of_app; right; by left|done..|].
      exfalso. apply (finished_reach (v :: gray) st y v) in Hback as [_ Hn]; [|done..]. by apply Hn, own_stacked.
Qed.

Definition popped_state (cs : list (list string)) : SccState :=
  mk_Scc (index st) (low st) (stack st0) (list_to_set (stack st0)) (next st) cs.

Lemma popped_not_old x : popped x → x ∉ stack st0.
Proof.
  intros [_ Hle]%popped_stacked Hx. apply (old_below _ _ _ _ _ _ _ Hl) in Hx as (_ & _ & ?). lia.
Qed.

Lemma stacked_left : stacked st ∖ list_to_set (ext ++ [v]) = list_to_set (stack st0) :> gset string.
Proof.
  rewrite (iv_stacked _ _ (lo_inv _ _ _ _ _ _ Hl)). apply set_eq. intros x.
  rewrite elem_of_difference, !elem_of_list_to_set. split.
  - intros [[Hx|Hx]%stacked_popped Hn]; done.
  - intros Hx. split; [rewrite leave_cases; auto|]. intros Hp. by apply (popped_not_old x).
Qed.

Lemma finished_popped cs x : finished (popped_state cs) x ↔ finished st x ∨ popped x.
Proof.
  unfold finished. cbn. split.
  - intros [Hd Hn]. destruct (decide (x ∈ stack st)) as [Hx|Hx]; [|auto].
    apply stacked_popped in Hx as [Hx|Hx]; auto.
  - intros [[Hd Hn]|Hx]; [split; [done|]|].
    + intros Hx. apply Hn. rewrite leave_cases. auto.
    + split; [|by apply popped_not_old]. apply (iv_stack _ _ (lo_inv _ _ _ _ _ _ Hl)).
      by apply popped_stacked.
Qed.

Lemma popped_inv cs : cycles_ok (popped_state cs) → inv gray (popped_state cs).
Proof.
  intros Hc. pose proof (lo_inv _ _ _ _ _ _ Hl) as Hi.
  assert (Hin : ∀ x, x ∈ stack st0 → x ∈ stack st) by (intros x; rewrite leave_cases; auto).
  split; cbn; try apply Hi; try done.
  - pose proof (iv_sorted _ _ Hi) as Hs. rewrite (lo_stack _ _ _ _ _ _ Hl), cons_middle, app_assoc in Hs.
    by apply StronglySorted_app_1_r in Hs.
  - intros x Hx. by apply (iv_stack _ _ Hi), Hin.
  - apply (iv_gray _ _ (lo_start _ _ _ _ _ _ Hl)).
  - intros x y Hx Hy. apply (iv_reach _ _ Hi); by apply Hin.
  - apply back_old.
  - apply black_left.
  - intros x y. rewrite !finished_popped. intros [Hx|Hx] He.
    + left. by apply (iv_done _ _ Hi x y).
    + destruct (popped_edge x y Hx He); auto.
Qed.

Lemma v_popped : popped v.
Proof. unfold popped. set_solver. Qed.

Lemma component_test s :
  g !! v = Some s →
  (1 <? length (sort_by_key id (ext ++ [v])))%nat || bool_decide (v ∈ s) = true ↔ cyclic g v.
Proof.
  intros Es. rewrite orb_true_iff, Nat.ltb_lt, bool_decide_eq_true, sort_by_key_Permutation, length_app.
  assert (Hself : v ∈ s ↔ edge g v v) by (unfold edge; naive_solver). rewrite Hself.
  destruct popped_component as (_ & _ & Hc). split.
  - intros [Hlen|He]; [|by apply tc_once]. destruct ext as [|y ext'] eqn:Ee; [cbn in Hlen; lia|].
    destruct (above_own _ _ _ _ _ _ y Hl) as (_ & Hne & _); [by left|].
    assert (y ∈ sort_by_key id ((y :: ext') ++ [v])) as [H1 H2]%Hc by (rewrite elem_of_sort_by_key; by left).
    apply rtc_tc in H1 as [H1|H1]; [done|]. by apply (tc_rtc_r _ y).
  - intros Ht. destruct ext as [|y ext'] eqn:Ee; [|left; cbn; lia]. right.
    inversion Ht as [? ? He|? z ? He Hr]; subst; [done|].
    assert (z ∈ sort_by_key id ([] ++ [v])) as Hz.
    { apply Hc. split; [by apply reach_step|by apply tc_rtc]. }
    rewrite elem_of_sort_by_key in Hz. cbn in Hz. apply list_elem_of_singleton in Hz. by subst.
Qed.

Lemma popped_cycles (b : bool) :
  (b = true ↔ cyclic g v) →
  cycles_ok (popped_state (if b then cycles st ++ [sort_by_key id (ext ++ [v])] else cycles st)).
Proof.
  intros Hb. pose proof (lo_inv _ _ _ _ _ _ Hl) as Hi. destruct (iv_cycles _ _ Hi) as (Hn & Hin & Hall).
  pose proof popped_component as Hc.
  assert (Hback : ∀ x, popped x → reach g v x ∧ reach g x v).
  { intros x Hx. apply Hc. by apply elem_of_sort_by_key. }
  assert (Hcyc : ∀ x, popped x → cyclic g x → cyclic g v).
  { intros x [H1 H2]%Hback Hx. apply (tc_rtc_l _ x); [done|]. by apply (tc_rtc_r _ x). }
  unfold cycles_ok. cbn [popped_state cycles]. split; [|split].
  - destruct b; [|done]. apply NoDup_app. split; [done|]. split; [|apply NoDup_singleton].
    intros c Hold ->%list_elem_of_singleton. apply Hin in Hold as (x & Hx & _ & Hs).
    assert (reach g x v ∧ reach g v x) as [Hr _].
    { apply Hs. by apply elem_of_sort_by_key, v_popped. }
    apply (finished_reach (v :: gray) st x v) in Hr as [_ Hout]; [|done..]. by apply Hout, own_stacked.
  - intros c Hcin. assert (c ∈ cycles st ∨ b = true ∧ c = sort_by_key id (ext ++ [v])) as [Hold|[-> ->]].
    { destruct b; [|auto]. apply elem_of_app in Hcin as [?|?%list_elem_of_singleton]; auto. }
    + destruct (Hin c Hold) as (x & Hx & ?). exists x. rewrite finished_popped. auto.
    + exists v. rewrite finished_popped. split; [right; apply v_popped|]. split; [by apply Hb|done].
  - intros x [Hx|Hx]%finished_popped Hxc.
    + destruct (Hall x Hx Hxc) as (c & Hold & Hs). exists c. split; [|done]. destruct b; set_solver.
    + assert (b = true) as -> by by apply Hb, (Hcyc x). exists (sort_by_key id (ext ++ [v])).
      split; [set_solver|]. destruct Hc as (? & ? & Hc). split; [done|]. split; [done|].
      intros y. rewrite Hc. destruct (Hback x Hx). split; intros [? ?]; split; by etrans.
Qed.

Lemma leave_pops (b : bool) :
  (b = true ↔ cyclic g v) →
  visited gray v st0 [] (popped_state (if b then cycles st ++ [sort_by_key id (ext ++ [v])] else cycles st)).
Proof.
  intros Hb. split; cbn; try apply Hl; try done.
  - by apply popped_inv, popped_cycles.
  - exists (next st0). split; [done|]. split; [by left|]. intros x y Hx. by apply elem_of_nil in Hx.
Qed.
End leave.

Lemma finish_visited gray v st0 st P ext :
  looping gray v st0 P ext st → (∀ y, edge g v y → P y) →
  ∃ st' ext', finish g v st = Some st' ∧ visited gray v st0 ext' st'.
Proof.
  intros Hl HP. destruct (lo_low _ _ _ _ _ _ Hl) as (l & _ & Hlow & _).
  unfold finish. rewrite Hlow, (lo_own _ _ _ _ _ _ Hl). cbn [mbind option_bind].
  destruct (Nat.eqb_spec l (next st0)) as [->|Hne].
  - assert (Hext : v ∉ ext) by (intros (_ & ? & _)%(above_own _ _ _ _ _ _ _ Hl); done).
    rewrite (lo_stack _ _ _ _ _ _ Hl), pop_until_app, app_nil_l, (stacked_left _ _ _ _ _ _ Hl) by done.
    cbn beta iota zeta. assert (v ∈ dom g) as [s Es]%elem_of_dom.
    { apply (iv_nodes _ _ (lo_inv _ _ _ _ _ _ Hl)). pose proof (lo_own _ _ _ _ _ _ Hl) as Hv.
      by apply elem_of_dom_2 in Hv. }
    pose proof (component_test _ _ _ _ _ _ Hl HP Hlow s Es) as Ht.
    pose proof (leave_pops _ _ _ _ _ _ Hl HP Hlow _ Ht) as Hpop.
    eexists _, _. split; [|exact Hpop]. rewrite Es. cbn [mbind option_bind].
    destruct (1 <? _)%nat; [done|]. reflexivity.
  - exists st, (ext ++ [v]). split; [done|]. by apply (leave_stays _ _ _ _ P _ Hl HP l).
Qed.

(** ** The search *)

Lemma visit_neighbor_looping rec gray v st0 P ext st n :
  looping gray v st0 P ext st → edge g v n →
  (n ∉ dom (index st) → ∃ ext' st', rec n st = Some st' ∧ visited (v :: gray) n st ext' st') →
  ∃ ext' st', visit_neighbor rec v n st = Some st' ∧ looping gray v st0 (λ y, P y ∨ y = n) ext' st'.
Proof.
  intros Hl He Hrec. unfold visit_neighbor. destruct (index st !! n) as [i|] eqn:En.
  - assert (idx st n = i) as Hidx by by apply lookup_total_correct.
    assert (Hd : n ∈ dom (index st)) by by apply elem_of_dom_2 in En.
    case_bool_decide as Hs.
    + rewrite (iv_stacked _ _ (lo_inv _ _ _ _ _ _ Hl)), elem_of_list_to_set in Hs. cbn [mbind option_bind].
      destruct (looping_lower _ _ _ st P (λ y, P y ∨ y = n) ext n Hl Hs) as (st' & E & Hl').
      * by apply reach_step.
      * intros y [Hy| ->]; [by left|]. right. split; [done|]. lia.
      * exists ext, st'. by rewrite <- Hidx.
    + exists ext, st. split; [done|]. apply (looping_same _ _ _ _ P); [done|].
      intros y [Hy| ->]; [by left|]. right. split; [done|]. intros Hin. apply Hs.
      rewrite (iv_stacked _ _ (lo_inv _ _ _ _ _ _ Hl)), elem_of_list_to_set, (lo_stack _ _ _ _ _ _ Hl). set_solver.
  - apply not_elem_of_dom in En. destruct (Hrec En) as (ext' & st' & Er & Hv).
    destruct (looping_visited _ _ _ _ _ _ _ _ _ Hl He En Hv) as (st'' & E & Hl'').
    exists (ext' ++ ext), st''. rewrite Er. by cbn [mbind option_bind].
Qed.

(** A visit within its fuel always ends, and leaves the invariant. *)
Lemma visit_visited fuel : ∀ gray v st,
  inv gray st → v ∉ dom (index st) → v ∈ dom g → (∀ z, z ∈ gray → reach g z v) → closed g →
  size (dom g ∖ dom (index st)) ≤ fuel →
  ∃ ext st', visit g fuel v st = Some st' ∧ visited gray v st ext st'.
Proof.
  induction fuel as [|fuel IH]; intros gray v st Hi Hv Hg Hgray Hclosed Hfuel.
  { assert (v ∈ dom g ∖ dom (index st)) as Hin by set_solver.
    assert (size (dom g ∖ dom (index st)) ≠ 0); [|lia]. intros E%size_empty_inv. set_solver. }
  cbn [visit].
  assert (Hloop : ∀ ns (P : string → Prop) ext st1, (∀ n, n ∈ ns → edge g v n) → looping gray v st P ext st1 →
    ∃ ext' st', fold_some (visit_neighbor (visit g fuel) v) ns st1 = Some st' ∧
      looping gray v st (λ y, P y ∨ y ∈ ns) ext' st').
  { induction ns as [|n ns IHns]; intros P ext st1 Hns Hl; cbn [fold_some].
    - exists ext, st1. split; [done|]. apply (looping_same _ _ _ _ P); [done|]. intros y [Hy|Hy]; [auto|].
      by apply elem_of_nil in Hy.
    - destruct (visit_neighbor_looping (visit g fuel) gray v st P ext st1 n Hl) as (ext' & st' & E & Hl').
      + apply Hns. by left.
      + intros Hn. apply IH; [by apply (lo_inv _ _ _ _ _ _ Hl)|done| | |done|].
        * apply (Hclosed v). apply Hns. by left.
        * intros z Hz. assert (edge g v n) as Hen by (apply Hns; by left).
          etrans; [|by apply reach_step]. apply elem_of_cons in Hz as [->|Hz]; [done|by apply Hgray].
        * pose proof (lo_index _ _ _ _ _ _ Hl) as Hx%subseteq_dom. pose proof (lo_own _ _ _ _ _ _ Hl) as Hv1.
          apply elem_of_dom_2 in Hv1.
          assert (size (dom g ∖ dom (index st1)) < size (dom g ∖ dom (index st))); [|lia].
          apply subset_size. set_solver.
      + rewrite E. cbn [mbind option_bind]. destruct (IHns _ _ _ (λ m Hm, Hns m ltac:(by right)) Hl') as (ext'' & st'' & E' & Hl'').
        exists ext'', st''. split; [done|]. apply (looping_same _ _ _ _ (λ y, (P y ∨ y = n) ∨ y ∈ ns)); [done|].
        intros y. rewrite elem_of_cons. tauto. }
  destruct (Hloop (neighbors g v) (λ _, False) [] (enter v st)) as (ext & st1 & E & Hl).
  - intros n. apply elem_of_neighbors.
  - by apply enter_looping.
  - rewrite E. cbn [mbind option_bind].
    destruct (finish_visited _ _ _ _ _ _ Hl) as (st' & ext' & Ef & Hv'); [|by exists ext', st'].
    intros y Hy. right. by apply elem_of_neighbors.
Qed.
End inv.

Section search.
Context (g : graph) (Hclosed : closed g).

Definition start : SccState := mk_Scc ∅ ∅ [] ∅ 0 [].

Lemma start_inv : inv g [] start.
Proof.
  split; unfold finished; cbn; rewrite ?dom_empty_L; try set_solver; [constructor|].
  split; [constructor|]. split; [set_solver|]. intros x [Hx _]. by apply elem_of_dom in Hx as [??].
Qed.

Lemma search_inv vs : ∀ st,
  inv g [] st → (∀ v, v ∈ vs → v ∈ dom g) →
  ∃ st', fold_some (visit_new g (size (dom g))) vs st = Some st' ∧ inv g [] st' ∧
    dom (index st) ⊆ dom (index st') ∧ ∀ v, v ∈ vs → v ∈ dom (index st').
Proof.
  induction vs as [|v vs IH]; intros st Hi Hvs; cbn [fold_some].
  { exists st. split_and!; try done. intros v Hv. by apply elem_of_nil in Hv. }
  assert (∃ st1, visit_new g (size (dom g)) v st = Some st1 ∧ inv g [] st1 ∧
    dom (index st) ⊆ dom (index st1) ∧ v ∈ dom (index st1)) as (st1 & E & Hi1 & Hsub & Hv).
  { unfold visit_new. destruct (index st !! v) eqn:Ev.
    - exists st. apply elem_of_dom_2 in Ev. done.
    - apply not_elem_of_dom in Ev.
      destruct (visit_visited g (size (dom g)) [] v st) as (ext & st1 & E & Hvis); try done.
      + apply Hvs. by left.
      + intros z Hz. by apply elem_of_nil in Hz.
      + apply subseteq_size. set_solver.
      + exists st1. split; [done|]. split; [apply (vi_inv _ _ _ _ _ _ Hvis)|]. split.
        * apply subseteq_dom, (vi_index _ _ _ _ _ _ Hvis).
        * pose proof (vi_own _ _ _ _ _ _ Hvis) as Ho. by apply elem_of_dom_2 in Ho. }
  rewrite E. cbn [mbind option_bind].
  destruct (IH st1 Hi1) as (st' & E' & Hi' & Hsub' & Hv'); [intros u Hu; apply Hvs; by right|].
  exists st'. split; [done|]. split; [done|]. split; [by etrans|].
  intros u [->|Hu]%elem_of_cons; [by apply Hsub'|by apply Hv'].
Qed.

Lemma cyclic_dom x : cyclic g x → x ∈ dom g.
Proof. intros Hx. inversion Hx as [? ? He|? ? ? He]; subst; by apply edge_dom in He. Qed.

(** Without a gray node nothing is stacked: every node is finished. *)
Lemma strongly_connected_spec :
  ∃ cs, strongly_connected g = Some cs ∧ NoDup cs ∧
    StronglySorted (le_by (cmp_list String.compare)) cs ∧
    (∀ c, c ∈ cs → ∃ x, cyclic g x ∧ scc g x c) ∧
    ∀ x, cyclic g x → ∃ c, c ∈ cs ∧ scc g x c.
Proof.
  destruct (search_inv (btree_elements (dom g)) start start_inv) as (st & E & Hi & _ & Hall).
  { intros v. by rewrite elem_of_btree_elements. }
  unfold strongly_connected. change (mk_Scc ∅ ∅ [] ∅ 0 []) with start. rewrite E. cbn [mbind option_bind].
  assert (Hfin : ∀ x, x ∈ dom g → finished st x).
  { intros x Hx. split; [by apply Hall, elem_of_btree_elements|]. intros Hs.
    destruct (iv_back _ _ _ Hi x Hs) as (z & Hz & _). by apply elem_of_nil in Hz. }
  destruct (iv_cycles _ _ _ Hi) as (Hn & Hin & Hcyc).
  eexists. split; [done|]. split; [by rewrite sort_by_Permutation|].
  split; [apply (StronglySorted_merge_sort _)|]. split.
  - intros c. rewrite sort_by_Permutation. intros (x & _ & ?)%Hin. by exists x.
  - intros x Hx. destruct (Hcyc x) as (c & Hc & Hs); [by apply Hfin, cyclic_dom|done|].
    exists c. by rewrite sort_by_Permutation.
Qed.

(** Nothing is reported exactly when no node is on a cycle. *)
Lemma strongly_connected_acyclic cs :
  strongly_connected g = Some cs → is_nil cs = true ↔ ∀ x, ¬ cyclic g x.
Proof.
  intros E. destruct strongly_connected_spec as (cs' & E' & _ & _ & Hin & Hall).
  assert (cs' = cs) as -> by congruence. split.
  - intros ->%is_nil_true x (c & Hc & _)%Hall. by apply elem_of_nil in Hc.
  - intros Hn. destruct cs as [|c cs]; [done|]. exfalso.
    destruct (Hin c ltac:(by left)) as (x & Hx & _). by apply (Hn x).
Qed.
End search.

(** C18. The search always ends, without a missing key and within the number of
    nodes, and reports every strongly connected component that holds a cycle,
    exactly once, as the sorted list of its nodes, in order; it reports none
    exactly when the graph is acyclic. *)
Theorem strongly_connected_exact g :
  closed g →
  ∃ cs, strongly_connected g = Some cs ∧ NoDup cs ∧
    StronglySorted (le_by (cmp_list String.compare)) cs ∧
    (∀ c, c ∈ cs → ∃ x, cyclic g x ∧ scc g x c) ∧
    (∀ x, cyclic g x → ∃ c, c ∈ cs ∧ scc g x c) ∧
    (is_nil cs = true ↔ ∀ x, ¬ cyclic g x).
Proof.
  intros Hc. destruct (strongly_connected_spec g Hc) as (cs & E & Hn & Hs & Hin & Hall).
  exists cs. split_and!; try done; by apply (strongly_connected_acyclic g Hc cs E).
Qed.

(** Two components that touch, a loop of its own, and a tail. *)
Definition ex_graph : graph :=
  list_to_map [("a", {["b"]}); ("b", {["c"; "d"]}); ("c", {["a"]}); ("d", {["e"]}); ("e", {["d"; "t"]});
               ("s", {["s"]}); ("t", ∅)].

Lemma strongly_connected_exact_witness :
  strongly_connected ex_graph = Some [["a"; "b"; "c"]; ["d"; "e"]; ["s"]] ∧ ∃ x, cyclic ex_graph x.
Proof.
  assert (closed ex_graph) as Hc.
  { assert (map_Forall (λ _ s, s ⊆ dom ex_graph) ex_graph) as Hm by by apply (bool_decide_unpack _); vm_compute.
    intros x y (s & Es & Hy). by apply (Hm x s Es). }
  assert (E : strongly_connected ex_graph = Some [["a"; "b"; "c"]; ["d"; "e"]; ["s"]]) by by vm_compute.
  split; [exact E|]. destruct (strongly_connected_exact ex_graph Hc) as (cs & E' & _ & _ & Hin & _).
  rewrite E in E'. injection E' as <-.
  destruct (Hin ["s"]) as (x & Hx & _); [right; right; left|exists x; exact Hx].
Defined.
