(* ===== verification/IssueOrder.v ===== *)
(** * Ordering an acyclic issue graph

    [workflow-runtime/src/issue_plan.rs]: [reaches], a breadth-first search,
    [transitive_reduction], which drops the prerequisites that another
    prerequisite implies, and the loop of [ordered_ids], which takes among the
    ready nodes the one with the greatest key.  As in [IssueScc], [None] is a
    panic or an exhausted fuel, and neither happens. *)

From S2P Require Import Prelude Order IssueScc.

#[export] Instance edge_dec g x y : Decision (edge g x y).
Proof. refine (cast_if (decide (y ∈ neighbors g x))); by rewrite <- elem_of_neighbors. Defined.

(** [filter] and [any] with a predicate that can stop. *)
Fixpoint filter_some {A : Type} (p : A → option bool) (l : list A) : option (list A) :=
  match l with
  | [] => Some []
  | x :: l => b ← p x; l ← filter_some p l; Some (if b : bool then x :: l else l)
  end.
Fixpoint any_some {A : Type} (p : A → option bool) (l : list A) : option bool :=
  match l with
  | [] => Some false
  | x :: l => b ← p x; if b : bool then Some true else any_some p l
  end.

(** ** Reachability *)

Section reaches.
Context (successors : graph).

(*| runtime/issue_plan.rs 408-419 reaches *)
Fixpoint reaches_from (fuel : nat) (seen : gset string) (pending : list string) (target : string) : option bool :=
  match pending with
  | [] => Some false
  | x :: pending =>
      match fuel with
      | O => None
      | S fuel =>
          if bool_decide (x ∈ seen) then reaches_from fuel seen pending target
          else
            direct ← (successors !! x : option (gset string));
            if existsb (str_eqb target) (btree_elements direct) then Some true
            else reaches_from fuel ({[x]} ∪ seen) (pending ++ btree_elements direct) target
      end
  end.

Definition degree (x : string) : nat := length (neighbors successors x).
(** Every node is expanded once, so at most every edge is pushed. *)
(*| runtime/issue_plan.rs 405-420 reaches *)
Definition reaches (from target : string) : option bool :=
  reaches_from (S (sum_list_with degree (elements (dom successors)))) ∅ [from] target.

(** ** Transitive reduction *)

(*| runtime/issue_plan.rs 391-399 transitive_reduction *)
Definition reduced_prerequisites (direct : gset string) : option (list string) :=
  filter_some (λ predecessor,
    implied ← any_some (λ other,
      if bool_decide (predecessor = other) then Some false else reaches predecessor other)
      (btree_elements direct);
    Some (negb implied)) (btree_elements direct).

(*| runtime/issue_plan.rs 384-403 transitive_reduction *)
Definition transitive_reduction (predecessors : graph) : option graph :=
  l ← mapM (λ e, reduced ← reduced_prerequisites (snd e); Some (fst e, list_to_set reduced))
    (btree_entries predecessors);
  Some (list_to_map l).
End reaches.

(** ** The order *)

Section order.
Context {K : Type} (cmp : K → K → comparison) (key : gmap string K) (successors : graph).

(** [*indegree.get_mut(dependent).expect(..) += 1]. *)
(*| runtime/issue_plan.rs 350-350 ordered_ids *)
Definition count_edge (dependent : string) (indegree : gmap string nat) : option (gmap string nat) :=
  n ← indegree !! dependent; Some (<[dependent := S n]> indegree).
(*| runtime/issue_plan.rs 344-352 ordered_ids *)
Definition indegrees : option (gmap string nat) :=
  fold_some (λ dependents, fold_some count_edge (btree_elements dependents)) (btree_values successors)
    (gset_to_gmap 0 (dom successors)).

(** [ready.iter().max_by(..)]: the last of the greatest. *)
(*| runtime/issue_plan.rs 360-370 ordered_ids *)
Fixpoint max_key (best : string) (l : list string) : option string :=
  match l with
  | [] => Some best
  | x :: l =>
      kb ← key !! best; kx ← key !! x;
      max_key (match cmp kb kx with Gt => best | _ => x end) l
  end.

(** One dependent of the node that was taken; [checked] subtraction. *)
(*| runtime/issue_plan.rs 374-378 ordered_ids *)
Definition release (dependent : string) (s : gmap string nat * gset string) :
    option (gmap string nat * gset string) :=
  let '(indegree, ready) := s in
  match (indegree !! dependent : option nat) with
  | Some (S n) =>
      Some (<[dependent := n]> indegree, if (n =? 0)%nat then {[dependent]} ∪ ready else ready)
  | _ => None
  end.

(*| runtime/issue_plan.rs 358-381 ordered_ids *)
Fixpoint take_ready (fuel : nat) (indegree : gmap string nat) (ready : gset string) (ordered : list string) :
    option (list string) :=
  match btree_elements ready with
  | [] => Some ordered
  | x :: rest =>
      match fuel with
      | O => None
      | S fuel =>
          v ← max_key x rest;
          dependents ← (successors !! v : option (gset string));
          '(indegree, ready) ← fold_some release (btree_elements dependents) (indegree, ready ∖ {[v]});
          take_ready fuel indegree ready (ordered ++ [v])
      end
  end.

(*| runtime/issue_plan.rs 353-357 ordered_ids *)
Definition zero_degree (indegree : gmap string nat) : gset string :=
  dom (filter (λ e, snd e = 0) indegree).

(** Every node is taken at most once. *)
(*| runtime/issue_plan.rs 336-382 ordered_ids *)
Definition ordered_ids (acyclic : bool) : option (list string) :=
  if acyclic then
    indegree ← indegrees;
    take_ready (size (dom successors)) indegree (zero_degree indegree) []
  else Some (btree_elements (dom successors)).
End order.

(** ** Reachability decides the closure *)

Section reaches_proofs.
Context (g : graph) (Hclosed : closed g).

Lemma neighbors_lookup x direct : g !! x = Some direct → neighbors g x = btree_elements direct.
Proof. unfold neighbors. by intros ->. Qed.

Lemma unseen_degrees x seen :
  x ∈ dom g → x ∉ seen →
  sum_list_with (degree g) (elements (dom g ∖ seen)) =
    degree g x + sum_list_with (degree g) (elements (dom g ∖ ({[x]} ∪ seen))).
Proof.
  intros Hx Hn.
  assert (elements (dom g ∖ seen) ≡ₚ x :: elements (dom g ∖ ({[x]} ∪ seen))) as ->; [|done].
  apply NoDup_Permutation; [apply NoDup_elements| |].
  - constructor; [rewrite elem_of_elements; set_solver|apply NoDup_elements].
  - intros y. rewrite elem_of_cons, !elem_of_elements. destruct (decide (y = x)); set_solver.
Qed.

Lemma tc_last (R : relation string) x y : tc R x y → ∃ z, rtc R x z ∧ R z y.
Proof.
  intros Ht. revert y Ht. apply tc_ind_r; [intros z Hz; by exists x|].
  intros y z Hy Hz _. exists y. split; [by apply tc_rtc|done].
Qed.

(** Nothing pending: what was seen is all that is reached. *)
Lemma exhausted from target (seen : gset string) :
  from ∈ seen → (∀ x y, x ∈ seen → edge g x y → y ≠ target ∧ y ∈ seen) → ¬ tc (edge g) from target.
Proof.
  intros Hfrom Hedge (z & Hr & He)%tc_last.
  assert (z ∈ seen) as Hz; [|by destruct (Hedge z target Hz He)].
  apply (reach_closed g (λ y, y ∈ seen) from z); [|done..].
  intros a b Ha Hab. by apply (Hedge a b Ha Hab).
Qed.

Lemma reaches_from_spec from target fuel : ∀ seen pending,
  length pending + sum_list_with (degree g) (elements (dom g ∖ seen)) ≤ fuel →
  (∀ x, x ∈ pending → x ∈ dom g) →
  (∀ x, x ∈ seen ∨ x ∈ pending → reach g from x) →
  (∀ x y, x ∈ seen → edge g x y → y ≠ target ∧ (y ∈ seen ∨ y ∈ pending)) →
  from ∈ seen ∨ from ∈ pending →
  ∃ b, reaches_from g fuel seen pending target = Some b ∧ (b = true ↔ tc (edge g) from target).
Proof.
  induction fuel as [|fuel IH]; intros seen [|x pending] Hfuel Hdom Hreach Hedge Hfrom; cbn [reaches_from];
    try (exfalso; cbn in Hfuel; lia).
  1-2: exists false; split; [done|]; split; [done|]; intros Ht; exfalso; revert Ht; apply (exhausted from target seen);
    [destruct Hfrom as [?|?%elem_of_nil]; done|intros a b Ha He; destruct (Hedge a b Ha He) as [? [?|?%elem_of_nil]]; done].
  assert (Hx : x ∈ dom g) by (apply Hdom; by left).
  case_bool_decide as Hseen.
  - apply IH; [cbn in Hfuel; lia|intros y Hy; apply Hdom; by right| | |].
    + intros y Hy. apply Hreach. set_solver.
    + intros a b Ha He. destruct (Hedge a b Ha He) as [? Hb]. split; [done|]. set_solver.
    + set_solver.
  - apply elem_of_dom in Hx as [direct Ed]. rewrite Ed. cbn [mbind option_bind].
    assert (Hd : ∀ y, y ∈ btree_elements direct ↔ edge g x y).
    { intros y. rewrite <- (neighbors_lookup x direct Ed). apply elem_of_neighbors. }
    destruct (existsb (str_eqb target) (btree_elements direct)) eqn:Et.
    + exists true. split; [done|]. split; [intros _|done].
      apply existsb_true_iff in Et as (y & Hy%Hd & <-%str_eqb_eq).
      apply (tc_rtc_l _ x); [apply Hreach; right; by left|by apply tc_once].
    + rewrite existsb_false_iff in Et. apply IH.
      * rewrite (unseen_degrees x seen) in Hfuel by (by apply elem_of_dom_2 in Ed).
        rewrite length_app. unfold degree in Hfuel at 1. rewrite (neighbors_lookup x direct Ed) in Hfuel.
        cbn in Hfuel. lia.
      * intros y [Hy|Hy%Hd]%elem_of_app; [apply Hdom; by right|by apply (Hclosed x)].
      * intros y Hy. assert (x = y ∨ (y ∈ seen ∨ y ∈ pending) ∨ edge g x y) as [<-|[Hy'|He]].
        { rewrite elem_of_union, elem_of_singleton, elem_of_app in Hy. rewrite <- Hd. naive_solver. }
        -- apply Hreach. right. by left.
        -- apply Hreach. set_solver.
        -- etrans; [apply Hreach; right; by left|by apply reach_step].
      * intros a b [->%elem_of_singleton|Ha]%elem_of_union He.
        -- assert (b ∈ btree_elements direct) as Hb by by apply Hd. split; [|set_solver].
           intros ->. specialize (Et target Hb). by rewrite (proj2 (str_eqb_eq _ _) eq_refl) in Et.
        -- destruct (Hedge a b Ha He) as [? Hb]. split; [done|]. set_solver.
      * set_solver.
Qed.

Lemma reaches_spec from target :
  from ∈ dom g → ∃ b, reaches g from target = Some b ∧ (b = true ↔ tc (edge g) from target).
Proof.
  intros Hd. apply reaches_from_spec.
  - rewrite difference_empty_L. cbn. lia.
  - set_solver.
  - intros x [?|?%list_elem_of_singleton]; [set_solver|by subst].
  - set_solver.
  - right. by left.
Qed.

(** *** The reduction *)

Lemma filter_some_spec {A} (p : A → option bool) (P : A → Prop) l :
  (∀ x, x ∈ l → ∃ b, p x = Some b ∧ (b = true ↔ P x)) →
  ∃ k, filter_some p l = Some k ∧ ∀ x, x ∈ k ↔ x ∈ l ∧ P x.
Proof.
  induction l as [|x l IH]; intros Hp; cbn [filter_some]; [exists []; set_solver|].
  destruct (Hp x) as (b & -> & Hb); [by left|]. destruct IH as (k & -> & Hk); [intros y Hy; apply Hp; by right|].
  cbn [mbind option_bind]. eexists. split; [done|]. intros y. rewrite elem_of_cons.
  destruct b; [rewrite elem_of_cons, Hk; naive_solver|]. rewrite Hk.
  assert (¬ P x) by (intros ?%Hb; done). naive_solver.
Qed.

Lemma any_some_spec {A} (p : A → option bool) (P : A → Prop) l :
  (∀ x, x ∈ l → ∃ b, p x = Some b ∧ (b = true ↔ P x)) →
  ∃ b, any_some p l = Some b ∧ (b = true ↔ ∃ x, x ∈ l ∧ P x).
Proof.
  induction l as [|x l IH]; intros Hp; cbn [any_some]; [exists false; split; [done|]; set_solver|].
  destruct (Hp x) as (b & -> & Hb); [by left|]. destruct IH as (c & E & Hc); [intros y Hy; apply Hp; by right|].
  cbn [mbind option_bind]. destruct b.
  - exists true. split; [done|]. split; [|done]. intros _. exists x. split; [by left|by apply Hb].
  - exists c. split; [done|]. rewrite Hc. assert (¬ P x) by (intros ?%Hb; done). split.
    + intros (y & Hy & ?). exists y. split; [by right|done].
    + intros (y & [->|Hy]%elem_of_cons & ?); [done|]. by exists y.
Qed.

(** [p] is directly below [x]: nothing lies between. *)
Definition covers (p x : string) : Prop := tc (edge g) p x ∧ ¬ ∃ o, tc (edge g) p o ∧ tc (edge g) o x.

Context (Hacyclic : ∀ x, ¬ cyclic g x).

Lemma covers_direct p x :
  covers p x ↔ edge g p x ∧ ¬ ∃ o, edge g o x ∧ p ≠ o ∧ tc (edge g) p o.
Proof.
  split.
  - intros [Ht Hn]. split.
    + apply tc_last in Ht as (z & [->|Hz]%rtc_tc & He); [done|]. exfalso. apply Hn. exists z.
      split; [done|by apply tc_once].
    + intros (o & He & _ & Ho). apply Hn. exists o. split; [done|by apply tc_once].
  - intros [He Hn]. split; [by apply tc_once|]. intros (o & Hpo & Hox). apply Hn.
    apply tc_last in Hox as (z & Hz & Hzx). exists z. split; [done|].
    assert (tc (edge g) p z) as Hpz by (by apply (tc_rtc_r _ o)). split; [|done].
    intros ->. by apply (Hacyclic z).
Qed.

Lemma reduced_spec x direct :
  (∀ p, p ∈ direct ↔ edge g p x) →
  ∃ l, reduced_prerequisites g direct = Some l ∧ ∀ p, p ∈ l ↔ covers p x.
Proof.
  intros Hd. unfold reduced_prerequisites.
  destruct (filter_some_spec (λ predecessor,
    implied ← any_some (λ other,
      if bool_decide (predecessor = other) then Some false else reaches g predecessor other)
      (btree_elements direct);
    Some (negb implied)) (λ p, ¬ ∃ o, o ∈ btree_elements direct ∧ p ≠ o ∧ tc (edge g) p o)
    (btree_elements direct)) as (l & -> & Hl).
  - intros p Hp. rewrite elem_of_btree_elements, Hd in Hp.
    destruct (any_some_spec (λ other, if bool_decide (p = other) then Some false else reaches g p other)
      (λ o, p ≠ o ∧ tc (edge g) p o) (btree_elements direct)) as (b & -> & Hb).
    + intros o _. case_bool_decide; [exists false; naive_solver|].
      destruct (reaches_spec p o) as (b & -> & Hb); [by apply edge_dom in Hp|]. exists b. naive_solver.
    + cbn [mbind option_bind]. eexists. split; [done|]. rewrite <- Hb. by destruct b.
  - exists l. split; [done|]. intros p. rewrite Hl, covers_direct, elem_of_btree_elements, Hd.
    setoid_rewrite elem_of_btree_elements. by setoid_rewrite Hd.
Qed.

Lemma transitive_reduction_spec (predecessors : graph) :
  dom predecessors = dom g → (∀ p x, edge predecessors x p ↔ edge g p x) →
  ∃ r, transitive_reduction g predecessors = Some r ∧ dom r = dom g ∧ ∀ p x, edge r x p ↔ covers p x.
Proof.
  intros Hdom Hpre. unfold transitive_reduction.
  assert (∀ es, (∀ e, e ∈ es → predecessors !! e.1 = Some e.2) →
    ∃ l, mapM (λ e : string * gset string, reduced ← reduced_prerequisites g (snd e); Some (fst e, list_to_set reduced)) es
      = Some l ∧ map fst l = map fst es ∧ ∀ x (s : gset string), (x, s) ∈ l → ∀ p, p ∈ s ↔ covers p x) as Hmap.
  { induction es as [|[x direct] es IH]; intros Hes; cbn [mapM fst snd]; [exists []; set_solver|].
    destruct (reduced_spec x direct) as (k & -> & Hk).
    { intros p. rewrite <- Hpre. specialize (Hes (x, direct) ltac:(by left)). cbn in Hes. unfold edge. naive_solver. }
    destruct IH as (l & -> & Hkeys & Hl); [intros e He; apply Hes; by right|]. cbn.
    eexists. split; [done|]. split; [by cbn; rewrite Hkeys|].
    intros y s [[= -> ->]|Hin]%elem_of_cons p; [by rewrite elem_of_list_to_set|by apply Hl]. }
  destruct (Hmap (btree_entries predecessors)) as (l & -> & Hkeys & Hl).
  { intros [x s] He. by apply elem_of_btree_entries. }
  cbn [mbind option_bind]. eexists. split; [done|].
  assert (NoDup (map fst l)) as Hnd by (rewrite Hkeys; apply btree_entries_keys).
  assert (Hin : ∀ x, x ∈ map fst l ↔ x ∈ dom g).
  { intros x. rewrite Hkeys, <- Hdom, elem_of_dom, list_elem_of_fmap. split.
    - intros ([y s] & -> & He%elem_of_btree_entries). by exists s.
    - intros [s Hs]. exists (x, s). split; [done|]. by apply elem_of_btree_entries. }
  split.
  - apply set_eq. intros x. rewrite dom_list_to_map_L, elem_of_list_to_set. apply Hin.
  - intros p x. split.
    + intros (s & Hs%elem_of_list_to_map_2 & Hp). by apply (Hl x s).
    + intros Hc. assert (x ∈ dom g) as [[y s] [-> Hs]]%Hin%list_elem_of_fmap.
      { destruct Hc as [(z & _ & He)%tc_last _]. by apply (Hclosed z). }
      exists s. split; [by apply elem_of_list_to_map_1|]. by apply (Hl y s).
Qed.

(** *** Nothing is lost: the kept edges still generate every path *)

Lemma reaches_iff p x : p ∈ dom g → reaches g p x = Some true ↔ tc (edge g) p x.
Proof. intros Hp. destruct (reaches_spec p x Hp) as (b & -> & <-). split; [by intros [= ->]|by intros ->]. Qed.

Definition between (p x : string) : gset string :=
  filter (λ o, reaches g p o = Some true ∧ reaches g o x = Some true) (dom g).

Lemma elem_of_between p x o : p ∈ dom g → o ∈ between p x ↔ tc (edge g) p o ∧ tc (edge g) o x.
Proof.
  intros Hp. unfold between. rewrite elem_of_filter, (reaches_iff p) by done. split.
  - intros [[Hpo Hox] Ho]. by rewrite reaches_iff in Hox.
  - intros [Hpo Hox]. assert (o ∈ dom g) as Ho.
    { apply tc_last in Hpo as (z & _ & He). by apply (Hclosed z). }
    split; [|done]. by rewrite reaches_iff.
Qed.

Lemma covers_generate p x : tc covers p x ↔ tc (edge g) p x.
Proof.
  split.
  - induction 1 as [a b [Hc _]|a b c [Hc _] _ IH]; [done|]. by apply (tc_trans _ b _).
  - remember (size (between p x)) as n eqn:En. revert p x En.
    induction (lt_wf n) as [n _ IH]. intros p x -> Ht.
    assert (Hp : p ∈ dom g) by (by inversion Ht as [? ? He|? ? ? He]; subst; apply edge_dom in He).
    destruct (set_choose_or_empty (between p x)) as [[o Ho]|Hempty].
    + pose proof Ho as Hb. apply elem_of_between in Ho as [Hpo Hox]; [|done].
      assert (Hod : o ∈ dom g) by (by inversion Hox as [? ? He|? ? ? He]; subst; apply edge_dom in He).
      apply (tc_trans _ o _); (eapply IH; [|reflexivity|done]); apply subset_size.
      * split; [intros z; rewrite !elem_of_between by done; intros [? ?]; split; [done|by apply (tc_trans _ o _)]|].
        intros Hsub. apply Hsub, elem_of_between in Hb as [_ Hoo]; [|done]. by apply (Hacyclic o).
      * split; [intros z; rewrite !elem_of_between by done; intros [? ?]; split; [by apply (tc_trans _ o _)|done]|].
        intros Hsub. apply Hsub, elem_of_between in Hb as [Hoo _]; [|done]. by apply (Hacyclic o).
    + apply tc_once. split; [done|]. intros (o & Hpo & Hox).
      assert (o ∈ between p x) by by apply elem_of_between. set_solver.
Qed.
End reaches_proofs.

(** ** The order is the greedy one *)

Section order_proofs.
Context {K : Type} (cmp : K → K → comparison) `{!Comparator cmp} (key : gmap string K) (g : graph).
Context (Hkey : dom g ⊆ dom key) (Hclosed : closed g).

(** [x] waits for nothing but [done]. *)
Definition ready_after (taken : gset string) (x : string) : Prop :=
  x ∈ dom g ∧ (x ∉ taken) ∧ ∀ p, edge g p x → p ∈ taken.
Definition no_greater (x y : string) : Prop :=
  ∃ kx ky, key !! x = Some kx ∧ key !! y = Some ky ∧ cmp kx ky ≠ Gt.

Inductive greedy (taken : gset string) : list string → Prop :=
| greedy_end : (∀ x, ¬ ready_after taken x) → greedy taken []
| greedy_take v l : ready_after taken v → (∀ y, ready_after taken y → no_greater y v) →
    greedy ({[v]} ∪ taken) l → greedy taken (v :: l).

(** The predecessors still to come. *)
Definition waits (taken : gset string) (x : string) : gset string := filter (λ p, edge g p x) (dom g ∖ taken).

Lemma elem_of_waits taken x p : p ∈ waits taken x ↔ edge g p x ∧ p ∉ taken.
Proof.
  unfold waits. rewrite elem_of_filter, elem_of_difference. pose proof (edge_dom g p x). tauto.
Qed.

Lemma ready_waits taken x : ready_after taken x ↔ x ∈ dom g ∧ x ∉ taken ∧ size (waits taken x) = 0.
Proof.
  unfold ready_after. rewrite size_empty_iff. split.
  - intros (? & ? & Hp). split; [done|]. split; [done|]. intros p. rewrite elem_of_waits. set_solver.
  - intros (? & ? & Hw). split; [done|]. split; [done|]. intros p He. destruct (decide (p ∈ taken)); [done|].
    assert (p ∈ waits taken x) by by apply elem_of_waits. set_solver.
Qed.

Lemma waits_take taken v x :
  v ∉ taken →
  size (waits taken x) = (if decide (edge g v x) then 1 else 0) + size (waits ({[v]} ∪ taken) x).
Proof.
  intros Hv. destruct (decide (edge g v x)) as [He|He].
  - assert (waits taken x = {[v]} ∪ waits ({[v]} ∪ taken) x) as ->.
    { apply set_eq. intros p. rewrite elem_of_union, elem_of_singleton, !elem_of_waits, elem_of_union, elem_of_singleton.
      destruct (decide (p = v)); naive_solver. }
    rewrite size_union, size_singleton; [done|]. intros p ->%elem_of_singleton. rewrite elem_of_waits. set_solver.
  - cbn [Nat.add]. f_equal. apply set_eq. intros p. rewrite !elem_of_waits, elem_of_union, elem_of_singleton.
    destruct (decide (p = v)); naive_solver.
Qed.

(** *** Choosing *)

Lemma no_greater_refl x : x ∈ dom g → no_greater x x.
Proof.
  intros [k Hk]%Hkey%elem_of_dom. exists k, k. split_and!; [done..|]. pose proof (cmp_flip (cmp:=cmp) k k) as E.
  by destruct (cmp k k).
Qed.
Lemma no_greater_trans x y z : no_greater x y → no_greater y z → no_greater x z.
Proof.
  intros (kx & ky & Ex & Ey & Hxy) (ky' & kz & Ey' & Ez & Hyz). assert (ky' = ky) as -> by congruence.
  exists kx, kz. split_and!; [done..|]. by apply (cmp_trans kx ky kz).
Qed.

Lemma max_key_spec l : ∀ best,
  best ∈ dom g → (∀ x, x ∈ l → x ∈ dom g) →
  ∃ v, max_key cmp key best l = Some v ∧ (v = best ∨ v ∈ l) ∧ ∀ y, y = best ∨ y ∈ l → no_greater y v.
Proof.
  induction l as [|x l IH]; intros best Hb Hl; cbn [max_key].
  - exists best. split; [done|]. split; [by left|]. intros y [->|Hy%elem_of_nil]; [by apply no_greater_refl|done].
  - assert (x ∈ dom g) as Hx by (apply Hl; by left).
    pose proof (Hkey _ Hb) as [kb Eb]%elem_of_dom. pose proof (Hkey _ Hx) as [kx Ex]%elem_of_dom.
    rewrite Eb, Ex. cbn [mbind option_bind].
    assert (Hl' : ∀ y, y ∈ l → y ∈ dom g) by (intros y Hy; apply Hl; by right).
    pose proof (cmp_flip (cmp:=cmp) kb kx) as Hflip.
    set (w := match cmp kb kx with Gt => best | _ => x end).
    assert (Hw : (w = best ∨ w = x) ∧ no_greater best w ∧ no_greater x w).
    { unfold w. destruct (cmp kb kx) eqn:Ec; (split; [auto|]); split; try by apply no_greater_refl.
      - exists kb, kx. rewrite Ec. done.
      - exists kb, kx. rewrite Ec. done.
      - exists kx, kb. rewrite Hflip. done. }
    destruct Hw as (Hor & Hbw & Hxw).
    destruct (IH w) as (v & -> & Hv & Hmax); [destruct Hor as [->| ->]; done|done|].
    exists v. split; [done|]. split; [set_solver|]. intros y Hy.
    assert (y = best ∨ y = x ∨ y ∈ l) as [->|[->|Hyl]] by set_solver.
    + by apply (no_greater_trans _ w); [|apply Hmax; left].
    + by apply (no_greater_trans _ w); [|apply Hmax; left].
    + apply Hmax. by right.
Qed.

(** *** Releasing *)

Lemma release_all ds : ∀ (m : gmap string nat) (r : gset string),
  NoDup ds → (∀ d, d ∈ ds → ∃ n, m !! d = Some (S n)) →
  ∃ m' r', fold_some release ds (m, r) = Some (m', r') ∧
    (∀ y, m' !! y = (if decide (y ∈ ds) then pred else id) <$> m !! y) ∧
    ∀ y, y ∈ r' ↔ y ∈ r ∨ y ∈ ds ∧ m !! y = Some 1.
Proof.
  induction ds as [|d ds IH]; intros m r Hnd Hm; cbn [fold_some].
  { exists m, r. split; [done|]. split; [|set_solver]. intros y. rewrite decide_False by set_solver.
    by destruct (m !! y). }
  apply NoDup_cons in Hnd as [Hd Hnd]. destruct (Hm d) as [n En]; [by left|].
  assert (release d (m, r) = Some (<[d := n]> m, if (n =? 0)%nat then {[d]} ∪ r else r)) as ->
    by (unfold release; by rewrite En).
  cbn [mbind option_bind].
  destruct (IH (<[d := n]> m) (if n =? 0 then {[d]} ∪ r else r)%nat Hnd) as (m' & r' & -> & Hm' & Hr').
  { intros y Hy. rewrite lookup_insert_ne by (by intros ->). apply Hm. by right. }
  exists m', r'. split; [done|]. split.
  - intros y. rewrite Hm'. destruct (decide (y = d)) as [->|Hne].
    + rewrite (decide_False (P := d ∈ ds)), (decide_True (P := d ∈ d :: ds)) by set_solver.
      by rewrite lookup_insert_eq, En.
    + rewrite lookup_insert_ne by done. destruct (decide (y ∈ ds)); [rewrite decide_True by set_solver|rewrite decide_False by set_solver]; done.
  - intros y. rewrite Hr'. destruct (decide (y = d)) as [->|Hne].
    + rewrite En, lookup_insert_eq. destruct n as [|n]; cbn [Nat.eqb]; [set_solver|].
      split; [|intros [Hy|[_ Hy]]; [by left|congruence]]. intros [Hy|[Hy _]]; [by left|done].
    + rewrite lookup_insert_ne by done. destruct (n =? 0)%nat; set_solver.
Qed.

(** *** The loop *)

Record ordering (taken : gset string) (m : gmap string nat) (r : gset string) : Prop := {
  or_taken x : x ∈ taken → x ∈ dom g ∧ ∀ p, edge g p x → p ∈ taken;
  or_degree x : x ∈ dom g → m !! x = Some (size (waits taken x));
  or_ready x : x ∈ r ↔ ready_after taken x }.

Lemma ordering_take taken m r v dependents :
  ordering taken m r → ready_after taken v → g !! v = Some dependents →
  ∃ m' r', fold_some release (btree_elements dependents) (m, r ∖ {[v]}) = Some (m', r') ∧
    ordering ({[v]} ∪ taken) m' r'.
Proof.
  intros [Ht Hd Hr] Hv Ev. pose proof Hv as (Hvd & Hvn & Hvp).
  assert (Hsucc : ∀ y, y ∈ btree_elements dependents ↔ edge g v y).
  { intros y. rewrite <- (neighbors_lookup g v dependents Ev). apply elem_of_neighbors. }
  assert (Hstep : ∀ y, edge g v y → m !! y = Some (S (size (waits ({[v]} ∪ taken) y)))).
  { intros y He. rewrite (Hd y) by (by apply (Hclosed v)). rewrite (waits_take taken v) by done.
    by rewrite decide_True by done. }
  assert (Hnot : ∀ y, edge g v y → y ∉ taken ∧ y ≠ v).
  { intros y He. split; [intros Hy; by apply Hvn, (Ht y Hy)|]. intros ->. by apply Hvn, Hvp. }
  destruct (release_all (btree_elements dependents) m (r ∖ {[v]})) as (m' & r' & E & Hm' & Hr').
  { unfold btree_elements. rewrite sort_by_key_Permutation. apply NoDup_elements. }
  { intros d Hin%Hsucc. eexists. by apply Hstep. }
  exists m', r'. split; [done|].
  assert (Hdeg : ∀ x, x ∈ dom g → m' !! x = Some (size (waits ({[v]} ∪ taken) x))).
  { intros x Hx. rewrite Hm'. destruct (decide _) as [He%Hsucc|He]; [by rewrite (Hstep x He)|].
    rewrite Hsucc in He. rewrite (Hd x Hx), (waits_take taken v) by done. by rewrite decide_False by done. }
  split; [|done|].
  - intros x [->%elem_of_singleton|Hx]%elem_of_union.
    + split; [done|]. intros p Hp. apply elem_of_union. right. by apply Hvp.
    + destruct (Ht x Hx) as [? Hp]. split; [done|]. intros p He. apply elem_of_union. right. by apply Hp.
  - intros x. rewrite Hr', elem_of_difference, elem_of_singleton, Hr, Hsucc, !ready_waits, elem_of_union, elem_of_singleton.
    split.
    + intros [[(? & ? & Hw) Hne]|[He Em]].
      * split; [done|]. split; [tauto|]. rewrite (waits_take taken v) in Hw by done. lia.
      * destruct (Hnot x He). split; [by apply (Hclosed v)|]. split; [tauto|].
        rewrite (Hstep x He) in Em. by injection Em.
    + intros (Hx & Hne & Hw). destruct (decide (edge g v x)) as [He|He].
      * right. split; [done|]. by rewrite (Hstep x He), Hw.
      * left. rewrite (waits_take taken v), decide_False by done. tauto.
Qed.

Lemma take_ready_greedy fuel : ∀ taken m r ordered,
  ordering taken m r → size (dom g ∖ taken) ≤ fuel →
  ∃ l, take_ready cmp key g fuel m r ordered = Some (ordered ++ l) ∧ greedy taken l.
Proof.
  induction fuel as [|fuel IH]; intros taken m r ordered Ho Hfuel; cbn [take_ready];
    destruct (btree_elements r) as [|x rest] eqn:Er.
  1,3: exists []; rewrite app_nil_r; split; [done|]; constructor; intros y Hy%(or_ready _ _ _ Ho)%elem_of_btree_elements;
       rewrite Er in Hy; by apply elem_of_nil in Hy.
  - assert (ready_after taken x) as (Hx & Hn & _).
    { apply (or_ready _ _ _ Ho), elem_of_btree_elements. rewrite Er. by left. }
    assert (x ∈ dom g ∖ taken) by set_solver. assert (size (dom g ∖ taken) ≠ 0); [|lia].
    intros E%size_empty_inv. set_solver.
  - assert (Hr : ∀ y, y = x ∨ y ∈ rest ↔ ready_after taken y).
    { intros y. rewrite <- (or_ready _ _ _ Ho), <- elem_of_btree_elements, Er, elem_of_cons. done. }
    destruct (max_key_spec rest x) as (v & -> & Hv & Hmax).
    { apply (Hr x). by left. }
    { intros y Hy. apply (Hr y). by right. }
    apply Hr in Hv. pose proof Hv as (Hvd & Hvn & _). pose proof Hvd as [s Es]%elem_of_dom.
    cbn [mbind option_bind]. rewrite Es. cbn [mbind option_bind].
    destruct (ordering_take taken m r v s Ho Hv Es) as (m' & r' & -> & Ho'). cbn [mbind option_bind].
    destruct (IH ({[v]} ∪ taken) m' r' (ordered ++ [v]) Ho') as (l & -> & Hl).
    { assert (size (dom g ∖ ({[v]} ∪ taken)) < size (dom g ∖ taken)); [|lia]. apply subset_size. set_solver. }
    exists (v :: l). rewrite <- app_assoc. split; [done|]. constructor; [done| |done].
    intros y Hy%Hr. by apply Hmax.
Qed.

(** *** The degrees *)

Lemma count_all ds : ∀ (m : gmap string nat),
  NoDup ds → (∀ d, d ∈ ds → d ∈ dom m) →
  ∃ m', fold_some count_edge ds m = Some m' ∧
    ∀ y, m' !! y = (λ n, (if decide (y ∈ ds) then 1 else 0) + n) <$> m !! y.
Proof.
  induction ds as [|d ds IH]; intros m Hnd Hm; cbn [fold_some].
  { exists m. split; [done|]. intros y. rewrite decide_False by set_solver. by destruct (m !! y). }
  apply NoDup_cons in Hnd as [Hd Hnd]. pose proof (Hm d ltac:(by left)) as [n En]%elem_of_dom.
  assert (count_edge d m = Some (<[d := S n]> m)) as -> by (unfold count_edge; by rewrite En).
  cbn [mbind option_bind].
  destruct (IH (<[d := S n]> m) Hnd) as (m' & E & Hm').
  { intros y Hy. rewrite dom_insert_L. apply elem_of_union. right. apply Hm. by right. }
  exists m'. split; [exact E|]. intros y. rewrite Hm'. destruct (decide (y = d)) as [->|Hne].
  - rewrite (decide_False (P := d ∈ ds)), (decide_True (P := d ∈ d :: ds)) by set_solver.
    by rewrite lookup_insert_eq, En.
  - rewrite lookup_insert_ne by done.
    destruct (decide (y ∈ ds)); [rewrite decide_True by set_solver|rewrite decide_False by set_solver]; done.
Qed.

Definition sources (y : string) (es : list (string * gset string)) : nat :=
  length (filter (λ e, y ∈ snd e) es).

Lemma indegrees_from es : ∀ m : gmap string nat,
  (∀ x s, (x, s) ∈ es → g !! x = Some s) → dom m = dom g →
  ∃ m', fold_some (λ ds, fold_some count_edge (btree_elements ds)) (map snd es) m = Some m' ∧
    ∀ y, m' !! y = Nat.add (sources y es) <$> m !! y.
Proof.
  induction es as [|[x s] es IH]; intros m Hes Hm; cbn [fold_some map snd].
  { exists m. split; [done|]. intros y. by destruct (m !! y). }
  destruct (count_all (btree_elements s) m) as (m1 & -> & Hm1).
  { unfold btree_elements. rewrite sort_by_key_Permutation. apply NoDup_elements. }
  { intros d Hd%elem_of_btree_elements. rewrite Hm. apply (Hclosed x). exists s. split; [|done].
    apply Hes. by left. }
  cbn [mbind option_bind]. destruct (IH m1) as (m' & E & Hm').
  { intros y t Hy. apply Hes. by right. }
  { rewrite <- Hm. apply set_eq. intros y. rewrite !elem_of_dom, Hm1. by destruct (m !! y). }
  exists m'. split; [exact E|]. intros y. rewrite Hm', Hm1. unfold sources. rewrite filter_cons. cbn [snd].
  destruct (m !! y) as [n|]; [|done]. cbn [fmap option_fmap option_map]. f_equal.
  destruct (decide (y ∈ s)) as [Hy|Hy].
  - rewrite decide_True by by apply elem_of_btree_elements. cbn [length]. lia.
  - rewrite decide_False by by rewrite elem_of_btree_elements. lia.
Qed.

Lemma sources_waits y : sources y (btree_entries g) = size (waits ∅ y).
Proof.
  assert (waits ∅ y = list_to_set (map fst (filter (λ e, y ∈ snd e) (btree_entries g)))) as ->.
  { apply set_eq. intros p. rewrite elem_of_waits, elem_of_list_to_set, list_elem_of_fmap. split.
    - intros [(s & Es & Hy) _]. exists (p, s). split; [done|]. apply list_elem_of_filter.
      split; [done|]. by apply elem_of_btree_entries.
    - intros ([q s] & -> & [Hy Hin%elem_of_btree_entries]%list_elem_of_filter). split; [by exists s|set_solver]. }
  rewrite size_list_to_set; [by rewrite length_map|].
  pose proof (btree_entries_keys g) as Hn. revert Hn. generalize (btree_entries g).
  induction l as [|[q s] l IH]; [done|]. cbn [map]. intros [Hq Hn]%NoDup_cons. rewrite filter_cons. cbn [snd].
  destruct (decide (y ∈ s)); [|by apply IH]. cbn [map fst]. constructor; [|by apply IH].
  intros ([q' s'] & E & [_ Hin]%list_elem_of_filter)%list_elem_of_fmap. apply Hq. cbn in E. subst.
  apply list_elem_of_fmap. by exists (q', s').
Qed.

Lemma indegrees_spec :
  ∃ m, indegrees g = Some m ∧ ordering ∅ m (zero_degree m).
Proof.
  destruct (indegrees_from (btree_entries g) (gset_to_gmap 0 (dom g))) as (m & E & Hm).
  { intros x s Hx. by apply elem_of_btree_entries. }
  { apply dom_gset_to_gmap. }
  exists m. split; [exact E|].
  assert (Hin : ∀ y, y ∈ dom g → m !! y = Some (size (waits ∅ y))).
  { intros y Hy. rewrite Hm, sources_waits. rewrite (proj2 (lookup_gset_to_gmap_Some 0 (dom g) y 0)) by done.
    cbn. f_equal. lia. }
  split; [set_solver|done|]. intros x. rewrite ready_waits. unfold zero_degree. rewrite elem_of_dom. split.
  - intros [n [En Hn]%map_lookup_filter_Some]. cbn in Hn. subst n.
    assert (x ∈ dom g) as Hx.
    { destruct (decide (x ∈ dom g)) as [|Hx]; [done|]. rewrite Hm in En.
      rewrite (proj2 (lookup_gset_to_gmap_None 0 (dom g) x)) in En by done. done. }
    rewrite (Hin x Hx) in En. injection En as En. split; [done|]. split; [set_solver|done].
  - intros (Hx & _ & Hw). exists 0. apply map_lookup_filter_Some. split; [|done]. by rewrite (Hin x Hx), Hw.
Qed.

(** *** What the greedy order is *)

Lemma greedy_spec l : ∀ taken,
  greedy taken l →
  (∀ l1 v l2, l = l1 ++ v :: l2 →
    ready_after (list_to_set l1 ∪ taken) v ∧
    ∀ y, ready_after (list_to_set l1 ∪ taken) y → no_greater y v) ∧
  ∀ x, ¬ ready_after (list_to_set l ∪ taken) x.
Proof.
  induction l as [|v l IH]; intros taken Hg; inversion Hg as [Hend|? ? Hv Hmax Hl]; subst.
  - split; [by intros [|??] ?? ?|]. intros x. cbn. rewrite union_empty_l_L. apply Hend.
  - destruct (IH _ Hl) as [Hsplit Hend']. split.
    + intros [|u l1] w l2 [= -> E].
      * assert (list_to_set [] ∪ taken = taken) as -> by set_solver. split; [exact Hv|exact Hmax].
      * assert (list_to_set (u :: l1) ∪ taken = list_to_set l1 ∪ ({[u]} ∪ taken)) as -> by set_solver.
        by apply (Hsplit l1 w l2).
    + intros x. assert (list_to_set (v :: l) ∪ taken = list_to_set l ∪ ({[v]} ∪ taken)) as -> by set_solver.
      apply Hend'.
Qed.

Lemma greedy_NoDup l : ∀ taken, greedy taken l → NoDup l ∧ ∀ x, x ∈ l → x ∈ dom g ∧ x ∉ taken.
Proof.
  induction l as [|v l IH]; intros taken Hg; [by split; [constructor|intros x ?%elem_of_nil]|].
  inversion Hg as [|? ? (Hv & Hn & _) _ Hl]; subst. destruct (IH _ Hl) as [Hnd Hin]. split.
  - constructor; [|done]. intros [_ Hout]%Hin. set_solver.
  - intros x [->|Hx]%elem_of_cons; [done|]. destruct (Hin x Hx). set_solver.
Qed.

(** With nothing ready every node was taken: an acyclic graph that waits forever
    would descend forever. *)
Lemma nothing_ready taken :
  (∀ x, ¬ cyclic g x) → (∀ x, ¬ ready_after taken x) → ∀ x, x ∈ dom g → x ∈ taken.
Proof.
  intros Hacyclic Hend.
  assert (Htc : ∀ x y, tc (flip (edge g)) x y → tc (edge g) y x).
  { induction 1 as [x y Hxy|x y z Hxy _ IH]; [by apply tc_once|]. by apply (tc_r _ y). }
  assert (Hsn : ∀ x, sn (flip (edge g)) x).
  { intros x. apply tc_finite_sn.
    - intros y Hy%Htc. by apply (Hacyclic y).
    - exists (elements (dom g)). intros y Hy%Htc. apply elem_of_elements.
      inversion Hy as [? ? He|? ? ? He]; subst; by apply edge_dom in He. }
  intros x. induction (Hsn x) as [x _ IH]. intros Hx. destruct (decide (x ∈ taken)) as [|Hn]; [done|].
  exfalso. apply (Hend x). split; [done|]. split; [done|]. intros p He. apply IH; [exact He|].
  by apply edge_dom in He.
Qed.

Lemma ordered_ids_spec :
  (∀ x, ¬ cyclic g x) →
  ∃ l, ordered_ids cmp key g true = Some l ∧ l ≡ₚ elements (dom g) ∧
    ∀ l1 v l2, l = l1 ++ v :: l2 →
      (∀ p, edge g p v → p ∈ l1) ∧
      ∀ y, y ∈ dom g → y ∉ l1 → (∀ p, edge g p y → p ∈ l1) → no_greater y v.
Proof.
  intros Hacyclic. destruct indegrees_spec as (m & Em & Ho). unfold ordered_ids. rewrite Em. cbn [mbind option_bind].
  destruct (take_ready_greedy (size (dom g)) ∅ m (zero_degree m) [] Ho) as (l & -> & Hg).
  { by rewrite difference_empty_L. }
  exists l. split; [done|]. destruct (greedy_spec l ∅ Hg) as [Hsplit Hend]. destruct (greedy_NoDup l ∅ Hg) as [Hnd Hin].
  rewrite union_empty_r_L in Hend. split.
  - apply NoDup_Permutation; [done|apply NoDup_elements|]. intros x. rewrite elem_of_elements. split; [by intros [? _]%Hin|].
    intros Hx. apply (nothing_ready _ Hacyclic Hend) in Hx. by rewrite elem_of_list_to_set in Hx.
  - intros l1 v l2 E. destruct (Hsplit l1 v l2 E) as [(_ & _ & Hp) Hmax]. rewrite union_empty_r_L in Hp, Hmax. split.
    + intros p He%Hp. by rewrite elem_of_list_to_set in He.
    + intros y Hy Hn Hpy. apply Hmax. split; [done|]. rewrite elem_of_list_to_set. split; [done|].
      intros p He. rewrite elem_of_list_to_set. by apply Hpy.
Qed.
End order_proofs.
