(* ===== verification/IssuePlan.v ===== *)
(** * Issue plans

    [workflow-runtime/src/issue_plan.rs]: [build_todo_plan] checks the cards,
    the titles and the explicit edges, orders the cards when the edges are
    acyclic and reports the cycles when they are not, and renders the plan
    within its bound.  The outer [option] is the panics of the code (a missing
    key, an exhausted loop), which the theorem excludes. *)

From S2P Require Import Prelude Json Text Order TypedProtocol IssueCard IssueScc IssueOrder.

(*| runtime/issue_plan.rs 14-14 ISSUE_PLAN_MAX_CARDS *)
Definition ISSUE_PLAN_MAX_CARDS : nat := 64.
(*| runtime/issue_plan.rs 16-16 ISSUE_PLAN_MAX_EDGES *)
Definition ISSUE_PLAN_MAX_EDGES : nat := ISSUE_PLAN_MAX_CARDS * ISSUE_PLAN_MAX_CARDS.
(*| runtime/issue_plan.rs 17-17 ISSUE_PLAN_MAX_RENDERED_BYTES *)
Definition ISSUE_PLAN_MAX_RENDERED_BYTES : Z := 32768.

(*| runtime/issue_plan.rs 79-100 IssuePlanError *)
Inductive IssuePlanError :=
| TooManyCards | TooManyEdges
| DuplicateCardId (id : string) | UnknownEdgeEndpoint (id : string) | InvalidEdgeEndpoint
| MissingTitle (id : string) | ExtraTitle (id : string) | DuplicateTitle (id : string)
| EmptyTitle | RenderedTooLarge.
(*| runtime/issue_plan.rs 103-120 IssuePlanError::fmt *)
Definition plan_error_text (e : IssuePlanError) : string :=
  match e with
  | TooManyCards => "issue plan exceeds its card bound"
  | TooManyEdges => "issue plan exceeds its explicit edge bound"
  | DuplicateCardId id => "duplicate issue-card id: " +:+ id
  | UnknownEdgeEndpoint id => "explicit issue edge names unknown card " +:+ id
  | InvalidEdgeEndpoint => "explicit issue edge endpoint is invalid"
  | MissingTitle id => "missing title for card " +:+ id
  | ExtraTitle id => "extra title for unknown card " +:+ id
  | DuplicateTitle id => "duplicate title for card " +:+ id
  | EmptyTitle => "issue-plan title is empty or too large"
  | RenderedTooLarge => "issue plan render exceeds its bound"
  end.

(*| runtime/issue_plan.rs 21-24 IssuePlanTitle *)
Record IssuePlanTitle := mk_Title { title_id : string; title_text : string }.
(*| runtime/issue_plan.rs 28-39 IssuePlanTitle::new *)
Definition IssuePlanTitle_new (id title : string) : result IssuePlanError IssuePlanTitle :=
  map_err (λ _, EmptyTitle) (validate_field id);;
  if is_blank title || any_control title || (4 * 1024 <? str_len title)%Z then Err EmptyTitle
  else Ok (mk_Title id title).

(*| runtime/issue_plan.rs 44-47 ExplicitIssueEdge *)
Record ExplicitIssueEdge := mk_Edge { predecessor_id : string; dependent_id : string }.
(*| runtime/issue_plan.rs 51-64 ExplicitIssueEdge::new *)
Definition ExplicitIssueEdge_new (predecessor dependent : string) : result IssuePlanError ExplicitIssueEdge :=
  map_err (λ _, InvalidEdgeEndpoint) (validate_field predecessor);;
  map_err (λ _, InvalidEdgeEndpoint) (validate_field dependent);;
  Ok (mk_Edge predecessor dependent).

(*| runtime/issue_plan.rs 127-132 TodoItem *)
Record TodoItem := mk_Item {
  item_id : string; item_title : string; item_prerequisites : list string; item_key : PriorityOrderKey }.
(*| runtime/issue_plan.rs 158-168 TodoPlan *)
Inductive TodoPlan :=
| Resolved (items : list TodoItem)
| Unresolved (items : list TodoItem) (cycles : list (list string)).

(*| runtime/issue_plan.rs 243-247 TodoPlan::items *)
Definition plan_items (plan : TodoPlan) : list TodoItem :=
  match plan with Resolved items | Unresolved items _ => items end.
(*| runtime/issue_plan.rs 190-195 TodoPlan::cycles *)
Definition plan_cycles (plan : TodoPlan) : list (list string) :=
  match plan with Resolved _ => [] | Unresolved _ cycles => cycles end.
(*| runtime/issue_plan.rs 180-182 TodoPlan::item_ids *)
Definition item_ids (plan : TodoPlan) : list string := map item_id (plan_items plan).
(*| runtime/issue_plan.rs 185-187 TodoPlan::item *)
Definition plan_item (id : string) (plan : TodoPlan) : option TodoItem :=
  List.find (λ item, str_eqb (item_id item) id) (plan_items plan).

(** ** Rendering *)

(*| runtime/issue_plan.rs 200-203 TodoPlan::render_markdown *)
Definition plan_status (plan : TodoPlan) : string :=
  match plan with Resolved _ => "resolved" | Unresolved _ _ => "unresolved" end.

(*| runtime/issue_plan.rs 496-502 bounded *)
Definition bounded (rendered : string) : result IssuePlanError string :=
  if (ISSUE_PLAN_MAX_RENDERED_BYTES <? str_len rendered)%Z then Err RenderedTooLarge else Ok rendered.

(*| runtime/issue_plan.rs 199-225 TodoPlan::render_markdown *)
Definition plan_markdown (plan : TodoPlan) : string :=
  "status: " +:+ plan_status plan +:+ newline +:+
  String.concat "" (map (λ item, "- " +:+ escape_markdown (item_id item) +:+ " " +:+
    escape_markdown (item_title item) +:+ newline) (plan_items plan)) +:+
  String.concat "" (map (λ cycle, "cycle: " +:+ String.concat " " (map escape_markdown cycle) +:+ newline)
    (plan_cycles plan)).
(*| runtime/issue_plan.rs 198-227 TodoPlan::render_markdown *)
Definition render_markdown (plan : TodoPlan) : result IssuePlanError string := bounded (plan_markdown plan).

Section json.
Context `{IntJson}.

(** [json!] sorts the fields of every object. *)
(*| runtime/issue_plan.rs 126-132 TodoItem *)
Definition item_value (item : TodoItem) : Value :=
  let k := item_key item in
  Object [("id", VString (item_id item)); ("prerequisites", jstrings (item_prerequisites item));
          ("priority_order_key", Object
            [("actionability_rank", jnum (actionability_rank k)); ("dependency_rank", jnum (dependency_rank k));
             ("effort_rank", jnum (effort_rank k)); ("id", VString (key_id k));
             ("impact_rank", jnum (impact_rank k)); ("urgency_rank", jnum (urgency_rank k));
             ("version", jnum (key_version k))]);
          ("title", VString (item_title item))].
(*| runtime/issue_plan.rs 231-239 TodoPlan::render_json *)
Definition plan_value (plan : TodoPlan) : Value :=
  Object [("cycles", Array (map jstrings (plan_cycles plan))); ("items", Array (map item_value (plan_items plan)));
          ("status", VString (plan_status plan))].
(*| runtime/issue_plan.rs 230-241 TodoPlan::render_json *)
Definition render_json (plan : TodoPlan) : result IssuePlanError string := bounded (compact (plan_value plan)).
End json.

(** ** Checking the inputs *)

(*| runtime/issue_plan.rs 263-267 build_todo_plan *)
Definition add_card (card : IssueCardV1) (m : gmap string IssueCardV1) :
    result IssuePlanError (gmap string IssueCardV1) :=
  match m !! card_id card with
  | Some _ => Err (DuplicateCardId (card_id card))
  | None => Ok (<[card_id card := card]> m)
  end.

(*| runtime/issue_plan.rs 269-279 build_todo_plan *)
Definition add_title (by_id : gmap string IssueCardV1) (title : IssuePlanTitle) (m : gmap string string) :
    result IssuePlanError (gmap string string) :=
  if bool_decide (title_id title ∈ dom by_id) then
    match m !! title_id title with
    | Some _ => Err (DuplicateTitle (title_id title))
    | None => Ok (<[title_id title := title_text title]> m)
    end
  else Err (ExtraTitle (title_id title)).

(*| runtime/issue_plan.rs 281-283 build_todo_plan *)
Definition check_title (title_by_id : gmap string string) (id : string) : result IssuePlanError unit :=
  ensure (bool_decide (id ∈ dom title_by_id)) (MissingTitle id).

(** Both endpoints are keys of both maps once they are known. *)
(*| runtime/issue_plan.rs 291-310 build_todo_plan *)
Definition add_edge (by_id : gmap string IssueCardV1) (e : ExplicitIssueEdge) (s : graph * graph) :
    result IssuePlanError (graph * graph) :=
  let '(predecessors, successors) := s in
  ensure (bool_decide (predecessor_id e ∈ dom by_id)) (UnknownEdgeEndpoint (predecessor_id e));;
  ensure (bool_decide (dependent_id e ∈ dom by_id)) (UnknownEdgeEndpoint (dependent_id e));;
  Ok (alter (union {[predecessor_id e]}) (dependent_id e) predecessors,
      alter (union {[dependent_id e]}) (predecessor_id e) successors).

(*| runtime/issue_plan.rs 256-310 build_todo_plan *)
Definition plan_inputs (cards : list IssueCardV1) (edges : list ExplicitIssueEdge) (titles : list IssuePlanTitle) :
    result IssuePlanError (gmap string IssueCardV1 * gmap string string * (graph * graph)) :=
  if (ISSUE_PLAN_MAX_CARDS <? length cards)%nat || (ISSUE_PLAN_MAX_CARDS <? length titles)%nat then Err TooManyCards
  else if (ISSUE_PLAN_MAX_EDGES <? length edges)%nat then Err TooManyEdges
  else
    by_id ← try_fold add_card cards ∅;
    title_by_id ← try_fold (add_title by_id) titles ∅;
    for_each (check_title title_by_id) (btree_elements (dom by_id));;
    let empty := gset_to_gmap ∅ (dom by_id) in
    graphs ← try_fold (add_edge by_id) edges (empty, empty);
    Ok (by_id, title_by_id, graphs).

(** ** Planning *)

(*| runtime/issue_plan.rs 319-324 build_todo_plan *)
Definition todo_item (by_id : gmap string IssueCardV1) (title_by_id : gmap string string) (reduced : graph)
    (id : string) : option TodoItem :=
  title ← title_by_id !! id;
  prerequisites ← (reduced !! id : option (gset string));
  card ← by_id !! id;
  Some (mk_Item id title (btree_elements prerequisites) (priority_order card)).

(*| runtime/issue_plan.rs 311-330 build_todo_plan *)
Definition plan_of (by_id : gmap string IssueCardV1) (title_by_id : gmap string string) (graphs : graph * graph) :
    option TodoPlan :=
  let '(predecessors, successors) := graphs in
  cycles ← strongly_connected successors;
  reduced ← (if is_nil cycles then transitive_reduction successors predecessors else Some predecessors);
  ids ← ordered_ids order_key_cmp (priority_order <$> by_id) successors (is_nil cycles);
  items ← mapM (todo_item by_id title_by_id reduced) ids;
  Some (if is_nil cycles then Resolved items else Unresolved items cycles).

(*| runtime/issue_plan.rs 251-334 build_todo_plan *)
Definition build_todo_plan `{IntJson} (cards : list IssueCardV1) (edges : list ExplicitIssueEdge)
    (titles : list IssuePlanTitle) : option (result IssuePlanError TodoPlan) :=
  match plan_inputs cards edges titles with
  | Err e => Some (Err e)
  | Ok (by_id, title_by_id, graphs) =>
      plan ← plan_of by_id title_by_id graphs;
      Some (render_markdown plan;; render_json plan;; Ok plan)
  end.

(** ** Which inputs are admitted *)

Section inputs.
Context (cards : list IssueCardV1) (edges : list ExplicitIssueEdge) (titles : list IssuePlanTitle).

Abbreviation ids := (map card_id cards).

Record admitted : Prop := {
  ad_cards : length cards ≤ ISSUE_PLAN_MAX_CARDS;
  ad_titles : length titles ≤ ISSUE_PLAN_MAX_CARDS;
  ad_edges : length edges ≤ ISSUE_PLAN_MAX_EDGES;
  ad_unique : NoDup ids;
  ad_named : map title_id titles ≡ₚ ids;
  ad_known e : e ∈ edges → predecessor_id e ∈ ids ∧ dependent_id e ∈ ids }.

Definition repeated (l : list string) (x : string) : Prop := ∃ l1 l2, l = l1 ++ x :: l2 ∧ x ∈ l1.

(** What each error says of the inputs. *)
Definition fault (e : IssuePlanError) : Prop :=
  match e with
  | TooManyCards => ISSUE_PLAN_MAX_CARDS < length cards ∨ ISSUE_PLAN_MAX_CARDS < length titles
  | TooManyEdges => ISSUE_PLAN_MAX_EDGES < length edges
  | DuplicateCardId x => repeated ids x
  | ExtraTitle x => x ∈ map title_id titles ∧ x ∉ ids
  | DuplicateTitle x => repeated (map title_id titles) x
  | MissingTitle x => x ∈ ids ∧ x ∉ map title_id titles
  | UnknownEdgeEndpoint x => ∃ e, e ∈ edges ∧ (x = predecessor_id e ∨ x = dependent_id e) ∧ x ∉ ids
  | RenderedTooLarge => admitted
  | InvalidEdgeEndpoint | EmptyTitle => False
  end.

(** The relation the edges state. *)
Definition dependency (p d : string) : Prop := mk_Edge p d ∈ edges.

Lemma add_cards_spec l : ∀ done m,
  (∀ k c, m !! k = Some c ↔ c ∈ done ∧ card_id c = k) → NoDup (map card_id done) →
  match try_fold add_card l m with
  | Ok m' => NoDup (map card_id (done ++ l)) ∧ ∀ k c, m' !! k = Some c ↔ c ∈ done ++ l ∧ card_id c = k
  | Err e => ∃ x l1 l2, e = DuplicateCardId x ∧ map card_id (done ++ l) = l1 ++ x :: l2 ∧ x ∈ l1
  end.
Proof.
  induction l as [|c l IH]; intros done m Hm Hn; cbn [try_fold]; [by rewrite app_nil_r|].
  destruct (add_card c m) as [m1|err] eqn:Ea; unfold add_card in Ea;
    destruct (m !! card_id c) as [c'|] eqn:Ec; simplify_eq; cbn [mbind result_bind]; swap 1 2.
  - apply Hm in Ec as [Hc' E]. exists (card_id c), (map card_id done), (map card_id l). split; [done|].
    rewrite map_app. split; [done|]. apply list_elem_of_fmap. by exists c'.
  - assert (Hnew : card_id c ∉ map card_id done).
    { intros (c' & E & Hc')%list_elem_of_fmap. assert (m !! card_id c = Some c') by by apply Hm. congruence. }
    specialize (IH (done ++ [c]) (<[card_id c := c]> m)). rewrite <- app_assoc in IH. apply IH.
    + intros k c'. rewrite elem_of_app, list_elem_of_singleton. destruct (decide (k = card_id c)) as [->|Hne].
      * rewrite lookup_insert_eq. split; [intros [= ->]; auto|].
        intros [[Hc'|Hc'] E]; [|by subst]. exfalso. apply Hnew, list_elem_of_fmap. by exists c'.
      * rewrite lookup_insert_ne, Hm by done. naive_solver.
    + rewrite map_app. apply NoDup_app. split; [done|]. split; [|apply NoDup_singleton].
      intros x Hx ->%list_elem_of_singleton. done.
Qed.

Lemma add_titles_spec by_id l : ∀ done m,
  (∀ k t, m !! k = Some t ↔ mk_Title k t ∈ done) → NoDup (map title_id done) →
  (∀ x, x ∈ map title_id done → x ∈ dom by_id) →
  match try_fold (add_title by_id) l m with
  | Ok m' => NoDup (map title_id (done ++ l)) ∧ (∀ x, x ∈ map title_id (done ++ l) → x ∈ dom by_id) ∧
      ∀ k t, m' !! k = Some t ↔ mk_Title k t ∈ done ++ l
  | Err e => ∃ x, (e = ExtraTitle x ∧ x ∈ map title_id (done ++ l) ∧ x ∉ dom by_id) ∨
      (e = DuplicateTitle x ∧ ∃ l1 l2, map title_id (done ++ l) = l1 ++ x :: l2 ∧ x ∈ l1)
  end.
Proof.
  induction l as [|[k0 t0] l IH]; intros done m Hm Hn Hd; cbn [try_fold]; [by rewrite app_nil_r|].
  assert (add_title by_id (mk_Title k0 t0) m =
    if bool_decide (k0 ∈ dom by_id) then match m !! k0 with Some _ => Err (DuplicateTitle k0) | None => Ok (<[k0 := t0]> m) end
    else Err (ExtraTitle k0)) as -> by done.
  case_bool_decide as Hk; cbn [mbind result_bind].
  - destruct (m !! k0) as [t|] eqn:Et; cbn [mbind result_bind].
    + apply Hm in Et. exists k0. right. split; [done|]. exists (map title_id done), (map title_id l).
      rewrite map_app. split; [done|]. apply list_elem_of_fmap. by exists (mk_Title k0 t).
    + assert (Hnew : k0 ∉ map title_id done).
      { intros ([k1 t1] & E & Ht)%list_elem_of_fmap. cbn in E. subst k1.
        assert (m !! k0 = Some t1) by by apply Hm. congruence. }
      specialize (IH (done ++ [mk_Title k0 t0]) (<[k0 := t0]> m)). rewrite <- app_assoc in IH. apply IH.
      * intros k t. rewrite elem_of_app, list_elem_of_singleton. destruct (decide (k = k0)) as [->|Hne].
        -- rewrite lookup_insert_eq. split; [intros [= ->]; auto|].
           intros [Ht|[= ->]]; [|done]. exfalso. apply Hnew, list_elem_of_fmap. by exists (mk_Title k0 t).
        -- rewrite lookup_insert_ne, Hm by done. naive_solver.
      * rewrite map_app. apply NoDup_app. split; [done|]. split; [|apply NoDup_singleton].
        intros x Hx ->%list_elem_of_singleton. done.
      * intros x. rewrite map_app, elem_of_app. cbn [map title_id]. rewrite list_elem_of_singleton. intros [?| ->]; auto.
  - exists k0. left. split; [done|]. split; [|done]. apply list_elem_of_fmap. exists (mk_Title k0 t0).
    split; [done|]. apply elem_of_app. right. by left.
Qed.

(** The two maps after some edges. *)
Definition graphs_of (nodes : gset string) (done : list ExplicitIssueEdge) (s : graph * graph) : Prop :=
  dom (fst s) = nodes ∧ dom (snd s) = nodes ∧
  (∀ p d, edge (fst s) d p ↔ mk_Edge p d ∈ done) ∧ ∀ p d, edge (snd s) p d ↔ mk_Edge p d ∈ done.

Lemma edge_alter_union (m : graph) k x a b :
  k ∈ dom m → edge (alter (union {[x]}) k m) a b ↔ edge m a b ∨ a = k ∧ b = x.
Proof.
  intros [s Hs]%elem_of_dom. unfold edge. destruct (decide (a = k)) as [->|Hne].
  - rewrite lookup_alter_eq, Hs. cbn. split.
    + intros (t & [= <-] & Hb). set_unfold. destruct Hb as [->|Hb]; [auto|left; eauto].
    + intros [(t & [= <-] & Hb)|[_ ->]]; eexists; (split; [done|]); set_solver.
  - rewrite lookup_alter_ne by done. naive_solver.
Qed.

Lemma add_edges_spec by_id l : ∀ done s,
  graphs_of (dom by_id) done s →
  match try_fold (add_edge by_id) l s with
  | Ok s' => graphs_of (dom by_id) (done ++ l) s' ∧
      ∀ e, e ∈ l → predecessor_id e ∈ dom by_id ∧ dependent_id e ∈ dom by_id
  | Err err => ∃ x e, err = UnknownEdgeEndpoint x ∧ e ∈ l ∧ (x = predecessor_id e ∨ x = dependent_id e) ∧
      x ∉ dom by_id
  end.
Proof.
  induction l as [|e l IH]; intros done [ps ss] (Hp & Hs & Ep & Es); cbn [try_fold].
  { rewrite app_nil_r. split; [done|]. intros e ?%elem_of_nil. done. }
  assert (add_edge by_id e (ps, ss) =
    (ensure (bool_decide (predecessor_id e ∈ dom by_id)) (UnknownEdgeEndpoint (predecessor_id e));;
     ensure (bool_decide (dependent_id e ∈ dom by_id)) (UnknownEdgeEndpoint (dependent_id e));;
     Ok (alter (union {[predecessor_id e]}) (dependent_id e) ps,
         alter (union {[dependent_id e]}) (predecessor_id e) ss))) as -> by done.
  destruct (bool_decide_reflect (predecessor_id e ∈ dom by_id)) as [Hpre|Hpre]; cbn [ensure mbind result_bind];
    [|exists (predecessor_id e), e; split; [done|]; split; [by left|]; auto].
  destruct (bool_decide_reflect (dependent_id e ∈ dom by_id)) as [Hdep|Hdep]; cbn [ensure mbind result_bind];
    [|exists (dependent_id e), e; split; [done|]; split; [by left|]; auto].
  cbn [fst snd] in *.
  specialize (IH (done ++ [e]) (alter (union {[predecessor_id e]}) (dependent_id e) ps,
    alter (union {[dependent_id e]}) (predecessor_id e) ss)). rewrite <- app_assoc in IH.
  assert (He : ∀ p d, mk_Edge p d ∈ done ++ [e] ↔ mk_Edge p d ∈ done ∨ p = predecessor_id e ∧ d = dependent_id e).
  { intros p d. rewrite elem_of_app, list_elem_of_singleton. destruct e as [a b]. cbn. naive_solver. }
  assert (graphs_of (dom by_id) (done ++ [e]) (alter (union {[predecessor_id e]}) (dependent_id e) ps,
    alter (union {[dependent_id e]}) (predecessor_id e) ss)) as Hg.
  { unfold graphs_of. cbn [fst snd]. rewrite !dom_alter_L. split; [done|]. split; [done|]. split; intros p d.
    - rewrite edge_alter_union, Ep, He by (by rewrite Hp). naive_solver.
    - rewrite edge_alter_union, Es, He by (by rewrite Hs). naive_solver. }
  specialize (IH Hg). destruct (try_fold (add_edge by_id) l _) as [s'|err].
  - destruct IH as [Hg' Hl]. split; [done|]. intros e' [->|He']%elem_of_cons; auto.
  - destruct IH as (x & e' & Herr & He' & ?). exists x, e'. split; [done|]. split; [by right|done].
Qed.

(** The checked inputs. *)
Record inputs_ok (by_id : gmap string IssueCardV1) (title_by_id : gmap string string) (s : graph * graph) : Prop := {
  io_admitted : admitted;
  io_nodes x : x ∈ dom by_id ↔ x ∈ ids;
  io_cards k c : by_id !! k = Some c ↔ c ∈ cards ∧ card_id c = k;
  io_titles k t : title_by_id !! k = Some t ↔ mk_Title k t ∈ titles;
  io_graphs : graphs_of (dom by_id) edges s }.

Lemma check_titles_Err title_by_id l e :
  for_each (check_title title_by_id) l = Err e → ∃ x, e = MissingTitle x ∧ x ∈ l ∧ x ∉ dom title_by_id.
Proof.
  induction l as [|x l IH]; cbn; [done|]. rewrite bind_Err. intros [[Hx <-]%ensure_Err|([] & _ & He)].
  - apply bool_decide_eq_false in Hx. exists x. split; [done|]. split; [by left|done].
  - destruct (IH He) as (y & ? & Hy & ?). exists y. split; [done|]. split; [by right|done].
Qed.

Lemma plan_inputs_spec :
  match plan_inputs cards edges titles with
  | Ok (by_id, title_by_id, s) => inputs_ok by_id title_by_id s
  | Err e => fault e ∧ e ≠ RenderedTooLarge
  end.
Proof.
  unfold plan_inputs.
  destruct (Nat.ltb_spec ISSUE_PLAN_MAX_CARDS (length cards)) as [?|Hc]; [split; [by left|done]|].
  destruct (Nat.ltb_spec ISSUE_PLAN_MAX_CARDS (length titles)) as [?|Ht]; [split; [by right|done]|].
  destruct (Nat.ltb_spec ISSUE_PLAN_MAX_EDGES (length edges)) as [?|He]; [done|]. cbn [orb].
  pose proof (add_cards_spec cards [] ∅) as Hcards. cbn [app] in Hcards.
  destruct (try_fold add_card cards ∅) as [by_id|err]; cbn [mbind result_bind].
  2: { destruct Hcards as (x & l1 & l2 & -> & E & Hx); [set_solver|constructor|]. split; [by exists l1, l2|done]. }
  destruct Hcards as [Hn Hm]; [set_solver|constructor|].
  assert (Hnodes : ∀ x, x ∈ dom by_id ↔ x ∈ ids).
  { intros x. rewrite elem_of_dom, list_elem_of_fmap. split; [intros [c [Hin <-]%Hm]; by exists c|].
    intros (c & -> & Hin). exists c. by apply Hm. }
  pose proof (add_titles_spec by_id titles [] ∅) as Htitles. cbn [app] in Htitles.
  destruct (try_fold (add_title by_id) titles ∅) as [title_by_id|err]; cbn [mbind result_bind].
  2: { destruct Htitles as (x & [(-> & Hx & Hout)|(-> & l1 & l2 & E & Hx)]); [set_solver|constructor|set_solver|..].
       - rewrite Hnodes in Hout. done.
       - split; [by exists l1, l2|done]. }
  destruct Htitles as (Hnt & Hsub & Hmt); [set_solver|constructor|set_solver|].
  assert (Htn : ∀ x, x ∈ dom title_by_id ↔ x ∈ map title_id titles).
  { intros x. rewrite elem_of_dom, list_elem_of_fmap. split; [intros [t Hin%Hmt]; by exists (mk_Title x t)|].
    intros ([k t] & -> & Hin). exists t. by apply Hmt. }
  destruct (for_each (check_title title_by_id) (btree_elements (dom by_id))) as [[]|err] eqn:Ef;
    cbn [mbind result_bind].
  2: { apply check_titles_Err in Ef as (x & -> & Hx & Hnot).
       rewrite elem_of_btree_elements, Hnodes in Hx. rewrite Htn in Hnot. done. }
  rewrite for_each_Ok in Ef.
  pose proof (add_edges_spec by_id edges [] (gset_to_gmap ∅ (dom by_id), gset_to_gmap ∅ (dom by_id))) as Hedges.
  assert (graphs_of (dom by_id) [] (gset_to_gmap ∅ (dom by_id), gset_to_gmap ∅ (dom by_id))) as Hstart.
  { unfold graphs_of, edge. cbn [fst snd]. rewrite dom_gset_to_gmap. split; [done|]. split; [done|].
    split; intros p d; (split; [|by intros ?%elem_of_nil]);
      intros (s & [_ <-]%lookup_gset_to_gmap_Some & Hx); by apply elem_of_empty in Hx. }
  specialize (Hedges Hstart). cbn [app] in Hedges.
  destruct (try_fold (add_edge by_id) edges _) as [s|err]; cbn [mbind result_bind].
  2: { destruct Hedges as (x & e & -> & Hin & Hx & Hout). rewrite Hnodes in Hout. split; [by exists e|done]. }
  destruct Hedges as [Hg Hknown]. split; try done. split; try done.
  - apply NoDup_Permutation; [done..|]. intros x. split.
    + intros Hx. by apply Hnodes, Hsub.
    + intros Hx%Hnodes%elem_of_btree_elements. apply Ef in Hx. apply ensure_Ok, bool_decide_eq_true in Hx.
      by apply Htn.
  - intros e Hin. rewrite <- !Hnodes. by apply Hknown.
Qed.
End inputs.

(** ** What a plan is *)

(** [p] is a prerequisite of [x] that no other prerequisite implies. *)
Definition nearest (R : relation string) (p x : string) : Prop := tc R p x ∧ ¬ ∃ o, tc R p o ∧ tc R o x.
(** The nodes on a common cycle with [x], sorted. *)
Definition component (R : relation string) (x : string) (c : list string) : Prop :=
  NoDup c ∧ StronglySorted (key_le id) c ∧ ∀ y, y ∈ c ↔ rtc R x y ∧ rtc R y x.

Section equivalent.
Context (R R' : relation string) (HR : ∀ x y, R x y ↔ R' x y).

Lemma tc_iff x y : tc R x y ↔ tc R' x y.
Proof.
  split; (induction 1 as [a b Hab|a b c Hab _ IH]; [by apply tc_once, HR|apply (tc_l _ _ b); [by apply HR|done]]).
Qed.
Lemma rtc_iff x y : rtc R x y ↔ rtc R' x y.
Proof. by rewrite !rtc_tc, tc_iff. Qed.
Lemma nearest_iff p x : nearest R p x ↔ nearest R' p x.
Proof. unfold nearest. by setoid_rewrite tc_iff. Qed.
Lemma component_iff x c : component R x c ↔ component R' x c.
Proof. unfold component. by setoid_rewrite rtc_iff. Qed.
End equivalent.

Section plans.
Context (cards : list IssueCardV1) (edges : list ExplicitIssueEdge) (titles : list IssuePlanTitle).

Abbreviation depends := (dependency edges).

Definition item_ok (direct : relation string) (item : TodoItem) : Prop :=
  (∃ c, c ∈ cards ∧ card_id c = item_id item ∧ item_key item = priority_order c) ∧
  mk_Title (item_id item) (item_title item) ∈ titles ∧
  NoDup (item_prerequisites item) ∧ StronglySorted (key_le id) (item_prerequisites item) ∧
  ∀ p, p ∈ item_prerequisites item ↔ direct p (item_id item).

(** Every item comes after its prerequisites, and among the cards whose
    prerequisites came before it is one of greatest priority. *)
Definition greedy_order (items : list TodoItem) : Prop :=
  ∀ l1 item l2, items = l1 ++ item :: l2 →
    (∀ p, depends p (item_id item) → p ∈ map item_id l1) ∧
    ∀ c, c ∈ cards → card_id c ∉ map item_id l1 → (∀ p, depends p (card_id c) → p ∈ map item_id l1) →
      order_key_cmp (priority_order c) (item_key item) ≠ Gt.

Definition plan_ok (plan : TodoPlan) : Prop :=
  match plan with
  | Resolved items =>
      (∀ x, ¬ tc depends x x) ∧ map item_id items ≡ₚ map card_id cards ∧
      Forall (item_ok (nearest depends)) items ∧ greedy_order items
  | Unresolved items cycles =>
      (∃ x, tc depends x x) ∧ map item_id items = sort_by_key id (map card_id cards) ∧
      Forall (item_ok depends) items ∧ NoDup cycles ∧ StronglySorted (le_by (cmp_list String.compare)) cycles ∧
      (∀ c, c ∈ cycles → ∃ x, tc depends x x ∧ component depends x c) ∧
      ∀ x, tc depends x x → ∃ c, c ∈ cycles ∧ component depends x c
  end.

Context (by_id : gmap string IssueCardV1) (title_by_id : gmap string string) (predecessors successors : graph).
Context (Hin : inputs_ok cards edges titles by_id title_by_id (predecessors, successors)).

Lemma graph_edge p d : edge successors p d ↔ depends p d.
Proof. apply (io_graphs _ _ _ _ _ _ Hin). Qed.
Lemma graph_back p d : edge predecessors d p ↔ depends p d.
Proof. apply (io_graphs _ _ _ _ _ _ Hin). Qed.
Lemma graph_nodes : dom successors = dom by_id ∧ dom predecessors = dom by_id.
Proof. destruct (io_graphs _ _ _ _ _ _ Hin) as (? & ? & _). done. Qed.
Lemma graph_closed : closed successors.
Proof.
  intros x y He%graph_edge. destruct graph_nodes as [-> _].
  apply (io_nodes _ _ _ _ _ _ Hin). by destruct (ad_known _ _ _ (io_admitted _ _ _ _ _ _ Hin) _ He).
Qed.

Lemma todo_items (reduced : graph) (direct : relation string) ids :
  dom reduced = dom by_id → (∀ p x, edge reduced x p ↔ direct p x) → (∀ x, x ∈ ids → x ∈ dom by_id) →
  ∃ items, mapM (todo_item by_id title_by_id reduced) ids = Some items ∧ map item_id items = ids ∧
    Forall (item_ok direct) items.
Proof.
  intros Hdom Hdirect. induction ids as [|x ids IH]; intros Hids; cbn [mapM]; [by exists []|].
  destruct IH as (items & E & Hi & Hok); [intros y Hy; apply Hids; by right|].
  assert (Hx : x ∈ dom by_id) by (apply Hids; by left). pose proof Hx as [c Ec]%elem_of_dom.
  pose proof Hx as Ht. rewrite (io_nodes _ _ _ _ _ _ Hin) in Ht.
  rewrite <- (ad_named _ _ _ (io_admitted _ _ _ _ _ _ Hin)) in Ht.
  apply list_elem_of_fmap in Ht as ([k t] & -> & Ht). cbn [title_id] in *.
  assert (title_by_id !! k = Some t) as Et by by apply (io_titles _ _ _ _ _ _ Hin).
  pose proof Hx as Hr. rewrite <- Hdom in Hr. apply elem_of_dom in Hr as [s Es].
  assert (todo_item by_id title_by_id reduced k =
    Some (mk_Item k t (btree_elements s) (priority_order c))) as ->.
  { unfold todo_item. by rewrite Et, Es, Ec. }
  cbn [mbind option_bind]. rewrite E. cbn. eexists. split; [done|]. split; [by cbn; f_equal|].
  constructor; [|done]. apply (io_cards _ _ _ _ _ _ Hin) in Ec as [Hc Eid].
  split; [by exists c|]. split; [done|]. cbn [item_prerequisites item_id].
  split; [unfold btree_elements; rewrite sort_by_key_Permutation; apply NoDup_elements|].
  split; [apply sort_by_key_sorted|]. intros p. rewrite <- Hdirect, elem_of_btree_elements. unfold edge. naive_solver.
Qed.

Lemma plan_of_ok : ∃ plan, plan_of by_id title_by_id (predecessors, successors) = Some plan ∧ plan_ok plan.
Proof.
  pose proof graph_closed as Hclosed. destruct graph_nodes as [Hs Hp].
  destruct (strongly_connected_spec successors Hclosed) as (cycles & E & Hnd & Hsort & Hsound & Hcomplete).
  pose proof (strongly_connected_acyclic successors Hclosed cycles E) as Hnil.
  assert (Hcyc : ∀ x, cyclic successors x ↔ tc depends x x) by (intros x; apply tc_iff, graph_edge).
  assert (Hunique : NoDup (map card_id cards)) by apply (io_admitted _ _ _ _ _ _ Hin).
  assert (Hperm : elements (dom successors) ≡ₚ map card_id cards).
  { rewrite Hs. apply NoDup_Permutation; [apply NoDup_elements|done|]. intros x.
    rewrite elem_of_elements. apply (io_nodes _ _ _ _ _ _ Hin). }
  unfold plan_of. rewrite E. cbn [mbind option_bind]. destruct (is_nil cycles).
  - destruct Hnil as [Hacyclic _]. specialize (Hacyclic eq_refl).
    destruct (transitive_reduction_spec successors Hclosed Hacyclic predecessors) as (r & -> & Hr & Hcover).
    { by rewrite Hp, Hs. }
    { intros p x. by rewrite graph_back, graph_edge. }
    cbn [mbind option_bind].
    destruct (ordered_ids_spec order_key_cmp (priority_order <$> by_id) successors) as (ids & -> & Hids & Hgreedy);
      [by rewrite dom_fmap_L, Hs|done|done|].
    cbn [mbind option_bind].
    destruct (todo_items r (nearest depends) ids) as (items & -> & Ei & Hok).
    { by rewrite Hr. }
    { intros p x. rewrite Hcover. apply (nearest_iff (edge successors)), graph_edge. }
    { intros x. by rewrite Hids, elem_of_elements, Hs. }
    cbn [mbind option_bind]. eexists. split; [done|]. split; [intros x Hx; by apply (Hacyclic x), Hcyc|].
    split; [by rewrite Ei, Hids|]. split; [done|]. intros l1 item l2 ->.
    rewrite map_app in Ei. cbn [map] in Ei. destruct (Hgreedy _ _ _ (eq_sym Ei)) as [Hbefore Hmax]. split.
    + intros p Hd. by apply Hbefore, graph_edge.
    + intros c Hc Hn Hcp. destruct (Hmax (card_id c)) as (kx & ky & Ex & Ey & Hle).
      * rewrite Hs. apply (io_nodes _ _ _ _ _ _ Hin), list_elem_of_fmap. by exists c.
      * done.
      * intros p He%graph_edge. by apply Hcp.
      * apply Forall_app in Hok as [_ Hok]. apply Forall_cons in Hok as [((c' & Hc' & Eid & Ek) & _) _].
        rewrite lookup_fmap in Ex, Ey.
        rewrite (proj2 (io_cards _ _ _ _ _ _ Hin (card_id c) c)) in Ex by done.
        rewrite (proj2 (io_cards _ _ _ _ _ _ Hin (item_id item) c')) in Ey by done.
        cbn in Ex, Ey. rewrite Ek. congruence.
  - assert (∃ x, cyclic successors x) as [x Hx].
    { destruct cycles as [|c cycles']; [by destruct Hnil as [_ Hn]; discriminate Hn; intros x (c & Hc%elem_of_nil & _)%Hcomplete|].
      destruct (Hsound c) as (x & Hx & _); [by left|by exists x]. }
    cbn [ordered_ids mbind option_bind].
    destruct (todo_items predecessors depends (btree_elements (dom successors))) as (items & -> & Ei & Hok).
    { done. }
    { apply graph_back. }
    { intros y. by rewrite elem_of_btree_elements, Hs. }
    cbn [mbind option_bind]. eexists. split; [done|]. split; [exists x; by apply Hcyc|].
    split; [rewrite Ei; unfold btree_elements; apply (sort_by_key_unique id), Hperm|]. split; [done|]. split; [done|]. split; [done|]. split.
    + intros c (y & Hy & Hc)%Hsound. exists y. split; [by apply Hcyc|].
      by apply (component_iff (edge successors) _ graph_edge).
    + intros y (c & Hc & Hcomp)%Hcyc%Hcomplete. exists c. split; [done|].
      by apply (component_iff (edge successors) _ graph_edge).
Qed.
End plans.

